(* ===== verification/_CoqProject ===== *)
-Q . S2P
Prelude.v
RustStr.v
Net.v
Paths.v
TunnelConfig.v
Protocol.v
RateLimit.v
ConfigFiles.v
Identity.v
Resource.v
TunnelRuntime.v
Listeners.v
ServerSession.v
ProxyConfig.v
Router.v
CertResolver.v
Disk.v
Cache.v
CertManager.v
ManagerProps.v
ConfigEdits.v
ConfigStore.v
Store.v
StoreRuns.v
Auth.v
Api.v
ConnLimit.v
ProxyService.v
ProxyListeners.v
ProxyServer.v
ConnTasks.v
ClientSession.v
ClientLink.v
Watcher.v
ClientLoop.v
Socks5.v
Relay.v
Streams.v
Datagrams.v
Selection.v
Certificate.v
Login.v
ClientRuntime.v
Dns.v
Acme.v
Instance.v
Startup.v
ServerRun.v
ProxyCommands.v
