(* ===== verification/Prelude.v ===== *)
(** * GateRust: a verification development

    GateRust is a reverse proxy with automatic certificates and a tunnel that
    publishes services behind NAT.  This library models the decision-making
    code of its Rust crates under [src/crates/] and proves what makes it
    correct.  This file is the root: it documents the development and holds
    the notation, the [result] type, the automation and the generic lemmas
    that the other files share.

    ** The program and the files

    The tunnel ([gaterust-tunnel/src]).  A server owns a set of public
    listeners; clients connect over QUIC, authenticate with a group key,
    declare services, and are handed the public connections of the tunnels
    they own.

    - [TunnelConfig]: the data and validators of [config.rs] and the texts of
      [error.rs].  [ConfigFiles]: reading, creating and atomically saving the
      client configuration on a file system whose calls may fail.
    - [Protocol]: [protocol.rs].  Frames and datagrams as bytes, and their
      readers as futures that may be dropped between two polls.
    - [RateLimit]: [rate_limit.rs], a token bucket with debt, in nanoseconds.
    - [Identity]: [identity.rs], the persistent identifier of a device.
    - [Resource]: [resource.rs] and the admission of connections of
      [server/mod.rs]; permits and their drops as steps of a transition system.
    - [TunnelRuntime]: [runtime.rs], the state shared by all sessions: who is
      online, which session owns which tunnel, the revision watchers wait for.
    - [Listeners]: [ListenerManager] and [reload_server] of [server/mod.rs] and
      [server/endpoint.rs].
    - [ServerSession]: authentication, the loop of the control session, the
      certificate bootstrap ([bootstrap.rs]) and close codes ([close.rs]).
    - [ServerRun]: [run_server_with_runtime] as a whole: clients that connect,
      authenticate and leave, reloads and the control plane, interleaved.
    - [Streams]: [server/stream.rs] and the client's answer to it, with the
      waits of both ends.  [Datagrams]: [server/udp.rs] and the reading of
      datagrams in a [select!].  [Socks5]: [server/socks5.rs].  [Relay]:
      [relay.rs].
    - [ClientSession], [ClientLink], [ClientLoop]: [client.rs] and
      [client_control.rs].  A session turn by turn, the two ends of a session
      joined by their messages, and the loop that connects again.
    - [Certificate]: [certificate.rs] and [tls.rs].  [Watcher]: [watcher.rs]
      of both crates, a future that can be dropped between two polls.

    The reverse proxy ([gaterust-proxy/src]).  A configuration names ACME
    accounts, certificates and routes; TLS picks a certificate by server name,
    the router picks an upstream by host and path.

    - [ProxyConfig]: [config.rs], [error.rs] and the views of [api_model.rs].
    - [Router]: [router.rs].  [CertResolver]: the table of names of [tls.rs].
    - [Cache]: [cache.rs], on a disk where every system call can fail or be
      the last one before the process is killed; [power_cut] is what a power
      failure can leave of files that were never flushed.
    - [CertManager]: [runtime.rs] and [DirectResolver] of [tls.rs], one
      transition per turn of the manager's loop; the turns of the lock while a
      configuration is applied are [lock_turns].  [ManagerProps]: the theorems
      on the states it reaches.  [ProxyCommands]: its handle [ProxyRuntime],
      the channel of commands and the calls that wait for their answers.
    - [ConnLimit]: the connection limit of [connection.rs], one step per
      atomic operation.  [ConnTasks]: the tasks of connections and the loop of
      a listener.  [ProxyService]: [proxy.rs], what becomes of a request and
      its headers.
    - [ProxyListeners]: [listener.rs].  [ProxyServer]: [server.rs], start,
      reloads and shutdown of the whole proxy.
    - [Acme]: [acme.rs], an issuance between the calls of the ACME library.
      [Dns]: [dns.rs], the zone of a challenge, and changes of the records of
      an account by tasks that interleave and can be dropped; a request that
      was given up may still be carried out ([late]).

    The control plane ([gaterust-control/src]).  An authenticated HTTP
    interface edits the two configuration files and waits until the runtimes
    report them applied.

    - [ConfigEdits]: the edits of [store.rs] as functions on configurations.
      [ConfigStore]: reading, validating and replacing a file; it is generic
      in the configuration.  [Store]: [ConfigStore], the two instances, the
      confirmation by the runtimes, the snapshot and the dashboard.
      [StoreRuns]: requests and updates that interleave, with every way a
      write can end ([write_end]).
    - [Auth]: [auth.rs] and [config.rs].  [Api]: [api.rs], the table of
      routes, access control and every handler.

    The clients ([gaterust-client/src], [client/src-tauri/src]) and the server
    program ([gaterust-server/src]).

    - [Selection]: the tunnels a user enables.  [Login]: the login, which pins
      the certificate of the server ([trust.rs]).  [ClientRuntime]: logins,
      cancellations and shutdowns that interleave.
    - [Instance]: one desktop client per user ([instance.rs]), as processes
      that share three files and can fail or be killed at any point ([Died]).
    - [Startup]: supervision of the modules ([main.rs]), the watcher of the
      control plane ([gaterust-control/src/lib.rs]), paths, arguments, the
      first configuration and the exit of the desktop client.

    Shared: [RustStr] (what the code uses of Rust's [str]), [Net] (socket
    addresses), [Paths] (paths, files and I/O errors), [Disk] (system calls
    that can fail, in a monad that also models the end of the process).

    ** How code becomes definitions

    A function that can fail returns [result E A]; [?] is the monad's bind.
    Methods on [&mut self] take the state and return the new one.  A struct is
    a [Record], an enum an [Inductive] with the source's constructors.
    [HashMap]s are [gmap]s; where the iteration order of a map or the choice
    of an unstable sort can be observed, it is an argument ([iter], class
    [Orders]) and the theorems hold for every choice.  Shared objects
    ([Arc], semaphores, tokens) are handles into a store of the state, so that
    aliasing is visible.  Concurrent tasks are steps of a relation, and the
    theorems quantify over all interleavings ([rtc]).  Strings are byte lists;
    integers are [N] with the wrap-around, saturation and bounds of the source
    written out.

    Code outside [src/] is a parameter: classes for TOML, JSON, X.509, rustls,
    HMAC, URIs and the disk, with laws only where the code relies on them
    (such as a serialiser its parser inverts).  Every theorem with hypotheses
    comes with a witness, where these parameters are concrete functions.

    ** What the theorems show

    - Configuration: each validator accepts exactly the well-formed values
      ([ServerConfig_validate_spec], [ProxyConfig_validate_spec]), loaded
      configurations are in normal form ([load_normal]), the old format
      migrates ([migrate_spec]), saving and loading round-trips.
    - Tunnel: sessions are isolated by group and every tunnel has at most one
      owner in every reachable state ([sessions_invariant], [find_isolated]);
      registration, updates, revocation and the catalogue are specified on
      every branch; every change is announced ([no_silent_change]); reloads
      of listeners are all or nothing ([listeners_apply_spec]).  What a client
      is told by the handshake is the truth about the runtime, also when the
      answer cannot be written ([authenticate_spec]).  In every run of the
      server, what it serves is the configuration it has accepted last
      ([server_follows_file]; when the configuration cannot be fingerprinted a
      failed restoration may only be logged), each session belongs to a live
      task, or to one that panicked or was aborted, and to a key of that
      configuration, and handshakes are limited ([sessions_supervised]).
    - Protocol: round trips and truncation; fragmentation does not matter, but
      dropping a reader in a [select!] does ([interrupted_datagram_lost]).
    - Bounds: traffic never exceeds the rate limit, budgets and permits are
      never overdrawn, retries are backed off within fixed bounds.
    - Proxy: the router implements the declarative choice of a route
      ([router_serves_validated]); a request is answered or forwarded exactly
      as a table of verdicts says ([handle_spec]); TLS serves what the
      configuration says between the turns of the manager and, while it
      applies a new one, what the old or the new one says for every name that
      does not move between certificates ([tls_serves_configuration],
      [moved_domain_unserved]); a served key is
      never lost, outdated issuance results are discarded, every certificate
      that has to be renewed is renewed or put off ([schedule_settles]), and
      the cache survives the end of the process ([store_crash_safe]) but not a
      power failure ([power_cut_splits_pair]).  A running proxy routes and
      deploys by the last configuration it reported as applied, whatever the
      operating system answers to its binds ([proxy_follows_file]).  Calls of its manager take effect one after the
      other in the order of the channel ([commands_linearised]) and are
      answered ([calls_settle]), once the proxy has been started
      ([unstarted_never_answers]).
    - Issuance: an account key is stored before the CA learns it, is marked
      only when the CA has answered and is the key of every retry
      ([account_key_stored_first]), although the end of the process between the
      two writes of a store can leave a new key under the metadata of an old
      one ([torn_account_store]); every record whose creation was reported is handed
      to the cleanup ([authorization_cleans_up]), in the zone a declarative
      choice gives ([zone_of_challenge]); the wait for propagation ends
      ([propagation_wait_ends]); afterwards only the records are left whose
      deletion failed or whose creation was never reported
      ([authorization_restores_records]); tasks that share a DNS account do
      not lose each other's records ([challenge_records_serialised]) unless
      one is dropped, or given up, while it writes
      ([cancelled_put_loses_record]).
    - Clients: a tunnel the server takes for owned is served by its client
      ([owned_tunnels_served]); the client keeps trying, with pauses that
      double up to thirty seconds ([client_keeps_trying]); a login changes
      nothing or everything ([login_all_or_nothing]); after a shutdown no task
      is left but one that has been told to stop
      ([no_task_outlives_shutdown]); at most one client runs, also when
      processes die ([one_client_per_user]), and it exits after its
      connections ([exit_waits_for_shutdown]), if it is asked once.
    - Data: a stream reaches the service it was opened for, or its failure is
      told to whoever still waits for it ([stream_end_to_end]); what is
      relayed is what was read ([relays_faithful]); UDP sessions do not mix
      and hold exactly the permits of what lives ([udp_sessions_isolated]).
    - Connections: the limit is respected and no waiting connection is
      forgotten in any interleaving ([connections_bounded], [no_lost_wakeup]);
      forwarded headers cannot be forged ([prepare_request_spec]).
    - Control plane: a configuration file is valid or untouched whatever fails
      ([config_files_valid]), edits compose sequentially
      ([edits_are_sequential]), also when requests interleave
      ([edits_serialised]), and an acknowledged edit is applied
      ([acknowledged_is_applied]), but so may be one reported as failed
      ([failed_edit_applies]), and a cancelled one erases what came after it
      ([cancelled_edit_erases]); nothing is served without a token, and every
      token goes back to a login ([access_control]); guesses are limited
      ([guesses_bounded]) unless logins overlap ([concurrent_guesses]).

    ** Bounds and fuel

    Loops are structural recursions on their lists; the loops over numbered
    candidates ([Identity]) and over reads ([Protocol]) carry fuel with
    theorems that the fuel given is enough.  Loops over time have their rounds
    as fuel: 11 for a configuration that is being written ([load_until]), 61
    for the propagation of records ([wait_visible], five minutes in steps of
    five seconds), 201 for a lock of the desktop client ([lock_until], ten
    seconds in steps of 50 ms); a pause may be longer than asked, never
    shorter.  The pages of a DNS provider are as many as it says
    ([find_unified_zone]).  Counters of 64 bits (generations,
    revisions) wrap as in the source; theorems that need freshness assume the
    counter is not about to wrap ([enabled]).

    ** Not modelled

    The QUIC, TLS, HTTP, ACME and DNS protocols themselves (third-party
    crates, among them the vendored quinn): what a call of them gives is an
    argument.  Windows and the glue of the desktop shell, the web interfaces,
    static files and build scripts have no decisions to prove.  Logging has no
    effect on the state and is left out everywhere. *)

From stdpp Require Export base tactics decidable list numbers gmap sets strings pretty.
From Stdlib Require Export ZArith Ascii Lia.

(** stdpp's solvers clear hypotheses they may have cleared already. *)
#[export] Set Warnings "-clear-no-such-hyp".

#[global] Open Scope list_scope.
#[global] Open Scope N_scope.

Declare Scope rust_scope.
Delimit Scope rust_scope with rust.
#[global] Open Scope rust_scope.

(** ** Rust strings: a [String]/[&str]/[&[u8]] is the list of its bytes. *)

Notation u8 := ascii (only parsing).
Notation str := (list ascii).

Definition lit : string → str := String.list_ascii_of_string.
Coercion lit : string >-> list.
Arguments lit : simpl never.

(** Decimal rendering of an unsigned integer ([{}] of [format!]). *)
Definition dec (n : N) : str := lit (pretty n).

(** ** [Result<T, E>] and the [?] operator. *)

Inductive result (E A : Type) : Type :=
  | Ok (a : A)
  | Err (e : E).
Arguments Ok {_ _} _.
Arguments Err {_ _} _.

#[global] Instance result_ret {E} : MRet (result E) := λ A a, Ok a.
#[global] Instance result_bind {E} : MBind (result E) := λ A B k m,
  match m with Ok a => k a | Err e => Err e end.
#[global] Instance result_fmap {E} : FMap (result E) := λ A B f m,
  match m with Ok a => Ok (f a) | Err e => Err e end.

Definition is_ok {E A} (r : result E A) : bool :=
  match r with Ok _ => true | Err _ => false end.

Definition map_err {E F A} (f : E → F) (r : result E A) : result F A :=
  match r with Ok a => Ok a | Err e => Err (f e) end.

Definition ok_or {E A} (o : option A) (e : E) : result E A :=
  match o with Some a => Ok a | None => Err e end.

(** [if b { return Err(e) }], as a statement. *)
Definition reject_if {E} (b : bool) (e : E) : result E unit :=
  if b then Err e else Ok tt.

(** A [for] loop whose body threads a state and may leave with [?]. *)
Fixpoint try_for {E S A} (f : S → A → result E S) (s : S) (l : list A) : result E S :=
  match l with
  | [] => Ok s
  | x :: l => s' ← f s x; try_for f s' l
  end.

(** [Vec::len]/[str::len] as a [usize]. *)
Definition len {A} (l : list A) : N := N.of_nat (length l).

(** [(lo..=hi).contains(&n)]. *)
Definition in_incl (lo hi n : N) : bool := (lo <=? n) && (n <=? hi).

(** ** Machine integers *)

Definition u16_max : N := 65535.
Definition u32_max : N := 4294967295.
Definition u64_max : N := 18446744073709551615.
Definition usize_max : N := u64_max.

(** ** Tactics and hint database of the development. *)

Create HintDb rust discriminated.

(** Case analysis on the scrutinee of the first [match]/[if] of the goal. *)
Ltac case_goal :=
  match goal with
  | |- context [match ?x with _ => _ end] =>
      lazymatch x with
      | context [match _ with _ => _ end] => fail
      | _ => let E := fresh "E" in destruct x eqn:E
      end
  end.

(** Same, on a hypothesis. *)
Ltac case_hyp H :=
  match type of H with
  | context [match ?x with _ => _ end] =>
      lazymatch x with
      | context [match _ with _ => _ end] => fail
      | _ => let E := fresh "E" in destruct x eqn:E
      end
  end.

Ltac bsimpl :=
  repeat first
    [ progress rewrite ?bool_decide_eq_true, ?bool_decide_eq_false in *
    | progress rewrite ?negb_true_iff, ?negb_false_iff in *
    | progress rewrite ?andb_true_iff, ?andb_false_iff in *
    | progress rewrite ?orb_true_iff, ?orb_false_iff in *
    | progress rewrite ?N.ltb_lt, ?N.ltb_ge, ?N.leb_le, ?N.leb_gt, ?N.eqb_eq, ?N.eqb_neq in *
    | progress rewrite ?Z.ltb_lt, ?Z.ltb_ge, ?Z.leb_le, ?Z.leb_gt, ?Z.eqb_eq, ?Z.eqb_neq in *
    | progress rewrite ?Nat.ltb_lt, ?Nat.ltb_ge, ?Nat.leb_le, ?Nat.leb_gt, ?Nat.eqb_eq, ?Nat.eqb_neq in * ].

(** ** Facts about [result] *)

Section result_facts.
Context {E S A : Type}.
Implicit Types (f : S → A → result E S) (l : list A).

Lemma is_ok_true {B} (r : result E B) : is_ok r = true ↔ ∃ a, r = Ok a.
Proof. destruct r; simpl; naive_solver. Qed.

Lemma bind_ok {B C} (m : result E B) (k : B → result E C) c :
  (m ≫= k) = Ok c ↔ ∃ b, m = Ok b ∧ k b = Ok c.
Proof. destruct m; simpl; naive_solver. Qed.

Lemma bind_unit_ok {C} (m : result E unit) (k : unit → result E C) c :
  (m ≫= k) = Ok c ↔ m = Ok tt ∧ k tt = Ok c.
Proof. destruct m as [[]|]; simpl; naive_solver. Qed.

Lemma map_err_ok {F B} (f : E → F) (r : result E B) b : map_err f r = Ok b ↔ r = Ok b.
Proof. destruct r; simpl; naive_solver. Qed.

Lemma ok_inj {B} (a b : B) : (Ok a : result E B) = Ok b ↔ a = b.
Proof. naive_solver. Qed.

Lemma unit_ok (u : unit) : (Ok tt : result E unit) = Ok u ↔ True.
Proof. by destruct u. Qed.

Lemma reject_if_ok (b : bool) (e : E) u : reject_if b e = Ok u ↔ b = false.
Proof. destruct b, u; simpl; naive_solver. Qed.

Lemma try_for_app f s l k :
  try_for f s (l ++ k) = (try_for f s l ≫= λ s', try_for f s' k).
Proof.
  revert s; induction l as [|x l IH]; intros s; simpl; [done|].
  destruct (f s x); simpl; auto.
Qed.

(** An invariant of the body is an invariant of the loop. *)
Lemma try_for_inv (P : S → Prop) f s l s' :
  (∀ s x s', x ∈ l → P s → f s x = Ok s' → P s') →
  P s → try_for f s l = Ok s' → P s'.
Proof.
  revert s; induction l as [|x l IH]; intros s Hf Hs; simpl; [naive_solver|].
  rewrite bind_ok. intros (s1 & H1 & H2).
  eapply IH; [|eapply Hf; [left|..]; eauto|done].
  intros; eapply Hf; eauto. by right.
Qed.

(** When the loop state is a function [acc] of the elements consumed so far,
    the loop succeeds exactly when the body succeeds after every prefix, and
    it ends in the state of the whole list. *)
Section accumulated.
Context (f : S → A → result E S) (acc : list A → S).
Hypothesis Hacc : ∀ pre x s', f (acc pre) x = Ok s' → s' = acc (pre ++ [x]).

Lemma try_for_acc_from pre l s' :
  try_for f (acc pre) l = Ok s' ↔
  s' = acc (pre ++ l) ∧
  ∀ p x q, l = p ++ x :: q → is_ok (f (acc (pre ++ p)) x) = true.
Proof.
  revert pre. induction l as [|y l IH]; intros pre; simpl.
  - rewrite app_nil_r. split; [|naive_solver].
    intros [= <-]. split; [done|]. intros [|??] ???; done.
  - rewrite bind_ok. split.
    + intros (s1 & H1 & H2). pose proof (Hacc _ _ _ H1) as ->.
      apply IH in H2 as [-> H2]. rewrite <- (assoc_L (++)). split; [done|].
      intros [|z p] x q; simpl; intros [= -> ->].
      * by rewrite app_nil_r, H1.
      * specialize (H2 p x q eq_refl). by rewrite <- (assoc_L (++)) in H2.
    + intros [-> H]. pose proof (H [] y l eq_refl) as H1.
      rewrite app_nil_r in H1. apply is_ok_true in H1 as [s1 H1].
      exists s1; split; [done|]. pose proof (Hacc _ _ _ H1) as ->.
      apply IH. rewrite <- (assoc_L (++)). split; [done|].
      intros p x q ->. rewrite <- (assoc_L (++)). by apply (H (y :: p) x q).
Qed.

Lemma try_for_acc l s' :
  try_for f (acc []) l = Ok s' ↔
  s' = acc l ∧ ∀ p x q, l = p ++ x :: q → is_ok (f (acc p) x) = true.
Proof. apply (try_for_acc_from []). Qed.
End accumulated.
End result_facts.

#[export] Hint Rewrite @bind_ok @reject_if_ok @is_ok_true : rust.

(** ** Lists *)

(** No duplicates, stated the way an insertion loop checks it. *)
Lemma NoDup_prefixes {A B} (g : A → B) (l : list A) :
  NoDup (g <$> l) ↔ ∀ p x q, l = p ++ x :: q → g x ∉ (g <$> p).
Proof.
  split.
  - intros Hnd p x q ->. rewrite fmap_app in Hnd. simpl in Hnd.
    apply NoDup_app in Hnd as (_ & Hdis & _). intros Hin.
    apply (Hdis _ Hin). by left.
  - induction l as [|x l IH] using rev_ind; simpl; [constructor|].
    intros H. rewrite fmap_app. apply NoDup_app. split_and!.
    + apply IH. intros p y q ->. apply (H p y (q ++ [x])).
      by rewrite <- (assoc_L (++)).
    + intros y Hy Hy'. simpl in Hy'. apply list_elem_of_singleton in Hy' as ->.
      by apply (H l x []) in Hy.
    + apply NoDup_singleton.
Qed.

Lemma Forall_prefixes {A} (P : A → Prop) (l : list A) :
  Forall P l ↔ ∀ p x q, l = p ++ x :: q → P x.
Proof.
  rewrite Forall_forall. split.
  - intros H p x q ->. apply H. apply elem_of_app; right; left.
  - intros H x Hx. apply list_elem_of_split in Hx as (p & q & ->). eauto.
Qed.

(** Counting bound, stated the way a counting loop checks it. *)
Lemma count_prefixes {A} (P : A → Prop) `{∀ x, Decision (P x)} (l : list A) (n : nat) :
  (length (filter P l) ≤ n)%nat ↔
  ∀ p x q, l = p ++ x :: q → P x → (length (filter P (p ++ [x])) ≤ n)%nat.
Proof.
  split.
  - intros Hle p x q -> _. rewrite <- Hle.
    replace (p ++ x :: q) with ((p ++ [x]) ++ q) by by rewrite <- (assoc_L (++)).
    rewrite (filter_app P (p ++ [x])), length_app. lia.
  - induction l as [|x l IH] using rev_ind; simpl; [lia|]. intros Hp.
    destruct (decide (P x)) as [HP|HP].
    + by apply (Hp l x []).
    + rewrite filter_app, filter_cons_False, filter_nil, app_nil_r by done.
      apply IH. intros p y q ->. apply (Hp p y (q ++ [x])).
      by rewrite <- (assoc_L (++)).
Qed.

Lemma NoDup_fmap_filter {X Y} (P : X → Prop) `{∀ x, Decision (P x)} (g : X → Y) (l : list X) :
  NoDup (g <$> l) → NoDup (g <$> filter P l).
Proof.
  intros Hnd. induction l as [|x l IH]; [done|]. cbn [fmap list_fmap] in Hnd.
  apply NoDup_cons in Hnd as [H1 H2]. specialize (IH H2).
  destruct (decide (P x)); [rewrite filter_cons_True by done|by rewrite filter_cons_False].
  cbn [fmap list_fmap]. apply NoDup_cons. split; [|done]. intros Hin. apply H1.
  apply list_elem_of_fmap in Hin as (y & Hy & Hin). apply list_elem_of_filter in Hin as [_ Hin].
  rewrite Hy. by apply list_elem_of_fmap_2.
Qed.

Lemma NoDup_filter_prefixes {A B} (P : A → Prop) `{∀ x, Decision (P x)} (g : A → B) (l : list A) :
  NoDup (g <$> filter P l) ↔
  ∀ p x q, l = p ++ x :: q → P x → g x ∉ (g <$> filter P p).
Proof.
  induction l as [|x l IH] using rev_ind; simpl.
  { split; [intros _ [|??] ???; done|constructor]. }
  assert (Hsnoc : ∀ y p q, l ++ [x] = p ++ y :: q ↔
            (q = [] ∧ p = l ∧ y = x) ∨ ∃ q', q = q' ++ [x] ∧ l = p ++ y :: q').
  { intros y p q. destruct q as [|z q] using rev_ind.
    - split; [intros [-> [= ->]]%app_inj_2; naive_solver|].
      intros [(_ & -> & ->)|([|??] & ? & _)]; done.
    - rewrite app_comm_cons, (assoc_L (++)). clear IHq. split.
      + intros [-> [= ->]]%app_inj_2; [|done]. right. eauto.
      + intros [[? _]|(q' & Hq & ->)]; [by destruct q|].
        apply app_inj_2 in Hq as [-> [= ->]]; [|done]. by rewrite <- (assoc_L (++)). }
  rewrite filter_app, fmap_app, NoDup_app, IH. setoid_rewrite Hsnoc. split.
  - intros (H1 & H2 & _) p y q [(-> & -> & ->)|(q' & -> & Hl)] HP; [|eauto].
    intros Hin. apply (H2 _ Hin). rewrite filter_cons_True by done. left.
  - intros H1. split_and!.
    + intros p y q Hl HP. eapply H1; eauto.
    + intros y Hy Hin. destruct (decide (P x)).
      * rewrite filter_cons_True, filter_nil in Hin by done.
        apply list_elem_of_singleton in Hin as ->.
        eapply (H1 l x []); eauto.
      * rewrite filter_cons_False, filter_nil in Hin by done. by apply not_elem_of_nil in Hin.
    + destruct (decide (P x)).
      * rewrite filter_cons_True, filter_nil by done. apply NoDup_singleton.
      * rewrite filter_cons_False, filter_nil by done. constructor.
Qed.

Lemma in_incl_true lo hi n : in_incl lo hi n = true ↔ lo <= n <= hi.
Proof. unfold in_incl. bsimpl. done. Qed.

Lemma forallb_Forall {A} (f : A → bool) l : forallb f l = true ↔ Forall (λ x, f x = true) l.
Proof.
  induction l as [|x l IH]; simpl; [by split|].
  rewrite andb_true_iff, Forall_cons, IH. done.
Qed.

Lemma list_to_set_snoc {A B} `{Countable B} (g : A → B) (p : list A) x :
  list_to_set (g <$> p ++ [x]) =@{gset B} {[g x]} ∪ list_to_set (g <$> p).
Proof. rewrite fmap_app, list_to_set_app_L. set_solver. Qed.
