(* ===== verification/RustStr.v ===== *)
(** * RustStr: the standard-library string operations the sources use

    A string is the list of its UTF-8 bytes ([Prelude.str]).  The operations
    are those of [core::str] the crates call, on the byte patterns they are
    called with; each comes with the lemma that characterises it. *)

From stdpp Require Import sorting.
From S2P Require Import Prelude.

(** ** Character classes *)

Definition in_range (c : ascii) (lo hi : N) : bool :=
  (lo <=? N_of_ascii c) && (N_of_ascii c <=? hi).

Definition is_ascii_digit (c : ascii) : bool := in_range c 48 57.
Definition is_ascii_uppercase (c : ascii) : bool := in_range c 65 90.
Definition is_ascii_lowercase (c : ascii) : bool := in_range c 97 122.
Definition is_ascii_alphabetic (c : ascii) : bool :=
  is_ascii_uppercase c || is_ascii_lowercase c.
Definition is_ascii_alphanumeric (c : ascii) : bool :=
  is_ascii_alphabetic c || is_ascii_digit c.

Definition to_lower (c : ascii) : ascii :=
  if is_ascii_uppercase c then ascii_of_N (N_of_ascii c + 32) else c.
Definition to_ascii_lowercase (s : str) : str := to_lower <$> s.
Definition eq_ignore_ascii_case (s t : str) : bool :=
  bool_decide (to_ascii_lowercase s = to_ascii_lowercase t).
Definition is_ascii (s : str) : bool := forallb (λ c, N_of_ascii c <? 128) s.

(** [char::to_digit(radix)]. *)
Definition to_digit (radix : N) (c : ascii) : option N :=
  let n := N_of_ascii c in
  let v := if is_ascii_digit c then n - 48
           else if is_ascii_lowercase c then n - 87
           else if is_ascii_uppercase c then n - 55
           else 255 in
  if v <? radix then Some v else None.

(** ** Prefixes, suffixes and searches *)

Fixpoint strip_prefix (p s : str) : option str :=
  match p, s with
  | [], _ => Some s
  | a :: p, b :: s => if bool_decide (a = b) then strip_prefix p s else None
  | _ :: _, [] => None
  end.

Definition strip_suffix (p s : str) : option str :=
  reverse <$> strip_prefix (reverse p) (reverse s).

Definition starts_with (p s : str) : bool := bool_decide (is_Some (strip_prefix p s)).
Definition ends_with (p s : str) : bool := bool_decide (is_Some (strip_suffix p s)).
Definition contains_char (c : ascii) (s : str) : bool := bool_decide (c ∈ s).

(** [str::contains(&str)]. *)
Fixpoint contains_str (p s : str) : bool :=
  starts_with p s || match s with [] => false | _ :: s => contains_str p s end.

(** [split_once(c)]: before and after the first [c]. *)
Fixpoint split_once (c : ascii) (s : str) : option (str * str) :=
  match s with
  | [] => None
  | b :: s => if bool_decide (b = c) then Some ([], s)
              else prod_map (b ::.) id <$> split_once c s
  end.

(** [rsplit_once(c)]: before and after the last [c]. *)
Definition rsplit_once (c : ascii) (s : str) : option (str * str) :=
  '(b, a) ← split_once c (reverse s); Some (reverse a, reverse b).

(** [split(c)]: always at least one piece. *)
Fixpoint split (c : ascii) (s : str) : list str :=
  match s with
  | [] => [[]]
  | b :: s => if bool_decide (b = c) then [] :: split c s
              else match split c s with
                   | p :: ps => (b :: p) :: ps
                   | [] => [[b]]
                   end
  end.

Fixpoint trim_start_matches (f : ascii → bool) (s : str) : str :=
  match s with
  | [] => []
  | b :: s' => if f b then trim_start_matches f s' else s
  end.
Definition trim_end_matches (f : ascii → bool) (s : str) : str :=
  reverse (trim_start_matches f (reverse s)).
Definition trim_matches (f : ascii → bool) (s : str) : str :=
  trim_end_matches f (trim_start_matches f s).

(** ** UTF-8 *)

Definition is_cont (c : ascii) : bool := in_range c 128 191.

(** [s.chars().count()] of valid UTF-8: the bytes that start a scalar value. *)
Definition chars_count (s : str) : nat := length (filter (λ c, is_cont c = false) s).

(** [std::str::from_utf8(s).is_ok()]: the well-formed byte sequences. *)
Fixpoint utf8_valid_fuel (fuel : nat) (s : str) : bool :=
  match fuel with
  | O => false
  | S fuel =>
      match s with
      | [] => true
      | a :: s1 =>
          if N_of_ascii a <? 128 then utf8_valid_fuel fuel s1
          else if in_range a 194 223 then
            match s1 with
            | b :: s2 => is_cont b && utf8_valid_fuel fuel s2
            | _ => false
            end
          else if in_range a 224 239 then
            match s1 with
            | b :: c :: s3 =>
                (if N_of_ascii a =? 224 then in_range b 160 191
                 else if N_of_ascii a =? 237 then in_range b 128 159 else is_cont b)
                && is_cont c && utf8_valid_fuel fuel s3
            | _ => false
            end
          else if in_range a 240 244 then
            match s1 with
            | b :: c :: d :: s4 =>
                (if N_of_ascii a =? 240 then in_range b 144 191
                 else if N_of_ascii a =? 244 then in_range b 128 143 else is_cont b)
                && is_cont c && is_cont d && utf8_valid_fuel fuel s4
            | _ => false
            end
          else false
      end
  end.
Definition utf8_valid (s : str) : bool := utf8_valid_fuel (S (length s)) s.

(** The encodings of the [White_Space] scalar values ([char::is_whitespace]). *)
Definition white_space : list (list N) :=
  [[9]; [10]; [11]; [12]; [13]; [32]; [194;133]; [194;160]; [225;154;128];
   [226;128;128]; [226;128;129]; [226;128;130]; [226;128;131]; [226;128;132];
   [226;128;133]; [226;128;134]; [226;128;135]; [226;128;136]; [226;128;137];
   [226;128;138]; [226;128;168]; [226;128;169]; [226;128;175]; [226;129;159];
   [227;128;128]].
Definition white_space_str : list str := map (map ascii_of_N) white_space.

(** Strip one white-space scalar value of the list [ws] from the front. *)
Fixpoint strip_any (ws : list str) (s : str) : option str :=
  match ws with
  | [] => None
  | w :: ws => match strip_prefix w s with Some r => Some r | None => strip_any ws s end
  end.
Fixpoint trim_front (fuel : nat) (ws : list str) (s : str) : str :=
  match fuel with
  | O => s
  | S fuel => match strip_any ws s with Some r => trim_front fuel ws r | None => s end
  end.
Definition trim_start (s : str) : str := trim_front (length s) white_space_str s.
Definition trim_end (s : str) : str :=
  reverse (trim_front (length s) (map reverse white_space_str) (reverse s)).
(** [str::trim]. *)
Definition trim (s : str) : str := trim_end (trim_start s).

(** ** The ordering of strings: lexicographic on bytes *)

Fixpoint str_leb (a b : str) : bool :=
  match a, b with
  | [], _ => true
  | _ :: _, [] => false
  | x :: a, y :: b =>
      (N_of_ascii x <? N_of_ascii y) || ((N_of_ascii x =? N_of_ascii y) && str_leb a b)
  end.
Definition str_le (a b : str) : Prop := str_leb a b = true.
#[global] Instance str_le_dec a b : Decision (str_le a b) := decide (str_leb a b = true).

(** [sort_by(|l, r| key(l).cmp(key(r)))]. *)
Definition by_key {A} (key : A → str) (x y : A) : Prop := str_le (key x) (key y).
#[global] Instance by_key_dec {A} (key : A → str) x y : Decision (by_key key x y).
Proof. unfold by_key. apply _. Defined.
Definition sort_by_key {A} (key : A → str) (l : list A) : list A := merge_sort (by_key key) l.

(** ** Facts *)

Lemma strip_prefix_Some p s r : strip_prefix p s = Some r ↔ s = p ++ r.
Proof.
  revert s; induction p as [|a p IH]; intros s; simpl; [naive_solver|].
  destruct s as [|b s]; [naive_solver|]. case_bool_decide as Hab; subst.
  - rewrite IH. naive_solver.
  - naive_solver.
Qed.

Lemma strip_suffix_Some p s r : strip_suffix p s = Some r ↔ s = r ++ p.
Proof.
  unfold strip_suffix. rewrite fmap_Some. setoid_rewrite strip_prefix_Some. split.
  - intros (x & Hs & ->). apply (f_equal reverse) in Hs.
    rewrite reverse_involutive, reverse_app, reverse_involutive in Hs. done.
  - intros ->. exists (reverse r). by rewrite reverse_app, reverse_involutive.
Qed.

Lemma starts_with_true p s : starts_with p s = true ↔ ∃ r, s = p ++ r.
Proof.
  unfold starts_with. rewrite bool_decide_eq_true. unfold is_Some.
  by setoid_rewrite strip_prefix_Some.
Qed.

Lemma ends_with_true p s : ends_with p s = true ↔ ∃ r, s = r ++ p.
Proof.
  unfold ends_with. rewrite bool_decide_eq_true. unfold is_Some.
  by setoid_rewrite strip_suffix_Some.
Qed.

Lemma contains_char_true c s : contains_char c s = true ↔ c ∈ s.
Proof. apply bool_decide_eq_true. Qed.
Lemma contains_char_false c s : contains_char c s = false ↔ c ∉ s.
Proof. apply bool_decide_eq_false. Qed.

Lemma split_once_Some c s a b : split_once c s = Some (a, b) ↔ s = a ++ c :: b ∧ c ∉ a.
Proof.
  revert a; induction s as [|x s IH]; intros a; simpl.
  { split; [done|]. intros [H _]. by destruct a. }
  case_bool_decide as Hx; subst.
  - split.
    + intros [= <- <-]. split; [done|]. apply not_elem_of_nil.
    + intros [Heq Hn]. destruct a as [|y a]; simplify_eq/=; [done|]. set_solver.
  - rewrite fmap_Some. split.
    + intros ([a' b'] & Hs & [= -> ->]). apply IH in Hs as [-> Hn].
      split; [done|]. set_solver.
    + intros [Heq Hn]. destruct a as [|y a]; simplify_eq/=.
      exists (a, b). split; [|done]. apply IH. set_solver.
Qed.

Lemma split_once_None c s : split_once c s = None ↔ c ∉ s.
Proof.
  induction s as [|x s IH]; simpl; [set_solver|].
  case_bool_decide; subst; [set_solver|].
  rewrite fmap_None, IH. set_solver.
Qed.

Lemma rsplit_once_Some c s a b : rsplit_once c s = Some (a, b) ↔ s = a ++ c :: b ∧ c ∉ b.
Proof.
  unfold rsplit_once. rewrite bind_Some. split.
  - intros ([x y] & Hs & [= <- <-]). apply split_once_Some in Hs as [Hs Hn].
    apply (f_equal reverse) in Hs. rewrite reverse_involutive in Hs. subst s.
    rewrite reverse_app, reverse_cons, <- (assoc_L (++)). split; [done|].
    by rewrite elem_of_reverse.
  - intros [-> Hn]. exists (reverse b, reverse a).
    rewrite !reverse_involutive. split; [|done]. apply split_once_Some.
    rewrite reverse_app, reverse_cons, <- (assoc_L (++)). split; [done|].
    by rewrite elem_of_reverse.
Qed.

Lemma rsplit_once_None c s : rsplit_once c s = None ↔ c ∉ s.
Proof.
  unfold rsplit_once. rewrite bind_None, split_once_None. split.
  - intros [Hn|([x y] & _ & ?)]; [|done]. by rewrite elem_of_reverse in Hn.
  - intros Hn. left. by rewrite elem_of_reverse.
Qed.

(** Joining the pieces with the separator gives the string back. *)
Fixpoint join (c : ascii) (ps : list str) : str :=
  match ps with
  | [] => []
  | [p] => p
  | p :: ps => p ++ c :: join c ps
  end.

Lemma split_nonempty c s : split c s ≠ [].
Proof.
  induction s as [|x s IH]; simpl; [done|]. case_bool_decide; [done|].
  by destruct (split c s).
Qed.

Lemma join_split c s : join c (split c s) = s.
Proof.
  induction s as [|x s IH]; [done|]. simpl. case_bool_decide; subst.
  - simpl. pose proof (split_nonempty c s). destruct (split c s); [done|].
    by rewrite IH.
  - pose proof (split_nonempty c s). destruct (split c s) as [|p [|p' ps]]; [done|..];
      simpl in *; by rewrite IH.
Qed.

Lemma split_pieces c s : Forall (λ p, c ∉ p) (split c s).
Proof.
  induction s as [|x s IH]; simpl; [repeat constructor; set_solver|].
  case_bool_decide; [constructor; [set_solver|done]|].
  destruct (split c s); inversion IH; subst; constructor; try done; set_solver.
Qed.

Lemma trim_start_matches_app f s :
  ∃ p, s = p ++ trim_start_matches f s ∧ Forall (λ c, f c = true) p.
Proof.
  induction s as [|x s (p & Hs & Hp)]; simpl; [by exists []|].
  destruct (f x) eqn:E; [exists (x :: p)|exists []]; simpl.
  - split; [by f_equal|]. by constructor.
  - done.
Qed.

Lemma trim_start_matches_head f s c r :
  trim_start_matches f s = c :: r → f c = false.
Proof.
  induction s as [|x s IH]; simpl; [done|]. destruct (f x) eqn:E; [done|]. naive_solver.
Qed.

Lemma trim_end_matches_app f s :
  ∃ q, s = trim_end_matches f s ++ q ∧ Forall (λ c, f c = true) q.
Proof.
  destruct (trim_start_matches_app f (reverse s)) as (p & Hs & Hp).
  exists (reverse p). split; [|by apply Forall_reverse].
  unfold trim_end_matches. rewrite <- reverse_app, <- Hs. by rewrite reverse_involutive.
Qed.

Lemma trim_end_matches_last f s c r :
  trim_end_matches f s = r ++ [c] → f c = false.
Proof.
  unfold trim_end_matches. intros H. apply (f_equal reverse) in H.
  rewrite reverse_involutive, reverse_snoc in H.
  by apply trim_start_matches_head in H.
Qed.

Lemma trim_matches_app f s :
  ∃ p q, s = p ++ trim_matches f s ++ q.
Proof.
  destruct (trim_start_matches_app f s) as (p & Hs & _).
  destruct (trim_end_matches_app f (trim_start_matches f s)) as (q & Hs' & _).
  exists p, q. unfold trim_matches. by rewrite <- Hs', <- Hs.
Qed.

Lemma trim_start_matches_id f s :
  (∀ c r, s = c :: r → f c = false) → trim_start_matches f s = s.
Proof. destruct s; simpl; [done|]. intros H. by rewrite (H _ _ eq_refl). Qed.

Lemma trim_end_matches_id f s :
  (∀ c r, s = r ++ [c] → f c = false) → trim_end_matches f s = s.
Proof.
  intros H. unfold trim_end_matches. rewrite trim_start_matches_id, ?reverse_involutive; [done|].
  intros c r Hr. apply (f_equal reverse) in Hr. rewrite reverse_involutive in Hr.
  rewrite reverse_cons in Hr. eauto.
Qed.

(** ASCII lower-casing. *)
Lemma N_of_ascii_lt c : N_of_ascii c < 256.
Proof. apply N_ascii_bounded. Qed.

Lemma to_lower_idemp c : to_lower (to_lower c) = to_lower c.
Proof. destruct c as [[] [] [] [] [] [] [] []]; reflexivity. Qed.

Lemma to_ascii_lowercase_idemp s : to_ascii_lowercase (to_ascii_lowercase s) = to_ascii_lowercase s.
Proof.
  unfold to_ascii_lowercase. rewrite <- list_fmap_compose.
  apply list_fmap_ext. intros ???. simpl. apply to_lower_idemp.
Qed.

Lemma eq_ignore_ascii_case_refl s : eq_ignore_ascii_case s s = true.
Proof. unfold eq_ignore_ascii_case. by apply bool_decide_eq_true. Qed.

Lemma length_to_ascii_lowercase s : length (to_ascii_lowercase s) = length s.
Proof. apply length_fmap. Qed.

Lemma chars_count_le s : (chars_count s ≤ length s)%nat.
Proof. apply length_filter. Qed.

Lemma chars_count_ascii s : is_ascii s = true → chars_count s = length s.
Proof.
  unfold chars_count, is_ascii. induction s as [|c s IH]; simpl; [done|].
  intros [Hc Hs]%andb_true_iff. rewrite filter_cons_True.
  - simpl. by rewrite IH.
  - unfold is_cont, in_range. bsimpl. lia.
Qed.

Lemma N_of_ascii_inj a b : N_of_ascii a = N_of_ascii b → a = b.
Proof. intros H. rewrite <- (ascii_N_embedding a), H. apply ascii_N_embedding. Qed.

#[global] Instance str_le_total : Total str_le.
Proof.
  intros a. unfold str_le. induction a as [|x a IH]; intros [|y b]; simpl; auto.
  destruct (IH b); bsimpl; destruct (N.lt_total (N_of_ascii x) (N_of_ascii y)) as [?|[?|?]]; auto.
Qed.

#[global] Instance str_le_trans : Transitive str_le.
Proof.
  intros a. unfold str_le. induction a as [|x a IH]; intros [|y b] [|z c]; simpl; try done.
  bsimpl. intros [?|[? ?]] [?|[? ?]]; [left; lia|left; lia|left; lia|].
  right. split; [lia|]. by eapply IH.
Qed.

#[global] Instance str_le_antisym : AntiSymm (=) str_le.
Proof.
  intros a. unfold str_le. induction a as [|x a IH]; intros [|y b]; simpl; try done.
  bsimpl. intros [?|[? ?]] [?|[? ?]]; try lia. f_equal; [by apply N_of_ascii_inj|by apply IH].
Qed.

#[global] Instance by_key_total {A} (key : A → str) : Total (by_key key).
Proof. intros x y. apply str_le_total. Qed.
#[global] Instance by_key_trans {A} (key : A → str) : Transitive (by_key key).
Proof. intros x y z. apply str_le_trans. Qed.

Lemma sort_by_key_perm {A} (key : A → str) l : sort_by_key key l ≡ₚ l.
Proof. apply merge_sort_Permutation. Qed.
Lemma sort_by_key_sorted {A} (key : A → str) l : Sorted (by_key key) (sort_by_key key l).
Proof. apply Sorted_merge_sort, _. Qed.
Lemma elem_of_sort_by_key {A} (key : A → str) l x : x ∈ sort_by_key key l ↔ x ∈ l.
Proof. by rewrite sort_by_key_perm. Qed.

Lemma strip_any_None (ws : list str) c s :
  forallb (λ w, match w with a :: _ => negb (bool_decide (a = c)) | [] => false end) ws = true →
  strip_any ws (c :: s) = None.
Proof.
  induction ws as [|w ws IH]; simpl; [done|]. rewrite andb_true_iff. intros [Hw Hs].
  destruct w as [|a w]; [done|]. simpl. case_bool_decide; [done|]. by apply IH.
Qed.

Lemma trim_front_graphic n (ws : list str) s :
  (∀ c, in_range c 33 126 = true →
     forallb (λ w, match w with a :: _ => negb (bool_decide (a = c)) | [] => false end) ws = true) →
  Forall (λ b, in_range b 33 126 = true) s → s ≠ [] → trim_front n ws s = s.
Proof.
  intros Hws Hf Hne. destruct n as [|n]; [done|]. destruct s as [|c s]; [done|].
  inversion Hf; subst. cbn [trim_front]. by rewrite strip_any_None by auto.
Qed.

(** [trim] keeps a string of printable ASCII characters. *)
Lemma trim_graphic s : Forall (λ b, in_range b 33 126 = true) s → trim s = s.
Proof.
  intros Hf. destruct (decide (s = [])) as [->|Hne]; [done|].
  unfold trim, trim_end, trim_start.
  rewrite (trim_front_graphic _ white_space_str) by
    (try done; intros [[] [] [] [] [] [] [] []]; vm_compute; done).
  rewrite trim_front_graphic; [by rewrite reverse_involutive| |by apply Forall_reverse|].
  - intros [[] [] [] [] [] [] [] []]; vm_compute; done.
  - intros Hr. apply (f_equal reverse) in Hr. by rewrite reverse_involutive in Hr.
Qed.

Lemma split_elem c s x : x ∈ s → x = c ∨ ∃ p, p ∈ split c s ∧ x ∈ p.
Proof.
  induction s as [|y s IH]; simpl; [by intros ?%not_elem_of_nil|].
  intros [->|Hx]%elem_of_cons.
  - case_bool_decide; [by left|]. right. destruct (split c s) as [|p ps].
    + exists [y]. split; left.
    + exists (y :: p). split; left.
  - destruct (IH Hx) as [->|(p & Hp & Hxp)]; [by left|]. right. case_bool_decide; subst.
    + exists p. split; [by right|done].
    + destruct (split c s) as [|q ps]; [by apply not_elem_of_nil in Hp|].
      apply elem_of_cons in Hp as [->|Hp]; [exists (y :: q)|exists p]; split; try done; [left|by right|by right].
Qed.

Lemma split_app_sep c s : split c (s ++ [c]) = split c s ++ [[]].
Proof.
  induction s as [|y s IH]; simpl.
  - by rewrite bool_decide_eq_true_2 by done.
  - rewrite IH. case_bool_decide; [done|].
    destruct (split c s) as [|p ps] eqn:E; [by apply split_nonempty in E|done].
Qed.

Lemma split_trailing c s : [] ∈ split c (s ++ [c]).
Proof. rewrite split_app_sep. apply elem_of_app. right. left. Qed.

#[export] Hint Rewrite strip_prefix_Some strip_suffix_Some starts_with_true ends_with_true
  contains_char_true contains_char_false split_once_Some rsplit_once_Some : rust.
