(* ===== verification/Net.v ===== *)
(** * Net: the addresses of [std::net] the sources use

    [IpAddr] and [SocketAddr] with their [Display] and the [FromStr] parser of
    [IpAddr] (the recursive-descent parser of [core::net::parser], with its
    backtracking [read_atomically]). *)

From S2P Require Import Prelude RustStr.

(** ** Data *)

Record Ipv4Addr := { octet0 : N; octet1 : N; octet2 : N; octet3 : N }.

(** The eight 16-bit segments. *)
Definition Ipv6Addr := list N.

Inductive IpAddr :=
  | V4 (a : Ipv4Addr)
  | V6 (segments : Ipv6Addr).

Inductive SocketAddr :=
  | SockV4 (ip : Ipv4Addr) (port : N)
  | SockV6 (ip : Ipv6Addr) (port : N) (flowinfo : N) (scope_id : N).

#[global] Instance Ipv4Addr_eq_dec : EqDecision Ipv4Addr.
Proof. solve_decision. Defined.
#[global] Instance IpAddr_eq_dec : EqDecision IpAddr.
Proof. solve_decision. Defined.
#[global] Instance SocketAddr_eq_dec : EqDecision SocketAddr.
Proof. solve_decision. Defined.

#[global] Instance Ipv4Addr_countable : Countable Ipv4Addr.
Proof.
  refine (inj_countable' (λ a, (octet0 a, octet1 a, octet2 a, octet3 a))
    (λ '(a, b, c, d), {| octet0 := a; octet1 := b; octet2 := c; octet3 := d |}) _).
  by intros [].
Defined.
#[global] Instance IpAddr_countable : Countable IpAddr.
Proof.
  refine (inj_countable' (λ a, match a with V4 a => inl a | V6 s => inr s end)
    (λ s, match s with inl a => V4 a | inr s => V6 s end) _).
  by intros [].
Defined.
#[global] Instance SocketAddr_countable : Countable SocketAddr.
Proof.
  refine (inj_countable'
    (λ a, match a with SockV4 i p => inl (i, p) | SockV6 i p f s => inr (i, p, f, s) end)
    (λ s, match s with inl (i, p) => SockV4 i p | inr (i, p, f, s) => SockV6 i p f s end) _).
  by intros [].
Defined.

Definition sock_port (a : SocketAddr) : N :=
  match a with SockV4 _ p | SockV6 _ p _ _ => p end.
Definition sock_ip (a : SocketAddr) : IpAddr :=
  match a with SockV4 i _ => V4 i | SockV6 i _ _ _ => V6 i end.

Definition is_loopback (a : IpAddr) : bool :=
  match a with
  | V4 a => octet0 a =? 127
  | V6 s => bool_decide (s = [0; 0; 0; 0; 0; 0; 0; 1])
  end.

Definition is_unspecified (a : IpAddr) : bool :=
  match a with
  | V4 a => bool_decide (a = {| octet0 := 0; octet1 := 0; octet2 := 0; octet3 := 0 |})
  | V6 s => bool_decide (s = replicate 8 0)
  end.

(** ** [Display] *)

Definition fmt_ipv4 (a : Ipv4Addr) : str :=
  dec (octet0 a) ++ "." ++ dec (octet1 a) ++ "." ++ dec (octet2 a) ++ "." ++ dec (octet3 a).

Definition hex_digit (n : N) : ascii :=
  ascii_of_N (if n <? 10 then n + 48 else n + 87).
Fixpoint hex_aux (fuel : nat) (n : N) (acc : str) : str :=
  match fuel with
  | O => acc
  | S fuel =>
      let acc := hex_digit (n mod 16) :: acc in
      if n / 16 =? 0 then acc else hex_aux fuel (n / 16) acc
  end.
(** [{:x}] of a [u16]. *)
Definition fmt_hex (n : N) : str := hex_aux 4 n [].

(** The first longest run of zero segments, as (start, len). *)
Fixpoint zero_span (i : nat) (segs : list N) (cur longest : nat * nat) : nat * nat :=
  match segs with
  | [] => longest
  | s :: segs =>
      if s =? 0 then
        let cur := if (cur.2 =? 0)%nat then (i, 1%nat) else (cur.1, S cur.2) in
        zero_span (S i) segs cur (if (longest.2 <? cur.2)%nat then cur else longest)
      else zero_span (S i) segs (0%nat, 0%nat) longest
  end.

Definition fmt_subslice (chunk : list N) : str :=
  match chunk with
  | [] => []
  | first :: tail => fmt_hex first ++ concat (map (λ s, ":"%char :: fmt_hex s) tail)
  end.

Definition fmt_ipv6 (segs : Ipv6Addr) : str :=
  match segs with
  | [0; 0; 0; 0; 0; 65535; g; h] =>
      "::ffff:" ++ fmt_ipv4 {| octet0 := g / 256; octet1 := g mod 256;
                               octet2 := h / 256; octet3 := h mod 256 |}
  | _ =>
      let '(start, len) := zero_span 0 segs (0%nat, 0%nat) (0%nat, 0%nat) in
      if (1 <? len)%nat
      then fmt_subslice (take start segs) ++ "::" ++ fmt_subslice (drop (start + len) segs)
      else fmt_subslice segs
  end.

Definition fmt_ip (a : IpAddr) : str :=
  match a with V4 a => fmt_ipv4 a | V6 s => fmt_ipv6 s end.

Definition fmt_sock (a : SocketAddr) : str :=
  match a with
  | SockV4 ip port => fmt_ipv4 ip ++ ":" ++ dec port
  | SockV6 ip port _ 0 => "[" ++ fmt_ipv6 ip ++ "]:" ++ dec port
  | SockV6 ip port _ scope => "[" ++ fmt_ipv6 ip ++ "%" ++ dec scope ++ "]:" ++ dec port
  end.

(** ** [FromStr]

    A reader returns its result and the rest of the input; a reader that
    fails leaves the input where it was ([read_atomically]). *)

Definition parser (A : Type) := str → option (A * str).

#[global] Instance parser_ret : MRet parser := λ A a s, Some (a, s).
#[global] Instance parser_bind : MBind parser := λ A B k p s,
  match p s with Some (a, r) => k a r | None => None end.

Definition read_given_char (c : ascii) : parser unit := λ s,
  match s with b :: r => if bool_decide (b = c) then Some (tt, r) else None | [] => None end.

Definition read_separator {A} (sep : ascii) (index : nat) (inner : parser A) : parser A :=
  if (0 <? index)%nat then _ ← read_given_char sep; inner else inner.

(** The digit loop of [read_number]: [None] on more than [max] digits. *)
Fixpoint read_digits (radix : N) (max count : nat) (acc : N) (s : str)
  : option (nat * N * str) :=
  match s with
  | b :: r =>
      match to_digit radix b with
      | Some d =>
          if (max <? S count)%nat then None
          else read_digits radix max (S count) (acc * radix + d) r
      | None => Some (count, acc, s)
      end
  | [] => Some (count, acc, [])
  end.

Definition read_number (radix : N) (max : nat) (allow_zero_prefix : bool) (bound : N)
  : parser N := λ s,
  let has_leading_zero := match s with b :: _ => bool_decide (b = "0"%char) | [] => false end in
  match read_digits radix max 0 0 s with
  | Some (count, n, r) =>
      if (count =? 0)%nat then None
      else if negb allow_zero_prefix && has_leading_zero && (1 <? count)%nat then None
      else if n <=? bound then Some (n, r) else None
  | None => None
  end.

Definition read_octet (i : nat) : parser N :=
  read_separator "."%char i (read_number 10 3 false 255).

Definition read_ipv4_addr : parser Ipv4Addr :=
  a ← read_octet 0; b ← read_octet 1; c ← read_octet 2; d ← read_octet 3;
  mret {| octet0 := a; octet1 := b; octet2 := c; octet3 := d |}.

(** [read_groups]: the groups read, whether they end in an IPv4 address, and
    the rest of the input; [limit] is the number of groups asked for and
    [todo] how many of them are left. *)
Fixpoint read_groups (todo i : nat) (acc : list N) (s : str) : list N * bool * str :=
  match todo with
  | O => (acc, false, s)
  | S todo' =>
      let plain :=
        match read_separator ":"%char i (read_number 16 4 true 65535) s with
        | Some (g, r) => read_groups todo' (S i) (acc ++ [g]) r
        | None => (acc, false, s)
        end in
      if (0 <? todo')%nat then
        match read_separator ":"%char i read_ipv4_addr s with
        | Some (v4, r) =>
            (acc ++ [octet0 v4 * 256 + octet1 v4; octet2 v4 * 256 + octet3 v4], true, r)
        | None => plain
        end
      else plain
  end.

Definition read_ipv6_addr : parser Ipv6Addr := λ s,
  let '(head, head_ipv4, r) := read_groups 8 0 [] s in
  if (length head =? 8)%nat then Some (head, r)
  else if head_ipv4 then None
  else match (_ ← read_given_char ":"%char; read_given_char ":"%char : parser unit) r with
       | Some (_, r') =>
           let '(tail, _, r'') := read_groups (8 - (length head + 1)) 0 [] r' in
           Some (head ++ replicate (8 - length head - length tail) 0 ++ tail, r'')
       | None => None
       end.

Definition read_ip_addr : parser IpAddr := λ s,
  match read_ipv4_addr s with
  | Some (a, r) => Some (V4 a, r)
  | None => prod_map V6 id <$> read_ipv6_addr s
  end.

(** [s.parse::<IpAddr>().ok()]: the whole input has to be consumed. *)
Definition parse_ip (s : str) : option IpAddr :=
  match read_ip_addr s with Some (a, []) => Some a | _ => None end.

(** ** Facts *)

Example parse_ip_examples :
  parse_ip "127.0.0.1" = Some (V4 {| octet0 := 127; octet1 := 0; octet2 := 0; octet3 := 1 |})
  ∧ parse_ip "::1" = Some (V6 [0; 0; 0; 0; 0; 0; 0; 1])
  ∧ parse_ip "fe80::a:0:1" = Some (V6 [65152; 0; 0; 0; 0; 10; 0; 1])
  ∧ parse_ip "::ffff:10.0.0.1" = Some (V6 [0; 0; 0; 0; 0; 65535; 2560; 1])
  ∧ parse_ip "127.0.0.01" = None ∧ parse_ip "256.0.0.1" = None
  ∧ parse_ip "1.2.3.4 " = None ∧ parse_ip "localhost" = None
  ∧ fmt_ip (V6 [65152; 0; 0; 0; 0; 10; 0; 1]) = lit "fe80::a:0:1".
Proof. by vm_compute. Qed.

Lemma read_number_bound radix max z bound s n r :
  read_number radix max z bound s = Some (n, r) → n <= bound.
Proof. unfold read_number. intros H. repeat case_hyp H; simplify_eq; by apply N.leb_le. Qed.

Lemma read_separator_inv {A} sep i (p : parser A) s a r :
  read_separator sep i p s = Some (a, r) → ∃ s', p s' = Some (a, r).
Proof.
  unfold read_separator. destruct (0 <? i)%nat; [|eauto].
  unfold mbind, parser_bind. destruct (read_given_char sep s) as [[[] s']|]; [eauto|done].
Qed.

Definition ipv4_ok (a : Ipv4Addr) : Prop :=
  octet0 a <= 255 ∧ octet1 a <= 255 ∧ octet2 a <= 255 ∧ octet3 a <= 255.
Definition ip_ok (a : IpAddr) : Prop :=
  match a with
  | V4 a => ipv4_ok a
  | V6 s => length s = 8%nat ∧ Forall (λ g, g <= 65535) s
  end.

Lemma read_ipv4_ok s a r : read_ipv4_addr s = Some (a, r) → ipv4_ok a.
Proof.
  unfold read_ipv4_addr, mbind, parser_bind. intros H.
  repeat (case_hyp H; simplify_eq/=).
  repeat match goal with H : read_octet _ _ = Some _ |- _ =>
    apply read_separator_inv in H as [? H]; apply read_number_bound in H end.
  unfold mret, parser_ret in H. simplify_eq. done.
Qed.

Lemma read_groups_ok todo i acc s gs b r :
  Forall (λ g, g <= 65535) acc →
  read_groups todo i acc s = (gs, b, r) →
  Forall (λ g, g <= 65535) gs ∧ (length gs <= length acc + todo)%nat.
Proof.
  revert i acc s. induction todo as [|todo IH]; intros i acc s Hacc; simpl.
  { intros [= <- <- <-]. split; [done|lia]. }
  assert (Hplain : (match read_separator ":"%char i (read_number 16 4 true 65535) s with
        | Some (g, r) => read_groups todo (S i) (acc ++ [g]) r
        | None => (acc, false, s) end) = (gs, b, r) →
        Forall (λ g, g <= 65535) gs ∧ (length gs <= length acc + S todo)%nat).
  { destruct read_separator as [[g r']|] eqn:E.
    - apply read_separator_inv in E as [? E]. apply read_number_bound in E.
      intros H. apply IH in H as [??]; [|apply Forall_app; by repeat constructor].
      rewrite length_app in *. simpl in *. split; [done|lia].
    - intros [= <- <- <-]. split; [done|lia]. }
  destruct (0 <? todo)%nat eqn:Ht; [|exact Hplain].
  destruct (read_separator _ _ read_ipv4_addr _) as [[v4 r']|] eqn:E; [|exact Hplain].
  apply read_separator_inv in E as [? E]. apply read_ipv4_ok in E as (?&?&?&?).
  intros [= <- <- <-]. bsimpl. rewrite length_app. simpl. split; [|lia].
  apply Forall_app; repeat constructor; [done|lia..].
Qed.

(** A parsed address has octets (segments) in range. *)
Lemma parse_ip_ok s a : parse_ip s = Some a → ip_ok a.
Proof.
  unfold parse_ip, read_ip_addr. intros H.
  destruct (read_ipv4_addr s) as [[v4 r]|] eqn:E4.
  { destruct r; simplify_eq. eapply read_ipv4_ok; eauto. }
  destruct (read_ipv6_addr s) as [[v6 r]|] eqn:E6; simpl in H; [|done].
  destruct r; simplify_eq. unfold read_ipv6_addr in E6. simpl.
  destruct (read_groups 8 0 [] s) as [[head b] r] eqn:Eh.
  apply read_groups_ok in Eh as [Hh Hl]; [|constructor]. simpl in Hl.
  destruct (length head =? 8)%nat eqn:E8; simplify_eq.
  { bsimpl. done. }
  destruct b; [done|]. unfold mbind, parser_bind in E6.
  repeat (case_hyp E6; simplify_eq/=).
  match goal with H : read_groups _ _ _ _ = _ |- _ =>
    apply read_groups_ok in H as [Ht Htl]; [|constructor] end. bsimpl.
  simpl in Htl. rewrite !length_app, length_replicate. split; [lia|].
  rewrite !Forall_app. split_and!; [done| |done]. apply Forall_replicate. lia.
Qed.
