(* ===== verification/Paths.v ===== *)
(** * Paths: file-system paths and I/O errors of [std] *)

From S2P Require Import Prelude RustStr.

(** ** Paths

    [std::path::Path] up to its own equality: the list of its components.  A
    leading [RootDir] makes it absolute. *)

Inductive component := RootDir | CurDir | ParentDir | Normal (name : str).
Notation Path := (list component).

#[global] Instance component_eq_dec : EqDecision component.
Proof. solve_decision. Defined.
#[global] Instance component_countable : Countable component.
Proof.
  refine (inj_countable'
    (λ c, match c with RootDir => inl 0 | CurDir => inl 1 | ParentDir => inl 2 | Normal n => inr n end)
    (λ s, match s with inl 0 => RootDir | inl 1 => CurDir | inl _ => ParentDir | inr n => Normal n end) _).
  by intros [].
Defined.

Definition path_is_relative (p : Path) : bool :=
  match p with RootDir :: _ => false | _ => true end.
(** [Path::parent]: drops the last component unless it is the root. *)
Definition path_parent (p : Path) : option Path :=
  match last p with
  | None | Some RootDir => None
  | Some _ => Some (removelast p)
  end.
Definition path_file_name (p : Path) : option str :=
  match last p with Some (Normal n) => Some n | _ => None end.
(** [Path::join]: an absolute argument replaces the base, and a leading [.]
    of a joined path disappears. *)
Definition path_join (base p : Path) : Path :=
  match p with
  | RootDir :: _ => p
  | CurDir :: rest => match base with [] => p | _ => base ++ rest end
  | _ => base ++ p
  end.

(** [Path::display] of a path given by its components. *)
Definition fmt_component (c : component) : str :=
  match c with RootDir => [] | CurDir => "." | ParentDir => ".." | Normal n => n end.
Definition fmt_path (p : Path) : str :=
  match p with
  | [RootDir] => "/"
  | _ => join "/"%char (map fmt_component p)
  end.

(** ** The kinds of [std::io::Error] the code tells apart *)

Inductive ErrorKind := NotFound | AlreadyExists | UnexpectedEof | OtherKind (message : str).
