(* ===== verification/TunnelConfig.v ===== *)
(** * TunnelConfig: [gaterust-tunnel/src/config.rs] and [error.rs]

    The tunnel server and client configurations, their validators, and the
    derived values the runtime reads from a validated configuration.
    [ServerConfig_validate_ok] and [ClientConfig_validate_ok] say what the
    validators accept, as declarative well-formedness predicates. *)

From S2P Require Export Paths.
From S2P Require Import Prelude RustStr Net.

(** ** Errors ([error.rs])

    The source errors of the libraries are kept as their rendering, an
    [io::Error] as its kind. *)

Inductive TunnelError :=
  | ReadConfig (path : Path) (source : ErrorKind)
  | ParseConfig (path : Path) (source : str)
  | SerializeConfig (path : Path) (source : str)
  | ConfigFingerprint (source : str)
  | WriteConfig (path : Path) (source : ErrorKind)
  | InvalidConfig (message : str)
  | InvalidAddress (source : str)
  | Io (source : ErrorKind)
  | QuinnConnection (source : str)
  | QuinnConnect (source : str)
  | QuinnWrite (source : str)
  | QuinnRead (source : str)
  | Tls (message : str)
  | ServerCertificateIsCa
  | Protocol (message : str)
  | Authentication (message : str)
  | Timeout (what : str)
  | Notify (source : str).

Notation Result := (result TunnelError).

(** The [Display] of an error; [io] renders an [io::Error]. *)
Definition fmt_error (io : ErrorKind → str) (e : TunnelError) : str :=
  match e with
  | ReadConfig p s => "读取配置 " ++ fmt_path p ++ " 失败: " ++ io s
  | ParseConfig p s => "解析配置 " ++ fmt_path p ++ " 失败: " ++ s
  | SerializeConfig p s => "序列化配置 " ++ fmt_path p ++ " 失败: " ++ s
  | ConfigFingerprint s => "生成运行配置指纹失败: " ++ s
  | WriteConfig p s => "写入配置 " ++ fmt_path p ++ " 失败: " ++ io s
  | InvalidConfig m => "配置无效: " ++ m
  | InvalidAddress s => "地址无效: " ++ s
  | Io s => "I/O 错误: " ++ io s
  | QuinnConnection s => "QUIC 连接失败: " ++ s
  | QuinnConnect s => "QUIC 连接建立失败: " ++ s
  | QuinnWrite s => "QUIC 写入失败: " ++ s
  | QuinnRead s => "QUIC 读取失败: " ++ s
  | Tls m => "TLS 配置失败: " ++ m
  | ServerCertificateIsCa => "TLS 配置失败: 服务端证书链首证书不能是 CA 证书（Basic Constraints CA:TRUE）"
  | Protocol m => "协议错误: " ++ m
  | Authentication m => "认证失败: " ++ m
  | Timeout w => "操作超时: " ++ w
  | Notify s => "文件监听失败: " ++ s
  end.

(** ** Data *)

Definition DEFAULT_MAX_CONNECTIONS : N := 128.
Definition DEFAULT_MAX_UDP_SESSIONS : N := 128.
Definition DEFAULT_UDP_IDLE_SECONDS : N := 60.
Definition DEFAULT_LOCAL_IP : str := "127.0.0.1".
Definition MAX_DATA_STREAMS : N := 512.
Definition MAX_UDP_SESSIONS : N := 128.
Definition MAX_UDP_IDLE_SECONDS : N := 3600.
Definition MAX_QUEUED_UDP_BYTES : N := 16 * 1024 * 1024.
Definition MIN_GROUP_KEY_LENGTH : N := 32.
Definition MAX_GROUP_KEY_LENGTH : N := 124.
Definition MAX_CLIENT_SERVICES : N := 256.

Inductive TunnelKind := Tcp | Udp | Socks5.

#[global] Instance TunnelKind_eq_dec : EqDecision TunnelKind.
Proof. solve_decision. Defined.
#[global] Instance TunnelKind_countable : Countable TunnelKind.
Proof.
  refine (inj_countable' (λ k, match k with Tcp => 0 | Udp => 1 | Socks5 => 2 end)
    (λ n, match n with 0 => Tcp | 1 => Udp | _ => Socks5 end) _).
  by intros [].
Defined.

Record ServerQuicConfig := {
  quic_bind : SocketAddr;
  quic_certificate : Path;
  quic_private_key : Path }.

Record GroupConfig := { group_name : str; group_key : str }.

Record ServerTunnelConfig := {
  tunnel_name : str;
  tunnel_group : str;
  tunnel_kind : TunnelKind;
  tunnel_bind : SocketAddr;
  local_ip : str;
  local_port : option N;
  limit_bps : option N;
  max_connections : N;
  max_udp_sessions : N;
  udp_idle_seconds : N }.

Record ServerConfig := {
  quic : ServerQuicConfig;
  server_groups : list GroupConfig;
  server_tunnels : list ServerTunnelConfig }.

Record ClientServerConfig := {
  server_address : str;
  server_tls_name : option str;
  ca_certificate : option Path }.

Record ClientServiceConfig := {
  service_name : str;
  service_kind : TunnelKind;
  service_target : option str }.

Record ClientConfig := {
  client_key : str;
  client_server : ClientServerConfig;
  client_services : list ClientServiceConfig }.

#[global] Instance ServerTunnelConfig_eq_dec : EqDecision ServerTunnelConfig.
Proof. solve_decision. Defined.
#[global] Instance ServerQuicConfig_eq_dec : EqDecision ServerQuicConfig.
Proof. solve_decision. Defined.
#[global] Instance GroupConfig_eq_dec : EqDecision GroupConfig.
Proof. solve_decision. Defined.
#[global] Instance ServerConfig_eq_dec : EqDecision ServerConfig.
Proof. solve_decision. Defined.
#[global] Instance ClientServiceConfig_eq_dec : EqDecision ClientServiceConfig.
Proof. solve_decision. Defined.
#[global] Instance ClientServerConfig_eq_dec : EqDecision ClientServerConfig.
Proof. solve_decision. Defined.

(** The bytes of a group key. *)
Definition GroupSecret := str.
Definition GroupSecret_new (value : str) : GroupSecret := value.

(** ** Operations *)

Definition client_local_port (t : ServerTunnelConfig) : option N :=
  match tunnel_kind t with
  | Tcp | Udp => Some (default (sock_port (tunnel_bind t)) (local_port t))
  | Socks5 => None
  end.

Definition client_local_ip (t : ServerTunnelConfig) : option str :=
  if bool_decide (tunnel_kind t ≠ Socks5) then Some (local_ip t) else None.

Definition credentials (c : ServerConfig) : list (str * GroupSecret) :=
  map (λ g, (group_name g, GroupSecret_new (group_key g))) (server_groups c).

Definition valid_name_byte (b : ascii) : bool :=
  is_ascii_alphanumeric b || bool_decide (b = "-"%char) || bool_decide (b = "_"%char).

Definition validate_name (kind name : str) : Result unit :=
  _ ← reject_if (bool_decide (name = []) || (64 <? len name))
        (InvalidConfig (kind ++ "名称长度必须为 1..=64"));
  reject_if (negb (forallb valid_name_byte name))
    (InvalidConfig (kind ++ "名称只能包含 ASCII 字母、数字、- 和 _")).

Definition validate_group_key (value : str) : Result unit :=
  let length := N.min (N.of_nat (chars_count value)) (MAX_GROUP_KEY_LENGTH + 1) in
  reject_if (negb (in_incl MIN_GROUP_KEY_LENGTH MAX_GROUP_KEY_LENGTH length))
    (InvalidConfig ("分组密钥长度必须为 " ++ dec MIN_GROUP_KEY_LENGTH ++ "..="
                    ++ dec MAX_GROUP_KEY_LENGTH ++ " 个字符")).

(** One iteration of the loop over the groups: the names and keys seen. *)
Definition validate_group (st : gset str * gset str) (g : GroupConfig)
  : Result (gset str * gset str) :=
  let '(names, keys) := st in
  _ ← validate_name "分组" (group_name g);
  _ ← reject_if (bool_decide (group_name g ∈ names))
        (InvalidConfig ("分组名称重复: " ++ group_name g));
  _ ← validate_group_key (group_key g);
  _ ← reject_if (bool_decide (group_key g ∈ keys))
        (InvalidConfig "不同分组不能使用相同密钥");
  Ok ({[group_name g]} ∪ names, {[group_key g]} ∪ keys).

(** The sets the loop over the tunnels maintains. *)
Record tunnel_sets := {
  seen_names : gset str;
  tunnels_per_group : gmap str N;
  stream_binds : gset SocketAddr;
  udp_binds : gset SocketAddr }.

Definition tunnel_msg (pre : str) (t : ServerTunnelConfig) (post : str) : TunnelError :=
  InvalidConfig (pre ++ tunnel_name t ++ post).

(** The checks of one tunnel that do not depend on the other tunnels. *)
Definition validate_tunnel_fields (t : ServerTunnelConfig) : Result unit :=
  _ ← reject_if (sock_port (tunnel_bind t) =? 0)
        (tunnel_msg "隧道 " t " 的监听端口不能为 0");
  _ ← reject_if (bool_decide (tunnel_kind t = Socks5) && bool_decide (is_Some (local_port t)))
        (tunnel_msg "SOCKS5 隧道 " t " 不应配置 local_port");
  _ ← reject_if (bool_decide (tunnel_kind t ≠ Socks5)
                 && bool_decide (local_ip t ≠ lit "localhost")
                 && bool_decide (parse_ip (local_ip t) = None))
        (tunnel_msg "隧道 " t " 的 local_ip 必须为 localhost 或有效 IP 地址");
  _ ← reject_if (bool_decide (tunnel_kind t = Socks5)
                 && negb (is_loopback (sock_ip (tunnel_bind t))))
        (tunnel_msg "未配置认证的 SOCKS5 隧道 " t " 只能监听回环地址");
  _ ← reject_if (negb (in_incl 1 MAX_DATA_STREAMS (max_connections t)))
        (tunnel_msg "隧道 " t (" 的 max_connections 必须为 1..=" ++ dec MAX_DATA_STREAMS));
  _ ← reject_if (negb (in_incl 1 MAX_UDP_SESSIONS (max_udp_sessions t)))
        (tunnel_msg "隧道 " t (" 的 max_udp_sessions 必须为 1..=" ++ dec MAX_UDP_SESSIONS));
  reject_if (negb (in_incl 1 MAX_UDP_IDLE_SECONDS (udp_idle_seconds t)))
    (tunnel_msg "隧道 " t (" 的 udp_idle_seconds 必须为 1..=" ++ dec MAX_UDP_IDLE_SECONDS)).

(** One iteration of the loop over the tunnels. *)
Definition validate_tunnel (group_names : gset str) (st : tunnel_sets)
  (t : ServerTunnelConfig) : Result tunnel_sets :=
  _ ← validate_name "隧道" (tunnel_name t);
  _ ← reject_if (bool_decide (tunnel_name t ∈ seen_names st))
        (InvalidConfig ("隧道名称重复: " ++ tunnel_name t));
  _ ← reject_if (bool_decide (tunnel_group t ∉ group_names))
        (tunnel_msg "隧道 " t (" 引用了不存在的分组 " ++ tunnel_group t));
  let group_tunnels := default 0 (tunnels_per_group st !! tunnel_group t) + 1 in
  _ ← reject_if (MAX_CLIENT_SERVICES <? group_tunnels)
        (InvalidConfig ("分组 " ++ tunnel_group t ++ " 的隧道不能超过 "
                        ++ dec MAX_CLIENT_SERVICES ++ " 个"));
  _ ← validate_tunnel_fields t;
  let seen := match tunnel_kind t with Udp => udp_binds st | Tcp | Socks5 => stream_binds st end in
  _ ← reject_if (bool_decide (tunnel_bind t ∈ seen))
        (InvalidConfig ("监听地址重复: " ++ fmt_sock (tunnel_bind t)));
  Ok {| seen_names := {[tunnel_name t]} ∪ seen_names st;
        tunnels_per_group := <[tunnel_group t := group_tunnels]> (tunnels_per_group st);
        stream_binds := if bool_decide (tunnel_kind t = Udp) then stream_binds st
                        else {[tunnel_bind t]} ∪ stream_binds st;
        udp_binds := if bool_decide (tunnel_kind t = Udp) then {[tunnel_bind t]} ∪ udp_binds st
                     else udp_binds st |}.

Definition no_tunnels : tunnel_sets :=
  {| seen_names := ∅; tunnels_per_group := ∅; stream_binds := ∅; udp_binds := ∅ |}.

Definition ServerConfig_validate (c : ServerConfig) : Result unit :=
  _ ← reject_if ((256 <? len (server_groups c)) || (1024 <? len (server_tunnels c)))
        (InvalidConfig "分组不能超过 256 个，隧道不能超过 1024 个");
  '(group_names, _) ← try_for validate_group (∅, ∅) (server_groups c);
  _ ← try_for (validate_tunnel group_names) no_tunnels (server_tunnels c);
  Ok tt.

(** One iteration of the loop over the services of a client. *)
Definition validate_service (names : gset str) (s : ClientServiceConfig) : Result (gset str) :=
  _ ← validate_name "服务" (service_name s);
  _ ← reject_if (bool_decide (service_name s ∈ names))
        (InvalidConfig ("服务名称重复: " ++ service_name s));
  _ ← match service_kind s, service_target s with
      | Tcp, Some (_ :: _) | Udp, Some (_ :: _) => Ok tt
      | Socks5, None => Ok tt
      | Socks5, Some _ =>
          Err (InvalidConfig ("SOCKS5 服务 " ++ service_name s ++ " 不应配置固定 target"))
      | _, _ => Err (InvalidConfig ("TCP/UDP 服务 " ++ service_name s ++ " 必须配置 target"))
      end;
  Ok ({[service_name s]} ∪ names).

Definition validate_client_services (services : list ClientServiceConfig) : Result unit :=
  _ ← reject_if (MAX_CLIENT_SERVICES <? len services)
        (InvalidConfig ("单个客户端最多声明 " ++ dec MAX_CLIENT_SERVICES ++ " 个服务"));
  _ ← try_for validate_service ∅ services;
  Ok tt.

Definition address_host (address : str) : option str :=
  match strip_prefix "[" address with
  | Some bracketed => fst <$> split_once "]"%char bracketed
  | None =>
      '(host, port) ← rsplit_once ":"%char address;
      if bool_decide (host ≠ []) && bool_decide (port ≠ []) && negb (contains_char ":"%char host)
      then Some host else None
  end.

Definition server_name (c : ClientConfig) : Result str :=
  match server_tls_name (client_server c) with
  | Some name =>
      _ ← reject_if (bool_decide (name = [])) (InvalidConfig "TLS 服务器名称不能为空");
      Ok name
  | None => ok_or (address_host (server_address (client_server c)))
              (InvalidConfig "无法从服务器地址推导 TLS 服务器名称")
  end.

Definition ClientConfig_validate (c : ClientConfig) : Result unit :=
  _ ← validate_group_key (client_key c);
  _ ← reject_if (bool_decide (server_address (client_server c) = []))
        (InvalidConfig "QUIC 服务器地址不能为空");
  _ ← server_name c;
  validate_client_services (client_services c).

(** The random generator is the caller's: [sample] are the characters drawn. *)
Definition generate_group_key (sample : nat → ascii) : str :=
  map sample (seq 0 (N.to_nat MIN_GROUP_KEY_LENGTH)).

Definition ClientConfig_initial (sample : nat → ascii) : ClientConfig :=
  {| client_key := generate_group_key sample;
     client_server := {| server_address := []; server_tls_name := None; ca_certificate := None |};
     client_services := [] |}.

Definition resolve_path (config_path value : Path) : Path :=
  if path_is_relative value
  then path_join (default [CurDir] (path_parent config_path)) value
  else value.

(** The path resolution of [ServerConfig::load]. *)
Definition resolve_server_paths (path : Path) (c : ServerConfig) : ServerConfig :=
  {| quic := {| quic_bind := quic_bind (quic c);
                quic_certificate := resolve_path path (quic_certificate (quic c));
                quic_private_key := resolve_path path (quic_private_key (quic c)) |};
     server_groups := server_groups c; server_tunnels := server_tunnels c |}.

Definition ClientConfig_resolved (c : ClientConfig) (path : Path) : Result ClientConfig :=
  _ ← ClientConfig_validate c;
  Ok {| client_key := client_key c;
        client_server :=
          {| server_address := server_address (client_server c);
             server_tls_name := server_tls_name (client_server c);
             ca_certificate := resolve_path path <$> ca_certificate (client_server c) |};
        client_services := client_services c |}.

(** ** What the validators promise *)

Record valid_name (n : str) : Prop := {
  name_nonempty : n ≠ [];
  name_length : len n <= 64;
  name_bytes : Forall (λ b, valid_name_byte b = true) n }.

Definition valid_group_key (k : str) : Prop :=
  MIN_GROUP_KEY_LENGTH <= N.of_nat (chars_count k) <= MAX_GROUP_KEY_LENGTH.

Record tunnel_fields_ok (t : ServerTunnelConfig) : Prop := {
  bind_port_ok : sock_port (tunnel_bind t) ≠ 0;
  socks5_ok : tunnel_kind t = Socks5 →
    local_port t = None ∧ is_loopback (sock_ip (tunnel_bind t)) = true;
  local_ip_ok : tunnel_kind t ≠ Socks5 →
    local_ip t = lit "localhost" ∨ is_Some (parse_ip (local_ip t));
  max_connections_ok : 1 <= max_connections t <= MAX_DATA_STREAMS;
  max_udp_sessions_ok : 1 <= max_udp_sessions t <= MAX_UDP_SESSIONS;
  udp_idle_ok : 1 <= udp_idle_seconds t <= MAX_UDP_IDLE_SECONDS }.

Definition tunnels_of_group (g : str) (l : list ServerTunnelConfig) : list ServerTunnelConfig :=
  filter (λ t, tunnel_group t = g) l.
Definition udp_tunnels (l : list ServerTunnelConfig) : list ServerTunnelConfig :=
  filter (λ t, tunnel_kind t = Udp) l.
Definition stream_tunnels (l : list ServerTunnelConfig) : list ServerTunnelConfig :=
  filter (λ t, tunnel_kind t ≠ Udp) l.

Record wf_server (c : ServerConfig) : Prop := {
  wf_group_count : len (server_groups c) <= 256;
  wf_tunnel_count : len (server_tunnels c) <= 1024;
  wf_groups : Forall (λ g, valid_name (group_name g) ∧ valid_group_key (group_key g)) (server_groups c);
  wf_group_names : NoDup (group_name <$> server_groups c);
  wf_group_keys : NoDup (group_key <$> server_groups c);
  wf_tunnels : Forall (λ t, valid_name (tunnel_name t) ∧ tunnel_fields_ok t ∧
                            tunnel_group t ∈ group_name <$> server_groups c) (server_tunnels c);
  wf_tunnel_names : NoDup (tunnel_name <$> server_tunnels c);
  wf_per_group : ∀ g, len (tunnels_of_group g (server_tunnels c)) <= MAX_CLIENT_SERVICES;
  wf_udp_binds : NoDup (tunnel_bind <$> udp_tunnels (server_tunnels c));
  wf_stream_binds : NoDup (tunnel_bind <$> stream_tunnels (server_tunnels c)) }.

Definition service_ok (s : ClientServiceConfig) : Prop :=
  valid_name (service_name s) ∧
  match service_kind s with
  | Socks5 => service_target s = None
  | Tcp | Udp => ∃ t, service_target s = Some t ∧ t ≠ []
  end.

Record wf_services (l : list ClientServiceConfig) : Prop := {
  wf_service_count : len l <= MAX_CLIENT_SERVICES;
  wf_service_each : Forall service_ok l;
  wf_service_names : NoDup (service_name <$> l) }.

(** ** Validators of single fields *)

Lemma validate_name_ok kind n u : validate_name kind n = Ok u ↔ valid_name n.
Proof.
  unfold validate_name. rewrite bind_unit_ok, !reject_if_ok, negb_false_iff, forallb_Forall.
  bsimpl. split; [by intros [[??]?]|by intros []].
Qed.

Lemma validate_group_key_ok k u : validate_group_key k = Ok u ↔ valid_group_key k.
Proof.
  unfold validate_group_key, valid_group_key. rewrite reject_if_ok, negb_false_iff, in_incl_true.
  unfold MIN_GROUP_KEY_LENGTH, MAX_GROUP_KEY_LENGTH. lia.
Qed.

Lemma validate_tunnel_fields_ok t u : validate_tunnel_fields t = Ok u ↔ tunnel_fields_ok t.
Proof.
  unfold validate_tunnel_fields. rewrite !bind_unit_ok, !reject_if_ok.
  rewrite !negb_false_iff, !in_incl_true, !andb_false_iff, !bool_decide_eq_false, negb_false_iff.
  rewrite N.eqb_neq. split.
  - intros (H1 & H2 & H3 & H4 & H5 & H6 & H7). constructor; try done.
    + intros Hk. split; [|by destruct H4].
      destruct H2 as [?|Hn]; [done|]. by apply eq_None_not_Some.
    + intros Hk. destruct H3 as [[?|H3]|H3]; [done|..].
      * left. by apply dec_stable.
      * right. by apply not_eq_None_Some.
  - intros [H1 H2 H3 [??] [??] [??]]. split; [done|].
    destruct (decide (tunnel_kind t = Socks5)) as [Hk|Hk].
    + destruct (H2 Hk) as [-> ?]. split_and!; try done.
      * right. by intros [??].
      * left; left. by intros ?.
      * by right.
    + split_and!; try done; [by left| |by left].
      destruct (H3 Hk) as [->|Hs]; [left; right; by intros ?|right].
      by apply not_eq_None_Some.
Qed.

(** ** The validation loops *)

Definition group_acc (p : list GroupConfig) : gset str * gset str :=
  (list_to_set (group_name <$> p), list_to_set (group_key <$> p)).

Lemma validate_group_acc pre g st :
  validate_group (group_acc pre) g = Ok st ↔
  st = group_acc (pre ++ [g]) ∧ valid_name (group_name g) ∧ valid_group_key (group_key g) ∧
  group_name g ∉ group_name <$> pre ∧ group_key g ∉ group_key <$> pre.
Proof.
  unfold validate_group, group_acc.
  rewrite bind_unit_ok, validate_name_ok, bind_unit_ok, reject_if_ok.
  rewrite bind_unit_ok, validate_group_key_ok, bind_unit_ok, reject_if_ok, ok_inj.
  rewrite !bool_decide_eq_false, !elem_of_list_to_set, !list_to_set_snoc.
  naive_solver.
Qed.

Lemma validate_groups_ok l st :
  try_for validate_group (∅, ∅) l = Ok st ↔
  st = group_acc l ∧ Forall (λ g, valid_name (group_name g) ∧ valid_group_key (group_key g)) l
  ∧ NoDup (group_name <$> l) ∧ NoDup (group_key <$> l).
Proof.
  change (∅, ∅) with (group_acc []). rewrite try_for_acc.
  2: { intros pre x s' H. by apply validate_group_acc in H as [-> _]. }
  setoid_rewrite is_ok_true. setoid_rewrite validate_group_acc.
  rewrite Forall_prefixes, !NoDup_prefixes. split.
  - intros [-> H]. split; [done|]. split_and!; intros p x q Hl; apply H in Hl; naive_solver.
  - intros (-> & H1 & H2 & H3). split; [done|]. intros p x q Hl.
    exists (group_acc (p ++ [x])). split; [done|].
    destruct (H1 _ _ _ Hl). split_and!; eauto.
Qed.

(** The per-group counter of the loop. *)
Definition group_counts (p : list ServerTunnelConfig) : gmap str N :=
  foldl (λ m t, <[tunnel_group t := default 0 (m !! tunnel_group t) + 1]> m) ∅ p.

Lemma group_counts_lookup p g :
  default 0 (group_counts p !! g) = len (tunnels_of_group g p).
Proof.
  unfold group_counts, tunnels_of_group, len. induction p as [|t p IH] using rev_ind; [done|].
  rewrite foldl_app, filter_app, length_app. simpl.
  destruct (decide (tunnel_group t = g)) as [<-|Hne].
  - rewrite lookup_insert_eq, filter_cons_True by done. simpl. rewrite IH. lia.
  - rewrite lookup_insert_ne, filter_cons_False by done. simpl. rewrite IH. lia.
Qed.

Definition tunnel_acc (p : list ServerTunnelConfig) : tunnel_sets :=
  {| seen_names := list_to_set (tunnel_name <$> p);
     tunnels_per_group := group_counts p;
     stream_binds := list_to_set (tunnel_bind <$> stream_tunnels p);
     udp_binds := list_to_set (tunnel_bind <$> udp_tunnels p) |}.

(** The tunnels whose listeners share a port space with [t]. *)
Definition same_transport (t : ServerTunnelConfig) (l : list ServerTunnelConfig) :=
  if bool_decide (tunnel_kind t = Udp) then udp_tunnels l else stream_tunnels l.

Lemma tunnel_acc_snoc p t :
  tunnel_acc (p ++ [t]) =
  {| seen_names := {[tunnel_name t]} ∪ seen_names (tunnel_acc p);
     tunnels_per_group :=
       <[tunnel_group t := len (tunnels_of_group (tunnel_group t) p) + 1]> (group_counts p);
     stream_binds := if bool_decide (tunnel_kind t = Udp) then stream_binds (tunnel_acc p)
                     else {[tunnel_bind t]} ∪ stream_binds (tunnel_acc p);
     udp_binds := if bool_decide (tunnel_kind t = Udp)
                  then {[tunnel_bind t]} ∪ udp_binds (tunnel_acc p)
                  else udp_binds (tunnel_acc p) |}.
Proof.
  unfold tunnel_acc, stream_tunnels, udp_tunnels. simpl.
  rewrite list_to_set_snoc, !filter_app.
  f_equal.
  - unfold group_counts at 1. rewrite foldl_app. simpl.
    by rewrite <- group_counts_lookup.
  - case_bool_decide as Hk.
    + rewrite filter_cons_False, filter_nil, app_nil_r by (by intros ?). done.
    + by rewrite filter_cons_True, filter_nil, list_to_set_snoc by done.
  - case_bool_decide as Hk.
    + by rewrite filter_cons_True, filter_nil, list_to_set_snoc by done.
    + rewrite filter_cons_False, filter_nil, app_nil_r by done. done.
Qed.

Definition tunnel_step_ok (gs : gset str) (pre : list ServerTunnelConfig)
  (t : ServerTunnelConfig) : Prop :=
  valid_name (tunnel_name t) ∧ tunnel_name t ∉ tunnel_name <$> pre ∧ tunnel_group t ∈ gs ∧
  len (tunnels_of_group (tunnel_group t) pre) + 1 <= MAX_CLIENT_SERVICES ∧
  tunnel_fields_ok t ∧ tunnel_bind t ∉ tunnel_bind <$> same_transport t pre.

Lemma validate_tunnel_acc gs pre t st :
  validate_tunnel gs (tunnel_acc pre) t = Ok st ↔
  st = tunnel_acc (pre ++ [t]) ∧ tunnel_step_ok gs pre t.
Proof.
  unfold validate_tunnel, tunnel_step_ok.
  rewrite bind_unit_ok, validate_name_ok, bind_unit_ok, reject_if_ok.
  rewrite !bind_unit_ok, validate_tunnel_fields_ok, !reject_if_ok, ok_inj.
  rewrite tunnel_acc_snoc. simpl. rewrite group_counts_lookup, N.ltb_ge.
  rewrite !bool_decide_eq_false, elem_of_list_to_set.
  assert (Hb : tunnel_bind t ∉ (match tunnel_kind t with
      | Udp => list_to_set (tunnel_bind <$> udp_tunnels pre)
      | _ => list_to_set (tunnel_bind <$> stream_tunnels pre) end : gset SocketAddr) ↔
      tunnel_bind t ∉ tunnel_bind <$> same_transport t pre).
  { unfold same_transport. destruct (tunnel_kind t); simpl; by rewrite elem_of_list_to_set. }
  rewrite Hb. assert (Hd : ¬ (tunnel_group t ∉ gs) ↔ tunnel_group t ∈ gs)
    by (split; [apply dec_stable|auto]).
  rewrite Hd. naive_solver.
Qed.

Lemma validate_tunnels_ok gs l st :
  try_for (validate_tunnel gs) no_tunnels l = Ok st ↔
  st = tunnel_acc l ∧ ∀ p t q, l = p ++ t :: q → tunnel_step_ok gs p t.
Proof.
  change no_tunnels with (tunnel_acc []). rewrite try_for_acc.
  2: { intros pre x s' H. by apply validate_tunnel_acc in H as [-> _]. }
  setoid_rewrite is_ok_true. setoid_rewrite validate_tunnel_acc. naive_solver.
Qed.

Lemma per_group_prefixes l :
  (∀ g, len (tunnels_of_group g l) <= MAX_CLIENT_SERVICES) ↔
  ∀ p t q, l = p ++ t :: q →
    len (tunnels_of_group (tunnel_group t) p) + 1 <= MAX_CLIENT_SERVICES.
Proof.
  unfold len, tunnels_of_group, MAX_CLIENT_SERVICES.
  assert (Hb : ∀ g, N.of_nat (length (filter (λ t, tunnel_group t = g) l)) <= 256 ↔
     ∀ p t q, l = p ++ t :: q → tunnel_group t = g →
       N.of_nat (length (filter (λ t, tunnel_group t = g) p)) + 1 <= 256).
  { intros g. transitivity (length (filter (λ t, tunnel_group t = g) l) ≤ 256)%nat; [lia|].
    rewrite (count_prefixes _ l).
    split; intros H p t q Hl Hg; specialize (H p t q Hl Hg);
      rewrite filter_app, filter_cons_True, length_app in * by done; simpl in *; lia. }
  setoid_rewrite Hb. naive_solver.
Qed.

Lemma binds_prefixes l :
  NoDup (tunnel_bind <$> udp_tunnels l) ∧ NoDup (tunnel_bind <$> stream_tunnels l) ↔
  ∀ p t q, l = p ++ t :: q → tunnel_bind t ∉ tunnel_bind <$> same_transport t p.
Proof.
  unfold udp_tunnels, stream_tunnels. rewrite !NoDup_filter_prefixes.
  unfold same_transport, udp_tunnels, stream_tunnels. split.
  - intros [H1 H2] p t q Hl. case_bool_decide; eauto.
  - intros H. split; intros p t q Hl Hk; specialize (H p t q Hl);
      case_bool_decide; done.
Qed.

Lemma tunnel_steps_ok gs l :
  (∀ p t q, l = p ++ t :: q → tunnel_step_ok gs p t) ↔
  Forall (λ t, valid_name (tunnel_name t) ∧ tunnel_fields_ok t ∧ tunnel_group t ∈ gs) l ∧
  NoDup (tunnel_name <$> l) ∧ (∀ g, len (tunnels_of_group g l) <= MAX_CLIENT_SERVICES) ∧
  NoDup (tunnel_bind <$> udp_tunnels l) ∧ NoDup (tunnel_bind <$> stream_tunnels l).
Proof.
  rewrite binds_prefixes, per_group_prefixes, Forall_prefixes, NoDup_prefixes.
  unfold tunnel_step_ok. split.
  - intros H. split_and!; intros p t q Hl; destruct (H p t q Hl) as (?&?&?&?&?&?); auto.
  - intros (H1 & H2 & H3 & H4) p t q Hl. destruct (H1 p t q Hl) as (?&?&?).
    split_and!; eauto.
Qed.

Lemma server_validate_iff c : ServerConfig_validate c = Ok tt ↔ wf_server c.
Proof.
  unfold ServerConfig_validate. rewrite bind_unit_ok, reject_if_ok, bind_ok, orb_false_iff, !N.ltb_ge.
  setoid_rewrite validate_groups_ok. split.
  - intros ((H1 & H2) & st & (-> & H3 & H4 & H5) & H6).
    apply bind_ok in H6 as (st & H6 & _). apply validate_tunnels_ok in H6 as [-> H6].
    apply tunnel_steps_ok in H6 as (H6 & H7 & H8 & H9 & H10). constructor; try done.
    eapply Forall_impl; [exact H6|]. simpl. intros t. by rewrite elem_of_list_to_set.
  - intros [H1 H2 H3 H4 H5 H6 H7 H8 H9 H10]. split; [done|].
    exists (group_acc (server_groups c)). split; [done|]. simpl. apply bind_ok.
    exists (tunnel_acc (server_tunnels c)). split; [|done].
    apply validate_tunnels_ok. split; [done|]. apply tunnel_steps_ok. split_and!; try done.
    eapply Forall_impl; [exact H6|]. simpl. intros t. by rewrite elem_of_list_to_set.
Qed.

Lemma validate_service_acc pre s st :
  validate_service (list_to_set (service_name <$> pre)) s = Ok st ↔
  st = list_to_set (service_name <$> pre ++ [s]) ∧ service_ok s ∧
  service_name s ∉ service_name <$> pre.
Proof.
  unfold validate_service, service_ok.
  rewrite bind_unit_ok, validate_name_ok, bind_unit_ok, reject_if_ok, bind_unit_ok, ok_inj.
  rewrite bool_decide_eq_false, elem_of_list_to_set, list_to_set_snoc.
  destruct (service_kind s), (service_target s) as [[|b t]|]; naive_solver.
Qed.

Lemma client_services_iff l u : validate_client_services l = Ok u ↔ wf_services l.
Proof.
  unfold validate_client_services. rewrite bind_unit_ok, reject_if_ok, bind_ok, N.ltb_ge.
  assert (Hl : ∀ st, try_for validate_service ∅ l = Ok st ↔
            st = list_to_set (service_name <$> l) ∧
            Forall service_ok l ∧ NoDup (service_name <$> l)).
  { intros st. change (∅ : gset str) with (list_to_set (service_name <$> []) : gset str).
    rewrite (try_for_acc _ (λ l, list_to_set (service_name <$> l))).
    2: { intros pre x s' H. by apply validate_service_acc in H as [-> _]. }
    setoid_rewrite is_ok_true. setoid_rewrite validate_service_acc.
    rewrite Forall_prefixes, NoDup_prefixes. split.
    - intros [-> H]. split; [done|]. split; intros p x q Hl; apply H in Hl; naive_solver.
    - intros (-> & H1 & H2). split; [done|]. intros p x q Hx.
      eexists; split_and!; eauto. }
  setoid_rewrite Hl. destruct u. split.
  - intros (? & ? & (-> & ? & ?) & _). by constructor.
  - intros []. naive_solver.
Qed.

Lemma server_name_ok c n :
  server_name c = Ok n ↔
  match server_tls_name (client_server c) with
  | Some m => m = n ∧ n ≠ []
  | None => address_host (server_address (client_server c)) = Some n
  end.
Proof.
  unfold server_name. destruct (server_tls_name (client_server c)) as [m|].
  - rewrite bind_unit_ok, reject_if_ok, bool_decide_eq_false, ok_inj. naive_solver.
  - destruct address_host; simpl; naive_solver.
Qed.

(** What the client validator accepts. *)
Record wf_client (c : ClientConfig) : Prop := {
  wf_client_key : valid_group_key (client_key c);
  wf_client_address : server_address (client_server c) ≠ [];
  wf_client_name : match server_tls_name (client_server c) with
    | Some m => m ≠ []
    | None => is_Some (address_host (server_address (client_server c)))
    end;
  wf_client_services : wf_services (client_services c) }.

Lemma client_validate_iff c u : ClientConfig_validate c = Ok u ↔ wf_client c.
Proof.
  unfold ClientConfig_validate.
  rewrite bind_unit_ok, validate_group_key_ok, bind_unit_ok, reject_if_ok, bind_ok.
  setoid_rewrite server_name_ok. setoid_rewrite client_services_iff.
  rewrite bool_decide_eq_false. split.
  - intros (? & ? & n & Hn & ?). constructor; try done.
    destruct (server_tls_name _); naive_solver.
  - intros [? ? Hn ?]. split_and!; try done.
    destruct (server_tls_name _) as [m|]; [by exists m|].
    destruct Hn as [n Hn]. by exists n.
Qed.

(** The TLS name derived from an address: the bracketed text of [[host]...],
    or the text before the only colon of [host:port]. *)
Lemma address_host_Some a h :
  address_host a = Some h ↔
  (∃ r, a = "["%char :: h ++ "]"%char :: r ∧ "]"%char ∉ h) ∨
  (∃ port, a = h ++ ":"%char :: port ∧ h ≠ [] ∧ port ≠ [] ∧
           ":"%char ∉ h ∧ ":"%char ∉ port ∧ head h ≠ Some "["%char).
Proof.
  unfold address_host. destruct (strip_prefix "[" a) as [b|] eqn:E.
  - apply strip_prefix_Some in E as ->. rewrite fmap_Some. change (lit "[" ++ b) with ("["%char :: b).
    split.
    + intros ([h' r] & Hs & ->). apply split_once_Some in Hs as [-> Hn]. left. eauto.
    + intros [(r & [= ->] & Hn)|(p & Heq & Hne & _ & _ & _ & Hh)].
      * exists (h, r). split; [|done]. by apply split_once_Some.
      * destruct h; simplify_eq/=.
  - rewrite bind_Some. split.
    + intros ([h' p] & Hs & Hif). apply rsplit_once_Some in Hs as [-> Hn].
      case_match eqn:Hc; simplify_eq. bsimpl. rewrite contains_char_false in Hc.
      destruct Hc as [[? ?] ?]. right. exists p. split_and!; try done.
      intros Hh. destruct h as [|c h]; simplify_eq/=.
    + intros [(r & -> & Hn)|(p & -> & Hne & Hp & Hc & Hcp & _)]; [done|].
      exists (h, p). split; [by apply rsplit_once_Some|].
      rewrite !bool_decide_eq_true_2 by done. simpl.
      by rewrite (proj2 (contains_char_false _ _)).
Qed.

(** ** Every rejection is an [InvalidConfig] *)

Definition invalid_config {A} (r : Result A) : Prop :=
  match r with Ok _ => True | Err e => ∃ m, e = InvalidConfig m end.

Lemma invalid_config_bind {A B} (m : Result A) (k : A → Result B) :
  invalid_config m → (∀ a, invalid_config (k a)) → invalid_config (m ≫= k).
Proof. destruct m; simpl; auto. Qed.
Lemma invalid_config_reject b m : invalid_config (reject_if b (InvalidConfig m)).
Proof. destruct b; simpl; eauto. Qed.
Lemma invalid_config_try_for {S A} (f : S → A → Result S) s l :
  (∀ s x, invalid_config (f s x)) → invalid_config (try_for f s l).
Proof.
  intros Hf. revert s; induction l as [|x l IH]; intros s; simpl; [done|].
  apply invalid_config_bind; auto.
Qed.

Lemma invalid_config_ok {A} (a : A) : invalid_config (Ok a).
Proof. exact I. Qed.

#[export] Hint Resolve invalid_config_ok invalid_config_bind invalid_config_reject invalid_config_try_for : rust.

Lemma validate_name_error kind n : invalid_config (validate_name kind n).
Proof. unfold validate_name. auto with rust. Qed.
Lemma validate_group_key_error k : invalid_config (validate_group_key k).
Proof. unfold validate_group_key. auto with rust. Qed.
Lemma validate_group_error st g : invalid_config (validate_group st g).
Proof.
  destruct st. unfold validate_group, validate_name, validate_group_key.
  repeat (apply invalid_config_bind; intros); auto with rust.
Qed.
Lemma validate_tunnel_error gs st t : invalid_config (validate_tunnel gs st t).
Proof.
  unfold validate_tunnel, validate_name, validate_tunnel_fields, tunnel_msg.
  repeat (apply invalid_config_bind; intros); auto with rust.
Qed.

(** ** Properties *)

(** The server validator accepts exactly the well-formed configurations
    (name syntax, unique names, keys and listening addresses per transport,
    known groups, at most 256 tunnels per group, SOCKS5 on loopback only,
    limits in range), and whatever it rejects it rejects as [InvalidConfig]. *)
Theorem ServerConfig_validate_spec c :
  (ServerConfig_validate c = Ok tt ↔ wf_server c) ∧ invalid_config (ServerConfig_validate c).
Proof.
  split; [apply server_validate_iff|]. unfold ServerConfig_validate.
  apply invalid_config_bind; [auto with rust|intros _].
  apply invalid_config_bind; [apply invalid_config_try_for, validate_group_error|].
  intros [gs ks]. apply invalid_config_bind; [|done].
  apply invalid_config_try_for, validate_tunnel_error.
Qed.

(** The client validator accepts exactly the configurations with a key of
    32 to 124 characters, an address, a TLS server name given or derivable
    from the address, and at most 256 services with unique well-formed names,
    a target for TCP/UDP and none for SOCKS5. *)
Theorem ClientConfig_validate_spec c :
  ClientConfig_validate c = Ok tt ↔ wf_client c.
Proof. apply client_validate_iff. Qed.

(** The TLS name derived from an address is the bracketed text of
    [[host]...] or the part before the only colon of [host:port], and no
    other address has one. *)
Theorem address_host_spec a h :
  address_host a = Some h ↔
  (∃ r, a = "["%char :: h ++ "]"%char :: r ∧ "]"%char ∉ h) ∨
  (∃ port, a = h ++ ":"%char :: port ∧ h ≠ [] ∧ port ≠ [] ∧
           ":"%char ∉ h ∧ ":"%char ∉ port ∧ head h ≠ Some "["%char).
Proof. apply address_host_Some. Qed.
