(* ===== verification/Protocol.v ===== *)
(** * Protocol: [gaterust-tunnel/src/protocol.rs]

    The message types of the tunnel protocol, the length-prefixed control
    frames and datagrams, and the validation of service declarations.  The
    JSON codec is [serde_json]: it is the class [Serde], with the one law the
    protocol relies on.

    [Module Fut] is the [read_datagram]/[read_frame] header-and-body reader as
    the future it is: it is polled with whatever bytes have arrived. *)

From S2P Require Import Prelude RustStr Net TunnelConfig.

(** ** Messages *)

Definition PROTOCOL_VERSION : N := 5.
Definition MAX_CONTROL_FRAME : N := 256 * 1024.
Definition MAX_DATAGRAM : N := u16_max.
Definition HANDSHAKE_TIMEOUT_SECS : N := 20.

Record ServiceDeclaration := { decl_name : str; decl_kind : TunnelKind }.
#[global] Instance ServiceDeclaration_eq_dec : EqDecision ServiceDeclaration.
Proof. solve_decision. Defined.

Inductive ClientTunnelState := Idle | Enabled | Occupied.
#[global] Instance ClientTunnelState_eq_dec : EqDecision ClientTunnelState.
Proof. solve_decision. Defined.

Record ClientTunnel := {
  ct_name : str;
  ct_kind : TunnelKind;
  ct_server_port : N;
  ct_local_ip : option str;
  ct_local_port : option N;
  ct_state : ClientTunnelState }.

Record ClientHello := {
  hello_version : N;
  hello_device_id : str;
  hello_key : str;
  hello_services : list ServiceDeclaration }.

Record CertificateBootstrapRequest := {
  boot_version : N;
  boot_client_nonce : str;
  boot_proof : str }.

Inductive ClientHandshake :=
  | HsAuthenticate (hello : ClientHello)
  | HsBootstrap (request : CertificateBootstrapRequest).

Inductive AuthenticationStatus := Accepted | Rejected | DeviceIdConflictStatus | ServerBusy.

Record ServerHello := {
  sh_status : AuthenticationStatus;
  sh_message : str;
  sh_tunnels : list ClientTunnel }.

Inductive CertificateBootstrapResponse :=
  | BootAccepted (server_nonce : str) (proof : str)
  | BootRejected (message : str).

Inductive ServerHandshake :=
  | ShAuthenticate (hello : ServerHello)
  | ShBootstrap (response : CertificateBootstrapResponse).

Inductive ControlMessage :=
  | UpdateServices (request_id : N) (services : list ServiceDeclaration).

Inductive ServerControlMessage :=
  | TunnelSnapshot (tunnels : list ClientTunnel)
  | ServicesApplied (request_id : N) (tunnels : list ClientTunnel).

Record OpenRequest := { open_service : str; open_destination : option str }.
Record OpenResponse := { open_accepted : bool; open_message : str }.

(** ** Service declarations *)

Definition validate_declaration (names : gset str) (s : ServiceDeclaration) : Result (gset str) :=
  _ ← reject_if (bool_decide (decl_name s = []) || (64 <? len (decl_name s))
                 || negb (forallb valid_name_byte (decl_name s))
                 || bool_decide (decl_name s ∈ names))
        (Protocol "服务声明名称无效或重复");
  Ok ({[decl_name s]} ∪ names).

Definition validate_declarations (services : list ServiceDeclaration) : Result unit :=
  _ ← reject_if (MAX_CLIENT_SERVICES <? len services)
        (Protocol ("单个客户端最多声明 " ++ dec MAX_CLIENT_SERVICES ++ " 个服务"));
  _ ← try_for validate_declaration ∅ services;
  Ok tt.

(** ** Big-endian integers *)

Fixpoint to_be (k : nat) (n : N) : str :=
  match k with
  | O => []
  | S k => to_be k (n / 256) ++ [ascii_of_N (n mod 256)]
  end.
Definition of_be (s : str) : N := foldl (λ n c, n * 256 + N_of_ascii c) 0 s.

(** ** Readers and writers

    The bytes a reader can still deliver before the end of the stream; a
    reader of the model returns its result and what it left unread. *)

(** [AsyncWrite] of a writer [W]. *)
Class AsyncWrite (W : Type) := write_all : W → str → Result W.
#[global] Instance vec_write : AsyncWrite str := λ w bytes, Ok (w ++ bytes).

(** [read_exact]: the whole buffer or [UnexpectedEof]. *)
Definition read_exact (n : nat) (input : str) : Result str * str :=
  if (n <=? length input)%nat then (Ok (take n input), drop n input)
  else (Err (Io UnexpectedEof), []).

(** [serde_json] at type [T]: an encoder, a decoder and their round trip. *)
Class Serde (T : Type) := {
  to_vec : T → result str str;
  from_slice : str → result str T;
  from_slice_to_vec : ∀ v p, to_vec v = Ok p → from_slice p = Ok v }.

Definition write_frame {W T} `{AsyncWrite W, Serde T} (writer : W) (value : T) : Result W :=
  payload ← map_err (λ e, Protocol ("序列化控制帧失败: " ++ e)) (to_vec value);
  _ ← reject_if (MAX_CONTROL_FRAME <? len payload) (Protocol "控制帧超过 256 KiB");
  _ ← reject_if (u32_max <? len payload) (Protocol "控制帧长度溢出");
  w ← write_all writer (to_be 4 (len payload));
  write_all w payload.

Definition read_frame {T} `{Serde T} (input : str) : Result T * str :=
  match read_exact 4 input with
  | (Err e, rest) => (Err e, rest)
  | (Ok header, rest) =>
      let length := of_be header in
      if MAX_CONTROL_FRAME <? length then (Err (Protocol "控制帧超过 256 KiB"), rest)
      else match read_exact (N.to_nat length) rest with
           | (Err e, rest) => (Err e, rest)
           | (Ok payload, rest) =>
               (map_err (λ e, Protocol ("解析控制帧失败: " ++ e)) (from_slice payload), rest)
           end
  end.

Definition write_datagram {W} `{AsyncWrite W} (writer : W) (payload : str) : Result W :=
  _ ← reject_if (u16_max <? len payload) (Protocol "UDP 数据报超过 65535 字节");
  w ← write_all writer (to_be 2 (len payload));
  write_all w payload.

Definition vec_resize (n : nat) (buffer : str) : str :=
  take n buffer ++ replicate (n - length buffer) Ascii.zero.

(** The length read, the buffer afterwards and the unread input.  A body cut
    short leaves what arrived at the front of the resized buffer. *)
Definition read_datagram (buffer input : str) : Result N * str * str :=
  match read_exact 2 input with
  | (Err e, rest) => (Err e, buffer, rest)
  | (Ok header, rest) =>
      let length := of_be header in
      if MAX_DATAGRAM <? length then (Err (Protocol "UDP 数据报长度无效"), buffer, rest)
      else
        let resized := vec_resize (N.to_nat length) buffer in
        match read_exact (N.to_nat length) rest with
        | (Err e, rest') => (Err e, rest ++ drop (List.length rest) resized, rest')
        | (Ok payload, rest') => (Ok length, payload, rest')
        end
  end.

(** Writing, then reading, one value after the other. *)
Fixpoint write_frames {W T} `{AsyncWrite W, Serde T} (w : W) (vs : list T) : Result W :=
  match vs with [] => Ok w | v :: vs => w ← write_frame w v; write_frames w vs end.
Fixpoint read_frames {T} `{Serde T} (n : nat) (input : str) : Result (list T) * str :=
  match n with
  | O => (Ok [], input)
  | S n => match read_frame input with
           | (Err e, rest) => (Err e, rest)
           | (Ok v, rest) => let '(vs, rest) := read_frames n rest in ((v ::.) <$> vs, rest)
           end
  end.

(** ** The datagram reader as a future

    [poll] is one wake-up: it takes the bytes that have arrived and either
    finishes or stays pending with the bytes it holds inside the future.
    Dropping the future (a [select!] branch that loses) drops those bytes. *)
Module Fut.
Inductive state :=
  | Header (got : str)
  | Body (length : N) (got : str).

Definition start : state := Header [].

Inductive poll_result :=
  | Pending (s : state)
  | Ready (payload : str) (unread : str).

Definition poll_body (length : N) (got arrived : str) : poll_result :=
  let bytes := got ++ arrived in
  if (N.to_nat length <=? List.length bytes)%nat
  then Ready (take (N.to_nat length) bytes) (drop (N.to_nat length) bytes)
  else Pending (Body length bytes).

Definition poll (s : state) (arrived : str) : poll_result :=
  match s with
  | Header got =>
      let bytes := got ++ arrived in
      if (2 <=? List.length bytes)%nat
      then poll_body (of_be (take 2 bytes)) [] (drop 2 bytes)
      else Pending (Header bytes)
  | Body length got => poll_body length got arrived
  end.

(** A loop around one pinned future: it survives the wake-ups. *)
Fixpoint run (s : state) (chunks : list str) : poll_result :=
  match chunks with
  | [] => Pending s
  | c :: chunks =>
      match poll s c with
      | Ready p unread => Ready p (unread ++ concat chunks)
      | Pending s => run s chunks
      end
  end.
End Fut.

(** ** Byte-level lemmas *)

Lemma length_to_be k n : length (to_be k n) = k.
Proof. revert n; induction k as [|k IH]; intros n; [done|]. cbn [to_be]. rewrite length_app, IH. simpl. lia. Qed.

Lemma of_be_snoc s c : of_be (s ++ [c]) = of_be s * 256 + N_of_ascii c.
Proof. unfold of_be. by rewrite foldl_app. Qed.

Lemma of_be_to_be k n : n < 256 ^ N.of_nat k → of_be (to_be k n) = n.
Proof.
  revert n; induction k as [|k IH]; intros n Hn; [simpl in *; change (0 = n); lia|].
  cbn [to_be]. rewrite of_be_snoc, N_ascii_embedding by (apply N.mod_upper_bound; lia).
  rewrite IH.
  - pose proof (N.div_mod n 256 ltac:(lia)). lia.
  - apply N.Div0.div_lt_upper_bound.
    replace (N.of_nat (S k)) with (N.succ (N.of_nat k)) in Hn by lia.
    rewrite N.pow_succ_r in Hn by lia. lia.
Qed.

#[local] Arguments to_be : simpl never.

Lemma of_be_bound s : of_be s < 256 ^ N.of_nat (length s).
Proof.
  induction s as [|c s IH] using rev_ind; [done|].
  rewrite of_be_snoc, length_app. simpl length.
  replace (N.of_nat (length s + 1)) with (N.succ (N.of_nat (length s))) by lia.
  rewrite N.pow_succ_r by lia. pose proof (N_of_ascii_lt c). lia.
Qed.

Lemma read_exact_app p rest : read_exact (length p) (p ++ rest) = (Ok p, rest).
Proof.
  unfold read_exact. rewrite length_app, take_app_length, drop_app_length.
  rewrite (proj2 (Nat.leb_le _ _)); [done|lia].
Qed.

Lemma read_exact_app_n n p rest : length p = n → read_exact n (p ++ rest) = (Ok p, rest).
Proof. intros <-. apply read_exact_app. Qed.

Lemma read_exact_ok n input p rest :
  read_exact n input = (Ok p, rest) ↔ input = p ++ rest ∧ length p = n.
Proof.
  split.
  - unfold read_exact. destruct (n <=? length input)%nat eqn:E; intros H; simplify_eq.
    bsimpl. rewrite take_drop, length_take. split; [done|lia].
  - intros [-> <-]. apply read_exact_app.
Qed.

Lemma read_exact_err n input e rest :
  read_exact n input = (Err e, rest) ↔ (length input < n)%nat ∧ e = Io UnexpectedEof ∧ rest = [].
Proof.
  unfold read_exact. destruct (n <=? length input)%nat eqn:E; bsimpl; split.
  - done.
  - intros. lia.
  - by intros [= <- <-].
  - by intros (_ & -> & ->).
Qed.

Section frames.
Context {T : Type} `{Serde T}.

Lemma write_frame_ok (w w' : str) (v : T) :
  write_frame w v = Ok w' ↔
  ∃ p, to_vec v = Ok p ∧ len p <= MAX_CONTROL_FRAME ∧ w' = w ++ to_be 4 (len p) ++ p.
Proof.
  unfold write_frame. rewrite bind_ok. split.
  - intros (p & Hp & Hk). destruct (to_vec v) as [p'|]; simplify_eq/=. exists p.
    rewrite !bind_unit_ok, !reject_if_ok in Hk. unfold write_all, vec_write in Hk.
    simpl in Hk. bsimpl. destruct Hk as (? & ? & [= <-]). by rewrite <- (assoc_L (++)).
  - intros (p & Hp & Hle & ->). exists p. rewrite Hp. split; [done|].
    rewrite !bind_unit_ok, !reject_if_ok. unfold write_all, vec_write. simpl.
    rewrite <- (assoc_L (++)). unfold MAX_CONTROL_FRAME, u32_max in *. bsimpl. split; [done|]. split; [lia|done].
Qed.

Lemma read_frame_payload (p rest : str) :
  len p <= MAX_CONTROL_FRAME →
  read_frame (T := T) (to_be 4 (len p) ++ p ++ rest) =
  (map_err (λ e, Protocol ("解析控制帧失败: " ++ e)) (from_slice p), rest).
Proof.
  intros Hle. unfold read_frame. rewrite read_exact_app_n by apply length_to_be.
  rewrite of_be_to_be by (unfold MAX_CONTROL_FRAME in Hle; change (256 ^ N.of_nat 4) with 4294967296; lia).
  rewrite (proj2 (N.ltb_ge _ _)) by done.
  unfold len. rewrite Nat2N.id, read_exact_app. done.
Qed.

Lemma frame_roundtrip_at (w w' : str) (v : T) rest :
  write_frame w v = Ok w' →
  ∃ bytes, w' = w ++ bytes ∧ read_frame (bytes ++ rest) = (Ok v, rest).
Proof.
  intros (p & Hp & Hle & ->)%write_frame_ok. exists (to_be 4 (len p) ++ p).
  split; [done|]. rewrite <- (assoc_L (++)), read_frame_payload by done.
  by rewrite (from_slice_to_vec v p Hp).
Qed.

Lemma frames_roundtrip_at (vs : list T) : ∀ (w w' : str) rest,
  write_frames w vs = Ok w' →
  ∃ bytes, w' = w ++ bytes ∧ read_frames (length vs) (bytes ++ rest) = (Ok vs, rest).
Proof.
  induction vs as [|v vs IH]; intros w w' rest; cbn [write_frames].
  - intros [= <-]. exists []. by rewrite app_nil_r.
  - rewrite bind_ok. intros (w1 & H1 & H2).
    destruct (IH _ _ rest H2) as (b2 & -> & Hr).
    destruct (frame_roundtrip_at _ _ _ (b2 ++ rest) H1) as (b1 & -> & Hb).
    exists (b1 ++ b2). rewrite <- !(assoc_L (++)). split; [done|].
    cbn [length read_frames]. by rewrite Hb, Hr.
Qed.
End frames.

Lemma write_datagram_ok (w w' p : str) :
  write_datagram w p = Ok w' ↔ len p <= MAX_DATAGRAM ∧ w' = w ++ to_be 2 (len p) ++ p.
Proof.
  unfold write_datagram, MAX_DATAGRAM, write_all, vec_write.
  rewrite bind_unit_ok, reject_if_ok. simpl.
  rewrite ok_inj. bsimpl. rewrite <- (assoc_L (++)). naive_solver.
Qed.

(** The header of a datagram never exceeds the limit: a [u16]. *)
Lemma of_be_u16 h : length h = 2%nat → of_be h <= MAX_DATAGRAM.
Proof.
  intros Hl. pose proof (of_be_bound h) as Hb. rewrite Hl in Hb.
  change (256 ^ N.of_nat 2) with 65536 in Hb. unfold MAX_DATAGRAM, u16_max. lia.
Qed.

Lemma read_datagram_ok buffer input n p rest :
  read_datagram buffer input = (Ok n, p, rest) ↔
  ∃ h, input = h ++ p ++ rest ∧ length h = 2%nat ∧ of_be h = n ∧ len p = n.
Proof.
  unfold read_datagram. destruct (read_exact 2 input) as [[h|e] r1] eqn:E1.
  - apply read_exact_ok in E1 as [-> Hh]. pose proof (of_be_u16 h Hh) as Hb.
    rewrite (proj2 (N.ltb_ge _ _)) by done.
    destruct (read_exact (N.to_nat (of_be h)) r1) as [[q|e] r2] eqn:E2.
    + apply read_exact_ok in E2 as [-> Hq]. split.
      * intros [= <- <- <-]. exists h. unfold len. split_and!; try done. lia.
      * intros (h' & Heq & Hh' & Hn & Hp). apply app_inj_1 in Heq as [-> Heq]; [|lia].
        apply app_inj_1 in Heq as [-> ->]; [by subst|]. unfold len in Hp. lia.
    + apply read_exact_err in E2 as (Hlt & _ & _). split; [done|].
      intros (h' & Heq & Hh' & Hn & Hp). apply app_inj_1 in Heq as [-> ->]; [|lia].
      rewrite length_app in Hlt. unfold len in Hp. lia.
  - apply read_exact_err in E1 as (Hlt & _ & _). split; [done|].
    intros (h' & -> & Hh' & _). rewrite length_app in Hlt. lia.
Qed.

(** ** Fragmentation *)

Lemma poll_body_chunks chunks : ∀ n got,
  match Fut.run (Fut.Body n got) chunks with
  | Fut.Ready p u => got ++ concat chunks = p ++ u ∧ len p = n
  | Fut.Pending (Fut.Body m g) => m = n ∧ g = got ++ concat chunks ∧
      (chunks ≠ [] → len g < n)
  | Fut.Pending (Fut.Header _) => False
  end.
Proof.
  induction chunks as [|c chunks IH]; intros n got; simpl.
  { by rewrite app_nil_r. }
  unfold Fut.poll_body. destruct (N.to_nat n <=? length (got ++ c))%nat eqn:E; bsimpl.
  - rewrite !(assoc_L (++)), take_drop. split; [done|].
    unfold len. rewrite length_take. lia.
  - specialize (IH n (got ++ c)). rewrite <- (assoc_L (++)) in IH.
    destruct Fut.run as [[|m g]|p u]; try done.
    destruct IH as (-> & -> & Hlt). split_and!; [done|done|]. intros _.
    destruct chunks; [|by apply Hlt]. simpl. rewrite app_nil_r. unfold len. lia.
Qed.

Lemma poll_body_ready n got c p u :
  Fut.poll_body n got c = Fut.Ready p u ↔ got ++ c = p ++ u ∧ len p = n.
Proof.
  unfold Fut.poll_body. destruct (_ <=? _)%nat eqn:E; bsimpl; split.
  - intros [= <- <-]. rewrite take_drop. split; [done|]. unfold len. rewrite length_take. lia.
  - intros [Heq Hl]. rewrite Heq. unfold len in Hl.
    rewrite take_app_length', drop_app_length' by lia. done.
  - done.
  - intros [Heq Hl]. rewrite Heq, length_app in E. unfold len in Hl. lia.
Qed.

(** The unpolled part of a datagram, whatever the chunks it arrives in. *)
Lemma run_header_ready chunks : ∀ got p u, (length got < 2)%nat →
  Fut.run (Fut.Header got) chunks = Fut.Ready p u ↔
  ∃ h, got ++ concat chunks = h ++ p ++ u ∧ length h = 2%nat ∧ len p = of_be h ∧ chunks ≠ [].
Proof.
  induction chunks as [|c chunks IH]; intros got p u Hgot; cbn [Fut.run concat].
  { split; [done|]. by intros (?&?&?&?&?). }
  cbn [Fut.poll]. destruct (2 <=? length (got ++ c))%nat eqn:E; bsimpl.
  - set (bytes := got ++ c) in *. pose proof (take_drop 2 bytes) as Htd.
    assert (Hl : length (take 2 bytes) = 2%nat) by (rewrite length_take; lia).
    set (h := take 2 bytes) in *. set (r := drop 2 bytes) in *.
    assert (Hall : got ++ c ++ concat chunks = h ++ r ++ concat chunks).
    { rewrite (assoc_L (++)). fold bytes. rewrite <- Htd. by rewrite <- (assoc_L (++)). }
    rewrite Hall.
    assert (Hiff : (∃ h0, h ++ r ++ concat chunks = h0 ++ p ++ u ∧ length h0 = 2%nat ∧
               len p = of_be h0 ∧ c :: chunks ≠ []) ↔
               r ++ concat chunks = p ++ u ∧ len p = of_be h).
    { split.
      - intros (h0 & Heq & H0 & Hp & _). apply app_inj_1 in Heq as [<- Heq]; [done|lia].
      - intros [-> ?]. by exists h. }
    rewrite Hiff. destruct (Fut.poll_body (of_be h) [] r) as [s|p' u'] eqn:Ep.
    + unfold Fut.poll_body in Ep. simpl in Ep. destruct (_ <=? _)%nat eqn:El; simplify_eq.
      bsimpl. pose proof (poll_body_chunks chunks (of_be h) r) as Hb.
      destruct (Fut.run (Fut.Body (of_be h) r) chunks) as [[|m g]|p' u'] eqn:Er; [done|..].
      * split; [done|]. intros [Heq Hp]. destruct Hb as (-> & -> & Hlt).
        destruct chunks as [|c' chunks].
        -- simpl in *. rewrite app_nil_r in Heq. rewrite Heq, length_app in El.
           unfold len in Hp. lia.
        -- specialize (Hlt ltac:(done)). rewrite Heq in Hlt. unfold len in *.
           rewrite length_app in Hlt. lia.
      * destruct Hb as [Heq Hlen]. rewrite Heq. split; [by intros [= <- <-]|].
        intros [Heq' Hp]. apply app_inj_1 in Heq' as [-> ->]; [done|]. unfold len in *. lia.
    + apply poll_body_ready in Ep as [Heq Hlen]. simpl in Heq. rewrite Heq, <- (assoc_L (++)).
      split; [by intros [= <- <-]|].
      intros [Heq' Hp]. apply app_inj_1 in Heq' as [-> <-]; [done|]. unfold len in *. lia.
  - rewrite IH by lia. rewrite <- (assoc_L (++)).
    destruct chunks as [|c' chunks]; [|naive_solver]. simpl. rewrite app_nil_r. split.
    + by intros (?&?&?&?&?).
    + intros (h & Heq & Hh & _). rewrite Heq, !length_app in E. lia.
Qed.

(** ** Declarations *)

Record wf_declarations (l : list ServiceDeclaration) : Prop := {
  decl_count : len l <= MAX_CLIENT_SERVICES;
  decl_each : Forall (λ s, valid_name (decl_name s)) l;
  decl_unique : NoDup (decl_name <$> l) }.

Lemma validate_declaration_acc pre s st :
  validate_declaration (list_to_set (decl_name <$> pre)) s = Ok st ↔
  st = list_to_set (decl_name <$> pre ++ [s]) ∧ valid_name (decl_name s) ∧
  decl_name s ∉ decl_name <$> pre.
Proof.
  unfold validate_declaration. rewrite bind_unit_ok, reject_if_ok, ok_inj, list_to_set_snoc.
  rewrite !orb_false_iff, negb_false_iff, forallb_Forall, !bool_decide_eq_false, N.ltb_ge.
  rewrite elem_of_list_to_set. split.
  - intros [[[[??]?]?] <-]. done.
  - by intros (-> & [] & ?).
Qed.

Lemma declarations_iff l u : validate_declarations l = Ok u ↔ wf_declarations l.
Proof.
  unfold validate_declarations. rewrite bind_unit_ok, reject_if_ok, bind_ok, N.ltb_ge.
  assert (Hl : ∀ st, try_for validate_declaration ∅ l = Ok st ↔
            st = list_to_set (decl_name <$> l) ∧
            Forall (λ s, valid_name (decl_name s)) l ∧ NoDup (decl_name <$> l)).
  { intros st. change (∅ : gset str) with (list_to_set (decl_name <$> []) : gset str).
    rewrite (try_for_acc _ (λ l, list_to_set (decl_name <$> l))).
    2: { intros pre x s' H. by apply validate_declaration_acc in H as [-> _]. }
    setoid_rewrite is_ok_true. setoid_rewrite validate_declaration_acc.
    rewrite Forall_prefixes, NoDup_prefixes. split.
    - intros [-> H]. split; [done|]. split; intros p x q Hl; apply H in Hl; naive_solver.
    - intros (-> & H1 & H2). split; [done|]. intros p x q Hx. eexists; split_and!; eauto. }
  setoid_rewrite Hl. destruct u. split.
  - intros (? & ? & (-> & ? & ?) & _). by constructor.
  - intros []. naive_solver.
Qed.

(** ** Properties *)

(** C38: whatever sequence of values [write_frame] accepts, reading that many
    frames from the bytes it wrote returns the same values in order and leaves
    whatever follows them unread. *)
Theorem frames_roundtrip {T} `{Serde T} (vs : list T) (bytes rest : str) :
  write_frames [] vs = Ok bytes →
  read_frames (length vs) (bytes ++ rest) = (Ok vs, rest).
Proof. intros Hw. by destruct (frames_roundtrip_at vs [] bytes rest Hw) as (b & -> & Hr). Qed.

(** A frame codec for byte strings, for the witnesses. *)
Definition raw_serde : Serde str.
Proof. refine {| to_vec := Ok; from_slice := Ok |}. by intros v p [= ->]. Defined.

Lemma frames_roundtrip_witness :
  let vs : list str := [lit "{}"; lit "[1,2]"] in
  let bytes := to_be 4 2 ++ "{}" ++ to_be 4 5 ++ "[1,2]" in
  @read_frames str raw_serde 2 (bytes ++ "tail") = (Ok vs, lit "tail").
Proof.
  intros vs bytes. pose (H := @frames_roundtrip str raw_serde vs bytes "tail").
  apply H. by vm_compute.
Defined.

(** A frame cut anywhere before its end is reported as an unexpected end
    of stream, never as a shorter value. *)
Theorem frame_truncated {T} `{Serde T} (v : T) (bytes pre suf : str) :
  write_frame [] v = Ok bytes → bytes = pre ++ suf → suf ≠ [] →
  (read_frame (T := T) pre).1 = Err (Io UnexpectedEof).
Proof.
  intros (p & Hp & Hle & ->)%write_frame_ok Heq Hsuf. rewrite app_nil_l in Heq.
  unfold read_frame. destruct (read_exact 4 pre) as [[h|e] r] eqn:E1; simpl.
  2: { by apply read_exact_err in E1 as (_ & -> & _). }
  apply read_exact_ok in E1 as [-> Hh]. rewrite <- (assoc_L (++)) in Heq.
  apply app_inj_1 in Heq as [<- Heq]; [|by rewrite length_to_be].
  rewrite of_be_to_be by (unfold MAX_CONTROL_FRAME in Hle; change (256 ^ N.of_nat 4) with 4294967296; lia).
  rewrite (proj2 (N.ltb_ge _ _)) by done.
  destruct (read_exact _ r) as [[q|e] r'] eqn:E2; simpl.
  - apply read_exact_ok in E2 as [-> Hq]. apply (f_equal length) in Heq.
    rewrite !length_app in Heq. unfold len in Hq. destruct suf; [done|]. simpl in Heq. lia.
  - by apply read_exact_err in E2 as (_ & -> & _).
Qed.

Lemma frame_truncated_witness :
  (@read_frame str raw_serde (to_be 4 2 ++ "{")).1 = Err (Io UnexpectedEof).
Proof.
  apply (@frame_truncated str raw_serde "{}" (to_be 4 2 ++ "{}") (to_be 4 2 ++ "{") "}");
    by vm_compute.
Defined.

(** A datagram of at most 65535 bytes is read back exactly, whatever the
    reader's buffer held and whatever follows it; a larger one is refused
    before a byte is written. *)
Theorem datagram_roundtrip (p buffer rest : str) :
  match write_datagram [] p with
  | Ok bytes => len p <= MAX_DATAGRAM ∧ bytes = to_be 2 (len p) ++ p ∧
                read_datagram buffer (bytes ++ rest) = (Ok (len p), p, rest)
  | Err e => MAX_DATAGRAM < len p ∧ e = Protocol "UDP 数据报超过 65535 字节"
  end.
Proof.
  destruct (write_datagram [] p) as [bytes|e] eqn:E.
  - apply write_datagram_ok in E as [Hle ->]. rewrite app_nil_l. split_and!; [done..|].
    apply read_datagram_ok. exists (to_be 2 (len p)). rewrite <- (assoc_L (++)).
    split_and!; [done|by rewrite length_to_be| |done].
    apply of_be_to_be. unfold MAX_DATAGRAM, u16_max in Hle.
    change (256 ^ N.of_nat 2) with 65536. lia.
  - unfold write_datagram, write_all, vec_write in E. simpl in E.
    unfold reject_if in E. destruct (u16_max <? len p) eqn:El; simplify_eq/=.
    by apply N.ltb_lt in El.
Qed.

(** A datagram reader that is kept across wake-ups returns the same
    payload, and leaves the same bytes unread, however the stream is cut into
    chunks; it is ready exactly when the bytes make a whole datagram. *)
Theorem fragmentation_independence (chunks : list str) (buffer p u : str) :
  Fut.run Fut.start chunks = Fut.Ready p u ↔
  read_datagram buffer (concat chunks) = (Ok (len p), p, u).
Proof.
  unfold Fut.start. rewrite run_header_ready by (simpl; lia). rewrite read_datagram_ok. split.
  - intros (h & ? & ? & ? & _). by exists h.
  - intros (h & Heq & ? & ? & _). exists h. split_and!; try done.
    intros ->. simpl in Heq. apply (f_equal length) in Heq. rewrite length_app in Heq.
    simpl in Heq. lia.
Qed.

(** Service declarations are accepted exactly when there are at most 256
    of them and their names are well-formed and distinct. *)
Theorem validate_declarations_spec l :
  validate_declarations l = Ok tt ↔ wf_declarations l.
Proof. apply declarations_iff. Qed.
