(* ===== verification/RateLimit.v ===== *)
(** * RateLimit: [gaterust-tunnel/src/rate_limit.rs]

    The token-bucket limiter every connection of a tunnel shares.  An
    [Instant] is its offset in nanoseconds; it has the range of the platform's
    time type (a 64-bit count of seconds), and leaving it panics ([None]).
    [Limited] is the shared cell behind the [Arc<Mutex<_>>]: an operation
    returns its new contents. *)

From S2P Require Import Prelude.

#[local] Open Scope Z_scope.

Definition NANOS : Z := 1000000000.

(** The instants and the [+], [-] and comparison the code uses on them. *)
Definition Instant := Z.
Definition instant_ok (t : Instant) : bool :=
  (- 2 ^ 63 * NANOS <=? t) && (t <? 2 ^ 63 * NANOS).
Definition instant_add (t d : Z) : option Instant :=
  if instant_ok (t + d) then Some (t + d) else None.
Definition checked_sub (t d : Z) : option Instant :=
  if instant_ok (t - d) then Some (t - d) else None.
Definition saturating_duration_since (t now : Instant) : Z := Z.max 0 (t - now).

Definition u64_MAX : Z := 2 ^ 64 - 1.

Record Limited := { bytes_per_second : Z; next : Instant; burst : Z }.

(** [None] when the tunnel has no limit. *)
Definition RateLimiter := option Limited.

Definition RateLimiter_new (bytes_per_second : option Z) (now : Instant) : RateLimiter :=
  (λ rate, {| bytes_per_second := rate; next := now; burst := 100 * 1000000 |})
    <$> bytes_per_second.

Definition div_ceil (a b : Z) : Z := (a + b - 1) / b.

(** The time [bytes] take at the rate, saturated at [u64::MAX] nanoseconds. *)
Definition cost_of (l : Limited) (bytes : Z) : Z :=
  let bytes := Z.min bytes u64_MAX in
  let nanos := div_ceil (bytes * NANOS) (bytes_per_second l) in
  Z.min nanos u64_MAX.

(** The delay to sleep and the cell afterwards. *)
Definition reserve (l : Limited) (bytes : Z) (now : Instant) : option (Z * Limited) :=
  let cost := cost_of l bytes in
  next' ← instant_add (Z.max (next l) now) cost;
  let delay := saturating_duration_since (default now (checked_sub next' (burst l))) now in
  Some (delay, {| bytes_per_second := bytes_per_second l; next := next'; burst := burst l |}).

(** [acquire]: the instant at which it returns, not before the sleep ends. *)
Definition acquire (l : RateLimiter) (bytes : Z) (now : Instant) : option (Instant * RateLimiter) :=
  match l with
  | None => Some (now, None)
  | Some inner => '(delay, inner') ← reserve inner bytes now; Some (now + delay, Some inner')
  end.

(** Requests in the order in which they take the lock: the instant the last one
    is released (the initial [at_] when there is none), and the cell. *)
Fixpoint acquire_all (l : RateLimiter) (at_ : Instant) (reqs : list (Z * Instant))
  : option (Instant * RateLimiter) :=
  match reqs with
  | [] => Some (at_, l)
  | (bytes, now) :: reqs => '(t, l') ← acquire l bytes now; acquire_all l' t reqs
  end.

Definition total_bytes (reqs : list (Z * Instant)) : Z := foldr (λ r n, r.1 + n) 0 reqs.

(** ** Lemmas *)

Lemma div_ceil_mul a b : 0 < b → a <= b * div_ceil a b < a + b.
Proof.
  intros Hb. unfold div_ceil.
  pose proof (Z.div_mod (a + b - 1) b ltac:(lia)).
  pose proof (Z.mod_pos_bound (a + b - 1) b Hb). lia.
Qed.

(** The bytes whose cost does not saturate. *)
Definition in_budget (l : Limited) (bytes : Z) : Prop :=
  0 <= bytes ∧ bytes * NANOS <= bytes_per_second l * (u64_MAX - 1).

Lemma cost_of_covers l bytes :
  0 < bytes_per_second l → bytes_per_second l <= u64_MAX → in_budget l bytes → 0 <= bytes ->
  bytes <= u64_MAX → bytes * NANOS <= bytes_per_second l * cost_of l bytes.
Proof.
  intros Hr Hr2 [Hb0 Hb] _ Hu. unfold cost_of. rewrite (Z.min_l bytes) by done.
  pose proof (div_ceil_mul (bytes * NANOS) (bytes_per_second l) Hr) as [H1 H2].
  rewrite Z.min_l; [done|]. nia.
Qed.

Lemma cost_of_range l bytes : 0 < bytes_per_second l → 0 <= bytes → 0 <= cost_of l bytes <= u64_MAX.
Proof.
  intros Hr Hb. unfold cost_of, div_ceil, u64_MAX, NANOS in *.
  split; [|lia]. apply Z.min_glb; [|lia]. apply Z.div_pos; [|done].
  assert (0 <= Z.min bytes (2 ^ 64 - 1)) by lia. lia.
Qed.

Lemma reserve_Some l bytes now d l' :
  reserve l bytes now = Some (d, l') →
  bytes_per_second l' = bytes_per_second l ∧ burst l' = burst l ∧
  next l' = Z.max (next l) now + cost_of l bytes ∧
  (instant_ok (next l' - burst l) = true → d = Z.max 0 (next l' - burst l - now)).
Proof.
  unfold reserve, instant_add, checked_sub. intros H.
  destruct (instant_ok (Z.max (next l) now + cost_of l bytes)); simplify_eq/=.
  split_and!; try done. intros ->. done.
Qed.

(** A limiter whose rate is a non-zero [u64] and whose clock is not at the very
    start of its range. *)
Definition limiter_ok (l : Limited) : Prop :=
  0 < bytes_per_second l <= u64_MAX ∧ 0 <= burst l ∧
  - 2 ^ 63 * NANOS + burst l <= next l.

Lemma reserve_release l bytes now d l' :
  limiter_ok l → 0 <= bytes → reserve l bytes now = Some (d, l') →
  limiter_ok l' ∧ now + d = Z.max now (next l' - burst l).
Proof.
  intros (Hr & Hb & Hn) Hby H.
  pose proof (cost_of_range l bytes ltac:(lia) Hby) as Hc.
  assert (Hok : instant_ok (next l') = true).
  { unfold reserve, instant_add in H. destruct (instant_ok _) eqn:E; simplify_eq/=. done. }
  apply reserve_Some in H as (Hr' & Hb' & Hn' & Hd).
  split; [unfold limiter_ok; rewrite Hr', Hb'; split_and!; lia|].
  unfold instant_ok in *. bsimpl. rewrite Hd; lia.
Qed.

(** What a sequence of requests costs, and when the last one is released. *)
Lemma acquire_all_bound reqs : ∀ l at_ t l',
  limiter_ok l → next l - burst l <= at_ →
  Forall (λ r, in_budget l r.1 ∧ r.1 <= u64_MAX) reqs →
  acquire_all (Some l) at_ reqs = Some (t, Some l') →
  bytes_per_second l' = bytes_per_second l ∧ burst l' = burst l ∧
  next l' - burst l <= t ∧
  total_bytes reqs * NANOS <= bytes_per_second l * (next l' - next l).
Proof.
  induction reqs as [|[bytes now] reqs IH]; intros l at_ t l' Hok Hat Hf; simpl.
  { intros [= <- <-]. split_and!; try done. lia. }
  inversion Hf as [|?? [Hin Hu] Hf']; subst. simpl in *.
  destruct (reserve l bytes now) as [[d l1]|] eqn:E; [|done]. simpl.
  destruct (reserve_release l bytes now d l1 Hok (proj1 Hin) E) as [Hok1 Hrel].
  apply reserve_Some in E as (Hr1 & Hb1 & Hn1 & _).
  pose proof Hok as (Hr & Hb & _).
  pose proof (cost_of_covers l bytes ltac:(lia) ltac:(lia) Hin (proj1 Hin) Hu) as Hc.
  intros H. apply IH in H as (Hr2 & Hb2 & Ht & Htot); [|done|lia|].
  2: { eapply Forall_impl; [exact Hf'|]. unfold in_budget. by rewrite Hr1. }
  rewrite Hr1 in *. rewrite Hb1 in *. split_and!; try done. nia.
Qed.

(** ** Properties *)

(** However many connections share the limiter and however their requests
    interleave, the bytes released by the time [t] at which the last of them
    is released do not exceed rate * (t - next + burst): the configured rate
    over the elapsed time plus the 100 ms burst. *)
Theorem rate_bound l reqs t l' :
  limiter_ok l →
  Forall (λ r, in_budget l r.1 ∧ r.1 <= u64_MAX) reqs →
  acquire_all (Some l) (next l - burst l) reqs = Some (t, Some l') →
  total_bytes reqs * NANOS <= bytes_per_second l * (t - next l + burst l).
Proof.
  intros Hok Hf H.
  destruct (acquire_all_bound _ _ _ _ _ Hok (Z.le_refl _) Hf H) as (_ & _ & Ht & Htot).
  destruct Hok as (Hr & _). etransitivity; [exact Htot|].
  apply Z.mul_le_mono_nonneg_l; lia.
Qed.

Lemma rate_bound_witness :
  let l := {| bytes_per_second := 1000; next := 0; burst := 100000000 |} in
  acquire_all (Some l) (-100000000) [(100, 0); (50, 0); (200, 1000)] =
    Some (250000000, Some {| bytes_per_second := 1000; next := 350000000; burst := 100000000 |}) ∧
  350 * NANOS <= 1000 * (250000000 - 0 + 100000000).
Proof.
  intros l. split; [by vm_compute|].
  refine (rate_bound l [(100, 0); (50, 0); (200, 1000)] 250000000 _ _ _ _).
  - vm_compute. done.
  - repeat constructor; vm_compute; done.
  - by vm_compute.
Defined.

(** A request never waits longer than its own cost and the backlog demand:
    the delay is exactly max(0, max(next, now) + cost - burst - now), so an
    idle limiter releases at once a request that fits in the burst. *)
Theorem reserve_delay l bytes now :
  limiter_ok l → 0 <= bytes → Z.max (next l) now < 2 ^ 62 * NANOS →
  - 2 ^ 63 * NANOS <= now →
  ∃ l', reserve l bytes now =
        Some (Z.max 0 (Z.max (next l) now + cost_of l bytes - burst l - now), l') ∧
        limiter_ok l' ∧
        (next l <= now → cost_of l bytes <= burst l →
         (reserve l bytes now) = Some (0, l')).
Proof.
  intros Hok Hb Hlt Hnow. pose proof Hok as (Hr & Hbu & Hn).
  pose proof (cost_of_range l bytes ltac:(lia) Hb) as Hc.
  destruct (reserve l bytes now) as [[d l1]|] eqn:E.
  - destruct (reserve_release _ _ _ _ _ Hok Hb E) as [Hok1 Hrel].
    apply reserve_Some in E as (_ & _ & Hn1 & _). exists l1.
    assert (Hd : d = Z.max 0 (Z.max (next l) now + cost_of l bytes - burst l - now)) by lia.
    split_and!; [by rewrite Hd|done|]. intros. do 2 f_equal. lia.
  - exfalso. unfold reserve, instant_add, instant_ok in E. unfold u64_MAX, NANOS in *.
    rewrite (proj2 (andb_true_iff _ _)) in E; [done|]. bsimpl. lia.
Qed.

Lemma reserve_delay_witness :
  let l := {| bytes_per_second := 1000; next := 0; burst := 100000000 |} in
  ∃ l', reserve l 100 5 = Some (0, l') ∧ limiter_ok l'.
Proof.
  intros l. destruct (reserve_delay l 100 5) as (l' & H & Hok & _);
    [vm_compute; done|done|vm_compute; done|vm_compute; done|].
  exists l'. split; [|exact Hok]. rewrite H. f_equal.
Defined.
