(* ===== verification/ConfigFiles.v ===== *)
(** * ConfigFiles: the file operations of [gaterust-tunnel/src/config.rs]

    The regular files of the host are a map from paths to contents.  Every
    system call can fail: [faults] says which ones do, and [race] is a file
    another process creates between the existence check and the open.  The
    TOML codec and the [atomic-write-file] crate are the classes [Toml] and
    [AtomicWriteFile]. *)

From S2P Require Import Prelude RustStr Net TunnelConfig.

Notation fs := (gmap (list component) (list ascii)).

Record faults := {
  f_exists : option ErrorKind;
  f_read : option ErrorKind;
  f_mkdir : option ErrorKind;
  f_open : option ErrorKind;
  (** the error and what had been written when it occurred *)
  f_write : option (ErrorKind * str);
  f_remove : option ErrorKind }.

Definition no_faults : faults :=
  {| f_exists := None; f_read := None; f_mkdir := None; f_open := None;
     f_write := None; f_remove := None |}.

(** [toml] at type [A]. *)
Class Toml (A : Type) := {
  toml_to_string : A → result str str;
  toml_from_str : str → result str A;
  toml_roundtrip : ∀ a s, toml_to_string a = Ok s → toml_from_str s = Ok a }.

(** [atomic_write_file]: open, write and commit as one operation.  It either
    fails, and the file is as it was, or replaces the contents. *)
Class AtomicWriteFile := {
  atomic_write : fs → Path → str → result ErrorKind fs;
  atomic_write_ok : ∀ m p c m', atomic_write m p c = Ok m' → m' = <[p := c]> m }.

Definition read_to_string (fl : faults) (m : fs) (path : Path) : result ErrorKind str :=
  match f_read fl with
  | Some e => Err e
  | None => ok_or (m !! path) NotFound
  end.

Definition config_parent (path : Path) : Path :=
  match path_parent path with
  | Some (c :: p) => c :: p
  | _ => [CurDir]
  end.

Section files.
Context {AW : AtomicWriteFile}.

Definition parse_config {A} `{Toml A} (fl : faults) (m : fs) (path : Path) : Result A :=
  content ← map_err (ReadConfig path) (read_to_string fl m path);
  map_err (ParseConfig path) (toml_from_str content).

Definition serialize_client_config `{Toml ClientConfig} (config : ClientConfig) (path : Path)
  : Result str :=
  map_err (SerializeConfig path) (toml_to_string config).

(** [create_dir_all] and the atomic replacement. *)
Definition write_client_config (fl : faults) (m : fs) (path : Path) (content : str) : Result fs :=
  _ ← match f_mkdir fl with Some e => Err (WriteConfig path e) | None => Ok tt end;
  map_err (WriteConfig path) (atomic_write m path content).

Definition ServerConfig_read `{Toml ServerConfig} (fl : faults) (m : fs) (path : Path)
  : Result ServerConfig :=
  config ← parse_config fl m path;
  _ ← ServerConfig_validate config;
  Ok config.

Definition ServerConfig_load `{Toml ServerConfig} (fl : faults) (m : fs) (path : Path)
  : Result ServerConfig :=
  config ← ServerConfig_read fl m path;
  Ok (resolve_server_paths path config).

Definition ClientConfig_read `{Toml ClientConfig} (fl : faults) (m : fs) (path : Path)
  : Result ClientConfig := parse_config fl m path.

Definition ClientConfig_load `{Toml ClientConfig} (fl : faults) (m : fs) (path : Path)
  : Result ClientConfig :=
  config ← ClientConfig_read fl m path;
  ClientConfig_resolved config path.

Definition ClientConfig_save `{Toml ClientConfig} (c : ClientConfig) (fl : faults) (m : fs)
  (path : Path) : Result fs :=
  _ ← ClientConfig_validate c;
  content ← serialize_client_config c path;
  write_client_config fl m path content.

Definition ClientConfig_reset `{Toml ClientConfig} (sample : nat → ascii) (fl : faults) (m : fs)
  (path : Path) : Result (ClientConfig * fs) :=
  let config := ClientConfig_initial sample in
  content ← serialize_client_config config path;
  m' ← write_client_config fl m path content;
  Ok (config, m').

Definition cleanup_file (fl : faults) (m : fs) (path : Path) : fs :=
  match f_remove fl with Some _ => m | None => delete path m end.

(** The result and the files afterwards. *)
Definition ensure_exists `{Toml ClientConfig} (sample : nat → ascii) (fl : faults)
  (race : option str) (m : fs) (path : Path) : Result bool * fs :=
  match f_exists fl with
  | Some e => (Err (WriteConfig path e), m)
  | None =>
  if bool_decide (is_Some (m !! path)) then (Ok false, m) else
  match serialize_client_config (ClientConfig_initial sample) path with
  | Err e => (Err e, m)
  | Ok content =>
  match f_mkdir fl with
  | Some e => (Err (WriteConfig path e), m)
  | None =>
  let m := match race with Some other => <[path := other]> m | None => m end in
  match f_open fl with
  | Some e => (Err (WriteConfig path e), m)
  | None =>
  if bool_decide (is_Some (m !! path)) then (Ok false, m) else
  match f_write fl with
  | Some (e, partial) =>
      (Err (WriteConfig path e), cleanup_file fl (<[path := partial]> m) path)
  | None => (Ok true, <[path := content]> m)
  end end end end end.
End files.

(** ** Lemmas *)

Section proofs.
Context {AW : AtomicWriteFile} `{Toml ClientConfig}.

Lemma write_client_config_ok fl m path content m' :
  write_client_config fl m path content = Ok m' → m' = <[path := content]> m.
Proof.
  unfold write_client_config. destruct (f_mkdir fl); simpl; [done|].
  rewrite map_err_ok. apply atomic_write_ok.
Qed.

Lemma read_back fl m path content c :
  f_read fl = None → toml_to_string c = Ok content →
  ClientConfig_read fl (<[path := content]> m) path = Ok c.
Proof.
  intros Hf Hc. unfold ClientConfig_read, parse_config, read_to_string.
  rewrite Hf, lookup_insert_eq. simpl. by rewrite (toml_roundtrip c content Hc).
Qed.

Lemma save_read c fl m path m' fl' :
  ClientConfig_save c fl m path = Ok m' → f_read fl' = None →
  ClientConfig_read fl' m' path = Ok c ∧ (∀ p, p ≠ path → m' !! p = m !! p).
Proof.
  unfold ClientConfig_save, serialize_client_config. rewrite bind_unit_ok, bind_ok.
  intros (_ & content & Hc & Hw) Hf. rewrite map_err_ok in Hc.
  apply write_client_config_ok in Hw as ->. split; [by apply read_back|].
  intros p Hp. by rewrite lookup_insert_ne.
Qed.
End proofs.

(** A codec and an atomic file for the witnesses: one known configuration. *)
Definition one_config : ClientConfig :=
  {| client_key := replicate 32 "k"%char;
     client_server := {| server_address := "example.org:7000"; server_tls_name := None;
                         ca_certificate := Some [Normal "ca.pem"] |};
     client_services := [{| service_name := "web"; service_kind := Tcp;
                            service_target := Some (lit "127.0.0.1:80") |}] |}.

#[global] Instance ClientConfig_eq_dec : EqDecision ClientConfig.
Proof. solve_decision. Defined.

Definition one_toml (one : ClientConfig) : Toml ClientConfig.
Proof.
  refine {| toml_to_string := λ c, if decide (c = one) then Ok (lit "one") else Err (lit "no");
            toml_from_str := λ s, if decide (s = lit "one") then Ok one else Err (lit "no") |}.
  intros c s H. repeat case_decide; simplify_eq; done.
Defined.

Definition plain_atomic : AtomicWriteFile.
Proof. refine {| atomic_write := λ m p c, Ok (<[p := c]> m) |}. by intros ???? [= <-]. Defined.

(** ** Properties *)

(** What [save] writes, [load] reads back: the same configuration with its
    certificate path resolved against the directory of the file; a
    configuration [save] accepts is valid, and no other file is touched. *)
Theorem save_load_roundtrip {AW : AtomicWriteFile} `{Toml ClientConfig} c fl m path m' fl' :
  ClientConfig_save c fl m path = Ok m' → f_read fl' = None →
  wf_client c ∧ ClientConfig_load fl' m' path = ClientConfig_resolved c path ∧
  is_ok (ClientConfig_load fl' m' path) = true ∧
  (∀ p, p ≠ path → m' !! p = m !! p).
Proof.
  intros Hs Hf. destruct (save_read _ _ _ _ _ _ Hs Hf) as [Hr Ho].
  unfold ClientConfig_save in Hs. rewrite bind_unit_ok in Hs. destruct Hs as [Hv _].
  pose proof Hv as Hwf. rewrite client_validate_iff in Hwf.
  assert (Hl : ClientConfig_load fl' m' path = ClientConfig_resolved c path).
  { unfold ClientConfig_load. by rewrite Hr. }
  split_and!; try done. rewrite Hl. unfold ClientConfig_resolved. by rewrite Hv.
Qed.

Lemma save_load_roundtrip_witness :
  @ClientConfig_load (one_toml one_config) no_faults
     {[ [Normal "etc"; Normal "c.toml"] := lit "one" ]} [Normal "etc"; Normal "c.toml"] =
  ClientConfig_resolved one_config [Normal "etc"; Normal "c.toml"].
Proof.
  refine (proj1 (proj2 (@save_load_roundtrip plain_atomic (one_toml one_config) one_config
    no_faults ∅ [Normal "etc"; Normal "c.toml"]
    {[ [Normal "etc"; Normal "c.toml"] := lit "one" ]} no_faults _ _))).
  - reflexivity.
  - done.
Defined.

(** [ensure_exists] never changes a file that is there, even one another
    process creates while it runs; when it reports a creation the file holds
    the initial configuration; when it fails, nothing is left behind unless
    removing the partial file fails too. *)
Theorem ensure_exists_safe `{Toml ClientConfig} sample fl race m path :
  let c := ClientConfig_initial sample in
  let before := match m !! path with Some x => Some x | None => race end in
  match ensure_exists sample fl race m path with
  | (Ok true, m') => m !! path = None ∧ race = None ∧
      ClientConfig_read no_faults m' path = Ok c ∧ delete path m' = delete path m
  | (Ok false, m') => is_Some (m' !! path) ∧ m' !! path = before ∧ delete path m' = delete path m
  | (Err _, m') => delete path m' = delete path m ∧
      (m' !! path = m !! path ∨ m' !! path = before ∨ is_Some (f_remove fl))
  end.
Proof.
  unfold ensure_exists.
  destruct (f_exists fl); [by auto|].
  case_bool_decide as Hex; [destruct Hex as [x ->]; eauto|].
  apply eq_None_not_Some in Hex.
  destruct (serialize_client_config _ _) as [content|] eqn:Es; [|by auto].
  destruct (f_mkdir fl); [by auto|]. rewrite Hex.
  destruct (f_open fl).
  { destruct race; [rewrite lookup_insert_eq, delete_insert_eq|]; auto. }
  destruct race as [other|].
  { rewrite bool_decide_eq_true_2 by by rewrite lookup_insert_eq.
    rewrite lookup_insert_eq, delete_insert_eq. eauto. }
  rewrite Hex. rewrite bool_decide_eq_false_2 by (by intros [??]).
  destruct (f_write fl) as [[e partial]|].
  - unfold cleanup_file. destruct (f_remove fl) as [er|].
    + rewrite delete_insert_eq. split; [done|]. right; right. by exists er.
    + rewrite lookup_delete_eq, delete_delete_eq, delete_insert_eq. auto.
  - split_and!; [done|done| |by rewrite delete_insert_eq].
    apply read_back; [done|]. unfold serialize_client_config in Es. by apply map_err_ok in Es.
Qed.
