(* ===== verification/Identity.v ===== *)
(** * Identity: [gaterust-tunnel/src/identity.rs]

    The device identifier of a client: how it is derived from the host, kept
    beside the configuration file and changed after a conflict.  The operating
    system's name, the environment and [/etc/hostname] are arguments, as is
    the random suffix. *)

From S2P Require Import Prelude RustStr TunnelConfig ConfigFiles.

Definition MAX_DEVICE_ID_BYTES : nat := 64.

Record DeviceIdentity := { id : str; identity_file : Path }.

Definition validate_device_id (id : str) : Result unit :=
  reject_if (bool_decide (id = []) || (MAX_DEVICE_ID_BYTES <? length id)%nat
             || negb (forallb valid_name_byte id))
    (InvalidConfig "设备 ID 必须为 1..=64 个 ASCII 字母、数字、- 或 _").

(** [with_file_name]: the last component is replaced (or added). *)
Definition with_file_name (p : Path) (name : str) : Path :=
  match path_file_name p with
  | Some _ => removelast p ++ [Normal name]
  | None => p ++ [Normal name]
  end.

Definition identity_path (config_path : Path) : Path :=
  with_file_name config_path (default (lit "client") (path_file_name config_path) ++ ".device-id").

(** The character loop of [sanitize]: runs of replaced bytes collapse. *)
Definition sanitize_push (result : str) (byte : ascii) : str :=
  let byte := if valid_name_byte byte then byte else "-"%char in
  if bool_decide (byte ≠ "-"%char) || negb (ends_with "-" result)
  then result ++ [byte] else result.

Definition is_dash (c : ascii) : bool := bool_decide (c = "-"%char).

Definition sanitize (value : str) (limit : nat) : str :=
  let result := trim_matches is_dash (foldl sanitize_push [] (take limit value)) in
  if bool_decide (result = []) then "device" else result.

(** [&value[..value.len().min(limit)]]: panics inside a UTF-8 sequence. *)
Definition truncate_ascii (value : str) (limit : nat) : option str :=
  let n := Nat.min (length value) limit in
  match value !! n with
  | Some c => if is_cont c then None else Some (take n value)
  | None => Some (take n value)
  end.

Definition system_name (os : str) : str :=
  if bool_decide (os = lit "windows") then "win"
  else if bool_decide (os = lit "macos") then "mac"
  else if bool_decide (os = lit "linux") then "linux"
  else os.

Definition nonblank (s : str) : bool := bool_decide (trim s ≠ []).

(** [system_host_name] of a Unix host, from the contents of [/etc/hostname]. *)
Definition system_host_name (etc_hostname : option str) : option str :=
  s ← etc_hostname;
  let name := trim s in
  if bool_decide (name = []) then None else Some name.

Definition base_device_id (os : str) (computername hostname etc_hostname : option str) : str :=
  let system := system_name os in
  let env := match computername with Some n => Some n | None => hostname end in
  let env := n ← env; if nonblank n then Some n else None in
  let raw_name := match env with
                  | Some n => n
                  | None => default (lit "device") (system_host_name etc_hostname)
                  end in
  system ++ "-" ++ sanitize raw_name (MAX_DEVICE_ID_BYTES - length system - 1).

(** [{suffix:06}] of a suffix below one million. *)
Fixpoint pad_digits (k : nat) (n : N) : str :=
  match k with
  | O => []
  | S k => pad_digits k (n / 10) ++ [ascii_of_N (48 + n mod 10)]
  end.

(** The identifier without the six-digit suffix an earlier conflict added. *)
Definition conflict_base (id : str) : str :=
  match rsplit_once "-"%char id with
  | Some (base, suffix) =>
      if (length suffix =? 6)%nat && forallb is_ascii_digit suffix then base else id
  | None => id
  end.

Definition conflict_id (id : str) (suffix : N) : option str :=
  base ← truncate_ascii (conflict_base id) (MAX_DEVICE_ID_BYTES - 7);
  Some (base ++ "-" ++ pad_digits 6 suffix).

Section files.
Context {AW : AtomicWriteFile}.

Definition persist (fl : faults) (m : fs) (d : DeviceIdentity) : Result fs :=
  _ ← match f_mkdir fl with Some e => Err (Io e) | None => Ok tt end;
  map_err Io (atomic_write m (identity_file d) (id d)).

(** The identity changes even when persisting it fails. *)
Definition resolve_conflict (fl : faults) (m : fs) (d : DeviceIdentity) (suffix : N)
  : option (Result fs * DeviceIdentity) :=
  new ← conflict_id (id d) suffix;
  let d := {| id := new; identity_file := identity_file d |} in
  Some (persist fl m d, d).

Definition load (base : str) (fl : faults) (m : fs) (config_path : Path)
  : Result (DeviceIdentity * fs) :=
  let path := identity_path config_path in
  match read_to_string fl m path with
  | Ok content =>
      let id := trim content in
      _ ← validate_device_id id;
      Ok ({| id := id; identity_file := path |}, m)
  | Err NotFound =>
      let identity := {| id := base; identity_file := path |} in
      m' ← persist fl m identity;
      Ok (identity, m')
  | Err e => Err (ReadConfig path e)
  end.
End files.

(** ** Lemmas *)

Definition valid_id (s : str) : Prop :=
  s ≠ [] ∧ (length s ≤ MAX_DEVICE_ID_BYTES)%nat ∧ Forall (λ b, valid_name_byte b = true) s.

Lemma validate_device_id_ok s u : validate_device_id s = Ok u ↔ valid_id s.
Proof.
  unfold validate_device_id, valid_id. rewrite reject_if_ok, !orb_false_iff, negb_false_iff.
  rewrite forallb_Forall, bool_decide_eq_false, Nat.ltb_ge. tauto.
Qed.

Lemma valid_name_byte_not_cont c : valid_name_byte c = true → is_cont c = false.
Proof. destruct c as [[] [] [] [] [] [] [] []]; vm_compute; done. Qed.

Lemma digit_valid c : is_ascii_digit c = true → valid_name_byte c = true.
Proof. destruct c as [[] [] [] [] [] [] [] []]; vm_compute; done. Qed.

Lemma truncate_ascii_valid s n :
  Forall (λ b, valid_name_byte b = true) s → truncate_ascii s n = Some (take n s).
Proof.
  intros Hf. unfold truncate_ascii.
  assert (Ht : take (Nat.min (length s) n) s = take n s).
  { destruct (Nat.le_ge_cases (length s) n) as [Hl|Hl].
    - rewrite Nat.min_l, !take_ge by lia. done.
    - by rewrite Nat.min_r by lia. }
  destruct (s !! _) as [c|] eqn:E; rewrite Ht; [|done].
  rewrite Forall_forall in Hf. rewrite valid_name_byte_not_cont; [done|].
  apply Hf. by eapply list_elem_of_lookup_2.
Qed.

Lemma length_pad_digits k n : length (pad_digits k n) = k.
Proof. revert n; induction k as [|k IH]; intros n; simpl; [done|]. rewrite length_app, IH. simpl. lia. Qed.

Lemma pad_digits_digits k n : Forall (λ c, is_ascii_digit c = true) (pad_digits k n).
Proof.
  revert n; induction k as [|k IH]; intros n; simpl; [constructor|].
  apply Forall_app; split; [done|]. repeat constructor.
  pose proof (N.mod_upper_bound n 10 ltac:(lia)).
  unfold is_ascii_digit, in_range. rewrite N_ascii_embedding by lia.
  generalize dependent (n mod 10). intros m Hm. bsimpl. lia.
Qed.

#[local] Arguments pad_digits : simpl never.

Lemma digit_not_dash c : is_ascii_digit c = true → c ≠ "-"%char.
Proof. intros H ->. by vm_compute in H. Qed.

Lemma conflict_base_prefix s : ∃ r, s = conflict_base s ++ r.
Proof.
  unfold conflict_base. destruct (rsplit_once _ s) as [[b x]|] eqn:E; [|exists []; by rewrite app_nil_r].
  apply rsplit_once_Some in E as [-> _]. destruct (_ && _); [eauto|].
  exists []. by rewrite app_nil_r.
Qed.

Lemma conflict_base_suffixed b n : conflict_base (b ++ "-" ++ pad_digits 6 n) = b.
Proof.
  unfold conflict_base.
  assert (rsplit_once "-" (b ++ "-" ++ pad_digits 6 n) = Some (b, pad_digits 6 n)) as ->.
  { apply rsplit_once_Some. split; [done|]. intros Hin.
    pose proof (pad_digits_digits 6 n) as Hd. rewrite Forall_forall in Hd.
    apply Hd in Hin. by apply digit_not_dash in Hin. }
  rewrite length_pad_digits.
  by rewrite (proj2 (forallb_Forall _ _) (pad_digits_digits 6 n)).
Qed.

Lemma conflict_id_valid s n :
  valid_id s →
  ∃ t, conflict_id s n = Some t ∧ valid_id t ∧ conflict_base t = take 57 (conflict_base s) ∧
       length t = (Nat.min 57 (length (conflict_base s)) + 7)%nat.
Proof.
  intros (Hne & Hl & Hf). destruct (conflict_base_prefix s) as [r Hr].
  assert (Hb : Forall (λ b, valid_name_byte b = true) (conflict_base s)).
  { rewrite Hr in Hf. by apply Forall_app in Hf as [? _]. }
  unfold conflict_id. rewrite truncate_ascii_valid by done.
  cbn [mbind option_bind]. eexists. split; [done|].
  split; [|split; [apply (conflict_base_suffixed (take 57 _))|]].
  2: { rewrite !length_app, length_pad_digits, length_take. unfold MAX_DEVICE_ID_BYTES.
       change (length (lit "-")) with 1%nat. lia. }
  split_and!.
  - intros H%app_eq_nil. by destruct H as [_ ?].
  - rewrite !length_app, length_pad_digits, length_take. unfold MAX_DEVICE_ID_BYTES.
    change (length (lit "-")) with 1%nat. lia.
  - apply Forall_app. split; [by apply Forall_take|]. constructor; [done|].
    eapply Forall_impl; [apply pad_digits_digits|]. apply digit_valid.
Qed.

Lemma valid_name_byte_graphic c : valid_name_byte c = true → in_range c 33 126 = true.
Proof. destruct c as [[] [] [] [] [] [] [] []]; vm_compute; done. Qed.

(** A well-formed identifier has no white space around it. *)
Lemma trim_valid s : Forall (λ b, valid_name_byte b = true) s → trim s = s.
Proof.
  intros Hf. apply trim_graphic. eapply Forall_impl; [exact Hf|]. apply valid_name_byte_graphic.
Qed.

Lemma sanitize_push_valid bytes : ∀ acc,
  Forall (λ b, valid_name_byte b = true) acc →
  let r := foldl sanitize_push acc bytes in
  Forall (λ b, valid_name_byte b = true) r ∧ (length r ≤ length acc + length bytes)%nat.
Proof.
  induction bytes as [|b bytes IH]; intros acc Hacc; cbn [foldl length]; [split; [done|lia]|].
  assert (Hp : Forall (λ b, valid_name_byte b = true) (sanitize_push acc b) ∧
          (length (sanitize_push acc b) ≤ length acc + 1)%nat).
  { unfold sanitize_push. destruct (_ || _).
    - rewrite length_app. split; [|simpl; lia]. apply Forall_app; split; [done|].
      repeat constructor. by destruct (valid_name_byte b) eqn:E.
    - split; [done|lia]. }
  destruct Hp as [Hv Hl]. destruct (IH _ Hv) as [??]. split; [done|lia].
Qed.

Lemma sanitize_ok value limit :
  (6 ≤ limit)%nat →
  let r := sanitize value limit in
  r ≠ [] ∧ Forall (λ b, valid_name_byte b = true) r ∧ (length r ≤ limit)%nat ∧
  head r ≠ Some "-"%char ∧ last r ≠ Some "-"%char.
Proof.
  intros Hlim. unfold sanitize. set (r0 := foldl sanitize_push [] (take limit value)).
  destruct (sanitize_push_valid (take limit value) [] ltac:(constructor)) as [Hv Hl].
  fold r0 in Hv, Hl. rewrite length_take in Hl. simpl in Hl.
  case_bool_decide as Hr.
  { split_and!; [done|by repeat constructor|simpl; lia|done|done]. }
  destruct (trim_matches_app is_dash r0) as (p & q & Hr0).
  split_and!; [done|..].
  - rewrite Hr0 in Hv. apply Forall_app in Hv as [_ Hv]. by apply Forall_app in Hv as [? _].
  - apply (f_equal length) in Hr0. rewrite !length_app in Hr0. lia.
  - unfold trim_matches in *. intros Hh. destruct (trim_end_matches_app is_dash (trim_start_matches is_dash r0)) as (q' & Hq & _).
    destruct (trim_end_matches is_dash (trim_start_matches is_dash r0)) as [|c r]; [done|].
    simpl in Hh, Hq. simplify_eq. by apply trim_start_matches_head in Hq.
  - unfold trim_matches in *. intros Hh. apply last_Some in Hh as [r' Hr'].
    by apply trim_end_matches_last in Hr'.
Qed.

Lemma system_name_ok os :
  valid_id os → (length os ≤ 57)%nat → valid_id (system_name os) ∧ (length (system_name os) ≤ 57)%nat.
Proof.
  intros Hv Hl. unfold system_name. repeat case_bool_decide; (split; [|simpl; lia || done]);
    try done; (split_and!; [done|simpl; unfold MAX_DEVICE_ID_BYTES; lia|by repeat constructor]).
Qed.

Lemma base_device_id_ok os c h e :
  valid_id os → (length os ≤ 57)%nat → valid_id (base_device_id os c h e).
Proof.
  intros Hv Hl. destruct (system_name_ok os Hv Hl) as [(Hne & _ & Hf) Hl'].
  unfold base_device_id. set (raw := match _ with Some n => n | None => _ end). clearbody raw.
  destruct (sanitize_ok raw (MAX_DEVICE_ID_BYTES - length (system_name os) - 1)) as (_ & Hs & Hsl & _).
  { unfold MAX_DEVICE_ID_BYTES. lia. }
  split_and!.
  - intros [? _]%app_eq_nil. done.
  - rewrite !length_app. change (length (lit "-")) with 1%nat. unfold MAX_DEVICE_ID_BYTES in *. lia.
  - rewrite !Forall_app. split_and!; [done|by repeat constructor|done].
Qed.

(** ** Properties *)

(** Whatever the environment and the host name are, the identifier derived
    for a new device is one the server accepts: 1 to 64 bytes of letters,
    digits, [-] and [_]. *)
Theorem base_device_id_valid os computername hostname etc_hostname :
  valid_id os → (length os ≤ 57)%nat →
  validate_device_id (base_device_id os computername hostname etc_hostname) = Ok tt.
Proof. intros. apply validate_device_id_ok. by apply base_device_id_ok. Qed.

Lemma base_device_id_valid_witness :
  validate_device_id (base_device_id "linux" None (Some (lit "--my host!!--")) None) = Ok tt.
Proof.
  apply (base_device_id_valid "linux"); [|vm_compute; lia].
  split_and!; [done|vm_compute; lia|by repeat constructor].
Defined.

(** Resolving a conflict never panics, gives an accepted identifier, and
    replaces the six-digit suffix instead of growing it: the base of the new
    identifier is the (truncated) base of the old one, so any number of
    conflicts in a row keeps one base. *)
Theorem resolve_conflict_valid {AW : AtomicWriteFile} fl m d n1 n2 :
  valid_id (id d) →
  ∃ d1 r1 d2 r2,
    resolve_conflict fl m d n1 = Some (r1, d1) ∧ resolve_conflict fl m d1 n2 = Some (r2, d2) ∧
    validate_device_id (id d1) = Ok tt ∧ validate_device_id (id d2) = Ok tt ∧
    conflict_base (id d1) = take 57 (conflict_base (id d)) ∧
    conflict_base (id d2) = conflict_base (id d1) ∧ length (id d2) = length (id d1).
Proof.
  intros Hv. destruct (conflict_id_valid _ n1 Hv) as (t1 & E1 & Hv1 & Hb1 & Hl1).
  destruct (conflict_id_valid _ n2 Hv1) as (t2 & E2 & Hv2 & Hb2 & Hl2).
  unfold resolve_conflict. rewrite E1. simpl. do 4 eexists. split; [done|]. simpl.
  rewrite E2. simpl. split; [done|]. simpl. rewrite !validate_device_id_ok.
  assert (Hb : conflict_base t2 = conflict_base t1).
  { rewrite Hb2, Hb1, take_take. done. }
  split_and!; try done.
  rewrite Hl2, Hl1, Hb1, length_take. lia.
Qed.

Lemma resolve_conflict_valid_witness :
  let d := {| id := "linux-host"; identity_file := [Normal "c.device-id"] |} in
  ∃ d1 r1 d2 r2,
    @resolve_conflict plain_atomic no_faults ∅ d 42 = Some (r1, d1) ∧
    @resolve_conflict plain_atomic no_faults ∅ d1 7 = Some (r2, d2) ∧
    validate_device_id (id d1) = Ok tt ∧ validate_device_id (id d2) = Ok tt ∧
    conflict_base (id d1) = take 57 (conflict_base (id d)) ∧
    conflict_base (id d2) = conflict_base (id d1) ∧ length (id d2) = length (id d1).
Proof.
  intros d. apply (@resolve_conflict_valid plain_atomic no_faults ∅ d 42 7).
  split_and!; [done|vm_compute; lia|by repeat constructor].
Defined.

(** A device keeps its identifier: what the first [load] derives and
    stores is what every later [load] returns, and whatever [load] returns
    passes the server's check. *)
Theorem load_stable {AW : AtomicWriteFile} base base' fl m path d m' :
  valid_id base → load base fl m path = Ok (d, m') →
  validate_device_id (id d) = Ok tt ∧ load base' no_faults m' path = Ok (d, m').
Proof.
  intros Hb. unfold load, read_to_string. simpl.
  assert (Hre : ∀ c m'', m'' !! identity_path path = Some c → valid_id (trim c) →
     match ok_or (m'' !! identity_path path) NotFound with
     | Ok content => validate_device_id (trim content) ≫= λ _,
         Ok ({| id := trim content; identity_file := identity_path path |}, m'')
     | Err NotFound => persist no_faults m'' {| id := base'; identity_file := identity_path path |} ≫= λ m',
         Ok ({| id := base'; identity_file := identity_path path |}, m')
     | Err e => Err (ReadConfig (identity_path path) e)
     end = Ok ({| id := trim c; identity_file := identity_path path |}, m'')).
  { intros c m'' -> Hc. simpl. by rewrite (proj2 (validate_device_id_ok (trim c) tt) Hc). }
  destruct (f_read fl) as [[]|] eqn:Ef; try done.
  - (* an injected NotFound *)
    rewrite bind_ok. intros (m1 & Hp & [= <- <-]). unfold persist in Hp. simpl in *.
    rewrite bind_unit_ok, map_err_ok in Hp. destruct Hp as [_ Hp]. apply atomic_write_ok in Hp as ->.
    split; [by apply validate_device_id_ok|].
    erewrite Hre; [|by rewrite lookup_insert_eq|]; rewrite trim_valid; try done; apply Hb.
  - destruct (m !! identity_path path) as [c|] eqn:Em; simpl.
    + rewrite bind_unit_ok. intros [Hv [= <- <-]]. simpl. split; [done|].
      apply validate_device_id_ok in Hv. rewrite Em. simpl.
      by rewrite (proj2 (validate_device_id_ok (trim c) tt) Hv).
    + rewrite bind_ok. intros (m1 & Hp & [= <- <-]). unfold persist in Hp. simpl in *.
      rewrite bind_unit_ok, map_err_ok in Hp. destruct Hp as [_ Hp]. apply atomic_write_ok in Hp as ->.
      split; [by apply validate_device_id_ok|].
      erewrite Hre; [|by rewrite lookup_insert_eq|]; rewrite trim_valid; try done; apply Hb.
Qed.

Lemma load_stable_witness :
  let path := [Normal "client.toml"] in
  let m := {[ identity_path path := lit "linux-box" ]} : fs in
  validate_device_id "linux-box" = Ok tt ∧
  @load plain_atomic "other" no_faults m path =
    Ok ({| id := "linux-box"; identity_file := identity_path path |}, m).
Proof.
  intros path m.
  refine (@load_stable plain_atomic "linux-box" "other" no_faults ∅ path
    {| id := "linux-box"; identity_file := identity_path path |} m _ _).
  - split_and!; [done|vm_compute; lia|by repeat constructor].
  - reflexivity.
Defined.
