(* ===== verification/Resource.v ===== *)
(** * Resource: [gaterust-tunnel/src/resource.rs] and the admission of
    unauthenticated peers in [gaterust-tunnel/src/server/mod.rs]

    The semaphores are Tokio's: class [Semaphore], with the laws of
    [try_acquire_many] and of dropping a permit; [counter_semaphore] is an
    instance.  A permit that is alive is an element of the list of outstanding
    permits, and dropping it is an operation. *)

From S2P Require Import Prelude RustStr Net TunnelConfig.

(** ** Tokio's semaphore *)

Class Semaphore (S : Type) := {
  sem_new : N → S;
  available : S → N;
  try_acquire_many : S → N → option S;
  sem_release : S → N → S;
  available_new : ∀ n, available (sem_new n) = n;
  try_acquire_ok : ∀ s n s', try_acquire_many s n = Some s' → n <= available s ∧ available s' = available s - n;
  try_acquire_fails : ∀ s n, try_acquire_many s n = None → available s < n;
  available_release : ∀ s n, available (sem_release s n) = available s + n }.

Definition try_acquire {S} `{Semaphore S} (s : S) : option S := try_acquire_many s 1.

#[global] Instance counter_semaphore : Semaphore N.
Proof.
  refine {| sem_new := λ n, n; available := λ s, s;
            try_acquire_many := λ s n, if n <=? s then Some (s - n) else None;
            sem_release := λ s n, s + n |}; intros; simpl in *.
  - done.
  - destruct (n <=? s) eqn:E; simplify_eq. bsimpl. done.
  - destruct (n <=? s) eqn:E; simplify_eq. by bsimpl.
  - done.
Defined.

(** ** [ResourceBudget] *)

Record ResourceBudget (S : Type) := {
  data_streams : S;
  udp_sessions : S;
  queued_udp_bytes : S }.
Arguments data_streams {_}. Arguments udp_sessions {_}. Arguments queued_udp_bytes {_}.

Section budget.
Context {S : Type} `{Semaphore S}.

Definition ResourceBudget_new : ResourceBudget S :=
  {| data_streams := sem_new MAX_DATA_STREAMS;
     udp_sessions := sem_new MAX_UDP_SESSIONS;
     queued_udp_bytes := sem_new MAX_QUEUED_UDP_BYTES |}.

Definition try_data_stream (b : ResourceBudget S) : option (ResourceBudget S) :=
  s ← try_acquire (data_streams b);
  Some {| data_streams := s; udp_sessions := udp_sessions b;
          queued_udp_bytes := queued_udp_bytes b |}.

Definition try_udp_session (b : ResourceBudget S) : option (ResourceBudget S) :=
  s ← try_acquire (udp_sessions b);
  Some {| data_streams := data_streams b; udp_sessions := s;
          queued_udp_bytes := queued_udp_bytes b |}.

Definition try_queue_udp_bytes (b : ResourceBudget S) (bytes : N) : option (ResourceBudget S) :=
  if u32_max <? bytes then None else
  s ← try_acquire_many (queued_udp_bytes b) bytes;
  Some {| data_streams := data_streams b; udp_sessions := udp_sessions b;
          queued_udp_bytes := s |}.

(** A permit of the budget that is alive. *)
Inductive permit := PStream | PUdpSession | PUdpBytes (bytes : N).

Definition drop_permit (b : ResourceBudget S) (p : permit) : ResourceBudget S :=
  match p with
  | PStream => {| data_streams := sem_release (data_streams b) 1;
                  udp_sessions := udp_sessions b; queued_udp_bytes := queued_udp_bytes b |}
  | PUdpSession => {| data_streams := data_streams b;
                      udp_sessions := sem_release (udp_sessions b) 1;
                      queued_udp_bytes := queued_udp_bytes b |}
  | PUdpBytes n => {| data_streams := data_streams b; udp_sessions := udp_sessions b;
                      queued_udp_bytes := sem_release (queued_udp_bytes b) n |}
  end.

Definition take_permit (b : ResourceBudget S) (p : permit) : option (ResourceBudget S) :=
  match p with
  | PStream => try_data_stream b
  | PUdpSession => try_udp_session b
  | PUdpBytes n => try_queue_udp_bytes b n
  end.

(** Any interleaving of acquisitions and drops by the listeners, which share
    one budget; the list holds the permits that are alive. *)
Inductive budget_step : ResourceBudget S * list permit → ResourceBudget S * list permit → Prop :=
  | step_take b b' p ps : take_permit b p = Some b' → budget_step (b, ps) (b', p :: ps)
  | step_drop b p ps qs : budget_step (b, ps ++ p :: qs) (drop_permit b p, ps ++ qs).

Definition streams_held (ps : list permit) : N :=
  foldr (λ p n, match p with PStream => n + 1 | _ => n end) 0 ps.
Definition sessions_held (ps : list permit) : N :=
  foldr (λ p n, match p with PUdpSession => n + 1 | _ => n end) 0 ps.
Definition bytes_held (ps : list permit) : N :=
  foldr (λ p n, match p with PUdpBytes k => n + k | _ => n end) 0 ps.

Definition budget_inv (st : ResourceBudget S * list permit) : Prop :=
  available (data_streams st.1) + streams_held st.2 = MAX_DATA_STREAMS ∧
  available (udp_sessions st.1) + sessions_held st.2 = MAX_UDP_SESSIONS ∧
  available (queued_udp_bytes st.1) + bytes_held st.2 = MAX_QUEUED_UDP_BYTES.
End budget.

(** ** Peer admission *)

Definition MAX_PENDING_AUTHENTICATIONS : N := 32.
Definition MAX_PENDING_AUTHENTICATIONS_PER_IP : N := 4.

(** The peers with an authentication under way. *)
Notation PeerAdmission := (gmap IpAddr N).

Definition PeerAdmission_try_acquire (active : PeerAdmission) (address : IpAddr)
  : bool * PeerAdmission :=
  let count := default 0 (active !! address) in
  if MAX_PENDING_AUTHENTICATIONS_PER_IP <=? count
  then (false, <[address := count]> active)
  else (true, <[address := count + 1]> active).

(** [Drop for PeerAdmissionPermit]. *)
Definition PeerAdmission_drop (active : PeerAdmission) (address : IpAddr) : PeerAdmission :=
  match active !! address with
  | Some count =>
      if count - 1 =? 0 then delete address active else <[address := count - 1]> active
  | None => active
  end.

Record admission_state (S : Type) := { peers : PeerAdmission; global : S }.
Arguments peers {_}. Arguments global {_}.

Section admission.
Context {S : Type} `{Semaphore S}.

Definition admission_init : admission_state S :=
  {| peers := ∅; global := sem_new MAX_PENDING_AUTHENTICATIONS |}.

Inductive admission_outcome := Retry | PeerFull | GlobalFull | AcceptFailed | Spawned.

(** One incoming connection in [accept_connections]: address validation, the
    peer permit, the global permit (whose failure drops the peer permit), and
    [accept_with] (whose failure drops both). *)
Definition admit_one (st : admission_state S) (validated accepted : bool) (ip : IpAddr)
  : admission_outcome * admission_state S :=
  if negb validated then (Retry, st) else
  match PeerAdmission_try_acquire (peers st) ip with
  | (false, peers') => (PeerFull, {| peers := peers'; global := global st |})
  | (true, peers') =>
      match try_acquire (global st) with
      | None => (GlobalFull, {| peers := PeerAdmission_drop peers' ip; global := global st |})
      | Some global' =>
          if accepted then (Spawned, {| peers := peers'; global := global' |})
          else (AcceptFailed, {| peers := PeerAdmission_drop peers' ip;
                                 global := sem_release global' 1 |})
      end
  end.

(** The [AuthenticationAdmission] of a task is dropped. *)
Definition release_admission (st : admission_state S) (ip : IpAddr) : admission_state S :=
  {| peers := PeerAdmission_drop (peers st) ip; global := sem_release (global st) 1 |}.

(** The list holds the peers of the admissions that are alive. *)
Inductive admission_step
  : admission_state S * list IpAddr → admission_state S * list IpAddr → Prop :=
  | step_admit st st' validated accepted ip ips o :
      admit_one st validated accepted ip = (o, st') →
      admission_step (st, ips) (st', match o with Spawned => ip :: ips | _ => ips end)
  | step_release st ip ips qs :
      admission_step (st, ips ++ ip :: qs) (release_admission st ip, ips ++ qs).

Definition pending_of (ip : IpAddr) (ips : list IpAddr) : N :=
  len (filter (λ x, x = ip) ips).

Definition admission_inv (st : admission_state S * list IpAddr) : Prop :=
  (∀ ip, peers st.1 !! ip = (let n := pending_of ip st.2 in if n =? 0 then None else Some n)) ∧
  (∀ ip, pending_of ip st.2 <= MAX_PENDING_AUTHENTICATIONS_PER_IP) ∧
  available (global st.1) + len st.2 = MAX_PENDING_AUTHENTICATIONS.
End admission.

(** ** Lemmas *)

Section budget_proofs.
Context {S : Type} `{Semaphore S}.

Lemma held_app (ps qs : list permit) :
  streams_held (ps ++ qs) = streams_held ps + streams_held qs ∧
  sessions_held (ps ++ qs) = sessions_held ps + sessions_held qs ∧
  bytes_held (ps ++ qs) = bytes_held ps + bytes_held qs.
Proof.
  induction ps as [|p ps (IH1 & IH2 & IH3)]; simpl; [done|]. destruct p; split_and!; lia.
Qed.

Lemma budget_step_inv st st' : budget_inv st → budget_step st st' → budget_inv st'.
Proof.
  intros (H1 & H2 & H3) Hs. destruct Hs as [b b' p ps Ht|b p ps qs]; unfold budget_inv in *; simpl in *.
  - destruct p; simpl in Ht; unfold try_data_stream, try_udp_session, try_queue_udp_bytes in Ht.
    3: destruct (u32_max <? bytes); [done|].
    all: apply bind_Some in Ht as (s & Ht & [= <-]); unfold try_acquire in Ht;
      apply try_acquire_ok in Ht as [? Ha]; simpl; rewrite Ha; split_and!; lia.
  - destruct (held_app ps (p :: qs)) as (Ha & Hb & Hc).
    destruct (held_app ps qs) as (Ha' & Hb' & Hc').
    destruct p; simpl in *; rewrite ?available_release; split_and!; lia.
Qed.

Lemma budget_inv_init : budget_inv (ResourceBudget_new, []).
Proof. unfold budget_inv. simpl. rewrite !available_new. done. Qed.

Lemma budget_reachable st : rtc budget_step (ResourceBudget_new, []) st → budget_inv st.
Proof.
  intros Hr. pose proof budget_inv_init as Hi. induction Hr; [done|].
  apply IHHr. by eapply budget_step_inv.
Qed.
End budget_proofs.

Section admission_proofs.
Context {S : Type} `{Semaphore S}.

Lemma pending_cons ip x ips :
  pending_of ip (x :: ips) = pending_of ip ips + (if decide (x = ip) then 1 else 0).
Proof.
  unfold pending_of, len. destruct (decide (x = ip)).
  - rewrite filter_cons_True by done. simpl. lia.
  - rewrite filter_cons_False by done. lia.
Qed.

Lemma pending_mid ip x ips qs :
  pending_of ip (ips ++ x :: qs) = pending_of ip (ips ++ qs) + (if decide (x = ip) then 1 else 0).
Proof.
  unfold pending_of. rewrite !filter_app. unfold len. rewrite !length_app.
  pose proof (pending_cons ip x qs) as Hp. unfold pending_of, len in Hp.
  revert Hp. case_decide; lia.
Qed.

(** What the table of peers says, given the outstanding admissions. *)
Definition peers_match (m : PeerAdmission) (count : IpAddr → N) : Prop :=
  ∀ ip, m !! ip = (let n := count ip in if n =? 0 then None else Some n).

Lemma peers_match_default m count ip : peers_match m count → default 0 (m !! ip) = count ip.
Proof. intros Hm. rewrite Hm. simpl. destruct (count ip =? 0) eqn:E; bsimpl; simpl; lia. Qed.

Lemma try_acquire_match m count ip b m' :
  peers_match m count → PeerAdmission_try_acquire m ip = (b, m') →
  (b = true ∧ count ip < MAX_PENDING_AUTHENTICATIONS_PER_IP ∧
   peers_match m' (λ x, count x + (if decide (ip = x) then 1 else 0))) ∨
  (b = false ∧ MAX_PENDING_AUTHENTICATIONS_PER_IP <= count ip ∧ m' = m).
Proof.
  intros Hm. unfold PeerAdmission_try_acquire. rewrite (peers_match_default m count ip Hm).
  destruct (_ <=? count ip) eqn:E; intros [= <- <-]; bsimpl.
  - right. split_and!; [done|done|]. apply insert_id. rewrite Hm. simpl.
    destruct (count ip =? 0) eqn:E0; [|done]. bsimpl. unfold MAX_PENDING_AUTHENTICATIONS_PER_IP in E. lia.
  - left. split_and!; [done|done|]. intros x. destruct (decide (ip = x)) as [<-|Hne]; simpl.
    + rewrite lookup_insert_eq. destruct (_ =? 0) eqn:E0; [bsimpl; lia|done].
    + rewrite lookup_insert_ne, Hm by done. simpl. by rewrite N.add_0_r.
Qed.

Lemma drop_match m count ip :
  peers_match m (λ x, count x + (if decide (ip = x) then 1 else 0)) →
  peers_match (PeerAdmission_drop m ip) count.
Proof.
  intros Hm x. unfold PeerAdmission_drop. rewrite (Hm ip). simpl.
  destruct (decide (ip = ip)); [|done].
  destruct (count ip + 1 =? 0) eqn:E1; bsimpl; [lia|].
  replace (count ip + 1 - 1) with (count ip) by lia.
  destruct (decide (ip = x)) as [<-|Hne].
  - destruct (count ip =? 0) eqn:E0; [by rewrite lookup_delete_eq|].
    by rewrite lookup_insert_eq.
  - destruct (count ip =? 0) eqn:E0.
    + rewrite lookup_delete_ne, (Hm x) by done. simpl.
      destruct (decide (ip = x)); [done|]. by rewrite N.add_0_r.
    + rewrite lookup_insert_ne, (Hm x) by done. simpl.
      destruct (decide (ip = x)); [done|]. by rewrite N.add_0_r.
Qed.

Lemma peers_match_ext m f g : (∀ x, f x = g x) → peers_match m f → peers_match m g.
Proof. intros Hfg Hm x. rewrite <- Hfg. apply Hm. Qed.

Lemma admission_step_inv st st' : admission_inv st → admission_step st st' → admission_inv st'.
Proof.
  intros (Hm & Hle & Hg) Hs. destruct Hs as [st st' validated accepted ip ips o Ha|st ip ips qs];
    unfold admission_inv in *; simpl in *.
  - unfold admit_one in Ha. destruct validated; simpl in Ha; [|by simplify_eq].
    destruct (PeerAdmission_try_acquire (peers st) ip) as [b m'] eqn:Ep.
    apply (try_acquire_match _ (λ x, pending_of x ips)) in Ep; [|exact Hm].
    destruct Ep as [(-> & Hlt & Hm')|(-> & _ & ->)]; [|by simplify_eq].
    destruct (try_acquire (global st)) as [g'|] eqn:Eg.
    + apply try_acquire_ok in Eg as [Hav Hav'].
      destruct accepted; simplify_eq; simpl.
      * split_and!.
        -- apply (peers_match_ext m' _ _ (λ x, eq_sym (pending_cons x ip ips))). exact Hm'.
        -- intros x. rewrite pending_cons. specialize (Hle x). case_decide; subst; lia.
        -- unfold len in *. simpl. lia.
      * split_and!; [by apply drop_match|done|]. rewrite available_release. lia.
    + simplify_eq. simpl. split_and!; [by apply drop_match|done|done].
  - split_and!.
    + apply drop_match. apply (peers_match_ext _ _ _ (λ x, pending_mid x ip ips qs)). exact Hm.
    + intros x. specialize (Hle x). rewrite pending_mid in Hle. lia.
    + rewrite available_release. unfold len in *. rewrite length_app in *. simpl in *. lia.
Qed.

Lemma admission_reachable st :
  rtc admission_step (admission_init, []) st → admission_inv st.
Proof.
  assert (Hi : admission_inv (admission_init, [])).
  { split_and!; [done|done|]. simpl. by rewrite available_new. }
  intros Hr. induction Hr; [done|]. apply IHHr. by eapply admission_step_inv.
Qed.
End admission_proofs.

(** ** Properties *)

(** In every interleaving of acquisitions and drops by the listeners that
    share the budget, at most 512 data streams, 128 UDP sessions and 16 MiB of
    queued datagrams are alive, and every permit that was dropped is available
    again. *)
Theorem budget_respected {S} `{Semaphore S} b ps :
  rtc budget_step (ResourceBudget_new, []) (b, ps) →
  streams_held ps <= MAX_DATA_STREAMS ∧ sessions_held ps <= MAX_UDP_SESSIONS ∧
  bytes_held ps <= MAX_QUEUED_UDP_BYTES ∧
  (ps = [] → available (data_streams b) = MAX_DATA_STREAMS ∧
             available (udp_sessions b) = MAX_UDP_SESSIONS ∧
             available (queued_udp_bytes b) = MAX_QUEUED_UDP_BYTES).
Proof.
  intros (H1 & H2 & H3)%budget_reachable. simpl in *. split_and!; [lia..|].
  intros ->. simpl in *. lia.
Qed.

Lemma budget_respected_witness :
  bytes_held [PStream; PUdpBytes 1000] <= MAX_QUEUED_UDP_BYTES.
Proof.
  refine (proj1 (proj2 (proj2 (budget_respected (S := N)
    {| data_streams := 511; udp_sessions := 128; queued_udp_bytes := 16776216 |}
    [PStream; PUdpBytes 1000] _)))).
  eapply rtc_l with (y := ({| data_streams := 512; udp_sessions := 128;
                              queued_udp_bytes := 16776216 |}, [PUdpBytes 1000])).
  - apply step_take. reflexivity.
  - eapply rtc_l; [|apply rtc_refl]. apply step_take. reflexivity.
Defined.

(** Whatever connections arrive and whenever their tasks end, at most 4
    unauthenticated connections of one address and 32 in all are admitted, the
    table of peers counts exactly the ones alive, and an address is forgotten
    when its last one ends. *)
Theorem admission_bounds {S} `{Semaphore S} st ips :
  rtc admission_step (admission_init, []) (st, ips) →
  len ips <= MAX_PENDING_AUTHENTICATIONS ∧
  (∀ ip, pending_of ip ips <= MAX_PENDING_AUTHENTICATIONS_PER_IP) ∧
  (∀ ip, peers st !! ip = if pending_of ip ips =? 0 then None else Some (pending_of ip ips)).
Proof. intros (Hm & Hle & Hg)%admission_reachable. simpl in *. split_and!; [lia|done|done]. Qed.

Lemma admission_bounds_witness :
  let ip := V4 {| octet0 := 10; octet1 := 0; octet2 := 0; octet3 := 1 |} in
  let st := {| peers := {[ ip := 1 ]}; global := 31 |} : admission_state N in
  len [ip] <= MAX_PENDING_AUTHENTICATIONS ∧
  (∀ x, pending_of x [ip] <= MAX_PENDING_AUTHENTICATIONS_PER_IP) ∧
  (∀ x, peers st !! x = if pending_of x [ip] =? 0 then None else Some (pending_of x [ip])).
Proof.
  intros ip st. apply (admission_bounds (S := N) st [ip]).
  eapply rtc_l; [|apply rtc_refl].
  apply (step_admit admission_init st true true ip [] Spawned). reflexivity.
Defined.
