(* ===== verification/TunnelRuntime.v ===== *)
(** * TunnelRuntime: [gaterust-tunnel/src/runtime.rs]

    The shared state of the tunnel server: group credentials, client sessions,
    tunnels and which session owns which tunnel.  Every operation takes the
    write lock for its whole body, so it is one transition of the model.

    A QUIC connection is its identity and peer address; closing it is recorded
    in [closed].  A [CancellationToken] is a number drawn from [next_token];
    [cancelled] holds the ones that were cancelled.  SHA-256 and the TOML
    printer are parameters.  The iteration order of a [HashMap] is not
    specified: the model iterates in the order of [map_to_list], and what the
    code returns from an iteration is a set or is sorted. *)

From stdpp Require Import sorting.
From S2P Require Import Prelude RustStr Net TunnelConfig Protocol.

(** ** Close codes ([close.rs]) *)

Inductive ApplicationCloseCode :=
  | ServerShutdown | AuthenticationFailed | CertificateBootstrapComplete
  | ServerConnectionError | ClientReconfigure | ClientShutdown
  | AdministratorDisconnect | CredentialCheckComplete | ClientConnectionError
  | CredentialsRevoked.

#[global] Instance ApplicationCloseCode_eq_dec : EqDecision ApplicationCloseCode.
Proof. solve_decision. Defined.

Definition close_code_value (c : ApplicationCloseCode) : N :=
  match c with
  | ServerShutdown => 2
  | AuthenticationFailed => 3
  | CertificateBootstrapComplete => 4
  | ServerConnectionError => 5
  | ClientReconfigure => 10
  | ClientShutdown => 11
  | AdministratorDisconnect => 12
  | CredentialCheckComplete => 13
  | ClientConnectionError => 14
  | CredentialsRevoked => 15
  end.

(** ** State *)

Definition MAX_ONLINE_CLIENTS : nat := 128.

Record Connection := { conn_id : N; remote_address : SocketAddr }.

Record SessionEntry := {
  connection : Connection;
  device_id : str;
  session_group : str;
  session_digest : str;
  session_remote : SocketAddr;
  connected_at : N;
  services : gmap str TunnelKind }.

Record TunnelSpec := {
  spec_group : str;
  spec_kind : TunnelKind;
  spec_bind : SocketAddr;
  spec_local_ip : option str;
  spec_local_port : option N }.

Record TunnelOwner := { owner_session : N; shutdown : N }.

Record RuntimeState := {
  rt_credentials : gmap str str;
  sessions : gmap N SessionEntry;
  tunnels : gmap str TunnelSpec;
  owners : gmap str TunnelOwner }.

Record TunnelConfigStatus := { status_revision : N; last_apply_error : option str }.
Record ConfigApplyState := { fingerprint : option str; status : TunnelConfigStatus }.

Record TunnelRuntime := {
  state : RuntimeState;
  revision : N;
  config_status : ConfigApplyState;
  next_token : N;
  cancelled : gset N;
  closed : list (N * ApplicationCloseCode * str) }.

Record RuntimeClient := {
  rc_session_id : N; rc_device_id : str; rc_group : str;
  rc_remote_address : SocketAddr; rc_connected_at : N }.
Record RuntimeTunnel := { rtun_name : str; rtun_owner : option N }.
Record TunnelRuntimeSnapshot := {
  snap_clients : list RuntimeClient;
  snap_tunnels : list RuntimeTunnel;
  snap_config_status : TunnelConfigStatus }.

Record ClientSession := { cs_connection : Connection; tunnel_shutdown : N }.

Inductive TunnelDisconnectError := SessionNotFound | TunnelNotFound | NotOwnedBySession.
Inductive RegisterError := DeviceIdConflict | Capacity | CredentialsChanged.

Record ServiceUpdate := {
  declared_services : nat;
  active_tunnels : nat;
  claimed_tunnels : nat;
  released_tunnels : nat;
  changed : bool }.

(** ** Helpers of the state *)

Definition wrapping_add1 (n : N) : N := (n + 1) mod 2 ^ 64.

Definition eligible (session : SessionEntry) (tunnel : str) (spec : TunnelSpec) : bool :=
  bool_decide (session_group session = spec_group spec)
  && bool_decide (services session !! tunnel = Some (spec_kind spec)).

Definition service_map (services : list ServiceDeclaration) : gmap str TunnelKind :=
  foldl (λ m s, <[decl_name s := decl_kind s]> m) ∅ services.

Definition with_owners (st : RuntimeState) (o : gmap str TunnelOwner) : RuntimeState :=
  {| rt_credentials := rt_credentials st; sessions := sessions st;
     tunnels := tunnels st; owners := o |}.
Definition with_sessions (st : RuntimeState) (s : gmap N SessionEntry) : RuntimeState :=
  {| rt_credentials := rt_credentials st; sessions := s;
     tunnels := tunnels st; owners := owners st |}.
Definition with_services (s : SessionEntry) (m : gmap str TunnelKind) : SessionEntry :=
  {| connection := connection s; device_id := device_id s; session_group := session_group s;
     session_digest := session_digest s; session_remote := session_remote s;
     connected_at := connected_at s; services := m |}.

(** Whether [owner] may keep the tunnel [name]. *)
Definition valid_owner (st : RuntimeState) (name : str) (owner : TunnelOwner) : bool :=
  match tunnels st !! name with
  | None => false
  | Some spec =>
      match sessions st !! owner_session owner with
      | Some session => eligible session name spec
      | None => false
      end
  end.

Definition retain_valid_owners (st : RuntimeState) : RuntimeState :=
  with_owners st (filter (λ kv, valid_owner st kv.1 kv.2 = true) (owners st)).

Definition release_session (st : RuntimeState) (session_id : N) : RuntimeState :=
  with_owners st (filter (λ kv, owner_session kv.2 ≠ session_id) (owners st)).

Definition owned_tunnels (st : RuntimeState) (session_id : N) : gset str :=
  dom (filter (λ kv : str * TunnelOwner, owner_session kv.2 = session_id) (owners st)).

(** The free tunnels a session may take. *)
Definition available_tunnels (st : RuntimeState) (session : SessionEntry) : list str :=
  map fst (filter (λ kv : str * TunnelSpec,
    owners st !! kv.1 = None ∧ eligible session kv.1 kv.2 = true) (map_to_list (tunnels st))).

(** One insertion of the claiming loop, with a new token. *)
Definition claim_one (session_id : N) (acc : gmap str TunnelOwner * N) (name : str)
  : gmap str TunnelOwner * N :=
  (<[name := {| owner_session := session_id; shutdown := acc.2 |}]> acc.1, acc.2 + 1).

Definition claim_available (st : RuntimeState) (token : N) (session_id : N) : RuntimeState * N :=
  match sessions st !! session_id with
  | None => (st, token)
  | Some session =>
      let '(o, token') := foldl (claim_one session_id) (owners st, token)
                                (available_tunnels st session) in
      (with_owners st o, token')
  end.

Definition tunnel_spec (c : ServerTunnelConfig) : TunnelSpec :=
  {| spec_group := tunnel_group c; spec_kind := tunnel_kind c; spec_bind := tunnel_bind c;
     spec_local_ip := client_local_ip c; spec_local_port := client_local_port c |}.

(** ** Operations *)

Definition TunnelRuntime_new : TunnelRuntime :=
  {| state := {| rt_credentials := ∅; sessions := ∅; tunnels := ∅; owners := ∅ |};
     revision := 0;
     config_status := {| fingerprint := None;
                         status := {| status_revision := 0; last_apply_error := None |} |};
     next_token := 0; cancelled := ∅; closed := [] |}.

(** Replace the locked state and the token counter. *)
Definition set_state (rt : TunnelRuntime) (st : RuntimeState) (token : N) : TunnelRuntime :=
  {| state := st; revision := revision rt; config_status := config_status rt;
     next_token := token; cancelled := cancelled rt; closed := closed rt |}.
Definition notify (rt : TunnelRuntime) : TunnelRuntime :=
  {| state := state rt; revision := wrapping_add1 (revision rt);
     config_status := config_status rt; next_token := next_token rt;
     cancelled := cancelled rt; closed := closed rt |}.
Definition close_connection (rt : TunnelRuntime) (c : Connection) (code : ApplicationCloseCode)
  (reason : str) : TunnelRuntime :=
  {| state := state rt; revision := revision rt; config_status := config_status rt;
     next_token := next_token rt; cancelled := cancelled rt;
     closed := closed rt ++ [(conn_id c, code, reason)] |}.
Definition cancel_token (rt : TunnelRuntime) (t : N) : TunnelRuntime :=
  {| state := state rt; revision := revision rt; config_status := config_status rt;
     next_token := next_token rt; cancelled := {[t]} ∪ cancelled rt; closed := closed rt |}.
Definition set_config_status (rt : TunnelRuntime) (s : ConfigApplyState) : TunnelRuntime :=
  {| state := state rt; revision := revision rt; config_status := s;
     next_token := next_token rt; cancelled := cancelled rt; closed := closed rt |}.

Definition by_session_id (a b : RuntimeClient) : Prop := rc_session_id a <= rc_session_id b.
#[global] Instance by_session_id_dec a b : Decision (by_session_id a b).
Proof. unfold by_session_id. apply _. Defined.

Definition snapshot (rt : TunnelRuntime) : TunnelRuntimeSnapshot :=
  let st := state rt in
  {| snap_clients :=
       merge_sort by_session_id
         (map (λ kv, {| rc_session_id := kv.1; rc_device_id := device_id kv.2;
                        rc_group := session_group kv.2; rc_remote_address := session_remote kv.2;
                        rc_connected_at := connected_at kv.2 |}) (map_to_list (sessions st)));
     snap_tunnels :=
       sort_by_key rtun_name
         (map (λ kv, {| rtun_name := kv.1; rtun_owner := owner_session <$> owners st !! kv.1 |})
              (map_to_list (tunnels st)));
     snap_config_status := status (config_status rt) |}.

Definition disconnect (rt : TunnelRuntime) (session_id : N) : bool * TunnelRuntime :=
  match sessions (state rt) !! session_id with
  | None => (false, rt)
  | Some session =>
      let st := with_sessions (state rt) (delete session_id (sessions (state rt))) in
      let rt := set_state rt (release_session st session_id) (next_token rt) in
      (true, close_connection (notify rt) (connection session) AdministratorDisconnect
               "disconnected by administrator")
  end.

Definition disconnect_tunnel (rt : TunnelRuntime) (session_id : N) (tunnel : str)
  : result TunnelDisconnectError unit * TunnelRuntime :=
  let st := state rt in
  match sessions st !! session_id with
  | None => (Err SessionNotFound, rt)
  | Some session =>
  match tunnels st !! tunnel with
  | None => (Err TunnelNotFound, rt)
  | Some _ =>
  match owners st !! tunnel with
  | None => (Err NotOwnedBySession, rt)
  | Some owner =>
      if bool_decide (owner_session owner ≠ session_id) then (Err NotOwnedBySession, rt) else
      let session := with_services session (delete tunnel (services session)) in
      let st := with_sessions st (<[session_id := session]> (sessions st)) in
      let st := with_owners st (delete tunnel (owners st)) in
      (Ok tt, notify (cancel_token (set_state rt st (next_token rt)) (shutdown owner)))
  end end end.

Definition apply_tunnels (rt : TunnelRuntime) (configs : list ServerTunnelConfig) : TunnelRuntime :=
  let st := state rt in
  let specs := foldl (λ m c, <[tunnel_name c := tunnel_spec c]> m) ∅ configs in
  let st := {| rt_credentials := rt_credentials st; sessions := sessions st;
               tunnels := specs; owners := owners st |} in
  notify (set_state rt (retain_valid_owners st) (next_token rt)).

Definition revoked_session (credentials : gmap str str) (s : SessionEntry) : bool :=
  bool_decide (credentials !! session_group s ≠ Some (session_digest s)).

(** One removal of the revocation loop. *)
Definition revoke_one (acc : RuntimeState * list Connection) (id : N)
  : RuntimeState * list Connection :=
  match sessions acc.1 !! id with
  | Some session =>
      (release_session (with_sessions acc.1 (delete id (sessions acc.1))) id,
       acc.2 ++ [connection session])
  | None => acc
  end.

Section with_digest.
Context (sha256 : str → str) (toml_string : ServerConfig → result str str).

Definition credential_digest (secret : str) : str := sha256 secret.

Definition config_fingerprint (config : ServerConfig) : Result str :=
  s ← map_err ConfigFingerprint (toml_string config);
  Ok (sha256 s).

Definition digest_map (credentials : list (str * GroupSecret)) : gmap str str :=
  foldl (λ m c, <[c.1 := credential_digest c.2]> m) ∅ credentials.

Definition apply_credentials (rt : TunnelRuntime) (credentials : list (str * GroupSecret))
  : TunnelRuntime :=
  let st := state rt in
  let creds := digest_map credentials in
  let st := {| rt_credentials := creds; sessions := sessions st;
               tunnels := tunnels st; owners := owners st |} in
  let revoked := map fst (filter (λ kv : N * SessionEntry, revoked_session creds kv.2 = true)
                                 (map_to_list (sessions st))) in
  let '(st, connections) := foldl revoke_one (st, []) revoked in
  let rt := set_state rt st (next_token rt) in
  match connections with
  | [] => rt
  | _ => foldl (λ rt c, close_connection rt c CredentialsRevoked "credentials revoked")
               (notify rt) connections
  end.

Definition publish_config_status (rt : TunnelRuntime) (fp : option str) (error : option str)
  : TunnelRuntime :=
  set_config_status rt
    {| fingerprint := fp;
       status := {| status_revision := wrapping_add1 (status_revision (status (config_status rt)));
                    last_apply_error := error |} |}.

Definition report_config_applied (rt : TunnelRuntime) (config : ServerConfig) : Result TunnelRuntime :=
  fp ← config_fingerprint config;
  Ok (publish_config_status rt (Some fp) None).

Definition report_config_failed (rt : TunnelRuntime) (config : ServerConfig) (error : str)
  : Result TunnelRuntime :=
  fp ← config_fingerprint config;
  Ok (publish_config_status rt (Some fp) (Some error)).

Definition report_config_load_error (rt : TunnelRuntime) (error : str) : TunnelRuntime :=
  publish_config_status rt None (Some error).

(** [observed] are the states the watcher sees, in order, before the deadline
    or the end of the channel. *)
Definition wait_for_config (config : ServerConfig) (after_revision : N)
  (observed : list ConfigApplyState) : Result (option TunnelConfigStatus) :=
  fp ← config_fingerprint config;
  Ok (status <$> list_find (λ s, status_revision (status s) ≠ after_revision ∧
                                 fingerprint s = Some fp) observed ≫= λ p, Some p.2).
End with_digest.

Definition config_revision (rt : TunnelRuntime) : N := status_revision (status (config_status rt)).

Definition register (rt : TunnelRuntime) (id : N) (dev group digest : str)
  (conn : Connection) (decls : list ServiceDeclaration) (now : N)
  : result RegisterError unit * TunnelRuntime :=
  let st := state rt in
  if (MAX_ONLINE_CLIENTS <=? size (sessions st))%nat then (Err Capacity, rt) else
  if bool_decide (rt_credentials st !! group ≠ Some digest) then (Err CredentialsChanged, rt) else
  if existsb (λ kv, bool_decide (device_id kv.2 = dev)) (map_to_list (sessions st))
  then (Err DeviceIdConflict, rt) else
  let entry := {| connection := conn; device_id := dev; session_group := group;
                  session_digest := digest; session_remote := remote_address conn;
                  connected_at := now; services := service_map decls |} in
  let st := with_sessions st (<[id := entry]> (sessions st)) in
  let '(st, token) := claim_available st (next_token rt) id in
  (Ok tt, notify (set_state rt st token)).

Definition update_services (rt : TunnelRuntime) (id : N) (decls : list ServiceDeclaration)
  : option ServiceUpdate * TunnelRuntime :=
  let st := state rt in
  match sessions st !! id with
  | None => (None, rt)
  | Some session =>
      let previously_owned := owned_tunnels st id in
      let new := service_map decls in
      let declarations_changed := bool_decide (services session ≠ new) in
      let st := with_sessions st (<[id := with_services session new]> (sessions st)) in
      let st := retain_valid_owners st in
      let '(st, token) := claim_available st (next_token rt) id in
      let currently_owned := owned_tunnels st id in
      let claimed := size (currently_owned ∖ previously_owned) in
      let released := size (previously_owned ∖ currently_owned) in
      let changed := declarations_changed || negb (claimed =? 0)%nat || negb (released =? 0)%nat in
      let rt := set_state rt st token in
      (Some {| declared_services := size new; active_tunnels := size currently_owned;
               claimed_tunnels := claimed; released_tunnels := released; changed := changed |},
       if changed then notify rt else rt)
  end.

Definition unregister (rt : TunnelRuntime) (id : N) : TunnelRuntime :=
  match sessions (state rt) !! id with
  | None => rt
  | Some _ =>
      let st := with_sessions (state rt) (delete id (sessions (state rt))) in
      notify (set_state rt (release_session st id) (next_token rt))
  end.

Definition find (rt : TunnelRuntime) (tunnel : str) : option ClientSession :=
  owner ← owners (state rt) !! tunnel;
  session ← sessions (state rt) !! owner_session owner;
  Some {| cs_connection := connection session; tunnel_shutdown := shutdown owner |}.

Definition tunnel_state_for (st : RuntimeState) (session_id : N) (name : str) : ClientTunnelState :=
  match owners st !! name with
  | None => Idle
  | Some owner => if bool_decide (owner_session owner = session_id) then Enabled else Occupied
  end.

Definition client_tunnel (st : RuntimeState) (session_id : N) (kv : str * TunnelSpec) : ClientTunnel :=
  {| ct_name := kv.1; ct_kind := spec_kind kv.2; ct_server_port := sock_port (spec_bind kv.2);
     ct_local_ip := spec_local_ip kv.2; ct_local_port := spec_local_port kv.2;
     ct_state := tunnel_state_for st session_id kv.1 |}.

Definition catalog (rt : TunnelRuntime) (session_id : N) : list ClientTunnel :=
  let st := state rt in
  match sessions st !! session_id with
  | None => []
  | Some session =>
      sort_by_key ct_name
        (map (client_tunnel st session_id)
          (filter (λ kv : str * TunnelSpec, spec_group kv.2 = session_group session)
                  (map_to_list (tunnels st))))
  end.

(** ** The invariant *)

Definition owners_ok (st : RuntimeState) : Prop :=
  ∀ n o, owners st !! n = Some o → valid_owner st n o = true.

Record sessions_ok (st : RuntimeState) : Prop := {
  sess_cred : ∀ i s, sessions st !! i = Some s →
    rt_credentials st !! session_group s = Some (session_digest s);
  sess_dev : ∀ i j s t, sessions st !! i = Some s → sessions st !! j = Some t →
    device_id s = device_id t → i = j;
  sess_count : (size (sessions st) ≤ MAX_ONLINE_CLIENTS)%nat }.

Record tokens_ok (o : gmap str TunnelOwner) (next : N) (cancelled : gset N) : Prop := {
  tok_fresh : ∀ n x, o !! n = Some x → shutdown x < next ∧ shutdown x ∉ cancelled;
  tok_inj : ∀ n m x y, o !! n = Some x → o !! m = Some y → shutdown x = shutdown y → n = m;
  tok_old : ∀ t, t ∈ cancelled → t < next }.

Definition runtime_inv (rt : TunnelRuntime) : Prop :=
  owners_ok (state rt) ∧ sessions_ok (state rt) ∧
  tokens_ok (owners (state rt)) (next_token rt) (cancelled rt).

(** The session [id] owns the tunnel [n]. *)
Definition owned_by (rt : TunnelRuntime) (id : N) (n : str) : Prop :=
  ∃ o, owners (state rt) !! n = Some o ∧ owner_session o = id.

(** The transitions of the runtime: any of its operations, with any argument.
    The session identifiers come from a counter, so a registration has one no
    session uses. *)
Section step.
Context (sha256 : str → str) (toml_string : ServerConfig → result str str).

Inductive runtime_step : TunnelRuntime → TunnelRuntime → Prop :=
  | rs_register rt id dev group digest conn decls now r rt' :
      sessions (state rt) !! id = None →
      register rt id dev group digest conn decls now = (r, rt') → runtime_step rt rt'
  | rs_update rt id decls u rt' : update_services rt id decls = (u, rt') → runtime_step rt rt'
  | rs_unregister rt id : runtime_step rt (unregister rt id)
  | rs_disconnect rt id b rt' : disconnect rt id = (b, rt') → runtime_step rt rt'
  | rs_disconnect_tunnel rt id t r rt' :
      disconnect_tunnel rt id t = (r, rt') → runtime_step rt rt'
  | rs_apply_tunnels rt configs : runtime_step rt (apply_tunnels rt configs)
  | rs_apply_credentials rt creds : runtime_step rt (apply_credentials sha256 rt creds)
  | rs_applied rt c rt' : report_config_applied sha256 toml_string rt c = Ok rt' → runtime_step rt rt'
  | rs_failed rt c e rt' : report_config_failed sha256 toml_string rt c e = Ok rt' → runtime_step rt rt'
  | rs_load_error rt e : runtime_step rt (report_config_load_error rt e).
End step.

(** ** Helper lemmas *)

Lemma eligible_true s n spec :
  eligible s n spec = true ↔
  session_group s = spec_group spec ∧ services s !! n = Some (spec_kind spec).
Proof. unfold eligible. bsimpl. done. Qed.

Lemma valid_owner_true st n o :
  valid_owner st n o = true ↔
  ∃ spec s, tunnels st !! n = Some spec ∧ sessions st !! owner_session o = Some s ∧
            eligible s n spec = true.
Proof.
  unfold valid_owner. destruct (tunnels st !! n) as [spec|]; [|naive_solver].
  destruct (sessions st !! owner_session o); naive_solver.
Qed.

Lemma retain_lookup st n o :
  owners (retain_valid_owners st) !! n = Some o ↔
  owners st !! n = Some o ∧ valid_owner st n o = true.
Proof. simpl. by rewrite map_lookup_filter_Some. Qed.

Lemma release_lookup st id n o :
  owners (release_session st id) !! n = Some o ↔
  owners st !! n = Some o ∧ owner_session o ≠ id.
Proof. simpl. by rewrite map_lookup_filter_Some. Qed.

Lemma retain_ok st : owners_ok (retain_valid_owners st).
Proof. intros n o H. by apply retain_lookup in H as [_ H]. Qed.

Lemma tokens_ok_sub o o' next c :
  (∀ n x, o' !! n = Some x → o !! n = Some x) → tokens_ok o next c → tokens_ok o' next c.
Proof. intros Hs [H1 H2 H3]. constructor; eauto. Qed.

Lemma available_spec st s n :
  n ∈ available_tunnels st s ↔
  owners st !! n = None ∧ ∃ spec, tunnels st !! n = Some spec ∧ eligible s n spec = true.
Proof.
  unfold available_tunnels. rewrite list_elem_of_In, in_map_iff. setoid_rewrite <- list_elem_of_In.
  split.
  - intros ([m spec] & <- & Hin). apply list_elem_of_filter in Hin as [[Ho He] Hin].
    apply elem_of_map_to_list in Hin. simpl in *. eauto.
  - intros (Ho & spec & Ht & He). exists (n, spec). split; [done|].
    apply list_elem_of_filter. split; [done|]. by apply elem_of_map_to_list.
Qed.

Lemma claim_one_pair id o t m :
  claim_one id (o, t) m = (<[m := {| owner_session := id; shutdown := t |}]> o, t + 1).
Proof. done. Qed.

Lemma claim_fold id names : ∀ o t o' t',
  foldl (claim_one id) (o, t) names = (o', t') →
  (∀ n, n ∉ names → o' !! n = o !! n) ∧
  (∀ n, n ∈ names → ∃ x, o' !! n = Some x ∧ owner_session x = id) ∧ t <= t'.
Proof.
  induction names as [|m names IH]; intros o t o' t'; cbn [foldl].
  { intros [= <- <-]. split_and!; [done|set_solver|lia]. }
  rewrite claim_one_pair. intros H. apply IH in H as (H1 & H2 & H3). split_and!.
  - intros n Hn. rewrite H1 by set_solver. rewrite lookup_insert_ne; [done|]. set_solver.
  - intros n Hn. destruct (decide (n ∈ names)) as [|Hnin]; [eauto|].
    assert (n = m) as -> by set_solver. rewrite H1, lookup_insert_eq by done. eauto.
  - lia.
Qed.

Lemma claim_fold_tokens id names c : ∀ o t o' t',
  tokens_ok o t c → foldl (claim_one id) (o, t) names = (o', t') → tokens_ok o' t' c.
Proof.
  induction names as [|m names IH]; intros o t o' t' Hok; cbn [foldl]; [by intros [= <- <-]|].
  rewrite claim_one_pair. apply IH. destruct Hok as [Hf Hi Ho]. constructor.
  - intros n x Hx. destruct (decide (m = n)) as [<-|Hne].
    + rewrite lookup_insert_eq in Hx. simplify_eq/=. split; [lia|].
      intros Hin. apply Ho in Hin. lia.
    + rewrite lookup_insert_ne in Hx by done. destruct (Hf _ _ Hx). split; [lia|done].
  - intros n k x y Hx Hy Heq.
    destruct (decide (m = n)) as [<-|Hn], (decide (m = k)) as [<-|Hk]; [done|..].
    + rewrite lookup_insert_eq in Hx. rewrite lookup_insert_ne in Hy by done. simplify_eq/=.
      apply Hf in Hy as [? _]. lia.
    + rewrite lookup_insert_eq in Hy. rewrite lookup_insert_ne in Hx by done. simplify_eq/=.
      apply Hf in Hx as [? _]. lia.
    + rewrite lookup_insert_ne in Hx, Hy by done. eauto.
  - intros u Hu. apply Ho in Hu. lia.
Qed.

(** What claiming does: the free eligible tunnels, and nothing else. *)
Lemma claim_available_spec st t id st' t' :
  claim_available st t id = (st', t') →
  rt_credentials st' = rt_credentials st ∧ sessions st' = sessions st ∧ tunnels st' = tunnels st ∧
  t <= t' ∧
  (∀ n o, owners st !! n = Some o → owners st' !! n = Some o) ∧
  (∀ n, owners st !! n = None →
     match sessions st !! id, tunnels st !! n with
     | Some s, Some spec =>
         if eligible s n spec then ∃ x, owners st' !! n = Some x ∧ owner_session x = id
         else owners st' !! n = None
     | _, _ => owners st' !! n = None
     end).
Proof.
  unfold claim_available. destruct (sessions st !! id) as [s|] eqn:Es.
  2: { intros [= <- <-]. split_and!; try done. }
  destruct (foldl _ _ _) as [o' t1] eqn:Ef. intros [= <- <-]. simpl.
  apply claim_fold in Ef as (H1 & H2 & H3). split_and!; try done.
  - intros n o Ho. rewrite H1; [done|]. rewrite available_spec. intros [Hc _]. by rewrite Ho in Hc.
  - intros n Hn. destruct (tunnels st !! n) as [spec|] eqn:Et.
    + destruct (eligible s n spec) eqn:Ee.
      * apply H2, available_spec. eauto.
      * rewrite H1; [done|]. rewrite available_spec. intros (_ & spec' & ? & ?). congruence.
    + rewrite H1; [done|]. rewrite available_spec. intros (_ & spec' & ? & ?). congruence.
Qed.

Lemma claim_available_ok st t id st' t' c :
  owners_ok st → tokens_ok (owners st) t c → claim_available st t id = (st', t') →
  owners_ok st' ∧ tokens_ok (owners st') t' c.
Proof.
  intros Hok Htok H. split.
  - apply claim_available_spec in H as (_ & Hs & Ht & _ & H1 & H2). intros n o Ho.
    rewrite valid_owner_true, Hs, Ht.
    destruct (owners st !! n) as [o1|] eqn:E1.
    + rewrite (H1 _ _ E1) in Ho. simplify_eq. by apply valid_owner_true, Hok.
    + specialize (H2 n E1). destruct (sessions st !! id) as [s|] eqn:Es; [|by rewrite H2 in Ho].
      destruct (tunnels st !! n) as [spec|] eqn:Et; [|by rewrite H2 in Ho].
      destruct (eligible s n spec) eqn:Ee; [|by rewrite H2 in Ho].
      destruct H2 as (x & Hx & <-). simplify_eq. eauto.
  - unfold claim_available in H. destruct (sessions st !! id); [|by simplify_eq].
    destruct (foldl _ _ _) as [o' t1] eqn:Ef. simplify_eq. simpl.
    eapply claim_fold_tokens; eauto.
Qed.

Lemma revoke_fold ids : ∀ st cs st' cs',
  foldl revoke_one (st, cs) ids = (st', cs') → NoDup ids →
  (∀ i, i ∈ ids → is_Some (sessions st !! i)) →
  rt_credentials st' = rt_credentials st ∧ tunnels st' = tunnels st ∧
  (∀ i, sessions st' !! i = if decide (i ∈ ids) then None else sessions st !! i) ∧
  (∀ n o, owners st' !! n = Some o ↔ owners st !! n = Some o ∧ owner_session o ∉ ids) ∧
  ∃ l, cs' = cs ++ l ∧
       Forall2 (λ i c, ∃ s, sessions st !! i = Some s ∧ connection s = c) ids l.
Proof.
  induction ids as [|i ids IH]; intros st cs st' cs'; cbn [foldl].
  { intros [= <- <-] _ _. split_and!; try done.
    - intros n o. split; [|by intros [? _]]. intros ?. split; [done|]. apply not_elem_of_nil.
    - exists []. by rewrite app_nil_r. }
  intros H Hnd Hin. inversion Hnd as [|?? Hi Hnd']; subst.
  destruct (Hin i ltac:(left)) as [s Hs].
  unfold revoke_one in H at 2. simpl in H. rewrite Hs in H. apply IH in H; [|done|].
  2: { intros j Hj. simpl. rewrite lookup_delete_ne by (intros ->; done). apply Hin. by right. }
  destruct H as (-> & -> & H3 & H4 & l & -> & H5). simpl. split_and!; try done.
  - intros j. rewrite H3. simpl. destruct (decide (j = i)) as [->|Hne].
    + rewrite lookup_delete_eq. rewrite (decide_True (P := i ∈ i :: ids)) by left.
      by destruct (decide _).
    + rewrite lookup_delete_ne by done.
      destruct (decide (j ∈ ids)), (decide (j ∈ i :: ids)); set_solver.
  - intros n o. rewrite H4. rewrite release_lookup. simpl. set_solver.
  - exists (connection s :: l). split; [by rewrite <- (assoc_L (++))|]. constructor; [eauto|].
    eapply Forall2_impl; [exact H5|]. simpl.
    intros j c (s' & Hj & Hc). apply lookup_delete_Some in Hj as [_ Hj]. eauto.
Qed.

Lemma revoked_ids creds (m : gmap N SessionEntry) i :
  i ∈ map fst (filter (λ kv : N * SessionEntry, revoked_session creds kv.2 = true) (map_to_list m))
  ↔ ∃ s, m !! i = Some s ∧ revoked_session creds s = true.
Proof.
  rewrite list_elem_of_In, in_map_iff. setoid_rewrite <- list_elem_of_In.
  setoid_rewrite list_elem_of_filter. split.
  - intros ([j s] & <- & Hr & Hin). apply elem_of_map_to_list in Hin. eauto.
  - intros (s & Hs & Hr). exists (i, s). split_and!; try done. by apply elem_of_map_to_list.
Qed.

Lemma NoDup_map_fst_filter {A} (P : N * A → Prop) `{∀ x, Decision (P x)} (m : gmap N A) :
  NoDup (map fst (filter P (map_to_list m))).
Proof.
  change (NoDup ((filter P (map_to_list m)).*1)).
  apply NoDup_fmap_2_strong; [|apply NoDup_filter, NoDup_map_to_list].
  intros [i x] [j y] Hx Hy Heq. simpl in Heq. subst j.
  apply list_elem_of_filter in Hx as [_ Hx]. apply list_elem_of_filter in Hy as [_ Hy].
  apply elem_of_map_to_list in Hx. apply elem_of_map_to_list in Hy. congruence.
Qed.

(** The effect of new credentials. *)
Record credentials_applied (m : gmap str str) (rt rt' : TunnelRuntime) (l : list Connection) : Prop := {
  ca_creds : rt_credentials (state rt') = m;
  ca_tunnels : tunnels (state rt') = tunnels (state rt);
  ca_token : next_token rt' = next_token rt;
  ca_cancelled : cancelled rt' = cancelled rt;
  ca_sessions : ∀ i s, sessions (state rt') !! i = Some s ↔
    sessions (state rt) !! i = Some s ∧ revoked_session m s = false;
  ca_owners : ∀ n o, owners (state rt') !! n = Some o ↔
    owners (state rt) !! n = Some o ∧
    ¬ ∃ s, sessions (state rt) !! owner_session o = Some s ∧ revoked_session m s = true;
  ca_closed : closed rt' = closed rt ++
    map (λ c, (conn_id c, CredentialsRevoked, lit "credentials revoked")) l;
  ca_list : ∀ c, c ∈ l ↔
    ∃ i s, sessions (state rt) !! i = Some s ∧ revoked_session m s = true ∧ connection s = c;
  ca_revision : revision rt' = if decide (l = []) then revision rt else wrapping_add1 (revision rt) }.

Lemma close_all_fold l code reason : ∀ rt,
  foldl (λ rt c, close_connection rt c code reason) rt l =
  {| state := state rt; revision := revision rt; config_status := config_status rt;
     next_token := next_token rt; cancelled := cancelled rt;
     closed := closed rt ++ map (λ c, (conn_id c, code, reason)) l |}.
Proof.
  induction l as [|c l IH]; intros rt; cbn [foldl map].
  - rewrite app_nil_r. by destruct rt.
  - rewrite IH. simpl. by rewrite <- (assoc_L (++)).
Qed.

Lemma Forall2_elem_r {A B} (R : A → B → Prop) l k y :
  Forall2 R l k → y ∈ k → ∃ x, x ∈ l ∧ R x y.
Proof. intros HF Hy. induction HF; set_solver. Qed.
Lemma Forall2_elem_l {A B} (R : A → B → Prop) l k x :
  Forall2 R l k → x ∈ l → ∃ y, y ∈ k ∧ R x y.
Proof. intros HF Hy. induction HF; set_solver. Qed.

Lemma apply_credentials_spec sha256 rt creds :
  ∃ l, credentials_applied (digest_map sha256 creds) rt (apply_credentials sha256 rt creds) l.
Proof.
  unfold apply_credentials. set (m := digest_map sha256 creds).
  set (st0 := Build_RuntimeState _ _ _ _). set (ids := map fst _).
  destruct (foldl revoke_one (st0, []) ids) as [st' l] eqn:Ef.
  assert (Hids : ∀ i, i ∈ ids ↔ ∃ s, sessions (state rt) !! i = Some s ∧ revoked_session m s = true)
    by apply revoked_ids.
  apply revoke_fold in Ef; [|apply NoDup_map_fst_filter|].
  2: { intros i Hi. apply Hids in Hi as (s & Hs & _). by exists s. }
  simpl in Ef. destruct Ef as (H1 & H2 & H3 & H4 & l' & -> & H5). simpl. exists l'.
  assert (Hs : ∀ i s, sessions st' !! i = Some s ↔
    sessions (state rt) !! i = Some s ∧ revoked_session m s = false).
  { intros i s. rewrite H3. destruct (decide (i ∈ ids)) as [Hi|Hi].
    - apply Hids in Hi as (s' & Hs' & Hr). split; [done|]. intros [? ?]. congruence.
    - split; [|by intros [? _]]. intros Hs. split; [done|].
      destruct (revoked_session m s) eqn:E; [|done]. destruct Hi. apply Hids. eauto. }
  assert (Ho : ∀ n o, owners st' !! n = Some o ↔ owners (state rt) !! n = Some o ∧
    ¬ ∃ s, sessions (state rt) !! owner_session o = Some s ∧ revoked_session m s = true).
  { intros n o. rewrite H4. by rewrite Hids. }
  assert (Hl : ∀ c, c ∈ l' ↔
    ∃ i s, sessions (state rt) !! i = Some s ∧ revoked_session m s = true ∧ connection s = c).
  { intros c. split.
    - intros Hc. destruct (Forall2_elem_r _ _ _ c H5 Hc) as (i & Hi & s & Hs' & <-).
      apply Hids in Hi as (s' & Hs'' & Hr). simplify_eq. eauto.
    - intros (i & s & Hs' & Hr & <-).
      assert (Hi : i ∈ ids) by (apply Hids; eauto).
      destruct (Forall2_elem_l _ _ _ i H5 Hi) as (c & Hc & s' & Hs'' & <-).
      by simplify_eq. }
  destruct l' as [|c l']; [constructor; simpl; try done; by rewrite app_nil_r|].
  rewrite close_all_fold. constructor; simpl; done.
Qed.

(** ** Preservation *)

Lemma owners_ok_release st id :
  owners_ok st →
  owners_ok (release_session (with_sessions st (delete id (sessions st))) id).
Proof.
  intros Hok n o Ho. apply release_lookup in Ho as [Ho Hne]. simpl in Ho.
  apply Hok, valid_owner_true in Ho as (spec & s & ? & ? & ?).
  apply valid_owner_true. exists spec, s. simpl. by rewrite lookup_delete_ne.
Qed.

(** The session invariant only looks at the credentials and the sessions. *)
Lemma sessions_ok_ext st st' :
  rt_credentials st' = rt_credentials st → sessions st' = sessions st →
  sessions_ok st → sessions_ok st'.
Proof. intros Hc Hs [H1 H2 H3]. constructor; rewrite ?Hc, Hs; done. Qed.

Lemma sessions_ok_delete st id :
  sessions_ok st → sessions_ok (with_sessions st (delete id (sessions st))).
Proof.
  intros [H1 H2 H3]. constructor; simpl.
  - intros i s Hs. apply lookup_delete_Some in Hs as [_ Hs]. eauto.
  - intros i j s t Hs Ht. apply lookup_delete_Some in Hs as [_ Hs].
    apply lookup_delete_Some in Ht as [_ Ht]. eauto.
  - etransitivity; [apply map_subseteq_size, delete_subseteq|done].
Qed.

(** The locked state after a session left. *)
Lemma inv_remove rt id :
  runtime_inv rt →
  let st := release_session (with_sessions (state rt) (delete id (sessions (state rt)))) id in
  owners_ok st ∧ sessions_ok st ∧ tokens_ok (owners st) (next_token rt) (cancelled rt).
Proof.
  intros (Ho & Hs & Ht). split_and!.
  - by apply owners_ok_release.
  - eapply sessions_ok_ext; [| |apply (sessions_ok_delete (state rt) id Hs)]; done.
  - eapply tokens_ok_sub; [|exact Ht]. intros n x Hx. by apply release_lookup in Hx as [? _].
Qed.

Lemma unregister_inv rt id : runtime_inv rt → runtime_inv (unregister rt id).
Proof. intros Hi. unfold unregister. destruct (_ !! id); [|done]. by apply (inv_remove rt id). Qed.

Lemma disconnect_inv rt id b rt' : runtime_inv rt → disconnect rt id = (b, rt') → runtime_inv rt'.
Proof.
  intros Hi. unfold disconnect. destruct (_ !! id); intros [= <- <-]; [|done].
  by apply (inv_remove rt id).
Qed.

Lemma sessions_ok_services st id s m :
  sessions st !! id = Some s → sessions_ok st →
  sessions_ok (with_sessions st (<[id := with_services s m]> (sessions st))).
Proof.
  intros Hid [H1 H2 H3].
  assert (Hs : ∀ i t, <[id := with_services s m]> (sessions st) !! i = Some t →
    ∃ t0, sessions st !! i = Some t0 ∧ session_group t0 = session_group t ∧
          session_digest t0 = session_digest t ∧ device_id t0 = device_id t).
  { intros i t Ht. destruct (decide (id = i)) as [<-|Hne].
    - rewrite lookup_insert_eq in Ht. simplify_eq. eauto.
    - rewrite lookup_insert_ne in Ht by done. eauto. }
  constructor; simpl.
  - intros i t Ht. apply Hs in Ht as (t0 & Ht & <- & <- & _). eauto.
  - intros i j t u Ht Hu. apply Hs in Ht as (t0 & Ht & _ & _ & <-).
    apply Hs in Hu as (u0 & Hu & _ & _ & <-). eauto.
  - rewrite map_size_insert_Some; eauto.
Qed.

Lemma disconnect_tunnel_inv rt id t r rt' :
  runtime_inv rt → disconnect_tunnel rt id t = (r, rt') → runtime_inv rt'.
Proof.
  intros (Ho & Hs & Ht). unfold disconnect_tunnel.
  destruct (sessions (state rt) !! id) as [s|] eqn:Es; [|by intros [= <- <-]].
  destruct (tunnels (state rt) !! t); [|by intros [= <- <-]].
  destruct (owners (state rt) !! t) as [o|] eqn:Eo; [|by intros [= <- <-]].
  case_bool_decide as Hid; intros [= <- <-]; [done|]. split_and!; simpl.
  - intros n x Hx. simpl in Hx. apply lookup_delete_Some in Hx as [Hne Hx].
    apply Ho, valid_owner_true in Hx as (spec & s' & H1 & H2 & H3). apply valid_owner_true. simpl.
    destruct (decide (id = owner_session x)) as [->|Hd].
    + rewrite lookup_insert_eq. simplify_eq. exists spec; eexists; split_and!; [done..|].
      apply eligible_true in H3 as [??]. apply eligible_true. simpl.
      by rewrite lookup_delete_ne.
    + rewrite lookup_insert_ne by done. eauto.
  - eapply sessions_ok_ext; [| |apply (sessions_ok_services (state rt) id s (delete t (services s)) Es Hs)]; done.
  - destruct Ht as [H1 H2 H3]. constructor.
    + intros n x Hx. apply lookup_delete_Some in Hx as [Hne Hx]. destruct (H1 _ _ Hx).
      split; [done|]. rewrite elem_of_union, elem_of_singleton. intros [Heq|?]; [|done].
      apply Hne. eapply H2; eauto.
    + intros n k x y Hx Hy. apply lookup_delete_Some in Hx as [_ Hx].
      apply lookup_delete_Some in Hy as [_ Hy]. eauto.
    + intros u. rewrite elem_of_union, elem_of_singleton. intros [->|?]; [|auto].
      by destruct (H1 _ _ Eo).
Qed.

Lemma apply_tunnels_inv rt configs : runtime_inv rt → runtime_inv (apply_tunnels rt configs).
Proof.
  intros (Ho & [H1 H2 H3] & Ht). split_and!; [apply retain_ok|by constructor|].
  eapply tokens_ok_sub; [|exact Ht]. intros n x Hx. by apply retain_lookup in Hx as [? _].
Qed.

Lemma revoked_false m s : revoked_session m s = false ↔ m !! session_group s = Some (session_digest s).
Proof. unfold revoked_session. rewrite bool_decide_eq_false. split; [apply dec_stable|auto]. Qed.

Lemma apply_credentials_inv sha256 rt creds :
  runtime_inv rt → runtime_inv (apply_credentials sha256 rt creds).
Proof.
  intros (Ho & [H1 H2 H3] & Ht).
  destruct (apply_credentials_spec sha256 rt creds) as [l [C1 C2 C3 C4 C5 C6 _ _ _]].
  split_and!.
  - intros n o Hn. apply C6 in Hn as [Hn Hk].
    apply Ho, valid_owner_true in Hn as (spec & s & ? & Hs & ?). apply valid_owner_true.
    exists spec, s. rewrite C2, C5. split_and!; try done.
    destruct (revoked_session _ s) eqn:E; [|done]. destruct Hk. eauto.
  - constructor.
    + intros i s Hs. apply C5 in Hs as [Hs Hr]. rewrite C1. by apply revoked_false.
    + intros i j s t Hs Hu. apply C5 in Hs as [Hs _]. apply C5 in Hu as [Hu _]. eauto.
    + etransitivity; [|exact H3]. apply map_subseteq_size, map_subseteq_spec.
      intros i s Hs. by apply C5 in Hs as [? _].
  - rewrite C3, C4. eapply tokens_ok_sub; [|exact Ht]. intros n x Hx. by apply C6 in Hx as [? _].
Qed.

Lemma owners_ok_new_session st id entry :
  sessions st !! id = None → owners_ok st →
  owners_ok (with_sessions st (<[id := entry]> (sessions st))).
Proof.
  intros Hid Hok n o Ho. simpl in Ho. apply Hok, valid_owner_true in Ho as (spec & s & ? & Hs & ?).
  apply valid_owner_true. simpl. exists spec, s. rewrite lookup_insert_ne; [done|].
  intros ->. congruence.
Qed.

Lemma no_device (m : gmap N SessionEntry) dev :
  existsb (λ kv, bool_decide (device_id kv.2 = dev)) (map_to_list m) = false →
  ∀ i s, m !! i = Some s → device_id s ≠ dev.
Proof.
  intros He i s Hs Hd. apply not_true_iff_false in He. apply He. apply existsb_exists.
  exists (i, s). split; [|by apply bool_decide_eq_true].
  apply list_elem_of_In. by apply elem_of_map_to_list.
Qed.

Lemma register_inv rt id dev group digest conn decls now r rt' :
  runtime_inv rt → sessions (state rt) !! id = None →
  register rt id dev group digest conn decls now = (r, rt') → runtime_inv rt'.
Proof.
  intros (Ho & [H1 H2 H3] & Ht) Hid. unfold register.
  destruct (_ <=? _)%nat eqn:Ec; [by intros [= <- <-]|].
  case_bool_decide as Hcr; [by intros [= <- <-]|].
  destruct (existsb _ _) eqn:Ed; [by intros [= <- <-]|]. pose proof (no_device _ _ Ed) as Hnd.
  set (entry := Build_SessionEntry _ _ _ _ _ _ _).
  destruct (claim_available _ _ id) as [st' t'] eqn:Ecl. intros [= <- <-].
  assert (Hs' : sessions_ok (with_sessions (state rt) (<[id := entry]> (sessions (state rt))))).
  { constructor; simpl.
    - intros i s Hs. destruct (decide (id = i)) as [<-|]; [|rewrite lookup_insert_ne in Hs by done; eauto].
      rewrite lookup_insert_eq in Hs. by simplify_eq/=.
    - intros i j s t Hs Hu Hd.
      destruct (decide (id = i)) as [<-|], (decide (id = j)) as [<-|]; [done|..];
        rewrite ?lookup_insert_eq, ?lookup_insert_ne in Hs by done;
        rewrite ?lookup_insert_eq, ?lookup_insert_ne in Hu by done; simplify_eq/=.
      + by destruct (Hnd _ _ Hu).
      + by destruct (Hnd _ _ Hs).
      + eauto.
    - rewrite map_size_insert_None by done. bsimpl. lia. }
  pose proof (claim_available_spec _ _ _ _ _ Ecl) as (Hc' & Hs'' & _).
  eapply claim_available_ok in Ecl as [Ho' Ht']; [|by apply owners_ok_new_session|exact Ht].
  split_and!; [done| |done]. by eapply sessions_ok_ext.
Qed.

Lemma update_services_inv rt id decls u rt' :
  runtime_inv rt → update_services rt id decls = (u, rt') → runtime_inv rt'.
Proof.
  intros (Ho & Hs & Ht). unfold update_services.
  destruct (sessions (state rt) !! id) as [s|] eqn:Es; [|by intros [= <- <-]].
  set (st1 := with_sessions _ _). destruct (claim_available _ _ id) as [st' t'] eqn:Ecl.
  intros [= <- <-].
  pose proof (claim_available_spec _ _ _ _ _ Ecl) as (Hc' & Hs' & _).
  eapply (claim_available_ok _ _ _ _ _ (cancelled rt)) in Ecl as [Ho' Ht'].
  2: apply retain_ok.
  2: { eapply tokens_ok_sub; [|exact Ht]. intros n x Hx. by apply retain_lookup in Hx as [? _]. }
  assert (Hs1 : sessions_ok st')
    by (eapply sessions_ok_ext; [exact Hc'|exact Hs'|];
        eapply sessions_ok_ext; [| |apply (sessions_ok_services (state rt) id s (service_map decls) Es Hs)]; done).
  by destruct (_ || _).
Qed.

Section reachability.
Context (sha256 : str → str) (toml_string : ServerConfig → result str str).

Lemma report_state rt fp e : state (publish_config_status rt fp e) = state rt ∧
  next_token (publish_config_status rt fp e) = next_token rt ∧
  cancelled (publish_config_status rt fp e) = cancelled rt ∧
  revision (publish_config_status rt fp e) = revision rt.
Proof. done. Qed.

Lemma runtime_step_inv rt rt' :
  runtime_inv rt → runtime_step sha256 toml_string rt rt' → runtime_inv rt'.
Proof.
  intros Hi Hs. destruct Hs.
  - by eapply register_inv.
  - by eapply update_services_inv.
  - by apply unregister_inv.
  - by eapply disconnect_inv.
  - by eapply disconnect_tunnel_inv.
  - by apply apply_tunnels_inv.
  - by apply apply_credentials_inv.
  - unfold report_config_applied in H. apply bind_ok in H as (fp & _ & [= <-]). done.
  - unfold report_config_failed in H. apply bind_ok in H as (fp & _ & [= <-]). done.
  - done.
Qed.

Lemma runtime_inv_new : runtime_inv TunnelRuntime_new.
Proof. split_and!; [done|constructor; done || (simpl; unfold MAX_ONLINE_CLIENTS; rewrite map_size_empty; lia)|by constructor]. Qed.

Lemma runtime_reachable rt :
  rtc (runtime_step sha256 toml_string) TunnelRuntime_new rt → runtime_inv rt.
Proof.
  intros Hr. pose proof runtime_inv_new as Hi. induction Hr; [done|].
  apply IHHr. by eapply runtime_step_inv.
Qed.

(** *** Change notification *)

Lemma wrapping_add1_ne n : wrapping_add1 n ≠ n.
Proof.
  unfold wrapping_add1. intros H. pose proof (N.mod_upper_bound (n + 1) (2 ^ 64) ltac:(done)) as Hb.
  destruct (N.lt_ge_cases (n + 1) (2 ^ 64)).
  - rewrite N.mod_small in H by done. lia.
  - assert (n + 1 = 2 ^ 64) as Heq by (rewrite H in Hb; lia).
    rewrite Heq, N.Div0.mod_same in H. lia.
Qed.

Lemma state_catalog rt rt' id : state rt' = state rt → catalog rt' id = catalog rt id.
Proof. unfold catalog. by intros ->. Qed.

Lemma update_unchanged rt id decls u rt' :
  runtime_inv rt → update_services rt id decls = (Some u, rt') → changed u = false →
  state rt' = state rt.
Proof.
  intros (Ho & _ & _). unfold update_services.
  destruct (sessions (state rt) !! id) as [s|] eqn:Es; [|done].
  set (st1 := with_sessions _ _). destruct (claim_available _ _ id) as [st' t'] eqn:Ecl.
  intros [= <- <-]. simpl. intros Hch. rewrite Hch. simpl.
  apply orb_false_iff in Hch as [Hch _]. apply orb_false_iff in Hch as [Hd Hcl].
  rewrite bool_decide_eq_false in Hd. apply dec_stable in Hd. rewrite negb_false_iff, Nat.eqb_eq in Hcl.
  assert (Hst1 : st1 = state rt).
  { unfold st1. rewrite <- Hd. replace (with_services s (services s)) with s by (by destruct s).
    rewrite insert_id by done. by destruct (state rt). }
  assert (Hret : retain_valid_owners st1 = state rt).
  { rewrite Hst1. unfold retain_valid_owners. rewrite map_filter_id by (intros n o Hn; by apply Ho).
    by destruct (state rt). }
  rewrite Hret in Ecl. apply claim_available_spec in Ecl as (H1 & H2 & H3 & _ & H4 & H5).
  assert (Hown : owners st' = owners (state rt)).
  { apply map_eq. intros n. destruct (owners (state rt) !! n) as [o|] eqn:En; [by apply H4|].
    destruct (owners st' !! n) as [x|] eqn:Ex; [|done]. exfalso.
    specialize (H5 n En). rewrite Es in H5. destruct (tunnels (state rt) !! n); [|congruence].
    destruct (eligible _ _ _); [|congruence]. destruct H5 as (y & Hy & Hyid). simplify_eq.
    apply size_empty_inv in Hcl. apply (not_elem_of_empty (C := gset str) n), Hcl.
    apply elem_of_difference. unfold owned_tunnels. split.
    - apply elem_of_dom. exists y. by apply map_lookup_filter_Some.
    - rewrite elem_of_dom. intros [z Hz]. apply map_lookup_filter_Some in Hz as [Hz _]. congruence. }
  destruct st', (state rt). simpl in *. by subst.
Qed.

Lemma credentials_unchanged rt creds :
  runtime_inv rt → revision (apply_credentials sha256 rt creds) = revision rt →
  sessions (state (apply_credentials sha256 rt creds)) = sessions (state rt) ∧
  tunnels (state (apply_credentials sha256 rt creds)) = tunnels (state rt) ∧
  owners (state (apply_credentials sha256 rt creds)) = owners (state rt).
Proof.
  intros _. destruct (apply_credentials_spec sha256 rt creds) as [l [C1 C2 _ _ C5 C6 _ C8 C9]].
  rewrite C9. destruct (decide (l = [])) as [->|]; [|intros H; by apply wrapping_add1_ne in H].
  intros _.
  assert (Hno : ∀ i s, sessions (state rt) !! i = Some s → revoked_session (digest_map sha256 creds) s = false).
  { intros i s Hs. destruct (revoked_session _ s) eqn:E; [|done].
    assert (connection s ∈ []) as Hc by (apply C8; eauto). by apply not_elem_of_nil in Hc. }
  split_and!; [|done|]; apply map_eq; intros n; apply option_eq; intros x.
  - rewrite C5. split; [by intros [? _]|]. eauto.
  - rewrite C6. split; [by intros [? _]|]. intros Hx. split; [done|].
    intros (s & Hs & Hr). apply Hno in Hs. congruence.
Qed.

Lemma step_unnotified rt rt' id :
  runtime_inv rt → runtime_step sha256 toml_string rt rt' → revision rt' = revision rt →
  catalog rt' id = catalog rt id.
Proof.
  intros Hi Hs Hrev. destruct Hs.
  - unfold register in H0. destruct (_ <=? _)%nat; [by simplify_eq|].
    destruct (bool_decide _); [by simplify_eq|]. destruct (existsb _ _); [by simplify_eq|].
    destruct (claim_available _ _ _). simplify_eq. by apply wrapping_add1_ne in Hrev.
  - destruct u as [u|].
    + destruct (changed u) eqn:Ech.
      * unfold update_services in H. destruct (_ !! id0); [|done].
        destruct (claim_available _ _ _). simplify_eq. simpl in *. rewrite Ech in Hrev.
        by apply wrapping_add1_ne in Hrev.
      * apply state_catalog. by eapply update_unchanged.
    + unfold update_services in H. destruct (_ !! id0); [|by simplify_eq].
      destruct (claim_available _ _ _). by simplify_eq.
  - unfold unregister in *. destruct (_ !! id0); [|done]. by apply wrapping_add1_ne in Hrev.
  - unfold disconnect in H. destruct (_ !! id0); simplify_eq; [|done].
    by apply wrapping_add1_ne in Hrev.
  - unfold disconnect_tunnel in H. repeat case_hyp H; simplify_eq; try done.
    by apply wrapping_add1_ne in Hrev.
  - by apply wrapping_add1_ne in Hrev.
  - destruct (credentials_unchanged _ _ Hi Hrev) as (H1 & H2 & H3).
    unfold catalog, client_tunnel, tunnel_state_for. by rewrite H1, H2, H3.
  - unfold report_config_applied in H. apply bind_ok in H as (fp & _ & [= <-]). done.
  - unfold report_config_failed in H. apply bind_ok in H as (fp & _ & [= <-]). done.
  - done.
Qed.
(** Who owns what after an update of the declarations. *)
Lemma update_owners rt id decls u rt' :
  owners_ok (state rt) → update_services rt id decls = (Some u, rt') →
  tunnels (state rt') = tunnels (state rt) ∧
  (∀ n o, owner_session o ≠ id →
     (owners (state rt') !! n = Some o ↔ owners (state rt) !! n = Some o)) ∧
  (∀ n, owned_by rt' id n ↔
     ∃ s spec, sessions (state rt) !! id = Some s ∧ tunnels (state rt) !! n = Some spec ∧
       eligible (with_services s (service_map decls)) n spec = true ∧
       ∀ o, owners (state rt) !! n = Some o → owner_session o = id).
Proof.
  intros Ho. unfold update_services.
  destruct (sessions (state rt) !! id) as [s|] eqn:Es; [|done].
  set (s' := with_services s (service_map decls)). set (st1 := with_sessions _ _).
  destruct (claim_available _ _ id) as [st' t'] eqn:Ecl. intros [= <- Hrt].
  assert (Hst : state rt' = st') by (subst rt'; by destruct (_ || _)). clear Hrt.
  unfold owned_by. rewrite Hst.
  apply claim_available_spec in Ecl as (_ & _ & Ht & _ & Hkeep & Hnew).
  change (sessions (retain_valid_owners st1)) with (<[id := s']> (sessions (state rt))) in Hnew.
  change (tunnels (retain_valid_owners st1)) with (tunnels (state rt)) in *.
  rewrite lookup_insert_eq in Hnew.
  assert (Hret : ∀ n o, owners (retain_valid_owners st1) !! n = Some o ↔
    owners (state rt) !! n = Some o ∧ valid_owner st1 n o = true) by exact (retain_lookup st1).
  assert (Hval : ∀ n o, owners (state rt) !! n = Some o → owner_session o ≠ id →
    valid_owner st1 n o = true).
  { intros n o Hn Hne. apply Ho, valid_owner_true in Hn as (spec & t & ? & ? & ?).
    apply valid_owner_true. exists spec, t. simpl. by rewrite lookup_insert_ne. }
  split_and!; [exact Ht|..].
  - intros n o Hne. split.
    + intros Hn. destruct (owners (retain_valid_owners st1) !! n) as [o1|] eqn:E1.
      * rewrite (Hkeep _ _ E1) in Hn. simplify_eq. by apply Hret in E1 as [? _].
      * specialize (Hnew n E1). destruct (tunnels (state rt) !! n) as [spec|]; [|congruence].
        destruct (eligible s' n spec); [|congruence]. destruct Hnew as (x & Hx & Hi). congruence.
    + intros Hn. apply Hkeep, Hret. auto.
  - intros n. destruct (owners (retain_valid_owners st1) !! n) as [o1|] eqn:E1.
    + rewrite (Hkeep _ _ E1). apply Hret in E1 as [E1 Hv]. rewrite E1. split.
      * intros (o & [= <-] & Hid). apply valid_owner_true in Hv as (spec & t & ? & Hs1 & ?).
        rewrite Hid in Hs1. simpl in Hs1. rewrite lookup_insert_eq in Hs1. simplify_eq.
        exists s, spec. split_and!; try done. by intros o [= <-].
      * intros (s0 & spec & _ & _ & _ & Hall). exists o1. auto.
    + specialize (Hnew n E1). split.
      * intros (x & Hx & Hi). destruct (tunnels (state rt) !! n) as [spec|] eqn:Etn; [|congruence].
        destruct (eligible s' n spec) eqn:Ee; [|congruence]. exists s, spec.
        split_and!; try done. intros o Hn. destruct (decide (owner_session o = id)); [done|].
        pose proof (Hval _ _ Hn ltac:(done)) as Hv.
        rewrite (proj2 (Hret n o) (conj Hn Hv)) in E1. done.
      * intros (s0 & spec & [= <-] & Htn & He & _). rewrite Htn in Hnew. fold s' in He.
        by rewrite He in Hnew.
Qed.
End reachability.

(** ** A concrete run, for the witnesses *)

Definition loop_addr (port : N) : SocketAddr :=
  SockV4 {| octet0 := 127; octet1 := 0; octet2 := 0; octet3 := 1 |} port.
Definition w_tunnel : ServerTunnelConfig :=
  {| tunnel_name := "web"; tunnel_group := "office"; tunnel_kind := Tcp; tunnel_bind := loop_addr 8080;
     local_ip := "127.0.0.1"; local_port := Some 80; limit_bps := None; max_connections := 8;
     max_udp_sessions := 8; udp_idle_seconds := 60 |}.
Definition w_conn : Connection := {| conn_id := 7; remote_address := loop_addr 5000 |}.
Definition w_decls : list ServiceDeclaration := [{| decl_name := "web"; decl_kind := Tcp |}].
Definition w_toml (c : ServerConfig) : result str str := Ok [].
Definition w_ready : TunnelRuntime :=
  apply_tunnels (apply_credentials (λ s, s) TunnelRuntime_new [(lit "office", lit "key")]) [w_tunnel].
Definition w_online : TunnelRuntime :=
  (register w_ready 1 "dev" "office" "key" w_conn w_decls 0).2.

Lemma w_ready_reachable : rtc (runtime_step (λ s, s) w_toml) TunnelRuntime_new w_ready.
Proof.
  eapply rtc_l; [apply (rs_apply_credentials _ _ _ [(lit "office", lit "key")])|].
  eapply rtc_l; [apply (rs_apply_tunnels _ _ _ [w_tunnel])|]. apply rtc_refl.
Qed.

Lemma w_online_reachable : rtc (runtime_step (λ s, s) w_toml) TunnelRuntime_new w_online.
Proof.
  eapply rtc_r; [apply w_ready_reachable|].
  eapply (rs_register _ _ _ 1 "dev" "office" "key" w_conn w_decls 0 (Ok tt)); [by vm_compute|].
  unfold w_online. destruct (register _ _ _ _ _ _ _ _) as [r rt] eqn:E. simpl. f_equal.
  apply (f_equal (λ p, is_ok p.1)) in E. vm_compute in E. by destruct r as [[]|].
Qed.

(** ** Properties *)

(** C19: in every reachable state, a public connection to a tunnel is handed
    only to the session that owns it: a live session of the tunnel's own
    group, authenticated with the group's current credential, that declared
    the tunnel with its kind, and whose stop token has not been cancelled; and
    an owned tunnel always finds such a session. *)
Theorem find_isolated sha256 toml_string rt t :
  rtc (runtime_step sha256 toml_string) TunnelRuntime_new rt →
  match find rt t with
  | Some cs => ∃ o s spec,
      owners (state rt) !! t = Some o ∧ shutdown o = tunnel_shutdown cs ∧
      sessions (state rt) !! owner_session o = Some s ∧ connection s = cs_connection cs ∧
      tunnels (state rt) !! t = Some spec ∧ session_group s = spec_group spec ∧
      services s !! t = Some (spec_kind spec) ∧
      rt_credentials (state rt) !! session_group s = Some (session_digest s) ∧
      tunnel_shutdown cs ∉ cancelled rt
  | None => owners (state rt) !! t = None
  end.
Proof.
  intros (Ho & [Hc _ _] & [Hf _ _])%runtime_reachable. unfold find.
  destruct (owners (state rt) !! t) as [o|] eqn:Eo; [|done]. simpl.
  pose proof (Ho _ _ Eo) as Hv. apply valid_owner_true in Hv as (spec & s & Ht & Hs & He).
  apply eligible_true in He as [Hg Hk]. rewrite Hs. simpl. exists o, s, spec.
  split_and!; try done; [by apply (Hc _ _ Hs)|]. by destruct (Hf _ _ Eo).
Qed.

Lemma find_isolated_witness :
  ∃ o s spec, owners (state w_online) !! lit "web" = Some o ∧ shutdown o = 0 ∧
    sessions (state w_online) !! owner_session o = Some s ∧ connection s = w_conn ∧
    tunnels (state w_online) !! lit "web" = Some spec ∧ session_group s = spec_group spec ∧
    services s !! lit "web" = Some (spec_kind spec) ∧
    rt_credentials (state w_online) !! session_group s = Some (session_digest s) ∧
    0 ∉ cancelled w_online.
Proof.
  pose proof (find_isolated (λ s, s) w_toml w_online "web" w_online_reachable) as H.
  assert (E : find w_online "web" = Some {| cs_connection := w_conn; tunnel_shutdown := 0 |})
    by (by vm_compute).
  rewrite E in H. exact H.
Defined.

(** C2: in every reachable state there are at most 128 sessions, no two with
    the same device identifier, each holding the current credential of its
    group; and no two tunnels share a stop token. *)
Theorem sessions_invariant sha256 toml_string rt :
  rtc (runtime_step sha256 toml_string) TunnelRuntime_new rt →
  (size (sessions (state rt)) ≤ MAX_ONLINE_CLIENTS)%nat ∧
  (∀ i j s t, sessions (state rt) !! i = Some s → sessions (state rt) !! j = Some t →
     device_id s = device_id t → i = j) ∧
  (∀ i s, sessions (state rt) !! i = Some s →
     rt_credentials (state rt) !! session_group s = Some (session_digest s)) ∧
  (∀ n m x y, owners (state rt) !! n = Some x → owners (state rt) !! m = Some y →
     shutdown x = shutdown y → n = m).
Proof. by intros (_ & [Hc Hd Hs] & [_ Hi _])%runtime_reachable. Qed.

Lemma sessions_invariant_witness : (size (sessions (state w_online)) ≤ MAX_ONLINE_CLIENTS)%nat.
Proof. exact (proj1 (sessions_invariant (λ s, s) w_toml w_online w_online_reachable)). Defined.

Lemma register_credential rt id dev group digest conn decls now u rt' :
  register rt id dev group digest conn decls now = (Ok u, rt') → rt_credentials (state rt) !! group = Some digest.
Proof.
  unfold register. destruct (_ <=? _)%nat; [done|]. by case_bool_decide as Hcr.
Qed.

(** A registration is refused, with nothing changed, when the server is
    full, when the credential is not the group's current one, or when the
    device is online, in this order; otherwise the session owns exactly the
    tunnels it is eligible for that nobody owned, and no other ownership,
    session or tunnel changes. *)
Theorem register_spec rt id dev group digest conn decls now :
  sessions (state rt) !! id = None →
  match register rt id dev group digest conn decls now with
  | (Err Capacity, rt') => rt' = rt ∧ (MAX_ONLINE_CLIENTS ≤ size (sessions (state rt)))%nat
  | (Err CredentialsChanged, rt') => rt' = rt ∧ rt_credentials (state rt) !! group ≠ Some digest
  | (Err DeviceIdConflict, rt') => rt' = rt ∧ rt_credentials (state rt) !! group = Some digest ∧
      ∃ i s, sessions (state rt) !! i = Some s ∧ device_id s = dev
  | (Ok _, rt') =>
      revision rt' = wrapping_add1 (revision rt) ∧
      tunnels (state rt') = tunnels (state rt) ∧
      (∃ s, sessions (state rt') = <[id := s]> (sessions (state rt)) ∧ device_id s = dev ∧
            session_group s = group ∧ connection s = conn ∧ services s = service_map decls ∧
            ∀ n, owned_by rt' id n ↔ owned_by rt id n ∨
              (owners (state rt) !! n = None ∧ ∃ spec, tunnels (state rt) !! n = Some spec ∧
               eligible s n spec = true)) ∧
      (∀ n o, owners (state rt) !! n = Some o → owners (state rt') !! n = Some o)
  end.
Proof.
  intros Hid. unfold register.
  destruct (_ <=? _)%nat eqn:Ec; [bsimpl; done|].
  case_bool_decide as Hcr; [done|].
  destruct (existsb _ _) eqn:Ed.
  { split_and!; [done|done|].
    apply existsb_exists in Ed as ([i s] & Hin & Hd%bool_decide_eq_true).
    apply list_elem_of_In, elem_of_map_to_list in Hin. eauto. }
  set (entry := Build_SessionEntry _ _ _ _ _ _ _).
  destruct (claim_available _ _ id) as [st' t'] eqn:Ecl. simpl.
  apply claim_available_spec in Ecl as (_ & Hs & Ht & _ & Hkeep & Hnew). simpl in *.
  split_and!; [done|done| |done]. exists entry. split_and!; try done. unfold owned_by. simpl.
  intros n. destruct (owners (state rt) !! n) as [o|] eqn:Eo.
  - rewrite (Hkeep _ _ Eo). split; [by left|]. by intros [?|[? _]].
  - specialize (Hnew n Eo). rewrite lookup_insert_eq in Hnew.
    destruct (tunnels (state rt) !! n) as [spec|].
    + destruct (eligible entry n spec) eqn:Ee; [split; [by eauto|by intros _]|].
      rewrite Hnew. split; [by intros (?&?&?)|].
      intros [(?&?&?)|(_ & spec' & [= <-] & ?)]; congruence.
    + rewrite Hnew. split; [by intros (?&?&?)|]. by intros [(?&?&?)|(_ & spec' & ? & ?)].
Qed.

Lemma register_spec_witness :
  sessions (state w_ready) !! 1 = None ∧ revision w_online = wrapping_add1 (revision w_ready).
Proof.
  assert (Hn : sessions (state w_ready) !! 1 = None) by (by vm_compute).
  split; [exact Hn|].
  pose proof (register_spec w_ready 1 "dev" "office" "key" w_conn w_decls 0 Hn) as H.
  unfold w_online. destruct (register _ _ _ _ _ _ _ _) as [r rt] eqn:E.
  assert (Hr : is_ok r = true).
  { apply (f_equal (λ p, is_ok p.1)) in E. vm_compute in E. exact (eq_sym E). }
  destruct r as [u|e]; [exact (proj1 H)|done].
Defined.

(** After a session updates its declarations, the tunnels of its group it
    declares with their kind are all owned (by it unless another session
    already had them), it owns no other, and what other sessions own is
    untouched. *)
Theorem update_services_spec sha256 toml_string rt id decls u rt' :
  rtc (runtime_step sha256 toml_string) TunnelRuntime_new rt →
  update_services rt id decls = (Some u, rt') →
  tunnels (state rt') = tunnels (state rt) ∧
  (∀ n o, owner_session o ≠ id →
     (owners (state rt') !! n = Some o ↔ owners (state rt) !! n = Some o)) ∧
  (∀ n, owned_by rt' id n ↔
     ∃ s spec, sessions (state rt) !! id = Some s ∧ tunnels (state rt) !! n = Some spec ∧
       eligible (with_services s (service_map decls)) n spec = true ∧
       ∀ o, owners (state rt) !! n = Some o → owner_session o = id).
Proof.
  intros (Ho & _ & _)%runtime_reachable Hu.
  destruct (update_owners rt id decls u rt' Ho Hu) as (Ht & Hoth & Hid).
  split_and!; [exact Ht|exact Hoth|exact Hid].
Qed.

Lemma update_services_spec_witness :
  let u := update_services w_online 1 [] in
  is_Some u.1 ∧ ¬ owned_by u.2 1 "web".
Proof.
  intros u. destruct (update_services w_online 1 []) as [[v|] rt'] eqn:E.
  2: { apply (f_equal (λ p, bool_decide (is_Some p.1))) in E. vm_compute in E. discriminate E. }
  destruct (update_services_spec (λ s, s) w_toml w_online 1 [] v rt' w_online_reachable E)
    as (_ & _ & Hid).
  unfold u. split; [by exists v|]. simpl. rewrite (Hid "web").
  intros (s & spec & _ & _ & He & _). by apply eligible_true in He as [_ He].
Defined.

(** New credentials revoke exactly the sessions whose group is gone or
    whose digest differs: they leave the table, their tunnels are released,
    their connections (and no other) are closed with the revocation code, and
    the watchers are notified exactly when there is one; every other session
    and ownership stays. *)
Theorem revocation_exact sha256 rt creds :
  ∃ l, credentials_applied (digest_map sha256 creds) rt (apply_credentials sha256 rt creds) l.
Proof. apply apply_credentials_spec. Qed.

(** Taking one tunnel offline fails without effect when the session or the
    tunnel is unknown or the session does not own it; otherwise the tunnel is
    free, its stop token is cancelled, the session keeps its other tunnels and
    no longer declares this one, and everybody else is untouched. *)
Theorem disconnect_tunnel_spec rt id t :
  match disconnect_tunnel rt id t with
  | (Err SessionNotFound, rt') => rt' = rt ∧ sessions (state rt) !! id = None
  | (Err TunnelNotFound, rt') => rt' = rt ∧ is_Some (sessions (state rt) !! id) ∧
      tunnels (state rt) !! t = None
  | (Err NotOwnedBySession, rt') => rt' = rt ∧ is_Some (sessions (state rt) !! id) ∧
      is_Some (tunnels (state rt) !! t) ∧ ¬ owned_by rt id t
  | (Ok _, rt') => ∃ o s,
      owners (state rt) !! t = Some o ∧ owner_session o = id ∧
      owners (state rt') = delete t (owners (state rt)) ∧
      cancelled rt' = {[shutdown o]} ∪ cancelled rt ∧
      sessions (state rt) !! id = Some s ∧
      sessions (state rt') = <[id := with_services s (delete t (services s))]> (sessions (state rt)) ∧
      tunnels (state rt') = tunnels (state rt) ∧ closed rt' = closed rt ∧
      revision rt' = wrapping_add1 (revision rt)
  end.
Proof.
  unfold disconnect_tunnel, owned_by.
  destruct (sessions (state rt) !! id) as [s|] eqn:Es; [|done].
  destruct (tunnels (state rt) !! t) eqn:Et; [|by eauto].
  destruct (owners (state rt) !! t) as [o|] eqn:Eo.
  2: { split_and!; eauto. by intros (?&?&?). }
  case_bool_decide as Hid.
  - split_and!; eauto. by intros (o' & [= <-] & ?).
  - exists o, s. split_and!; done.
Qed.

(** The catalogue sent to a session lists exactly the tunnels of its own
    group, each once, in the order of their names, with the kind, port and
    local target of the configuration and, as state, whether it is free, owned
    by this session or owned by another. *)
Theorem catalog_spec rt id s :
  sessions (state rt) !! id = Some s →
  Sorted (by_key ct_name) (catalog rt id) ∧ NoDup (ct_name <$> catalog rt id) ∧
  (∀ t, t ∈ catalog rt id ↔ ∃ n spec, tunnels (state rt) !! n = Some spec ∧
     spec_group spec = session_group s ∧ t = client_tunnel (state rt) id (n, spec)) ∧
  (∀ t, t ∈ catalog rt id → ct_state t = Enabled ↔ owned_by rt id (ct_name t)).
Proof.
  intros Hs. unfold catalog. rewrite Hs. split_and!.
  - apply sort_by_key_sorted.
  - rewrite sort_by_key_perm. rewrite <- list_fmap_compose.
    apply (NoDup_fmap_2_strong fst); [|apply NoDup_filter, NoDup_map_to_list].
    intros [i x] [j y] Hx Hy Heq. simpl in Heq. subst j.
    apply list_elem_of_filter in Hx as [_ Hx]. apply list_elem_of_filter in Hy as [_ Hy].
    apply elem_of_map_to_list in Hx. apply elem_of_map_to_list in Hy. congruence.
  - intros t. rewrite elem_of_sort_by_key, list_elem_of_fmap. setoid_rewrite list_elem_of_filter. split.
    + intros ([n spec] & -> & Hg & Hin). apply elem_of_map_to_list in Hin. eauto.
    + intros (n & spec & Hn & Hg & ->). exists (n, spec). by rewrite elem_of_map_to_list.
  - intros t. rewrite elem_of_sort_by_key, list_elem_of_fmap. intros ([n spec] & -> & _).
    simpl. unfold tunnel_state_for, owned_by.
    destruct (owners (state rt) !! n) as [o|]; [|split; [done|by intros (?&?&?)]].
    case_bool_decide; split; try done; [by eauto|]. by intros (o' & [= <-] & ?).
Qed.

Lemma catalog_spec_witness :
  ∃ s, sessions (state w_online) !! 1 = Some s ∧ NoDup (ct_name <$> catalog w_online 1).
Proof.
  destruct (sessions (state w_online) !! 1) as [s|] eqn:E.
  - exists s. split; [done|]. exact (proj1 (proj2 (catalog_spec w_online 1 s E))).
  - apply (f_equal (λ o, bool_decide (is_Some o))) in E. vm_compute in E. discriminate E.
Defined.

(** Whatever operation runs in a reachable state, if the revision counter
    the control sessions watch is unchanged, so is the catalogue of every
    session: no change a client should see goes unannounced. *)
Theorem no_silent_change sha256 toml_string rt rt' id :
  rtc (runtime_step sha256 toml_string) TunnelRuntime_new rt →
  runtime_step sha256 toml_string rt rt' →
  revision rt' = revision rt → catalog rt' id = catalog rt id.
Proof. intros Hr Hs. eapply step_unnotified; [by eapply runtime_reachable|exact Hs]. Qed.

Lemma no_silent_change_witness :
  catalog (unregister w_online 99) 1 = catalog w_online 1.
Proof.
  apply (no_silent_change (λ s, s) w_toml w_online (unregister w_online 99) 1 w_online_reachable).
  - apply rs_unregister.
  - reflexivity.
Defined.
