(* ===== verification/Listeners.v ===== *)
(** * Listeners: [ListenerManager], [reload_server] of
    [gaterust-tunnel/src/server/mod.rs] and [server/endpoint.rs]

    The manager of the public listeners and the hot reload of the server.  A
    listener's cancellation token, stop channel and task are one identity,
    [handle_id]; a rate limiter is the identity of its shared cell.  Binding a
    socket is an oracle [bind] asked once per attempt, so the same address may
    fail now and succeed later; loading certificates, binding and rebinding
    the QUIC socket are parameters as well. *)

From stdpp Require Import sorting.
From S2P Require Import Prelude RustStr Net TunnelConfig Protocol TunnelRuntime.

(** ** State *)

Record ListenerHandle := {
  handle_config : ServerTunnelConfig;
  handle_id : N;
  handle_limiter : N }.

Record LimiterEntry := { entry_limit : option N; entry_limiter : N }.

Record ListenerManager := {
  lm_runtime : TunnelRuntime;
  limiters : gmap str LimiterEntry;
  active : gmap str ListenerHandle;
  retired : list N;
  (** identities and bind attempts used so far *)
  next_id : N;
  attempts : N }.

Definition ListenerManager_new (rt : TunnelRuntime) : ListenerManager :=
  {| lm_runtime := rt; limiters := ∅; active := ∅; retired := []; next_id := 0; attempts := 0 |}.

Definition same_listener (current updated : ServerTunnelConfig) : bool :=
  bool_decide (tunnel_name current = tunnel_name updated)
  && bool_decide (tunnel_kind current = tunnel_kind updated)
  && bool_decide (tunnel_bind current = tunnel_bind updated)
  && bool_decide (limit_bps current = limit_bps updated)
  && match tunnel_kind current with
     | Tcp | Socks5 => max_connections current =? max_connections updated
     | Udp => (max_udp_sessions current =? max_udp_sessions updated)
              && (udp_idle_seconds current =? udp_idle_seconds updated)
     end.

(** [configs]: the configurations of the active listeners. *)
Definition lm_configs (m : ListenerManager) : list ServerTunnelConfig :=
  map (λ kv, handle_config kv.2) (map_to_list (active m)).

Definition set_active (m : ListenerManager) (a : gmap str ListenerHandle) : ListenerManager :=
  {| lm_runtime := lm_runtime m; limiters := limiters m; active := a; retired := retired m;
     next_id := next_id m; attempts := attempts m |}.
Definition set_limiters (m : ListenerManager) (l : gmap str LimiterEntry) : ListenerManager :=
  {| lm_runtime := lm_runtime m; limiters := l; active := active m; retired := retired m;
     next_id := next_id m; attempts := attempts m |}.
Definition set_runtime (m : ListenerManager) (rt : TunnelRuntime) : ListenerManager :=
  {| lm_runtime := rt; limiters := limiters m; active := active m; retired := retired m;
     next_id := next_id m; attempts := attempts m |}.

(** Cancel, wait for the listener to stop, keep its task for later. *)
Definition stop (m : ListenerManager) (name : str) : ListenerManager :=
  match active m !! name with
  | None => m
  | Some handle =>
      {| lm_runtime := lm_runtime m; limiters := limiters m; active := delete name (active m);
         retired := retired m ++ [handle_id handle]; next_id := next_id m; attempts := attempts m |}
  end.

(** [swap_remove(index)]. *)
Definition swap_remove (l : list N) (index : nat) : list N :=
  match last l with
  | Some x => removelast (<[index := x]> l)
  | None => l
  end.

(** The tasks that have finished are dropped; [fuel] is the length of the
    list, which every turn of the loop shortens or walks. *)
Fixpoint reap_loop (finished : N → bool) (fuel index : nat) (l : list N) : list N :=
  match fuel with
  | O => l
  | S fuel =>
      match l !! index with
      | None => l
      | Some t => if finished t then reap_loop finished fuel index (swap_remove l index)
                  else reap_loop finished fuel (S index) l
      end
  end.
Definition reap_retired (finished : N → bool) (m : ListenerManager) : ListenerManager :=
  {| lm_runtime := lm_runtime m; limiters := limiters m; active := active m;
     retired := reap_loop finished (length (retired m)) 0 (retired m);
     next_id := next_id m; attempts := attempts m |}.

Section manager.
(** Whether the [n]-th bind of the process fails for a configuration. *)
Context (bind : N → ServerTunnelConfig → option TunnelError).
Context (io : ErrorKind → str).

(** The limiter of a tunnel: the one it had while its limit is the same. *)
Definition limiter_for (m : ListenerManager) (c : ServerTunnelConfig) : N * ListenerManager :=
  let fresh :=
    (next_id m,
     {| lm_runtime := lm_runtime m;
        limiters := <[tunnel_name c := {| entry_limit := limit_bps c; entry_limiter := next_id m |}]>
                      (limiters m);
        active := active m; retired := retired m; next_id := next_id m + 1;
        attempts := attempts m |}) in
  match limiters m !! tunnel_name c with
  | Some entry => if bool_decide (entry_limit entry = limit_bps c) then (entry_limiter entry, m)
                  else fresh
  | None => fresh
  end.

Definition start_listener (m : ListenerManager) (c : ServerTunnelConfig) (limiter : N)
  : Result ListenerHandle * ListenerManager :=
  let m' := {| lm_runtime := lm_runtime m; limiters := limiters m; active := active m;
               retired := retired m; next_id := next_id m + 1; attempts := attempts m + 1 |} in
  match bind (attempts m) c with
  | Some e => (Err e, m')
  | None => (Ok {| handle_config := c; handle_id := next_id m; handle_limiter := limiter |}, m')
  end.

(** The loop that starts what is missing. *)
Fixpoint start_missing (m : ListenerManager) (configs : list ServerTunnelConfig)
  : Result unit * ListenerManager :=
  match configs with
  | [] => (Ok tt, m)
  | c :: configs =>
      if bool_decide (is_Some (active m !! tunnel_name c)) then start_missing m configs
      else
        let '(limiter, m) := limiter_for m c in
        match start_listener m c limiter with
        | (Err e, m) => (Err e, m)
        | (Ok handle, m) =>
            start_missing (set_active m (<[tunnel_name c := handle]> (active m))) configs
        end
  end.

Definition refresh_config (a : gmap str ListenerHandle) (c : ServerTunnelConfig)
  : gmap str ListenerHandle :=
  match a !! tunnel_name c with
  | Some h => <[tunnel_name c := {| handle_config := c; handle_id := handle_id h;
                                    handle_limiter := handle_limiter h |}]> a
  | None => a
  end.

Definition desired_map (configs : list ServerTunnelConfig) : gmap str ServerTunnelConfig :=
  foldl (λ m c, <[tunnel_name c := c]> m) ∅ configs.

Definition unwanted (desired : gmap str ServerTunnelConfig) (name : str) (h : ListenerHandle) : bool :=
  match desired !! name with
  | None => true
  | Some c => negb (same_listener (handle_config h) c)
  end.

Definition apply_once (m : ListenerManager) (configs : list ServerTunnelConfig)
  : Result unit * ListenerManager :=
  let desired := desired_map configs in
  let removed := map fst (filter (λ kv : str * ListenerHandle, unwanted desired kv.1 kv.2 = true)
                                 (map_to_list (active m))) in
  let m := foldl stop m removed in
  match start_missing m configs with
  | (Err e, m) => (Err e, m)
  | (Ok _, m) =>
      let m := set_active m (foldl refresh_config (active m) configs) in
      (Ok tt, set_limiters m (filter (λ kv, is_Some (desired !! kv.1)) (limiters m)))
  end.

Definition apply (finished : N → bool) (m : ListenerManager) (configs : list ServerTunnelConfig)
  : Result unit * ListenerManager :=
  let m := reap_retired finished m in
  let previous := lm_configs m in
  let previous_limiters := limiters m in
  match apply_once m configs with
  | (Err error, m) =>
      match apply_once (set_limiters m previous_limiters) previous with
      | (Err rollback_error, m) =>
          (Err (InvalidConfig ("应用监听配置失败: " ++ fmt_error io error ++ "; 回滚也失败: "
                               ++ fmt_error io rollback_error)), m)
      | (Ok _, m) => (Err error, m)
      end
  | (Ok _, m) => (Ok tt, set_runtime m (apply_tunnels (lm_runtime m) configs))
  end.

(** Every active listener is stopped; the tasks are then awaited or aborted. *)
Definition shutdown_listeners (m : ListenerManager) : ListenerManager :=
  let m := foldl stop m (map fst (map_to_list (active m))) in
  {| lm_runtime := lm_runtime m; limiters := limiters m; active := active m; retired := [];
     next_id := next_id m; attempts := attempts m |}.
End manager.

(** ** The QUIC endpoint and the reload *)

Record QuicEndpoint := { qe_config : ServerQuicConfig; qe_credentials : str }.
Record QuicUpdate := { qu_config : ServerQuicConfig; qu_credentials : str; qu_socket : option SocketAddr }.

Record server_state := {
  groups : list (str * GroupSecret);
  endpoint : QuicEndpoint;
  listeners : ListenerManager }.

(** What the host answers during one reload: the certificate files, the UDP
    bind, the rebind of the endpoint, and which retired tasks have finished. *)
Record reload_env := {
  env_credentials : ServerQuicConfig → Result str;
  env_udp_bind : SocketAddr → Result unit;
  env_rebind : SocketAddr → Result unit;
  env_finished : N → bool }.

Definition quic_prepare (env : reload_env) (q : QuicEndpoint) (config : ServerQuicConfig)
  : Result (option QuicUpdate) :=
  if bool_decide (config = qe_config q) then Ok None else
  creds ← env_credentials env config;
  socket ← (if bool_decide (quic_bind config ≠ quic_bind (qe_config q))
            then _ ← env_udp_bind env (quic_bind config); Ok (Some (quic_bind config))
            else Ok None);
  Ok (Some {| qu_config := config; qu_credentials := creds; qu_socket := socket |}).

Definition quic_apply (env : reload_env) (q : QuicEndpoint) (u : QuicUpdate) : Result QuicEndpoint :=
  _ ← match qu_socket u with Some a => env_rebind env a | None => Ok tt end;
  Ok {| qe_config := qu_config u; qe_credentials := qu_credentials u |}.

Section reload.
Context (sha256 : str → str) (toml_string : ServerConfig → result str str).
Context (bind : N → ServerTunnelConfig → option TunnelError) (io : ErrorKind → str).

Definition with_listeners (st : server_state) (m : ListenerManager) : server_state :=
  {| groups := groups st; endpoint := endpoint st; listeners := m |}.
Definition on_runtime (st : server_state) (f : TunnelRuntime → TunnelRuntime) : server_state :=
  with_listeners st (set_runtime (listeners st) (f (lm_runtime (listeners st)))).

(** A status that cannot be recorded is only logged. *)
Definition report_failed (st : server_state) (config : ServerConfig) (error : str) : server_state :=
  on_runtime st (λ rt, match report_config_failed sha256 toml_string rt config error with
                       | Ok rt' => rt' | Err _ => rt end).
Definition report_applied (st : server_state) (config : ServerConfig) : server_state :=
  on_runtime st (λ rt, match report_config_applied sha256 toml_string rt config with
                       | Ok rt' => rt' | Err _ => rt end).

Definition reload_server (env : reload_env) (loaded : Result ServerConfig) (st : server_state)
  : server_state :=
  match loaded with
  | Err error => on_runtime st (λ rt, report_config_load_error rt (fmt_error io error))
  | Ok config =>
  match quic_prepare env (endpoint st) (quic config) with
  | Err error => report_failed st config (fmt_error io error)
  | Ok quic_update =>
  let previous_tunnels := (λ _, lm_configs (listeners st)) <$> quic_update in
  match apply bind io (env_finished env) (listeners st) (server_tunnels config) with
  | (Err error, m) => report_failed (with_listeners st m) config (fmt_error io error)
  | (Ok _, m) =>
  let st := with_listeners st m in
  match match quic_update with
        | Some update => quic_apply env (endpoint st) update
        | None => Ok (endpoint st)
        end with
  | Err error =>
      match apply bind io (env_finished env) m (default [] previous_tunnels) with
      | (Ok _, m) => report_failed (with_listeners st m) config (fmt_error io error)
      | (Err rollback_error, m) =>
          report_failed (with_listeners st m) config
            ("切换 QUIC 入口失败: " ++ fmt_error io error ++ "; 回滚隧道监听也失败: "
             ++ fmt_error io rollback_error)
      end
  | Ok quic' =>
      let creds := credentials config in
      let st := on_runtime st (λ rt, apply_credentials sha256 rt creds) in
      let st := {| groups := creds; endpoint := quic'; listeners := listeners st |} in
      report_applied st config
  end end end end.
End reload.

(** ** Invariant and helper lemmas *)

(** Every active listener is filed under its own name and uses the limiter
    filed for it, made for its limit. *)
Definition handle_ok (l : gmap str LimiterEntry) (n : str) (h : ListenerHandle) : Prop :=
  tunnel_name (handle_config h) = n ∧
  l !! n = Some {| entry_limit := limit_bps (handle_config h); entry_limiter := handle_limiter h |}.
Definition lm_ok (m : ListenerManager) : Prop :=
  ∀ n h, active m !! n = Some h → handle_ok (limiters m) n h.

Lemma same_listener_true c d :
  same_listener c d = true →
  tunnel_name c = tunnel_name d ∧ tunnel_kind c = tunnel_kind d ∧
  tunnel_bind c = tunnel_bind d ∧ limit_bps c = limit_bps d.
Proof. unfold same_listener. intros H. bsimpl. tauto. Qed.

Lemma same_listener_refl c : same_listener c c = true.
Proof.
  unfold same_listener. rewrite !bool_decide_eq_true_2 by done. simpl.
  destruct (tunnel_kind c); by rewrite ?N.eqb_refl.
Qed.

Lemma same_listener_sym c d : same_listener c d = same_listener d c.
Proof.
  destruct (same_listener c d) eqn:E, (same_listener d c) eqn:E'; try done.
  - pose proof (same_listener_true _ _ E) as (Hn & Hk & Hb & Hl).
    unfold same_listener in E, E'. rewrite Hn, Hk, Hb, Hl in E.
    rewrite Hn, Hk, Hb, Hl in E'. rewrite !(bool_decide_eq_true_2 (_ = _)) in E, E' by done.
    simpl in *. destruct (tunnel_kind d); bsimpl; lia.
  - pose proof (same_listener_true _ _ E') as (Hn & Hk & Hb & Hl).
    unfold same_listener in E, E'. rewrite Hn, Hk, Hb, Hl in E'.
    rewrite Hn, Hk, Hb, Hl in E. rewrite !(bool_decide_eq_true_2 (_ = _)) in E, E' by done.
    simpl in *. destruct (tunnel_kind c); bsimpl; lia.
Qed.

Lemma stop_one m x :
  limiters (stop m x) = limiters m ∧ lm_runtime (stop m x) = lm_runtime m ∧
  ∀ n, active (stop m x) !! n = if decide (n = x) then None else active m !! n.
Proof.
  unfold stop. destruct (active m !! x) as [h|] eqn:Ex; simpl; (split_and!; [done..|]); intros n.
  - destruct (decide (n = x)) as [->|]; [by rewrite lookup_delete_eq|by rewrite lookup_delete_ne].
  - by destruct (decide (n = x)) as [->|].
Qed.

Lemma stop_fold names : ∀ m,
  limiters (foldl stop m names) = limiters m ∧ lm_runtime (foldl stop m names) = lm_runtime m ∧
  ∀ n, active (foldl stop m names) !! n = if decide (n ∈ names) then None else active m !! n.
Proof.
  induction names as [|x names IH]; intros m; cbn [foldl]; [done|].
  destruct (IH (stop m x)) as (-> & -> & H3), (stop_one m x) as (-> & -> & H4).
  split_and!; [done..|]. intros n. rewrite H3, H4.
  destruct (decide (n ∈ names)), (decide (n ∈ x :: names)), (decide (n = x)); set_solver.
Qed.

(** What is left after the listeners that are not wanted any more stopped. *)
Definition keep_wanted (m : ListenerManager) (configs : list ServerTunnelConfig) : ListenerManager :=
  foldl stop m (map fst (filter (λ kv : str * ListenerHandle,
    unwanted (desired_map configs) kv.1 kv.2 = true) (map_to_list (active m)))).

Lemma keep_wanted_spec m configs :
  limiters (keep_wanted m configs) = limiters m ∧
  lm_runtime (keep_wanted m configs) = lm_runtime m ∧
  ∀ n h, active (keep_wanted m configs) !! n = Some h ↔
         active m !! n = Some h ∧ unwanted (desired_map configs) n h = false.
Proof.
  unfold keep_wanted. set (names := map fst _). destruct (stop_fold names m) as (H1 & H2 & H3).
  split_and!; [done..|]. intros n h. rewrite H3.
  assert (Hin : n ∈ names ↔ ∃ h, active m !! n = Some h ∧ unwanted (desired_map configs) n h = true).
  { unfold names. rewrite list_elem_of_In, in_map_iff. setoid_rewrite <- list_elem_of_In.
    setoid_rewrite list_elem_of_filter. split.
    - intros ([j x] & <- & Hr & Hj). apply elem_of_map_to_list in Hj. eauto.
    - intros (x & Hx & Hr). exists (n, x). by rewrite elem_of_map_to_list. }
  destruct (decide (n ∈ names)) as [Hi|Hi].
  - split; [done|]. apply Hin in Hi as (h' & Hh' & Hu). intros [Hh Hf]. congruence.
  - split; [|by intros [? _]]. intros Hh. split; [done|].
    destruct (unwanted _ n h) eqn:E; [|done]. destruct Hi. apply Hin. eauto.
Qed.

Lemma desired_map_lookup configs n c :
  NoDup (tunnel_name <$> configs) →
  desired_map configs !! n = Some c ↔ c ∈ configs ∧ tunnel_name c = n.
Proof.
  unfold desired_map. induction configs as [|d configs IH] using rev_ind.
  { intros _. simpl. rewrite lookup_empty. set_solver. }
  rewrite fmap_app, foldl_app. cbn [foldl fmap list_fmap]. intros Hnd.
  apply NoDup_app in Hnd as (Hnd & Hdis & _). specialize (IH Hnd).
  destruct (decide (tunnel_name d = n)) as [<-|Hne].
  - rewrite lookup_insert_eq. split; [intros [= <-]; set_solver|].
    intros [Hc Hn]. apply elem_of_app in Hc as [Hc|Hc]; [|set_solver].
    exfalso. apply (Hdis (tunnel_name d)); [|set_solver]. rewrite <- Hn. by apply list_elem_of_fmap_2.
  - rewrite lookup_insert_ne, IH by done. set_solver.
Qed.

Section start.
Context (bind : N → ServerTunnelConfig → option TunnelError).

Lemma limiter_for_spec m c k m' :
  limiter_for m c = (k, m') →
  lm_runtime m' = lm_runtime m ∧ active m' = active m ∧
  limiters m' !! tunnel_name c = Some {| entry_limit := limit_bps c; entry_limiter := k |} ∧
  (∀ n, n ≠ tunnel_name c → limiters m' !! n = limiters m !! n) ∧
  (∀ e, limiters m !! tunnel_name c = Some e → entry_limit e = limit_bps c →
        limiters m' !! tunnel_name c = Some e).
Proof.
  unfold limiter_for. destruct (limiters m !! tunnel_name c) as [e|] eqn:E.
  - case_bool_decide as Hl; intros [= <- <-]; simpl.
    + split_and!; try done; rewrite E; [rewrite <- Hl; by destruct e|]. by intros e' [= <-].
    + rewrite lookup_insert_eq. split_and!; try done.
      * intros n Hn. by rewrite lookup_insert_ne.
      * intros e' [= <-]. done.
  - intros [= <- <-]. simpl. rewrite lookup_insert_eq. split_and!; try done.
    intros n Hn. by rewrite lookup_insert_ne.
Qed.

(** What the starting loop guarantees, whether or not it reaches the end. *)
Record started (m m' : ListenerManager) (configs : list ServerTunnelConfig) : Prop := {
  sm_runtime : lm_runtime m' = lm_runtime m;
  sm_keep : ∀ n h, active m !! n = Some h → active m' !! n = Some h ∧ limiters m' !! n = limiters m !! n;
  sm_new : ∀ n h, active m' !! n = Some h → active m !! n = None →
     handle_config h ∈ configs ∧ handle_ok (limiters m') n h;
  sm_limiters : ∀ n e, limiters m !! n = Some e →
     (∀ c, c ∈ configs → tunnel_name c = n → entry_limit e = limit_bps c) →
     limiters m' !! n = Some e }.

Lemma start_missing_spec configs : ∀ m r m',
  start_missing bind m configs = (r, m') →
  started m m' configs ∧
  (r = Ok tt → ∀ c, c ∈ configs → is_Some (active m' !! tunnel_name c)).
Proof.
  induction configs as [|c configs IH]; intros m r m'; cbn [start_missing].
  { intros [= <- <-]. split; [|intros _ c Hc; by apply not_elem_of_nil in Hc].
    constructor; try done. intros n h Hn Hn'. congruence. }
  case_bool_decide as Hact.
  { intros H. apply IH in H as [[H1 H2 H3 H4] H5]. split.
    - constructor; try done.
      + intros n h Hn Hno. destruct (H3 _ _ Hn Hno). split; [by right|done].
      + intros n e He Hc. apply H4; [done|]. intros d Hd. apply Hc. by right.
    - intros -> d Hd. apply elem_of_cons in Hd as [->|Hd]; [|by apply H5].
      destruct Hact as [h Hh]. exists h. by apply H2. }
  apply eq_None_not_Some in Hact.
  destruct (limiter_for m c) as [k m1] eqn:El.
  apply limiter_for_spec in El as (L1 & L2 & L3 & L4 & L5).
  unfold start_listener. destruct (bind (attempts m1) c) as [e|].
  { intros [= <- <-]. split; [|done]. constructor; simpl; [done|..].
    - intros n h Hn. rewrite L2, L4; [done|]. intros ->. congruence.
    - intros n h Hn Hno. rewrite L2 in Hn. congruence.
    - intros n e' He Hc. destruct (decide (n = tunnel_name c)) as [->|Hne].
      + apply L5; [done|]. apply Hc; [left|done].
      + by rewrite L4. }
  set (h0 := Build_ListenerHandle _ _ _). intros H. apply IH in H as [[H1 H2 H3 H4] H5]. simpl in *.
  assert (Hnew : active m' !! tunnel_name c = Some h0 ∧
    limiters m' !! tunnel_name c = limiters m1 !! tunnel_name c)
    by (apply H2; by rewrite lookup_insert_eq).
  split.
  - constructor.
    + by rewrite H1, L1.
    + intros n h Hn. assert (n ≠ tunnel_name c) by congruence.
      destruct (H2 n h) as [Ha Hl]; [by rewrite lookup_insert_ne, L2|].
      split; [done|]. by rewrite Hl, L4.
    + intros n h Hn Hno. destruct (decide (n = tunnel_name c)) as [->|Hne].
      * destruct Hnew as [Hn0 Hl]. rewrite Hn in Hn0. simplify_eq. split; [left|].
        split; [done|]. rewrite Hl. done.
      * destruct (H3 n h Hn) as [Hin Hok]; [by rewrite lookup_insert_ne, L2|].
        split; [by right|done].
    + intros n e He Hc. apply H4.
      * destruct (decide (n = tunnel_name c)) as [->|Hne]; [|by rewrite L4].
        apply L5; [done|]. apply Hc; [left|done].
      * intros d Hd. apply Hc. by right.
  - intros -> d Hd. apply elem_of_cons in Hd as [->|Hd]; [|by apply H5].
    destruct Hnew as [-> _]. by exists h0.
Qed.
End start.

Lemma refresh_fold configs n : NoDup (tunnel_name <$> configs) → ∀ a,
  foldl refresh_config a configs !! n =
  match a !! n with
  | None => None
  | Some h => match desired_map configs !! n with
              | Some c => Some {| handle_config := c; handle_id := handle_id h;
                                  handle_limiter := handle_limiter h |}
              | None => Some h
              end
  end.
Proof.
  unfold desired_map. induction configs as [|d configs IH] using rev_ind; intros Hnd a.
  { simpl. rewrite lookup_empty. by destruct (a !! n). }
  rewrite fmap_app in Hnd. apply NoDup_app in Hnd as (Hnd & Hdis & _).
  rewrite !foldl_app. cbn [foldl]. specialize (IH Hnd a).
  assert (Hdn : ∀ h, foldl refresh_config a configs !! tunnel_name d = Some h → True) by done.
  unfold refresh_config at 1.
  destruct (decide (tunnel_name d = n)) as [Heq|Hne].
  - rewrite Heq. rewrite IH.
    destruct (a !! n) as [h|] eqn:Ea; [|by rewrite IH].
    assert (Hno : desired_map configs !! n = None).
    { destruct (desired_map configs !! n) as [c|] eqn:Ec; [|done].
      apply desired_map_lookup in Ec as [Hc Hcn]; [|done]. exfalso.
      apply (Hdis n); [rewrite <- Hcn; by apply list_elem_of_fmap_2|].
      rewrite <- Heq. simpl. left. }
    unfold desired_map in Hno. rewrite Hno. by rewrite !lookup_insert_eq.
  - rewrite (lookup_insert_ne _ (tunnel_name d) n) by done.
    destruct (foldl refresh_config a configs !! tunnel_name d); [|done].
    by rewrite lookup_insert_ne.
Qed.

Lemma previous_lookup m n c : lm_ok m →
  (c ∈ lm_configs m ∧ tunnel_name c = n) ↔ ∃ h, active m !! n = Some h ∧ handle_config h = c.
Proof.
  intros Hok. unfold lm_configs. rewrite list_elem_of_fmap. split.
  - intros [([k h] & -> & Hin) <-]. apply elem_of_map_to_list in Hin.
    destruct (Hok _ _ Hin) as [<- _]. eauto.
  - intros (h & Hh & <-). destruct (Hok _ _ Hh) as [Hn _]. split; [|done].
    exists (n, h). by rewrite elem_of_map_to_list.
Qed.

Lemma previous_NoDup m : lm_ok m → NoDup (tunnel_name <$> lm_configs m).
Proof.
  intros Hok. unfold lm_configs. rewrite <- list_fmap_compose.
  assert (Heq : (tunnel_name ∘ (λ kv : str * ListenerHandle, handle_config kv.2)) <$> map_to_list (active m) =
          (map_to_list (active m)).*1).
  { apply list_fmap_ext. intros i [k h] Hi. simpl.
    assert (Hin : (k, h) ∈ map_to_list (active m)) by (by eapply list_elem_of_lookup_2).
    apply elem_of_map_to_list in Hin. by destruct (Hok _ _ Hin). }
  rewrite Heq. apply NoDup_fst_map_to_list.
Qed.

(** After a successful pass the active listeners are the desired ones. *)
Record applied (m m' : ListenerManager) (configs : list ServerTunnelConfig) : Prop := {
  ap_ok : lm_ok m';
  ap_runtime : lm_runtime m' = lm_runtime m;
  ap_active : ∀ n, handle_config <$> active m' !! n = desired_map configs !! n;
  ap_kept : ∀ n h c, active m !! n = Some h → desired_map configs !! n = Some c →
     same_listener (handle_config h) c = true →
     ∃ h', active m' !! n = Some h' ∧ handle_id h' = handle_id h ∧ handle_limiter h' = handle_limiter h;
  ap_limiters : ∀ c e, c ∈ configs → limiters m !! tunnel_name c = Some e →
     entry_limit e = limit_bps c → limiters m' !! tunnel_name c = Some e;
  ap_forget : ∀ n, is_Some (limiters m' !! n) → is_Some (desired_map configs !! n) }.

Section apply.
Context (bind : N → ServerTunnelConfig → option TunnelError) (io : ErrorKind → str).

Lemma apply_once_ok m configs m' :
  NoDup (tunnel_name <$> configs) → lm_ok (keep_wanted m configs) →
  apply_once bind m configs = (Ok tt, m') → applied m m' configs.
Proof.
  intros Hnd Hok. unfold apply_once. fold (keep_wanted m configs).
  destruct (keep_wanted_spec m configs) as (K1 & K2 & K3).
  destruct (start_missing bind (keep_wanted m configs) configs) as [[[]|e] m2] eqn:Es; [|done].
  intros [= <-]. apply start_missing_spec in Es as [[S1 S2 S3 S4] S5]. specialize (S5 eq_refl).
  assert (Hact : ∀ n h, active m2 !! n = Some h → handle_ok (limiters m2) n h ∧
    ∃ c, desired_map configs !! n = Some c ∧ limit_bps c = limit_bps (handle_config h)).
  { intros n h Hn. destruct (active (keep_wanted m configs) !! n) as [h1|] eqn:E1.
    - destruct (S2 _ _ E1) as [Hn' Hl]. rewrite Hn in Hn'. simplify_eq. split.
      + destruct (Hok _ _ E1) as [? Hlim]. split; [done|]. by rewrite Hl.
      + apply K3 in E1 as [_ Hw]. unfold unwanted in Hw.
        destruct (desired_map configs !! n) as [c|]; [|done]. exists c. split; [done|].
        rewrite negb_false_iff in Hw. apply same_listener_true in Hw. naive_solver.
    - destruct (S3 _ _ Hn E1) as [Hin Hh]. split; [done|]. exists (handle_config h).
      split; [|done]. apply desired_map_lookup; [done|]. split; [done|apply Hh]. }
  assert (Hlook : ∀ n, foldl refresh_config (active m2) configs !! n =
    match active m2 !! n with
    | None => None
    | Some h => match desired_map configs !! n with
                | Some c => Some {| handle_config := c; handle_id := handle_id h;
                                    handle_limiter := handle_limiter h |}
                | None => Some h end end) by (intros; by apply refresh_fold).
  constructor; simpl.
  - intros n h Hn. simpl in Hn. rewrite Hlook in Hn.
    destruct (active m2 !! n) as [h2|] eqn:E2; [|done].
    destruct (Hact _ _ E2) as [[Ht Hl] (c & Hc & Hlim)]. rewrite Hc in Hn. simplify_eq. split; simpl.
    + by apply desired_map_lookup in Hc as [_ ?].
    + rewrite map_lookup_filter_Some. rewrite Hlim. split; [done|]. by exists c.
  - by rewrite S1, K2.
  - intros n. rewrite Hlook. destruct (active m2 !! n) as [h|] eqn:E2; simpl.
    + destruct (Hact _ _ E2) as [_ (c & Hc & _)]. by rewrite Hc.
    + destruct (desired_map configs !! n) as [c|] eqn:Ec; [|done].
      apply desired_map_lookup in Ec as [Hc <-]; [|done]. destruct (S5 _ Hc) as [? ?]. congruence.
  - intros n h c Hn Hc Hsame. exists {| handle_config := c; handle_id := handle_id h; handle_limiter := handle_limiter h |}.
    rewrite Hlook. destruct (S2 n h) as [-> _]; [|by rewrite Hc].
    apply K3. split; [done|]. unfold unwanted. by rewrite Hc, Hsame.
  - intros c e Hc He Hlim. apply map_lookup_filter_Some. split.
    + apply S4; [by rewrite K1|]. intros d Hd Hn.
      assert (Heq : desired_map configs !! tunnel_name c = Some d) by (by apply desired_map_lookup).
      assert (Heq' : desired_map configs !! tunnel_name c = Some c) by (by apply desired_map_lookup).
      congruence.
    + exists c. by apply desired_map_lookup.
  - intros n [e He]. by apply map_lookup_filter_Some in He as [_ ?].
Qed.

Lemma lm_ok_keep m configs : lm_ok m → lm_ok (keep_wanted m configs).
Proof.
  intros Hok n h Hn. destruct (keep_wanted_spec m configs) as (K1 & _ & K3).
  apply K3 in Hn as [Hn _]. rewrite K1. auto.
Qed.

(** A pass only fails because an address could not be bound. *)
Lemma start_missing_fails configs : ∀ m e m',
  start_missing bind m configs = (Err e, m') → ∃ k c, c ∈ configs ∧ bind k c = Some e.
Proof.
  induction configs as [|c configs IH]; intros m e m'; cbn [start_missing]; [done|].
  assert (Hc : c ∈ c :: configs) by left.
  assert (Hrest : ∀ m, start_missing bind m configs = (Err e, m') →
            ∃ k d, d ∈ c :: configs ∧ bind k d = Some e).
  { intros m1 H. apply IH in H as (k & d & Hd & Hb). exists k, d. split; [by right|done]. }
  case_bool_decide; [apply Hrest|]. destruct (limiter_for m c) as [l m1].
  unfold start_listener. destruct (bind (attempts m1) c) eqn:Eb; [|apply Hrest].
  intros [= <- <-]. eauto.
Qed.

Lemma apply_once_fails m configs e m' :
  apply_once bind m configs = (Err e, m') → ∃ k c, c ∈ configs ∧ bind k c = Some e.
Proof.
  unfold apply_once. destruct (start_missing bind _ configs) as [[[]|e1] m1] eqn:E; [done|].
  intros [= <- <-]. by eapply start_missing_fails.
Qed.

(** What a failed pass may have left behind. *)
Lemma apply_once_err m configs e m2 :
  NoDup (tunnel_name <$> configs) →
  apply_once bind m configs = (Err e, m2) →
  lm_runtime m2 = lm_runtime m ∧
  ∀ n h, active m2 !! n = Some h →
    active m !! n = Some h ∨
    (tunnel_name (handle_config h) = n ∧
     ∀ h0, active m !! n = Some h0 → same_listener (handle_config h0) (handle_config h) = false).
Proof.
  intros Hnd. unfold apply_once. fold (keep_wanted m configs).
  destruct (keep_wanted_spec m configs) as (K1 & K2 & K3).
  destruct (start_missing bind (keep_wanted m configs) configs) as [[[]|e'] m2'] eqn:Es; [done|].
  intros [= <- <-]. apply start_missing_spec in Es as [[S1 S2 S3 S4] _].
  split; [by rewrite S1, K2|]. intros n h Hn.
  destruct (active (keep_wanted m configs) !! n) as [h1|] eqn:E1.
  - destruct (S2 _ _ E1) as [Hn' _]. rewrite Hn in Hn'. simplify_eq. left. by apply K3 in E1 as [? _].
  - destruct (S3 _ _ Hn E1) as [Hin [Hname _]]. right. split; [done|]. intros h0 Hh0.
    destruct (same_listener (handle_config h0) (handle_config h)) eqn:E; [|done]. exfalso.
    assert (active (keep_wanted m configs) !! n = Some h0) as Hk; [|congruence].
    apply K3. split; [done|]. unfold unwanted.
    rewrite (proj2 (desired_map_lookup configs n (handle_config h) Hnd) (conj Hin Hname)).
    by rewrite E.
Qed.

(** After a failed pass, what the rollback keeps was active before. *)
Lemma rollback_keep m configs e m2 :
  lm_ok m → NoDup (tunnel_name <$> configs) → apply_once bind m configs = (Err e, m2) →
  lm_ok (keep_wanted (set_limiters m2 (limiters m)) (lm_configs m)).
Proof.
  intros Hok Hnd Herr n h Hn. apply apply_once_err in Herr as [Hrt Hact]; [|done].
  destruct (keep_wanted_spec (set_limiters m2 (limiters m)) (lm_configs m)) as (K1 & _ & K3).
  rewrite K1. apply Hok. apply K3 in Hn as [Hn Hw]. destruct (Hact _ _ Hn) as [?|[Hname Hns]]; [done|].
  exfalso. unfold unwanted in Hw. destruct (desired_map (lm_configs m) !! n) as [c|] eqn:Ec; [|done].
  apply desired_map_lookup in Ec; [|by apply previous_NoDup].
  apply previous_lookup in Ec as (h0 & Hh0 & <-); [|done]. rewrite negb_false_iff, same_listener_sym in Hw.
  by rewrite (Hns _ Hh0) in Hw.
Qed.

(** A failed pass followed by a successful one on the previous listeners. *)
Lemma rollback_ok m configs e m2 m3 :
  lm_ok m → NoDup (tunnel_name <$> configs) →
  apply_once bind m configs = (Err e, m2) →
  apply_once bind (set_limiters m2 (limiters m)) (lm_configs m) = (Ok tt, m3) →
  lm_ok m3 ∧ lm_runtime m3 = lm_runtime m ∧
  (∀ n, handle_config <$> active m3 !! n = handle_config <$> active m !! n) ∧
  (∀ n, handle_limiter <$> active m3 !! n = handle_limiter <$> active m !! n).
Proof.
  intros Hok Hnd Herr Hroll. pose proof (rollback_keep _ _ _ _ Hok Hnd Herr) as Hkeep.
  apply apply_once_err in Herr as [Hrt Hact]; [|done].
  pose proof (previous_NoDup m Hok) as Hpnd.
  assert (Hprev : ∀ n c, desired_map (lm_configs m) !! n = Some c ↔
            ∃ h, active m !! n = Some h ∧ handle_config h = c).
  { intros n c. rewrite desired_map_lookup by done. by apply previous_lookup. }
  apply apply_once_ok in Hroll as [A1 A2 A3 A4 A5 A6]; [|done|].
  2: { exact Hkeep. }
  assert (Hcfg : ∀ n, handle_config <$> active m3 !! n = handle_config <$> active m !! n).
  { intros n. rewrite A3. apply option_eq. intros c. rewrite Hprev, fmap_Some. naive_solver. }
  split_and!; [done|by rewrite A2|done|].
  intros n. specialize (Hcfg n).
  destruct (active m3 !! n) as [h3|] eqn:E3, (active m !! n) as [h|] eqn:E; simplify_eq/=; [|done].
  destruct (A1 _ _ E3) as [_ Hl3], (Hok _ _ E) as [Hname Hl].
  rewrite <- Hname in Hl. f_equal.
  assert (Hin : handle_config h ∈ lm_configs m).
  { apply (previous_lookup m n); [done|]. eauto. }
  specialize (A5 _ _ Hin Hl eq_refl). rewrite Hname in A5. rewrite A5 in Hl3. congruence.
Qed.
(** A pass does not touch the runtime, and leaves the listeners filed. *)
Lemma apply_once_runtime m configs : lm_runtime (apply_once bind m configs).2 = lm_runtime m.
Proof.
  unfold apply_once. fold (keep_wanted m configs). destruct (keep_wanted_spec m configs) as (_ & K2 & _).
  destruct (start_missing bind (keep_wanted m configs) configs) as [[[]|e] m2] eqn:Es;
    apply start_missing_spec in Es as [[S1 _ _ _] _]; cbn; congruence.
Qed.

Lemma start_missing_ok m configs r m' : lm_ok m → start_missing bind m configs = (r, m') → lm_ok m'.
Proof.
  intros Hok Hs n h Hn. apply start_missing_spec in Hs as [[_ S2 S3 _] _].
  destruct (active m !! n) as [h'|] eqn:E; [|by destruct (S3 _ _ Hn E)].
  destruct (S2 _ _ E) as [Hn' Hl]. assert (h' = h) as -> by congruence.
  destruct (Hok _ _ E) as [Ht Hlim]. split; [done|]. by rewrite Hl.
Qed.

Lemma apply_once_err_ok m configs e m' :
  lm_ok (keep_wanted m configs) → apply_once bind m configs = (Err e, m') → lm_ok m'.
Proof.
  intros Hok. unfold apply_once. fold (keep_wanted m configs).
  destruct (start_missing bind (keep_wanted m configs) configs) as [[[]|e'] m2] eqn:Es; [done|].
  intros [= <- <-]. by eapply start_missing_ok.
Qed.
End apply.

(** ** One application *)

Section apply_spec.
Context (bind : N → ServerTunnelConfig → option TunnelError) (io : ErrorKind → str).

Lemma apply_ok finished m configs u m' :
  lm_ok m → NoDup (tunnel_name <$> configs) →
  apply bind io finished m configs = (Ok u, m') →
  ∃ m1, applied m m1 configs ∧ m' = set_runtime m1 (apply_tunnels (lm_runtime m) configs).
Proof.
  intros Hok Hnd. unfold apply.
  set (m0 := reap_retired finished m).
  destruct (apply_once bind m0 configs) as [[[]|e] m1] eqn:E1.
  - intros [= <- <-]. apply apply_once_ok in E1; [|done|exact (lm_ok_keep m0 configs Hok)].
    exists m1. destruct E1 as [A1 A2 A3 A4 A5 A6]. split; [by constructor|]. by rewrite A2.
  - by destruct (apply_once bind (set_limiters _ _) _) as [[[]|?] ?].
Qed.

(** Either the previous listeners are back, or the rollback failed too. *)
Lemma apply_err finished m configs e m' :
  lm_ok m → NoDup (tunnel_name <$> configs) →
  apply bind io finished m configs = (Err e, m') →
  (lm_ok m' ∧ lm_runtime m' = lm_runtime m ∧
   (∀ n, handle_config <$> active m' !! n = handle_config <$> active m !! n) ∧
   (∀ n, handle_limiter <$> active m' !! n = handle_limiter <$> active m !! n)) ∨
  (∃ e1 e2, e = InvalidConfig ("应用监听配置失败: " ++ fmt_error io e1 ++ "; 回滚也失败: "
                              ++ fmt_error io e2)) ∧
  ∃ n h k e2, active m !! n = Some h ∧ bind k (handle_config h) = Some e2.
Proof.
  intros Hok Hnd. unfold apply. set (m0 := reap_retired finished m).
  destruct (apply_once bind m0 configs) as [[[]|e1] m1] eqn:E1; [done|].
  destruct (apply_once bind (set_limiters m1 (limiters m0)) (lm_configs m0)) as [[[]|e2] m2] eqn:E2.
  - intros [= <- <-]. left. exact (rollback_ok bind m0 configs e1 m1 m2 Hok Hnd E1 E2).
  - intros [= <- <-]. right. split; [eauto|].
    apply apply_once_fails in E2 as (k & c & Hc & Hb). unfold lm_configs in Hc.
    apply list_elem_of_fmap in Hc as ([n h] & -> & Hin). apply elem_of_map_to_list in Hin. eauto 6.
Qed.
(** A failed application never loses track of a listener. *)
Lemma apply_err_ok finished m configs e m' :
  lm_ok m → NoDup (tunnel_name <$> configs) → apply bind io finished m configs = (Err e, m') →
  lm_ok m' ∧ lm_runtime m' = lm_runtime m.
Proof.
  intros Hok Hnd. unfold apply. set (m0 := reap_retired finished m).
  pose proof (apply_once_runtime bind m0 configs) as Hr1.
  destruct (apply_once bind m0 configs) as [[[]|e1] m1] eqn:E1; [done|].
  pose proof (apply_once_runtime bind (set_limiters m1 (limiters m0)) (lm_configs m0)) as Hr2.
  pose proof (rollback_keep bind m0 configs e1 m1 Hok Hnd E1) as Hkeep.
  destruct (apply_once bind (set_limiters m1 (limiters m0)) (lm_configs m0)) as [[[]|e2] m2] eqn:E2;
    cbn in Hr1, Hr2; intros [= <- <-]; (split; [|congruence]).
  - by destruct (rollback_ok bind m0 configs e1 m1 m2 Hok Hnd E1 E2).
  - exact (apply_once_err_ok bind _ _ _ _ Hkeep E2).
Qed.
End apply_spec.

(** The runtime serves the tunnels that are listened on. *)
Definition server_ok (st : server_state) : Prop :=
  lm_ok (listeners st) ∧
  ∀ n, tunnels (state (lm_runtime (listeners st))) !! n =
       tunnel_spec <$> (handle_config <$> active (listeners st) !! n).

Lemma apply_tunnels_specs rt configs n :
  NoDup (tunnel_name <$> configs) →
  tunnels (state (apply_tunnels rt configs)) !! n = tunnel_spec <$> desired_map configs !! n.
Proof.
  intros Hnd. unfold apply_tunnels, desired_map. simpl. clear Hnd.
  induction configs as [|c configs IH] using rev_ind; [simpl; by rewrite !lookup_empty|].
  rewrite !foldl_app. cbn [foldl]. destruct (decide (tunnel_name c = n)) as [->|Hne].
  - by rewrite !lookup_insert_eq.
  - by rewrite !lookup_insert_ne.
Qed.

Lemma apply_server_ok bind io finished m configs u m' :
  lm_ok m → NoDup (tunnel_name <$> configs) →
  apply bind io finished m configs = (Ok u, m') →
  lm_ok m' ∧ (∀ n, handle_config <$> active m' !! n = desired_map configs !! n) ∧
  ∀ n, tunnels (state (lm_runtime m')) !! n = tunnel_spec <$> (handle_config <$> active m' !! n).
Proof.
  intros Hok Hnd H. apply apply_ok in H as (m1 & [A1 A2 A3 A4 A5 A6] & ->); [|done..].
  split_and!; [exact A1|exact A3|]. intros n.
  transitivity (tunnel_spec <$> desired_map configs !! n);
    [exact (apply_tunnels_specs (lm_runtime m) configs n Hnd)|]. simpl. by rewrite A3.
Qed.

Section reload_spec.
Context (sha256 : str → str) (toml_string : ServerConfig → result str str).
Context (bind : N → ServerTunnelConfig → option TunnelError) (io : ErrorKind → str).

(** The listeners and tunnels of the two states agree. *)
Definition same_service (st st' : server_state) : Prop :=
  groups st' = groups st ∧ endpoint st' = endpoint st ∧
  (∀ n, handle_config <$> active (listeners st') !! n = handle_config <$> active (listeners st) !! n) ∧
  (∀ n, tunnels (state (lm_runtime (listeners st'))) !! n =
        tunnels (state (lm_runtime (listeners st))) !! n) ∧
  rt_credentials (state (lm_runtime (listeners st'))) = rt_credentials (state (lm_runtime (listeners st))).

(** What the state is once a configuration is in force. *)
Definition in_force (c : ServerConfig) (st' : server_state) : Prop :=
  qe_config (endpoint st') = quic c ∧ groups st' = credentials c ∧
  (∀ n, handle_config <$> active (listeners st') !! n = desired_map (server_tunnels c) !! n) ∧
  rt_credentials (state (lm_runtime (listeners st'))) = digest_map sha256 (credentials c).

Lemma report_failed_service st c e :
  same_service st (report_failed sha256 toml_string st c e) ∧
  (lm_ok (listeners st) → server_ok st → server_ok (report_failed sha256 toml_string st c e)).
Proof.
  unfold report_failed, on_runtime, report_config_failed.
  destruct (config_fingerprint sha256 toml_string c); simpl; done.
Qed.

Lemma server_ok_report st f :
  (∀ rt, state (f rt) = state rt) → server_ok st → server_ok (on_runtime st f).
Proof. intros Hf [H1 H2]. split; [exact H1|]. intros n. simpl. rewrite Hf. apply H2. Qed.

Lemma report_failed_state config e rt :
  state (match report_config_failed sha256 toml_string rt config e with Ok rt' => rt' | Err _ => rt end)
  = state rt.
Proof. unfold report_config_failed. by destruct (config_fingerprint sha256 toml_string config). Qed.
Lemma report_applied_state config rt :
  state (match report_config_applied sha256 toml_string rt config with Ok rt' => rt' | Err _ => rt end)
  = state rt.
Proof. unfold report_config_applied. by destruct (config_fingerprint sha256 toml_string config). Qed.

Lemma report_failed_same st0 st c e :
  same_service st0 st → same_service st0 (report_failed sha256 toml_string st c e).
Proof.
  intros (H1 & H2 & H3 & H4 & H5). unfold same_service, report_failed, on_runtime. simpl.
  rewrite report_failed_state. done.
Qed.

Lemma quic_prepare_none env q c : quic_prepare env q c = Ok None → c = qe_config q.
Proof.
  unfold quic_prepare. case_bool_decide; [done|].
  destruct (env_credentials env c); simpl; [|done]. case_bool_decide; simpl; [|done].
  by destruct (env_udp_bind env _).
Qed.
Lemma quic_prepare_some env q c u : quic_prepare env q c = Ok (Some u) → qu_config u = c.
Proof.
  unfold quic_prepare. case_bool_decide; [done|].
  destruct (env_credentials env c); simpl; [|done]. case_bool_decide; simpl.
  - destruct (env_udp_bind env _); simpl; [|done]. by intros [= <-].
  - by intros [= <-].
Qed.
Lemma quic_apply_config env q u q' : quic_apply env q u = Ok q' → qe_config q' = qu_config u.
Proof. unfold quic_apply. rewrite bind_unit_ok. by intros [_ [= <-]]. Qed.

(** Re-applying the configurations of the active listeners gives them back. *)
Lemma desired_previous m n : lm_ok m →
  desired_map (lm_configs m) !! n = handle_config <$> active m !! n.
Proof.
  intros Hok. apply option_eq. intros c.
  rewrite desired_map_lookup by (by apply previous_NoDup). rewrite previous_lookup by done.
  rewrite fmap_Some. naive_solver.
Qed.

Lemma apply_credentials_of finished m configs u m' :
  lm_ok m → NoDup (tunnel_name <$> configs) → apply bind io finished m configs = (Ok u, m') →
  rt_credentials (state (lm_runtime m')) = rt_credentials (state (lm_runtime m)).
Proof.
  intros Hok Hnd H. destruct (apply_ok _ _ _ _ _ _ _ Hok Hnd H) as (m1 & _ & ->).
  reflexivity.
Qed.

(** Some active listener's address could not be bound again. *)
Definition bind_lost (st : server_state) : Prop :=
  ∃ n h k e, active (listeners st) !! n = Some h ∧ bind k (handle_config h) = Some e.

Lemma reload_apply_failed env st c e m :
  server_ok st → NoDup (tunnel_name <$> server_tunnels c) →
  apply bind io (env_finished env) (listeners st) (server_tunnels c) = (Err e, m) →
  let st' := report_failed sha256 toml_string (with_listeners st m) c (fmt_error io e) in
  (same_service st st' ∧ server_ok st') ∨ bind_lost st.
Proof.
  intros [Hok Hrt] Hnd H.
  destruct (apply_err _ _ _ _ _ _ _ Hok Hnd H) as [(A1 & A2 & A3 & _)|(_ & Hl)].
  - left. split.
    + apply report_failed_same. split_and!; simpl; try done; by rewrite A2.
    + apply server_ok_report; [intros; apply report_failed_state|].
      split; [done|]. intros n. simpl. by rewrite A2, A3.
  - right. destruct Hl as (n & h & k & e2 & ? & ?). by exists n, h, k, e2.
Qed.

Lemma reload_rolled_back finished st c m u m' :
  server_ok st → NoDup (tunnel_name <$> server_tunnels c) →
  apply bind io finished (listeners st) (server_tunnels c) = (Ok tt, m) →
  apply bind io finished m (lm_configs (listeners st)) = (Ok u, m') →
  same_service st (with_listeners st m') ∧ server_ok (with_listeners st m').
Proof.
  intros [Hok Hrt] Hnd H1 H2. pose proof (previous_NoDup _ Hok) as Hp.
  pose proof (apply_server_ok _ _ _ _ _ _ _ Hok Hnd H1) as (Hok1 & _ & _).
  pose proof (apply_credentials_of _ _ _ _ _ Hok Hnd H1) as Hc1.
  pose proof (apply_server_ok _ _ _ _ _ _ _ Hok1 Hp H2) as (Hok2 & Ha2 & Ht2).
  pose proof (apply_credentials_of _ _ _ _ _ Hok1 Hp H2) as Hc2.
  assert (Ha : ∀ n, handle_config <$> active m' !! n = handle_config <$> active (listeners st) !! n)
    by (intros n; rewrite Ha2; by apply desired_previous).
  split; [|by split]. split_and!; simpl; try done.
  - intros n. by rewrite Ht2, Ha, Hrt.
  - by rewrite Hc2.
Qed.

Lemma rollback_lost finished st m e m' :
  apply bind io finished m (lm_configs (listeners st)) = (Err e, m') → bind_lost st.
Proof.
  unfold apply. destruct (apply_once bind (reap_retired _ m) (lm_configs _)) as [[[]|e3] m3] eqn:E3; [done|]. intros _.
  apply apply_once_fails in E3 as (k & d & Hd & Hb). unfold lm_configs in Hd.
  apply list_elem_of_fmap in Hd as ([n h] & -> & Hin). apply elem_of_map_to_list in Hin. by exists n, h, k, e3.
Qed.

Lemma reload_outcome env loaded st :
  server_ok st → (∀ c, loaded = Ok c → wf_server c) →
  let st' := reload_server sha256 toml_string bind io env loaded st in
  (∃ c, loaded = Ok c ∧ in_force c st' ∧ server_ok st') ∨
  (same_service st st' ∧ server_ok st') ∨
  (groups st' = groups st ∧ endpoint st' = endpoint st ∧ bind_lost st).
Proof.
  intros Hok Hwf. unfold reload_server. destruct loaded as [c|e].
  2: { right; left. split; [done|]. apply server_ok_report; done. }
  specialize (Hwf c eq_refl). destruct Hwf as [_ _ _ _ _ _ Hnd _ _ _].
  destruct (quic_prepare env (endpoint st) (quic c)) as [upd|e] eqn:Eq.
  2: { right; left. split; [by apply report_failed_same|].
       apply server_ok_report; [intros; apply report_failed_state|done]. }
  destruct (apply bind io (env_finished env) (listeners st) (server_tunnels c)) as [[[]|e] m] eqn:Ea.
  2: { pose proof (reload_apply_failed env st c e m Hok Hnd Ea) as [?|?]; [by right; left|].
       right; right. done. }
  pose proof (apply_server_ok _ _ _ _ _ _ _ (proj1 Hok) Hnd Ea) as (Hok1 & Ha1 & Ht1).
  destruct (match upd with Some u => _ | None => _ end) as [q|e] eqn:Equ.
  - left. exists c. split; [done|]. unfold report_applied.
    destruct (apply_credentials_spec sha256 (lm_runtime m) (credentials c)) as [l Hca].
    split; [split_and!|apply server_ok_report; [intros; apply report_applied_state|]].
    + simpl. destruct upd as [u|]; [by rewrite (quic_apply_config _ _ _ _ Equ), (quic_prepare_some _ _ _ _ Eq)|].
      simplify_eq. by apply quic_prepare_none in Eq.
    + done.
    + exact Ha1.
    + simpl. rewrite report_applied_state. apply Hca.
    + split; [exact Hok1|]. intros n. simpl. rewrite (ca_tunnels _ _ _ _ Hca). apply Ht1.
  - destruct upd as [u|]; [|done]. simpl.
    destruct (apply bind io (env_finished env) m (lm_configs (listeners st))) as [[u'|e2] m'] eqn:Er.
    + right; left. destruct (reload_rolled_back _ _ _ _ _ _ Hok Hnd Ea Er) as [Hs Hok2].
      split; [by apply report_failed_same|].
      apply server_ok_report; [intros; apply report_failed_state|done].
    + right; right. split_and!; [done..|]. by eapply rollback_lost.
Qed.
End reload_spec.

Lemma swap_remove_spec l i t :
  l !! i = Some t → t :: swap_remove l i ≡ₚ l ∧ take i (swap_remove l i) = take i l.
Proof.
  intros Hi. pose proof (lookup_lt_Some _ _ _ Hi) as Hlt. unfold swap_remove.
  destruct l as [|y l' _] using rev_ind; [done|]. rewrite last_snoc.
  rewrite length_app in Hlt. simpl in Hlt.
  destruct (decide (i = length l')) as [->|Hne].
  - rewrite list_lookup_middle in Hi by done. simplify_eq.
    rewrite list_insert_id by (by apply list_lookup_middle).
    rewrite removelast_last, (take_ge l'), (take_app_length l' [t]) by lia. split; [|done].
    by rewrite Permutation_cons_append.
  - rewrite lookup_app_l in Hi by lia. rewrite insert_app_l, removelast_last by lia.
    rewrite take_insert_ge, take_app_le by lia. split; [|done].
    pose proof (take_drop_middle l' i t Hi) as Hm. rewrite insert_take_drop by lia.
    transitivity ((take i l' ++ t :: drop (S i) l') ++ [y]); [|by rewrite Hm].
    rewrite <- (assoc_L (++)), <- !Permutation_middle. simpl. rewrite <- Permutation_middle, app_nil_r.
    apply perm_swap.
Qed.

Lemma reap_loop_perm finished fuel : ∀ i l,
  (length l ≤ i + fuel)%nat → Forall (λ t, finished t = false) (take i l) →
  reap_loop finished fuel i l ≡ₚ filter (λ t, finished t = false) l.
Proof.
  assert (Hall : ∀ l, Forall (λ t, finished t = false) l → filter (λ t, finished t = false) l = l).
  { intros l Hl. induction Hl; [done|]. by rewrite filter_cons_True, IHHl. }
  induction fuel as [|fuel IH]; intros i l Hlen Hf; cbn [reap_loop].
  { rewrite take_ge in Hf by lia. by rewrite Hall. }
  destruct (l !! i) as [t|] eqn:Ei.
  2: { apply lookup_ge_None in Ei. rewrite take_ge in Hf by lia. by rewrite Hall. }
  destruct (finished t) eqn:Et.
  - destruct (swap_remove_spec l i t Ei) as [Hp Htk].
    pose proof (Permutation_length Hp) as Hl. simpl in Hl.
    rewrite IH; [|lia|by rewrite Htk].
    transitivity (filter (λ t, finished t = false) (t :: swap_remove l i)); [|by rewrite Hp].
    rewrite filter_cons_False by congruence. done.
  - apply IH; [lia|]. rewrite (take_S_r _ _ t Ei). apply Forall_app. by repeat constructor.
Qed.

(** ** A concrete reload, for the witnesses *)

Definition w_tunnel2 : ServerTunnelConfig :=
  {| tunnel_name := "web"; tunnel_group := "office"; tunnel_kind := Tcp; tunnel_bind := loop_addr 9090;
     local_ip := "127.0.0.1"; local_port := Some 80; limit_bps := None; max_connections := 8;
     max_udp_sessions := 8; udp_idle_seconds := 60 |}.
Definition w_quic : ServerQuicConfig :=
  {| quic_bind := loop_addr 7000; quic_certificate := [Normal "c.pem"];
     quic_private_key := [Normal "k.pem"] |}.
Definition w_server (t : ServerTunnelConfig) : ServerConfig :=
  {| quic := w_quic;
     server_groups := [{| group_name := "office"; group_key := replicate 32 "k"%char |}];
     server_tunnels := [t] |}.
Definition w_env : reload_env :=
  {| env_credentials := λ _, Ok (lit "cert"); env_udp_bind := λ _, Ok tt; env_rebind := λ _, Ok tt;
     env_finished := λ _, true |}.
Definition w_io (e : ErrorKind) : str := "io".
Definition w_state : server_state :=
  {| groups := []; endpoint := {| qe_config := w_quic; qe_credentials := "cert" |};
     listeners := ListenerManager_new TunnelRuntime_new |}.

Lemma w_state_ok : server_ok w_state.
Proof. split; [intros n h; done|]. intros n. done. Qed.

Lemma w_server_wf t : wf_server (w_server t) ↔ ServerConfig_validate (w_server t) = Ok tt.
Proof. symmetry. apply server_validate_iff. Qed.

(** ** Properties *)

(** Applying a configuration either leaves exactly the configured
    listeners running, each under its own name with its own limiter, or (when
    an address cannot be bound) puts back the listeners that ran before, with
    the limiters they had and the runtime untouched; only if one of those
    cannot be bound again does it report that the rollback failed too. *)
Theorem listeners_apply_spec bind io finished m configs :
  lm_ok m → NoDup (tunnel_name <$> configs) →
  match apply bind io finished m configs with
  | (Ok _, m') => lm_ok m' ∧
      (∀ n, handle_config <$> active m' !! n = desired_map configs !! n) ∧
      (∀ n, tunnels (state (lm_runtime m')) !! n = tunnel_spec <$> desired_map configs !! n)
  | (Err e, m') =>
      (lm_ok m' ∧ lm_runtime m' = lm_runtime m ∧
       (∀ n, handle_config <$> active m' !! n = handle_config <$> active m !! n) ∧
       (∀ n, handle_limiter <$> active m' !! n = handle_limiter <$> active m !! n)) ∨
      ((∃ e1 e2, e = InvalidConfig ("应用监听配置失败: " ++ fmt_error io e1 ++ "; 回滚也失败: "
                                    ++ fmt_error io e2)) ∧
       ∃ n h k e2, active m !! n = Some h ∧ bind k (handle_config h) = Some e2)
  end.
Proof.
  intros Hok Hnd. destruct (apply bind io finished m configs) as [[u|e] m'] eqn:E.
  - destruct (apply_server_ok _ _ _ _ _ _ _ Hok Hnd E) as (H1 & H2 & H3).
    split_and!; [done..|]. intros n. by rewrite H3, H2.
  - exact (apply_err _ _ _ _ _ _ _ Hok Hnd E).
Qed.

Lemma listeners_apply_spec_witness :
  let bind := λ (_ : N) (_ : ServerTunnelConfig), @None TunnelError in
  let r := apply bind w_io (λ _, true) (ListenerManager_new TunnelRuntime_new) [w_tunnel] in
  lm_ok r.2 ∧ ∀ n, handle_config <$> active r.2 !! n = desired_map [w_tunnel] !! n.
Proof.
  intros bind r.
  assert (Hnd : NoDup (tunnel_name <$> [w_tunnel])) by apply NoDup_singleton.
  assert (Hok : lm_ok (ListenerManager_new TunnelRuntime_new)) by (intros n h; done).
  pose proof (listeners_apply_spec bind w_io (λ _, true) _ _ Hok Hnd) as H.
  fold r in H. assert (Hr : is_ok r.1 = true) by (by vm_compute).
  destruct r as [[u|e] m']; [|done]. split; [apply H|apply H].
Defined.

(** A listener whose address, kind, limit and bounds are unchanged is not
    restarted: it keeps its task and its limiter whatever else changes; and a
    tunnel whose limit is unchanged keeps its limiter even when its listener
    has to be restarted, so a reload never refills the budget. *)
Theorem unchanged_listener_kept bind io finished m configs u m' :
  lm_ok m → NoDup (tunnel_name <$> configs) →
  apply bind io finished m configs = (Ok u, m') →
  (∀ n h c, active m !! n = Some h → desired_map configs !! n = Some c →
     same_listener (handle_config h) c = true →
     ∃ h', active m' !! n = Some h' ∧ handle_id h' = handle_id h ∧
           handle_limiter h' = handle_limiter h) ∧
  (∀ n h c, active m !! n = Some h → desired_map configs !! n = Some c →
     limit_bps c = limit_bps (handle_config h) →
     handle_limiter <$> active m' !! n = Some (handle_limiter h)) ∧
  (∀ n, is_Some (limiters m' !! n) → is_Some (desired_map configs !! n)).
Proof.
  intros Hok Hnd H.
  destruct (apply_ok _ _ _ _ _ _ _ Hok Hnd H) as (m1 & [A1 A2 A3 A4 A5 A6] & ->). simpl.
  split_and!; [exact A4| |exact A6]. intros n h c Hn Hc Hl.
  apply desired_map_lookup in Hc as Hc'; [|done]. destruct Hc' as [Hin Hname].
  destruct (Hok _ _ Hn) as [_ Hlim]. rewrite <- Hname in Hlim.
  specialize (A5 _ _ Hin Hlim (eq_sym Hl)). rewrite Hname in A5.
  specialize (A3 n). rewrite Hc in A3. apply fmap_Some in A3 as (h' & Hh' & ->).
  rewrite Hh'. simpl. destruct (A1 _ _ Hh') as [_ Hl']. rewrite A5 in Hl'. congruence.
Qed.

Lemma unchanged_listener_kept_witness :
  let bind := λ (_ : N) (_ : ServerTunnelConfig), @None TunnelError in
  let m := (apply bind w_io (λ _, true) (ListenerManager_new TunnelRuntime_new) [w_tunnel]).2 in
  let m' := (apply bind w_io (λ _, true) m [w_tunnel2]).2 in
  handle_limiter <$> active m' !! lit "web" = Some 0.
Proof.
  intros bind m m'.
  assert (Hnd : ∀ t, NoDup (tunnel_name <$> [t])) by (intros; apply NoDup_singleton).
  assert (Hok0 : lm_ok (ListenerManager_new TunnelRuntime_new)) by (intros n h; done).
  assert (Hok : lm_ok m).
  { destruct (apply bind w_io (λ _, true) (ListenerManager_new TunnelRuntime_new) [w_tunnel]) as [[u|e] m1] eqn:E.
    - exact (proj1 (apply_server_ok _ _ _ _ _ _ _ Hok0 (Hnd _) E)).
    - apply (f_equal (λ p, is_ok p.1)) in E. vm_compute in E. discriminate E. }
  destruct (apply bind w_io (λ _, true) m [w_tunnel2]) as [[u|e] m1] eqn:E.
  - destruct (unchanged_listener_kept bind w_io (λ _, true) m [w_tunnel2] u m1 Hok (Hnd _) E)
      as (_ & H & _).
    exact (H "web" {| handle_config := w_tunnel; handle_id := 1; handle_limiter := 0 |} w_tunnel2
             eq_refl eq_refl eq_refl).
  - apply (f_equal (λ p, is_ok p.1)) in E. vm_compute in E. discriminate E.
Defined.

(** A reload is all or nothing: afterwards either the whole new
    configuration is in force (QUIC entry, group keys, credentials, listeners
    and tunnels), or the entry, the keys, the credentials, the listeners and
    the tunnels are those of before.  The one exception is a listener whose
    own address cannot be bound again, and then still neither the entry nor
    the keys have changed. *)
Theorem reload_all_or_nothing sha256 toml_string bind io env loaded st :
  server_ok st → (∀ c, loaded = Ok c → wf_server c) →
  let st' := reload_server sha256 toml_string bind io env loaded st in
  (∃ c, loaded = Ok c ∧ in_force sha256 c st' ∧ server_ok st') ∨
  (same_service st st' ∧ server_ok st') ∨
  (groups st' = groups st ∧ endpoint st' = endpoint st ∧ bind_lost bind st).
Proof. apply reload_outcome. Qed.

Lemma reload_all_or_nothing_witness :
  let bind := λ (_ : N) (_ : ServerTunnelConfig), @None TunnelError in
  let st' := reload_server (λ s, s) w_toml bind w_io w_env (Ok (w_server w_tunnel)) w_state in
  server_ok st' ∨ bind_lost bind w_state.
Proof.
  intros bind st'.
  assert (Hwf : ∀ c, @Ok TunnelError _ (w_server w_tunnel) = Ok c → wf_server c).
  { intros c [= <-]. apply w_server_wf. by vm_compute. }
  destruct (reload_all_or_nothing (λ s, s) w_toml bind w_io w_env (Ok (w_server w_tunnel)) w_state
    w_state_ok Hwf) as [(c & _ & _ & H)|[[_ H]|(_ & _ & H)]]; [left; exact H|left; exact H|right; exact H].
Defined.

(** Reaping the stopped listeners ends within one pass over the list and
    leaves exactly the tasks that have not finished, each once. *)
Theorem reap_retired_spec finished m :
  retired (reap_retired finished m) ≡ₚ filter (λ t, finished t = false) (retired m) ∧
  active (reap_retired finished m) = active m ∧ limiters (reap_retired finished m) = limiters m.
Proof. split_and!; [|done|done]. apply reap_loop_perm; [simpl; lia|by constructor]. Qed.
