(* ===== verification/ServerSession.v ===== *)
(** * ServerSession: the handshake and the control session of
    [gaterust-tunnel/src/server/mod.rs], the proofs of [bootstrap.rs] and the
    close codes of [close.rs]

    HMAC-SHA256 and SHA-256 are parameters; [new_from_slice] fails for the
    keys [hmac_key_ok] refuses.  What the peer and the network do is in the
    arguments: the frames that arrive and whether each write succeeds. *)

From S2P Require Import Prelude RustStr Net TunnelConfig Protocol Identity TunnelRuntime.

(** ** Certificate bootstrap proofs ([bootstrap.rs]) *)

Definition NONCE_LENGTH : nat := 32.
Definition PROOF_LENGTH : nat := 32.
Definition CLIENT_PROOF_DOMAIN : str := "gaterust/certificate-bootstrap/client/v1".
Definition SERVER_PROOF_DOMAIN : str := "gaterust/certificate-bootstrap/server/v1".

Class Crypto := {
  sha256 : str → str;
  hmac : str → str → str;
  hmac_key_ok : str → bool;
  sha256_length : ∀ s, length (sha256 s) = 32%nat }.

Section bootstrap.
Context `{Crypto}.

(** The bytes [update_proof] feeds the MAC. *)
Definition update_proof (domain : str) (version : N) (client_nonce : str)
  (server_nonce : option str) (certificate : str) : str :=
  domain ++ to_be 2 version ++ client_nonce ++ default [] server_nonce ++ sha256 certificate.

Definition proof (key domain : str) (version : N) (client_nonce : str) (server_nonce : option str)
  (certificate : str) : Result str :=
  if hmac_key_ok key
  then Ok (hmac key (update_proof domain version client_nonce server_nonce certificate))
  else Err (Protocol "初始化证书引导密钥证明失败").

Definition verify (key domain : str) (version : N) (client_nonce : str) (server_nonce : option str)
  (certificate candidate : str) : bool :=
  hmac_key_ok key &&
  bool_decide (hmac key (update_proof domain version client_nonce server_nonce certificate) = candidate).

Definition client_proof (key : str) (version : N) (client_nonce certificate : str) : Result str :=
  proof key CLIENT_PROOF_DOMAIN version client_nonce None certificate.
Definition server_proof (key : str) (version : N) (client_nonce server_nonce certificate : str)
  : Result str :=
  proof key SERVER_PROOF_DOMAIN version client_nonce (Some server_nonce) certificate.
Definition verify_client_proof (key : str) (version : N) (client_nonce certificate candidate : str)
  : bool := verify key CLIENT_PROOF_DOMAIN version client_nonce None certificate candidate.
Definition verify_server_proof (key : str) (version : N)
  (client_nonce server_nonce certificate candidate : str) : bool :=
  verify key SERVER_PROOF_DOMAIN version client_nonce (Some server_nonce) certificate candidate.

(** ** [bootstrap_certificate] *)

(** The first group whose key verifies the request answers it. *)
Fixpoint find_proof (groups : list (str * GroupSecret)) (request : CertificateBootstrapRequest)
  (server_nonce certificate : str) : option (Result CertificateBootstrapResponse) :=
  match groups with
  | [] => None
  | (_, secret) :: groups =>
      if verify_client_proof secret (boot_version request) (boot_client_nonce request)
           certificate (boot_proof request)
      then Some (p ← server_proof secret (boot_version request) (boot_client_nonce request)
                       server_nonce certificate;
                 Ok (BootAccepted server_nonce p))
      else find_proof groups request server_nonce certificate
  end.

(** The response written and what the handler returns once it is written. *)
Definition bootstrap_certificate (request : CertificateBootstrapRequest)
  (groups : list (str * GroupSecret)) (server_nonce certificate : str)
  : Result (CertificateBootstrapResponse * Result unit) :=
  let accepted := if boot_version request =? PROTOCOL_VERSION
                  then find_proof groups request server_nonce certificate else None in
  match accepted with
  | Some (Err e) => Err e
  | Some (Ok response) => Ok (response, Ok tt)
  | None => Ok (BootRejected "密钥验证失败", Err (Protocol "证书引导密钥验证失败"))
  end.
End bootstrap.

(** ** Authentication *)

(** How the handler goes on: with a rejection, of which [sent] is the result
    of [reject_authentication] and [ret] its own; with an answer that the client
    receives; or with an answer that could not be written. *)
Inductive handshake_end :=
  | AuthRejected (hello : ServerHello) (sent ret : Result unit)
  | AuthAccepted (hello : ServerHello) (group : str)
  | AuthLost (e : TunnelError).

(** What happens around [authenticate]: the two stages of sending a rejection
    and the writing of the answer, which may fail, and what the rest of the
    server does to the runtime before the registration, between it and the
    catalogue, and until the answer is written. *)
Record auth_env := {
  reject_written : Result unit;
  reject_finished : result str unit;
  answer_written : Result unit;
  others_before : TunnelRuntime → TunnelRuntime;
  others_registered : TunnelRuntime → TunnelRuntime;
  others_answer : TunnelRuntime → TunnelRuntime }.
(** Nothing fails and nobody interferes. *)
Definition calm : auth_env :=
  {| reject_written := Ok tt; reject_finished := Ok tt; answer_written := Ok tt;
     others_before := λ rt, rt; others_registered := λ rt, rt; others_answer := λ rt, rt |}.

Section authenticate.
Context (sha256 : str → str).

Definition valid_hello (hello : ClientHello) : bool :=
  (hello_version hello =? PROTOCOL_VERSION)
  && (utf8_valid (hello_key hello) && is_ok (validate_group_key (hello_key hello)))
  && is_ok (validate_device_id (hello_device_id hello))
  && is_ok (validate_declarations (hello_services hello)).

Fixpoint find_group (groups : list (str * GroupSecret)) (key : str) : option (str * str) :=
  match groups with
  | [] => None
  | (name, secret) :: groups =>
      if bool_decide (secret = key) then Some (name, credential_digest sha256 secret)
      else find_group groups key
  end.

Definition rejection (status : AuthenticationStatus) (message : str) : ServerHello :=
  {| sh_status := status; sh_message := message; sh_tunnels := [] |}.

(** [reject_authentication]: the connection is closed only when the rejection
    has been written and its stream finished. *)
Definition reject_authentication (env : auth_env) (rt : TunnelRuntime) (conn : Connection)
  : Result unit * TunnelRuntime :=
  match reject_written env with
  | Err e => (Err e, rt)
  | Ok _ =>
  match reject_finished env with
  | Err text => (Err (Protocol ("结束认证响应流失败: " ++ text)), rt)
  | Ok _ => (Ok tt, close_connection rt conn AuthenticationFailed "authentication failed")
  end end.

(** A rejection, after which the handler returns [ret] unless sending failed. *)
Definition rejected_with (env : auth_env) (rt : TunnelRuntime) (conn : Connection)
  (status : AuthenticationStatus) (message : str) (ret : Result unit) : handshake_end * TunnelRuntime :=
  let '(sent, rt) := reject_authentication env rt conn in
  (AuthRejected (rejection status message) sent (match sent with Ok _ => ret | Err e => Err e end), rt).

(** Everything [authenticate] does between the client's hello and the control
    loop; the locks of the groups and of the runtime are taken one after the
    other. *)
Definition authenticate (rt : TunnelRuntime) (groups : list (str * GroupSecret)) (id : N)
  (conn : Connection) (now : N) (hello : ClientHello) (env : auth_env)
  : handshake_end * TunnelRuntime :=
  let authenticated := if valid_hello hello then find_group groups (hello_key hello) else None in
  let rt := others_before env rt in
  match authenticated with
  | None =>
      rejected_with env rt conn Rejected "认证失败" (Err (Protocol "密钥或设备信息无效"))
  | Some (group, digest) =>
      match register rt id (hello_device_id hello) group digest conn (hello_services hello) now with
      | (Err DeviceIdConflict, rt) =>
          rejected_with env rt conn DeviceIdConflictStatus "设备 ID 已在线" (Ok tt)
      | (Err Capacity, rt) =>
          rejected_with env rt conn ServerBusy "在线客户端数量已达上限" (Ok tt)
      | (Err CredentialsChanged, rt) =>
          rejected_with env rt conn Rejected "认证凭据已变更，请重试" (Ok tt)
      | (Ok _, rt) =>
          let rt := others_registered env rt in
          let tunnels := catalog rt id in
          let rt := others_answer env rt in
          match answer_written env with
          | Ok _ => (AuthAccepted {| sh_status := Accepted; sh_message := []; sh_tunnels := tunnels |} group, rt)
          | Err e => (AuthLost e, unregister rt id)
          end
      end
  end.
End authenticate.

(** ** The control session *)

(** The outcome of reading or writing a frame on the session's streams: on an
    error, whether the connection has a close reason by then. *)
Inductive io_outcome := IoOk | IoFailed (closed : bool) (e : TunnelError).

(** One turn of the [select!] loop: the branch that became ready. *)
Inductive session_event :=
  | EvClosed
  | EvRequest (request_id : N) (services : list ServiceDeclaration) (write : io_outcome)
  | EvReadError (closed : bool) (e : TunnelError)
  | EvChanged (write : io_outcome).

(** Why the loop ends: the connection, or the control channel. *)
Inductive SessionEnd := EndConnection | EndControl (e : TunnelError).

(** The connection's own close reason wins over the stream's error. *)
Definition session_end (closed : bool) (fallback : TunnelError) : SessionEnd :=
  if closed then EndConnection else EndControl fallback.

Section session.
Context (id : N) (conn : Connection).

(** A frame that is written, or the end of the loop. *)
Definition send_frame (rt : TunnelRuntime) (frame : ServerControlMessage) (w : io_outcome)
  : list ServerControlMessage * TunnelRuntime * option SessionEnd :=
  match w with
  | IoOk => ([frame], rt, None)
  | IoFailed closed e => ([], rt, Some (session_end closed e))
  end.

(** The frames written, the new runtime, and the end of the loop if any. *)
Definition session_turn (rt : TunnelRuntime) (ev : session_event)
  : list ServerControlMessage * TunnelRuntime * option SessionEnd :=
  match ev with
  | EvClosed => ([], rt, Some EndConnection)
  | EvReadError closed e => ([], rt, Some (session_end closed e))
  | EvChanged w => send_frame rt (TunnelSnapshot (catalog rt id)) w
  | EvRequest request_id services w =>
      match validate_declarations services with
      | Err e => ([], rt, Some (EndControl e))
      | Ok _ =>
          match update_services rt id services with
          | (None, rt) => ([], rt, Some (EndControl (Protocol "客户端会话已注销")))
          | (Some _, rt) => send_frame rt (ServicesApplied request_id (catalog rt id)) w
          end
      end
  end.

(** After the loop: the control failure closes the connection, and the session
    is unregistered whatever the reason. *)
Definition session_close (rt : TunnelRuntime) (e : SessionEnd) : TunnelRuntime :=
  let rt := match e with
            | EndControl _ => close_connection rt conn ServerConnectionError
                                "server control channel failed"
            | EndConnection => rt
            end in
  unregister rt id.

(** The loop, interleaved with what the rest of the server does to the shared
    runtime between two turns. *)
Fixpoint session_loop (rt : TunnelRuntime)
  (events : list ((TunnelRuntime → TunnelRuntime) * session_event))
  : list ServerControlMessage * TunnelRuntime * bool :=
  match events with
  | [] => ([], rt, false)
  | (others, ev) :: events =>
      match session_turn (others rt) ev with
      | (frames, rt, Some e) => (frames, session_close rt e, true)
      | (frames, rt, None) =>
          let '(more, rt, ended) := session_loop rt events in (frames ++ more, rt, ended)
      end
  end.
End session.

(** ** Close codes *)

Inductive ConnectionError := LocallyClosed | ApplicationClosed (code : N) | OtherConnectionError.

Definition matches_error (c : ApplicationCloseCode) (e : ConnectionError) : bool :=
  match e with ApplicationClosed code => code =? close_code_value c | _ => false end.

Definition is_expected_client_close (e : ConnectionError) : bool :=
  match e with LocallyClosed => true | _ => false end
  || matches_error ClientReconfigure e || matches_error ClientShutdown e
  || matches_error CredentialCheckComplete e.

(** ** Lemmas *)

Lemma domain_length : length CLIENT_PROOF_DOMAIN = length SERVER_PROOF_DOMAIN.
Proof. by vm_compute. Qed.

Lemma to_be2_inj v w : v <= u16_max → w <= u16_max → to_be 2 v = to_be 2 w → v = w.
Proof.
  intros Hv Hw Heq. apply (f_equal of_be) in Heq.
  rewrite !of_be_to_be in Heq by (change (256 ^ N.of_nat 2) with 65536; unfold u16_max in *; lia).
  done.
Qed.

Lemma find_group_Some sha groups key name d :
  find_group sha groups key = Some (name, d) →
  (name, key) ∈ groups ∧ d = credential_digest sha key.
Proof.
  induction groups as [|[n s] groups IH]; simpl; [done|]. case_bool_decide; subst.
  - intros [= <- <-]. split; [left|done].
  - intros Hf. destruct (IH Hf). split; [by right|done].
Qed.

Lemma find_group_None sha groups key :
  find_group sha groups key = None ↔ key ∉ groups.*2.
Proof.
  induction groups as [|[n s] groups IH]; simpl; [set_solver|]. case_bool_decide; subst; [set_solver|].
  rewrite IH. set_solver.
Qed.

Lemma unregister_gone rt id : sessions (state (unregister rt id)) !! id = None.
Proof.
  unfold unregister. destruct (sessions (state rt) !! id) eqn:E; [|done].
  simpl. by rewrite lookup_delete_eq.
Qed.

Lemma unregister_owns rt id n : owners_ok (state rt) → ¬ owned_by (unregister rt id) id n.
Proof.
  intros Hok (o & Ho & Hid). unfold unregister in Ho.
  destruct (sessions (state rt) !! id) eqn:E.
  - by apply release_lookup in Ho as [_ ?].
  - apply Hok, valid_owner_true in Ho as (spec & s & _ & Hs & _). congruence.
Qed.

Section bootstrap_proofs.
Context `{Crypto}.

Lemma verify_proof key domain v cn sn cert c :
  verify key domain v cn sn cert c = true ↔ proof key domain v cn sn cert = Ok c.
Proof. unfold verify, proof. destruct (hmac_key_ok key); simpl; bsimpl; naive_solver. Qed.

Lemma find_proof_Some groups request sn cert r :
  find_proof groups request sn cert = Some r →
  ∃ name secret, (name, secret) ∈ groups ∧
    client_proof secret (boot_version request) (boot_client_nonce request) cert = Ok (boot_proof request) ∧
    ∃ p, r = Ok (BootAccepted sn p) ∧
         server_proof secret (boot_version request) (boot_client_nonce request) sn cert = Ok p.
Proof.
  induction groups as [|[n s] groups IH]; cbn [find_proof]; [done|].
  destruct (verify_client_proof _ _ _ _ _) eqn:E.
  - intros [= <-]. exists n, s. split; [left|]. apply verify_proof in E as E'. split; [done|].
    unfold verify_client_proof, verify in E. apply andb_true_iff in E as [Hk _].
    unfold server_proof, proof. rewrite Hk. simpl. eauto.
  - intros Hr. destruct (IH Hr) as (n' & s' & ? & ?). exists n', s'. split; [by right|done].
Qed.

Lemma find_proof_None groups request sn cert :
  find_proof groups request sn cert = None ↔
  ∀ name secret, (name, secret) ∈ groups →
    client_proof secret (boot_version request) (boot_client_nonce request) cert ≠ Ok (boot_proof request).
Proof.
  induction groups as [|[n s] groups IH]; cbn [find_proof].
  { split; [|done]. intros _ ?? Hin. by apply not_elem_of_nil in Hin. }
  destruct (verify_client_proof _ _ _ _ _) eqn:E.
  - apply verify_proof in E. split; [done|]. intros Hall. destruct (Hall n s); [left|done].
  - rewrite IH. split.
    + intros Hall name secret Hin. apply elem_of_cons in Hin as [[= -> ->]|Hin]; [|by eapply Hall].
      intros Hp. apply (verify_proof s) in Hp. unfold verify_client_proof in E. congruence.
    + intros Hall name secret Hin. eapply Hall. by right.
Qed.
End bootstrap_proofs.

(** A toy hash and MAC for the witnesses. *)
Definition toy_crypto : Crypto.
Proof.
  refine {| sha256 := λ s, replicate 32 "h"%char; hmac := λ k m, take 32 (k ++ m);
            hmac_key_ok := λ _, true |}.
  intros s. apply length_replicate.
Defined.

(** ** Properties *)

Lemma unregister_sessions rt id : sessions (state (unregister rt id)) = delete id (sessions (state rt)).
Proof.
  unfold unregister. destruct (sessions (state rt) !! id) eqn:E; [done|]. by rewrite delete_id.
Qed.

(** Whether the rejection reaches the client and the connection is closed. *)
Definition reject_sent (env : auth_env) : bool := is_ok (reject_written env) && is_ok (reject_finished env).

Lemma rejected_with_spec env rt conn status message ret :
  let r := rejected_with env rt conn status message ret in
  ∃ sent, r.1 = AuthRejected (rejection status message) sent (match sent with Ok _ => ret | Err e => Err e end) ∧
    is_ok sent = reject_sent env ∧ state r.2 = state rt ∧
    closed r.2 = closed rt ++ (if reject_sent env then [(conn_id conn, AuthenticationFailed, lit "authentication failed")] else []).
Proof.
  unfold rejected_with, reject_authentication, reject_sent. destruct (reject_written env) as [[]|e].
  - destruct (reject_finished env) as [[]|text]; [by exists (Ok tt)|].
    exists (Err (Protocol ("结束认证响应流失败: " ++ text))). split_and!; [done..|]. by rewrite app_nil_r.
  - exists (Err e). split_and!; [done..|]. by rewrite app_nil_r.
Qed.

(** C22: what a client hears from authentication is the truth about the
    runtime, whatever the rest of the server does between its steps.  On
    acceptance the hello was valid, the key is a key of the group, that group's
    credential was current when the session was registered with the device,
    the connection and the declared services of the hello, and the tunnels
    told are the catalogue of a later moment.  On rejection nothing was
    registered, the status gives the reason, and the connection is closed once
    the rejection has been sent; if sending it fails, the handler fails and
    closes nothing.  When the acceptance cannot be written the session is
    removed again, and only it. *)
Theorem authenticate_spec sha rt groups id conn now hello env :
  let rt0 := others_before env rt in
  let known := valid_hello hello = true ∧ hello_key hello ∈ groups.*2 in
  sessions (state rt0) !! id = None →
  match authenticate sha rt groups id conn now hello env with
  | (AuthAccepted h group, rt') =>
      answer_written env = Ok tt ∧ valid_hello hello = true ∧ (group, hello_key hello) ∈ groups ∧
      rt_credentials (state rt0) !! group = Some (credential_digest sha (hello_key hello)) ∧
      sh_status h = Accepted ∧
      ∃ rt1 s, sessions (state rt1) = <[id := s]> (sessions (state rt0)) ∧ session_group s = group ∧
        device_id s = hello_device_id hello ∧ connection s = conn ∧ services s = service_map (hello_services hello) ∧
        sh_tunnels h = catalog (others_registered env rt1) id ∧
        rt' = others_answer env (others_registered env rt1)
  | (AuthRejected h sent ret, rt') =>
      state rt' = state rt0 ∧ sh_tunnels h = [] ∧
      (is_ok sent = true ↔ is_ok (reject_written env) = true ∧ is_ok (reject_finished env) = true) ∧
      closed rt' = closed rt0 ++ (if is_ok sent then [(conn_id conn, AuthenticationFailed, lit "authentication failed")] else []) ∧
      (is_ok ret = true ↔ is_ok sent = true ∧ known) ∧
      match sh_status h with
      | Accepted => False
      | DeviceIdConflictStatus => known ∧ ∃ i s, sessions (state rt0) !! i = Some s ∧ device_id s = hello_device_id hello
      | ServerBusy => known ∧ (MAX_ONLINE_CLIENTS ≤ size (sessions (state rt0)))%nat
      | Rejected => known → ∃ group, (group, hello_key hello) ∈ groups ∧
          rt_credentials (state rt0) !! group ≠ Some (credential_digest sha (hello_key hello))
      end
  | (AuthLost e, rt') =>
      answer_written env = Err e ∧
      ∃ rt1 s, sessions (state rt1) = <[id := s]> (sessions (state rt0)) ∧
        sessions (state rt') = delete id (sessions (state (others_answer env (others_registered env rt1))))
  end.
Proof.
  intros rt0 known Hid. unfold authenticate. fold rt0.
  assert (Hrej : ∀ status message ret,
    (match status with
     | Accepted => False
     | DeviceIdConflictStatus => known ∧ ∃ i s, sessions (state rt0) !! i = Some s ∧ device_id s = hello_device_id hello
     | ServerBusy => known ∧ (MAX_ONLINE_CLIENTS ≤ size (sessions (state rt0)))%nat
     | Rejected => known → ∃ group, (group, hello_key hello) ∈ groups ∧
         rt_credentials (state rt0) !! group ≠ Some (credential_digest sha (hello_key hello))
     end) → (is_ok ret = true ↔ known) →
    ∃ h sent r rt', rejected_with env rt0 conn status message ret = (AuthRejected h sent r, rt') ∧
      state rt' = state rt0 ∧ sh_tunnels h = [] ∧
      (is_ok sent = true ↔ is_ok (reject_written env) = true ∧ is_ok (reject_finished env) = true) ∧
      closed rt' = closed rt0 ++ (if is_ok sent then [(conn_id conn, AuthenticationFailed, lit "authentication failed")] else []) ∧
      (is_ok r = true ↔ is_ok sent = true ∧ known) ∧
      match sh_status h with
      | Accepted => False
      | DeviceIdConflictStatus => known ∧ ∃ i s, sessions (state rt0) !! i = Some s ∧ device_id s = hello_device_id hello
      | ServerBusy => known ∧ (MAX_ONLINE_CLIENTS ≤ size (sessions (state rt0)))%nat
      | Rejected => known → ∃ group, (group, hello_key hello) ∈ groups ∧
          rt_credentials (state rt0) !! group ≠ Some (credential_digest sha (hello_key hello))
      end).
  { intros status message ret Hst Hret. destruct (rejected_with_spec env rt0 conn status message ret) as (sent & E & Es & Est & Ec).
    destruct (rejected_with env rt0 conn status message ret) as [r rt'] eqn:Er. cbn [fst snd] in *. subst r.
    eexists _, _, _, _. split; [done|]. split_and!; [done|done| |by rewrite Es| |done].
    - rewrite Es. unfold reject_sent. by rewrite andb_true_iff.
    - destruct sent; cbn [is_ok]; naive_solver. }
  destruct (if valid_hello hello then _ else None) as [[group d]|] eqn:Ea.
  2: { assert (Hk : ¬ known).
       { intros [Hv Hk]. rewrite Hv in Ea. by apply find_group_None in Ea. }
       edestruct (Hrej Rejected) as (h & sent & r & rt' & -> & H); [| |exact H]; [done|split; [done|tauto]]. }
  destruct (valid_hello hello) eqn:Ev; [|done]. apply find_group_Some in Ea as [Hin ->].
  assert (Hk : known).
  { split; [done|]. apply list_elem_of_fmap. by exists (group, hello_key hello). }
  pose proof (register_spec rt0 id (hello_device_id hello) group (credential_digest sha (hello_key hello)) conn
    (hello_services hello) now Hid) as Hreg.
  pose proof (register_credential rt0 id (hello_device_id hello) group (credential_digest sha (hello_key hello)) conn
    (hello_services hello) now) as Hcred.
  destruct (register _ _ _ _ _ _ _ _) as [[u|[]] rt1].
  - destruct Hreg as (_ & _ & (s & Hs & Hd & Hg & Hc & Hsv & _) & _). destruct (answer_written env) as [[]|e] eqn:Ew.
    + split_and!; [done|done|done|by apply (Hcred u rt1)|done|]. exists rt1, s. by split_and!.
    + split; [done|]. exists rt1, s. split; [done|]. apply unregister_sessions.
  - destruct Hreg as (-> & _ & Hd). edestruct (Hrej DeviceIdConflictStatus) as (h & sent & r & rt' & -> & H); [| |exact H]; [by split|by split].
  - destruct Hreg as (-> & Hd). edestruct (Hrej ServerBusy) as (h & sent & r & rt' & -> & H); [| |exact H]; [by split|by split].
  - destruct Hreg as (-> & Hd). edestruct (Hrej Rejected) as (h & sent & r & rt' & -> & H); [| |exact H]; [by intros _; exists group|by split].
Qed.

Lemma authenticate_spec_witness :
  let hello := {| hello_version := 5; hello_device_id := "dev"; hello_key := replicate 32 "k"%char;
                  hello_services := w_decls |} in
  let groups := [(lit "office", replicate 32 "k"%char)] in
  let rt := apply_credentials (λ s, s) TunnelRuntime_new groups in
  state (authenticate (λ s, s) TunnelRuntime_new [] 1 w_conn 0 hello calm).2 = state TunnelRuntime_new ∧
  ∃ h g rt1 s, (authenticate (λ s, s) rt groups 1 w_conn 0 hello calm).1 = AuthAccepted h g ∧
    sessions (state rt1) = <[1 := s]> ∅ ∧ connection s = w_conn.
Proof.
  intros hello groups rt. split.
  - pose proof (authenticate_spec (λ s, s) TunnelRuntime_new [] 1 w_conn 0 hello calm eq_refl) as H.
    assert (Hr : match (authenticate (λ s, s) TunnelRuntime_new [] 1 w_conn 0 hello calm).1 with AuthRejected _ _ _ => True | _ => False end)
      by (by vm_compute).
    destruct (authenticate _ _ [] _ _ _ _ _) as [[h sent ret|h g|] rt']; [exact (proj1 H)|done|done].
  - assert (H0 : sessions (state rt) = ∅) by (by vm_compute).
    pose proof (authenticate_spec (λ s, s) rt groups 1 w_conn 0 hello calm) as H. cbn [others_before calm] in H.
    assert (Hr : match (authenticate (λ s, s) rt groups 1 w_conn 0 hello calm).1 with AuthAccepted _ _ => True | _ => False end)
      by (by vm_compute).
    rewrite H0 in H. specialize (H (lookup_empty _)).
    destruct (authenticate _ _ groups _ _ _ _ _) as [[h sent ret|h g|] rt']; [done| |done].
    destruct H as (_ & _ & _ & _ & _ & rt1 & s & H1 & _ & _ & H2 & _). exists h, g, rt1, s.
    split; [reflexivity|]. split; [exact H1|exact H2].
Defined.

(** However the control session ends - a closed connection, an unreadable
    or unwritable stream, an invalid or stale declaration - and whatever the
    rest of the server did meanwhile, the session is unregistered and owns no
    tunnel. *)
Theorem session_cleanup id conn rt events frames rt' :
  runtime_inv rt →
  Forall (λ p : (TunnelRuntime → TunnelRuntime) * session_event,
            ∀ r, runtime_inv r → runtime_inv (p.1 r)) events →
  session_loop id conn rt events = (frames, rt', true) →
  sessions (state rt') !! id = None ∧ (∀ n, ¬ owned_by rt' id n) ∧ runtime_inv rt'.
Proof.
  revert rt frames. induction events as [|[others ev] events IH]; intros rt frames Hi Hf; [done|].
  inversion Hf as [|?? Ho Hf']; subst. simpl in Ho. cbn [session_loop].
  assert (Hturn : ∀ fr rt1 e, session_turn id (others rt) ev = (fr, rt1, e) → runtime_inv rt1).
  { specialize (Ho rt Hi). intros fr rt1 e. unfold session_turn, send_frame.
    destruct ev as [|rid svc w|c e0|w]; [by intros [= _ <- _]| |by intros [= _ <- _]|].
    - destruct (validate_declarations svc); [|by intros [= _ <- _]].
      destruct (update_services (others rt) id svc) as [u rt2] eqn:Eu.
      apply (update_services_inv (others rt)) in Eu; [|done].
      destruct u; [destruct w|]; by intros [= _ <- _].
    - destruct w; by intros [= _ <- _]. }
  destruct (session_turn id (others rt) ev) as [[fr rt1] [e|]] eqn:Et.
  - specialize (Hturn _ _ _ eq_refl). intros [= <- <-].
    assert (Hi1 : runtime_inv (match e with
       | EndControl _ => close_connection rt1 conn ServerConnectionError "server control channel failed"
       | EndConnection => rt1 end)) by (by destruct e).
    unfold session_close. split_and!.
    + apply unregister_gone.
    + intros n. apply unregister_owns, Hi1.
    + by apply unregister_inv.
  - specialize (Hturn _ _ _ eq_refl).
    destruct (session_loop id conn rt1 events) as [[more rt2] ended] eqn:El. intros [= <- <- ->].
    eapply IH; eauto.
Qed.

Lemma session_cleanup_witness :
  let rt' := (session_loop 1 w_conn w_online [(λ r, r, EvChanged IoOk); (λ r, r, EvClosed)]).1.2 in
  sessions (state rt') !! 1 = None ∧ ∀ n, ¬ owned_by rt' 1 n.
Proof.
  intros rt'.
  assert (Hi : runtime_inv w_online)
    by (eapply (runtime_reachable (λ s, s) w_toml), w_online_reachable).
  destruct (session_loop 1 w_conn w_online [(λ r, r, EvChanged IoOk); (λ r, r, EvClosed)]) as [[fr rt1] e] eqn:E.
  assert (He : e = true) by (apply (f_equal snd) in E; vm_compute in E; by rewrite <- E).
  subst e.
  assert (Hf : Forall (λ p : (TunnelRuntime → TunnelRuntime) * session_event,
            ∀ r, runtime_inv r → runtime_inv (p.1 r)) [(λ r, r, EvChanged IoOk); (λ r, r, EvClosed)]).
  { apply Forall_cons_2; [by intros r Hr|]. apply Forall_cons_2; [by intros r Hr|]. constructor. }
  destruct (session_cleanup 1 w_conn w_online _ fr rt1 Hi Hf E)
    as (H1 & H2 & _).
  split; [exact H1|exact H2].
Defined.

(** The certificate bootstrap authenticates both sides: a request is
    accepted exactly when its version is the protocol's and some group's key
    produced its proof over this certificate, and the proof sent back is then
    one the client verifies with that same key over its own nonce. *)
Theorem bootstrap_mutual `{Crypto} request groups sn cert response ret :
  bootstrap_certificate request groups sn cert = Ok (response, ret) →
  (is_ok ret = true ↔ boot_version request = PROTOCOL_VERSION ∧
     ∃ name secret, (name, secret) ∈ groups ∧
       client_proof secret (boot_version request) (boot_client_nonce request) cert = Ok (boot_proof request)) ∧
  match response with
  | BootAccepted n p => n = sn ∧ is_ok ret = true ∧ ∃ name secret, (name, secret) ∈ groups ∧
      verify_client_proof secret (boot_version request) (boot_client_nonce request) cert (boot_proof request) = true ∧
      verify_server_proof secret (boot_version request) (boot_client_nonce request) n cert p = true
  | BootRejected _ => is_ok ret = false
  end.
Proof.
  unfold bootstrap_certificate. destruct (boot_version request =? PROTOCOL_VERSION) eqn:Ev; bsimpl.
  2: { intros [= <- <-]. simpl. split; [|done]. split; [done|]. by intros [? _]. }
  destruct (find_proof groups request sn cert) as [r|] eqn:Ef.
  - apply find_proof_Some in Ef as (name & secret & Hin & Hc & p & -> & Hp). intros [= <- <-]. simpl.
    split; [split; [eauto|done]|]. split_and!; [done..|]. exists name, secret.
    split_and!; [done|by apply verify_proof|by apply verify_proof].
  - intros [= <- <-]. simpl. split; [|done]. split; [done|]. intros (_ & name & secret & Hin & Hc).
    rewrite find_proof_None in Ef. by destruct (Ef name secret Hin).
Qed.

Lemma bootstrap_mutual_witness :
  let key := replicate 40 "k"%char in let nonce := replicate 32 "n"%char in
  let request := {| boot_version := 5; boot_client_nonce := nonce; boot_proof := take 32 key |} in
  ∃ name secret, (name, secret) ∈ [(lit "office", key)] ∧
    @client_proof toy_crypto secret 5 nonce "cert" = Ok (boot_proof request).
Proof.
  intros key nonce request.
  assert (Hb : @bootstrap_certificate toy_crypto request [(lit "office", key)] nonce "cert" =
            Ok (BootAccepted nonce (take 32 key), Ok tt)) by (by vm_compute).
  destruct (@bootstrap_mutual toy_crypto _ _ _ _ _ _ Hb) as [[Hiff _] _].
  exact (proj2 (Hiff eq_refl)).
Defined.

(** The bytes a proof authenticates determine the direction, the version,
    both nonces and the certificate digest: a proof made for one of them is
    never one for another, and a client's is never a server's. *)
Theorem transcript_injective `{Crypto} v w cn cn' sn sn' cert cert' :
  v <= u16_max → w <= u16_max →
  length cn = NONCE_LENGTH → length cn' = NONCE_LENGTH →
  length sn = NONCE_LENGTH → length sn' = NONCE_LENGTH →
  update_proof CLIENT_PROOF_DOMAIN v cn None cert ≠ update_proof SERVER_PROOF_DOMAIN w cn' (Some sn') cert' ∧
  (update_proof CLIENT_PROOF_DOMAIN v cn None cert = update_proof CLIENT_PROOF_DOMAIN w cn' None cert' →
   v = w ∧ cn = cn' ∧ sha256 cert = sha256 cert') ∧
  (update_proof SERVER_PROOF_DOMAIN v cn (Some sn) cert = update_proof SERVER_PROOF_DOMAIN w cn' (Some sn') cert' →
   v = w ∧ cn = cn' ∧ sn = sn' ∧ sha256 cert = sha256 cert').
Proof.
  intros Hv Hw H1 H2 H3 H4. unfold update_proof. split_and!.
  - intros Heq. apply app_inj_1 in Heq as [Hd _]; [|apply domain_length]. by vm_compute in Hd.
  - intros Heq. apply app_inv_head in Heq. apply app_inj_1 in Heq as [Hvw Heq]; [|by rewrite !length_to_be].
    apply app_inj_1 in Heq as [-> Heq]; [|congruence]. simpl in Heq. split_and!; [by apply to_be2_inj|done|done].
  - intros Heq. apply app_inv_head in Heq. apply app_inj_1 in Heq as [Hvw Heq]; [|by rewrite !length_to_be].
    apply app_inj_1 in Heq as [-> Heq]; [|congruence]. simpl in Heq.
    apply app_inj_1 in Heq as [-> Heq]; [|congruence]. split_and!; [by apply to_be2_inj|done..].
Qed.

Lemma transcript_injective_witness :
  let n := replicate 32 "n"%char in
  @update_proof toy_crypto CLIENT_PROOF_DOMAIN 5 n None "c" ≠
  @update_proof toy_crypto SERVER_PROOF_DOMAIN 5 n (Some n) "c".
Proof.
  intros n. refine (proj1 (@transcript_injective toy_crypto 5 5 n n n n "c" "c" _ _ _ _ _ _)); by vm_compute.
Defined.

(** Only the three normal client closes and a local close count as an
    expected end of a session, and no two close codes share a number. *)
Theorem close_codes_spec :
  (∀ a b, close_code_value a = close_code_value b → a = b) ∧
  (∀ e, is_expected_client_close e = true ↔
     e = LocallyClosed ∨ e = ApplicationClosed 10 ∨ e = ApplicationClosed 11 ∨ e = ApplicationClosed 13).
Proof.
  split; [by intros [] []|]. intros [|code|]; [naive_solver| |naive_solver].
  unfold is_expected_client_close, matches_error. simpl. bsimpl. naive_solver lia.
Qed.
