(* ===== verification/ProxyConfig.v ===== *)
(** * ProxyConfig: [gaterust-proxy/src/config.rs], [error.rs] and
    [api_model.rs]

    The configuration of the reverse proxy: its validation (which also
    normalises domain and host names in place), the migration of the old
    format, the choice of the certificate of a host, and the view the control
    API serves.  The URI parser is [http]'s: class [UriLib]. *)

From S2P Require Export Paths.
From S2P Require Import Prelude RustStr Net.

(** ** Errors *)

Inductive ProxyError :=
  | PReadConfig (path : Path) (source : ErrorKind)
  | PParseConfig (path : Path) (source : str)
  | PInvalidConfig (message : str)
  | PIo (source : ErrorKind)
  | PNotify (source : str)
  | PHttp (source : str)
  | PJson (source : str)
  | PTls (message : str)
  | PAcme (message : str)
  | PDns (message : str)
  | PRuntime (message : str).

Notation PResult := (result ProxyError).

Definition fmt_proxy_error (io : ErrorKind → str) (e : ProxyError) : str :=
  match e with
  | PReadConfig p s => "读取配置 " ++ fmt_path p ++ " 失败: " ++ io s
  | PParseConfig p s => "解析配置 " ++ fmt_path p ++ " 失败: " ++ s
  | PInvalidConfig m => "配置无效: " ++ m
  | PIo s => "I/O 错误: " ++ io s
  | PNotify s => "文件监听失败: " ++ s
  | PHttp s => "HTTP 错误: " ++ s
  | PJson s => "JSON 错误: " ++ s
  | PTls m => "TLS 配置失败: " ++ m
  | PAcme m => "ACME 操作失败: " ++ m
  | PDns m => "DNS 操作失败: " ++ m
  | PRuntime m => "代理运行时操作失败: " ++ m
  end.

(** ** Data *)

Definition DEFAULT_MAX_CONNECTIONS : N := 2048.
Definition LETS_ENCRYPT_PRODUCTION_DIRECTORY : str := "https://acme-v02.api.letsencrypt.org/directory".
Definition LETS_ENCRYPT_STAGING_DIRECTORY : str :=
  "https://acme-staging-v02.api.letsencrypt.org/directory".
Definition GOOGLE_PRODUCTION_DIRECTORY : str := "https://dv.acme-v02.api.pki.goog/directory".
Definition GOOGLE_STAGING_DIRECTORY : str := "https://dv.acme-v02.test-api.pki.goog/directory".

(** [SecretString]: [Debug] never shows the value. *)
Record SecretString := { expose : str }.

Record ProxyListenerConfig := {
  http_bind : SocketAddr;
  https_bind : SocketAddr;
  cache_dir : Path;
  max_connections : N }.

Inductive AcmeProvider := LetsEncrypt | GoogleCloud.
Inductive AcmeEnvironment := Production | Staging.
Inductive KeyAlgorithm := Ec256 | Rsa2048.
Inductive DnsProvider := Cloudflare | GoDaddy | Aliyun | TencentCloud.

Record AcmeAccountConfig := {
  acme_id : str;
  acme_name : str;
  acme_provider : AcmeProvider;
  acme_environment : AcmeEnvironment;
  acme_email : str;
  acme_key_algorithm : KeyAlgorithm;
  eab_key_id : option str;
  eab_hmac_key : option SecretString }.

Record DnsAccountConfig := {
  dns_id : str;
  dns_name : str;
  dns_provider : DnsProvider;
  api_token : option SecretString;
  access_key : option SecretString;
  secret_key : option SecretString }.

Inductive CertificateValidation :=
  | DnsAccount (dns_account_id : str)
  | Manual.

Record CertificateConfig := {
  cert_id : str;
  cert_name : str;
  cert_domains : list str;
  acme_account_id : str;
  cert_validation : option CertificateValidation;
  auto_renew : bool;
  migration_error : option str }.

Record RouteConfig := {
  route_name : str;
  route_host : str;
  path_prefix : str;
  upstream : str;
  certificate_id : option str }.

Record ProxyConfig := {
  proxy : ProxyListenerConfig;
  acme_accounts : list AcmeAccountConfig;
  dns_accounts : list DnsAccountConfig;
  certificates : list CertificateConfig;
  routes : list RouteConfig }.

#[global] Instance SecretString_eq_dec : EqDecision SecretString.
Proof. solve_decision. Defined.
#[global] Instance ProxyListenerConfig_eq_dec : EqDecision ProxyListenerConfig.
Proof. solve_decision. Defined.
#[global] Instance AcmeProvider_eq_dec : EqDecision AcmeProvider.
Proof. solve_decision. Defined.
#[global] Instance AcmeEnvironment_eq_dec : EqDecision AcmeEnvironment.
Proof. solve_decision. Defined.
#[global] Instance KeyAlgorithm_eq_dec : EqDecision KeyAlgorithm.
Proof. solve_decision. Defined.
#[global] Instance DnsProvider_eq_dec : EqDecision DnsProvider.
Proof. solve_decision. Defined.
#[global] Instance AcmeAccountConfig_eq_dec : EqDecision AcmeAccountConfig.
Proof. solve_decision. Defined.
#[global] Instance DnsAccountConfig_eq_dec : EqDecision DnsAccountConfig.
Proof. solve_decision. Defined.
#[global] Instance CertificateValidation_eq_dec : EqDecision CertificateValidation.
Proof. solve_decision. Defined.
#[global] Instance CertificateConfig_eq_dec : EqDecision CertificateConfig.
Proof. solve_decision. Defined.
#[global] Instance RouteConfig_eq_dec : EqDecision RouteConfig.
Proof. solve_decision. Defined.

#[global] Instance ProxyConfig_eq_dec : EqDecision ProxyConfig.
Proof. solve_decision. Defined.

(** [http::Uri]. *)
Class UriLib := {
  Uri : Type;
  parse_uri : str → option Uri;
  uri_scheme : Uri → option str;
  uri_authority : Uri → option str;
  uri_path : Uri → str;
  uri_query : Uri → option str }.

(** ** Validators of single values *)

Definition default_path_prefix : str := "/".

Definition valid_id_byte (b : ascii) : bool :=
  is_ascii_alphanumeric b || bool_decide (b = "-"%char) || bool_decide (b = "_"%char)
  || bool_decide (b = "."%char).

Definition validate_id (kind id : str) : PResult unit :=
  reject_if (bool_decide (id = []) || (128 <? len id)
             || bool_decide (id = lit ".") || bool_decide (id = lit "..")
             || negb (forallb valid_id_byte id))
    (PInvalidConfig (kind ++ " ID 必须为 1..=128 个 ASCII 字母、数字、-、_ 或 .")).

Definition validate_display_name (kind name : str) : PResult unit :=
  reject_if (bool_decide (trim name = []) || (128 <? len name))
    (PInvalidConfig (kind ++ "名称不能为空且不能超过 128 字节")).

Definition insert_unique (values : gset str) (kind value : str) : PResult (gset str) :=
  _ ← reject_if (bool_decide (value ∈ values)) (PInvalidConfig (kind ++ "重复: " ++ value));
  Ok ({[value]} ∪ values).

Definition validate_path_prefix (value : str) : PResult unit :=
  reject_if (negb (starts_with "/" value) || contains_char "?"%char value || contains_char "#"%char value)
    (PInvalidConfig ("路径前缀必须以 / 开头且不能包含查询或片段: " ++ value)).

Definition validate_upstream `{UriLib} (value : str) : PResult unit :=
  uri ← ok_or (parse_uri value) (PInvalidConfig ("上游 URI 无效: " ++ value));
  _ ← reject_if (negb (bool_decide (uri_scheme uri = Some (lit "http"))
                       || bool_decide (uri_scheme uri = Some (lit "https")))
                 || bool_decide (uri_authority uri = None))
        (PInvalidConfig ("上游 URI 必须包含 http/https scheme 和 authority: " ++ value));
  reject_if (bool_decide (is_Some (uri_query uri)))
    (PInvalidConfig ("上游 URI 不能包含查询参数: " ++ value)).

Definition require_secret (kind name field : str) (value : option str) : PResult unit :=
  reject_if (match value with None | Some [] => true | Some _ => false end)
    (PInvalidConfig (kind ++ " " ++ name ++ " 必须配置 " ++ field)).
Definition reject_secret (kind name field : str) (value : option str) : PResult unit :=
  reject_if (match value with Some _ => true | None => false end)
    (PInvalidConfig (kind ++ " " ++ name ++ " 不应配置 " ++ field)).

(** One label of a domain name. *)
Definition bad_label (label : str) : bool :=
  bool_decide (label = []) || (63 <? len label) || starts_with "-" label || ends_with "-" label
  || negb (forallb (λ b, is_ascii_alphanumeric b || bool_decide (b = "-"%char)) label).

Definition is_dot (c : ascii) : bool := bool_decide (c = "."%char).

(** Trim, drop trailing dots, lower-case. *)
Definition canonical (value : str) : str :=
  to_ascii_lowercase (trim_end_matches is_dot (trim value)).

Definition plain_domain (value : str) : str := default value (strip_prefix "*." value).

Definition bad_domain (value : str) : bool :=
  let plain := plain_domain value in
  bool_decide (plain = []) || (253 <? len plain) || negb (contains_char "."%char plain)
  || existsb bad_label (split "."%char plain).

Definition normalize_domain (value : str) : PResult str :=
  let value := canonical value in
  _ ← reject_if (bad_domain value) (PInvalidConfig ("域名无效: " ++ value));
  Ok value.

Definition normalize_route_host (value : str) : PResult str :=
  let value := canonical value in
  if bool_decide (value = lit "localhost") then Ok value else normalize_domain value.

Definition wildcard_matches (host suffix : str) : bool :=
  match strip_suffix suffix host with
  | Some prefix => ends_with "." prefix && negb (contains_char "."%char (removelast prefix))
  | None => false
  end.

(** [max_by_key]: the last of the greatest elements, in iteration order. *)
Definition max_by_len {A} (l : list (nat * A)) : option (nat * A) :=
  foldl (λ acc x, match acc with
                  | Some m => if (m.1 <=? x.1)%nat then Some x else acc
                  | None => Some x
                  end) None l.

(** The wildcard domains of a table that match a host, in iteration order. *)
Definition wildcard_candidates {A} (host : str) (iter : list (str * A)) : list (nat * A) :=
  omap (λ kv, suffix ← strip_prefix "*." kv.1;
              if wildcard_matches host suffix then Some (length suffix, kv.2) else None) iter.

(** [iter] is the order in which the table is iterated. *)
Definition certificate_for_host (owners : gmap str str) (iter : list (str * str)) (host : str)
  : option str :=
  match owners !! host with
  | Some owner => Some owner
  | None => snd <$> max_by_len (wildcard_candidates host iter)
  end.

(** ** Accounts *)

Definition AcmeAccountConfig_validate (a : AcmeAccountConfig) : PResult unit :=
  _ ← reject_if (bool_decide (acme_email a = []) || (254 <? len (acme_email a))
                 || negb (contains_char "@"%char (acme_email a)))
        (PInvalidConfig ("ACME 账户 " ++ acme_name a ++ " 的联系邮箱无效"));
  match acme_provider a with
  | LetsEncrypt =>
      _ ← reject_secret "ACME 账户" (acme_name a) "eab_key_id" (eab_key_id a);
      reject_secret "ACME 账户" (acme_name a) "eab_hmac_key" (expose <$> eab_hmac_key a)
  | GoogleCloud =>
      _ ← require_secret "ACME 账户" (acme_name a) "eab_key_id" (eab_key_id a);
      require_secret "ACME 账户" (acme_name a) "eab_hmac_key" (expose <$> eab_hmac_key a)
  end.

Definition directory_url (a : AcmeAccountConfig) : str :=
  match acme_provider a, acme_environment a with
  | LetsEncrypt, Production => LETS_ENCRYPT_PRODUCTION_DIRECTORY
  | LetsEncrypt, Staging => LETS_ENCRYPT_STAGING_DIRECTORY
  | GoogleCloud, Production => GOOGLE_PRODUCTION_DIRECTORY
  | GoogleCloud, Staging => GOOGLE_STAGING_DIRECTORY
  end.

Definition DnsAccountConfig_validate (a : DnsAccountConfig) : PResult unit :=
  match dns_provider a with
  | Cloudflare =>
      _ ← require_secret "DNS 账户" (dns_name a) "api_token" (expose <$> api_token a);
      _ ← reject_secret "DNS 账户" (dns_name a) "access_key" (expose <$> access_key a);
      reject_secret "DNS 账户" (dns_name a) "secret_key" (expose <$> secret_key a)
  | GoDaddy | Aliyun | TencentCloud =>
      _ ← reject_secret "DNS 账户" (dns_name a) "api_token" (expose <$> api_token a);
      _ ← require_secret "DNS 账户" (dns_name a) "access_key" (expose <$> access_key a);
      require_secret "DNS 账户" (dns_name a) "secret_key" (expose <$> secret_key a)
  end.

(** The loops over the accounts: identifiers and names seen. *)
Definition validate_acme (st : gset str * gset str) (a : AcmeAccountConfig)
  : PResult (gset str * gset str) :=
  _ ← validate_id "ACME 账户" (acme_id a);
  _ ← validate_display_name "ACME 账户" (acme_name a);
  ids ← insert_unique st.1 "ACME 账户 ID" (acme_id a);
  names ← insert_unique st.2 "ACME 账户名称" (acme_name a);
  _ ← AcmeAccountConfig_validate a;
  Ok (ids, names).

Definition validate_dns (st : gset str * gset str) (a : DnsAccountConfig)
  : PResult (gset str * gset str) :=
  _ ← validate_id "DNS 账户" (dns_id a);
  _ ← validate_display_name "DNS 账户" (dns_name a);
  ids ← insert_unique st.1 "DNS 账户 ID" (dns_id a);
  names ← insert_unique st.2 "DNS 账户名称" (dns_name a);
  _ ← DnsAccountConfig_validate a;
  Ok (ids, names).

(** ** Certificates *)

Record domain_state := {
  own_domains : gset str;
  domain_owners : gmap str str;
  done_domains : list str }.

(** One domain of a certificate: normalised in place. *)
Definition validate_cert_domain (c : CertificateConfig) (st : domain_state) (domain : str)
  : PResult domain_state :=
  domain ← normalize_domain domain;
  _ ← reject_if (bool_decide (domain ∈ own_domains st))
        (PInvalidConfig ("证书 " ++ cert_name c ++ " 包含重复域名 " ++ domain));
  _ ← match domain_owners st !! domain with
      | Some owner => Err (PInvalidConfig ("域名 " ++ domain ++ " 同时属于证书 " ++ owner ++ " 和 "
                                           ++ cert_id c))
      | None => Ok tt
      end;
  Ok {| own_domains := {[domain]} ∪ own_domains st;
        domain_owners := <[domain := cert_id c]> (domain_owners st);
        done_domains := done_domains st ++ [domain] |}.

Definition with_domains (c : CertificateConfig) (domains : list str) : CertificateConfig :=
  {| cert_id := cert_id c; cert_name := cert_name c; cert_domains := domains;
     acme_account_id := acme_account_id c; cert_validation := cert_validation c;
     auto_renew := auto_renew c; migration_error := migration_error c |}.

(** The checks of a certificate's references, before its domains. *)
Definition validate_cert_refs (acme_ids dns_ids : gset str) (c : CertificateConfig) : PResult unit :=
  _ ← reject_if (bool_decide (acme_account_id c ∉ acme_ids))
        (PInvalidConfig ("证书 " ++ cert_name c ++ " 引用了不存在的 ACME 账户 " ++ acme_account_id c));
  _ ← match cert_validation c with
      | Some (DnsAccount dns_account_id) =>
          reject_if (bool_decide (dns_account_id ∉ dns_ids))
            (PInvalidConfig ("证书 " ++ cert_name c ++ " 引用了不存在的 DNS 账户 " ++ dns_account_id))
      | Some Manual =>
          reject_if (auto_renew c)
            (PInvalidConfig ("证书 " ++ cert_name c ++ " 使用手动解析时不能启用自动续签"))
      | None =>
          reject_if (negb (bool_decide (is_Some (migration_error c)) && negb (auto_renew c)))
            (PInvalidConfig ("证书 " ++ cert_name c ++ " 必须选择验证方式"))
      end;
  reject_if (bool_decide (cert_domains c = []) || (100 <? len (cert_domains c)))
    (PInvalidConfig ("证书 " ++ cert_name c ++ " 的域名数量必须为 1..=100")).

Definition CertificateConfig_validate (acme_ids dns_ids : gset str) (owners : gmap str str)
  (c : CertificateConfig) : PResult (CertificateConfig * gmap str str) :=
  _ ← validate_cert_refs acme_ids dns_ids c;
  st ← try_for (validate_cert_domain c)
         {| own_domains := ∅; domain_owners := owners; done_domains := [] |} (cert_domains c);
  Ok (with_domains c (done_domains st), domain_owners st).

Record cert_state := {
  certificate_ids : gset str;
  certificate_names : gset str;
  cert_owners : gmap str str;
  done_certs : list CertificateConfig }.

Definition validate_certificate (acme_ids dns_ids : gset str) (st : cert_state)
  (c : CertificateConfig) : PResult cert_state :=
  _ ← validate_id "证书" (cert_id c);
  _ ← validate_display_name "证书" (cert_name c);
  _ ← reject_if (bool_decide (cert_id c ∈ certificate_ids st))
        (PInvalidConfig ("证书 ID 重复: " ++ cert_id c));
  _ ← reject_if (bool_decide (cert_name c ∈ certificate_names st))
        (PInvalidConfig ("证书名称重复: " ++ cert_name c));
  '(c', owners) ← CertificateConfig_validate acme_ids dns_ids (cert_owners st) c;
  Ok {| certificate_ids := {[cert_id c]} ∪ certificate_ids st;
        certificate_names := {[cert_name c]} ∪ certificate_names st;
        cert_owners := owners;
        done_certs := done_certs st ++ [c'] |}.

(** ** Routes *)

Record route_state := {
  route_names : gset str;
  route_keys : gset (str * str);
  done_routes : list RouteConfig }.

Definition with_host (r : RouteConfig) (host : str) : RouteConfig :=
  {| route_name := route_name r; route_host := host; path_prefix := path_prefix r;
     upstream := upstream r; certificate_id := certificate_id r |}.

Definition validate_route `{UriLib} (cert_ids : gset str) (owners : gmap str str) (st : route_state)
  (r : RouteConfig) : PResult route_state :=
  _ ← validate_display_name "路由" (route_name r);
  names ← insert_unique (route_names st) "路由名称" (route_name r);
  host ← normalize_route_host (route_host r);
  _ ← validate_path_prefix (path_prefix r);
  _ ← validate_upstream (upstream r);
  _ ← reject_if (bool_decide ((host, path_prefix r) ∈ route_keys st))
        (PInvalidConfig ("Host 与路径前缀重复: " ++ host ++ path_prefix r));
  _ ← match certificate_id r with
      | None => Ok tt
      | Some certificate_id =>
          _ ← reject_if (bool_decide (certificate_id ∉ cert_ids))
                (PInvalidConfig ("路由 " ++ route_name r ++ " 引用了不存在的证书 " ++ certificate_id));
          reject_if (bool_decide (certificate_for_host owners (map_to_list owners) host
                                  ≠ Some certificate_id))
            (PInvalidConfig ("证书 " ++ certificate_id ++ " 不包含路由域名 " ++ host))
      end;
  Ok {| route_names := names;
        route_keys := {[(host, path_prefix r)]} ∪ route_keys st;
        done_routes := done_routes st ++ [with_host r host] |}.

(** ** The whole configuration: validated and normalised *)

Definition ProxyConfig_validate `{UriLib} (c : ProxyConfig) : PResult ProxyConfig :=
  _ ← reject_if (bool_decide (http_bind (proxy c) = https_bind (proxy c)))
        (PInvalidConfig "HTTP 与 HTTPS 不能监听同一地址");
  _ ← reject_if (max_connections (proxy c) =? 0)
        (PInvalidConfig "proxy.max_connections 必须大于 0");
  _ ← reject_if ((64 <? len (acme_accounts c)) || (64 <? len (dns_accounts c))
                 || (256 <? len (certificates c)) || (4096 <? len (routes c)))
        (PInvalidConfig "ACME/DNS 账户不能超过 64 个，证书不能超过 256 个，路由不能超过 4096 条");
  _ ← try_for validate_acme (∅, ∅) (acme_accounts c);
  _ ← try_for validate_dns (∅, ∅) (dns_accounts c);
  let acme_ids := list_to_set (acme_id <$> acme_accounts c) in
  let dns_ids := list_to_set (dns_id <$> dns_accounts c) in
  certs ← try_for (validate_certificate acme_ids dns_ids)
            {| certificate_ids := ∅; certificate_names := ∅; cert_owners := ∅; done_certs := [] |}
            (certificates c);
  routes ← try_for (validate_route (certificate_ids certs) (cert_owners certs))
             {| route_names := ∅; route_keys := ∅; done_routes := [] |} (routes c);
  Ok {| proxy := proxy c; acme_accounts := acme_accounts c; dns_accounts := dns_accounts c;
        certificates := done_certs certs; routes := done_routes routes |}.

(** ** The old format *)

Inductive LegacyIssuer := LegacyLetsEncrypt | GoogleTrustServices.
Inductive LegacyChallenge := Http01 | TlsAlpn01 | CloudflareDns01.

Record LegacyCertificateConfig := {
  lc_name : str; lc_domains : list str; lc_email : str;
  lc_issuer : LegacyIssuer; lc_challenge : LegacyChallenge; lc_production : bool;
  cloudflare_api_token : option str; cloudflare_zone_id : option str;
  google_eab_key_id : option str; google_eab_hmac_key : option str;
  dns_propagation_seconds : option N }.
Record LegacyRouteConfig := {
  lr_name : str; lr_host : str; lr_path_prefix : str; lr_upstream : str;
  lr_certificate : option str }.
Record LegacyProxyConfig := {
  legacy_proxy : ProxyListenerConfig;
  legacy_certificates : list LegacyCertificateConfig;
  legacy_routes : list LegacyRouteConfig }.

Definition migrate_acme (l : LegacyCertificateConfig) : AcmeAccountConfig :=
  {| acme_id := "acme-" ++ lc_name l; acme_name := lc_name l ++ " ACME";
     acme_provider := match lc_issuer l with
                      | LegacyLetsEncrypt => LetsEncrypt | GoogleTrustServices => GoogleCloud end;
     acme_environment := if lc_production l then Production else Staging;
     acme_email := lc_email l; acme_key_algorithm := Ec256;
     eab_key_id := google_eab_key_id l;
     eab_hmac_key := Build_SecretString <$> google_eab_hmac_key l |}.

Definition migrate_dns (l : LegacyCertificateConfig) : list DnsAccountConfig :=
  match lc_challenge l with
  | CloudflareDns01 =>
      [{| dns_id := "dns-" ++ lc_name l; dns_name := lc_name l ++ " Cloudflare";
          dns_provider := Cloudflare;
          api_token := Build_SecretString <$> cloudflare_api_token l;
          access_key := None; secret_key := None |}]
  | Http01 | TlsAlpn01 => []
  end.

Definition migrate_cert (l : LegacyCertificateConfig) : CertificateConfig :=
  let '(validation, error) :=
    match lc_challenge l with
    | CloudflareDns01 => (Some (DnsAccount ("dns-" ++ lc_name l)), None)
    | Http01 => (None, Some (lit "旧配置使用 HTTP-01，请重新选择 DNS 账户或手动解析"))
    | TlsAlpn01 => (None, Some (lit "旧配置使用 TLS-ALPN-01，请重新选择 DNS 账户或手动解析"))
    end in
  {| cert_id := lc_name l; cert_name := lc_name l; cert_domains := lc_domains l;
     acme_account_id := "acme-" ++ lc_name l; cert_validation := validation;
     auto_renew := false; migration_error := error |}.

Definition migrate_route (names : gset str) (acc : list RouteConfig) (r : LegacyRouteConfig)
  : PResult (list RouteConfig) :=
  id ← match lr_certificate r with
       | None => Ok None
       | Some name =>
           if bool_decide (name ∈ names) then Ok (Some name)
           else Err (PInvalidConfig ("旧路由 " ++ lr_name r ++ " 引用了不存在的证书 " ++ name))
       end;
  Ok (acc ++ [{| route_name := lr_name r; route_host := lr_host r;
                 path_prefix := lr_path_prefix r; upstream := lr_upstream r;
                 certificate_id := id |}]).

Definition migrate (l : LegacyProxyConfig) : PResult ProxyConfig :=
  let names := list_to_set (lc_name <$> legacy_certificates l) in
  routes ← try_for (migrate_route names) [] (legacy_routes l);
  Ok {| proxy := legacy_proxy l;
        acme_accounts := migrate_acme <$> legacy_certificates l;
        dns_accounts := concat (migrate_dns <$> legacy_certificates l);
        certificates := migrate_cert <$> legacy_certificates l;
        routes := routes |}.

(** ** Reading the file *)

Class ProxyToml := {
  parse_current : str → result str ProxyConfig;
  parse_legacy : str → result str LegacyProxyConfig }.

Definition ProxyConfig_read `{UriLib, ProxyToml} (file : result ErrorKind str) (path : Path)
  : PResult ProxyConfig :=
  content ← map_err (PReadConfig path) file;
  config ← match parse_current content with
           | Ok config => Ok config
           | Err current_error =>
               match parse_legacy content with
               | Ok legacy => migrate legacy
               | Err _ => Err (PParseConfig path current_error)
               end
           end;
  ProxyConfig_validate config.

Definition ProxyConfig_load `{UriLib, ProxyToml} (file : result ErrorKind str) (path : Path)
  : PResult ProxyConfig :=
  config ← ProxyConfig_read file path;
  let p := proxy config in
  let dir := if path_is_relative (cache_dir p)
             then path_join (default [CurDir] (path_parent path)) (cache_dir p)
             else cache_dir p in
  Ok {| proxy := {| http_bind := http_bind p; https_bind := https_bind p; cache_dir := dir;
                    max_connections := max_connections p |};
        acme_accounts := acme_accounts config; dns_accounts := dns_accounts config;
        certificates := certificates config; routes := routes config |}.

(** ** The view of the API ([api_model.rs]) *)

Record AcmeAccountView := {
  av_id : str; av_name : str; av_provider : AcmeProvider; av_environment : AcmeEnvironment;
  av_email : str; av_key_algorithm : KeyAlgorithm; av_eab_key_id : option str;
  eab_hmac_key_configured : bool }.
Record DnsAccountView := {
  dv_id : str; dv_name : str; dv_provider : DnsProvider;
  api_token_configured : bool; access_key_configured : bool; secret_key_configured : bool }.
Record ProxyConfigView := {
  view_proxy : ProxyListenerConfig; view_acme : list AcmeAccountView;
  view_dns : list DnsAccountView; view_certificates : list CertificateConfig;
  view_routes : list RouteConfig }.

Definition configured {A} (o : option A) : bool := match o with Some _ => true | None => false end.
Definition acme_view (a : AcmeAccountConfig) : AcmeAccountView :=
  {| av_id := acme_id a; av_name := acme_name a; av_provider := acme_provider a;
     av_environment := acme_environment a; av_email := acme_email a;
     av_key_algorithm := acme_key_algorithm a; av_eab_key_id := eab_key_id a;
     eab_hmac_key_configured := configured (eab_hmac_key a) |}.
Definition dns_view (a : DnsAccountConfig) : DnsAccountView :=
  {| dv_id := dns_id a; dv_name := dns_name a; dv_provider := dns_provider a;
     api_token_configured := configured (api_token a);
     access_key_configured := configured (access_key a);
     secret_key_configured := configured (secret_key a) |}.
Definition config_view (c : ProxyConfig) : ProxyConfigView :=
  {| view_proxy := proxy c; view_acme := acme_view <$> acme_accounts c;
     view_dns := dns_view <$> dns_accounts c; view_certificates := certificates c;
     view_routes := routes c |}.

(** ** Domain names *)

Lemma canonical_length v : (length (to_ascii_lowercase v) = length v)%nat.
Proof. apply length_to_ascii_lowercase. Qed.

(** The bytes of an accepted domain. *)
Definition domain_byte (b : ascii) : bool :=
  is_ascii_alphanumeric b || bool_decide (b = "-"%char) || bool_decide (b = "."%char)
  || bool_decide (b = "*"%char).

Lemma domain_byte_graphic b : domain_byte b = true → in_range b 33 126 = true.
Proof. destruct b as [[] [] [] [] [] [] [] []]; vm_compute; done. Qed.

Lemma bad_label_bytes l : bad_label l = false →
  l ≠ [] ∧ Forall (λ b, is_ascii_alphanumeric b || bool_decide (b = "-"%char) = true) l.
Proof.
  unfold bad_label. bsimpl. intros ((((? & _) & _) & _) & Hf). split; [done|].
  by apply forallb_Forall.
Qed.

Lemma bad_domain_labels v : bad_domain v = false →
  plain_domain v ≠ [] ∧ Forall (λ l, bad_label l = false) (split "."%char (plain_domain v)).
Proof.
  unfold bad_domain. intros H. bsimpl. destruct H as (((? & _) & _) & Hb). split; [done|].
  apply Forall_forall. intros l Hl. destruct (bad_label l) eqn:E; [|done].
  assert (existsb bad_label (split "."%char (plain_domain v)) = true) as Ht; [|congruence].
  apply existsb_exists. exists l. by rewrite <- list_elem_of_In.
Qed.

Lemma plain_domain_app v : ∃ p, v = p ++ plain_domain v ∧ (p = [] ∨ p = lit "*.").
Proof.
  unfold plain_domain. destruct (strip_prefix "*." v) as [r|] eqn:E; simpl.
  - apply strip_prefix_Some in E. eauto.
  - exists []. eauto.
Qed.

Lemma bad_domain_bytes v : bad_domain v = false → Forall (λ b, domain_byte b = true) v.
Proof.
  intros Hb. destruct (bad_domain_labels _ Hb) as [_ Hl].
  destruct (plain_domain_app v) as (p & Hv & Hp). rewrite Hv. apply Forall_app. split.
  { destruct Hp as [->| ->]; [constructor|]. repeat (constructor; [by vm_compute|]). constructor. }
  apply Forall_forall. intros x Hx. destruct (split_elem "."%char _ _ Hx) as [->|(l & Hin & Hxl)].
  { by vm_compute. }
  rewrite Forall_forall in Hl. destruct (bad_label_bytes _ (Hl _ Hin)) as [_ Hf].
  rewrite Forall_forall in Hf. specialize (Hf _ Hxl). unfold domain_byte.
  apply orb_true_iff in Hf as [->| ->]; by rewrite ?orb_true_r.
Qed.

Lemma bad_domain_last v : bad_domain v = false → trim_end_matches is_dot v = v.
Proof.
  intros Hb. destruct (bad_domain_labels _ Hb) as [Hne Hl].
  destruct (plain_domain_app v) as (p & Hv & _).
  apply trim_end_matches_id. intros c r Hr. unfold is_dot. case_bool_decide as Hc; [|done]. subst c.
  destruct (plain_domain v) as [|c s _] eqn:E using rev_ind; [done|].
  rewrite Hv, (assoc_L (++)) in Hr. apply app_inj_2 in Hr as [_ [= ->]]; [|done].
  rewrite Forall_forall in Hl. by specialize (Hl [] (split_trailing _ _)).
Qed.

Lemma canonical_accepted v : bad_domain (canonical v) = false →
  canonical (canonical v) = canonical v.
Proof.
  intros Hb. unfold canonical at 1. rewrite trim_graphic.
  - rewrite bad_domain_last by done. apply to_ascii_lowercase_idemp.
  - apply bad_domain_bytes in Hb. apply Forall_forall. intros x Hx.
    rewrite Forall_forall in Hb. by apply domain_byte_graphic, Hb.
Qed.

Lemma normalize_domain_ok v d :
  normalize_domain v = Ok d ↔ d = canonical v ∧ bad_domain (canonical v) = false.
Proof.
  unfold normalize_domain. cbv zeta. rewrite bind_unit_ok, reject_if_ok, ok_inj. naive_solver.
Qed.

(** A route host is normalised twice unless it is [localhost]. *)
Definition host_of (v : str) : str :=
  if bool_decide (canonical v = lit "localhost") then canonical v else canonical (canonical v).
Definition route_host_ok (v : str) : Prop :=
  canonical v = lit "localhost" ∨ bad_domain (canonical (canonical v)) = false.

Lemma normalize_route_host_ok v h :
  normalize_route_host v = Ok h ↔ h = host_of v ∧ route_host_ok v.
Proof.
  unfold normalize_route_host, host_of, route_host_ok. cbv zeta. case_bool_decide as Hl.
  - rewrite ok_inj. naive_solver.
  - rewrite normalize_domain_ok. naive_solver.
Qed.

Lemma host_of_accepted v : route_host_ok v → host_of (host_of v) = host_of v ∧ route_host_ok (host_of v).
Proof.
  intros Hok. unfold host_of at 2 3 4. case_bool_decide as Hl.
  - rewrite Hl. split; [by vm_compute|]. left. by vm_compute.
  - destruct Hok as [|Hok]; [done|]. pose proof (canonical_accepted _ Hok) as Hc.
    unfold host_of, route_host_ok. rewrite !Hc. split; [by case_bool_decide|by right].
Qed.

(** ** The certificate of a host *)

Lemma wildcard_matches_true host suffix :
  wildcard_matches host suffix = true ↔
  ∃ label, host = label ++ "."%char :: suffix ∧ "."%char ∉ label.
Proof.
  unfold wildcard_matches. split.
  - destruct (strip_suffix suffix host) as [p|] eqn:E; [|done].
    apply strip_suffix_Some in E as ->. rewrite andb_true_iff, ends_with_true, negb_true_iff.
    intros [[label ->] Hd]. change (lit ".") with ["."%char] in *.
    rewrite removelast_last, contains_char_false in Hd. exists label.
    by rewrite <- (assoc_L (++)).
  - intros (label & -> & Hd).
    assert (strip_suffix suffix (label ++ "."%char :: suffix) = Some (label ++ ["."%char])) as ->.
    { apply strip_suffix_Some. by rewrite <- (assoc_L (++)). }
    rewrite andb_true_iff, ends_with_true, negb_true_iff, removelast_last, contains_char_false.
    split; [by exists label|done].
Qed.

(** At most one suffix matches a host: the part after its first dot. *)
Lemma wildcard_matches_split host suffix :
  wildcard_matches host suffix = true ↔ ∃ label, split_once "."%char host = Some (label, suffix).
Proof. rewrite wildcard_matches_true. by setoid_rewrite split_once_Some. Qed.

Lemma wildcard_matches_none host suffix :
  split_once "."%char host = None → wildcard_matches host suffix = false.
Proof.
  intros Hs. destruct (wildcard_matches host suffix) eqn:E; [|done].
  apply wildcard_matches_split in E as [? E]. congruence.
Qed.

Lemma wildcard_matches_decide host label suf suffix :
  split_once "."%char host = Some (label, suf) →
  wildcard_matches host suffix = bool_decide (suffix = suf).
Proof.
  intros Hs. apply Bool.eq_true_iff_eq. rewrite wildcard_matches_split, bool_decide_eq_true. naive_solver.
Qed.

(** Looking for one key in an association list without duplicate keys. *)
Lemma omap_unique {A B} (k : str) (g : A → B) (l : list (str * A)) :
  NoDup l.*1 →
  omap (λ kv, if bool_decide (kv.1 = k) then Some (g kv.2) else None) l =
  match list_to_map (M:=gmap str A) l !! k with Some v => [g v] | None => [] end.
Proof.
  induction l as [|[k' v] l IH]; simpl; [done|]. intros [Hni Hnd]%NoDup_cons.
  specialize (IH Hnd). unfold omap in IH. case_bool_decide as Hk; subst.
  - rewrite lookup_insert_eq. f_equal. rewrite IH. by rewrite not_elem_of_list_to_map_1.
  - by rewrite lookup_insert_ne by done.
Qed.

Lemma omap_ext' {A B} (f g : A → option B) (l : list A) : (∀ x, f x = g x) → omap f l = omap g l.
Proof. intros H. unfold omap. induction l as [|x l IH]; simpl; [done|]. by rewrite H, IH. Qed.

Lemma wildcard_key (d suffix : str) :
  strip_prefix "*." d = Some suffix ↔ d = lit "*." ++ suffix.
Proof. apply strip_prefix_Some. Qed.

(** The owner of a host: the exact entry, or the entry of the wildcard over
    the part after the first dot. *)
Definition host_owner {A} (owners : gmap str A) (host : str) : option A :=
  match owners !! host with
  | Some owner => Some owner
  | None => '(_, suffix) ← split_once "."%char host; owners !! (lit "*." ++ suffix)
  end.

(** The body of the search, for a host whose first dot is known. *)
Lemma wildcard_candidate_at {A} host label suf (kv : str * A) :
  split_once "."%char host = Some (label, suf) →
  (suffix ← strip_prefix "*." kv.1;
   if wildcard_matches host suffix then Some (length suffix, kv.2) else None) =
  if bool_decide (kv.1 = lit "*." ++ suf) then Some (length suf, kv.2) else None.
Proof.
  intros Hs. destruct kv as [d v]; cbn [fst snd].
  destruct (strip_prefix "*." d) as [s|] eqn:Hd; cbn [mbind option_bind].
  - apply wildcard_key in Hd as ->. rewrite (wildcard_matches_decide _ _ _ s Hs).
    case_bool_decide as H1; case_bool_decide as H2; subst; try done.
    by apply app_inv_head in H2.
  - rewrite bool_decide_eq_false_2; [done|]. intros ->.
    assert (strip_prefix "*." (lit "*." ++ suf) = Some suf) by (by apply wildcard_key). congruence.
Qed.

Lemma list_to_map_perm {A} (m : gmap str A) (iter : list (str * A)) :
  iter ≡ₚ map_to_list m → NoDup iter.*1 ∧ list_to_map iter = m.
Proof.
  intros Hp. assert (Hnd : NoDup iter.*1) by (rewrite Hp; apply NoDup_fst_map_to_list).
  split; [done|]. by rewrite (list_to_map_proper _ _ Hnd Hp), list_to_map_to_list.
Qed.

Lemma wildcard_candidates_unique {A} (owners : gmap str A) iter host :
  iter ≡ₚ map_to_list owners →
  snd <$> max_by_len (wildcard_candidates host iter) =
  ('(_, suffix) ← split_once "."%char host; owners !! (lit "*." ++ suffix)).
Proof.
  intros [Hnd Hm]%list_to_map_perm. unfold wildcard_candidates.
  destruct (split_once "."%char host) as [[label suf]|] eqn:Hs; cbn [mbind option_bind].
  - rewrite (omap_ext' _ _ _ (λ kv, wildcard_candidate_at host label suf kv Hs)).
    rewrite (omap_unique (lit "*." ++ suf) (λ v, (length suf, v))) by done.
    rewrite Hm. by destruct (owners !! _).
  - rewrite (omap_ext' _ (λ _, None)).
    + unfold omap. clear. by induction iter.
    + intros [d v]. cbn [fst snd]. destruct (strip_prefix "*." d); [|done]. cbn [mbind option_bind].
      by rewrite wildcard_matches_none.
Qed.

(** ** What validation accepts *)

Definition valid_id (i : str) : Prop :=
  i ≠ [] ∧ len i <= 128 ∧ i ≠ lit "." ∧ i ≠ lit ".." ∧ Forall (λ b, valid_id_byte b = true) i.
Definition valid_display_name (n : str) : Prop := trim n ≠ [] ∧ len n <= 128.
(** A configured, non-empty secret. *)
Definition has_secret (o : option str) : Prop := ∃ v, o = Some v ∧ v ≠ [].

Definition acme_ok (a : AcmeAccountConfig) : Prop :=
  (acme_email a ≠ [] ∧ len (acme_email a) <= 254 ∧ "@"%char ∈ acme_email a) ∧
  match acme_provider a with
  | LetsEncrypt => eab_key_id a = None ∧ eab_hmac_key a = None
  | GoogleCloud => has_secret (eab_key_id a) ∧ has_secret (expose <$> eab_hmac_key a)
  end.

Definition dns_ok (a : DnsAccountConfig) : Prop :=
  match dns_provider a with
  | Cloudflare => has_secret (expose <$> api_token a) ∧ access_key a = None ∧ secret_key a = None
  | GoDaddy | Aliyun | TencentCloud =>
      api_token a = None ∧ has_secret (expose <$> access_key a) ∧ has_secret (expose <$> secret_key a)
  end.

Lemma validate_id_ok kind i u : validate_id kind i = Ok u ↔ valid_id i.
Proof.
  unfold validate_id, valid_id. rewrite reject_if_ok. bsimpl. rewrite forallb_Forall. tauto.
Qed.

Lemma validate_display_name_ok kind n u : validate_display_name kind n = Ok u ↔ valid_display_name n.
Proof. unfold validate_display_name, valid_display_name. rewrite reject_if_ok. bsimpl. tauto. Qed.

Lemma insert_unique_ok s kind v s' :
  insert_unique s kind v = Ok s' ↔ s' = {[v]} ∪ s ∧ v ∉ s.
Proof.
  unfold insert_unique. rewrite bind_unit_ok, reject_if_ok, bool_decide_eq_false, ok_inj. naive_solver.
Qed.

Lemma require_secret_ok kind name field v u : require_secret kind name field v = Ok u ↔ has_secret v.
Proof.
  unfold require_secret, has_secret. rewrite reject_if_ok. destruct v as [[|]|]; naive_solver.
Qed.

Lemma reject_secret_ok {A} kind name field (f : A → str) v u :
  reject_secret kind name field (f <$> v) = Ok u ↔ v = None.
Proof. unfold reject_secret. rewrite reject_if_ok. by destruct v. Qed.

Lemma reject_secret_ok' kind name field v u : reject_secret kind name field v = Ok u ↔ v = None.
Proof. unfold reject_secret. rewrite reject_if_ok. by destruct v. Qed.

Lemma AcmeAccountConfig_validate_ok a u : AcmeAccountConfig_validate a = Ok u ↔ acme_ok a.
Proof.
  unfold AcmeAccountConfig_validate, acme_ok.
  rewrite bind_unit_ok, reject_if_ok. bsimpl. rewrite contains_char_true.
  destruct (acme_provider a); rewrite bind_unit_ok.
  - rewrite reject_secret_ok', reject_secret_ok. tauto.
  - rewrite !require_secret_ok. tauto.
Qed.

Lemma DnsAccountConfig_validate_ok a u : DnsAccountConfig_validate a = Ok u ↔ dns_ok a.
Proof.
  unfold DnsAccountConfig_validate, dns_ok.
  destruct (dns_provider a); rewrite !bind_unit_ok, ?reject_secret_ok, ?require_secret_ok; tauto.
Qed.

Section accounts.
Context {A : Type} (aid aname : A → str) (ok : A → Prop).
Context (step : gset str * gset str → A → PResult (gset str * gset str)).
Definition account_acc (p : list A) : gset str * gset str :=
  (list_to_set (aid <$> p), list_to_set (aname <$> p)).
Hypothesis step_ok : ∀ st a st', step st a = Ok st' ↔
  st' = ({[aid a]} ∪ st.1, {[aname a]} ∪ st.2) ∧ valid_id (aid a) ∧ valid_display_name (aname a) ∧
  aid a ∉ st.1 ∧ aname a ∉ st.2 ∧ ok a.

(** A list of accounts: every account valid, identifiers and names unique. *)
Record accounts_ok (l : list A) : Prop := {
  ids_valid : Forall (λ a, valid_id (aid a)) l;
  names_valid : Forall (λ a, valid_display_name (aname a)) l;
  each_ok : Forall ok l;
  ids_unique : NoDup (aid <$> l);
  names_unique : NoDup (aname <$> l) }.

Lemma account_step_acc p a st :
  step (account_acc p) a = Ok st ↔
  st = account_acc (p ++ [a]) ∧ valid_id (aid a) ∧ valid_display_name (aname a) ∧
  aid a ∉ aid <$> p ∧ aname a ∉ aname <$> p ∧ ok a.
Proof.
  rewrite step_ok. unfold account_acc. cbn [fst snd].
  rewrite !list_to_set_snoc, !elem_of_list_to_set. done.
Qed.

Lemma accounts_loop l st :
  try_for step (∅, ∅) l = Ok st ↔ st = account_acc l ∧ accounts_ok l.
Proof.
  change (∅, ∅) with (account_acc []). rewrite try_for_acc.
  2: { intros p x s H. by apply account_step_acc in H as [-> _]. }
  setoid_rewrite is_ok_true. setoid_rewrite account_step_acc. split.
  - intros [-> H]. split; [done|].
    split; rewrite ?Forall_prefixes, ?NoDup_prefixes; intros p x q Hl; apply H in Hl; naive_solver.
  - intros (-> & [H1 H2 H3 H4 H5]). split; [done|]. intros p x q Hl.
    rewrite Forall_prefixes in H1, H2, H3. rewrite NoDup_prefixes in H4, H5.
    exists (account_acc (p ++ [x])). split_and!; eauto.
Qed.
End accounts.

Lemma validate_acme_ok st a st' : validate_acme st a = Ok st' ↔
  st' = ({[acme_id a]} ∪ st.1, {[acme_name a]} ∪ st.2) ∧ valid_id (acme_id a) ∧
  valid_display_name (acme_name a) ∧ acme_id a ∉ st.1 ∧ acme_name a ∉ st.2 ∧ acme_ok a.
Proof.
  unfold validate_acme. rewrite !bind_unit_ok, validate_id_ok, validate_display_name_ok, bind_ok.
  setoid_rewrite insert_unique_ok. setoid_rewrite bind_ok. setoid_rewrite insert_unique_ok.
  setoid_rewrite bind_unit_ok. setoid_rewrite AcmeAccountConfig_validate_ok. naive_solver.
Qed.

Lemma validate_dns_ok st a st' : validate_dns st a = Ok st' ↔
  st' = ({[dns_id a]} ∪ st.1, {[dns_name a]} ∪ st.2) ∧ valid_id (dns_id a) ∧
  valid_display_name (dns_name a) ∧ dns_id a ∉ st.1 ∧ dns_name a ∉ st.2 ∧ dns_ok a.
Proof.
  unfold validate_dns. rewrite !bind_unit_ok, validate_id_ok, validate_display_name_ok, bind_ok.
  setoid_rewrite insert_unique_ok. setoid_rewrite bind_ok. setoid_rewrite insert_unique_ok.
  setoid_rewrite bind_unit_ok. setoid_rewrite DnsAccountConfig_validate_ok. naive_solver.
Qed.

(** ** Certificates *)

(** No two entries collide, stated the way nested insertion loops check it. *)
Lemma NoDup_concat_prefixes {A B} (g : A → list B) (l : list A) :
  NoDup (concat (g <$> l)) ↔
  ∀ p x q, l = p ++ x :: q → NoDup (g x) ∧ ∀ y, y ∈ g x → y ∉ concat (g <$> p).
Proof.
  induction l as [|x l IH] using rev_ind; simpl.
  { split; [intros _ [|??] ???; done|constructor]. }
  rewrite fmap_app, concat_app, NoDup_app, IH. simpl. rewrite app_nil_r. split.
  - intros (H1 & H2 & H3) p y q Hl.
    destruct q as [|z q _] using rev_ind.
    + apply app_inj_2 in Hl as [-> [= ->]]; [|done]. split; [done|].
      intros y' Hy Hin. by apply (H2 _ Hin).
    + rewrite app_comm_cons, (assoc_L (++)) in Hl. apply app_inj_2 in Hl as [-> _]; [|done]. eauto.
  - intros H. split_and!.
    + intros p y q ->. apply (H p y (q ++ [x])). by rewrite <- (assoc_L (++)).
    + intros y Hy Hy'. destruct (H l x [] eq_refl) as [_ Hd]. by apply (Hd y).
    + by destruct (H l x [] eq_refl).
Qed.

Definition norm_cert (c : CertificateConfig) : CertificateConfig :=
  with_domains c (canonical <$> cert_domains c).

Definition domains_of (c : CertificateConfig) : list str := canonical <$> cert_domains c.
Definition entries_of (c : CertificateConfig) : list (str * str) :=
  (λ d, (d, cert_id c)) <$> domains_of c.
(** The table of domains and owners the certificates describe. *)
Definition entries (l : list CertificateConfig) : list (str * str) := concat (entries_of <$> l).
Definition owners_of (l : list CertificateConfig) : gmap str str := list_to_map (entries l).

Lemma entries_of_fst c : (entries_of c).*1 = domains_of c.
Proof. unfold entries_of. rewrite <- list_fmap_compose. apply list_fmap_id. Qed.

Lemma entries_fst l : (entries l).*1 = concat (domains_of <$> l).
Proof.
  unfold entries. induction l as [|c l IH]; [done|]. cbn [fmap list_fmap concat].
  rewrite fmap_app, entries_of_fst. f_equal. apply IH.
Qed.

Lemma list_to_map_None (l : list (str * str)) k :
  list_to_map (M:=gmap str str) l !! k = None ↔ k ∉ l.*1.
Proof. symmetry. apply not_elem_of_list_to_map. Qed.

Section cert_domains_loop.
Context (c : CertificateConfig) (pre : list (str * str)).
Definition domain_acc (p : list str) : domain_state :=
  {| own_domains := list_to_set (canonical <$> p);
     domain_owners := list_to_map (pre ++ ((λ d, (d, cert_id c)) <$> (canonical <$> p)));
     done_domains := canonical <$> p |}.

Lemma validate_cert_domain_acc p d st :
  validate_cert_domain c (domain_acc p) d = Ok st ↔
  st = domain_acc (p ++ [d]) ∧ bad_domain (canonical d) = false ∧
  canonical d ∉ canonical <$> p ∧ canonical d ∉ pre.*1.
Proof.
  unfold validate_cert_domain. rewrite bind_ok. setoid_rewrite normalize_domain_ok.
  setoid_rewrite bind_unit_ok. setoid_rewrite reject_if_ok. setoid_rewrite bool_decide_eq_false.
  cbn [own_domains domain_owners domain_acc]. setoid_rewrite elem_of_list_to_set.
  set (m := list_to_map _ : gmap str str).
  assert (Hm : canonical d ∉ canonical <$> p →
               (m !! canonical d = None ↔ canonical d ∉ pre.*1)).
  { intros Hd. subst m. rewrite list_to_map_None, fmap_app, not_elem_of_app, <- list_fmap_compose.
    assert (Hi : ∀ k : list str, (fst ∘ (λ d, (d, cert_id c))) <$> k = k) by (intros k; apply list_fmap_id).
    rewrite Hi. tauto. }
  assert (Hacc : canonical d ∉ canonical <$> p → canonical d ∉ pre.*1 →
    {| own_domains := {[canonical d]} ∪ list_to_set (canonical <$> p);
       domain_owners := <[canonical d:=cert_id c]> m;
       done_domains := (canonical <$> p) ++ [canonical d] |} = domain_acc (p ++ [d])).
  { intros H1 H2. unfold domain_acc. rewrite list_to_set_snoc. f_equal; [|by rewrite fmap_app].
    subst m. rewrite !fmap_app, (assoc_L (++)). symmetry. simpl.
    apply list_to_map_snoc. apply list_to_map_None. by apply Hm. }
  split.
  - intros (d' & [-> Hb] & Ho & H). pose proof (Hm Ho) as Hn. destruct (m !! canonical d) eqn:E; [done|].
    injection H as <-. pose proof (proj1 Hn eq_refl) as Hp. split_and!; try done. by apply Hacc.
  - intros (-> & Hb & Ho & Hp). exists (canonical d). split_and!; try done.
    apply (Hm Ho) in Hp as Hn. rewrite Hn. by rewrite <- Hacc by done.
Qed.

(** The domains of one certificate. *)
Record domains_ok : Prop := {
  domains_accepted : Forall (λ d, bad_domain (canonical d) = false) (cert_domains c);
  domains_unique : NoDup (domains_of c);
  domains_free : ∀ d, d ∈ domains_of c → d ∉ pre.*1 }.

Lemma cert_domains_loop st :
  try_for (validate_cert_domain c) (domain_acc []) (cert_domains c) = Ok st ↔
  st = domain_acc (cert_domains c) ∧ domains_ok.
Proof.
  rewrite try_for_acc. 2: { intros p x s H. by apply validate_cert_domain_acc in H as [-> _]. }
  setoid_rewrite is_ok_true. setoid_rewrite validate_cert_domain_acc. split.
  - intros [-> H]. split; [done|].
    split; unfold domains_of; rewrite ?Forall_prefixes, ?NoDup_prefixes;
      [intros p x q Hl; apply H in Hl; naive_solver..|].
    intros d (d' & -> & Hin)%list_elem_of_fmap. apply list_elem_of_split in Hin as (p & q & Hl).
    apply H in Hl. naive_solver.
  - intros (-> & [H1 H2 H3]). split; [done|]. unfold domains_of in *. intros p x q Hl.
    rewrite Forall_prefixes in H1. rewrite NoDup_prefixes in H2.
    exists (domain_acc (p ++ [x])). split_and!; eauto.
    apply H3. apply list_elem_of_fmap_2. rewrite Hl. apply elem_of_app. right. left.
Qed.
End cert_domains_loop.

(** References of a certificate. *)
Definition refs_ok (acme_ids dns_ids : list str) (c : CertificateConfig) : Prop :=
  acme_account_id c ∈ acme_ids ∧
  match cert_validation c with
  | Some (DnsAccount i) => i ∈ dns_ids
  | Some Manual => auto_renew c = false
  | None => is_Some (migration_error c) ∧ auto_renew c = false
  end ∧
  1 <= len (cert_domains c) <= 100.

Lemma len_nil {A} (l : list A) : l ≠ [] ↔ 1 <= len l.
Proof. unfold len. destruct l; simpl; [|split; [lia|done]]. split; [done|lia]. Qed.

Lemma validate_cert_refs_ok acme_ids dns_ids c u :
  validate_cert_refs (list_to_set acme_ids) (list_to_set dns_ids) c = Ok u ↔
  refs_ok acme_ids dns_ids c.
Proof.
  unfold validate_cert_refs, refs_ok.
  rewrite bind_unit_ok, reject_if_ok, bool_decide_eq_false, bind_unit_ok, reject_if_ok.
  rewrite orb_false_iff, bool_decide_eq_false, N.ltb_ge, len_nil, elem_of_list_to_set.
  assert (Hs : ¬ (acme_account_id c ∉ acme_ids) ↔ acme_account_id c ∈ acme_ids)
    by (destruct (decide (acme_account_id c ∈ acme_ids)); tauto).
  rewrite Hs. destruct (cert_validation c) as [[i|]|]; rewrite reject_if_ok.
  - rewrite bool_decide_eq_false, elem_of_list_to_set.
    assert (Hi : ¬ (i ∉ dns_ids) ↔ i ∈ dns_ids) by (destruct (decide (i ∈ dns_ids)); tauto).
    rewrite Hi. tauto.
  - tauto.
  - rewrite negb_false_iff, andb_true_iff, bool_decide_eq_true, negb_true_iff. tauto.
Qed.

Lemma CertificateConfig_validate_ok acme_ids dns_ids pre c r :
  CertificateConfig_validate (list_to_set acme_ids) (list_to_set dns_ids) (list_to_map pre) c = Ok r ↔
  r = (norm_cert c, list_to_map (pre ++ entries_of c)) ∧ refs_ok acme_ids dns_ids c ∧ domains_ok c pre.
Proof.
  unfold CertificateConfig_validate. rewrite bind_unit_ok, validate_cert_refs_ok, bind_ok.
  assert ({| own_domains := ∅; domain_owners := list_to_map pre; done_domains := [] |}
          = domain_acc c pre []) as ->.
  { unfold domain_acc. by rewrite !fmap_nil, app_nil_r. }
  setoid_rewrite cert_domains_loop. setoid_rewrite ok_inj. unfold domains_of. split.
  - intros (Hr & st & [-> Hd] & <-). done.
  - intros (-> & Hr & Hd). split; [done|]. exists (domain_acc c pre (cert_domains c)). done.
Qed.

Definition cert_acc (p : list CertificateConfig) : cert_state :=
  {| certificate_ids := list_to_set (cert_id <$> p);
     certificate_names := list_to_set (cert_name <$> p);
     cert_owners := owners_of p;
     done_certs := norm_cert <$> p |}.

Lemma entries_snoc p c : entries (p ++ [c]) = entries p ++ entries_of c.
Proof. unfold entries. rewrite fmap_app, concat_app. simpl. by rewrite app_nil_r. Qed.

Lemma validate_certificate_acc acme_ids dns_ids p c st :
  validate_certificate (list_to_set acme_ids) (list_to_set dns_ids) (cert_acc p) c = Ok st ↔
  st = cert_acc (p ++ [c]) ∧ valid_id (cert_id c) ∧ valid_display_name (cert_name c) ∧
  cert_id c ∉ cert_id <$> p ∧ cert_name c ∉ cert_name <$> p ∧
  refs_ok acme_ids dns_ids c ∧ domains_ok c (entries p).
Proof.
  unfold validate_certificate.
  rewrite bind_unit_ok, validate_id_ok, bind_unit_ok, validate_display_name_ok, bind_unit_ok,
    reject_if_ok, bind_unit_ok, reject_if_ok, !bool_decide_eq_false, bind_ok.
  cbn [certificate_ids certificate_names cert_owners done_certs cert_acc].
  rewrite !elem_of_list_to_set. unfold owners_of at 1. setoid_rewrite CertificateConfig_validate_ok.
  assert (cert_acc (p ++ [c]) =
    {| certificate_ids := {[cert_id c]} ∪ list_to_set (cert_id <$> p);
       certificate_names := {[cert_name c]} ∪ list_to_set (cert_name <$> p);
       cert_owners := list_to_map (entries p ++ entries_of c);
       done_certs := (norm_cert <$> p) ++ [norm_cert c] |}) as ->.
  { unfold cert_acc, owners_of. by rewrite !list_to_set_snoc, entries_snoc, fmap_app. }
  split.
  - intros (? & ? & ? & ? & [c' m] & ([= -> ->] & ? & ?) & [= <-]). done.
  - intros (-> & ? & ? & ? & ? & ? & ?). split_and!; try done. eexists. split; [by split|done].
Qed.

Record certs_ok (acme_ids dns_ids : list str) (l : list CertificateConfig) : Prop := {
  cert_ids_valid : Forall (λ c, valid_id (cert_id c)) l;
  cert_names_valid : Forall (λ c, valid_display_name (cert_name c)) l;
  cert_ids_unique : NoDup (cert_id <$> l);
  cert_names_unique : NoDup (cert_name <$> l);
  cert_refs : Forall (refs_ok acme_ids dns_ids) l;
  cert_domains_valid : Forall (λ c, Forall (λ d, bad_domain (canonical d) = false) (cert_domains c)) l;
  cert_domains_disjoint : NoDup (concat (domains_of <$> l)) }.

Lemma cert_loop acme_ids dns_ids l st :
  try_for (validate_certificate (list_to_set acme_ids) (list_to_set dns_ids)) (cert_acc []) l = Ok st ↔
  st = cert_acc l ∧ certs_ok acme_ids dns_ids l.
Proof.
  rewrite try_for_acc. 2: { intros p x s H. by apply validate_certificate_acc in H as [-> _]. }
  setoid_rewrite is_ok_true. setoid_rewrite validate_certificate_acc. split.
  - intros [-> H]. split; [done|].
    split; rewrite ?Forall_prefixes, ?NoDup_prefixes, ?NoDup_concat_prefixes; intros p x q Hl;
      apply H in Hl as (? & ? & ? & ? & ? & ? & ? & [? ? Hf]); try done.
    rewrite <- entries_fst. done.
  - intros (-> & [H1 H2 H3 H4 H5 H6 H7]). split; [done|]. intros p x q Hl.
    rewrite Forall_prefixes in H1, H2, H5, H6. rewrite NoDup_prefixes in H3, H4.
    rewrite NoDup_concat_prefixes in H7. destruct (H7 _ _ _ Hl) as [Hn Hf].
    exists (cert_acc (p ++ [x])). split_and!; eauto.
    split; eauto. by rewrite entries_fst.
Qed.

(** ** Routes *)

Section routes.
Context `{UriLib}.

Definition upstream_ok (u : str) : Prop :=
  ∃ uri, parse_uri u = Some uri ∧
    (uri_scheme uri = Some (lit "http") ∨ uri_scheme uri = Some (lit "https")) ∧
    uri_authority uri ≠ None ∧ uri_query uri = None.

Lemma validate_upstream_ok u x : validate_upstream u = Ok x ↔ upstream_ok u.
Proof.
  unfold validate_upstream, upstream_ok. rewrite bind_ok. setoid_rewrite bind_unit_ok.
  setoid_rewrite reject_if_ok. setoid_rewrite orb_false_iff. setoid_rewrite negb_false_iff.
  setoid_rewrite orb_true_iff. setoid_rewrite bool_decide_eq_true.
  setoid_rewrite bool_decide_eq_false. setoid_rewrite <- eq_None_not_Some.
  destruct (parse_uri u) as [uri|]; simpl; [|naive_solver].
  split; [intros (b & [= <-] & ?)|intros (b & [= <-] & ?)]; exists uri; tauto.
Qed.

Definition path_prefix_ok (p : str) : Prop :=
  starts_with "/" p = true ∧ "?"%char ∉ p ∧ "#"%char ∉ p.

Lemma validate_path_prefix_ok p u : validate_path_prefix p = Ok u ↔ path_prefix_ok p.
Proof.
  unfold validate_path_prefix, path_prefix_ok. rewrite reject_if_ok, !orb_false_iff, negb_false_iff,
    !contains_char_false. tauto.
Qed.

Definition norm_route (r : RouteConfig) : RouteConfig := with_host r (host_of (route_host r)).
Definition route_key (r : RouteConfig) : str * str := (host_of (route_host r), path_prefix r).
(** The certificate a route names exists and covers the host of the route. *)
Definition route_ref_ok (certs : list CertificateConfig) (r : RouteConfig) : Prop :=
  ∀ i, certificate_id r = Some i →
    i ∈ cert_id <$> certs ∧ host_owner (owners_of certs) (host_of (route_host r)) = Some i.

Lemma certificate_for_host_owner owners host :
  certificate_for_host owners (map_to_list owners) host = host_owner owners host.
Proof.
  unfold certificate_for_host, host_owner. by rewrite (wildcard_candidates_unique owners).
Qed.

Definition route_acc (p : list RouteConfig) : route_state :=
  {| route_names := list_to_set (route_name <$> p);
     route_keys := list_to_set (route_key <$> p);
     done_routes := norm_route <$> p |}.

Lemma validate_route_ref certs r h n u :
  h = host_of (route_host r) →
  match certificate_id r with
  | None => Ok tt
  | Some i =>
      _ ← reject_if (bool_decide (i ∉@{gset str} list_to_set (cert_id <$> certs)))
            (PInvalidConfig ("路由 " ++ n ++ " 引用了不存在的证书 " ++ i));
      reject_if (bool_decide (certificate_for_host (owners_of certs) (map_to_list (owners_of certs)) h
                              ≠ Some i))
        (PInvalidConfig ("证书 " ++ i ++ " 不包含路由域名 " ++ h))
  end = Ok u ↔ route_ref_ok certs r.
Proof.
  intros ->. unfold route_ref_ok. destruct (certificate_id r) as [i|]; [|by destruct u].
  rewrite bind_unit_ok, !reject_if_ok, !bool_decide_eq_false, elem_of_list_to_set,
    certificate_for_host_owner.
  assert (Hi : ¬ (i ∉ cert_id <$> certs) ↔ i ∈ cert_id <$> certs)
    by (destruct (decide (i ∈ cert_id <$> certs)); tauto).
  rewrite Hi.
  assert (Ho : ¬ (host_owner (owners_of certs) (host_of (route_host r)) ≠ Some i) ↔
               host_owner (owners_of certs) (host_of (route_host r)) = Some i)
    by (destruct (decide (host_owner (owners_of certs) (host_of (route_host r)) = Some i)); tauto).
  rewrite Ho. split; [by intros ? ? [= <-]|intros Hr; by apply Hr].
Qed.

Lemma validate_route_acc certs p r st :
  validate_route (list_to_set (cert_id <$> certs)) (owners_of certs) (route_acc p) r = Ok st ↔
  st = route_acc (p ++ [r]) ∧ valid_display_name (route_name r) ∧ route_name r ∉ route_name <$> p ∧
  route_host_ok (route_host r) ∧ path_prefix_ok (path_prefix r) ∧ upstream_ok (upstream r) ∧
  route_key r ∉ route_key <$> p ∧ route_ref_ok certs r.
Proof.
  unfold validate_route. rewrite bind_unit_ok, validate_display_name_ok, bind_ok.
  cbn [route_names route_keys done_routes route_acc].
  assert (route_acc (p ++ [r]) =
    {| route_names := {[route_name r]} ∪ list_to_set (route_name <$> p);
       route_keys := {[route_key r]} ∪ list_to_set (route_key <$> p);
       done_routes := (norm_route <$> p) ++ [norm_route r] |}) as ->.
  { unfold route_acc. by rewrite !list_to_set_snoc, fmap_app. }
  split.
  - intros (Hn & ns & [-> Hns]%insert_unique_ok & H1). rewrite elem_of_list_to_set in Hns.
    apply bind_ok in H1 as (h & [-> Hh]%normalize_route_host_ok & H1).
    rewrite bind_unit_ok, validate_path_prefix_ok, bind_unit_ok, validate_upstream_ok, bind_unit_ok,
      reject_if_ok, bool_decide_eq_false, elem_of_list_to_set, bind_unit_ok, validate_route_ref,
      ok_inj in H1 by done.
    destruct H1 as (? & ? & ? & ? & <-). done.
  - intros (-> & Hn & Hns & Hh & Hp & Hu & Hk & Hr). split; [done|].
    exists ({[route_name r]} ∪ list_to_set (route_name <$> p)). split.
    { apply insert_unique_ok. by rewrite elem_of_list_to_set. }
    apply bind_ok. exists (host_of (route_host r)). split; [by apply normalize_route_host_ok|].
    rewrite bind_unit_ok, validate_path_prefix_ok, bind_unit_ok, validate_upstream_ok, bind_unit_ok,
      reject_if_ok, bool_decide_eq_false, elem_of_list_to_set, bind_unit_ok, validate_route_ref,
      ok_inj by done. done.
Qed.

Record routes_ok (certs : list CertificateConfig) (l : list RouteConfig) : Prop := {
  route_names_valid : Forall (λ r, valid_display_name (route_name r)) l;
  route_names_unique : NoDup (route_name <$> l);
  route_hosts_valid : Forall (λ r, route_host_ok (route_host r)) l;
  route_paths_valid : Forall (λ r, path_prefix_ok (path_prefix r)) l;
  route_upstreams : Forall (λ r, upstream_ok (upstream r)) l;
  route_keys_unique : NoDup (route_key <$> l);
  route_refs : Forall (route_ref_ok certs) l }.

Lemma route_loop certs l st :
  try_for (validate_route (list_to_set (cert_id <$> certs)) (owners_of certs)) (route_acc []) l = Ok st ↔
  st = route_acc l ∧ routes_ok certs l.
Proof.
  rewrite try_for_acc. 2: { intros p x s Hs. by apply validate_route_acc in Hs as [-> _]. }
  setoid_rewrite is_ok_true. setoid_rewrite validate_route_acc. split.
  - intros [-> Hp]. split; [done|].
    split; rewrite ?Forall_prefixes, ?NoDup_prefixes; intros p x q Hl; apply Hp in Hl; naive_solver.
  - intros (-> & [H1 H2 H3 H4 H5 H6 H7]). split; [done|]. intros p x q Hl.
    rewrite Forall_prefixes in H1, H3, H4, H5, H7. rewrite (NoDup_prefixes route_name) in H2. rewrite (NoDup_prefixes route_key) in H6.
    exists (route_acc (p ++ [x])). split_and!; eauto.
Qed.

(** ** The whole validator *)

Record wf_proxy (c : ProxyConfig) : Prop := {
  wf_binds : http_bind (proxy c) ≠ https_bind (proxy c);
  wf_max : max_connections (proxy c) ≠ 0;
  wf_sizes : len (acme_accounts c) <= 64 ∧ len (dns_accounts c) <= 64 ∧
             len (certificates c) <= 256 ∧ len (routes c) <= 4096;
  wf_acme : accounts_ok acme_id acme_name acme_ok (acme_accounts c);
  wf_dns : accounts_ok dns_id dns_name dns_ok (dns_accounts c);
  wf_certs : certs_ok (acme_id <$> acme_accounts c) (dns_id <$> dns_accounts c) (certificates c);
  wf_routes : routes_ok (certificates c) (routes c) }.

(** The configuration with its domain and host names in canonical form. *)
Definition normalise (c : ProxyConfig) : ProxyConfig :=
  {| proxy := proxy c; acme_accounts := acme_accounts c; dns_accounts := dns_accounts c;
     certificates := norm_cert <$> certificates c; routes := norm_route <$> routes c |}.

Lemma ProxyConfig_validate_ok c c' :
  ProxyConfig_validate c = Ok c' ↔ c' = normalise c ∧ wf_proxy c.
Proof.
  unfold ProxyConfig_validate.
  rewrite bind_unit_ok, reject_if_ok, bool_decide_eq_false, bind_unit_ok, reject_if_ok, N.eqb_neq,
    bind_unit_ok, reject_if_ok, !orb_false_iff, !N.ltb_ge, bind_ok.
  setoid_rewrite (accounts_loop _ _ _ _ validate_acme_ok).
  cbv zeta. split.
  - intros (Hb & Hm & Hs & s1 & [-> Ha] & H1). apply bind_ok in H1 as (s2 & H2 & H1).
    apply (accounts_loop _ _ _ _ validate_dns_ok) in H2 as [-> Hd].
    apply bind_ok in H1 as (s3 & H2 & H1). change (Build_cert_state _ _ _ _) with (cert_acc []) in H2.
    apply cert_loop in H2 as [-> Hc]. apply bind_ok in H1 as (s4 & H2 & H1).
    change (Build_route_state _ _ _) with (route_acc []) in H2.
    apply route_loop in H2 as [-> Hr]. apply ok_inj in H1 as <-.
    split; [done|]. split; try done. tauto.
  - intros (-> & [Hb Hm Hs Ha Hd Hc Hr]). split_and!; try tauto.
    exists (account_acc acme_id acme_name (acme_accounts c)). split; [done|].
    apply bind_ok. exists (account_acc dns_id dns_name (dns_accounts c)). split.
    { by apply (accounts_loop _ _ _ _ validate_dns_ok). }
    apply bind_ok. exists (cert_acc (certificates c)). split.
    { change (Build_cert_state _ _ _ _) with (cert_acc []). by apply cert_loop. }
    apply bind_ok. exists (route_acc (routes c)). split; [|done].
    change (Build_route_state _ _ _) with (route_acc []). by apply route_loop.
Qed.
End routes.

(** ** Normal forms *)

Lemma domains_of_norm c :
  Forall (λ d, bad_domain (canonical d) = false) (cert_domains c) →
  domains_of (norm_cert c) = domains_of c.
Proof.
  unfold domains_of, norm_cert. simpl. induction 1 as [|d l Hd _ IH]; [done|].
  rewrite !fmap_cons. by rewrite canonical_accepted, IH.
Qed.

Lemma norm_cert_idemp c :
  Forall (λ d, bad_domain (canonical d) = false) (cert_domains c) →
  norm_cert (norm_cert c) = norm_cert c.
Proof.
  intros Hd. apply domains_of_norm in Hd. unfold domains_of, norm_cert in *. simpl in *. by rewrite Hd.
Qed.

Lemma certs_norm (l : list CertificateConfig) :
  Forall (λ c, Forall (λ d, bad_domain (canonical d) = false) (cert_domains c)) l →
  norm_cert <$> (norm_cert <$> l) = norm_cert <$> l ∧ entries (norm_cert <$> l) = entries l ∧
  domains_of <$> (norm_cert <$> l) = domains_of <$> l.
Proof.
  unfold entries. induction 1 as [|c l Hc _ (IH1 & IH2 & IH3)]; [done|].
  rewrite !fmap_cons. cbn [concat]. rewrite IH1, IH2, IH3, norm_cert_idemp, domains_of_norm by done.
  split_and!; try done. f_equal. unfold entries_of. by rewrite domains_of_norm.
Qed.

Lemma norm_ids (l : list CertificateConfig) :
  cert_id <$> (norm_cert <$> l) = cert_id <$> l ∧ cert_name <$> (norm_cert <$> l) = cert_name <$> l.
Proof. rewrite <- !list_fmap_compose. done. Qed.

Lemma certs_ok_norm acme_ids dns_ids l :
  certs_ok acme_ids dns_ids l → certs_ok acme_ids dns_ids (norm_cert <$> l).
Proof.
  intros [H1 H2 H3 H4 H5 H6 H7]. destruct (norm_ids l) as [Hi Hn].
  destruct (certs_norm l H6) as (_ & _ & Hd).
  split; rewrite ?Hi, ?Hn, ?Hd; try done; rewrite ?Forall_fmap.
  - done.
  - done.
  - eapply Forall_impl; [exact H5|]. intros c (? & ? & Hl). unfold compose, refs_ok. simpl.
    split; [done|]. split; [done|]. unfold len in *. by rewrite length_fmap.
  - eapply Forall_impl; [exact H6|]. intros c Hc. unfold compose. simpl. apply Forall_fmap.
    eapply Forall_impl; [exact Hc|]. intros d Hd'. unfold compose. by rewrite canonical_accepted.
Qed.

Section normal.
Context `{UriLib}.

Lemma routes_ok_norm certs l :
  Forall (λ c, Forall (λ d, bad_domain (canonical d) = false) (cert_domains c)) certs →
  routes_ok certs l →
  routes_ok (norm_cert <$> certs) (norm_route <$> l) ∧ norm_route <$> (norm_route <$> l) = norm_route <$> l.
Proof.
  intros Hc [H1 H2 H3 H4 H5 H6 H7].
  assert (Hkey : route_key <$> (norm_route <$> l) = route_key <$> l).
  { clear -H3. rewrite <- list_fmap_compose. induction H3 as [|r l Hr _ IH]; [done|].
    rewrite !fmap_cons, IH. f_equal. unfold compose, route_key. simpl.
    by rewrite (proj1 (host_of_accepted _ Hr)). }
  split.
  - split; rewrite ?Hkey, ?Forall_fmap, <- ?list_fmap_compose; try done.
    + eapply Forall_impl; [exact H3|]. intros r Hr. by apply host_of_accepted.
    + apply Forall_forall. intros r Hr. rewrite Forall_forall in H3, H7.
      specialize (H7 r Hr). specialize (H3 r Hr). intros i Hi.
      destruct (H7 i Hi) as [Hin Hown].
      rewrite (proj1 (norm_ids certs)). split; [done|].
      unfold owners_of in *. rewrite (proj1 (proj2 (certs_norm certs Hc))). simpl.
      by rewrite (proj1 (host_of_accepted _ H3)).
  - clear -H3. induction H3 as [|r l Hr _ IH]; [done|]. rewrite !fmap_cons, IH. f_equal.
    unfold norm_route, with_host. simpl. by rewrite (proj1 (host_of_accepted _ Hr)).
Qed.

Lemma wf_normalise c : wf_proxy c → wf_proxy (normalise c) ∧ normalise (normalise c) = normalise c.
Proof.
  intros [Hb Hm (? & ? & ? & ?) Ha Hd Hc Hr]. pose proof (cert_domains_valid _ _ _ Hc) as Hv.
  destruct (routes_ok_norm _ _ Hv Hr) as [Hr' Hn]. split.
  - split; simpl; try done.
    + unfold len in *. by rewrite !length_fmap.
    + by apply certs_ok_norm.
  - unfold normalise. simpl. by rewrite (proj1 (certs_norm _ Hv)), Hn.
Qed.
End normal.

Lemma cache_dir_irrelevant `{UriLib} c d : wf_proxy c →
  wf_proxy {| proxy := {| http_bind := http_bind (proxy c); https_bind := https_bind (proxy c);
                          cache_dir := d; max_connections := max_connections (proxy c) |};
              acme_accounts := acme_accounts c; dns_accounts := dns_accounts c;
              certificates := certificates c; routes := routes c |}.
Proof. by intros []. Qed.

(** ** Theorems *)

(** C39: [ProxyConfig::validate] accepts exactly the well-formed
    configurations: distinct listener addresses, at least one connection, the
    size limits, valid and unique account identifiers and names, the secrets
    each provider needs and no other, certificates whose references exist and
    whose canonical domains are valid and belong to one certificate only, and
    routes with unique names and (host, path) keys, valid upstreams, and a
    certificate that covers their host. On success it leaves the
    configuration with every domain and host in canonical form. *)
Theorem ProxyConfig_validate_spec `{UriLib} c c' :
  ProxyConfig_validate c = Ok c' ↔ c' = normalise c ∧ wf_proxy c.
Proof. apply ProxyConfig_validate_ok. Qed.

(** A configuration that loads, from the current or the migrated format,
    is well-formed and in normal form: validating it again succeeds and changes
    nothing. *)
Theorem load_normal `{UriLib, ProxyToml} file path c :
  ProxyConfig_load file path = Ok c → wf_proxy c ∧ ProxyConfig_validate c = Ok c.
Proof.
  unfold ProxyConfig_load, ProxyConfig_read. rewrite bind_ok. intros (c1 & H1 & [= <-]).
  apply bind_ok in H1 as (content & _ & H1). apply bind_ok in H1 as (c0 & _ & H1).
  apply ProxyConfig_validate_ok in H1 as [-> Hwf]. destruct (wf_normalise _ Hwf) as [Hw Hn].
  split; [by apply cache_dir_irrelevant|]. apply ProxyConfig_validate_ok.
  split; [|by apply cache_dir_irrelevant]. unfold normalise in *. simpl in *.
  injection Hn as -> ->. done.
Qed.

(** The certificate of a host does not depend on the order in which the
    domain table is iterated: it is the owner of the host itself or, failing
    that, the owner of the wildcard over everything after the first dot. *)
Theorem certificate_for_host_spec (owners : gmap str str) iter host :
  iter ≡ₚ map_to_list owners →
  certificate_for_host owners iter host =
  match owners !! host with
  | Some owner => Some owner
  | None => '(_, suffix) ← split_once "."%char host; owners !! (lit "*." ++ suffix)
  end.
Proof.
  intros Hp. unfold certificate_for_host. by rewrite (wildcard_candidates_unique owners).
Qed.

(** Replacing every secret value of a configuration. *)
Definition map_secrets (f : SecretString → SecretString) (c : ProxyConfig) : ProxyConfig :=
  {| proxy := proxy c;
     acme_accounts := (λ a, {| acme_id := acme_id a; acme_name := acme_name a;
       acme_provider := acme_provider a; acme_environment := acme_environment a;
       acme_email := acme_email a; acme_key_algorithm := acme_key_algorithm a;
       eab_key_id := eab_key_id a; eab_hmac_key := f <$> eab_hmac_key a |}) <$> acme_accounts c;
     dns_accounts := (λ a, {| dns_id := dns_id a; dns_name := dns_name a;
       dns_provider := dns_provider a; api_token := f <$> api_token a;
       access_key := f <$> access_key a; secret_key := f <$> secret_key a |}) <$> dns_accounts c;
     certificates := certificates c; routes := routes c |}.

(** The view served by the API is independent of the secret values (the
    EAB HMAC key and the DNS credentials): it only tells whether each is set. *)
Theorem config_view_hides_secrets f c : config_view (map_secrets f c) = config_view c.
Proof.
  unfold config_view, map_secrets. simpl. rewrite <- !list_fmap_compose. f_equal.
  - apply list_fmap_ext. intros i a _. unfold compose, acme_view. simpl. by destruct (eab_hmac_key a).
  - apply list_fmap_ext. intros i a _. unfold compose, dns_view. simpl.
    by destruct (api_token a), (access_key a), (secret_key a).
Qed.

Lemma migrate_routes_ok names l rs :
  try_for (migrate_route names) [] l = Ok rs ↔
  (∀ r n, r ∈ l → lr_certificate r = Some n → n ∈ names) ∧
  rs = (λ r, {| route_name := lr_name r; route_host := lr_host r; path_prefix := lr_path_prefix r;
                upstream := lr_upstream r; certificate_id := lr_certificate r |}) <$> l.
Proof.
  set (conv := λ r, {| route_name := lr_name r |}).
  assert (Hstep : ∀ acc r rs, migrate_route names acc r = Ok rs ↔
            (∀ n, lr_certificate r = Some n → n ∈ names) ∧ rs = acc ++ [conv r]).
  { intros acc r rs'. unfold migrate_route, conv. destruct (lr_certificate r) as [n|]; simpl.
    - case_bool_decide; simpl; rewrite ?ok_inj; naive_solver.
    - rewrite ok_inj. naive_solver. }
  change [] with (conv <$> []) at 1. rewrite (try_for_acc _ (λ p, conv <$> p)).
  2: { intros p r s [_ ->]%Hstep. by rewrite fmap_app. }
  setoid_rewrite is_ok_true. setoid_rewrite Hstep. split.
  - intros [-> Hp]. split; [|done]. intros r n (p & q & Hl)%list_elem_of_split Hr.
    apply Hp in Hl as (? & Hn & _). by apply Hn.
  - intros [Hc ->]. split; [done|]. intros p r q ->. eexists. split; [|done].
    intros n Hn. eapply Hc; [|done]. apply elem_of_app. right. left.
Qed.

(** Migrating the old format succeeds exactly when every route names a
    certificate of the file; every migrated certificate refers to an ACME
    account, and to a DNS account or to no validation method with an
    explanation, that the migrated configuration holds, none is renewed
    automatically, and routes keep their order and certificates. *)
Theorem migrate_spec l c :
  migrate l = Ok c →
  (∀ r n, r ∈ legacy_routes l → lr_certificate r = Some n → n ∈ lc_name <$> legacy_certificates l) ∧
  cert_id <$> certificates c = lc_name <$> legacy_certificates l ∧
  certificate_id <$> routes c = lr_certificate <$> legacy_routes l ∧
  (∀ k, k ∈ certificates c →
     acme_account_id k ∈ acme_id <$> acme_accounts c ∧ auto_renew k = false ∧
     match cert_validation k with
     | Some (DnsAccount i) => i ∈ dns_id <$> dns_accounts c ∧ migration_error k = None
     | Some Manual => False
     | None => is_Some (migration_error k)
     end) ∧
  (∀ r i, r ∈ routes c → certificate_id r = Some i → i ∈ cert_id <$> certificates c).
Proof.
  unfold migrate. rewrite bind_ok. intros (rs & Hrs & [= <-]).
  apply migrate_routes_ok in Hrs as [Href ->]. cbn [certificates acme_accounts dns_accounts routes].
  setoid_rewrite elem_of_list_to_set in Href.
  assert (Hids : cert_id <$> (migrate_cert <$> legacy_certificates l) = lc_name <$> legacy_certificates l).
  { rewrite <- list_fmap_compose. apply list_fmap_ext. intros i k _. unfold compose, migrate_cert.
    by destruct (lc_challenge k). }
  split_and!; [done|done|by rewrite <- list_fmap_compose| |].
  - intros k (lc & -> & Hin)%list_elem_of_fmap. unfold migrate_cert.
    assert (Ha : lit "acme-" ++ lc_name lc ∈ acme_id <$> (migrate_acme <$> legacy_certificates l)).
    { rewrite <- list_fmap_compose. apply list_elem_of_fmap. by exists lc. }
    destruct (lc_challenge lc) eqn:E; simpl; split_and!; try done.
    apply list_elem_of_fmap. exists {| dns_id := "dns-" ++ lc_name lc; dns_name := lc_name lc ++ " Cloudflare";
      dns_provider := Cloudflare; api_token := Build_SecretString <$> cloudflare_api_token lc;
      access_key := None; secret_key := None |}. split; [done|].
    rewrite list_elem_of_In, in_concat. exists (migrate_dns lc). rewrite <- !list_elem_of_In. split.
    { apply list_elem_of_fmap. by exists lc. }
    unfold migrate_dns. rewrite E. left.
  - intros r i (lr & -> & Hin)%list_elem_of_fmap Hi. simpl in Hi. rewrite Hids. eauto.
Qed.

(** ** Witnesses *)

(** A small URI reader for the examples: [http://authority], without query. *)
Definition sample_uri : UriLib :=
  {| Uri := str;
     parse_uri := λ s, strip_prefix "http://" s;
     uri_scheme := λ _, Some (lit "http");
     uri_authority := λ u, Some u;
     uri_path := λ _, lit "/";
     uri_query := λ _, None |}.

Definition sample_listener : ProxyListenerConfig :=
  {| http_bind := SockV4 (Build_Ipv4Addr 0 0 0 0) 80; https_bind := SockV4 (Build_Ipv4Addr 0 0 0 0) 443;
     cache_dir := [Normal "cache"]; max_connections := 10 |}.

Definition sample_legacy : LegacyProxyConfig :=
  {| legacy_proxy := sample_listener;
     legacy_certificates := [{| lc_name := "main"; lc_domains := [lit " *.Example.com. "];
        lc_email := "a@b"; lc_issuer := LegacyLetsEncrypt; lc_challenge := CloudflareDns01;
        lc_production := true; cloudflare_api_token := Some (lit "t"); cloudflare_zone_id := None;
        google_eab_key_id := None; google_eab_hmac_key := None; dns_propagation_seconds := None |}];
     legacy_routes := [{| lr_name := "r"; lr_host := "www.example.com"; lr_path_prefix := "/";
        lr_upstream := "http://up"; lr_certificate := Some (lit "main") |}] |}.

Definition sample_toml : ProxyToml :=
  {| parse_current := λ _, Err (lit "unknown field"); parse_legacy := λ _, Ok sample_legacy |}.

Definition sample_loaded : ProxyConfig :=
  match @ProxyConfig_load sample_uri sample_toml (Ok (lit "x")) [Normal "etc"; Normal "p.toml"] with
  | Ok c => c
  | Err _ => {| proxy := sample_listener; acme_accounts := []; dns_accounts := []; certificates := [];
                routes := [] |}
  end.

Lemma load_normal_witness :
  cert_domains <$> certificates sample_loaded = [[lit "*.example.com"]] ∧
  @wf_proxy sample_uri sample_loaded ∧
  @ProxyConfig_validate sample_uri sample_loaded = Ok sample_loaded.
Proof.
  split; [by vm_compute|].
  apply (@load_normal sample_uri sample_toml (Ok (lit "x")) [Normal "etc"; Normal "p.toml"] sample_loaded).
  by vm_compute.
Defined.

Lemma certificate_for_host_spec_witness :
  certificate_for_host {[lit "*.a.b" := lit "x"]} [(lit "*.a.b", lit "x")] (lit "w.a.b") = Some (lit "x").
Proof.
  rewrite (certificate_for_host_spec {[lit "*.a.b" := lit "x"]} [(lit "*.a.b", lit "x")] (lit "w.a.b")).
  - reflexivity.
  - by rewrite map_to_list_singleton.
Defined.

Lemma migrate_spec_witness :
  match migrate sample_legacy with
  | Ok c => cert_id <$> certificates c = [lit "main"] ∧ certificate_id <$> routes c = [Some (lit "main")]
  | Err _ => False
  end.
Proof.
  destruct (migrate sample_legacy) as [c|] eqn:E; [|by vm_compute in E].
  destruct (migrate_spec sample_legacy c E) as (_ & H1 & H2 & _). by rewrite H1, H2.
Defined.
