(* ===== verification/Router.v ===== *)
(** * Router: [gaterust-proxy/src/router.rs]

    The routing table of the reverse proxy: exact and wildcard hosts, each with
    its path prefixes, longest first.  The order in which [HashMap] yields its
    entries and the order in which [sort_unstable_by] leaves equal keys are
    not specified: class [Orders] abstracts them and the theorems hold for
    every choice. *)

From stdpp Require Import sorting.
From S2P Require Import Prelude RustStr Net ProxyConfig.

(** ** Data *)

#[local] Arguments strip_prefix : simpl never.

Section router.
Context `{UriLib}.

Record Route := { rt_name : str; rt_upstream : Uri; rt_tls : bool }.
Record RouteEntry := { entry_prefix : str; entry_route : Route }.
Record Router := {
  exact : gmap str (list RouteEntry);
  wildcard : list (str * list RouteEntry) }.

(** Longest prefix first; longest suffix first. *)
Definition longer_prefix (x y : RouteEntry) : Prop :=
  (length (entry_prefix y) ≤ length (entry_prefix x))%nat.
Definition longer_suffix (x y : str * list RouteEntry) : Prop :=
  (length y.1 ≤ length x.1)%nat.

(** What the standard library leaves open: the order of equal elements after
    an unstable sort and the iteration order of a hash map. *)
Class Orders := {
  sort_entries : list RouteEntry → list RouteEntry;
  sort_wildcard : gmap str (list RouteEntry) → list (str * list RouteEntry);
  sort_entries_perm : ∀ l, sort_entries l ≡ₚ l;
  sort_entries_sorted : ∀ l, StronglySorted longer_prefix (sort_entries l);
  sort_wildcard_perm : ∀ m, sort_wildcard m ≡ₚ map_to_list m;
  sort_wildcard_sorted : ∀ m, StronglySorted longer_suffix (sort_wildcard m) }.
Context `{!Orders}.

(** ** Operations *)

Definition path_matches (path prefix : str) : bool :=
  bool_decide (path = prefix)
  || match strip_prefix prefix path with
     | Some rest => ends_with "/" prefix || bool_decide (head rest = Some "/"%char)
     | None => false
     end.

Definition find_path (entries : list RouteEntry) (path : str) : option Route :=
  entry_route <$> List.find (λ e, path_matches path (entry_prefix e)) entries.

Definition route_entry (config : RouteConfig) : PResult RouteEntry :=
  uri ← ok_or (parse_uri (upstream config)) (PInvalidConfig ("上游 URI 无效: " ++ upstream config));
  Ok {| entry_prefix := path_prefix config;
        entry_route := {| rt_name := route_name config; rt_upstream := uri;
                          rt_tls := configured (certificate_id config) |} |}.

(** [map.entry(key).or_default().push(entry)] *)
Definition push_entry (m : gmap str (list RouteEntry)) (key : str) (e : RouteEntry)
  : gmap str (list RouteEntry) :=
  <[key := default [] (m !! key) ++ [e]]> m.

Notation tables := (gmap str (list RouteEntry) * gmap str (list RouteEntry))%type.

Definition add_route (st : tables) (config : RouteConfig) : PResult tables :=
  entry ← route_entry config;
  Ok match strip_prefix "*." (route_host config) with
     | Some suffix => (st.1, push_entry st.2 suffix entry)
     | None => (push_entry st.1 (route_host config) entry, st.2)
     end.

Definition Router_new (config : ProxyConfig) : PResult Router :=
  '(ex, wi) ← try_for add_route (∅, ∅) (routes config);
  Ok {| exact := sort_entries <$> ex; wildcard := sort_wildcard (sort_entries <$> wi) |}.

Definition Router_find (r : Router) (host path : str) : option Route :=
  match exact r !! host ≫= λ entries, find_path entries path with
  | Some route => Some route
  | None =>
      kv ← List.find (λ kv, wildcard_matches host kv.1) (wildcard r);
      find_path kv.2 path
  end.

(** ** The routes that serve a request *)

(** A route without wildcard serves its own host. *)
Definition serves_exact (host : str) (r : RouteConfig) : Prop :=
  strip_prefix "*." (route_host r) = None ∧ route_host r = host.
(** A wildcard route serves the hosts with one more label. *)
Definition serves_wild (host : str) (r : RouteConfig) : Prop :=
  ∃ label suffix, host = label ++ "."%char :: suffix ∧ "."%char ∉ label ∧
                  route_host r = lit "*." ++ suffix.
Definition serves_path (path : str) (r : RouteConfig) : Prop :=
  path = path_prefix r ∨
  ∃ rest, path = path_prefix r ++ rest ∧
          ((∃ p, path_prefix r = p ++ ["/"%char]) ∨ ∃ q, rest = "/"%char :: q).

(** [r] has the longest path prefix among the routes of [rs] that satisfy [P]
    and serve the path. *)
Definition longest (P : RouteConfig → Prop) (path : str) (rs : list RouteConfig) (r : RouteConfig) : Prop :=
  (r ∈ rs ∧ P r ∧ serves_path path r) ∧
  ∀ r', r' ∈ rs → P r' → serves_path path r' →
    (length (path_prefix r') ≤ length (path_prefix r))%nat.

Definition selected (host path : str) (rs : list RouteConfig) (r : RouteConfig) : Prop :=
  longest (serves_exact host) path rs r ∨
  ((∀ r', r' ∈ rs → serves_exact host r' → ¬ serves_path path r') ∧
   longest (serves_wild host) path rs r).

(** The entry of a route. *)
Definition entry_for (r : RouteConfig) (e : RouteEntry) : Prop := route_entry r = Ok e.

(** ** Lemmas *)

Lemma path_matches_true path r :
  path_matches path (path_prefix r) = true ↔ serves_path path r.
Proof.
  unfold path_matches, serves_path. rewrite orb_true_iff, bool_decide_eq_true.
  destruct (strip_prefix (path_prefix r) path) as [rest|] eqn:E.
  - apply strip_prefix_Some in E. rewrite orb_true_iff, ends_with_true, bool_decide_eq_true.
    split; intros [->|Hr]; try (by left); right.
    + exists rest. split; [done|]. destruct Hr as [[p Hp]|Hr]; [left; by exists p|right].
      destruct rest as [|c rest]; [done|]. injection Hr as ->. by exists rest.
    + destruct Hr as (rest' & Hp & Hr). rewrite E in Hp. apply app_inv_head in Hp as <-.
      destruct Hr as [[p Hp]|[q ->]]; [left; by exists p|by right].
  - split; intros [->|Hr]; try (by left). right.
    destruct Hr as (rest & -> & _). exfalso.
    assert (strip_prefix (path_prefix r) (path_prefix r ++ rest) = Some rest)
      by (by apply strip_prefix_Some). congruence.
Qed.

(** Two prefixes of one path with the same length are the same. *)
Lemma serves_path_prefix path r : serves_path path r → ∃ rest, path = path_prefix r ++ rest.
Proof.
  intros [->|(rest & -> & _)]; [exists []; by rewrite app_nil_r|by exists rest].
Qed.

Lemma serves_path_length path r r' :
  serves_path path r → serves_path path r' →
  length (path_prefix r) = length (path_prefix r') → path_prefix r = path_prefix r'.
Proof.
  intros [q Hq]%serves_path_prefix [q' Hq']%serves_path_prefix Hl.
  rewrite Hq in Hq'. by apply app_inj_1 in Hq' as [? _].
Qed.

(** The first match of a list sorted by decreasing prefix is the longest. *)
Lemma find_sorted (l : list RouteEntry) path :
  StronglySorted longer_prefix l →
  match List.find (λ e, path_matches path (entry_prefix e)) l with
  | Some e => e ∈ l ∧ path_matches path (entry_prefix e) = true ∧
      ∀ e', e' ∈ l → path_matches path (entry_prefix e') = true →
        (length (entry_prefix e') ≤ length (entry_prefix e))%nat
  | None => ∀ e, e ∈ l → path_matches path (entry_prefix e) = false
  end.
Proof.
  induction 1 as [|e l Hs IH Hf]; simpl; [intros e He; by apply not_elem_of_nil in He|].
  destruct (path_matches path (entry_prefix e)) eqn:E.
  - split_and!; [left|done|]. intros e' [->|He']%elem_of_cons _; [done|].
    rewrite Forall_forall in Hf. by apply Hf.
  - destruct (List.find _ l) as [e1|].
    + destruct IH as (H1 & H2 & H3). split_and!; [by right|done|].
      intros e' [->|He']%elem_of_cons Hm; [congruence|auto].
    + intros e' [->|He']%elem_of_cons; auto.
Qed.

Lemma serves_exact_key host r :
  serves_exact host r ↔
  match strip_prefix "*." (route_host r) with Some _ => None | None => Some (route_host r) end = Some host.
Proof. unfold serves_exact. destruct (strip_prefix "*." (route_host r)); naive_solver. Qed.

#[local] Instance serves_exact_dec host r : Decision (serves_exact host r).
Proof. unfold serves_exact. apply _. Defined.

(** The tables after the loop: each key holds the entries of its routes, in
    the order of the configuration. *)
Definition exact_routes (host : str) : list RouteConfig → list RouteConfig := filter (serves_exact host).
Definition wild_routes (suffix : str) : list RouteConfig → list RouteConfig :=
  filter (λ r, strip_prefix "*." (route_host r) = Some suffix).

Lemma push_entry_lookup m k e h :
  default [] (push_entry m k e !! h) = default [] (m !! h) ++ (if decide (k = h) then [e] else []).
Proof.
  unfold push_entry. case_decide as Hk; subst.
  - by rewrite lookup_insert_eq.
  - by rewrite lookup_insert_ne, app_nil_r.
Qed.

Lemma add_routes_ok rs ex wi :
  try_for add_route (∅, ∅) rs = Ok (ex, wi) →
  (∀ h, Forall2 entry_for (exact_routes h rs) (default [] (ex !! h))) ∧
  (∀ s, Forall2 entry_for (wild_routes s rs) (default [] (wi !! s))).
Proof.
  revert ex wi. induction rs as [|r rs IH] using rev_ind; intros ex wi.
  { intros [= <- <-]. split; intros h; rewrite lookup_empty; constructor. }
  rewrite try_for_app, bind_ok. intros ([ex0 wi0] & Hrs & H1). destruct (IH _ _ Hrs) as [He Hw].
  simpl in H1. rewrite bind_ok in H1. destruct H1 as (st & H1 & [= ->]).
  unfold add_route in H1. rewrite bind_ok in H1. destruct H1 as (e & Hentry & [= H1]).
  unfold exact_routes, wild_routes, serves_exact in *. cbn [fst snd] in H1.
  destruct (strip_prefix "*." (route_host r)) as [suf|] eqn:Hsuf; injection H1 as <- <-;
    split; intros h; rewrite filter_app, ?push_entry_lookup.
  - rewrite filter_cons_False, filter_nil, app_nil_r by naive_solver. apply He.
  - apply Forall2_app; [apply Hw|]. case_decide as Hd; subst.
    + rewrite filter_cons_True by done. by repeat constructor.
    + rewrite filter_cons_False by naive_solver. constructor.
  - apply Forall2_app; [apply He|]. case_decide as Hd; subst.
    + rewrite filter_cons_True by done. by repeat constructor.
    + rewrite filter_cons_False by naive_solver. constructor.
  - rewrite filter_cons_False, filter_nil, app_nil_r by naive_solver. apply Hw.
Qed.

(** Searching the entries of a group of routes [P] with distinct prefixes. *)
Lemma find_path_spec (P : RouteConfig → Prop) path rs l l' :
  (∀ r, r ∈ l ↔ r ∈ rs ∧ P r) →
  (∀ r r', r ∈ l → r' ∈ l → path_prefix r = path_prefix r' → r = r') →
  Forall2 entry_for l l' →
  (∀ x, find_path (sort_entries l') path = Some x ↔
     ∃ r e, longest P path rs r ∧ route_entry r = Ok e ∧ x = entry_route e) ∧
  (find_path (sort_entries l') path = None ↔ ∀ r, r ∈ rs → P r → ¬ serves_path path r).
Proof.
  intros Hl Huniq Hf. unfold find_path.
  assert (Hprefix : ∀ r e, entry_for r e → entry_prefix e = path_prefix r).
  { intros r e He. unfold entry_for, route_entry in He. rewrite bind_ok in He.
    destruct He as (u & _ & [= <-]). done. }
  assert (Hto : ∀ e, e ∈ sort_entries l' → ∃ r, r ∈ rs ∧ P r ∧ entry_for r e ∧ r ∈ l).
  { intros e He. rewrite sort_entries_perm in He. apply list_elem_of_lookup in He as [i Hi].
    destruct (Forall2_lookup_r _ _ _ _ _ Hf Hi) as (r & Hr & He).
    assert (Hin : r ∈ l) by (eapply list_elem_of_lookup_2; done). exists r. apply Hl in Hin as Hin'. naive_solver. }
  assert (Hfrom : ∀ r, r ∈ rs → P r → ∃ e, e ∈ sort_entries l' ∧ entry_for r e).
  { intros r Hr HP. assert (Hin : r ∈ l) by (by apply Hl). apply list_elem_of_lookup in Hin as [i Hi].
    destruct (Forall2_lookup_l _ _ _ _ _ Hf Hi) as (e & He & Hent). exists e. split; [|done].
    rewrite sort_entries_perm. eapply list_elem_of_lookup_2; done. }
  pose proof (find_sorted _ path (sort_entries_sorted l')) as Hfind.
  destruct (List.find _ (sort_entries l')) as [e|]; simpl.
  - destruct Hfind as (He & Hm & Hmax). destruct (Hto e He) as (r & Hr & HP & Hent & Hinl).
    rewrite (Hprefix r e Hent), path_matches_true in Hm.
    assert (Hlong : longest P path rs r).
    { split; [done|]. intros r' Hr' HP' Hs'. destruct (Hfrom r' Hr' HP') as (e' & He' & Hent').
      rewrite <- (Hprefix _ _ Hent), <- (Hprefix _ _ Hent'). apply Hmax; [done|].
      by rewrite (Hprefix _ _ Hent'), path_matches_true. }
    split.
    + intros x. split; [intros [= <-]; by exists r, e|]. intros (r' & e' & [(Hr' & HP' & Hs') Hmax'] & Hent' & ->).
      assert (r' = r) as ->.
      { apply Huniq; [by apply Hl|done|]. eapply serves_path_length; [done..|].
        apply Nat.le_antisymm; [by apply (proj2 Hlong)|by apply Hmax']. }
      unfold entry_for in Hent. rewrite Hent in Hent'. by injection Hent' as <-.
    + split; [done|]. intros Hnone. by destruct (Hnone r Hr HP).
  - split.
    + intros x. split; [done|]. intros (r & e & [(Hr & HP & Hs) _] & _ & _).
      destruct (Hfrom r Hr HP) as (e' & He' & Hent'). specialize (Hfind e' He').
      rewrite (Hprefix _ _ Hent') in Hfind. apply path_matches_true in Hs. congruence.
    + split; [|done]. intros _ r Hr HP Hs. destruct (Hfrom r Hr HP) as (e' & He' & Hent').
      specialize (Hfind e' He'). rewrite (Hprefix _ _ Hent') in Hfind. apply path_matches_true in Hs. congruence.
Qed.

(** The wildcard list is searched for the suffix after the first dot. *)
Lemma find_key {A} (k : str) (l : list (str * A)) :
  NoDup l.*1 →
  List.find (λ kv, bool_decide (kv.1 = k)) l = pair k <$> list_to_map (M:=gmap str A) l !! k.
Proof.
  induction l as [|[k' v] l IH]; [done|]. cbn [fmap list_fmap fst list_to_map foldr uncurry].
  intros [_ Hnd]%NoDup_cons. cbn [List.find fst]. case_bool_decide as Hk; subst.
  - rewrite lookup_insert_eq. done.
  - rewrite IH by done. rewrite lookup_insert_ne by done. done.
Qed.

Lemma find_ext {A} (f g : A → bool) l : (∀ x, f x = g x) → List.find f l = List.find g l.
Proof. intros Hf. induction l as [|x l IH]; simpl; [done|]. by rewrite Hf, IH. Qed.

Lemma find_wildcard (m : gmap str (list RouteEntry)) host :
  List.find (λ kv, wildcard_matches host kv.1) (sort_wildcard m) =
  '(_, suffix) ← split_once "."%char host; pair suffix <$> m !! suffix.
Proof.
  destruct (list_to_map_perm _ _ (sort_wildcard_perm m)) as [Hnd Hm].
  destruct (split_once "."%char host) as [[label suf]|] eqn:Hs; simpl.
  - rewrite (find_ext _ (λ kv, bool_decide (kv.1 = suf))).
    + by rewrite find_key, Hm.
    + intros kv. by apply (wildcard_matches_decide _ label).
  - rewrite (find_ext _ (λ _, false)).
    + clear. by induction (sort_wildcard m).
    + intros kv. by apply wildcard_matches_none.
Qed.

Lemma serves_wild_split host r :
  serves_wild host r ↔ ∃ label suffix, split_once "."%char host = Some (label, suffix) ∧
                                       strip_prefix "*." (route_host r) = Some suffix.
Proof.
  unfold serves_wild. setoid_rewrite split_once_Some. setoid_rewrite strip_prefix_Some. naive_solver.
Qed.

(** Routes of one group are told apart by their prefix. *)
Lemma same_route rs (r r' : RouteConfig) :
  NoDup ((λ r, (route_host r, path_prefix r)) <$> rs) → r ∈ rs → r' ∈ rs →
  route_host r = route_host r' → path_prefix r = path_prefix r' → r = r'.
Proof.
  intros Hnd [i Hi]%list_elem_of_lookup [j Hj]%list_elem_of_lookup Hh Hp.
  assert (i = j) as ->; [|congruence].
  eapply (NoDup_lookup _ i j (route_host r, path_prefix r) Hnd).
  - rewrite list_lookup_fmap, Hi. done.
  - rewrite list_lookup_fmap, Hj. simpl. by rewrite Hh, Hp.
Qed.

Lemma sort_entries_nil : sort_entries [] = [].
Proof. pose proof (sort_entries_perm []) as Hp. by apply Permutation_nil_r in Hp. Qed.

Lemma sorted_lookup {X} (f : list RouteEntry → option X) (m : gmap str (list RouteEntry)) k :
  f [] = None → (sort_entries <$> m) !! k ≫= f = f (sort_entries (default [] (m !! k))).
Proof. intros Hf. rewrite lookup_fmap. destruct (m !! k); simpl; [done|]. by rewrite sort_entries_nil. Qed.

(** The routes with a wildcard host. *)
Lemma find_wild_ok (rs : list RouteConfig) (wi : gmap str (list RouteEntry)) host path :
  NoDup ((λ r, (route_host r, path_prefix r)) <$> rs) →
  (∀ s, Forall2 entry_for (wild_routes s rs) (default [] (wi !! s))) →
  let w := kv ← ('(_, suffix) ← split_once "."%char host; pair suffix <$> (sort_entries <$> wi) !! suffix);
           find_path kv.2 path in
  (∀ x, w = Some x ↔ ∃ r e, longest (serves_wild host) path rs r ∧ route_entry r = Ok e ∧ x = entry_route e) ∧
  (w = None ↔ ∀ r, r ∈ rs → serves_wild host r → ¬ serves_path path r).
Proof.
  intros Hnd Hw. cbv zeta. destruct (split_once "."%char host) as [[label suf]|] eqn:Hs; cbn [mbind option_bind].
  - replace (kv ← pair suf <$> (sort_entries <$> wi) !! suf; find_path kv.2 path)
      with (find_path (sort_entries (default [] (wi !! suf))) path).
    2:{ rewrite lookup_fmap. destruct (wi !! suf); simpl; [done|]. by rewrite sort_entries_nil. }
    apply (find_path_spec _ path rs (wild_routes suf rs)); [| |apply Hw].
    + intros r. unfold wild_routes. rewrite list_elem_of_filter, serves_wild_split. naive_solver.
    + intros r r'. unfold wild_routes. rewrite !list_elem_of_filter, !strip_prefix_Some.
      intros [Hr Hin] [Hr' Hin']. apply (same_route rs); [done..|congruence].
  - split.
    + intros x. split; [done|]. intros (r & e & [(_ & Hr & _) _] & _).
      apply serves_wild_split in Hr as (? & ? & ? & _). congruence.
    + split; [|done]. intros _ r _ Hr. apply serves_wild_split in Hr as (? & ? & ? & _). congruence.
Qed.

Lemma Router_find_ok c R host path :
  NoDup ((λ r, (route_host r, path_prefix r)) <$> routes c) →
  Router_new c = Ok R →
  (∀ x, Router_find R host path = Some x ↔
     ∃ r e, selected host path (routes c) r ∧ route_entry r = Ok e ∧ x = entry_route e) ∧
  (Router_find R host path = None ↔
     ∀ r, r ∈ routes c → serves_path path r → ¬ serves_exact host r ∧ ¬ serves_wild host r).
Proof.
  intros Hnd HR. unfold Router_new in HR. rewrite bind_ok in HR. destruct HR as ([ex wi] & Hloop & [= <-]).
  apply add_routes_ok in Hloop as [He Hw]. unfold Router_find. cbn [exact wildcard].
  set (rs := routes c) in *.
  destruct (find_path_spec (serves_exact host) path rs (exact_routes host rs) (default [] (ex !! host)))
    as [Hx1 Hx2].
  { intros r. unfold exact_routes. rewrite list_elem_of_filter. tauto. }
  { intros r r'. unfold exact_routes. rewrite !list_elem_of_filter. intros [[_ Hr] Hin] [[_ Hr'] Hin'].
    apply (same_route rs); [done..|congruence]. }
  { apply He. }
  rewrite (sorted_lookup (λ entries, find_path entries path)) by done. rewrite find_wildcard. destruct (find_wild_ok rs wi host path Hnd Hw) as [Hw1 Hw2].
  set (w := _ ≫= _) in Hw1, Hw2. fold w. unfold selected.
  destruct (find_path (sort_entries (default [] (ex !! host))) path) as [x0|].
  - assert (Hsel := proj1 (Hx1 x0) eq_refl). destruct Hsel as (r0 & e0 & Hl0 & Hr0 & ->). split.
    + intros x. split; [intros [= <-]; exists r0, e0; split_and!; [by left|done..]|].
      intros (r & e & [Hl|[Hno _]] & Hr & ->).
      * apply Hx1. by exists r, e.
      * destruct Hl0 as [(Hin & HP & Hs) _]. by destruct (Hno r0 Hin HP).
    + split; [done|]. intros Hno. destruct Hl0 as [(Hin & HP & Hs) _].
      by destruct (Hno r0 Hin Hs) as [Hn _].
  - assert (Hno := proj1 Hx2 eq_refl). split.
    + intros x. rewrite Hw1. split.
      * intros (r & e & Hl & Hr & ->). exists r, e. split_and!; [right; by split|done..].
      * intros (r & e & [[(Hin & HP & Hs) _]|[_ Hl]] & Hr & ->); [by destruct (Hno r Hin HP)|by exists r, e].
    + rewrite Hw2. split.
      * intros Hn r Hin Hs. split; intros HP; [by apply (Hno r Hin HP)|by apply (Hn r Hin HP)].
      * intros Hn r Hin HP Hs. by destruct (Hn r Hin Hs) as [_ Hn'].
Qed.
End router.

(** ** Theorems *)

Lemma add_route_total `{UriLib} rs st :
  Forall (λ r, upstream_ok (upstream r)) rs → ∃ st', try_for add_route st rs = Ok st'.
Proof.
  intros Hf. revert st. induction Hf as [|r rs (u & Hu & _) _ IH]; intros st; [by exists st|].
  assert (Hs : ∃ s, add_route st r = Ok s).
  { unfold add_route, route_entry. rewrite Hu. by eexists. }
  destruct Hs as [s Hs]. destruct (IH s) as [st' Hst]. exists st'.
  change (try_for add_route st (r :: rs)) with (s' ← add_route st r; try_for add_route s' rs).
  by rewrite Hs.
Qed.

(** C16: the routing table of a validated configuration can always be built,
    and whatever order the hash maps and the unstable sorts choose, a request
    is given to the route with the longest path prefix among the routes of
    its own host that serve the path and, only when there is none, to the
    longest among the wildcard routes over its first dot; it is refused
    exactly when no route serves it. *)
Theorem router_serves_validated `{UriLib, !Orders} c c' host path :
  ProxyConfig_validate c = Ok c' →
  ∃ R, Router_new c' = Ok R ∧
    (∀ x, Router_find R host path = Some x ↔
       ∃ r e, selected host path (routes c') r ∧ route_entry r = Ok e ∧ x = entry_route e) ∧
    (Router_find R host path = None ↔
       ∀ r, r ∈ routes c' → serves_path path r → ¬ serves_exact host r ∧ ¬ serves_wild host r).
Proof.
  intros [-> Hwf]%ProxyConfig_validate_ok. destruct (wf_normalise _ Hwf) as [Hn Hnn].
  destruct (add_route_total (routes (normalise c)) (∅, ∅)) as [[ex wi] Hloop].
  { apply Hn. }
  assert (HR : ∃ R, Router_new (normalise c) = Ok R) by (unfold Router_new; rewrite Hloop; eauto).
  destruct HR as [R HR]. exists R. split; [done|]. apply Router_find_ok; [|done].
  assert (Hk : (λ r, (route_host r, path_prefix r)) <$> routes (normalise c) = route_key <$> routes c).
  { simpl. by rewrite <- list_fmap_compose. }
  rewrite Hk. apply Hwf.
Qed.

(** ** Witness *)

Definition longer_prefix_dec `{UriLib} x y : Decision (longer_prefix x y).
Proof. unfold longer_prefix. apply _. Defined.
Definition longer_suffix_dec `{UriLib} x y : Decision (longer_suffix x y).
Proof. unfold longer_suffix. apply _. Defined.

Lemma merge_StronglySorted {A} (R : relation A) `{∀ x y, Decision (R x y)} l :
  Total R → Transitive R → StronglySorted R (merge_sort R l).
Proof. intros ??. apply StronglySorted_merge_sort; apply _. Qed.

(** A choice of orders: stable merge sorts. *)
Program Definition merge_orders `{UriLib} : Orders :=
  {| sort_entries := @merge_sort _ longer_prefix longer_prefix_dec;
     sort_wildcard := λ m, @merge_sort _ longer_suffix longer_suffix_dec (map_to_list m) |}.
Next Obligation. intros. apply merge_sort_Permutation. Qed.
Next Obligation.
  intros. apply merge_StronglySorted; unfold longer_prefix.
  - intros x y. lia.
  - intros x y z ? ?. lia.
Qed.
Next Obligation. intros. apply merge_sort_Permutation. Qed.
Next Obligation.
  intros. apply merge_StronglySorted; unfold longer_suffix.
  - intros x y. lia.
  - intros x y z ? ?. lia.
Qed.

Lemma router_serves_validated_witness :
  ∃ R, @Router_new sample_uri (@merge_orders sample_uri) sample_loaded = Ok R ∧
    (@Router_find sample_uri R (lit "other.org") (lit "/") = None ↔
     ∀ r, r ∈ routes sample_loaded → serves_path (lit "/") r →
       ¬ serves_exact (lit "other.org") r ∧ ¬ serves_wild (lit "other.org") r).
Proof.
  destruct (@router_serves_validated sample_uri (@merge_orders sample_uri) sample_loaded sample_loaded
              (lit "other.org") (lit "/")) as (R & HR & _ & HN).
  - by vm_compute.
  - exists R. split; [exact HR|exact HN].
Defined.
