(* ===== verification/CertResolver.v ===== *)
(** * CertResolver: [CertificateResolver] of [gaterust-proxy/src/tls.rs]

    The table that gives the certificate of a server name during the TLS
    handshake.  Each certificate installs and removes its domains atomically
    (one write lock per operation). *)

From S2P Require Import Prelude RustStr Net ProxyConfig.

Section resolver.
(** The certificate source of an entry ([Arc<DirectResolver>]). *)
Context {R : Type}.

(** ** Data *)

Record ResolverEntry := { entry_owner : str; entry_resolver : R }.
Record ResolverState := {
  exact_names : gmap str ResolverEntry;
  wildcard_names : gmap str ResolverEntry }.

Definition CertificateResolver_new : ResolverState :=
  {| exact_names := ∅; wildcard_names := ∅ |}.

(** ** Operations *)

Definition retain_others (owner : str) (m : gmap str ResolverEntry) : gmap str ResolverEntry :=
  filter (λ kv, entry_owner kv.2 ≠ owner) m.

Definition CertificateResolver_remove (st : ResolverState) (owner : str) : ResolverState :=
  {| exact_names := retain_others owner (exact_names st);
     wildcard_names := retain_others owner (wildcard_names st) |}.

Definition insert_domain (entry : ResolverEntry) (st : ResolverState) (domain : str) : ResolverState :=
  match strip_prefix "*." domain with
  | Some suffix => {| exact_names := exact_names st;
                      wildcard_names := <[suffix := entry]> (wildcard_names st) |}
  | None => {| exact_names := <[domain := entry]> (exact_names st);
               wildcard_names := wildcard_names st |}
  end.

Definition replace_direct (st : ResolverState) (owner : str) (domains : list str) (resolver : R)
  : ResolverState :=
  foldl (insert_domain {| entry_owner := owner; entry_resolver := resolver |})
    {| exact_names := retain_others owner (exact_names st);
       wildcard_names := retain_others owner (wildcard_names st) |} domains.

(** [iter] is the order in which the wildcard table is iterated. *)
Definition resolver_for (st : ResolverState) (iter : list (str * ResolverEntry)) (server_name : str)
  : option R :=
  entry_resolver <$>
  match exact_names st !! server_name with
  | Some entry => Some entry
  | None =>
      snd <$> max_by_len
        (omap (λ kv, if wildcard_matches server_name kv.1 then Some (length kv.1, kv.2) else None) iter)
  end.

(** ** The table of the domains as the certificates write them *)

Definition entry_at (st : ResolverState) (domain : str) : option ResolverEntry :=
  match strip_prefix "*." domain with
  | Some suffix => wildcard_names st !! suffix
  | None => exact_names st !! domain
  end.

Lemma strip_wildcard suffix : strip_prefix "*." (lit "*." ++ suffix) = Some suffix.
Proof. by apply strip_prefix_Some. Qed.

Lemma entry_at_insert e st d d' :
  entry_at (insert_domain e st d) d' = if decide (d' = d) then Some e else entry_at st d'.
Proof.
  unfold entry_at, insert_domain.
  destruct (strip_prefix "*." d) as [s|] eqn:Hd, (strip_prefix "*." d') as [s'|] eqn:Hd'; cbn [exact_names wildcard_names].
  - apply strip_prefix_Some in Hd as ->, Hd' as ->. case_decide as Hs.
    + apply app_inv_head in Hs as ->. by rewrite lookup_insert_eq.
    + rewrite lookup_insert_ne; [done|]. by intros ->.
  - rewrite decide_False; [done|]. intros ->. congruence.
  - rewrite decide_False; [done|]. intros ->. congruence.
  - case_decide; subst; [by rewrite lookup_insert_eq|by rewrite lookup_insert_ne].
Qed.

Definition keep_other (owner : str) (e : ResolverEntry) : option ResolverEntry :=
  if decide (entry_owner e = owner) then None else Some e.

Lemma retain_others_lookup owner m k : retain_others owner m !! k = m !! k ≫= keep_other owner.
Proof.
  unfold retain_others. rewrite map_lookup_filter. destruct (m !! k) as [e|]; simpl; [|done].
  unfold keep_other. case_decide; case_guard; simpl; naive_solver.
Qed.

Lemma entry_at_remove st owner d :
  entry_at (CertificateResolver_remove st owner) d = entry_at st d ≫= keep_other owner.
Proof.
  unfold entry_at. destruct (strip_prefix "*." d); apply retain_others_lookup.
Qed.

Lemma entry_at_replace st owner domains r d :
  entry_at (replace_direct st owner domains r) d =
  if decide (d ∈ domains) then Some {| entry_owner := owner; entry_resolver := r |}
  else entry_at st d ≫= keep_other owner.
Proof.
  unfold replace_direct.
  change {| exact_names := _; wildcard_names := _ |} with (CertificateResolver_remove st owner).
  rewrite <- entry_at_remove. generalize (CertificateResolver_remove st owner) as st0.
  induction domains as [|x l IH] using rev_ind; intros st0.
  { by rewrite decide_False by apply not_elem_of_nil. }
  rewrite foldl_snoc, entry_at_insert, IH. destruct (decide (d = x)) as [->|Hd].
  - rewrite (decide_True (P := x ∈ l ++ [x])); [done|]. apply elem_of_app. right. left.
  - destruct (decide (d ∈ l)) as [Hin|Hin].
    + rewrite (decide_True (P := d ∈ l ++ [x])); [done|]. apply elem_of_app. by left.
    + rewrite (decide_False (P := d ∈ l ++ [x])); [done|].
      rewrite elem_of_app, list_elem_of_singleton. naive_solver.
Qed.

(** The certificate of a name, without iteration. *)
Lemma resolver_for_entry st iter name :
  iter ≡ₚ map_to_list (wildcard_names st) →
  resolver_for st iter name =
  entry_resolver <$> match exact_names st !! name with
                     | Some e => Some e
                     | None => '(_, suffix) ← split_once "."%char name; wildcard_names st !! suffix
                     end.
Proof.
  intros [Hnd Hm]%list_to_map_perm. unfold resolver_for. destruct (exact_names st !! name); [done|].
  destruct (split_once "."%char name) as [[label suf]|] eqn:Hs; cbn [mbind option_bind].
  - rewrite (omap_ext' _ (λ kv, if bool_decide (kv.1 = suf) then Some (length suf, kv.2) else None)).
    + rewrite (omap_unique suf (λ v, (length suf, v))) by done. rewrite Hm. by destruct (_ !! suf).
    + intros [k v]. cbn [fst snd]. rewrite (wildcard_matches_decide _ _ _ k Hs).
      by case_bool_decide; subst.
  - rewrite (omap_ext' _ (λ _, None)).
    + unfold omap. clear. by induction iter.
    + intros [k v]. cbn [fst snd]. by rewrite wildcard_matches_none.
Qed.

(** The exact table holds no wildcard. *)
Definition exact_ok (st : ResolverState) : Prop :=
  ∀ suffix, exact_names st !! (lit "*." ++ suffix) = None.

Lemma exact_ok_insert e st d : exact_ok st → exact_ok (insert_domain e st d).
Proof.
  unfold exact_ok, insert_domain. intros Hok s. destruct (strip_prefix "*." d) eqn:E; [apply Hok|].
  cbn [exact_names]. rewrite lookup_insert_ne; [apply Hok|]. intros ->. by rewrite strip_wildcard in E.
Qed.

Lemma exact_ok_remove st owner : exact_ok st → exact_ok (CertificateResolver_remove st owner).
Proof. intros Hok s. cbn [exact_names CertificateResolver_remove]. by rewrite retain_others_lookup, Hok. Qed.

Lemma exact_ok_replace st owner domains r : exact_ok st → exact_ok (replace_direct st owner domains r).
Proof.
  intros Hok. unfold replace_direct. change {| exact_names := _; wildcard_names := _ |} with (CertificateResolver_remove st owner).
  apply (exact_ok_remove _ owner) in Hok. revert Hok. generalize (CertificateResolver_remove st owner) as st0.
  induction domains as [|x l IH]; intros st0 Hok; [done|]. cbn [foldl]. apply IH. by apply exact_ok_insert.
Qed.

Lemma entry_at_wild st s : entry_at st (lit "*." ++ s) = wildcard_names st !! s.
Proof. unfold entry_at. by rewrite strip_wildcard. Qed.

Lemma resolver_for_at st iter name :
  exact_ok st → iter ≡ₚ map_to_list (wildcard_names st) →
  resolver_for st iter name =
  entry_resolver <$> match entry_at st name with
                     | Some e => Some e
                     | None => '(_, suffix) ← split_once "."%char name; entry_at st (lit "*." ++ suffix)
                     end.
Proof.
  intros Hok Hp. rewrite resolver_for_entry by done. f_equal.
  destruct (strip_prefix "*." name) as [s|] eqn:E.
  - apply strip_prefix_Some in E as ->. rewrite Hok.
    assert (split_once "."%char (lit "*." ++ s) = Some (lit "*", s)) as ->.
    { apply split_once_Some. split; [done|]. by intros [?|?%not_elem_of_nil]%elem_of_cons. }
    cbn [mbind option_bind]. rewrite entry_at_wild. by destruct (wildcard_names st !! s).
  - assert (entry_at st name = exact_names st !! name) as -> by (unfold entry_at; by rewrite E).
    destruct (exact_names st !! name); [done|].
    destruct (split_once "."%char name) as [[l s]|]; [|done]. cbn [mbind option_bind].
    by rewrite entry_at_wild.
Qed.
End resolver.
Arguments ResolverEntry : clear implicits.
Arguments ResolverState : clear implicits.

(** ** Theorems *)

(** Replacing the domains of a certificate gives it exactly the listed
    domains, takes every other domain away from it, and leaves the domains of
    the other certificates as they are, unless they are listed. *)
Theorem replace_direct_spec {R} (st : ResolverState R) owner domains r d :
  entry_at (replace_direct st owner domains r) d =
  if decide (d ∈ domains) then Some {| entry_owner := owner; entry_resolver := r |}
  else match entry_at st d with
       | Some e => if decide (entry_owner e = owner) then None else Some e
       | None => None
       end.
Proof. apply entry_at_replace. Qed.

Section installed.
Context {R : Type} (res : str → R).

(** Every certificate of a list is installed under its identifier. *)
Definition install_all (certs : list CertificateConfig) : ResolverState R :=
  foldl (λ st c, replace_direct st (cert_id c) (cert_domains c) (res (cert_id c)))
    CertificateResolver_new certs.

Lemma install_all_exact certs : exact_ok (install_all certs).
Proof.
  unfold install_all. induction certs as [|c l IH] using rev_ind; [done|].
  rewrite foldl_snoc. by apply exact_ok_replace.
Qed.

Lemma install_all_at certs d :
  NoDup (cert_id <$> certs) → NoDup (concat (cert_domains <$> certs)) →
  ∀ e, entry_at (install_all certs) d = Some e ↔
    ∃ c, c ∈ certs ∧ d ∈ cert_domains c ∧
         e = {| entry_owner := cert_id c; entry_resolver := res (cert_id c) |}.
Proof.
  unfold install_all. induction certs as [|c l IH] using rev_ind; intros Hid Hnd e.
  { unfold entry_at. cbn [foldl CertificateResolver_new exact_names wildcard_names]. split.
    - destruct (strip_prefix "*." d); by rewrite lookup_empty.
    - by intros (c & ?%not_elem_of_nil & _). }
  rewrite foldl_snoc, entry_at_replace. set (st := foldl _ _ l) in *.
  rewrite !fmap_app, concat_app in *. simpl in Hnd. rewrite app_nil_r in Hnd.
  apply NoDup_app in Hnd as (Hnd1 & Hdis & _). apply NoDup_app in Hid as (Hid1 & Hidis & _).
  specialize (IH Hid1 Hnd1). setoid_rewrite elem_of_app. setoid_rewrite list_elem_of_singleton.
  unfold keep_other. destruct (decide (d ∈ cert_domains c)) as [Hd|Hd].
  - split; [intros [= <-]; exists c; split_and!; [by right|done..]|]. intros (c' & [Hin| ->] & Hd' & ->); [|done].
    exfalso. apply (Hdis d); [|done]. rewrite list_elem_of_In, in_concat. exists (cert_domains c').
    rewrite <- !list_elem_of_In. split; [|done]. by apply list_elem_of_fmap_2.
  - destruct (entry_at st d) as [e'|] eqn:E; cbn [mbind option_bind].
    + destruct (proj1 (IH e') eq_refl) as (c' & Hin & Hd' & ->). cbn [entry_owner].
      rewrite decide_False.
      * split; [intros [= <-]; exists c'; split_and!; [by left|done..]|].
        intros (c2 & [Hin2| ->] & Hd2 & ->); [|done]. apply IH. by exists c2.
      * intros Heq. apply (Hidis (cert_id c')); [by apply list_elem_of_fmap_2|].
        rewrite Heq. left.
    + split; [done|]. intros (c' & [Hin| ->] & Hd' & ->); [|done].
      apply IH. by exists c'.
Qed.

Lemma owners_of_lookup l d i :
  NoDup (concat (domains_of <$> l)) →
  owners_of l !! d = Some i ↔ ∃ c, c ∈ l ∧ d ∈ domains_of c ∧ i = cert_id c.
Proof.
  intros Hnd. unfold owners_of. rewrite <- elem_of_list_to_map by by rewrite entries_fst.
  unfold entries. rewrite list_elem_of_In, in_concat. split.
  - intros (es & Hes%list_elem_of_In & Hin%list_elem_of_In).
    apply list_elem_of_fmap in Hes as (c & -> & Hc). exists c. split; [done|].
    unfold entries_of in Hin. apply list_elem_of_fmap in Hin as (d' & [= -> ->] & Hd). done.
  - intros (c & Hc & Hd & ->). exists (entries_of c). rewrite <- !list_elem_of_In. split.
    + by apply list_elem_of_fmap_2.
    + unfold entries_of. apply list_elem_of_fmap. by exists d.
Qed.

Lemma installed_owner l certs d :
  NoDup (cert_id <$> l) → NoDup (concat (domains_of <$> l)) →
  Forall (λ c, domains_of c = cert_domains c) l → certs ≡ₚ l →
  entry_resolver <$> entry_at (install_all certs) d = res <$> owners_of l !! d.
Proof.
  intros Hid Hnd Hnorm Hp.
  assert (Hdom : cert_domains <$> l = domains_of <$> l).
  { clear -Hnorm. induction Hnorm as [|c l Hc _ IH]; [done|]. by rewrite !fmap_cons, IH, Hc. }
  assert (Hat : ∀ e, entry_at (install_all certs) d = Some e ↔
    ∃ c, c ∈ l ∧ d ∈ cert_domains c ∧ e = {| entry_owner := cert_id c; entry_resolver := res (cert_id c) |}).
  { intros e. rewrite install_all_at; [by setoid_rewrite Hp|by rewrite Hp|]. by rewrite Hp, Hdom. }
  rewrite Forall_forall in Hnorm.
  destruct (owners_of l !! d) as [i|] eqn:Ho.
  - apply owners_of_lookup in Ho as (c & Hc & Hd & ->); [|done].
    erewrite (proj2 (Hat _)); [|exists c; rewrite <- Hnorm by done; done]. done.
  - destruct (entry_at (install_all certs) d) as [e|] eqn:E; [|done].
    destruct (proj1 (Hat e) eq_refl) as (c & Hc & Hd & _). rewrite <- Hnorm in Hd by done.
    assert (owners_of l !! d = Some (cert_id c)) by (apply owners_of_lookup; [done|by exists c]).
    congruence.
Qed.
End installed.

(** Once every certificate of a validated configuration is installed, in
    any order, the TLS handshake of every server name picks exactly the
    certificate that validation attributes to that name; in particular the
    host of every route is served with the certificate the route names. *)
Theorem resolver_agrees_with_config `{UriLib} {R} (res : str → R) c c' certs iter :
  ProxyConfig_validate c = Ok c' → certs ≡ₚ certificates c' →
  iter ≡ₚ map_to_list (wildcard_names (install_all res certs)) →
  let owners := owners_of (certificates c') in
  (∀ name, resolver_for (install_all res certs) iter name =
           res <$> certificate_for_host owners (map_to_list owners) name) ∧
  (∀ r i, r ∈ routes c' → certificate_id r = Some i →
          resolver_for (install_all res certs) iter (route_host r) = Some (res i)).
Proof.
  intros [-> Hwf]%ProxyConfig_validate_ok Hp Hiter owners.
  destruct (wf_normalise _ Hwf) as [Hn Hnn].
  assert (Hall : ∀ name, resolver_for (install_all res certs) iter name =
                 res <$> certificate_for_host owners (map_to_list owners) name).
  { intros name. rewrite resolver_for_at by (apply install_all_exact || done).
    rewrite certificate_for_host_owner. unfold host_owner.
    assert (Hd : ∀ d, entry_resolver <$> entry_at (install_all res certs) d = res <$> owners !! d).
    { intros d. apply installed_owner; [apply Hn..| |done]. simpl. apply Forall_fmap, Forall_forall.
      intros k Hk. unfold compose. rewrite domains_of_norm; [done|].
      pose proof (cert_domains_valid _ _ _ (wf_certs _ Hwf)) as Hv. rewrite Forall_forall in Hv. auto. }
    pose proof (Hd name) as H1. destruct (entry_at (install_all res certs) name), (owners !! name); try done.
    destruct (split_once "."%char name) as [[label suf]|]; [|done]. apply Hd. }
  split; [done|]. intros r i Hr Hi. rewrite Hall, certificate_for_host_owner.
  pose proof (route_refs _ _ (wf_routes _ Hn)) as Hrefs. rewrite Forall_forall in Hrefs.
  destruct (Hrefs r Hr i Hi) as [_ Ho]. fold owners in Ho.
  assert (host_of (route_host r) = route_host r) as <-; [|by rewrite Ho].
  apply list_elem_of_fmap in Hr as (r0 & -> & Hr0). simpl.
  pose proof (route_hosts_valid _ _ (wf_routes _ Hwf)) as Hh. rewrite Forall_forall in Hh.
  by apply host_of_accepted, Hh.
Qed.

(** ** Witness *)

Lemma resolver_agrees_with_config_witness :
  resolver_for (install_all id (certificates sample_loaded))
    [(lit "example.com", {| entry_owner := lit "main"; entry_resolver := lit "main" |})]
    (lit "www.example.com") = Some (lit "main").
Proof.
  rewrite (proj1 (@resolver_agrees_with_config sample_uri _ id sample_loaded sample_loaded
    (certificates sample_loaded)
    [(lit "example.com", {| entry_owner := lit "main"; entry_resolver := lit "main" |})]
    ltac:(by vm_compute) (Permutation_refl _) ltac:(reflexivity))).
  reflexivity.
Defined.
