(* ===== verification/Disk.v ===== *)
(** * Disk: programs that use a file system whose calls may fail

    Regular files are a map from paths to contents, as the processes of a
    running system see them.  Every system call may fail or be the last one
    before the process is killed ([Host]); what a power failure leaves of
    files that were not flushed is not this map ([Cache.power_cut]).  The
    programs of [Cache] and [ConfigStore] are written in this monad. *)

From S2P Require Import Prelude RustStr Net Paths.

Notation fs := (gmap (list component) (list ascii)).

(** ** System calls *)

(** What happens to the [n]-th system call: it succeeds, it fails, or the
    process is killed before or after its effect. *)
Inductive syscall_result := SysOk | SysFail (e : ErrorKind) | SysCrash (after : bool).

Class Host := {
  process_id : N;
  sys : nat → syscall_result;
  (** what an unfinished [write] leaves of its file *)
  partial : nat → option str }.

Record disk := { files : fs; calls : nat; temporary_file_id : N }.

Inductive outcome (E A : Type) := Done (a : A) | Failed (e : E) | Crashed.
Arguments Done {_ _} _.
Arguments Failed {_ _} _.
Arguments Crashed {_ _}.

Definition IO (E A : Type) : Type := disk → outcome E A * disk.

#[global] Instance IO_ret {E} : MRet (IO E) := λ A a d, (Done a, d).
#[global] Instance IO_bind {E} : MBind (IO E) := λ A B k m d,
  match m d with
  | (Done a, d) => k a d
  | (Failed e, d) => (Failed e, d)
  | (Crashed, d) => (Crashed, d)
  end.

Definition io_err {E A} (e : E) : IO E A := λ d, (Failed e, d).
Definition io_result {E A} (r : result E A) : IO E A :=
  match r with Ok a => mret a | Err e => io_err e end.

Definition with_files (d : disk) (m : fs) : disk :=
  {| files := m; calls := S (calls d); temporary_file_id := temporary_file_id d |}.

(** [From<io::Error>] of an error type. *)
Class FromIo (E : Type) := from_io : ErrorKind → E.

Section calls.
Context {H : Host} {Er : Type} {F : FromIo Er}.

(** A call with an effect, and what it leaves when it does not complete. *)
Definition syscall (effect unfinished : fs → fs) : IO Er unit := λ d,
  match sys (calls d) with
  | SysOk => (Done tt, with_files d (effect (files d)))
  | SysFail e => (Failed (from_io e), with_files d (unfinished (files d)))
  | SysCrash after => (Crashed, with_files d ((if after then effect else unfinished) (files d)))
  end.

Definition create_dir_all (p : Path) : IO Er unit := syscall id id.
Definition set_permissions (p : Path) : IO Er unit := syscall id id.
Definition fs_write (p : Path) (content : str) : IO Er unit := λ d,
  syscall <[p := content]>
    (λ m, match partial (calls d) with Some c => <[p := c]> m | None => m end) d.
Definition fs_rename (from to : Path) : IO Er unit := λ d,
  match files d !! from with
  | Some c => syscall (λ m, <[to := c]> (delete from m)) id d
  | None => (Failed (from_io NotFound), with_files d (files d))
  end.
Definition fs_remove (p : Path) : IO Er unit := syscall (delete p) id.

Definition read_optional (p : Path) : IO Er (option str) := λ d,
  match sys (calls d) with
  | SysOk => (Done (files d !! p), with_files d (files d))
  | SysFail NotFound => (Done None, with_files d (files d))
  | SysFail e => (Failed (from_io e), with_files d (files d))
  | SysCrash _ => (Crashed, with_files d (files d))
  end.

(** Reading a file, with its error as a value. *)
Definition fs_read (p : Path) : IO Er (result ErrorKind str) := λ d,
  match sys (calls d) with
  | SysOk => (Done (ok_or (files d !! p) NotFound), with_files d (files d))
  | SysFail e => (Done (Err e), with_files d (files d))
  | SysCrash _ => (Crashed, with_files d (files d))
  end.

(** [create_new]: an existing file is an error. *)
Definition fs_create_new (p : Path) : IO Er unit := λ d,
  if bool_decide (is_Some (files d !! p)) then (Failed (from_io AlreadyExists), with_files d (files d))
  else syscall <[p := []]> id d.

(** The clean-up after a failed replacement; its own failure is only logged. *)
Definition or_remove {A} (m : IO Er A) (temporary : Path) : IO Er A := λ d,
  match m d with
  | (Failed e, d) =>
      match fs_remove temporary d with
      | (Crashed, d) => (Crashed, d)
      | (_, d) => (Failed e, d)
      end
  | r => r
  end.

End calls.

(** ** Lemmas *)

Lemma io_bind_inv {Er A B} (m : IO Er A) (k : A → IO Er B) d o d' :
  (m ≫= k) d = (o, d') →
  (∃ a d1, m d = (Done a, d1) ∧ k a d1 = (o, d')) ∨
  (∃ e, m d = (Failed e, d') ∧ o = Failed e) ∨
  (m d = (Crashed, d') ∧ o = Crashed).
Proof. unfold mbind, IO_bind. destruct (m d) as [[a|e|] d1]; naive_solver. Qed.

Lemma io_result_inv {Er A} (r : result Er A) d o d' :
  io_result r d = (o, d') → d' = d ∧ o = match r with Ok a => Done a | Err e => Failed e end.
Proof. destruct r; simpl; intros [= <- <-]; done. Qed.

Section call_facts.
Context {H : Host} {Er : Type} {F : FromIo Er}.

(** A call without effect on the files. *)
Lemma syscall_id d (o : outcome Er unit) d' : syscall id id d = (o, d') → files d' = files d.
Proof.
  unfold syscall. destruct (sys (calls d)) as [| |[]]; intros [= <- <-]; done.
Qed.

Lemma fs_write_inv p c d (o : outcome Er unit) d' : fs_write p c d = (o, d') →
  (∀ q, q ≠ p → files d' !! q = files d !! q) ∧ (o = Done tt → files d' !! p = Some c).
Proof.
  unfold fs_write, syscall. assert (Hu : ∀ q m, q ≠ p →
    match partial (calls d) with Some c => <[p := c]> m | None => m end !! q = (m : fs) !! q).
  { intros q m Hq. destruct (partial _); [by rewrite lookup_insert_ne|done]. }
  destruct (sys (calls d)) as [| |[]]; intros [= <- <-]; cbn [files with_files]; split; try done;
    intros q; auto; try (intros Hq; by rewrite lookup_insert_ne). by rewrite lookup_insert_eq.
Qed.

Lemma fs_rename_inv from to d (o : outcome Er unit) d' c : files d !! from = Some c → fs_rename from to d = (o, d') →
  (∀ q, q ≠ to → q ≠ from → files d' !! q = files d !! q) ∧
  match o with
  | Done _ => files d' !! to = Some c
  | Failed _ => files d' !! to = files d !! to
  | Crashed => files d' !! to = files d !! to ∨ files d' !! to = Some c
  end.
Proof.
  unfold fs_rename, syscall. intros ->.
  destruct (sys (calls d)) as [| |[]]; intros [= <- <-]; cbn [files with_files id]; split; auto;
    try (intros q Hq Hq'; by rewrite lookup_insert_ne, lookup_delete_ne); try (by rewrite lookup_insert_eq).
  right. by rewrite lookup_insert_eq.
Qed.

Lemma fs_remove_inv p d (o : outcome Er unit) d' : fs_remove p d = (o, d') → ∀ q, q ≠ p → files d' !! q = files d !! q.
Proof.
  unfold fs_remove, syscall. destruct (sys (calls d)) as [| |[]]; intros [= <- <-] q Hq; cbn [files with_files id];
    by rewrite ?lookup_delete_ne.
Qed.

(** The part of [atomic_write] after its directory is ready. *)
Lemma replace_inv p c t d (o : outcome Er unit) d' : p ≠ t →
  or_remove (_ ← fs_write t c; _ ← set_permissions t; fs_rename t p) t d = (o, d') →
  (∀ q, q ≠ p → q ≠ t → files d' !! q = files d !! q) ∧
  match o with
  | Done _ => files d' !! p = Some c
  | Failed _ => files d' !! p = files d !! p
  | Crashed => files d' !! p = files d !! p ∨ files d' !! p = Some c
  end.
Proof.
  intros Hpt. unfold or_remove. destruct ((_ ← fs_write t c; _ ← set_permissions t; fs_rename t p) d)
    as [r d1] eqn:E.
  assert (Hbody : (∀ q, q ≠ p → q ≠ t → files d1 !! q = files d !! q) ∧
    match r with
    | Done _ => files d1 !! p = Some c
    | Failed _ => files d1 !! p = files d !! p
    | Crashed => files d1 !! p = files d !! p ∨ files d1 !! p = Some c
    end).
  { apply io_bind_inv in E as [([] & d2 & E1 & E)|[(e & E1 & ->)|[E1 ->]]];
      apply fs_write_inv in E1 as [Hq1 Ht1]; [|by split; auto..].
    specialize (Ht1 eq_refl).
    apply io_bind_inv in E as [([] & d3 & E2 & E)|[(e & E2 & ->)|[E2 ->]]];
      apply syscall_id in E2; rewrite <- E2 in Hq1, Ht1; [|by split; auto..].
    apply (fs_rename_inv _ _ _ _ _ _ Ht1) in E as [Hq2 Ho]. split.
    - intros q Hq Hqt. rewrite Hq2 by done. by apply Hq1.
    - destruct r; rewrite <- ?(Hq1 p Hpt); done. }
  destruct Hbody as [Hq Ho]. destruct r as [[]|e|]; [by intros [= <- <-]| |by intros [= <- <-]].
  destruct (fs_remove t d1) as [r2 d2] eqn:E2. pose proof (fs_remove_inv _ _ _ _ E2) as Hr.
  assert (Hfin : (∀ q, q ≠ p → q ≠ t → files d2 !! q = files d !! q) ∧ files d2 !! p = files d !! p).
  { split; [intros q Hq1 Hq2; rewrite Hr by done; auto|]. by rewrite Hr. }
  destruct r2; intros [= <- <-]; split; try apply Hfin. left. apply Hfin.
Qed.

End call_facts.
