(* ===== verification/Cache.v ===== *)
(** * Cache: [gaterust-proxy/src/cache.rs]

    The on-disk cache of ACME accounts and certificates.  Files are a map
    from paths to contents; every system call may fail or be the last one
    before the process is killed ([Host]).  JSON, PEM and X.509 are
    parameters.  Nothing is flushed ([sync_all] is never called), so what
    holds when the process is killed does not hold after a power failure:
    [power_cut_splits_pair]. *)

From S2P Require Import Prelude RustStr Net Disk ProxyConfig.

Notation IO := (IO ProxyError).
#[global] Instance proxy_from_io : FromIo ProxyError := PIo.

Section cache.
Context {H : Host}.

(** ** [atomic_write] *)

(** [Path::with_extension]. *)
Definition file_stem (name : str) : str :=
  match rsplit_once "."%char name with
  | Some ([], _) | None => name
  | Some (stem, _) => stem
  end.
Definition with_extension (p : Path) (extension : str) : Path :=
  match path_file_name p with
  | Some name => removelast p ++ [Normal (file_stem name ++ "." ++ extension)]
  | None => p
  end.

Definition prepare_private_directory (p : Path) : IO unit :=
  _ ← create_dir_all p;
  set_permissions p.

Definition fetch_temporary_id : IO N := λ d,
  (Done (temporary_file_id d),
   {| files := files d; calls := calls d; temporary_file_id := (temporary_file_id d + 1) mod 2 ^ 64 |}).

Definition temporary_path (p : Path) (n : N) : Path :=
  with_extension p ("tmp-" ++ dec process_id ++ "-" ++ dec n).

Definition atomic_write (p : Path) (content : str) : IO unit :=
  parent ← io_result (ok_or (path_parent p) (PInvalidConfig "缓存文件缺少父目录"));
  _ ← prepare_private_directory parent;
  n ← fetch_temporary_id;
  let temporary := temporary_path p n in
  or_remove
    (_ ← fs_write temporary content;
     _ ← set_permissions temporary;
     fs_rename temporary p) temporary.

(** ** The caches *)

Record AccountMetadata := {
  am_directory_url : str; am_key_algorithm : KeyAlgorithm; am_registered : bool }.
Record CertificateMetadata := {
  cm_acme_account_id : str; cm_domains : list str; cm_expires_at : N }.
Record LegacyCertificateMetadata := { lm_domains : list str }.
Record CachedCertificate := {
  cached_certificate : str; cached_private_key : str; cached_expires_at : N }.

(** [serde_json] at the three metadata types. *)
Class Json := {
  account_to_json : AccountMetadata → result str str;
  account_of_json : str → result str AccountMetadata;
  certificate_to_json : CertificateMetadata → result str str;
  certificate_of_json : str → result str CertificateMetadata;
  legacy_of_json : str → result str LegacyCertificateMetadata;
  account_json_roundtrip : ∀ a s, account_to_json a = Ok s → account_of_json s = Ok a;
  certificate_json_roundtrip : ∀ a s, certificate_to_json a = Ok s → certificate_of_json s = Ok a }.

(** [rustls_pemfile] and [x509_parser]: the first certificate of a PEM text
    and the [notAfter] of its leaf, in seconds since the Unix epoch. *)
Class X509 := {
  Der : Type;
  pem_first : str → result ErrorKind (option Der);
  not_after : Der → result str Z }.
Context {J : Json} {X : X509}.

Definition parse_certificate_expiry (certificate_pem : str) : result ProxyError N :=
  first ← map_err PIo (pem_first certificate_pem);
  certificate ← ok_or first (PTls "证书链为空");
  t ← map_err (λ e, PTls ("解析叶证书失败: " ++ e)) (not_after certificate);
  if (0 <=? t)%Z then Ok (Z.to_N t) else Err (PTls "叶证书过期时间早于 Unix epoch").

(** Identifiers are validated: one ordinary path component. *)
Definition account_directory (root : Path) (account_id : str) : Path :=
  path_join (path_join root [Normal "accounts"]) [Normal account_id].
Definition certificate_directory (root : Path) (certificate_id : str) : Path :=
  path_join (path_join root [Normal "certificates"]) [Normal certificate_id].
Definition legacy_directory (root : Path) (certificate_id : str) : Path :=
  path_join root [Normal certificate_id].

Definition load_private_key (directory : Path) (config : AcmeAccountConfig)
  : IO (option (str * bool)) :=
  content ← read_optional (path_join directory [Normal "metadata-v1.json"]);
  match content with
  | None => mret None
  | Some content =>
      metadata ← io_result (map_err PJson (account_of_json content));
      if negb (bool_decide (am_directory_url metadata = directory_url config))
         || negb (bool_decide (am_key_algorithm metadata = acme_key_algorithm config))
      then mret None
      else
        key ← read_optional (path_join directory [Normal "private-key.pem"]);
        mret ((λ key, (key, am_registered metadata)) <$> key)
  end.

Definition store_private_key (directory : Path) (config : AcmeAccountConfig) (private_key : str)
  (registered : bool) : IO unit :=
  _ ← atomic_write (path_join directory [Normal "private-key.pem"]) private_key;
  json ← io_result (map_err PJson (account_to_json
           {| am_directory_url := directory_url config;
              am_key_algorithm := acme_key_algorithm config; am_registered := registered |}));
  atomic_write (path_join directory [Normal "metadata-v1.json"]) json.

Definition metadata_matches (m : CertificateMetadata) (config : CertificateConfig) : bool :=
  bool_decide (cm_acme_account_id m = acme_account_id config)
  && bool_decide (cm_domains m = cert_domains config).

Definition read_pair (stored_expiry : option N) (directory : Path) : IO (option CachedCertificate) :=
  certificate ← read_optional (path_join directory [Normal "certificate.pem"]);
  private_key ← read_optional (path_join directory [Normal "private-key.pem"]);
  match certificate, private_key with
  | Some certificate, Some private_key =>
      expires_at ← io_result (parse_certificate_expiry certificate);
      if match stored_expiry with Some stored => negb (stored =? expires_at) | None => false end
      then io_err (PTls "证书缓存中的过期时间与叶证书不一致")
      else mret (Some {| cached_certificate := certificate; cached_private_key := private_key;
                         cached_expires_at := expires_at |})
  | _, _ => mret None
  end.

Definition load_current (directory : Path) (config : CertificateConfig) : IO (option CachedCertificate) :=
  content ← read_optional (path_join directory [Normal "metadata-v2.json"]);
  match content with
  | None => mret None
  | Some content =>
      metadata ← io_result (map_err PJson (certificate_of_json content));
      if metadata_matches metadata config
      then read_pair (Some (cm_expires_at metadata)) directory
      else mret None
  end.

Definition load_legacy (legacy : Path) (config : CertificateConfig) : IO (option CachedCertificate) :=
  content ← read_optional (path_join legacy [Normal "certificate-v1.json"]);
  match content with
  | None => mret None
  | Some content =>
      metadata ← io_result (map_err PJson (legacy_of_json content));
      if bool_decide (lm_domains metadata = cert_domains config)
      then read_pair None legacy
      else mret None
  end.

(** [CertificateCache::new(root, id)] is the pair of its directories. *)
Definition load_certificate (root : Path) (id : str) (config : CertificateConfig)
  : IO (option CachedCertificate) :=
  current ← load_current (certificate_directory root id) config;
  match current with
  | Some certificate => mret (Some certificate)
  | None => load_legacy (legacy_directory root id) config
  end.

Definition store_certificate (root : Path) (id : str) (config : CertificateConfig)
  (certificate private_key : str) : IO N :=
  let directory := certificate_directory root id in
  expires_at ← io_result (parse_certificate_expiry certificate);
  _ ← atomic_write (path_join directory [Normal "certificate.pem"]) certificate;
  _ ← atomic_write (path_join directory [Normal "private-key.pem"]) private_key;
  json ← io_result (map_err PJson (certificate_to_json
           {| cm_acme_account_id := acme_account_id config; cm_domains := cert_domains config;
              cm_expires_at := expires_at |}));
  _ ← atomic_write (path_join directory [Normal "metadata-v2.json"]) json;
  mret expires_at.
End cache.

(** ** Lemmas *)

(** A temporary file of the cache, by its name. *)
Definition temporary (q : Path) : Prop :=
  ∃ stem x, path_file_name q = Some (stem ++ lit ".tmp-" ++ x).

Section cache_facts.
Context {H : Host}.

Lemma last_snoc_name (p : Path) n : path_file_name (p ++ [Normal n]) = Some n.
Proof. unfold path_file_name. by rewrite last_snoc. Qed.

Lemma temporary_path_temporary p n : is_Some (path_file_name p) → temporary (temporary_path p n).
Proof.
  intros [name Hn]. unfold temporary_path, with_extension. rewrite Hn.
  exists (file_stem name), (dec process_id ++ "-" ++ dec n). rewrite last_snoc_name. f_equal.
Qed.

(** What [atomic_write] does to the files: only its target and temporary
    files change, and the target is replaced as a whole or not at all. *)
Lemma atomic_write_inv p c d o d' :
  is_Some (path_file_name p) → ¬ temporary p → atomic_write p c d = (o, d') →
  (∀ q, q ≠ p → ¬ temporary q → files d' !! q = files d !! q) ∧
  match o with
  | Done _ => files d' !! p = Some c
  | Failed _ => files d' !! p = files d !! p
  | Crashed => files d' !! p = files d !! p ∨ files d' !! p = Some c
  end.
Proof.
  intros Hn Ht E. unfold atomic_write in E.
  apply io_bind_inv in E as [(parent & d1 & E1 & E)|[(e & E1 & ->)|[E1 ->]]];
    apply io_result_inv in E1 as [-> E1]; [|by auto..].
  unfold prepare_private_directory in E.
  apply io_bind_inv in E as [([] & d2 & E2 & E)|[(e & E2 & ->)|[E2 ->]]].
  - assert (Hf : files d2 = files d).
    { apply io_bind_inv in E2 as [([] & d3 & E3 & E2)|[(e & E3 & [=])|[E3 [=]]]].
      apply syscall_id in E3, E2. congruence. }
    unfold fetch_temporary_id in E. cbn [mbind IO_bind] in E.
    apply replace_inv in E as [Hq Ho].
    + cbn [files] in Hq, Ho. rewrite Hf in Hq, Ho. split; [|done]. intros q Hqp Hqt. apply Hq; [done|].
      intros ->. by apply Hqt, temporary_path_temporary.
    + intros Heq. apply Ht. rewrite Heq. by apply temporary_path_temporary.
  - assert (Hf : files d' = files d).
    { apply io_bind_inv in E2 as [([] & d3 & E3 & E2)|[(e' & E3 & [=])|[E3 [=]]]];
        [apply syscall_id in E3, E2; congruence|by apply syscall_id in E3]. }
    rewrite Hf. auto.
  - assert (Hf : files d' = files d).
    { apply io_bind_inv in E2 as [([] & d3 & E3 & E2)|[(e' & E3 & [=])|[E3 _]]];
        [apply syscall_id in E3, E2; congruence|by apply syscall_id in E3]. }
    rewrite Hf. auto.
Qed.
End cache_facts.

(** ** Reading the cache when no call fails *)

Definition quiet : Host := {| process_id := 0; sys := λ _, SysOk; partial := λ _, None |}.

Section views.
Context {J : Json} {X : X509}.

Definition of_result {A} (r : result ProxyError A) : outcome ProxyError A :=
  match r with Ok a => Done a | Err e => Failed e end.

Definition pair_view (stored : option N) (certificate key : option str)
  : result ProxyError (option CachedCertificate) :=
  match certificate, key with
  | Some certificate, Some key =>
      expires_at ← parse_certificate_expiry certificate;
      if match stored with Some stored => negb (stored =? expires_at) | None => false end
      then Err (PTls "证书缓存中的过期时间与叶证书不一致")
      else Ok (Some {| cached_certificate := certificate; cached_private_key := key;
                       cached_expires_at := expires_at |})
  | _, _ => Ok None
  end.

Definition current_view (config : CertificateConfig) (metadata certificate key : option str)
  : result ProxyError (option CachedCertificate) :=
  match metadata with
  | None => Ok None
  | Some content =>
      metadata ← map_err PJson (certificate_of_json content);
      if metadata_matches metadata config
      then pair_view (Some (cm_expires_at metadata)) certificate key
      else Ok None
  end.

Definition legacy_view (config : CertificateConfig) (metadata certificate key : option str)
  : result ProxyError (option CachedCertificate) :=
  match metadata with
  | None => Ok None
  | Some content =>
      metadata ← map_err PJson (legacy_of_json content);
      if bool_decide (lm_domains metadata = cert_domains config)
      then pair_view None certificate key
      else Ok None
  end.

Lemma quiet_read {B} p (k : option str → IO B) d :
  (read_optional (H:=quiet) p ≫= k) d = k (files d !! p) (with_files d (files d)).
Proof. reflexivity. Qed.

Lemma io_result_bind {A B} (r : result ProxyError A) (k : A → IO B) d :
  (io_result r ≫= k) d = match r with Ok a => k a d | Err e => (Failed e, d) end.
Proof. by destruct r. Qed.

Lemma read_pair_quiet stored dir d :
  ∃ d', read_pair (H:=quiet) stored dir d =
    (of_result (pair_view stored (files d !! path_join dir [Normal "certificate.pem"])
                  (files d !! path_join dir [Normal "private-key.pem"])), d') ∧ files d' = files d.
Proof.
  unfold read_pair, pair_view. rewrite !quiet_read. cbn [files with_files].
  destruct (files d !! _) as [c|]; [|by eexists]. destruct (files d !! _) as [key|]; [|by eexists].
  rewrite io_result_bind. destruct (parse_certificate_expiry c) as [n|e]; [|by eexists].
  cbn [mbind result_bind]. destruct stored as [s|]; [destruct (negb (s =? n))|]; by eexists.
Qed.

Lemma load_current_quiet dir config d :
  ∃ d', load_current (H:=quiet) dir config d =
    (of_result (current_view config (files d !! path_join dir [Normal "metadata-v2.json"])
                  (files d !! path_join dir [Normal "certificate.pem"])
                  (files d !! path_join dir [Normal "private-key.pem"])), d') ∧ files d' = files d.
Proof.
  unfold load_current, current_view. rewrite quiet_read.
  destruct (files d !! _) as [content|]; [|by eexists]. rewrite io_result_bind.
  destruct (certificate_of_json content) as [m|e]; [|by eexists]. cbn [map_err mbind result_bind].
  destruct (metadata_matches m config); [|by eexists].
  destruct (read_pair_quiet (Some (cm_expires_at m)) dir (with_files d (files d))) as (d' & Hr & Hd).
  exists d'. split; [exact Hr|exact Hd].
Qed.

Lemma load_legacy_quiet dir config d :
  ∃ d', load_legacy (H:=quiet) dir config d =
    (of_result (legacy_view config (files d !! path_join dir [Normal "certificate-v1.json"])
                  (files d !! path_join dir [Normal "certificate.pem"])
                  (files d !! path_join dir [Normal "private-key.pem"])), d') ∧ files d' = files d.
Proof.
  unfold load_legacy, legacy_view. rewrite quiet_read.
  destruct (files d !! _) as [content|]; [|by eexists]. rewrite io_result_bind.
  destruct (legacy_of_json content) as [m|e]; [|by eexists]. cbn [map_err mbind result_bind].
  case_bool_decide; [|by eexists].
  destruct (read_pair_quiet None dir (with_files d (files d))) as (d' & Hr & Hd).
  exists d'. split; [exact Hr|exact Hd].
Qed.

(** What loading a certificate finds on a disk. *)
Definition load_quiet (root : Path) (id : str) (config : CertificateConfig) (d : disk)
  : outcome ProxyError (option CachedCertificate) := (load_certificate (H:=quiet) root id config d).1.

Definition dir_view (view : option str → option str → option str → result ProxyError (option CachedCertificate))
  (metadata : str) (dir : Path) (m : fs) : result ProxyError (option CachedCertificate) :=
  view (m !! path_join dir [Normal metadata]) (m !! path_join dir [Normal "certificate.pem"])
    (m !! path_join dir [Normal "private-key.pem"]).

Lemma load_quiet_view root id config d :
  load_quiet root id config d =
  of_result
    (current ← dir_view (current_view config) "metadata-v2.json" (certificate_directory root id) (files d);
     match current with
     | Some c => Ok (Some c)
     | None => dir_view (legacy_view config) "certificate-v1.json" (legacy_directory root id) (files d)
     end).
Proof.
  unfold load_quiet, load_certificate, dir_view.
  destruct (load_current_quiet (certificate_directory root id) config d) as (d' & Hc & Hd).
  unfold mbind at 1, IO_bind. rewrite Hc.
  destruct (current_view config _ _ _) as [[c|]|e]; [done| |done].
  destruct (load_legacy_quiet (legacy_directory root id) config d') as (d2 & Hl & _).
  cbn [of_result mbind result_bind]. rewrite Hl, Hd. done.
Qed.
End views.

Lemma contains_str_app p a b : contains_str p (a ++ p ++ b) = true.
Proof.
  induction a as [|x a IH]; simpl.
  - destruct (p ++ b) eqn:E; simpl; apply orb_true_iff; left; rewrite <- ?E; apply starts_with_true; by eexists.
  - by rewrite IH, orb_true_r.
Qed.

Lemma not_temporary (p : Path) n : contains_str ".tmp-" n = false → ¬ temporary (p ++ [Normal n]).
Proof.
  intros Hn (stem & x & Hq). rewrite last_snoc_name in Hq. injection Hq as ->.
  pose proof (contains_str_app (lit ".tmp-") stem x) as Hc.
  exact (eq_true_false_abs _ Hc Hn).
Qed.

(** The files of a directory of the cache. *)
Definition file_of (dir : Path) (n : str) : Path := path_join dir [Normal n].
Lemma file_of_name dir n : is_Some (path_file_name (file_of dir n)).
Proof. unfold file_of. simpl. rewrite last_snoc_name. by eexists. Qed.
Lemma file_of_inj dir n n' : file_of dir n = file_of dir n' → n = n'.
Proof. unfold file_of. simpl. intros [= ->]%app_inv_head. done. Qed.
Lemma file_of_plain dir n : contains_str ".tmp-" n = false → ¬ temporary (file_of dir n).
Proof. apply not_temporary. Qed.

Lemma legacy_disjoint root id n n' :
  file_of (legacy_directory root id) n ≠ file_of (certificate_directory root id) n'.
Proof.
  unfold file_of, legacy_directory, certificate_directory. simpl. intros Heq.
  apply (f_equal length) in Heq. rewrite !length_app in Heq. simpl in Heq. lia.
Qed.

(** The replacements [ws] took place, in order, up to temporary files. *)
Definition put_all (ws : list (Path * str)) (m : fs) : fs := foldl (λ m w, <[w.1 := w.2]> m) m ws.
Definition applied (d : disk) (ws : list (Path * str)) (d' : disk) : Prop :=
  ∀ q, ¬ temporary q → files d' !! q = put_all ws (files d) !! q.

Lemma put_all_lookup ws m m' q : m !! q = m' !! q → put_all ws m !! q = put_all ws m' !! q.
Proof.
  revert m m'. induction ws as [|[p c] ws IH]; intros m m' Hq; [done|]. apply IH. simpl.
  destruct (decide (q = p)) as [->|Hqp]; [by rewrite !lookup_insert_eq|by rewrite !lookup_insert_ne].
Qed.

Lemma applied_trans d ws d1 ws' d2 : applied d ws d1 → applied d1 ws' d2 → applied d (ws ++ ws') d2.
Proof.
  intros H1 H2 q Hq. rewrite (H2 q Hq). unfold put_all at 2. rewrite foldl_app.
  apply put_all_lookup. by apply H1.
Qed.

Section store.
Context {H : Host} {J : Json} {X : X509}.

Lemma atomic_write_applied p c d o d' :
  is_Some (path_file_name p) → ¬ temporary p → atomic_write p c d = (o, d') →
  (applied d [(p, c)] d' ∧ ∀ e, o ≠ Failed e) ∨ (applied d [] d' ∧ o ≠ Done tt).
Proof.
  intros Hn Ht E. destruct (atomic_write_inv p c d o d' Hn Ht E) as [Hq Ho].
  assert (Hnew : files d' !! p = Some c → applied d [(p, c)] d').
  { intros Hp q Hqt. simpl. destruct (decide (q = p)) as [->|Hqp]; [by rewrite lookup_insert_eq|].
    rewrite lookup_insert_ne by done. auto. }
  assert (Hold : files d' !! p = files d !! p → applied d [] d').
  { intros Hp q Hqt. simpl. destruct (decide (q = p)) as [->|Hqp]; auto. }
  destruct o as [[]|e|]; [left; auto|right; auto|]. destruct Ho; [right|left]; auto.
Qed.

(** A prefix of the three replacements of [store_certificate] takes place,
    and all of them when it succeeds. *)
Lemma store_certificate_applied root id config c k d o d' :
  store_certificate root id config c k d = (o, d') →
  let dir := certificate_directory root id in
  let C := (file_of dir "certificate.pem", c) in
  let K := (file_of dir "private-key.pem", k) in
  (applied d [] d' ∧ ¬ ∃ e, o = Done e) ∨
  ∃ e, parse_certificate_expiry c = Ok e ∧
    ((applied d [C] d' ∧ ¬ ∃ e, o = Done e) ∨
     (applied d [C; K] d' ∧ ¬ ∃ e, o = Done e) ∨
     (∃ json, certificate_to_json {| cm_acme_account_id := acme_account_id config;
                cm_domains := cert_domains config; cm_expires_at := e |} = Ok json ∧
        applied d [C; K; (file_of dir "metadata-v2.json", json)] d' ∧
        ∀ e', o = Done e' → e' = e)).
Proof.
  intros E dir C K.
  assert (Hw : ∀ n c d o d', contains_str ".tmp-" n = false → atomic_write (file_of dir n) c d = (o, d') →
     (applied d [(file_of dir n, c)] d' ∧ ∀ e, o ≠ Failed e) ∨ (applied d [] d' ∧ o ≠ Done tt)).
  { intros n c0 d0 o0 d0' Hn. apply atomic_write_applied; [apply file_of_name|by apply file_of_plain]. }
  unfold store_certificate in E. fold dir in E.
  apply io_bind_inv in E as [(e & d1 & E1 & E)|[(e & E1 & ->)|[E1 ->]]];
    apply io_result_inv in E1 as [-> E1]; [|left; split; [done|by intros [? ?]]..].
  destruct (parse_certificate_expiry c) as [e0|] eqn:Hexp; [|done]. injection E1 as <-.
  apply io_bind_inv in E as [([] & d1 & E1 & E)|[(e1 & E1 & ->)|[E1 ->]]];
    apply (Hw "certificate.pem") in E1 as [[Ha1 Ho1]|[Ha1 Ho1]]; try done; try (by destruct (Ho1 e1));
    [|left; split; [done|by intros [? ?]]| |left; split; [done|by intros [? ?]]];
    right; exists e; (split; [done|]); [|left; split; [done|by intros [? ?]]].
  apply io_bind_inv in E as [([] & d2 & E2 & E)|[(e1 & E2 & ->)|[E2 ->]]];
    apply (Hw "private-key.pem") in E2 as [[Ha2 Ho2]|[Ha2 Ho2]]; try done; try (by destruct (Ho2 e1));
    pose proof (applied_trans _ _ _ _ _ Ha1 Ha2) as Ha; simpl in Ha;
    [|left; split; [done|by intros [? ?]]|right; left; split; [done|by intros [? ?]]
     |left; split; [done|by intros [? ?]]].
  right. apply io_bind_inv in E as [(json & d3 & E3 & E)|[(e1 & E3 & ->)|[E3 ->]]];
    apply io_result_inv in E3 as [-> E3]; [|left; split; [done|by intros [? ?]]..].
  destruct (certificate_to_json _) as [json'|] eqn:Hj; [|done]. injection E3 as ->.
  apply io_bind_inv in E as [([] & d3 & E4 & E)|[(e1 & E4 & ->)|[E4 ->]]];
    apply (Hw "metadata-v2.json") in E4 as [[Ha4 Ho4]|[Ha4 Ho4]]; try done; try (by destruct (Ho4 e1));
    pose proof (applied_trans _ _ _ _ _ Ha Ha4) as Hb; simpl in Hb;
    [|left; split; [done|by intros [? ?]]| |left; split; [done|by intros [? ?]]];
    right; exists json'; (split; [done|]); (split; [|done || (injection E as <- <-; by intros ? [= <-])]).
  - injection E as <- <-. exact Hb.
  - exact Hb.
Qed.
End store.

(** ** Theorems *)

Section crash.
Context {H : Host} {J : Json} {X : X509}.

Definition load_view (root : Path) (id : str) (config : CertificateConfig) (m : fs)
  : result ProxyError (option CachedCertificate) :=
  current ← dir_view (current_view config) "metadata-v2.json" (certificate_directory root id) m;
  match current with
  | Some c => Ok (Some c)
  | None => dir_view (legacy_view config) "certificate-v1.json" (legacy_directory root id) m
  end.

Lemma dir_view_ext view meta dir m m' :
  (∀ n, n = meta ∨ n = lit "certificate.pem" ∨ n = lit "private-key.pem" →
     m !! file_of dir n = m' !! file_of dir n) →
  dir_view view meta dir m = dir_view view meta dir m'.
Proof. intros Hm. unfold dir_view. f_equal; apply Hm; auto. Qed.

Lemma applied_legacy d ws d' root id n :
  applied d ws d' → contains_str ".tmp-" n = false →
  (∀ w, w ∈ ws → ∃ n', w.1 = file_of (certificate_directory root id) n') →
  files d' !! file_of (legacy_directory root id) n = files d !! file_of (legacy_directory root id) n.
Proof.
  intros Ha Hn Hws. rewrite Ha by by apply file_of_plain. unfold put_all.
  revert Hws. generalize (files d) as m. clear Ha. induction ws as [|w ws IH]; intros m Hws; [done|].
  simpl. rewrite IH by (intros w' Hw'; apply Hws; by right).
  destruct (Hws w) as [n' Hw]; [left|]. rewrite Hw. rewrite lookup_insert_ne; [done|].
  intros Heq. symmetry in Heq. by apply legacy_disjoint in Heq.
Qed.

(** The legacy directory looks the same after any part of a store. *)
Lemma legacy_view_applied d ws d' root id config :
  applied d ws d' → (∀ w, w ∈ ws → ∃ n', w.1 = file_of (certificate_directory root id) n') →
  dir_view (legacy_view config) "certificate-v1.json" (legacy_directory root id) (files d') =
  dir_view (legacy_view config) "certificate-v1.json" (legacy_directory root id) (files d).
Proof.
  intros Ha Hws. apply dir_view_ext. intros n Hn. apply (applied_legacy _ ws); [done| |done].
  by destruct Hn as [->|[->| ->]].
Qed.

Notation CERT := (lit "certificate.pem").
Notation KEY := (lit "private-key.pem").
Notation META := (lit "metadata-v2.json").

(** The directory after a part of a store. *)
Lemma current_view_applied d ws d' root id config :
  applied d ws d' →
  dir_view (current_view config) META (certificate_directory root id) (files d') =
  dir_view (current_view config) META (certificate_directory root id) (put_all ws (files d)).
Proof.
  intros Ha. apply dir_view_ext. intros n Hn. apply Ha. apply file_of_plain.
  by destruct Hn as [->|[->| ->]].
Qed.

(** A new certificate under the old metadata is not accepted. *)
Lemma stale_metadata config meta c e key key0 cert0 :
  (∀ content m, meta = Some content → certificate_of_json content = Ok m →
     metadata_matches m config = true → parse_certificate_expiry c ≠ Ok (cm_expires_at m)) →
  parse_certificate_expiry c = Ok e → key = key0 ∨ is_Some key →
  (∃ err, current_view config meta (Some c) key = Err err) ∨
  (current_view config meta (Some c) key = Ok None ∧ current_view config meta cert0 key0 = Ok None).
Proof.
  intros Hm He Hk. unfold current_view. destruct meta as [content|]; [|by right].
  destruct (certificate_of_json content) as [m|err] eqn:Hj; [|left; by eexists].
  cbn [map_err mbind result_bind]. destruct (metadata_matches m config) eqn:E; [|by right].
  unfold pair_view. destruct key as [k|].
  - rewrite He. cbn [mbind result_bind]. specialize (Hm content m eq_refl Hj E).
    destruct (N.eqb_spec (cm_expires_at m) e) as [Heq|Hne]; [congruence|]. left. by eexists.
  - destruct Hk as [<-|[? ?]]; [|done]. right. by destruct cert0.
Qed.

Lemma new_metadata config json c k e :
  certificate_to_json {| cm_acme_account_id := acme_account_id config;
    cm_domains := cert_domains config; cm_expires_at := e |} = Ok json →
  parse_certificate_expiry c = Ok e →
  current_view config (Some json) (Some c) (Some k) =
  Ok (Some {| cached_certificate := c; cached_private_key := k; cached_expires_at := e |}).
Proof.
  intros Hj He. unfold current_view. rewrite (certificate_json_roundtrip _ _ Hj).
  cbn [map_err mbind result_bind]. unfold metadata_matches. cbn [cm_acme_account_id cm_domains cm_expires_at].
  rewrite !bool_decide_eq_true_2 by done. unfold pair_view. cbn [andb]. rewrite He. cbn [mbind result_bind].
  by rewrite N.eqb_refl.
Qed.

(** What the directory shows after a part of a store. *)
Lemma load_quiet_applied d ws d' root id config :
  applied d ws d' → (∀ w, w ∈ ws → ∃ n', w.1 = file_of (certificate_directory root id) n') →
  load_quiet root id config d' =
  of_result
    (current ← dir_view (current_view config) META (certificate_directory root id) (put_all ws (files d));
     match current with
     | Some c => Ok (Some c)
     | None => dir_view (legacy_view config) "certificate-v1.json" (legacy_directory root id) (files d)
     end).
Proof.
  intros Ha Hws. rewrite load_quiet_view, (current_view_applied d ws d') by done.
  by rewrite (legacy_view_applied d ws d').
Qed.

(** C20: storing a renewed certificate survives the end of the process. Whether
    the store succeeds, fails, or the process is killed at any system call,
    the next load on the same running system finds what it found before, or
    the new certificate with its own key, or an error, provided the new
    certificate expires at another second than the cached one; it never finds
    a new certificate with an old key. When the store succeeds the new pair
    is found. Nothing of the kind holds of a power failure
    ([power_cut_splits_pair]): the files are not flushed. *)
Theorem store_crash_safe root id config c k d o d' :
  store_certificate root id config c k d = (o, d') →
  (∀ content m, files d !! file_of (certificate_directory root id) "metadata-v2.json" = Some content →
     certificate_of_json content = Ok m → metadata_matches m config = true →
     parse_certificate_expiry c ≠ Ok (cm_expires_at m)) →
  (load_quiet root id config d' = load_quiet root id config d ∨
   (∃ e, load_quiet root id config d' = Failed e) ∨
   (∃ e, parse_certificate_expiry c = Ok e ∧
         load_quiet root id config d' =
         Done (Some {| cached_certificate := c; cached_private_key := k; cached_expires_at := e |}))) ∧
  (∀ e, o = Done e →
     load_quiet root id config d' =
     Done (Some {| cached_certificate := c; cached_private_key := k; cached_expires_at := e |})).
Proof.
  intros Hs Hm. set (dir := certificate_directory root id) in *.
  assert (HCK : file_of dir CERT ≠ file_of dir KEY) by by intros ?%file_of_inj.
  assert (HCM : file_of dir CERT ≠ file_of dir META) by by intros ?%file_of_inj.
  assert (HKM : file_of dir KEY ≠ file_of dir META) by by intros ?%file_of_inj.
  apply store_certificate_applied in Hs as [[Ha Ho]|(e & He & [[Ha Ho]|[[Ha Ho]|(json & Hj & Ha & Ho)]])];
    fold dir in Ha; rewrite (load_quiet_applied _ _ _ root id config Ha), ?load_quiet_view;
    try (intros w Hw; repeat (apply elem_of_cons in Hw as [->|Hw]; [by eexists|]); by apply not_elem_of_nil in Hw);
    fold dir.
  - split; [by left|]. intros e ->. by destruct Ho; exists e.
  - split; [|intros e' ->; by destruct Ho; exists e']. unfold dir_view, put_all. cbn [foldl fst snd].
    rewrite lookup_insert_eq, !lookup_insert_ne by (apply HCK || apply HCM).
    destruct (stale_metadata config (files d !! file_of dir META) c e (files d !! file_of dir KEY)
      (files d !! file_of dir KEY) (files d !! file_of dir CERT) Hm He) as [[err E]|[E1 E2]]; [by left|..].
    + right; left. exists err. unfold file_of in E. rewrite E. done.
    + left. unfold file_of in E1, E2. rewrite E1, E2. done.
  - split; [|intros e' ->; by destruct Ho; exists e']. unfold dir_view, put_all. cbn [foldl fst snd].
    change (path_join dir [Normal CERT]) with (file_of dir CERT).
    change (path_join dir [Normal KEY]) with (file_of dir KEY).
    change (path_join dir [Normal META]) with (file_of dir META).
    rewrite lookup_insert_eq, (lookup_insert_ne _ _ (file_of dir CERT)), lookup_insert_eq,
      !lookup_insert_ne by done.
    destruct (stale_metadata config (files d !! file_of dir META) c e (Some k)
      (files d !! file_of dir KEY) (files d !! file_of dir CERT) Hm He) as [[err E]|[E1 E2]];
      [right; by eexists|..].
    + right; left. exists err. by rewrite E.
    + left. by rewrite E1, E2.
  - enough (load_quiet root id config d' = Done (Some {| cached_certificate := c; cached_private_key := k;
              cached_expires_at := e |})) as Hl.
    { rewrite (load_quiet_applied _ _ _ root id config Ha) in Hl.
      - fold dir in Hl. rewrite Hl. split; [right; right; by exists e|].
        intros e' He'. by rewrite (Ho _ He').
      - intros w Hw. repeat (apply elem_of_cons in Hw as [->|Hw]; [by eexists|]). by apply not_elem_of_nil in Hw. }
    rewrite (load_quiet_applied _ _ _ root id config Ha).
    2: { intros w Hw. repeat (apply elem_of_cons in Hw as [->|Hw]; [by eexists|]). by apply not_elem_of_nil in Hw. }
    fold dir. unfold dir_view, put_all. cbn [foldl fst snd].
    change (path_join dir [Normal CERT]) with (file_of dir CERT).
    change (path_join dir [Normal KEY]) with (file_of dir KEY).
    change (path_join dir [Normal META]) with (file_of dir META).
    rewrite lookup_insert_eq, (lookup_insert_ne _ _ (file_of dir CERT)), (lookup_insert_ne _ _ (file_of dir CERT)),
      lookup_insert_eq, (lookup_insert_ne _ _ (file_of dir KEY)), lookup_insert_eq by done.
    by rewrite (new_metadata _ _ _ _ _ Hj He).
Qed.

(** After a power failure a file that was replaced but not flushed has what it
    had at some moment since the last flush, or a beginning of it; nothing
    orders one file after another. *)
Definition power_cut (history : list fs) (m : fs) : Prop :=
  ∀ q, ∃ m0, m0 ∈ history ∧
    (m !! q = m0 !! q ∨ ∃ c c', m0 !! q = Some c ∧ m !! q = Some c' ∧ c' `prefix_of` c).

(** A power failure after a successful store may leave the new certificate
    with the old private key, or with an empty one, and the metadata that
    vouches for them (a defect): [atomic_write] flushes neither the file nor
    the directory. *)
Theorem power_cut_splits_pair root id config c k d e d' :
  store_certificate root id config c k d = (Done e, d') →
  let found key := Done (Some {| cached_certificate := c; cached_private_key := key; cached_expires_at := e |}) in
  ∀ key, (files d !! file_of (certificate_directory root id) "private-key.pem" = Some key ∨ key = []) →
  ∃ d'', power_cut [files d; files d'] (files d'') ∧ load_quiet root id config d'' = found key.
Proof.
  intros Hs found key Hkey. set (dir := certificate_directory root id) in *.
  apply store_certificate_applied in Hs as [[_ []]|(e0 & He & [[_ []]|[[_ []]|(json & Hj & Ha & Ho)]])]; [by eauto..|].
  assert (e = e0) as -> by by apply Ho. fold dir in Ha.
  assert (HCK : file_of dir CERT ≠ file_of dir KEY) by by intros ?%file_of_inj.
  assert (HCM : file_of dir CERT ≠ file_of dir META) by by intros ?%file_of_inj.
  assert (HKM : file_of dir KEY ≠ file_of dir META) by by intros ?%file_of_inj.
  assert (Hf : ∀ n, contains_str ".tmp-" n = false → files d' !! file_of dir n =
     put_all [(file_of dir CERT, c); (file_of dir KEY, k); (file_of dir META, json)] (files d) !! file_of dir n)
    by (intros n Hn; apply Ha; by apply file_of_plain).
  assert (HM : files d' !! file_of dir META = Some json) by (rewrite Hf by done; unfold put_all; cbn [foldl fst snd]; by rewrite lookup_insert_eq).
  assert (HK : files d' !! file_of dir KEY = Some k)
    by (rewrite Hf by done; unfold put_all; cbn [foldl fst snd]; rewrite lookup_insert_ne by done; by rewrite lookup_insert_eq).
  assert (HC : files d' !! file_of dir CERT = Some c)
    by (rewrite Hf by done; unfold put_all; cbn [foldl fst snd]; rewrite !lookup_insert_ne by done; by rewrite lookup_insert_eq).
  exists (with_files d' (<[file_of dir KEY := key]> (files d'))). cbn [files with_files]. split.
  - intros q. destruct (decide (q = file_of dir KEY)) as [->|Hq].
    + rewrite lookup_insert_eq. destruct Hkey as [Hk| ->].
      * exists (files d). split; [left|by left].
      * exists (files d'). split; [right; left|]. right. exists k, []. split_and!; [done|done|apply prefix_nil].
    + rewrite lookup_insert_ne by done. exists (files d'). split; [right; left|by left].
  - rewrite load_quiet_view. fold dir. unfold dir_view. cbn [files with_files].
    change (path_join dir [Normal CERT]) with (file_of dir CERT).
    change (path_join dir [Normal KEY]) with (file_of dir KEY).
    change (path_join dir [Normal META]) with (file_of dir META).
    rewrite (lookup_insert_ne _ _ (file_of dir META)), (lookup_insert_ne _ _ (file_of dir CERT)), lookup_insert_eq, HM, HC by done.
    by rewrite (new_metadata _ _ _ _ _ Hj He).
Qed.
End crash.

Section accounts.
Context {H : Host} {J : Json}.

(** An account key stored for a directory and a key algorithm is found
    again with its registration state, and only for that directory and that
    algorithm: a key is never used against another CA environment. *)
Theorem account_key_isolated dir cfg cfg' key registered d d' :
  store_private_key dir cfg key registered d = (Done tt, d') →
  (load_private_key (H:=quiet) dir cfg' d').1 =
  Done (if decide (directory_url cfg = directory_url cfg' ∧ acme_key_algorithm cfg = acme_key_algorithm cfg')
        then Some (key, registered) else None).
Proof.
  intros E. unfold store_private_key in E.
  apply io_bind_inv in E as [([] & d1 & E1 & E)|[(e & _ & [=])|[_ [=]]]].
  apply io_bind_inv in E as [(json & d2 & E2 & E)|[(e & _ & [=])|[_ [=]]]].
  apply io_result_inv in E2 as [-> E2]. destruct (account_to_json _) as [j|] eqn:Hj; [|done].
  injection E2 as ->.
  apply (atomic_write_applied (file_of dir "private-key.pem")) in E1 as [[Ha1 _]|[_ Hn]];
    [|done|apply file_of_name|by apply file_of_plain].
  apply (atomic_write_applied (file_of dir "metadata-v1.json")) in E as [[Ha2 _]|[_ Hn]];
    [|done|apply file_of_name|by apply file_of_plain].
  pose proof (applied_trans _ _ _ _ _ Ha1 Ha2) as Ha. simpl in Ha.
  assert (HM : files d' !! file_of dir "metadata-v1.json" = Some j).
  { rewrite Ha by by apply file_of_plain. unfold put_all. simpl. by rewrite lookup_insert_eq. }
  assert (HK : files d' !! file_of dir "private-key.pem" = Some key).
  { rewrite Ha by by apply file_of_plain. unfold put_all. cbn [foldl fst snd].
    rewrite lookup_insert_ne by by intros ?%file_of_inj. by rewrite lookup_insert_eq. }
  unfold load_private_key. rewrite quiet_read.
  change (path_join dir [Normal (lit "metadata-v1.json")]) with (file_of dir "metadata-v1.json").
  rewrite HM, io_result_bind, (account_json_roundtrip _ _ Hj). cbn [map_err am_directory_url am_key_algorithm am_registered].
  case_decide as Hd.
  - destruct Hd as [-> ->]. rewrite !bool_decide_eq_true_2 by done. cbn [negb orb]. rewrite quiet_read.
    change (path_join dir [Normal (lit "private-key.pem")]) with (file_of dir "private-key.pem").
    cbn [files with_files]. by rewrite HK.
  - destruct (bool_decide (directory_url cfg = directory_url cfg')) eqn:E1; [|done].
    destruct (bool_decide (acme_key_algorithm cfg = acme_key_algorithm cfg')) eqn:E2; [|done].
    bsimpl. tauto.
Qed.

(** What the directory of an account holds. *)
Definition account_view (config : AcmeAccountConfig) (metadata key : option str) : result ProxyError (option (str * bool)) :=
  match metadata with
  | None => Ok None
  | Some content =>
      metadata ← map_err PJson (account_of_json content);
      if negb (bool_decide (am_directory_url metadata = directory_url config))
         || negb (bool_decide (am_key_algorithm metadata = acme_key_algorithm config))
      then Ok None
      else Ok ((λ key, (key, am_registered metadata)) <$> key)
  end.
Definition stored_key (dir : Path) (config : AcmeAccountConfig) (d : disk) : outcome ProxyError (option (str * bool)) :=
  of_result (account_view config (files d !! file_of dir "metadata-v1.json") (files d !! file_of dir "private-key.pem")).

Lemma load_private_key_quiet dir config d :
  ∃ d', load_private_key (H:=quiet) dir config d = (stored_key dir config d, d') ∧ files d' = files d.
Proof.
  unfold load_private_key, stored_key, account_view, file_of. rewrite quiet_read.
  destruct (files d !! _) as [content|]; [|by eexists]. rewrite io_result_bind.
  destruct (account_of_json content) as [m|e]; [|by eexists]. cbn [map_err mbind result_bind].
  destruct (_ || _); [by eexists|]. rewrite quiet_read. cbn [files with_files]. by eexists.
Qed.

(** A part of the two replacements takes place. *)
Lemma store_private_key_applied dir config key registered d o d' :
  store_private_key dir config key registered d = (o, d') →
  applied d [] d' ∨ applied d [(file_of dir "private-key.pem", key)] d' ∨
  ∃ json, account_to_json {| am_directory_url := directory_url config; am_key_algorithm := acme_key_algorithm config;
                             am_registered := registered |} = Ok json ∧
    applied d [(file_of dir "private-key.pem", key); (file_of dir "metadata-v1.json", json)] d'.
Proof.
  unfold store_private_key. intros [([] & d1 & E1 & E)|[(e & E1 & ->)|[E1 ->]]]%io_bind_inv;
    apply (atomic_write_applied (file_of dir "private-key.pem")) in E1;
    [|apply file_of_name|by apply file_of_plain|tauto|apply file_of_name|by apply file_of_plain|tauto|apply file_of_name|by apply file_of_plain].
  destruct E1 as [[Ha1 _]|[_ ?]]; [|done].
  apply io_bind_inv in E as [(json & d2 & E2 & E)|[(e & E2 & ->)|[E2 ->]]];
    apply io_result_inv in E2 as [-> E2]; [|by auto..].
  destruct (account_to_json _) as [j|] eqn:Hj; [|done]. injection E2 as ->.
  apply (atomic_write_applied (file_of dir "metadata-v1.json")) in E; [|apply file_of_name|by apply file_of_plain].
  destruct E as [[Ha2 _]|[Ha2 _]]; pose proof (applied_trans _ _ _ _ _ Ha1 Ha2) as Ha; [right; right; eauto|by right; left].
Qed.

(** Marking a key that is stored, however far it gets: a key is still there,
    the old text or the new one, with the old mark or the new one. *)
Lemma mark_registered dir config key registered key' d o d' :
  stored_key dir config d = Done (Some (key, registered)) →
  store_private_key dir config key' true d = (o, d') →
  ∃ key'' registered', stored_key dir config d' = Done (Some (key'', registered')) ∧
    (key'' = key ∨ key'' = key') ∧ (registered' = registered ∨ registered' = true).
Proof.
  intros Hd Hs. unfold stored_key in *.
  assert (HMK : file_of dir "metadata-v1.json" ≠ file_of dir "private-key.pem") by by intros ?%file_of_inj.
  apply store_private_key_applied in Hs as [Ha|[Ha|(json & Hj & Ha)]];
    rewrite !Ha by (by apply file_of_plain); unfold put_all; cbn [foldl fst snd]; [exists key, registered; by auto|..].
  - rewrite lookup_insert_ne by done. rewrite lookup_insert_eq. unfold account_view in *.
    destruct (files d !! file_of dir "metadata-v1.json") as [content|]; [|done].
    destruct (account_of_json content) as [m|]; [|done]. cbn [map_err mbind result_bind] in *.
    destruct (_ || _); [done|]. destruct (files d !! _) as [k0|]; [|done]. cbn in Hd. injection Hd as <- <-.
    exists key', (am_registered m). by auto.
  - rewrite lookup_insert_eq, lookup_insert_ne by done. rewrite lookup_insert_eq. unfold account_view.
    rewrite (account_json_roundtrip _ _ Hj). cbn [map_err mbind result_bind am_directory_url am_key_algorithm am_registered].
    rewrite !bool_decide_eq_true_2 by done. exists key', true. by auto.
Qed.
End accounts.

(** ** Witnesses *)

Definition w_cert : CertificateConfig :=
  {| cert_id := "c"; cert_name := "c"; cert_domains := [lit "a.b"]; acme_account_id := "acme";
     cert_validation := Some Manual; auto_renew := false; migration_error := None |}.
Definition w_meta (expiry : N) : CertificateMetadata :=
  {| cm_acme_account_id := "acme"; cm_domains := [lit "a.b"]; cm_expires_at := expiry |}.
Definition w_account : AcmeAccountConfig :=
  {| acme_id := "acme"; acme_name := "acme"; acme_provider := LetsEncrypt;
     acme_environment := Staging; acme_email := "a@b"; acme_key_algorithm := Ec256;
     eab_key_id := None; eab_hmac_key := None |}.
Definition w_account_meta : AccountMetadata :=
  {| am_directory_url := LETS_ENCRYPT_STAGING_DIRECTORY; am_key_algorithm := Ec256; am_registered := true |}.

#[local] Instance w_meta_eq_dec : EqDecision CertificateMetadata.
Proof. solve_decision. Defined.
#[local] Instance w_account_eq_dec : EqDecision AccountMetadata.
Proof. solve_decision. Defined.

(** A codec that knows the documents of the example. *)
Program Definition w_json : Json :=
  {| account_to_json := λ a, if bool_decide (a = w_account_meta) then Ok (lit "A") else Err (lit "?");
     account_of_json := λ s, if bool_decide (s = lit "A") then Ok w_account_meta else Err (lit "?");
     certificate_to_json := λ a, if bool_decide (a = w_meta 100) then Ok (lit "new") else Err (lit "?");
     certificate_of_json := λ s, if bool_decide (s = lit "new") then Ok (w_meta 100)
                                 else if bool_decide (s = lit "old") then Ok (w_meta 50) else Err (lit "?");
     legacy_of_json := λ s, Err (lit "?") |}.
Next Obligation. intros a s. simpl. case_bool_decide; [|done]. by intros [= <-]; subst. Qed.
Next Obligation. intros a s. simpl. case_bool_decide; [|done]. by intros [= <-]; subst. Qed.

Definition w_x509 : X509 := {| Der := str; pem_first := λ s, Ok (Some s); not_after := λ s, Ok (if bool_decide (s = lit "OLD") then 50 else 100)%Z |}.

(** The process is killed while the private key is being replaced. *)
Definition w_host : Host :=
  {| process_id := 7; sys := λ n, if (n =? 9)%nat then SysCrash false else SysOk; partial := λ _, None |}.
Definition w_dir : Path := certificate_directory [Normal "cache"] "c".
Definition w_disk : disk :=
  {| files := {[file_of w_dir "metadata-v2.json" := lit "old"; file_of w_dir "certificate.pem" := lit "OLD";
                file_of w_dir "private-key.pem" := lit "OLDKEY"]}; calls := 0; temporary_file_id := 0 |}.

Lemma store_crash_safe_witness :
  let r := store_certificate (H:=w_host) (J:=w_json) (X:=w_x509) [Normal "cache"] "c" w_cert "CERT" "KEY" w_disk in
  let load d := load_quiet (J:=w_json) (X:=w_x509) [Normal "cache"] "c" w_cert d in
  r.1 = Crashed ∧
  (load r.2 = load w_disk ∨ (∃ e, load r.2 = Failed e) ∨
   (∃ e, parse_certificate_expiry (X:=w_x509) "CERT" = Ok e ∧
      load r.2 = Done (Some {| cached_certificate := "CERT"; cached_private_key := "KEY"; cached_expires_at := e |}))).
Proof.
  intros r load. split; [reflexivity|].
  destruct (store_crash_safe (H:=w_host) (J:=w_json) (X:=w_x509) [Normal "cache"] "c" w_cert "CERT" "KEY" w_disk
    r.1 r.2 (surjective_pairing _)) as [Hsafe _]; [|exact Hsafe].
  intros content m Hc. assert (content = lit "old") as ->.
  { assert (Some (lit "old") = Some content) as [= <-]; [|done]. by rewrite <- Hc. }
  intros [= <-] _ [=].
Defined.

Lemma account_key_isolated_witness :
  (load_private_key (H:=quiet) (J:=w_json) w_dir w_account
     (store_private_key (H:=quiet) (J:=w_json) w_dir w_account "KEY" true w_disk).2).1 =
  Done (Some (lit "KEY", true)).
Proof.
  rewrite (account_key_isolated (H:=quiet) (J:=w_json) w_dir w_account w_account "KEY" true w_disk
    (store_private_key (H:=quiet) (J:=w_json) w_dir w_account "KEY" true w_disk).2).
  - by rewrite decide_True by done.
  - assert (E : (store_private_key (H:=quiet) (J:=w_json) w_dir w_account "KEY" true w_disk).1 = Done tt)
      by reflexivity.
    rewrite <- E. apply surjective_pairing.
Defined.
