(* ===== verification/CertManager.v ===== *)
(** * CertManager: [gaterust-proxy/src/runtime.rs] and [DirectResolver] of
    [tls.rs]

    The certificate manager of the reverse proxy: one task owns the state and
    handles commands, finished issuance tasks and the scheduler one at a time.
    Shared objects ([Arc<DirectResolver>], semaphores, cancellation tokens)
    are handles into stores of the state.  The clock is an argument, and so is
    what the cache answers for each certificate ([Cache.load_certificate]).
    Issuance itself ([acme.rs]) runs outside: its results are arbitrary. *)

From stdpp Require Import sorting.
From S2P Require Import Prelude RustStr Net ProxyConfig CertResolver Cache.

Definition RENEW_BEFORE : N := 336 * 3600.
Definition SCHEDULER_INTERVAL : N := 60.
Definition MAX_CONCURRENT_ISSUANCE : N := 4.
Definition MAX_CONCURRENT_DNS_TESTS : N := 4.
Definition RETRY_BASE : N := 5 * 60.
Definition RETRY_MAX : N := 6 * 3600.

(** ** External libraries *)

(** [rustls] and [rustls_pemfile]: reading and matching keys. *)
Class TlsLib := {
  TlsCert : Type; TlsKey : Type; SigningKey : Type;
  pem_certs : str → result ErrorKind (list TlsCert);
  pem_key : str → result ErrorKind (option TlsKey);
  any_supported_type : TlsKey → result str SigningKey;
  keys_match : list TlsCert → SigningKey → result str unit }.

(** [acme2_eab]: an order and its challenges. *)
Class AcmeLib := { Order : Type; Challenge : Type }.

Section manager.
Context {L : TlsLib} {A : AcmeLib}.
(** [Display] of an I/O error. *)
Context (io : ErrorKind → str).

(** ** [DirectResolver] *)

Record CertifiedKey := { ck_chain : list TlsCert; ck_key : SigningKey }.

Definition set_pem (certificate_pem private_key_pem : str) : PResult CertifiedKey :=
  certificates ← map_err PIo (pem_certs certificate_pem);
  _ ← reject_if (bool_decide (length certificates = 0%nat)) (PTls "证书链为空");
  private_key ← map_err PIo (pem_key private_key_pem);
  private_key ← ok_or private_key (PTls "未找到私钥");
  signing_key ← map_err (λ e, PTls ("私钥格式不受支持: " ++ e)) (any_supported_type private_key);
  _ ← map_err (λ e, PTls ("证书与私钥不匹配: " ++ e)) (keys_match certificates signing_key);
  Ok {| ck_chain := certificates; ck_key := signing_key |}.

(** ** Data *)

Inductive CertificateStatus :=
  | Idle | Issuing | WaitingDns | Valid | Renewing | SFailed | Expired.

#[global] Instance CertificateStatus_eq_dec : EqDecision CertificateStatus.
Proof. solve_decision. Defined.

Record ManualDnsRecord := { record_name : str; record_value : str }.

Record CertificateRuntimeStatus := {
  rs_certificate_id : str;
  rs_status : CertificateStatus;
  rs_expires_at : option N;
  rs_last_error : option str;
  rs_manual_records : list ManualDnsRecord }.

Record ProxyConfigStatus := { ps_revision : N; ps_last_apply_error : option str }.
Record ProxyRuntimeSnapshot := {
  snap_certificates : list CertificateRuntimeStatus;
  snap_config_status : ProxyConfigStatus }.

Record IssuanceRequest := {
  ir_certificate : CertificateConfig;
  ir_account : AcmeAccountConfig;
  ir_dns_account : option DnsAccountConfig;
  ir_account_gate : N;
  ir_dns_gate : option N }.
Record IssuedCertificate := {
  issued_certificate_pem : str; issued_private_key_pem : str; issued_expires_at : N }.
Record ManualOrder := {
  mo_request : IssuanceRequest; mo_order : Order; mo_challenges : list Challenge;
  mo_records : list ManualDnsRecord }.
Inductive IssueResult := Issued (c : IssuedCertificate) | Waiting (o : ManualOrder).

Record ActiveTask := { at_generation : N; at_cancellation : N }.
Record RetryState := { attempts : N; retry_at : N }.
Inductive TaskResult :=
  | Begin (r : PResult IssueResult)
  | Continued (r : PResult IssuedCertificate)
  | ManualNotReady (o : ManualOrder) (e : ProxyError).
Record TaskOutput := { out_certificate_id : str; out_generation : N; out_result : TaskResult }.

(** A task of the [JoinSet]: running, when it holds an issuance permit, or
    finished and not joined yet. *)
Inductive task_work := BeginIssue (r : IssuanceRequest) | ContinueManual (o : ManualOrder).
Record Task := {
  t_certificate_id : str; t_generation : N; t_work : task_work; t_root : Path; t_token : N;
  t_running : bool }.

Record CertificateManager := {
  resolver : ResolverState N;
  snapshot : ProxyRuntimeSnapshot;
  config : option ProxyConfig;
  resolvers : gmap str N;
  directs : gmap N (option CertifiedKey);
  statuses : gmap str CertificateRuntimeStatus;
  active : gmap str ActiveTask;
  pending : gmap str ManualOrder;
  tasks : list Task;
  retry : gmap str RetryState;
  account_gates : gmap str N;
  dns_gates : gmap str N;
  generation : N;
  issuance_permits : N;
  dns_test_permits : N;
  cancelled : gset N;
  next_handle : N }.

Definition CertificateManager_new (r : ResolverState N) (s : ProxyRuntimeSnapshot) : CertificateManager :=
  {| resolver := r; snapshot := s; config := None; resolvers := ∅; directs := ∅; statuses := ∅;
     active := ∅; pending := ∅; tasks := []; retry := ∅; account_gates := ∅; dns_gates := ∅;
     generation := 0; issuance_permits := MAX_CONCURRENT_ISSUANCE;
     dns_test_permits := MAX_CONCURRENT_DNS_TESTS; cancelled := ∅; next_handle := 0 |}.
(** ** Assignments to single fields *)

Definition set_resolver (x : ResolverState N) (m : CertificateManager) : CertificateManager :=
  {| resolver := x; snapshot := snapshot m; config := config m; resolvers := resolvers m;
     directs := directs m; statuses := statuses m; active := active m; pending := pending m;
     tasks := tasks m; retry := retry m; account_gates := account_gates m; dns_gates :=
     dns_gates m; generation := generation m; issuance_permits := issuance_permits m;
     dns_test_permits := dns_test_permits m; cancelled := cancelled m; next_handle :=
     next_handle m |}.
Definition set_snapshot (x : ProxyRuntimeSnapshot) (m : CertificateManager) : CertificateManager :=
  {| resolver := resolver m; snapshot := x; config := config m; resolvers := resolvers m;
     directs := directs m; statuses := statuses m; active := active m; pending := pending m;
     tasks := tasks m; retry := retry m; account_gates := account_gates m; dns_gates :=
     dns_gates m; generation := generation m; issuance_permits := issuance_permits m;
     dns_test_permits := dns_test_permits m; cancelled := cancelled m; next_handle :=
     next_handle m |}.
Definition set_config (x : option ProxyConfig) (m : CertificateManager) : CertificateManager :=
  {| resolver := resolver m; snapshot := snapshot m; config := x; resolvers := resolvers m;
     directs := directs m; statuses := statuses m; active := active m; pending := pending m;
     tasks := tasks m; retry := retry m; account_gates := account_gates m; dns_gates :=
     dns_gates m; generation := generation m; issuance_permits := issuance_permits m;
     dns_test_permits := dns_test_permits m; cancelled := cancelled m; next_handle :=
     next_handle m |}.
Definition set_resolvers (x : gmap str N) (m : CertificateManager) : CertificateManager :=
  {| resolver := resolver m; snapshot := snapshot m; config := config m; resolvers := x;
     directs := directs m; statuses := statuses m; active := active m; pending := pending m;
     tasks := tasks m; retry := retry m; account_gates := account_gates m; dns_gates :=
     dns_gates m; generation := generation m; issuance_permits := issuance_permits m;
     dns_test_permits := dns_test_permits m; cancelled := cancelled m; next_handle :=
     next_handle m |}.
Definition set_directs (x : gmap N (option CertifiedKey)) (m : CertificateManager) : CertificateManager :=
  {| resolver := resolver m; snapshot := snapshot m; config := config m; resolvers :=
     resolvers m; directs := x; statuses := statuses m; active := active m; pending :=
     pending m; tasks := tasks m; retry := retry m; account_gates := account_gates m;
     dns_gates := dns_gates m; generation := generation m; issuance_permits :=
     issuance_permits m; dns_test_permits := dns_test_permits m; cancelled := cancelled m;
     next_handle := next_handle m |}.
Definition set_statuses (x : gmap str CertificateRuntimeStatus) (m : CertificateManager) : CertificateManager :=
  {| resolver := resolver m; snapshot := snapshot m; config := config m; resolvers :=
     resolvers m; directs := directs m; statuses := x; active := active m; pending :=
     pending m; tasks := tasks m; retry := retry m; account_gates := account_gates m;
     dns_gates := dns_gates m; generation := generation m; issuance_permits :=
     issuance_permits m; dns_test_permits := dns_test_permits m; cancelled := cancelled m;
     next_handle := next_handle m |}.
Definition set_active (x : gmap str ActiveTask) (m : CertificateManager) : CertificateManager :=
  {| resolver := resolver m; snapshot := snapshot m; config := config m; resolvers :=
     resolvers m; directs := directs m; statuses := statuses m; active := x; pending :=
     pending m; tasks := tasks m; retry := retry m; account_gates := account_gates m;
     dns_gates := dns_gates m; generation := generation m; issuance_permits :=
     issuance_permits m; dns_test_permits := dns_test_permits m; cancelled := cancelled m;
     next_handle := next_handle m |}.
Definition set_pending (x : gmap str ManualOrder) (m : CertificateManager) : CertificateManager :=
  {| resolver := resolver m; snapshot := snapshot m; config := config m; resolvers :=
     resolvers m; directs := directs m; statuses := statuses m; active := active m; pending
     := x; tasks := tasks m; retry := retry m; account_gates := account_gates m; dns_gates
     := dns_gates m; generation := generation m; issuance_permits := issuance_permits m;
     dns_test_permits := dns_test_permits m; cancelled := cancelled m; next_handle :=
     next_handle m |}.
Definition set_tasks (x : list Task) (m : CertificateManager) : CertificateManager :=
  {| resolver := resolver m; snapshot := snapshot m; config := config m; resolvers :=
     resolvers m; directs := directs m; statuses := statuses m; active := active m; pending
     := pending m; tasks := x; retry := retry m; account_gates := account_gates m; dns_gates
     := dns_gates m; generation := generation m; issuance_permits := issuance_permits m;
     dns_test_permits := dns_test_permits m; cancelled := cancelled m; next_handle :=
     next_handle m |}.
Definition set_retry (x : gmap str RetryState) (m : CertificateManager) : CertificateManager :=
  {| resolver := resolver m; snapshot := snapshot m; config := config m; resolvers :=
     resolvers m; directs := directs m; statuses := statuses m; active := active m; pending
     := pending m; tasks := tasks m; retry := x; account_gates := account_gates m; dns_gates
     := dns_gates m; generation := generation m; issuance_permits := issuance_permits m;
     dns_test_permits := dns_test_permits m; cancelled := cancelled m; next_handle :=
     next_handle m |}.
Definition set_account_gates (x : gmap str N) (m : CertificateManager) : CertificateManager :=
  {| resolver := resolver m; snapshot := snapshot m; config := config m; resolvers :=
     resolvers m; directs := directs m; statuses := statuses m; active := active m; pending
     := pending m; tasks := tasks m; retry := retry m; account_gates := x; dns_gates :=
     dns_gates m; generation := generation m; issuance_permits := issuance_permits m;
     dns_test_permits := dns_test_permits m; cancelled := cancelled m; next_handle :=
     next_handle m |}.
Definition set_dns_gates (x : gmap str N) (m : CertificateManager) : CertificateManager :=
  {| resolver := resolver m; snapshot := snapshot m; config := config m; resolvers :=
     resolvers m; directs := directs m; statuses := statuses m; active := active m; pending
     := pending m; tasks := tasks m; retry := retry m; account_gates := account_gates m;
     dns_gates := x; generation := generation m; issuance_permits := issuance_permits m;
     dns_test_permits := dns_test_permits m; cancelled := cancelled m; next_handle :=
     next_handle m |}.
Definition set_generation (x : N) (m : CertificateManager) : CertificateManager :=
  {| resolver := resolver m; snapshot := snapshot m; config := config m; resolvers :=
     resolvers m; directs := directs m; statuses := statuses m; active := active m; pending
     := pending m; tasks := tasks m; retry := retry m; account_gates := account_gates m;
     dns_gates := dns_gates m; generation := x; issuance_permits := issuance_permits m;
     dns_test_permits := dns_test_permits m; cancelled := cancelled m; next_handle :=
     next_handle m |}.
Definition set_issuance_permits (x : N) (m : CertificateManager) : CertificateManager :=
  {| resolver := resolver m; snapshot := snapshot m; config := config m; resolvers :=
     resolvers m; directs := directs m; statuses := statuses m; active := active m; pending
     := pending m; tasks := tasks m; retry := retry m; account_gates := account_gates m;
     dns_gates := dns_gates m; generation := generation m; issuance_permits := x;
     dns_test_permits := dns_test_permits m; cancelled := cancelled m; next_handle :=
     next_handle m |}.
Definition set_dns_test_permits (x : N) (m : CertificateManager) : CertificateManager :=
  {| resolver := resolver m; snapshot := snapshot m; config := config m; resolvers :=
     resolvers m; directs := directs m; statuses := statuses m; active := active m; pending
     := pending m; tasks := tasks m; retry := retry m; account_gates := account_gates m;
     dns_gates := dns_gates m; generation := generation m; issuance_permits :=
     issuance_permits m; dns_test_permits := x; cancelled := cancelled m; next_handle :=
     next_handle m |}.
Definition set_cancelled (x : gset N) (m : CertificateManager) : CertificateManager :=
  {| resolver := resolver m; snapshot := snapshot m; config := config m; resolvers :=
     resolvers m; directs := directs m; statuses := statuses m; active := active m; pending
     := pending m; tasks := tasks m; retry := retry m; account_gates := account_gates m;
     dns_gates := dns_gates m; generation := generation m; issuance_permits :=
     issuance_permits m; dns_test_permits := dns_test_permits m; cancelled := x; next_handle
     := next_handle m |}.
Definition set_next_handle (x : N) (m : CertificateManager) : CertificateManager :=
  {| resolver := resolver m; snapshot := snapshot m; config := config m; resolvers :=
     resolvers m; directs := directs m; statuses := statuses m; active := active m; pending
     := pending m; tasks := tasks m; retry := retry m; account_gates := account_gates m;
     dns_gates := dns_gates m; generation := generation m; issuance_permits :=
     issuance_permits m; dns_test_permits := dns_test_permits m; cancelled := cancelled m;
     next_handle := x |}.


(** ** Small operations *)

Definition next_generation (m : CertificateManager) : N * CertificateManager :=
  let g := (generation m + 1) mod 2 ^ 64 in (g, set_generation g m).

(** A fresh shared object. *)
Definition alloc (m : CertificateManager) : N * CertificateManager :=
  (next_handle m, set_next_handle (next_handle m + 1) m).

Definition cancel_token (t : N) (m : CertificateManager) : CertificateManager :=
  set_cancelled ({[t]} ∪ cancelled m) m.

(** [publish]: the statuses, ordered by certificate. *)
Definition published (m : CertificateManager) : list CertificateRuntimeStatus :=
  sort_by_key rs_certificate_id (map_to_list (statuses m)).*2.
Definition publish (m : CertificateManager) : CertificateManager :=
  set_snapshot {| snap_certificates := published m;
                  snap_config_status := snap_config_status (snapshot m) |} m.

Definition update_status (f : CertificateRuntimeStatus → CertificateRuntimeStatus) (id : str)
  (m : CertificateManager) : CertificateManager :=
  set_statuses (alter f id (statuses m)) m.

Definition status_with (s : CertificateStatus) (error : option str) (records : list ManualDnsRecord)
  (st : CertificateRuntimeStatus) : CertificateRuntimeStatus :=
  {| rs_certificate_id := rs_certificate_id st; rs_status := s; rs_expires_at := rs_expires_at st;
     rs_last_error := error; rs_manual_records := records |}.

Definition find_cert (c : ProxyConfig) (id : str) : option CertificateConfig :=
  List.find (λ x, bool_decide (cert_id x = id)) (certificates c).
Definition find_acme (c : ProxyConfig) (id : str) : option AcmeAccountConfig :=
  List.find (λ x, bool_decide (acme_id x = id)) (acme_accounts c).
Definition find_dns (c : ProxyConfig) (id : str) : option DnsAccountConfig :=
  List.find (λ x, bool_decide (dns_id x = id)) (dns_accounts c).

(** [gate_for] on the gates of the ACME accounts and of the DNS accounts. *)
Definition account_gate_for (id : str) (m : CertificateManager) : N * CertificateManager :=
  match account_gates m !! id with
  | Some g => (g, m)
  | None => let '(g, m) := alloc m in (g, set_account_gates (<[id := g]> (account_gates m)) m)
  end.
Definition dns_gate_for (id : str) (m : CertificateManager) : N * CertificateManager :=
  match dns_gates m !! id with
  | Some g => (g, m)
  | None => let '(g, m) := alloc m in (g, set_dns_gates (<[id := g]> (dns_gates m)) m)
  end.

(** The handshake: the key of a server name, if the client sends one. *)
Definition resolve (m : CertificateManager) (iter : list (str * ResolverEntry N)) (server_name : option str)
  : option CertifiedKey :=
  name ← server_name;
  handle ← resolver_for (resolver m) iter name;
  mjoin (directs m !! handle).

(** ** Starting issuance *)

Definition start_error (m : CertificateManager) (message : str) : PResult unit * CertificateManager :=
  (Err (PRuntime message), m).

(** The task, its cancellation and the bookkeeping shared by both starts. *)
Definition spawn_task (id : str) (work : task_work) (root : Path) (m : CertificateManager)
  : CertificateManager :=
  let '(token, m) := alloc m in
  let '(g, m) := next_generation m in
  let m := set_issuance_permits (issuance_permits m - 1) m in
  let m := set_tasks (tasks m ++ [{| t_certificate_id := id; t_generation := g; t_work := work;
                                     t_root := root; t_token := token; t_running := true |}]) m in
  set_active (<[id := {| at_generation := g; at_cancellation := token |}]> (active m)) m.

(** The DNS account of a certificate, for the request. *)
Definition request_dns (c : ProxyConfig) (cert : CertificateConfig)
  : PResult (option DnsAccountConfig) :=
  match cert_validation cert with
  | Some (DnsAccount i) =>
      a ← ok_or (find_dns c i) (PRuntime "DNS 账户不存在");
      Ok (Some a)
  | Some Manual | None => Ok None
  end.

Definition start_issue (m : CertificateManager) (id : str) (renewal : bool)
  : PResult unit * CertificateManager :=
  match active m !! id with
  | Some _ => start_error m "该证书正在申请中"
  | None =>
  match config m with
  | None => start_error m "代理配置尚未应用"
  | Some c =>
  match find_cert c id with
  | None => start_error m "证书不存在"
  | Some cert =>
  match cert_validation cert with
  | None => start_error m (default (lit "证书尚未选择验证方式") (migration_error cert))
  | Some _ =>
  match find_acme c (acme_account_id cert) with
  | None => start_error m "ACME 账户不存在"
  | Some account =>
  match request_dns c cert with
  | Err e => (Err e, m)
  | Ok dns_account =>
      let '(account_gate, m) := account_gate_for (acme_id account) m in
      let '(dns_gate, m) :=
        match dns_account with
        | Some a => let '(g, m) := dns_gate_for (dns_id a) m in (Some g, m)
        | None => (None, m)
        end in
      if issuance_permits m =? 0 then start_error m "证书签发任务已达到并发上限" else
      let m := set_pending (delete id (pending m)) m in
      let request := {| ir_certificate := cert; ir_account := account; ir_dns_account := dns_account;
                        ir_account_gate := account_gate; ir_dns_gate := dns_gate |} in
      let m := spawn_task id (BeginIssue request) (cache_dir (proxy c)) m in
      let m := update_status (status_with (if renewal then Renewing else Issuing) None []) id m in
      (Ok tt, publish m)
  end end end end end end.

Definition start_continue (m : CertificateManager) (id : str) : PResult unit * CertificateManager :=
  match active m !! id with
  | Some _ => start_error m "该证书正在申请中"
  | None =>
  match config m with
  | None => start_error m "代理配置尚未应用"
  | Some c =>
      if issuance_permits m =? 0 then start_error m "证书签发任务已达到并发上限" else
      match pending m !! id with
      | None => start_error m "没有等待手动解析的 ACME 订单"
      | Some order =>
          let m := set_pending (delete id (pending m)) m in
          let m := spawn_task id (ContinueManual order) (cache_dir (proxy c)) m in
          let m := update_status (λ st, status_with Issuing None (rs_manual_records st) st) id m in
          (Ok tt, publish m)
      end
  end end.

(** ** Ends of tasks *)

Definition retry_delay (attempts : N) : N := N.min (RETRY_BASE * 2 ^ N.min attempts 6) RETRY_MAX.
Definition jitter (id : str) : N :=
  foldl (λ value byte, (value + N_of_ascii byte) mod 2 ^ 64) 0 id mod 60.
Definition saturating_add (a b : N) : N := N.min (a + b) u64_max.

Definition can_retry (m : CertificateManager) (id : str) : bool :=
  match config m with
  | Some c => match find_cert c id with Some cert => auto_renew cert | None => false end
  | None => false
  end
  && match statuses m !! id with Some st => configured (rs_expires_at st) | None => false end.

Definition next_retry (now : N) (id : str) (r : option RetryState) : RetryState :=
  let r := default {| attempts := 0; retry_at := now |} r in
  {| retry_at := saturating_add (saturating_add now (retry_delay (attempts r))) (jitter id);
     attempts := N.min (attempts r + 1) u32_max |}.

Definition expired (now : N) (e : option N) : bool :=
  match e with Some expiry => expiry <=? now | None => false end.

Definition fail_cert (m : CertificateManager) (id : str) (error : ProxyError) (now : N) : CertificateManager :=
  let m := if can_retry m id
           then set_retry (<[id := next_retry now id (retry m !! id)]> (retry m)) m else m in
  update_status (λ st, status_with (if expired now (rs_expires_at st) then Expired else SFailed)
                         (Some (fmt_proxy_error io error)) [] st) id m.

Definition deploy (m : CertificateManager) (id : str) (c : IssuedCertificate) (now : N)
  : CertificateManager :=
  match handle ← ok_or (resolvers m !! id) (PRuntime "证书解析器不存在");
        key ← set_pem (issued_certificate_pem c) (issued_private_key_pem c);
        Ok (handle, key) with
  | Ok (handle, key) =>
      let m := set_directs (<[handle := Some key]> (directs m)) m in
      let m := set_retry (delete id (retry m)) m in
      update_status (λ st, {| rs_certificate_id := rs_certificate_id st; rs_status := Valid;
                              rs_expires_at := Some (issued_expires_at c); rs_last_error := None;
                              rs_manual_records := [] |}) id m
  | Err e => fail_cert m id e now
  end.

Definition handle_task (m : CertificateManager) (output : TaskOutput) (now : N) : CertificateManager :=
  let id := out_certificate_id output in
  match active m !! id with
  | None => m
  | Some a =>
      if negb (at_generation a =? out_generation output) then m else
      let m := set_active (delete id (active m)) m in
      let m :=
        match out_result output with
        | Begin (Ok (Issued certificate)) | Continued (Ok certificate) => deploy m id certificate now
        | Begin (Ok (Waiting order)) =>
            update_status (status_with WaitingDns None (mo_records order)) id
              (set_pending (<[id := order]> (pending m)) m)
        | ManualNotReady order error =>
            update_status (status_with WaitingDns (Some (fmt_proxy_error io error)) (mo_records order)) id
              (set_pending (<[id := order]> (pending m)) m)
        | Begin (Err error) | Continued (Err error) => fail_cert m id error now
        end in
      publish m
  end.

(** ** The scheduler *)

(** A valid or failed certificate whose time has come. *)
Definition expirable (now : N) (st : CertificateRuntimeStatus) : bool :=
  expired now (rs_expires_at st)
  && (bool_decide (rs_status st = Valid) || bool_decide (rs_status st = SFailed)).

Definition expire_one (now : N) (st : CertificateRuntimeStatus) : CertificateRuntimeStatus :=
  if expirable now st then status_with Expired (rs_last_error st) (rs_manual_records st) st else st.

Definition is_due (m : CertificateManager) (now : N) (c : CertificateConfig) : bool :=
  auto_renew c &&
  match statuses m !! cert_id c with
  | Some st =>
      match rs_expires_at st with
      | Some expires_at =>
          (expires_at - RENEW_BEFORE <=? now)
          && match retry m !! cert_id c with Some r => retry_at r <=? now | None => true end
          && bool_decide (active m !! cert_id c = None)
      | None => false
      end
  | None => false
  end.

(** The due certificates, in the order of the configuration. *)
Definition due (m : CertificateManager) (now : N) : list str :=
  match config m with
  | Some c => cert_id <$> filter (λ c, is_due m now c = true) (certificates c)
  | None => []
  end.

(** [clock id] is what [fail] reads from the clock when the renewal of [id] is
    refused, after the reading [now] of the scheduler. *)
Definition renew_one (clock : str → N) (m : CertificateManager) (id : str) : CertificateManager :=
  match start_issue m id true with
  | (Ok _, m) => m
  | (Err error, m) => fail_cert m id error (clock id)
  end.

Definition schedule_due (m : CertificateManager) (now : N) (clock : str → N) : CertificateManager :=
  let status_changed := existsb (λ kv, expirable now kv.2) (map_to_list (statuses m)) in
  let m := set_statuses (expire_one now <$> statuses m) m in
  let m := foldl (renew_one clock) m (due m now) in
  if status_changed then publish m else m.

(** ** Applying a configuration *)

Definition same_acme_runtime_account (a b : option AcmeAccountConfig) : bool :=
  match a, b with
  | Some a, Some b =>
      bool_decide (acme_id a = acme_id b) && bool_decide (acme_provider a = acme_provider b)
      && bool_decide (acme_environment a = acme_environment b)
      && bool_decide (acme_email a = acme_email b)
      && bool_decide (acme_key_algorithm a = acme_key_algorithm b)
      && bool_decide (eab_key_id a = eab_key_id b) && bool_decide (eab_hmac_key a = eab_hmac_key b)
  | None, None => true
  | _, _ => false
  end.

Definition same_dns_runtime_account (a b : option DnsAccountConfig) : bool :=
  match a, b with
  | Some a, Some b =>
      bool_decide (dns_id a = dns_id b) && bool_decide (dns_provider a = dns_provider b)
      && bool_decide (api_token a = api_token b) && bool_decide (access_key a = access_key b)
      && bool_decide (secret_key a = secret_key b)
  | None, None => true
  | _, _ => false
  end.

Definition dns_account_for_certificate (c : ProxyConfig) (cert : CertificateConfig)
  : option DnsAccountConfig :=
  match cert_validation cert with
  | Some (DnsAccount i) => find_dns c i
  | Some Manual | None => None
  end.

Definition certificate_runtime_changed (current next : ProxyConfig) (a b : CertificateConfig) : bool :=
  negb (bool_decide (cache_dir (proxy current) = cache_dir (proxy next)))
  || negb (bool_decide (cert_domains a = cert_domains b))
  || negb (bool_decide (acme_account_id a = acme_account_id b))
  || negb (bool_decide (cert_validation a = cert_validation b))
  || negb (bool_decide (migration_error a = migration_error b))
  || negb (same_acme_runtime_account (find_acme current (acme_account_id a))
             (find_acme next (acme_account_id b)))
  || negb (same_dns_runtime_account (dns_account_for_certificate current a)
             (dns_account_for_certificate next b)).

Definition requires_reload (current : option ProxyConfig) (next : ProxyConfig) (c : CertificateConfig) : bool :=
  match current with
  | None => true
  | Some current =>
      match find_cert current (cert_id c) with
      | None => true
      | Some old => certificate_runtime_changed current next old c
      end
  end.

Definition certificates_requiring_reload (current : option ProxyConfig) (next : ProxyConfig) : gset str :=
  list_to_set (cert_id <$> filter (λ c, requires_reload current next c = true) (certificates next)).

(** The outside of one application of a configuration: what the cache answers
    for each certificate, and the readings of the clock: when a certificate is
    loaded, when the scheduler runs, and when it refuses a renewal. *)
Record apply_env := {
  cached : CertificateConfig → PResult (option CachedCertificate);
  load_now : CertificateConfig → N;
  apply_now : N;
  apply_clock : str → N }.

Definition load_certificate_runtime (env : apply_env) (c : CertificateConfig)
  : option CertifiedKey * CertificateRuntimeStatus :=
  let status s expires error :=
    {| rs_certificate_id := cert_id c; rs_status := s; rs_expires_at := expires;
       rs_last_error := error; rs_manual_records := [] |} in
  match cached env c with
  | Ok (Some cc) =>
      match set_pem (cached_certificate cc) (cached_private_key cc) with
      | Ok key =>
          (Some key, status (if cached_expires_at cc <=? load_now env c then Expired else Valid)
                       (Some (cached_expires_at cc)) (migration_error c))
      | Err e => (None, status SFailed (Some (cached_expires_at cc)) (Some (fmt_proxy_error io e)))
      end
  | Ok None =>
      (None, status (if configured (migration_error c) then SFailed else Idle) None (migration_error c))
  | Err e => (None, status SFailed None (Some (fmt_proxy_error io e)))
  end.

(** Cancelling the work of a certificate. *)
Definition drop_work (m : CertificateManager) (id : str) : CertificateManager :=
  let m := match active m !! id with
           | Some a => cancel_token (at_cancellation a) (set_active (delete id (active m)) m)
           | None => m
           end in
  set_retry (delete id (retry m)) (set_pending (delete id (pending m)) m).

Definition load_one (env : apply_env)
  (acc : CertificateManager * list (CertificateConfig * N * CertificateRuntimeStatus)) (c : CertificateConfig)
  : CertificateManager * list (CertificateConfig * N * CertificateRuntimeStatus) :=
  let '(m, replacements) := acc in
  let '(key, status) := load_certificate_runtime env c in
  let '(handle, m) := alloc m in
  (set_directs (<[handle := key]> (directs m)) m, replacements ++ [(c, handle, status)]).

Definition remove_cert (m : CertificateManager) (id : str) : CertificateManager :=
  let m := set_resolver (CertificateResolver_remove (resolver m) id) m in
  let m := set_resolvers (delete id (resolvers m)) m in
  set_statuses (delete id (statuses m)) m.

Definition install_cert (m : CertificateManager)
  (r : CertificateConfig * N * CertificateRuntimeStatus) : CertificateManager :=
  let '(c, handle, status) := r in
  let m := set_resolver (replace_direct (resolver m) (cert_id c) (cert_domains c) handle) m in
  let m := set_resolvers (<[cert_id c := handle]> (resolvers m)) m in
  set_statuses (<[cert_id c := status]> (statuses m)) m.

(** A changed renewal flag forgets the back-off of the certificate. *)
Definition reset_retry (current : option ProxyConfig) (m : CertificateManager) (c : CertificateConfig)
  : CertificateManager :=
  match current with
  | Some current =>
      match find_cert current (cert_id c) with
      | Some old => if bool_decide (auto_renew old = auto_renew c) then m
                    else set_retry (delete (cert_id c) (retry m)) m
      | None => m
      end
  | None => m
  end.

Definition removed_ids (m : CertificateManager) (c : ProxyConfig) : list str :=
  filter (λ id, id ∉ cert_id <$> certificates c) (map_to_list (resolvers m)).*1.

(** The work of the reloaded and removed certificates is dropped and the new
    resolvers are loaded; the table TLS reads is not touched yet. *)
Definition load_replacements (env : apply_env) (m : CertificateManager) (c : ProxyConfig)
  : CertificateManager * list (CertificateConfig * N * CertificateRuntimeStatus) :=
  let reload := certificates_requiring_reload (config m) c in
  let m1 := foldl drop_work m (elements reload ++ removed_ids m c) in
  foldl (load_one env) (m1, []) (filter (λ k, cert_id k ∈ reload) (certificates c)).

(** The lock of the table is taken once for every removed certificate, in the
    order [removed] in which the hash map yields them, and once for every
    replacement: each turn is visible to the handshakes. *)
Inductive lock_turn :=
  | TurnRemove (id : str)
  | TurnInstall (r : CertificateConfig * N * CertificateRuntimeStatus).
Definition run_turn (m : CertificateManager) (t : lock_turn) : CertificateManager :=
  match t with TurnRemove id => remove_cert m id | TurnInstall r => install_cert m r end.
Definition lock_turns (removed : list str)
  (replacements : list (CertificateConfig * N * CertificateRuntimeStatus)) : list lock_turn :=
  (TurnRemove <$> removed) ++ (TurnInstall <$> replacements).

(** The state after the first [n] turns of an application. *)
Definition swapping (env : apply_env) (m : CertificateManager) (c : ProxyConfig) (removed : list str)
  (n : nat) : CertificateManager :=
  let '(m1, replacements) := load_replacements env m c in
  foldl run_turn m1 (take n (lock_turns removed replacements)).

(** The new deployment: resolvers loaded, then swapped in, turn by turn. *)
Definition swap_config (env : apply_env) (m : CertificateManager) (c : ProxyConfig) : CertificateManager :=
  let '(m1, replacements) := load_replacements env m c in
  let m2 := foldl run_turn m1 (lock_turns (removed_ids m c) replacements) in
  let m3 := foldl (reset_retry (config m)) m2 (certificates c) in
  set_config (Some c) m3.

Definition apply_config (env : apply_env) (m : CertificateManager) (c : ProxyConfig) : CertificateManager :=
  schedule_due (publish (swap_config env m c)) (apply_now env) (apply_clock env).

(** ** DNS credential tests, the end of a task and shutdown *)

Definition test_dns (m : CertificateManager) : PResult unit * CertificateManager :=
  if dns_test_permits m =? 0
  then start_error m "DNS 凭据测试任务已达到并发上限"
  else (Ok tt, set_dns_test_permits (dns_test_permits m - 1) m).
Definition dns_test_done (m : CertificateManager) : CertificateManager :=
  set_dns_test_permits (dns_test_permits m + 1) m.

(** The [i]-th task ends (normally or by a panic) and returns its permit. *)
Definition end_task (i : nat) (m : CertificateManager) : CertificateManager :=
  match tasks m !! i with
  | Some t =>
      if t_running t
      then set_issuance_permits (issuance_permits m + 1)
             (set_tasks (<[i := {| t_certificate_id := t_certificate_id t; t_generation := t_generation t;
                                   t_work := t_work t; t_root := t_root t; t_token := t_token t;
                                   t_running := false |}]> (tasks m)) m)
      else m
  | None => m
  end.

(** [join_next] yields the [i]-th task with its result, or [None] when it
    panicked: then the error is logged and nothing else happens. *)
Definition join_task (i : nat) (r : option TaskResult) (now : N) (m : CertificateManager)
  : CertificateManager :=
  match tasks m !! i with
  | Some t =>
      if t_running t then m else
      let m := set_tasks (delete i (tasks m)) m in
      match r with
      | Some r => handle_task m {| out_certificate_id := t_certificate_id t;
                                   out_generation := t_generation t; out_result := r |} now
      | None => m
      end
  | None => m
  end.

(** ** What the control side reads and writes *)

Record ConfigApplyState := { ca_config : option ProxyConfig; ca_status : ProxyConfigStatus }.

Definition publish_config_status (m : CertificateManager) (c : option ProxyConfig) (error : option str)
  : CertificateManager * ConfigApplyState :=
  let status := {| ps_revision := (ps_revision (snap_config_status (snapshot m)) + 1) mod 2 ^ 64;
                   ps_last_apply_error := error |} in
  (set_snapshot {| snap_certificates := snap_certificates (snapshot m); snap_config_status := status |} m,
   {| ca_config := c; ca_status := status |}).
Definition report_config_applied (m : CertificateManager) (c : ProxyConfig) :=
  publish_config_status m (Some c) None.
Definition report_config_failed (m : CertificateManager) (c : ProxyConfig) (error : str) :=
  publish_config_status m (Some c) (Some error).
Definition report_config_load_error (m : CertificateManager) (error : str) :=
  publish_config_status m None (Some error).

(** What [wait_for_config] returns for the value it sees, if it returns. *)
Definition wait_for_config (c : ProxyConfig) (after_revision : N) (seen : ConfigApplyState)
  : option ProxyConfigStatus :=
  if negb (ps_revision (ca_status seen) =? after_revision)
  then match ca_config seen with
       | Some applied =>
           if bool_decide (applied = c) then Some (ca_status seen) else None
       | None => None
       end
  else None.

(** The end of [run]: every active task is cancelled and the tasks are
    aborted. *)
Definition shutdown_manager (m : CertificateManager) : CertificateManager :=
  set_dns_test_permits MAX_CONCURRENT_DNS_TESTS
    (set_issuance_permits MAX_CONCURRENT_ISSUANCE
      (set_tasks []
        (foldl (λ m a, cancel_token (at_cancellation a.2) m) m (map_to_list (active m))))).

(** ** Frames of the operations *)

(** Only the gates of the accounts may have been created. *)
Definition with_gates (a d : gmap str N) (n : N) (m : CertificateManager) : CertificateManager :=
  set_next_handle n (set_account_gates a (set_dns_gates d m)).

Lemma with_gates_id m : with_gates (account_gates m) (dns_gates m) (next_handle m) m = m.
Proof. by destruct m. Qed.

(** The state after a successful start. *)
Definition started (id : str) (work : task_work) (root : Path)
  (f : CertificateRuntimeStatus → CertificateRuntimeStatus) (m : CertificateManager) : CertificateManager :=
  publish (update_status f id (spawn_task id work root (set_pending (delete id (pending m)) m))).

Lemma account_gate_inv id m g m' :
  account_gate_for id m = (g, m') → ∃ a n, next_handle m <= n ∧ m' = with_gates a (dns_gates m) n m.
Proof.
  unfold account_gate_for, alloc. destruct (account_gates m !! id).
  - intros [= <- <-]. exists (account_gates m), (next_handle m). split; [lia|]. by rewrite with_gates_id.
  - intros [= <- <-]. exists (<[id := next_handle m]> (account_gates m)), (next_handle m + 1). split; [lia|].
    by destruct m.
Qed.

Lemma dns_gate_inv id m g m' :
  dns_gate_for id m = (g, m') → ∃ d n, next_handle m <= n ∧ m' = with_gates (account_gates m) d n m.
Proof.
  unfold dns_gate_for, alloc. destruct (dns_gates m !! id).
  - intros [= <- <-]. exists (dns_gates m), (next_handle m). split; [lia|]. by rewrite with_gates_id.
  - intros [= <- <-]. exists (<[id := next_handle m]> (dns_gates m)), (next_handle m + 1). split; [lia|].
    by destruct m.
Qed.

(** When a start is possible, and its error otherwise. *)
Definition start_blocked (m : CertificateManager) (id : str) : option ProxyError :=
  match active m !! id with
  | Some _ => Some (PRuntime "该证书正在申请中")
  | None =>
  match config m with
  | None => Some (PRuntime "代理配置尚未应用")
  | Some c =>
  match find_cert c id with
  | None => Some (PRuntime "证书不存在")
  | Some cert =>
  match cert_validation cert with
  | None => Some (PRuntime (default (lit "证书尚未选择验证方式") (migration_error cert)))
  | Some _ =>
  match find_acme c (acme_account_id cert), request_dns c cert with
  | None, _ => Some (PRuntime "ACME 账户不存在")
  | _, Err e => Some e
  | Some _, Ok _ =>
      if issuance_permits m =? 0 then Some (PRuntime "证书签发任务已达到并发上限") else None
  end end end end end.

Lemma start_issue_inv m id b r m' :
  start_issue m id b = (r, m') →
  ∃ a d n, next_handle m <= n ∧
    match start_blocked m id with
    | Some e => r = Err e ∧ m' = with_gates a d n m
    | None => r = Ok tt ∧ ∃ c cert request, config m = Some c ∧ find_cert c id = Some cert ∧
        ir_certificate request = cert ∧
        m' = started id (BeginIssue request) (cache_dir (proxy c))
               (status_with (if b then Renewing else Issuing) None []) (with_gates a d n m)
    end.
Proof.
  unfold start_issue, start_blocked, start_error.
  assert (Hid : ∀ e : ProxyError, (Err e, m) = (r, m') → ∃ a d n, next_handle m <= n ∧ r = Err e ∧ m' = with_gates a d n m).
  { intros e [= <- <-]. exists (account_gates m), (dns_gates m), (next_handle m). by rewrite with_gates_id. }
  destruct (active m !! id) eqn:Hact; [by apply Hid|].
  destruct (config m) as [c|] eqn:Hc; [|by apply Hid].
  destruct (find_cert c id) as [cert|] eqn:Hcert; [|by apply Hid].
  destruct (cert_validation cert) as [v|] eqn:Hv; [|by apply Hid].
  destruct (find_acme c (acme_account_id cert)) as [acc|] eqn:Hacc; [|by apply Hid].
  destruct (request_dns c cert) as [dns|e] eqn:Hdns; [|by apply Hid].
  destruct (account_gate_for (acme_id acc) m) as [g m1] eqn:Hg.
  apply account_gate_inv in Hg as (a & n & Hn & ->).
  assert (Hd : ∃ dg d n2, n <= n2 ∧
    (match dns with
     | Some a0 => let '(g, m) := dns_gate_for (dns_id a0) (with_gates a (dns_gates m) n m) in (Some g, m)
     | None => (None, with_gates a (dns_gates m) n m)
     end) = (dg, with_gates a d n2 m)).
  { destruct dns as [a0|].
    - destruct (dns_gate_for (dns_id a0) (with_gates a (dns_gates m) n m)) as [g2 m2] eqn:Hg2.
      apply dns_gate_inv in Hg2 as (d & n2 & Hn2 & ->). exists (Some g2), d, n2. by split.
    - exists None, (dns_gates m), n. split; [lia|done]. }
  destruct Hd as (dg & d & n2 & Hn2 & ->).
  change (issuance_permits (with_gates a d n2 m)) with (issuance_permits m).
  destruct (issuance_permits m =? 0).
  { intros [= <- <-]. exists a, d, n2. split; [lia|]. done. }
  intros E. exists a, d, n2. split; [lia|].
  pose proof (f_equal fst E) as Hr. pose proof (f_equal snd E) as Hm. cbn [fst snd] in Hr, Hm.
  split; [by rewrite <- Hr|].
  exists c, cert, {| ir_certificate := cert; ir_account := acc; ir_dns_account := dns;
                     ir_account_gate := g; ir_dns_gate := dg |}.
  split; [done|]. split; [done|]. split; [done|]. rewrite <- Hm. unfold started.
  reflexivity.
Qed.

Lemma start_continue_inv m id r m' :
  start_continue m id = (r, m') →
  (m' = m ∧ ∃ e, r = Err e) ∨
  (r = Ok tt ∧ ∃ c order, config m = Some c ∧ active m !! id = None ∧ pending m !! id = Some order ∧
     issuance_permits m ≠ 0 ∧
     m' = started id (ContinueManual order) (cache_dir (proxy c))
            (λ st, status_with Issuing None (rs_manual_records st) st) m).
Proof.
  unfold start_continue, start_error. destruct (active m !! id) eqn:Ha; [intros [= <- <-]; left; eauto|].
  destruct (config m) as [c|] eqn:Hc; [|intros [= <- <-]; left; eauto].
  destruct (N.eqb_spec (issuance_permits m) 0); [intros [= <- <-]; left; eauto|].
  destruct (pending m !! id) as [order|] eqn:Hp; intros [= <- <-]; [right|left; eauto].
  split; [done|]. exists c, order. split_and!; try done.
Qed.

(** ** The invariant *)

Definition certs (m : CertificateManager) : list CertificateConfig :=
  match config m with Some c => certificates c | None => [] end.
Definition ids (m : CertificateManager) : list str := cert_id <$> certs m.

(** The names served by TLS are the domains of the configuration, each with
    the resolver of its certificate. *)
Definition table_ok (m : CertificateManager) : Prop :=
  exact_ok (resolver m) ∧
  ∀ d e, entry_at (resolver m) d = Some e ↔
    ∃ c, c ∈ certs m ∧ d ∈ cert_domains c ∧ entry_owner e = cert_id c ∧
         resolvers m !! cert_id c = Some (entry_resolver e).

(** Each certificate has its own resolver object. *)
Definition handles_ok (m : CertificateManager) : Prop :=
  (∀ id h, resolvers m !! id = Some h → h < next_handle m ∧ is_Some (directs m !! h)) ∧
  (∀ id1 id2 h, resolvers m !! id1 = Some h → resolvers m !! id2 = Some h → id1 = id2).

(** Work in progress: only for configured certificates, never both active and
    waiting, with distinct live generations, within the permits. *)
Record work_ok (m : CertificateManager) : Prop := {
  active_ids : ∀ id a, active m !! id = Some a → id ∈ ids m;
  active_generation : ∀ id a, active m !! id = Some a → at_generation a <= generation m;
  active_token : ∀ id a, active m !! id = Some a → at_cancellation a < next_handle m ∧ at_cancellation a ∉ cancelled m;
  active_pending : ∀ id a, active m !! id = Some a → pending m !! id = None;
  active_distinct : ∀ id1 id2 a1 a2, active m !! id1 = Some a1 → active m !! id2 = Some a2 →
    at_cancellation a1 = at_cancellation a2 → id1 = id2;
  pending_ids : ∀ id, is_Some (pending m !! id) → id ∈ ids m;
  retry_ids : ∀ id, is_Some (retry m !! id) → id ∈ ids m;
  task_generation : ∀ t, t ∈ tasks m → t_generation t <= generation m;
  cancelled_old : ∀ t, t ∈ cancelled m → t < next_handle m;
  permits_count : issuance_permits m + len (filter (λ t, t_running t = true) (tasks m)) = MAX_CONCURRENT_ISSUANCE }.

Record statuses_ok (m : CertificateManager) : Prop := {
  resolvers_ids : ∀ id, is_Some (resolvers m !! id) ↔ id ∈ ids m;
  statuses_ids : ∀ id, is_Some (statuses m !! id) ↔ id ∈ ids m;
  statuses_key : ∀ id st, statuses m !! id = Some st → rs_certificate_id st = id }.

Definition config_ok (m : CertificateManager) : Prop :=
  NoDup (ids m) ∧ NoDup (concat (cert_domains <$> certs m)).

Record manager_inv (m : CertificateManager) : Prop := {
  inv_config : config_ok m;
  inv_table : table_ok m;
  inv_handles : handles_ok m;
  inv_statuses : statuses_ok m;
  inv_work : work_ok m }.

(** ** Operations that leave the deployment alone *)

(** The configuration, the TLS table and the resolver of each certificate. *)
Definition same_deployment (m m' : CertificateManager) : Prop :=
  config m' = config m ∧ resolver m' = resolver m ∧ resolvers m' = resolvers m ∧
  (∀ h, is_Some (directs m !! h) → is_Some (directs m' !! h)) ∧ next_handle m <= next_handle m'.

Lemma same_deployment_refl m : same_deployment m m.
Proof. unfold same_deployment. split_and!; auto; lia. Qed.
Lemma same_deployment_trans m1 m2 m3 :
  same_deployment m1 m2 → same_deployment m2 m3 → same_deployment m1 m3.
Proof.
  intros (E1 & E2 & E3 & E4 & E5) (F1 & F2 & F3 & F4 & F5). unfold same_deployment.
  rewrite F1, F2, F3. split_and!; auto; lia.
Qed.

Lemma same_deployment_inv m m' :
  same_deployment m m' → statuses_ok m' → work_ok m' → manager_inv m → manager_inv m'.
Proof.
  intros (E1 & E2 & E3 & E4 & E5) Hs Hw [Hc [Ht1 Ht2] [Hh1 Hh2] _ _].
  assert (Hcerts : certs m' = certs m) by (unfold certs; by rewrite E1).
  split; try done.
  - unfold config_ok, ids in *. by rewrite Hcerts.
  - unfold table_ok. rewrite E2, Hcerts, E3. done.
  - split; rewrite E3; [|exact Hh2]. intros id h Hh. destruct (Hh1 id h Hh). split; [lia|auto].
Qed.

Lemma alter_lookup_ids (f : CertificateRuntimeStatus → CertificateRuntimeStatus) (s : gmap str CertificateRuntimeStatus) id k :
  is_Some (alter f id s !! k) ↔ is_Some (s !! k).
Proof.
  destruct (decide (k = id)) as [->|Hk]; [|by rewrite lookup_alter_ne].
  rewrite lookup_alter_eq. apply fmap_is_Some.
Qed.

(** Rewriting one status, under the same identifier. *)
Lemma update_status_ok f id m :
  (∀ st, rs_certificate_id (f st) = rs_certificate_id st) →
  statuses_ok m → statuses_ok (update_status f id m).
Proof.
  intros Hf [H1 H2 H3]. split; [exact H1| |].
  - intros k. simpl. rewrite alter_lookup_ids. apply H2.
  - intros k st. simpl. destruct (decide (k = id)) as [->|Hk].
    + rewrite lookup_alter_eq. intros (st0 & Hst & ->)%fmap_Some. rewrite Hf. eauto.
    + rewrite lookup_alter_ne by done. eauto.
Qed.

Lemma statuses_ok_ext m m' :
  config m' = config m → resolvers m' = resolvers m → statuses m' = statuses m →
  statuses_ok m → statuses_ok m'.
Proof.
  intros E1 E2 E3 [H1 H2 H3]. split; unfold ids, certs in *; rewrite ?E1, ?E2, ?E3; done.
Qed.

(** A state that differs from [m] only in fields [work_ok] does not read. *)
Lemma work_ok_ext m m' :
  active m' = active m → pending m' = pending m → retry m' = retry m → tasks m' = tasks m →
  generation m' = generation m → issuance_permits m' = issuance_permits m →
  cancelled m' = cancelled m → next_handle m <= next_handle m' → ids m' = ids m →
  work_ok m → work_ok m'.
Proof.
  intros E1 E2 E3 E4 E5 E6 E7 Hn E8 []. split; rewrite ?E1, ?E2, ?E3, ?E4, ?E5, ?E6, ?E7, ?E8; try done.
  - intros id a Ha. destruct (active_token0 id a Ha). split; [lia|done].
  - intros t Ht. specialize (cancelled_old0 t Ht). lia.
Qed.

(** ** Each operation keeps the invariant *)

Lemma fmt_id_status s e r st : rs_certificate_id (status_with s e r st) = rs_certificate_id st.
Proof. done. Qed.

Lemma with_gates_inv a d n m : next_handle m <= n → manager_inv m → manager_inv (with_gates a d n m).
Proof.
  intros Hn Hi. apply (same_deployment_inv m); [by split_and!|by apply (statuses_ok_ext m), Hi| |done].
  apply (work_ok_ext m); try done. apply Hi.
Qed.

Lemma running_app (l k : list Task) :
  len (filter (λ t, t_running t = true) (l ++ k)) =
  len (filter (λ t, t_running t = true) l) + len (filter (λ t, t_running t = true) k).
Proof. unfold len. rewrite filter_app, length_app. lia. Qed.

(** The work fields after a start. *)
Lemma started_work id work root f m :
  active m !! id = None → id ∈ ids m → issuance_permits m ≠ 0 → generation m + 1 < 2 ^ 64 →
  work_ok m → work_ok (started id work root f m).
Proof.
  intros Ha Hid Hp Hg W. assert (Hmod : (generation m + 1) mod 2 ^ 64 = generation m + 1) by (by apply N.mod_small).
  split; cbn -[N.modulo N.pow filter]; rewrite ?Hmod.
  - intros k a. rewrite lookup_insert_Some. intros [[<- _]|[_ Hk]]; [exact Hid|exact (active_ids m W _ _ Hk)].
  - intros k a. rewrite lookup_insert_Some. intros [[<- <-]|[_ Hk]]; simpl; [lia|].
    apply (active_generation m W) in Hk. lia.
  - intros k a. rewrite lookup_insert_Some. intros [[<- <-]|[_ Hk]]; simpl.
    + split; [lia|]. intros Hc. apply (cancelled_old m W) in Hc. lia.
    + destruct (active_token m W _ _ Hk). split; [lia|done].
  - intros k a. rewrite lookup_insert_Some. intros [[<- _]|[Hne Hk]]; [by rewrite lookup_delete_eq|].
    rewrite lookup_delete_ne by done. exact (active_pending m W _ _ Hk).
  - intros k1 k2 a1 a2. rewrite !lookup_insert_Some.
    intros [[<- <-]|[Hn1 H1]] [[<- <-]|[Hn2 H2]]; simpl; try done.
    + destruct (active_token m W _ _ H2). lia.
    + destruct (active_token m W _ _ H1). lia.
    + exact (active_distinct m W _ _ _ _ H1 H2).
  - intros k [x Hx]. apply lookup_delete_Some in Hx as [_ Hx]. apply (pending_ids m W). by exists x.
  - apply (retry_ids m W).
  - intros t [Ht|Ht]%elem_of_app.
    + apply (task_generation m W) in Ht. lia.
    + apply list_elem_of_singleton in Ht as ->. simpl. lia.
  - intros t Ht. apply (cancelled_old m W) in Ht. lia.
  - rewrite running_app. rewrite (filter_cons_True (λ t, t_running t = true)) by done.
    rewrite filter_nil. pose proof (permits_count m W). unfold len at 2. simpl length.
    unfold MAX_CONCURRENT_ISSUANCE in *. lia.
Qed.

Lemma started_inv id work root f m :
  (∀ st, rs_certificate_id (f st) = rs_certificate_id st) →
  active m !! id = None → id ∈ ids m → issuance_permits m ≠ 0 → generation m + 1 < 2 ^ 64 →
  manager_inv m → manager_inv (started id work root f m).
Proof.
  intros Hf Ha Hid Hp Hg Hi. apply (same_deployment_inv m); [| | |done].
  - split_and!; cbn; auto. lia.
  - apply (statuses_ok_ext (update_status f id m)); [done..|]. by apply update_status_ok, Hi.
  - apply started_work; try done. apply Hi.
Qed.

Lemma find_cert_ids c id cert : find_cert c id = Some cert → cert ∈ certificates c ∧ cert_id cert = id.
Proof.
  unfold find_cert. intros [Hin Hb]%List.find_some. rewrite <- list_elem_of_In in Hin.
  split; [done|]. by apply bool_decide_eq_true in Hb.
Qed.

(** Enough generations are left for the starts the permits allow. *)
Definition gens_ok (m : CertificateManager) : Prop := generation m + issuance_permits m < 2 ^ 64.

Lemma start_permit m id (b : bool) :
  start_blocked m id = None → issuance_permits m ≠ 0.
Proof.
  unfold start_blocked. intros Hb Hp. rewrite Hp in Hb. destruct (active m !! id); [done|].
  destruct (config m) as [c|]; [|done]. destruct (find_cert c id) as [cert|]; [|done].
  destruct (cert_validation cert); [|done]. destruct (find_acme _ _); [|done].
  by destruct (request_dns _ _).
Qed.

Lemma start_issue_manager_inv m id b r m' :
  start_issue m id b = (r, m') → gens_ok m → manager_inv m → manager_inv m'.
Proof.
  intros (a & d & n & Hn & E)%start_issue_inv Hg Hi.
  destruct (start_blocked m id) as [e|] eqn:Hb; destruct E as [-> E]; [subst; by apply with_gates_inv|].
  destruct E as (c & cert & req & Hc & Hf & _ & ->).
  pose proof (start_permit m id b Hb) as Hp. unfold gens_ok in Hg.
  apply started_inv; try done; [..|cbn; lia|by apply with_gates_inv].
  - unfold start_blocked in Hb. cbn. by destruct (active m !! id).
  - unfold ids, certs. simpl. rewrite Hc. apply find_cert_ids in Hf as [Hin <-].
    by apply list_elem_of_fmap_2.
Qed.

Lemma start_continue_manager_inv m id r m' :
  start_continue m id = (r, m') → gens_ok m → manager_inv m → manager_inv m'.
Proof.
  intros [[-> _]|(-> & c & order & Hc & Ha & Hp & Hn & ->)]%start_continue_inv Hg Hi; [done|].
  unfold gens_ok in Hg. apply started_inv; try done; [|lia]. apply (pending_ids m (inv_work m Hi)). by exists order.
Qed.

Lemma update_status_inv f id m :
  (∀ st, rs_certificate_id (f st) = rs_certificate_id st) → manager_inv m → manager_inv (update_status f id m).
Proof.
  intros Hf Hi. apply (same_deployment_inv m); [split_and!; cbn; auto; lia| | |done].
  - apply update_status_ok; [done|apply Hi].
  - apply (work_ok_ext m); try done; apply Hi.
Qed.

Lemma publish_inv m : manager_inv m → manager_inv (publish m).
Proof.
  intros Hi. apply (same_deployment_inv m); [split_and!; cbn; auto; lia|by apply (statuses_ok_ext m), Hi| |done].
  apply (work_ok_ext m); try done; apply Hi.
Qed.

Lemma set_retry_inv x m :
  (∀ id, is_Some (x !! id) → id ∈ ids m) → manager_inv m → manager_inv (set_retry x m).
Proof.
  intros Hx Hi. apply (same_deployment_inv m); [split_and!; cbn; auto; lia|by apply (statuses_ok_ext m), Hi| |done].
  destruct (inv_work m Hi). by split.
Qed.

Lemma fail_cert_inv m id e now : manager_inv m → manager_inv (fail_cert m id e now).
Proof.
  intros Hi. unfold fail_cert. apply update_status_inv; [done|].
  destruct (can_retry m id) eqn:Hc; [|done]. apply set_retry_inv; [|done].
  intros k [x Hx]. apply lookup_insert_Some in Hx as [[<- _]|[_ Hx]].
  - unfold can_retry in Hc. unfold ids, certs. destruct (config m) as [c|]; [|done].
    destruct (find_cert c id) as [cert|] eqn:Hf; [|done]. apply find_cert_ids in Hf as [Hin <-].
    by apply list_elem_of_fmap_2.
  - apply (retry_ids m (inv_work m Hi)). by exists x.
Qed.

Lemma deploy_inv m id c now : manager_inv m → manager_inv (deploy m id c now).
Proof.
  intros Hi. unfold deploy. destruct (_ ≫= _) as [[h key]|e]; [|by apply fail_cert_inv].
  apply update_status_inv; [done|]. apply set_retry_inv.
  - intros k [x Hx]. apply lookup_delete_Some in Hx as [_ Hx]. apply (retry_ids m (inv_work m Hi)). by exists x.
  - apply (same_deployment_inv m); [|by apply (statuses_ok_ext m), Hi| |done].
    + split_and!; cbn; auto; try lia. intros k Hk. destruct (decide (k = h)) as [->|Hne].
      * rewrite lookup_insert_eq. by eexists.
      * by rewrite lookup_insert_ne.
    + apply (work_ok_ext m); try done; apply Hi.
Qed.

(** The certificate of a task leaves the active set. *)
Lemma deactivate_inv id m : manager_inv m → manager_inv (set_active (delete id (active m)) m).
Proof.
  intros Hi. apply (same_deployment_inv m); [split_and!; cbn; auto; lia|by apply (statuses_ok_ext m), Hi| |done].
  destruct (inv_work m Hi). split; cbn; try done.
  - intros k a Ha%lookup_delete_Some. naive_solver.
  - intros k a Ha%lookup_delete_Some. naive_solver.
  - intros k a Ha%lookup_delete_Some. naive_solver.
  - intros k a Ha%lookup_delete_Some. naive_solver.
  - intros k1 k2 a1 a2 [_ H1]%lookup_delete_Some [_ H2]%lookup_delete_Some. eauto.
Qed.

Lemma set_pending_inv id order m :
  active m !! id = None → id ∈ ids m → manager_inv m → manager_inv (set_pending (<[id := order]> (pending m)) m).
Proof.
  intros Ha Hid Hi. apply (same_deployment_inv m); [split_and!; cbn; auto; lia|by apply (statuses_ok_ext m), Hi| |done].
  destruct (inv_work m Hi). split; cbn; try done.
  - intros k a Hk. rewrite lookup_insert_ne by congruence. eauto.
  - intros k [x Hx]. apply lookup_insert_Some in Hx as [[<- _]|[_ Hx]]; [done|]. apply pending_ids0. by exists x.
Qed.

Lemma handle_task_inv m output now : manager_inv m → manager_inv (handle_task m output now).
Proof.
  intros Hi. unfold handle_task. destruct (active m !! out_certificate_id output) as [a|] eqn:Ha; [|done].
  destruct (at_generation a =? out_generation output); [|done]. cbn [negb]. apply publish_inv.
  assert (Hd := deactivate_inv (out_certificate_id output) m Hi).
  assert (Hid : out_certificate_id output ∈ ids m) by by eapply (active_ids m (inv_work m Hi)).
  assert (Hwait : ∀ order s e, manager_inv (update_status (status_with s e (mo_records order)) (out_certificate_id output)
     (set_pending (<[out_certificate_id output := order]> (pending (set_active (delete (out_certificate_id output) (active m)) m)))
        (set_active (delete (out_certificate_id output) (active m)) m)))).
  { intros order s e. apply update_status_inv; [done|]. apply set_pending_inv; [|done|done].
    cbn. by rewrite lookup_delete_eq. }
  destruct (out_result output) as [[[]|]|[]|]; auto using deploy_inv, fail_cert_inv.
Qed.

Lemma end_task_inv i m : manager_inv m → manager_inv (end_task i m).
Proof.
  intros Hi. unfold end_task. destruct (tasks m !! i) as [t|] eqn:Ht; [|done].
  destruct (t_running t) eqn:Hr; [|done]. set (t' := {| t_certificate_id := _ |}).
  apply (same_deployment_inv m); [split_and!; cbn; auto; lia|by apply (statuses_ok_ext m), Hi| |done].
  destruct (inv_work m Hi). split; cbn -[filter]; try done.
  - intros u. rewrite insert_take_drop by by eapply lookup_lt_Some.
    rewrite <- (take_drop_middle _ _ _ Ht) in task_generation0.
    intros [Hu|[->|Hu]%elem_of_cons]%elem_of_app; [..|apply (task_generation0 t)|]; try apply task_generation0;
      apply elem_of_app; [by left|right; left|right; by right].
  - pose proof (take_drop_middle _ _ _ Ht) as Hs. rewrite <- Hs in permits_count0.
    rewrite insert_take_drop by by eapply lookup_lt_Some.
    rewrite running_app in *. rewrite filter_cons_True in permits_count0 by done.
    rewrite filter_cons_False by done. unfold len in *. simpl in permits_count0. lia.
Qed.

Lemma delete_task_inv i t m :
  tasks m !! i = Some t → t_running t = false → manager_inv m → manager_inv (set_tasks (delete i (tasks m)) m).
Proof.
  intros Ht Hr Hi.
  apply (same_deployment_inv m); [split_and!; cbn; auto; lia|by apply (statuses_ok_ext m), Hi| |done].
  destruct (inv_work m Hi). split; cbn -[filter]; try done.
  - intros u Hu. apply task_generation0. rewrite delete_take_drop in Hu.
    rewrite <- (take_drop_middle _ _ _ Ht). apply elem_of_app in Hu as [Hu|Hu]; apply elem_of_app; [by left|].
    right. by right.
  - rewrite <- (take_drop_middle _ _ _ Ht) in permits_count0. rewrite delete_take_drop.
    rewrite running_app in *. rewrite filter_cons_False in permits_count0; [done|]. congruence.
Qed.

Lemma join_task_inv i r now m : manager_inv m → manager_inv (join_task i r now m).
Proof.
  intros Hi. unfold join_task. destruct (tasks m !! i) as [t|] eqn:Ht; [|done].
  destruct (t_running t) eqn:Hr; [done|]. pose proof (delete_task_inv i t m Ht Hr Hi).
  destruct r; [by apply handle_task_inv|done].
Qed.

(** *** The scheduler *)

Lemma expire_statuses_inv now m : manager_inv m → manager_inv (set_statuses (expire_one now <$> statuses m) m).
Proof.
  intros Hi. apply (same_deployment_inv m); [split_and!; cbn; auto; lia| | |done].
  - destruct (inv_statuses m Hi) as [H1 H2 H3]. split; cbn; [done|..].
    + intros id. rewrite lookup_fmap, fmap_is_Some. apply H2.
    + intros id st. rewrite lookup_fmap. intros (st0 & Hst & ->)%fmap_Some.
      unfold expire_one. destruct (expirable now st0); simpl; eauto.
  - apply (work_ok_ext m); try done; apply Hi.
Qed.

Lemma started_gens id work root f m :
  issuance_permits m ≠ 0 → gens_ok m → gens_ok (started id work root f m).
Proof.
  unfold gens_ok. intros Hp Hg. cbn -[N.modulo N.pow]. rewrite N.mod_small by lia. lia.
Qed.

Lemma fail_cert_frame m id e now :
  generation (fail_cert m id e now) = generation m ∧
  issuance_permits (fail_cert m id e now) = issuance_permits m ∧
  config (fail_cert m id e now) = config m ∧ active (fail_cert m id e now) = active m ∧
  resolver (fail_cert m id e now) = resolver m ∧ resolvers (fail_cert m id e now) = resolvers m ∧
  directs (fail_cert m id e now) = directs m ∧ tasks (fail_cert m id e now) = tasks m ∧
  pending (fail_cert m id e now) = pending m ∧ cancelled (fail_cert m id e now) = cancelled m ∧
  next_handle (fail_cert m id e now) = next_handle m.
Proof. unfold fail_cert. by destruct (can_retry m id). Qed.

Lemma renew_one_inv clock m id :
  gens_ok m → manager_inv m → gens_ok (renew_one clock m id) ∧ manager_inv (renew_one clock m id).
Proof.
  intros Hg Hi. unfold renew_one. destruct (start_issue m id true) as [[[]|e] m'] eqn:E.
  - split; [|by eapply start_issue_manager_inv].
    apply start_issue_inv in E as (a & d & n & Hn & E). destruct (start_blocked m id) eqn:Hb; [by destruct E|].
    destruct E as (_ & c & cert & req & _ & _ & _ & ->). apply started_gens; [|done].
    by apply (start_permit m id true).
  - pose proof (start_issue_manager_inv _ _ _ _ _ E Hg Hi) as Hi'. split; [|by apply fail_cert_inv].
    unfold gens_ok. destruct (fail_cert_frame m' id e (clock id)) as (-> & -> & _).
    apply start_issue_inv in E as (a & d & n & Hn & E). destruct (start_blocked m id); [|by destruct E].
    by destruct E as (_ & ->).
Qed.

Lemma renew_all_inv clock l m :
  gens_ok m → manager_inv m →
  gens_ok (foldl (renew_one clock) m l) ∧ manager_inv (foldl (renew_one clock) m l).
Proof.
  revert m. induction l as [|id l IH]; intros m Hg Hi; [done|].
  destruct (renew_one_inv clock m id Hg Hi). by apply IH.
Qed.

Lemma schedule_due_inv now clock m : gens_ok m → manager_inv m → manager_inv (schedule_due m now clock).
Proof.
  intros Hg Hi. unfold schedule_due. set (m1 := set_statuses _ m).
  destruct (renew_all_inv clock (due m1 now) m1) as [_ Hr]; [done|by apply expire_statuses_inv|].
  case_goal; [by apply publish_inv|done].
Qed.

(** *** Applying a configuration *)

Lemma drop_work_inv m id : manager_inv m → manager_inv (drop_work m id).
Proof.
  intros Hi. unfold drop_work. set (m1 := match active m !! id with Some _ => _ | None => _ end).
  assert (H1 : manager_inv m1 ∧ active m1 !! id = None ∧ pending m1 = pending m ∧ retry m1 = retry m).
  { subst m1. destruct (active m !! id) as [a|] eqn:Ha; [|done]. split_and!; [|cbn; by rewrite lookup_delete_eq|done..].
    apply (same_deployment_inv m); [split_and!; cbn; auto; lia|by apply (statuses_ok_ext m), Hi| |done].
    destruct (inv_work m Hi). split; cbn; try done.
    - intros k b Hk%lookup_delete_Some. naive_solver.
    - intros k b Hk%lookup_delete_Some. naive_solver.
    - intros k b [Hne Hk]%lookup_delete_Some. destruct (active_token0 _ _ Hk). split; [done|].
      rewrite not_elem_of_union, not_elem_of_singleton. split; [|done]. intros Heq.
      apply Hne. eapply active_distinct0; [exact Ha|exact Hk|done].
    - intros k b Hk%lookup_delete_Some. naive_solver.
    - intros k1 k2 a1 a2 [_ E1]%lookup_delete_Some [_ E2]%lookup_delete_Some. eauto.
    - intros t [->%elem_of_singleton|Ht]%elem_of_union; [|eauto]. by apply (active_token0 id). }
  destruct H1 as (H1 & Ha & Hp & Hr). clearbody m1.
  apply set_retry_inv.
  - intros k [x Hx]. cbn in Hx. apply lookup_delete_Some in Hx as [_ Hx].
    apply (retry_ids m1 (inv_work m1 H1)). by exists x.
  - apply (same_deployment_inv m1); [split_and!; cbn; auto; lia|by apply (statuses_ok_ext m1), H1| |done].
    destruct (inv_work m1 H1). split; cbn; try done.
    + intros k a Hk. apply lookup_delete_None. right. eauto.
    + intros k [x Hx]. apply lookup_delete_Some in Hx as [_ Hx]. apply pending_ids0. by exists x.
Qed.

(** What dropping the work of a list of certificates leaves. *)
Record dropped (l : list str) (m m' : CertificateManager) : Prop := {
  dropped_active : ∀ id, active m' !! id = if decide (id ∈ l) then None else active m !! id;
  dropped_pending : ∀ id, pending m' !! id = if decide (id ∈ l) then None else pending m !! id;
  dropped_retry : ∀ id, retry m' !! id = if decide (id ∈ l) then None else retry m !! id;
  dropped_rest : config m' = config m ∧ resolver m' = resolver m ∧ resolvers m' = resolvers m ∧
    directs m' = directs m ∧ statuses m' = statuses m ∧ tasks m' = tasks m ∧
    generation m' = generation m ∧ issuance_permits m' = issuance_permits m ∧
    next_handle m' = next_handle m ∧ snapshot m' = snapshot m }.

Lemma drop_work_dropped m id : dropped [id] m (drop_work m id).
Proof.
  unfold drop_work. destruct (active m !! id) as [a|] eqn:Ha; split; try done; intros k; cbn;
    destruct (decide (k ∈ [id])) as [Hk|Hk];
    (apply list_elem_of_singleton in Hk as -> || rewrite list_elem_of_singleton in Hk);
    rewrite ?lookup_delete_eq, ?lookup_delete_ne by done; done.
Qed.

Lemma dropped_app l k m m1 m2 : dropped l m m1 → dropped k m1 m2 → dropped (l ++ k) m m2.
Proof.
  intros [A1 A2 A3 A4] [B1 B2 B3 B4].
  assert (Happ : ∀ {X} (id : str) (x : option X),
    (if decide (id ∈ k) then None else if decide (id ∈ l) then None else x) =
    (if decide (id ∈ l ++ k) then None else x)).
  { intros X id x. destruct (decide (id ∈ l ++ k)) as [Hlk|Hlk]; rewrite elem_of_app in Hlk;
      destruct (decide (id ∈ k)), (decide (id ∈ l)); tauto. }
  split.
  - intros id. by rewrite B1, A1.
  - intros id. by rewrite B2, A2.
  - intros id. by rewrite B3, A3.
  - destruct A4 as (->&->&->&->&->&->&->&->&->&->) || idtac.
    destruct B4 as (->&->&->&->&->&->&->&->&->&->). done.
Qed.

Lemma drop_all l m :
  manager_inv m → manager_inv (foldl drop_work m l) ∧ dropped l m (foldl drop_work m l).
Proof.
  revert m. induction l as [|id l IH]; intros m Hi; simpl.
  - split; [done|]. split; [intros id; by rewrite decide_False by apply not_elem_of_nil..|done].
  - destruct (IH (drop_work m id) (drop_work_inv m id Hi)) as [H1 H2]. split; [done|].
    apply (dropped_app [id] l _ (drop_work m id)); [apply drop_work_dropped|done].
Qed.

(** The replacements of the certificates of a list, from a first handle. *)
Fixpoint loaded (env : apply_env) (n : N) (ks : list CertificateConfig)
  : list (CertificateConfig * N * CertificateRuntimeStatus) :=
  match ks with
  | [] => []
  | k :: ks => (k, n, (load_certificate_runtime env k).2) :: loaded env (n + 1) ks
  end.

Lemma load_all env ks m acc :
  ∃ D, foldl (load_one env) (m, acc) ks =
         (set_directs D (set_next_handle (next_handle m + len ks) m), acc ++ loaded env (next_handle m) ks) ∧
    (∀ h, h < next_handle m → D !! h = directs m !! h) ∧
    (∀ k h st, (k, h, st) ∈ loaded env (next_handle m) ks → D !! h = Some (load_certificate_runtime env k).1).
Proof.
  revert m acc. induction ks as [|k ks IH]; intros m acc.
  - exists (directs m). simpl. split_and!; [|done|by intros k h st ?%not_elem_of_nil].
    rewrite app_nil_r. unfold len. simpl. rewrite N.add_0_r. by destruct m.
  - cbn [foldl]. unfold load_one at 2. destruct (load_certificate_runtime env k) as [key status] eqn:Ek.
    cbn [alloc]. set (m1 := set_directs _ _).
    destruct (IH m1 (acc ++ [(k, next_handle m, status)])) as (D & HD & Hold & Hnew).
    exists D. split_and!.
    + etransitivity; [exact HD|]. subst m1. cbn [loaded next_handle set_directs set_next_handle].
      rewrite Ek. cbn [snd]. rewrite <- (assoc_L (++)). f_equal.
      replace (next_handle m + len (k :: ks)) with (next_handle m + 1 + len ks); [done|].
      unfold len. simpl. lia.
    + intros h Hh. rewrite Hold by (cbn; lia). cbn. rewrite lookup_insert_ne by lia. done.
    + intros k' h st [[= -> -> ->]|Hin]%elem_of_cons.
      * rewrite Hold by (cbn; lia). cbn. rewrite lookup_insert_eq, Ek. done.
      * by eapply Hnew.
Qed.

Lemma loaded_inv env n ks k h st :
  (k, h, st) ∈ loaded env n ks →
  k ∈ ks ∧ n <= h < n + len ks ∧ st = (load_certificate_runtime env k).2.
Proof.
  revert n. induction ks as [|k' ks IH]; intros n; simpl; [by intros ?%not_elem_of_nil|].
  assert (Hl : len (k' :: ks) = len ks + 1) by (unfold len; simpl; lia). rewrite Hl.
  intros [[= -> -> ->]|Hin]%elem_of_cons.
  - split_and!; [left|lia|lia|done].
  - apply IH in Hin as (? & ? & ?). split_and!; [by right|lia|lia|done].
Qed.

Lemma loaded_all env n ks k : k ∈ ks → ∃ h, (k, h, (load_certificate_runtime env k).2) ∈ loaded env n ks.
Proof.
  revert n. induction ks as [|k' ks IH]; intros n; [by intros ?%not_elem_of_nil|]. simpl.
  intros [->|Hin]%elem_of_cons; [exists n; left|]. destruct (IH (n + 1) Hin) as [h Hh]. exists h. by right.
Qed.

Lemma loaded_handle env n ks k1 k2 h s1 s2 :
  (k1, h, s1) ∈ loaded env n ks → (k2, h, s2) ∈ loaded env n ks → k1 = k2.
Proof.
  revert n. induction ks as [|k ks IH]; intros n; simpl; [by intros ?%not_elem_of_nil|].
  intros [[= -> -> ->]|H1]%elem_of_cons [E|H2]%elem_of_cons; simplify_eq; try done.
  - apply loaded_inv in H2. lia.
  - apply loaded_inv in H1. lia.
  - eauto.
Qed.

(** The fields that installing and removing certificates do not touch. *)
Definition same_rest (m m' : CertificateManager) : Prop :=
  config m' = config m ∧ directs m' = directs m ∧ active m' = active m ∧ pending m' = pending m ∧
  retry m' = retry m ∧ tasks m' = tasks m ∧ generation m' = generation m ∧
  issuance_permits m' = issuance_permits m ∧ cancelled m' = cancelled m ∧ next_handle m' = next_handle m.

Definition not_owned (l : list str) (e : ResolverEntry N) : option (ResolverEntry N) :=
  if decide (entry_owner e ∈ l) then None else Some e.

Record removed_all (l : list str) (m m' : CertificateManager) : Prop := {
  ra_resolvers : ∀ id, resolvers m' !! id = if decide (id ∈ l) then None else resolvers m !! id;
  ra_statuses : ∀ id, statuses m' !! id = if decide (id ∈ l) then None else statuses m !! id;
  ra_entries : ∀ d, entry_at (resolver m') d = entry_at (resolver m) d ≫= not_owned l;
  ra_exact : exact_ok (resolver m) → exact_ok (resolver m');
  ra_rest : same_rest m m' }.

Lemma decide_cons {X} (id x : str) (l : list str) (a b : X) :
  (if decide (id ∈ l) then a else if decide (id = x) then a else b) =
  (if decide (id ∈ x :: l) then a else b).
Proof.
  destruct (decide (id ∈ x :: l)) as [H|H]; rewrite elem_of_cons in H;
    destruct (decide (id ∈ l)), (decide (id = x)); tauto.
Qed.

Lemma remove_all l m : removed_all l m (foldl remove_cert m l).
Proof.
  revert m. induction l as [|x l IH]; intros m; simpl.
  - split; try (intros id; by rewrite decide_False by apply not_elem_of_nil); try done.
    intros d. destruct (entry_at (resolver m) d) as [e|]; [|done]. cbn [mbind option_bind].
    unfold not_owned. by rewrite decide_False by apply not_elem_of_nil.
  - destruct (IH (remove_cert m x)) as [R1 R2 R3 R4 R5]. split.
    + intros id. rewrite R1. cbn. rewrite <- decide_cons. destruct (decide (id ∈ l)); [done|].
      destruct (decide (id = x)) as [->|]; [by rewrite lookup_delete_eq|by rewrite lookup_delete_ne].
    + intros id. rewrite R2. cbn. rewrite <- decide_cons. destruct (decide (id ∈ l)); [done|].
      destruct (decide (id = x)) as [->|]; [by rewrite lookup_delete_eq|by rewrite lookup_delete_ne].
    + intros d. rewrite R3. cbn [resolver remove_cert set_resolver set_resolvers set_statuses].
      rewrite entry_at_remove. destruct (entry_at (resolver m) d) as [e|]; [|done]. cbn [mbind option_bind].
      unfold not_owned, keep_other. rewrite <- decide_cons.
      destruct (decide (entry_owner e = x)) as [Hx|Hx]; cbn [mbind option_bind].
      * by destruct (decide (entry_owner e ∈ l)).
      * done.
    + intros He. apply R4. by apply exact_ok_remove.
    + exact R5.
Qed.

Notation replacement := (CertificateConfig * N * CertificateRuntimeStatus)%type.
Definition rep_id (r : replacement) : str := cert_id r.1.1.

Record installed_all (rs : list replacement) (m m' : CertificateManager) : Prop := {
  ia_new : ∀ k h st, (k, h, st) ∈ rs → resolvers m' !! cert_id k = Some h ∧ statuses m' !! cert_id k = Some st;
  ia_old : ∀ id, id ∉ rep_id <$> rs → resolvers m' !! id = resolvers m !! id ∧ statuses m' !! id = statuses m !! id;
  ia_entries : ∀ d e, entry_at (resolver m') d = Some e ↔
    (∃ k h st, (k, h, st) ∈ rs ∧ d ∈ cert_domains k ∧ e = {| entry_owner := cert_id k; entry_resolver := h |}) ∨
    ((∀ k h st, (k, h, st) ∈ rs → d ∉ cert_domains k) ∧ entry_at (resolver m) d = Some e ∧
     entry_owner e ∉ rep_id <$> rs);
  ia_exact : exact_ok (resolver m) → exact_ok (resolver m');
  ia_rest : same_rest m m' }.

(** The table after one more installation. *)
Lemma install_entries rs m m1 k h st d e :
  installed_all rs m m1 → cert_id k ∉ rep_id <$> rs →
  (∀ k' h' st', (k', h', st') ∈ rs → d ∈ cert_domains k' → d ∉ cert_domains k) →
  entry_at (resolver (install_cert m1 (k, h, st))) d = Some e ↔
    (∃ k' h' st', (k', h', st') ∈ rs ++ [(k, h, st)] ∧ d ∈ cert_domains k' ∧ e = {| entry_owner := cert_id k'; entry_resolver := h' |}) ∨
    ((∀ k' h' st', (k', h', st') ∈ rs ++ [(k, h, st)] → d ∉ cert_domains k') ∧ entry_at (resolver m) d = Some e ∧
     entry_owner e ∉ rep_id <$> (rs ++ [(k, h, st)])).
Proof.
  intros [_ _ I3 _ _] Hnew Hother. cbn [resolver install_cert set_resolver set_resolvers set_statuses].
  rewrite entry_at_replace. setoid_rewrite elem_of_app. setoid_rewrite list_elem_of_singleton.
  assert (Hrep : ∀ k' h' st', (k', h', st') ∈ rs → cert_id k' ≠ cert_id k).
  { intros k' h' st' Hin E. apply Hnew. rewrite <- E. apply list_elem_of_fmap. by exists (k', h', st'). }
  destruct (decide (d ∈ cert_domains k)) as [Hd|Hd].
  - split.
    + intros [= <-]. left. exists k, h, st. by split; [right|].
    + intros [(k' & h' & st' & [Hin|[= -> -> ->]] & Hd' & ->)|(Hno & _)]; [|done|].
      { exfalso. by apply (Hother _ _ _ Hin Hd'). }
      exfalso. apply (Hno k h st); [by right|done].
  - assert (Hk : (entry_at (resolver m1) d ≫= keep_other (cert_id k)) = Some e ↔
      entry_at (resolver m1) d = Some e ∧ entry_owner e ≠ cert_id k).
    { rewrite bind_Some. unfold keep_other. split.
      - intros (e1 & -> & He). case_decide; [done|]. by injection He as ->.
      - intros [-> Ho]. exists e. by rewrite decide_False. }
    rewrite Hk, I3, fmap_app, not_elem_of_app. cbn [fmap list_fmap rep_id fst]. rewrite list_elem_of_singleton. split.
    + intros [[(k' & h' & st' & Hin & Hd' & ->)|(Hno & He & Hn)] Ho]; [left; exists k', h', st'; by split; [left|]|right].
      split_and!; [|done|done|done]. intros k' h' st' [Hin|[= -> -> ->]]; [by eapply Hno|done].
    + intros [(k' & h' & st' & [Hin|[= -> -> ->]] & Hd' & ->)|(Hno & He & Hn & Ho)]; [|done|].
      * split; [left; by exists k', h', st'|by eapply Hrep].
      * split; [right|done]. split_and!; [|done|done]. intros k' h' st' Hin. apply (Hno k' h' st'). by left.
Qed.

Lemma install_all_spec rs m :
  NoDup (rep_id <$> rs) → NoDup (concat ((λ r : replacement, cert_domains r.1.1) <$> rs)) →
  installed_all rs m (foldl install_cert m rs).
Proof.
  induction rs as [|[[k h] st] rs IH] using rev_ind; intros Hid Hdom.
  { split; try done; [by intros k h st ?%not_elem_of_nil|]. intros d e. split.
    - intros He. right. split_and!; [by intros k h st ?%not_elem_of_nil|done|apply not_elem_of_nil].
    - intros [(k & h & st & ?%not_elem_of_nil & _)|(_ & He & _)]; done. }
  rewrite foldl_snoc. rewrite fmap_app in Hid. rewrite fmap_app, concat_app in Hdom.
  cbn [fmap list_fmap concat fst] in Hdom. rewrite app_nil_r in Hdom.
  apply NoDup_app in Hid as (Hid1 & Hid2 & _). apply NoDup_app in Hdom as (Hd1 & Hd2 & _).
  assert (HI := IH Hid1 Hd1). destruct HI as [I1 I2 _ I4 I5].
  assert (Hnew : cert_id k ∉ rep_id <$> rs).
  { intros Hin. apply (Hid2 _ Hin). cbn. left. }
  split.
  - intros k' h' st' [Hin|Hin]%elem_of_app.
    + assert (cert_id k' ∈ rep_id <$> rs) by (apply list_elem_of_fmap; by exists (k', h', st')).
      cbn. rewrite !lookup_insert_ne by congruence. by apply I1.
    + apply list_elem_of_singleton in Hin as [= -> -> ->]. cbn. by rewrite !lookup_insert_eq.
  - intros id Hn. rewrite fmap_app, not_elem_of_app in Hn. destruct Hn as [Hn1 Hn2]. cbn in Hn2.
    rewrite list_elem_of_singleton in Hn2. cbn. rewrite !lookup_insert_ne by (intros Heq; by apply Hn2).
    by apply I2.
  - intros d e. apply install_entries; [by apply IH|done|]. intros k' h' st' Hin Hd. apply Hd2.
    rewrite list_elem_of_In, in_concat. exists (cert_domains k').
    rewrite <- !list_elem_of_In. split; [|done]. apply list_elem_of_fmap. by exists (k', h', st').
  - intros He. apply exact_ok_replace. by apply I4.
  - exact I5.
Qed.

(** All the turns: the removals, then the installations. *)
Lemma run_turns m removed rs :
  foldl run_turn m (lock_turns removed rs) = foldl install_cert (foldl remove_cert m removed) rs.
Proof.
  unfold lock_turns. by rewrite foldl_app, !foldl_fmap.
Qed.

(** The certificates of the next configuration that are loaded again. *)
Definition reloads (m : CertificateManager) (c : ProxyConfig) (k : CertificateConfig) : Prop :=
  k ∈ certificates c ∧ requires_reload (config m) c k = true.
Definition next_ok (c : ProxyConfig) : Prop :=
  NoDup (cert_id <$> certificates c) ∧ NoDup (concat (cert_domains <$> certificates c)).

Lemma cert_id_inj (l : list CertificateConfig) k k' :
  NoDup (cert_id <$> l) → k ∈ l → k' ∈ l → cert_id k = cert_id k' → k = k'.
Proof.
  intros Hnd [i Hi]%list_elem_of_lookup [j Hj]%list_elem_of_lookup He.
  assert (i = j) as ->; [|congruence].
  eapply (NoDup_lookup _ i j (cert_id k) Hnd); rewrite list_lookup_fmap; [by rewrite Hi|].
  by rewrite Hj, He.
Qed.

Lemma reload_ids m c id :
  id ∈ certificates_requiring_reload (config m) c ↔ ∃ k, reloads m c k ∧ cert_id k = id.
Proof.
  unfold certificates_requiring_reload, reloads. rewrite elem_of_list_to_set, list_elem_of_fmap.
  setoid_rewrite list_elem_of_filter. naive_solver.
Qed.

Lemma reload_filter m c k :
  next_ok c → k ∈ filter (λ k, cert_id k ∈ certificates_requiring_reload (config m) c) (certificates c) ↔
  reloads m c k.
Proof.
  intros [Hid _]. rewrite list_elem_of_filter, reload_ids. split.
  - intros [(k' & Hr & He) Hk]. assert (k' = k) as <-; [|done].
    apply (cert_id_inj (certificates c)); [done|apply Hr|done..].
  - intros Hr. split; [by exists k|apply Hr].
Qed.

(** A certificate that is not loaded again is configured already, with the
    same domains. *)
Lemma not_reloaded m c k :
  k ∈ certificates c → requires_reload (config m) c k = false →
  ∃ k0, k0 ∈ certs m ∧ cert_id k0 = cert_id k ∧ cert_domains k0 = cert_domains k.
Proof.
  unfold requires_reload, certs. intros Hk Hr. destruct (config m) as [cur|]; [|done].
  destruct (find_cert cur (cert_id k)) as [k0|] eqn:Hf; [|done].
  apply find_cert_ids in Hf as [Hin He]. exists k0. split_and!; try done.
  unfold certificate_runtime_changed in Hr. bsimpl. naive_solver.
Qed.

Lemma removed_elem m c id :
  id ∈ removed_ids m c ↔ is_Some (resolvers m !! id) ∧ id ∉ cert_id <$> certificates c.
Proof.
  unfold removed_ids. rewrite list_elem_of_filter, (list_elem_of_fmap fst (map_to_list (resolvers m))). split.
  - intros (Hn & [k h] & -> & Hin%elem_of_map_to_list). split; [by exists h|done].
  - intros ([h Hh] & Hn). split; [done|]. exists (id, h). split; [done|]. by apply elem_of_map_to_list.
Qed.

Lemma reset_retry_frame cur l m :
  let m' := foldl (reset_retry cur) m l in
  config m' = config m ∧ resolver m' = resolver m ∧ resolvers m' = resolvers m ∧ directs m' = directs m ∧
  statuses m' = statuses m ∧ active m' = active m ∧ pending m' = pending m ∧ tasks m' = tasks m ∧
  generation m' = generation m ∧ issuance_permits m' = issuance_permits m ∧ cancelled m' = cancelled m ∧
  next_handle m' = next_handle m ∧ ∀ id r, retry m' !! id = Some r → retry m !! id = Some r.
Proof.
  revert m. induction l as [|k l IH]; intros m; [done|]. simpl.
  assert (Hk : reset_retry cur m k = m ∨ reset_retry cur m k = set_retry (delete (cert_id k) (retry m)) m).
  { unfold reset_retry. destruct cur as [cur|]; [|by left]. destruct (find_cert cur (cert_id k)); [|by left].
    case_bool_decide; [by left|by right]. }
  destruct Hk as [-> | ->]; [apply IH|]. specialize (IH (set_retry (delete (cert_id k) (retry m)) m)).
  destruct IH as (->&->&->&->&->&->&->&->&->&->&->&->&Hr). split_and!; try done.
  intros id r Hin%Hr. cbn in Hin. by apply lookup_delete_Some in Hin as [_ Hin].
Qed.

(** The certificates whose work is dropped: loaded again or removed. *)
Definition dropped_ids (m : CertificateManager) (c : ProxyConfig) : list str :=
  elements (certificates_requiring_reload (config m) c) ++ removed_ids m c.

Lemma dropped_elem m c id :
  id ∈ dropped_ids m c ↔ id ∈ certificates_requiring_reload (config m) c ∨ id ∈ removed_ids m c.
Proof. unfold dropped_ids. by rewrite elem_of_app, elem_of_elements. Qed.

(** What [swap_config] establishes. *)
Record swapped (env : apply_env) (m : CertificateManager) (c : ProxyConfig) (F : CertificateManager) : Prop := {
  sw_config : config F = Some c;
  sw_new : ∀ k, reloads m c k → ∃ h, resolvers F !! cert_id k = Some h ∧ next_handle m <= h < next_handle F ∧
    directs F !! h = Some (load_certificate_runtime env k).1 ∧
    statuses F !! cert_id k = Some (load_certificate_runtime env k).2;
  sw_loaded : ∀ k h st, (k, h, st) ∈ (load_replacements env m c).2 →
    reloads m c k ∧ resolvers F !! cert_id k = Some h;
  sw_old : ∀ id, id ∉ certificates_requiring_reload (config m) c →
    resolvers F !! id = (if decide (id ∈ removed_ids m c) then None else resolvers m !! id) ∧
    statuses F !! id = (if decide (id ∈ removed_ids m c) then None else statuses m !! id);
  sw_directs : ∀ h, h < next_handle m → directs F !! h = directs m !! h;
  sw_distinct : ∀ k1 k2 h, reloads m c k1 → reloads m c k2 →
    resolvers F !! cert_id k1 = Some h → resolvers F !! cert_id k2 = Some h → k1 = k2;
  sw_entries : ∀ d e, entry_at (resolver F) d = Some e ↔
    (∃ k, reloads m c k ∧ d ∈ cert_domains k ∧ entry_owner e = cert_id k ∧
          resolvers F !! cert_id k = Some (entry_resolver e)) ∨
    ((∀ k, reloads m c k → d ∉ cert_domains k) ∧ entry_at (resolver m) d = Some e ∧
     entry_owner e ∉ dropped_ids m c);
  sw_exact : exact_ok (resolver m) → exact_ok (resolver F);
  sw_active : ∀ id, active F !! id = if decide (id ∈ dropped_ids m c) then None else active m !! id;
  sw_pending : ∀ id, pending F !! id = if decide (id ∈ dropped_ids m c) then None else pending m !! id;
  sw_retry : ∀ id r, retry F !! id = Some r → id ∉ dropped_ids m c ∧ retry m !! id = Some r;
  sw_rest : tasks F = tasks m ∧ generation F = generation m ∧ issuance_permits F = issuance_permits m ∧
    cancelled F = cancelled (foldl drop_work m (dropped_ids m c)) ∧ next_handle m <= next_handle F }.

Lemma loaded_fmap {X} (f : CertificateConfig → X) env n ks : (λ r : replacement, f r.1.1) <$> loaded env n ks = f <$> ks.
Proof. revert n. induction ks as [|k ks IH]; intros n; [done|]. cbn [loaded]. by rewrite !fmap_cons, IH. Qed.

Lemma NoDup_concat_filter {X Y} (P : X → Prop) `{∀ x, Decision (P x)} (g : X → list Y) (l : list X) :
  NoDup (concat (g <$> l)) → NoDup (concat (g <$> filter P l)).
Proof.
  intros Hnd. induction l as [|x l IH]; [done|]. cbn [fmap list_fmap concat] in Hnd.
  apply NoDup_app in Hnd as (H1 & H2 & H3). specialize (IH H3).
  destruct (decide (P x)); [rewrite filter_cons_True by done|by rewrite filter_cons_False].
  cbn [fmap list_fmap concat]. apply NoDup_app. split_and!; try done.
  intros y Hy Hin. apply (H2 y Hy). rewrite list_elem_of_In, in_concat in Hin.
  destruct Hin as (ys & Hys%list_elem_of_In & Hin%list_elem_of_In).
  apply list_elem_of_fmap in Hys as (x' & -> & Hx'). apply list_elem_of_filter in Hx' as [_ Hx'].
  rewrite list_elem_of_In, in_concat. exists (g x'). rewrite <- !list_elem_of_In. split; [|done].
  by apply list_elem_of_fmap_2.
Qed.

(** The table after the removals and the installations [rs], in terms of the
    certificates that are loaded again. *)
Lemma swapped_entries (env : apply_env) (m : CertificateManager) (c : ProxyConfig) (rs : list replacement) (R : gmap str N) (d : str) (e : ResolverEntry N) :
  (∀ k, reloads m c k → ∃ h, (k, h, (load_certificate_runtime env k).2) ∈ rs) →
  (∀ k h st, (k, h, st) ∈ rs → reloads m c k ∧ R !! cert_id k = Some h) →
  (∀ id, id ∈ rep_id <$> rs ↔ id ∈ certificates_requiring_reload (config m) c) →
  (∃ k h st, (k, h, st) ∈ rs ∧ d ∈ cert_domains k ∧ e = {| entry_owner := cert_id k; entry_resolver := h |}) ∨
    ((∀ k h st, (k, h, st) ∈ rs → d ∉ cert_domains k) ∧
     entry_at (resolver m) d ≫= not_owned (removed_ids m c) = Some e ∧ entry_owner e ∉ rep_id <$> rs) ↔
  (∃ k, reloads m c k ∧ d ∈ cert_domains k ∧ entry_owner e = cert_id k ∧ R !! cert_id k = Some (entry_resolver e)) ∨
    ((∀ k, reloads m c k → d ∉ cert_domains k) ∧ entry_at (resolver m) d = Some e ∧ entry_owner e ∉ dropped_ids m c).
Proof.
  intros Hrs Hmem Hrid. split.
  - intros [(k & h & st & Hk & Hd & ->)|(Hno & He & Hown)].
    + left. exists k. by destruct (Hmem _ _ _ Hk).
    + right. destruct (entry_at (resolver m) d) as [e1|]; [|done]. cbn [mbind option_bind] in He.
      unfold not_owned in He. case_decide as Hrem; [done|]. injection He as ->. split_and!; [|done|].
      * intros k Hk. destruct (Hrs k Hk) as [h Hh]. by eapply Hno.
      * rewrite dropped_elem. rewrite Hrid in Hown. tauto.
  - intros [(k & Hk & Hd & Ho & Hres)|(Hno & He & Hown)].
    + left. destruct (Hrs k Hk) as [h Hh]. destruct (Hmem _ _ _ Hh) as (_ & F1).
      exists k, h, (load_certificate_runtime env k).2. split_and!; try done.
      destruct e as [o r]. cbn in *. rewrite F1 in Hres. injection Hres as ->. by rewrite Ho.
    + right. rewrite dropped_elem in Hown. split_and!.
      * intros k h st Hk. apply Hno. by apply Hmem in Hk as [? _].
      * rewrite He. cbn [mbind option_bind]. unfold not_owned. rewrite decide_False; [done|tauto].
      * rewrite Hrid. tauto.
Qed.

Lemma swap_config_spec env m c : manager_inv m → next_ok c → swapped env m c (swap_config env m c).
Proof.
  intros Hi Hok. unfold swap_config, load_replacements.
  change (elements (certificates_requiring_reload (config m) c) ++ removed_ids m c) with (dropped_ids m c).
  set (reload := certificates_requiring_reload (config m) c).
  destruct (drop_all (dropped_ids m c) m Hi) as [_ [D1 D2 D3 D4]].
  set (m1 := foldl drop_work m (dropped_ids m c)) in *.
  destruct D4 as (Dc & Dr & Drs & Dd & Dst & Dt & Dg & Dp & Dn & _).
  set (ks := filter (λ k, cert_id k ∈ reload) (certificates c)).
  destruct (load_all env ks m1 []) as (D & HD & Hold & Hnew). rewrite HD. cbn [app]. rewrite run_turns.
  set (m2 := set_directs D _). set (rs := loaded env (next_handle m1) ks) in *.
  destruct (remove_all (removed_ids m c) m2) as [R1 R2 R3 R4 R5].
  set (m3 := foldl remove_cert m2 (removed_ids m c)) in *.
  assert (Hks : rep_id <$> rs = cert_id <$> ks) by apply (loaded_fmap cert_id).
  assert (Hkd := loaded_fmap cert_domains env (next_handle m1) ks). fold rs in Hkd.
  assert (Hin : ∀ k, k ∈ ks ↔ reloads m c k) by (intros k; by apply reload_filter).
  destruct (install_all_spec rs m3) as [I1 I2 I3 I4 I5].
  { rewrite Hks. apply NoDup_fmap_filter, Hok. }
  { rewrite Hkd. apply NoDup_concat_filter, Hok. }
  set (m4 := foldl install_cert m3 rs) in *.
  destruct (reset_retry_frame (config m) (certificates c) m4)
    as (_ & T1 & T2 & T3 & T4 & T5 & T6 & T7 & T8 & T9 & T10 & T11 & T12).
  set (m5 := foldl (reset_retry (config m)) m4 (certificates c)) in *.
  destruct R5 as (Q1 & Q2 & Q3 & Q4 & Q5 & Q6 & Q7 & Q8 & Q9 & Q10).
  destruct I5 as (S1 & S2 & S3 & S4 & S5 & S6 & S7 & S8 & S9 & S10).
  assert (Hrs : ∀ k, reloads m c k → ∃ h, (k, h, (load_certificate_runtime env k).2) ∈ rs).
  { intros k Hk%Hin. by apply loaded_all. }
  assert (Hrid : ∀ id, id ∈ rep_id <$> rs ↔ id ∈ reload).
  { intros id. rewrite Hks. unfold reload. rewrite reload_ids, list_elem_of_fmap. setoid_rewrite Hin. naive_solver. }
  assert (Hnh : next_handle (set_config (Some c) m5) = next_handle m + len ks).
  { cbn. rewrite T11, S10, Q10. cbn. by rewrite Dn. }
  assert (Hmem : ∀ k h st, (k, h, st) ∈ rs → reloads m c k ∧ resolvers m5 !! cert_id k = Some h ∧
      next_handle m <= h < next_handle m + len ks ∧ directs m5 !! h = Some (load_certificate_runtime env k).1 ∧
      statuses m5 !! cert_id k = Some (load_certificate_runtime env k).2).
  { intros k h st Hk. destruct (I1 _ _ _ Hk) as [E1 E2]. pose proof (Hnew _ _ _ Hk) as E3.
    apply loaded_inv in Hk as (Hkk & Hh & ->). rewrite Dn in Hh. rewrite T2, T4, T3, S2, Q2. cbn.
    split_and!; try done; [by apply Hin|lia..]. }
  split.
  - done.
  - intros k Hk. destruct (Hrs k Hk) as [h Hh]. exists h. rewrite Hnh. exact (proj2 (Hmem _ _ _ Hh)).
  - unfold load_replacements. fold reload ks.
    change (foldl drop_work m (elements reload ++ removed_ids m c)) with m1. rewrite HD. cbn [snd app]. intros k h st Hk.
    by destruct (Hmem _ _ _ Hk) as (? & ? & _).
  - intros id Hid. cbn. rewrite T2, T4.
    destruct (I2 id) as [-> ->]; [by rewrite Hrid|]. rewrite R1, R2. cbn. by rewrite Drs, Dst.
  - intros h Hh. cbn. rewrite T3, S2, Q2. cbn. rewrite Hold by (rewrite Dn; lia). by rewrite Dd.
  - intros k1 k2 h Hk1 Hk2 E1 E2. cbn in E1, E2.
    destruct (Hrs k1 Hk1) as [h1 Hh1]. destruct (Hrs k2 Hk2) as [h2 Hh2].
    destruct (Hmem _ _ _ Hh1) as (_ & F1 & _). destruct (Hmem _ _ _ Hh2) as (_ & F2 & _).
    simplify_eq. by eapply loaded_handle.
  - intros d e. cbn. rewrite T1, I3, R3. cbn. rewrite Dr. apply (swapped_entries env); [done| |done].
    intros k h st Hk. by destruct (Hmem _ _ _ Hk) as (? & ? & _).
  - intros He. cbn. rewrite T1. apply I4, R4. cbn. by rewrite Dr.
  - intros id. cbn. rewrite T5, S3, Q3. cbn. apply D1.
  - intros id. cbn. rewrite T6, S4, Q4. cbn. apply D2.
  - intros id r Hr. cbn in Hr. apply T12 in Hr. rewrite S5, Q5 in Hr. cbn in Hr. rewrite D3 in Hr.
    by case_decide.
  - cbn. rewrite T7, T8, T9, T10, T11, S6, S7, S8, S9, S10, Q6, Q7, Q8, Q9, Q10. cbn.
    rewrite Dt, Dg, Dp, Dn. split_and!; try done. lia.
Qed.

Lemma concat_owner {X Y} (g : X → list Y) (l : list X) x y d :
  NoDup (concat (g <$> l)) → x ∈ l → y ∈ l → d ∈ g x → d ∈ g y → x = y.
Proof.
  intros Hnd. induction l as [|z l IH]; [by intros ?%not_elem_of_nil|].
  cbn [fmap list_fmap concat] in Hnd. apply NoDup_app in Hnd as (_ & H2 & H3).
  assert (Hl : ∀ u, u ∈ l → d ∈ g u → d ∈ concat (g <$> l)).
  { intros u Hu Hd. rewrite list_elem_of_In, in_concat. exists (g u). rewrite <- !list_elem_of_In.
    split; [|done]. by apply list_elem_of_fmap_2. }
  intros [->|Hx]%elem_of_cons [->|Hy]%elem_of_cons Hdx Hdy; auto; exfalso; eapply H2; eauto.
Qed.

Lemma load_status_id env k : rs_certificate_id (load_certificate_runtime env k).2 = cert_id k.
Proof.
  unfold load_certificate_runtime. destruct (cached env k) as [[cc|]|]; [|done..]. by destruct (set_pem _ _).
Qed.

Section swapping.
Context (env : apply_env) (m : CertificateManager) (c : ProxyConfig) (F : CertificateManager).
Context (Hi : manager_inv m) (Hok : next_ok c) (Hsw : swapped env m c F).

Lemma swapped_ids : ids F = cert_id <$> certificates c.
Proof. unfold ids, certs. by rewrite (sw_config _ _ _ _ Hsw). Qed.

(** A certificate of the next configuration is loaded or kept. *)
Lemma swapped_case k : k ∈ certificates c → reloads m c k ∨
  (cert_id k ∉ certificates_requiring_reload (config m) c ∧ cert_id k ∉ dropped_ids m c ∧
   ∃ k0, k0 ∈ certs m ∧ cert_id k0 = cert_id k ∧ cert_domains k0 = cert_domains k ∧
         resolvers F !! cert_id k = resolvers m !! cert_id k ∧ statuses F !! cert_id k = statuses m !! cert_id k).
Proof.
  intros Hk. destruct (requires_reload (config m) c k) eqn:Hr; [left; by split|right].
  assert (Hnr : cert_id k ∉ certificates_requiring_reload (config m) c).
  { rewrite reload_ids. intros (k' & [Hk' Hr'] & He).
    assert (k' = k) as -> by (by apply (cert_id_inj (certificates c)); [apply Hok|..]). congruence. }
  assert (Hrem : cert_id k ∉ removed_ids m c).
  { rewrite removed_elem. intros [_ Hn]. by apply Hn, list_elem_of_fmap_2. }
  split_and!; [done|rewrite dropped_elem; tauto|].
  destruct (not_reloaded m c k Hk Hr) as (k0 & Hk0 & He & Hd). exists k0.
  destruct (sw_old _ _ _ _ Hsw (cert_id k) Hnr) as [-> ->]. by rewrite !decide_False by done.
Qed.

Lemma swapped_keep id : id ∈ ids m → id ∉ dropped_ids m c → id ∈ ids F.
Proof.
  intros Hin Hd. rewrite swapped_ids. rewrite dropped_elem, removed_elem in Hd.
  destruct (decide (id ∈ cert_id <$> certificates c)); [done|]. exfalso. apply Hd. right. split; [|done].
  by apply (inv_statuses m Hi).
Qed.

(** The resolver of an identifier is new or kept. *)
Lemma swapped_resolver id h : resolvers F !! id = Some h →
  (∃ k, reloads m c k ∧ cert_id k = id ∧ next_handle m <= h < next_handle F ∧ is_Some (directs F !! h)) ∨
  (resolvers m !! id = Some h ∧ id ∉ dropped_ids m c).
Proof.
  intros Hh. destruct (decide (id ∈ certificates_requiring_reload (config m) c)) as [Hr|Hr].
  - left. apply reload_ids in Hr as (k & Hk & <-). exists k. destruct (sw_new _ _ _ _ Hsw k Hk) as (h' & E1 & E2 & E3 & _).
    rewrite E1 in Hh. injection Hh as ->. split_and!; try done; try lia; by eexists.
  - right. destruct (sw_old _ _ _ _ Hsw id Hr) as [E _]. rewrite E in Hh. case_decide as Hrem; [done|].
    split; [done|]. rewrite dropped_elem. tauto.
Qed.

Lemma swapped_table : table_ok F.
Proof.
  destruct (inv_table m Hi) as [Tex Ttab]. destruct (inv_config m Hi) as [Cid _].
  split; [by apply (sw_exact _ _ _ _ Hsw)|]. intros d e. rewrite (sw_entries _ _ _ _ Hsw).
  unfold certs. rewrite (sw_config _ _ _ _ Hsw). split.
  - intros [(k & Hk & Hd & Ho & Hr)|(Hno & He & Hown)]; [exists k; by destruct Hk|].
    apply Ttab in He as (k0 & Hk0 & Hd0 & Ho0 & Hr0). rewrite Ho0 in Hown.
    assert (Hid0 : cert_id k0 ∈ ids F) by (apply swapped_keep; [by apply list_elem_of_fmap_2|done]).
    rewrite swapped_ids in Hid0. apply list_elem_of_fmap in Hid0 as (k & He & Hk). exists k.
    destruct (swapped_case k Hk) as [Hrel|(_ & _ & k1 & Hk1 & He1 & Hd1 & Hr1 & _)].
    { exfalso. apply Hown. rewrite dropped_elem, reload_ids. left. by exists k. }
    assert (k1 = k0) as -> by (apply (cert_id_inj (certs m)); [exact Cid|done|done|congruence]).
    rewrite <- Hd1, Hr1, <- He. done.
  - intros (k & Hk & Hd & Ho & Hr). destruct (swapped_case k Hk) as [Hrel|(Hn & Hnd & k1 & Hk1 & He1 & Hd1 & Hr1 & _)].
    { left. by exists k. }
    right. split_and!; [|apply Ttab; exists k1; rewrite He1, Hd1, <- Hr1; done|by rewrite Ho].
    intros k' Hk' Hd'. assert (k' = k) as ->.
    { apply (concat_owner cert_domains (certificates c) _ _ d); [apply Hok|apply Hk'|done..]. }
    apply Hn, reload_ids. by exists k.
Qed.

Lemma swapped_handles : handles_ok F.
Proof.
  destruct (inv_handles m Hi) as [H1 H2]. split.
  - intros id h Hh. destruct (swapped_resolver id h Hh) as [(k & _ & _ & E1 & E2)|[E _]]; [split; [lia|done]|].
    destruct (H1 id h E) as [E1 E2]. destruct (sw_rest _ _ _ _ Hsw) as (_ & _ & _ & _ & W5).
    split; [lia|]. by rewrite (sw_directs _ _ _ _ Hsw).
  - intros id1 id2 h Hh1 Hh2.
    destruct (swapped_resolver id1 h Hh1) as [(k1 & K1 & <- & E1 & _)|[E1 _]],
             (swapped_resolver id2 h Hh2) as [(k2 & K2 & <- & E2 & _)|[E2 _]].
    + f_equal. by apply (sw_distinct _ _ _ _ Hsw _ _ h).
    + destruct (H1 _ _ E2). lia.
    + destruct (H1 _ _ E1). lia.
    + by apply (H2 _ _ h).
Qed.

Lemma swapped_statuses : statuses_ok F.
Proof.
  destruct (inv_statuses m Hi) as [S1 S2 S3]. split.
  - intros id. split.
    + intros [h Hh]. destruct (swapped_resolver id h Hh) as [(k & [Hk _] & <- & _)|[E Hd]].
      { rewrite swapped_ids. by apply list_elem_of_fmap_2. }
      { apply swapped_keep; [|done]. apply S1. by eexists. }
    + rewrite swapped_ids. intros (k & -> & Hk)%list_elem_of_fmap.
      destruct (swapped_case k Hk) as [Hrel|(_ & _ & k1 & Hk1 & He1 & _ & -> & _)].
      { destruct (sw_new _ _ _ _ Hsw k Hrel) as (h & -> & _). by eexists. }
      { apply S1. rewrite <- He1. by apply list_elem_of_fmap_2. }
  - intros id. split.
    + intros [st Hst]. destruct (decide (id ∈ certificates_requiring_reload (config m) c)) as [Hr|Hr].
      { apply reload_ids in Hr as (k & [Hk _] & <-). rewrite swapped_ids. by apply list_elem_of_fmap_2. }
      { destruct (sw_old _ _ _ _ Hsw id Hr) as [_ E]. rewrite E in Hst. case_decide as Hrem; [done|].
        apply swapped_keep; [apply S2; by eexists|]. rewrite dropped_elem. tauto. }
    + rewrite swapped_ids. intros (k & -> & Hk)%list_elem_of_fmap.
      destruct (swapped_case k Hk) as [Hrel|(_ & _ & k1 & Hk1 & He1 & _ & _ & ->)].
      { destruct (sw_new _ _ _ _ Hsw k Hrel) as (h & _ & _ & _ & ->). by eexists. }
      { apply S2. rewrite <- He1. by apply list_elem_of_fmap_2. }
  - intros id st Hst. destruct (decide (id ∈ certificates_requiring_reload (config m) c)) as [Hr|Hr].
    + apply reload_ids in Hr as (k & Hk & <-). destruct (sw_new _ _ _ _ Hsw k Hk) as (h & _ & _ & _ & E).
      rewrite E in Hst. injection Hst as <-. apply load_status_id.
    + destruct (sw_old _ _ _ _ Hsw id Hr) as [_ E]. rewrite E in Hst. case_decide; [done|]. by apply S3.
Qed.

Lemma swapped_work : work_ok F.
Proof.
  destruct (sw_rest _ _ _ _ Hsw) as (W1 & W2 & W3 & W4 & W5).
  destruct (drop_all (dropped_ids m c) m Hi) as [Hi1 [D1 D2 D3 D4]].
  set (m1 := foldl drop_work m (dropped_ids m c)) in *.
  destruct D4 as (_ & _ & _ & _ & _ & Dt & Dg & Dp & Dn & _).
  assert (Ea : active F = active m1) by (apply map_eq; intros id; by rewrite (sw_active _ _ _ _ Hsw), D1).
  assert (Ep : pending F = pending m1) by (apply map_eq; intros id; by rewrite (sw_pending _ _ _ _ Hsw), D2).
  destruct (inv_work m1 Hi1) as [A1 A2 A3 A4 A5 A6 A7 A8 A9 A10].
  destruct (inv_work m Hi) as [B1 _ _ _ _ B6 B7 _ _ _].
  rewrite Dn in A3, A9. rewrite Dg in A2, A8. rewrite Dt in A8, A10. rewrite Dp in A10.
  split; rewrite ?Ea, ?Ep, ?W1, ?W2, ?W3, ?W4; try done.
  - intros id a Ha. rewrite <- Ea, (sw_active _ _ _ _ Hsw) in Ha. case_decide; [done|].
    apply swapped_keep; [by eapply B1|done].
  - intros id a Ha. destruct (A3 id a Ha). split; [lia|done].
  - intros id [x Hx]. rewrite <- Ep, (sw_pending _ _ _ _ Hsw) in Hx. case_decide; [done|].
    apply swapped_keep; [|done]. apply B6. by eexists.
  - intros id [r Hr]. apply (sw_retry _ _ _ _ Hsw) in Hr as [Hd Hr]. apply swapped_keep; [|done]. apply B7. by eexists.
  - intros t Ht. specialize (A9 t Ht). lia.
Qed.
End swapping.

Lemma swap_config_inv env m c : manager_inv m → next_ok c → manager_inv (swap_config env m c).
Proof.
  intros Hi Hok. assert (Hsw := swap_config_spec env m c Hi Hok). split.
  - unfold config_ok, ids, certs. rewrite (sw_config _ _ _ _ Hsw). exact Hok.
  - by apply (swapped_table env m c).
  - by apply (swapped_handles env m c).
  - by apply (swapped_statuses env m c).
  - by apply (swapped_work env m c).
Qed.

Lemma apply_config_inv env m c :
  manager_inv m → next_ok c → generation m + 4 < 2 ^ 64 → manager_inv (apply_config env m c).
Proof.
  intros Hi Hok Hg. unfold apply_config. pose proof (swap_config_inv env m c Hi Hok) as Hs.
  apply schedule_due_inv; [|by apply publish_inv].
  destruct (sw_rest _ _ _ _ (swap_config_spec env m c Hi Hok)) as (_ & W2 & W3 & _).
  unfold gens_ok. cbn. rewrite W2, W3. pose proof (permits_count m (inv_work m Hi)) as Hp.
  unfold MAX_CONCURRENT_ISSUANCE in Hp. lia.
Qed.

(** ** Events: the turns of [run] and the other holders of the runtime *)

Inductive event :=
  | EApply (env : apply_env) (c : ProxyConfig)
  | EIssue (id : str)
  | EContinue (id : str)
  | ETestDns
  | EDnsDone
  | EEnd (i : nat)
  | EJoin (i : nat) (r : option TaskResult) (now : N)
  | ETick (now : N) (clock : str → N)
  | EReport (c : option ProxyConfig) (error : option str).

Definition handle (e : event) (m : CertificateManager) : CertificateManager :=
  match e with
  | EApply env c => apply_config env m c
  | EIssue id => (start_issue m id false).2
  | EContinue id => (start_continue m id).2
  | ETestDns => (test_dns m).2
  | EDnsDone => dns_test_done m
  | EEnd i => end_task i m
  | EJoin i r now => join_task i r now m
  | ETick now clock => schedule_due m now clock
  | EReport c error => (publish_config_status m c error).1
  end.

(** Applied configurations are those [ProxyConfig::load] returns, which are
    valid and in normal form ([load_normal]); the 64-bit generation counter is
    taken not to have wrapped around. *)
Definition enabled `{UriLib} (e : event) (m : CertificateManager) : Prop :=
  generation m + 4 < 2 ^ 64 ∧
  match e with EApply _ c => ProxyConfig_validate c = Ok c | _ => True end.

Inductive manager_step `{UriLib} : CertificateManager → CertificateManager → Prop :=
  | manager_step_intro e m : enabled e m → manager_step m (handle e m).

Lemma validated_facts `{UriLib} c :
  ProxyConfig_validate c = Ok c →
  wf_proxy c ∧ Forall (λ k, domains_of k = cert_domains k) (certificates c) ∧ next_ok c.
Proof.
  intros [Hn Hwf]%ProxyConfig_validate_ok. split; [done|].
  assert (Hd : Forall (λ k, domains_of k = cert_domains k) (certificates c)).
  { apply (f_equal certificates) in Hn. cbn in Hn. clear -Hn.
    induction (certificates c) as [|k l IH]; [constructor|]. rewrite fmap_cons in Hn.
    injection Hn as Hk Hl. constructor; [|auto]. symmetry. exact (f_equal cert_domains Hk). }
  split; [done|]. split; [apply (wf_certs _ Hwf)|].
  pose proof (cert_domains_disjoint _ _ _ (wf_certs _ Hwf)) as Hc.
  assert (cert_domains <$> certificates c = domains_of <$> certificates c) as ->; [|done].
  clear -Hd. induction Hd as [|k l Hk _ IH]; [done|]. by rewrite !fmap_cons, Hk, IH.
Qed.

Lemma gens_ok_enabled m : manager_inv m → generation m + 4 < 2 ^ 64 → gens_ok m.
Proof.
  intros Hi Hg. pose proof (permits_count m (inv_work m Hi)) as Hp.
  unfold gens_ok, MAX_CONCURRENT_ISSUANCE in *. lia.
Qed.

Lemma same_work_inv m m' :
  config m' = config m → resolver m' = resolver m → resolvers m' = resolvers m → directs m' = directs m →
  statuses m' = statuses m → active m' = active m → pending m' = pending m → retry m' = retry m →
  tasks m' = tasks m → generation m' = generation m → issuance_permits m' = issuance_permits m →
  cancelled m' = cancelled m → next_handle m' = next_handle m → manager_inv m → manager_inv m'.
Proof.
  intros E1 E2 E3 E4 E5 E6 E7 E8 E9 E10 E11 E12 E13 Hi.
  assert (Hids : ids m' = ids m) by (unfold ids, certs; by rewrite E1).
  apply (same_deployment_inv m); [|by apply (statuses_ok_ext m), Hi| |done].
  - split_and!; try done; [by rewrite E4|lia].
  - apply (work_ok_ext m); try done; [lia|apply Hi].
Qed.

Lemma handle_inv `{UriLib} e m : manager_inv m → enabled e m → manager_inv (handle e m).
Proof.
  intros Hi [Hg He]. pose proof (gens_ok_enabled m Hi Hg) as Hok. destruct e; cbn [handle].
  - apply apply_config_inv; [done| |done]. by apply validated_facts.
  - destruct (start_issue m id false) as [r m'] eqn:E. by eapply start_issue_manager_inv.
  - destruct (start_continue m id) as [r m'] eqn:E. by eapply start_continue_manager_inv.
  - unfold test_dns. destruct (dns_test_permits m =? 0); [done|]. by apply (same_work_inv m).
  - by apply (same_work_inv m).
  - by apply end_task_inv.
  - by apply join_task_inv.
  - by apply schedule_due_inv.
  - by apply (same_work_inv m).
Qed.

(** The configuration only changes by an application. *)
Lemma renew_all_config clock l m : config (foldl (renew_one clock) m l) = config m.
Proof.
  revert m. induction l as [|id l IH]; intros m; [done|]. cbn [foldl]. rewrite IH. unfold renew_one.
  destruct (start_issue m id true) as [[[]|e] m'] eqn:E.
  - apply start_issue_inv in E as (a & d & n & _ & E). destruct (start_blocked m id); [by destruct E|].
    by destruct E as (_ & c & cert & req & _ & _ & _ & ->).
  - destruct (fail_cert_frame m' id e (clock id)) as (_ & _ & -> & _).
    apply start_issue_inv in E as (a & d & n & _ & E). destruct (start_blocked m id); [|by destruct E].
    by destruct E as (_ & ->).
Qed.

Lemma schedule_due_config now clock m : config (schedule_due m now clock) = config m.
Proof. unfold schedule_due. case_goal; cbn; by rewrite renew_all_config. Qed.

Lemma handle_task_config m o now : config (handle_task m o now) = config m.
Proof.
  unfold handle_task. destruct (active m !! _) as [a|]; [|done]. destruct (negb _); [done|]. cbn [config publish set_snapshot].
  assert (Hf : ∀ m id e, config (fail_cert m id e now) = config m) by (intros; apply fail_cert_frame).
  destruct (out_result o) as [[[c|]|]|[c|]|]; rewrite ?Hf; try done;
    unfold deploy; (destruct (_ ≫= _) as [[h key]|e]; [done|by rewrite Hf]).
Qed.

Lemma handle_config e m :
  config (handle e m) = match e with EApply _ c => Some c | _ => config m end.
Proof.
  destruct e; cbn [handle]; try done.
  - unfold apply_config. rewrite schedule_due_config. unfold swap_config. by case_goal.
  - destruct (start_issue m id false) as [r m'] eqn:E. apply start_issue_inv in E as (a & d & n & _ & E).
    destruct (start_blocked m id); [by destruct E as (_ & ->)|].
    by destruct E as (_ & c & cert & req & _ & _ & _ & ->).
  - destruct (start_continue m id) as [r m'] eqn:E.
    by apply start_continue_inv in E as [[-> _]|(_ & c & order & _ & _ & _ & _ & ->)].
  - unfold test_dns. by destruct (_ =? 0).
  - unfold end_task. destruct (tasks m !! i) as [t|]; [|done]. by destruct (t_running t).
  - unfold join_task. destruct (tasks m !! i) as [t|]; [|done]. destruct (t_running t); [done|].
    destruct r; [by rewrite handle_task_config|done].
  - apply schedule_due_config.
Qed.

(** Every reachable state has the invariant and a validated configuration. *)
Definition manager_new (s : ProxyRuntimeSnapshot) : CertificateManager :=
  CertificateManager_new CertificateResolver_new s.

Lemma manager_new_inv s : manager_inv (manager_new s).
Proof.
  split.
  - split; constructor.
  - split; [done|]. intros d e. unfold entry_at. cbn. split.
    + destruct (strip_prefix _ d); by rewrite lookup_empty.
    + by intros (c & ?%not_elem_of_nil & _).
  - split; cbn; intros *; by rewrite lookup_empty.
  - split; cbn; intros id; rewrite lookup_empty;
      [split; [by intros [? ?]|by intros ?%not_elem_of_nil]..|done].
  - split; cbn; intros *; rewrite ?lookup_empty; try done; try (by intros [? ?]). by intros ?%not_elem_of_nil.
Qed.

Lemma reachable_inv `{UriLib} s m :
  rtc manager_step (manager_new s) m →
  manager_inv m ∧ ∀ c, config m = Some c → ProxyConfig_validate c = Ok c.
Proof.
  intros Hr. apply rtc_ind_r with (P := λ m, manager_inv m ∧ ∀ c, config m = Some c → ProxyConfig_validate c = Ok c)
    (x := manager_new s) in Hr; [done| |].
  - split; [apply manager_new_inv|done].
  - intros y z _ Hstep [Hi Hv]. destruct Hstep as [e y He]. split; [by apply handle_inv|].
    intros c. rewrite handle_config. destruct He as [_ He]. destruct e; try apply Hv. by intros [= <-].
Qed.
End manager.
