(* ===== verification/ManagerProps.v ===== *)
(** * ManagerProps: what the certificate manager guarantees

    Theorems on the states the manager of [CertManager] reaches: what TLS
    serves, which results of issuance tasks are accepted, when renewal is
    attempted, and what a new configuration leaves alone. *)

From stdpp Require Import sorting.
From S2P Require Import Prelude RustStr Net ProxyConfig CertResolver Cache CertManager.

Section props.
Context {L : TlsLib} {A : AcmeLib} (io : ErrorKind → str).

(** ** How the bookkeeping evolves *)

(** Tasks and active entries are old ones or carry a newer generation;
    cancelled tokens stay cancelled. *)
Record evolved (m m' : CertificateManager) : Prop := {
  ev_generation : generation m <= generation m';
  ev_tasks : ∀ t, t ∈ tasks m' →
    (∃ t0, t0 ∈ tasks m ∧ t_certificate_id t0 = t_certificate_id t ∧ t_generation t0 = t_generation t) ∨
    generation m < t_generation t <= generation m';
  ev_active : ∀ id a, active m' !! id = Some a → active m !! id = Some a ∨ generation m < at_generation a;
  ev_cancelled : cancelled m ⊆ cancelled m';
  ev_distinct : (∀ t, t ∈ tasks m → t_generation t <= generation m) →
    NoDup (t_generation <$> tasks m) → NoDup (t_generation <$> tasks m') }.

Lemma evolved_same m m' :
  generation m' = generation m → tasks m' = tasks m → cancelled m ⊆ cancelled m' →
  (∀ id a, active m' !! id = Some a → active m !! id = Some a) → evolved m m'.
Proof.
  intros E1 E2 E3 E4. split; [lia| | |done|by rewrite E2].
  - rewrite E2. intros t Ht. left. eauto.
  - intros id a Ha. left. auto.
Qed.

Lemma evolved_refl m : evolved m m.
Proof. by apply evolved_same. Qed.

Lemma evolved_trans m1 m2 m3 : evolved m1 m2 → evolved m2 m3 → evolved m1 m3.
Proof.
  intros [A1 A2 A3 A4 A5] [B1 B2 B3 B4 B5]. split; [lia| | |set_solver|].
  - intros t [(t0 & Ht0 & E1 & E2)|?]%B2; [|right; lia].
    apply A2 in Ht0 as [(t1 & Ht1 & E3 & E4)|?]; [|right; rewrite <- E2; lia].
    left. exists t1. split_and!; [done|congruence..].
  - intros id a [Ha|?]%B3; [auto|right; lia].
  - intros Hb Hd. apply B5; [|auto]. intros t [(t0 & Ht0 & _ & <-)|?]%A2; [|lia].
    apply Hb in Ht0. lia.
Qed.

Lemma started_evolved id work root f m :
  generation m + 1 < 2 ^ 64 → evolved m (started id work root f m).
Proof.
  intros Hg. assert (Hmod : (generation m + 1) mod 2 ^ 64 = generation m + 1) by (by apply N.mod_small).
  split; cbn -[N.modulo N.pow]; rewrite ?Hmod; [lia|..|done|].
  - intros t [Ht|Ht]%elem_of_app; [left; eauto|right]. apply list_elem_of_singleton in Ht as ->. simpl. lia.
  - intros k a. rewrite lookup_insert_Some. intros [[_ <-]|[_ Hk]]; [right; simpl; lia|by left].
  - intros Hb Hd. rewrite fmap_app. apply NoDup_app. split_and!; [done| |apply NoDup_singleton].
    simpl. intros g (t & -> & Ht)%list_elem_of_fmap Hin%list_elem_of_singleton. apply Hb in Ht. lia.
Qed.

Lemma fail_evolved m id e now : evolved m (fail_cert io m id e now).
Proof.
  destruct (fail_cert_frame io m id e now) as (E1 & _ & _ & E2 & _ & _ & _ & E3 & _ & E4 & _).
  apply evolved_same; [done..|by rewrite E4|by rewrite E2].
Qed.

Lemma deploy_evolved m id c now : evolved m (deploy io m id c now).
Proof.
  unfold deploy. destruct (_ ≫= _) as [[h key]|e]; [by apply evolved_same|apply fail_evolved].
Qed.

Lemma start_issue_evolved m id b : gens_ok m → evolved m (start_issue m id b).2.
Proof.
  intros Hg. destruct (start_issue m id b) as [r m'] eqn:E. cbn [snd].
  apply start_issue_inv in E as (a & d & n & _ & E). destruct (start_blocked m id) as [e|] eqn:Hb.
  - destruct E as [_ ->]. by apply evolved_same.
  - destruct E as (_ & c & cert & req & _ & _ & _ & ->).
    apply (evolved_trans _ (with_gates a d n m)); [by apply evolved_same|]. apply started_evolved.
    apply (start_permit m id b) in Hb. unfold gens_ok in Hg. cbn. lia.
Qed.

Lemma start_continue_evolved m id : gens_ok m → evolved m (start_continue m id).2.
Proof.
  intros Hg. destruct (start_continue m id) as [r m'] eqn:E. cbn [snd].
  apply start_continue_inv in E as [[-> _]|(_ & c & order & _ & _ & _ & Hp & ->)]; [apply evolved_refl|].
  apply started_evolved. unfold gens_ok in Hg. lia.
Qed.

Lemma handle_task_evolved m o now : evolved m (handle_task io m o now).
Proof.
  unfold handle_task. destruct (active m !! _) as [a|]; [|apply evolved_refl].
  destruct (negb _); [apply evolved_refl|].
  set (m1 := set_active (delete (out_certificate_id o) (active m)) m).
  apply (evolved_trans _ m1).
  { apply evolved_same; [done..|]. intros k b Hk. by apply (lookup_delete_Some (active m)) in Hk as [_ Hk]. }
  match goal with |- evolved _ (publish ?x) => apply (evolved_trans _ x); [|by apply evolved_same] end.
  destruct (out_result o) as [[[]|]|[]|];
    auto using deploy_evolved, fail_evolved, evolved_same.
Qed.

Lemma delete_task_evolved i m : evolved m (set_tasks (delete i (tasks m)) m).
Proof.
  split; cbn; [lia| |auto|done|].
  - intros t Ht. left. exists t. split; [|done].
    eapply elem_of_submseteq; [done|]. apply sublist_submseteq, sublist_delete.
  - intros _ Hd. eapply sublist_NoDup; [exact Hd|]. by apply fmap_sublist, sublist_delete.
Qed.

Lemma join_task_evolved i r now m : evolved m (join_task io i r now m).
Proof.
  unfold join_task. destruct (tasks m !! i) as [t|]; [|apply evolved_refl].
  destruct (t_running t); [apply evolved_refl|].
  destruct r; [|apply delete_task_evolved].
  eapply evolved_trans; [apply (delete_task_evolved i)|apply handle_task_evolved].
Qed.

Lemma end_task_evolved i m : evolved m (end_task i m).
Proof.
  unfold end_task. destruct (tasks m !! i) as [t|] eqn:Ht; [|apply evolved_refl].
  destruct (t_running t); [|apply evolved_refl].
  set (t' := {| t_certificate_id := _ |}).
  assert (Hg : t_generation <$> <[i:=t']> (tasks m) = t_generation <$> tasks m).
  { rewrite list_fmap_insert. apply list_insert_id. by rewrite list_lookup_fmap, Ht. }
  split; cbn; [lia| |auto|done|by rewrite Hg].
  intros u [j Hj]%list_elem_of_lookup. left. apply list_lookup_insert_Some in Hj as [(-> & <- & _)|[_ Hj]].
  - exists t. split; [by eapply list_elem_of_lookup_2|done].
  - exists u. split; [by eapply list_elem_of_lookup_2|done].
Qed.

(** ** The scheduler leaves the deployment and running work alone *)

Record scheduled (m m' : CertificateManager) : Prop := {
  sd_config : config m' = config m;
  sd_resolver : resolver m' = resolver m;
  sd_resolvers : resolvers m' = resolvers m;
  sd_directs : directs m' = directs m;
  sd_cancelled : cancelled m' = cancelled m;
  sd_active : ∀ id a, active m !! id = Some a → active m' !! id = Some a }.

Lemma scheduled_trans m1 m2 m3 : scheduled m1 m2 → scheduled m2 m3 → scheduled m1 m3.
Proof. intros [] []. split; [congruence..|auto]. Qed.

Lemma renew_one_cases clock m id :
  ∃ a d n, match start_blocked m id with
           | Some e => renew_one io clock m id = fail_cert io (with_gates a d n m) id e (clock id)
           | None => ∃ c cert request, config m = Some c ∧ find_cert c id = Some cert ∧
               renew_one io clock m id =
               started id (BeginIssue request) (cache_dir (proxy c)) (status_with Renewing None [])
                 (with_gates a d n m)
           end.
Proof.
  unfold renew_one. destruct (start_issue m id true) as [r m'] eqn:E.
  apply start_issue_inv in E as (a & d & n & _ & E). exists a, d, n.
  destruct (start_blocked m id).
  - by destruct E as [-> ->].
  - destruct E as (-> & c & cert & req & Hc & Hf & _ & ->). by exists c, cert, req.
Qed.

Lemma start_blocked_active m id : start_blocked m id = None → active m !! id = None.
Proof. unfold start_blocked. by destruct (active m !! id). Qed.

Lemma renew_one_scheduled clock m id : scheduled m (renew_one io clock m id).
Proof.
  destruct (renew_one_cases clock m id) as (a & d & n & H). destruct (start_blocked m id) as [e|] eqn:Hb.
  - rewrite H. destruct (fail_cert_frame io (with_gates a d n m) id e (clock id))
      as (_ & _ & E1 & E2 & E3 & E4 & E5 & _ & _ & E6 & _). by split; rewrite ?E1, ?E2, ?E3, ?E4, ?E5, ?E6.
  - destruct H as (c & cert & req & _ & _ & ->). apply start_blocked_active in Hb.
    split; try done. intros k b Hk. cbn. rewrite lookup_insert_ne; [done|congruence].
Qed.

Lemma renew_all_scheduled clock l m : scheduled m (foldl (renew_one io clock) m l).
Proof.
  revert m. induction l as [|id l IH]; intros m; [done|]. cbn [foldl].
  eapply scheduled_trans; [apply renew_one_scheduled|apply IH].
Qed.

Lemma schedule_due_scheduled now clock m : scheduled m (schedule_due io m now clock).
Proof.
  unfold schedule_due. set (m1 := set_statuses _ m).
  apply (scheduled_trans _ m1); [done|].
  eapply scheduled_trans; [exact (renew_all_scheduled clock (due m1 now) m1)|]. by case_goal.
Qed.

Lemma renew_one_evolved clock m id : gens_ok m → evolved m (renew_one io clock m id).
Proof.
  intros Hg. pose proof (start_issue_evolved m id true Hg) as H. unfold renew_one.
  destruct (start_issue m id true) as [[|e] m']; [done|].
  eapply evolved_trans; [exact H|apply fail_evolved].
Qed.

Lemma schedule_due_evolved now clock m : gens_ok m → manager_inv m → evolved m (schedule_due io m now clock).
Proof.
  intros Hg Hi. unfold schedule_due. set (m1 := set_statuses _ m).
  apply (evolved_trans _ m1); [by apply evolved_same|].
  apply (evolved_trans _ (foldl (renew_one io clock) m1 (due m1 now))).
  - assert (H1 : manager_inv m1) by by apply expire_statuses_inv.
    assert (Hg1 : gens_ok m1) by done. clearbody m1. generalize (due m1 now) as l. intros l.
    revert m1 H1 Hg1. clear. induction l as [|id l IH]; intros m1 H1 Hg1; [apply evolved_refl|]. cbn [foldl].
    destruct (renew_one_inv io clock m1 id Hg1 H1) as [Hg2 H2].
    eapply evolved_trans; [by apply renew_one_evolved|]. by apply IH.
  - case_goal; [by apply evolved_same|apply evolved_refl].
Qed.

(** ** Dropping work *)

Lemma drop_work_cancelled m id :
  cancelled m ⊆ cancelled (drop_work m id) ∧
  ∀ a, active m !! id = Some a → at_cancellation a ∈ cancelled (drop_work m id).
Proof. unfold drop_work. destruct (active m !! id); cbn; set_solver. Qed.

Lemma drop_all_cancelled l m :
  cancelled m ⊆ cancelled (foldl drop_work m l) ∧
  ∀ id a, id ∈ l → active m !! id = Some a → at_cancellation a ∈ cancelled (foldl drop_work m l).
Proof.
  revert m. induction l as [|i l IH]; intros m; [split; [done|by intros ? ? ?%not_elem_of_nil]|]. cbn [foldl].
  destruct (IH (drop_work m i)) as [H1 H2], (drop_work_cancelled m i) as [H3 H4].
  split; [set_solver|]. intros id a Hin Ha. destruct (decide (id = i)) as [->|Hne].
  { apply H1. auto. }
  apply elem_of_cons in Hin as [?|Hin]; [done|]. apply (H2 id a Hin).
  rewrite (dropped_active [i] m _ (drop_work_dropped m i)), decide_False; [done|].
  by rewrite list_elem_of_singleton.
Qed.

Lemma swap_evolved env m c : manager_inv m → next_ok c → evolved m (swap_config io env m c).
Proof.
  intros Hi Hn. destruct (sw_rest _ _ _ _ _ (swap_config_spec io env m c Hi Hn)) as (E1 & E2 & _ & E3 & _).
  apply evolved_same; [done..| |].
  - rewrite E3. apply drop_all_cancelled.
  - intros id a. rewrite (sw_active _ _ _ _ _ (swap_config_spec io env m c Hi Hn)). by case_decide.
Qed.

(** ** Steps *)

Lemma swap_gens env m c : manager_inv m → next_ok c → gens_ok m → gens_ok (publish (swap_config io env m c)).
Proof.
  intros Hi Hn. destruct (sw_rest _ _ _ _ _ (swap_config_spec io env m c Hi Hn)) as (_ & E1 & E2 & _).
  unfold gens_ok. cbn. by rewrite E1, E2.
Qed.

Lemma handle_evolved `{UriLib} e m : manager_inv m → enabled e m → evolved m (handle io e m).
Proof.
  intros Hi [Hg He]. pose proof (gens_ok_enabled m Hi Hg) as Hok. destruct e; cbn [handle].
  - destruct (validated_facts c He) as (_ & _ & Hn). unfold apply_config.
    eapply evolved_trans; [by apply (swap_evolved env m c)|].
    apply (evolved_trans _ (publish (swap_config io env m c))); [by apply evolved_same|].
    apply schedule_due_evolved; [by apply swap_gens|]. by apply publish_inv, swap_config_inv.
  - by apply start_issue_evolved.
  - by apply start_continue_evolved.
  - unfold test_dns. destruct (dns_test_permits m =? 0); by apply evolved_same.
  - by apply evolved_same.
  - apply end_task_evolved.
  - apply join_task_evolved.
  - by apply schedule_due_evolved.
  - by apply evolved_same.
Qed.

Lemma steps_inv `{UriLib} m m' :
  manager_inv m → rtc (manager_step io) m m' → manager_inv m' ∧ evolved m m'.
Proof.
  intros Hi Hs. revert Hi. induction Hs as [m|m1 m2 m3 Hstep _ IH]; intros Hi; [split; [done|apply evolved_refl]|].
  destruct Hstep as [e m He]. destruct IH as [H1 H2]; [by apply (handle_inv io e m)|]. split; [done|].
  eapply evolved_trans; [by apply handle_evolved|done].
Qed.

Lemma reachable_manager `{UriLib} s m : rtc (manager_step io) (manager_new s) m → manager_inv m.
Proof. intros Hr. by destruct (reachable_inv io s m Hr). Qed.

Lemma reachable_distinct `{UriLib} s m :
  rtc (manager_step io) (manager_new s) m → NoDup (t_generation <$> tasks m).
Proof.
  intros Hr. destruct (steps_inv _ _ (manager_new_inv s) Hr) as [_ E]. apply (ev_distinct _ _ E); [|constructor].
  by intros t ?%not_elem_of_nil.
Qed.

(** The entry of a domain is the resolver of the certificate that owns it. *)
Lemma entry_of_owner `{UriLib} m c d :
  manager_inv m → config m = Some c → ProxyConfig_validate c = Ok c →
  let owners := owners_of (certificates c) in
  (entry_resolver <$> entry_at (resolver m) d = owners !! d ≫= λ i, resolvers m !! i) ∧
  ∀ i, owners !! d = Some i → is_Some (resolvers m !! i).
Proof.
  intros Hi Hc Hv owners. destruct (validated_facts c Hv) as (_ & Hdom & Hid & Hnd).
  assert (Hcerts : certs m = certificates c) by (unfold certs; by rewrite Hc).
  assert (Hmap : domains_of <$> certificates c = cert_domains <$> certificates c).
  { rewrite Forall_forall in Hdom. apply list_fmap_ext. intros j k Hk. apply Hdom.
    by eapply list_elem_of_lookup_2. }
  rewrite Forall_forall in Hdom. destruct (inv_table m Hi) as [_ Htab].
  assert (Ho : ∀ i, owners !! d = Some i ↔ ∃ k, k ∈ certificates c ∧ d ∈ domains_of k ∧ i = cert_id k).
  { intros i. apply owners_of_lookup. by rewrite Hmap. }
  assert (Hs : ∀ i, owners !! d = Some i → is_Some (resolvers m !! i)).
  { intros i (k & Hk & _ & ->)%Ho. apply (resolvers_ids m (inv_statuses m Hi)). unfold ids.
    rewrite Hcerts. by apply list_elem_of_fmap_2. }
  split; [|done]. destruct (owners !! d) as [i|] eqn:E; cbn [mbind option_bind].
  - destruct (Hs i eq_refl) as [h Hh]. destruct (proj1 (Ho i) eq_refl) as (k & Hk & Hdk & ->). rewrite Hdom in Hdk by done.
    rewrite (proj2 (Htab d {| entry_owner := cert_id k; entry_resolver := h |})); [by rewrite Hh|].
    exists k. by rewrite Hcerts.
  - destruct (entry_at (resolver m) d) as [e|] eqn:Hent; [|done].
    apply Htab in Hent as (k & Hk & Hdk & _). rewrite Hcerts in Hk. rewrite <- Hdom in Hdk by done.
    discriminate (proj2 (Ho (cert_id k)) (ex_intro _ k (conj Hk (conj Hdk eq_refl)))).
Qed.

(** ** Theorems *)

(** *** The table while a configuration is applied *)

Lemma loaded_NoDup env n ks (rs : list (CertificateConfig * N * CertificateRuntimeStatus)) :
  NoDup (cert_id <$> ks) → NoDup (concat (cert_domains <$> ks)) → rs `prefix_of` loaded io env n ks →
  NoDup (rep_id <$> rs) ∧ NoDup (concat ((λ r, cert_domains r.1.1) <$> rs)).
Proof.
  intros H1 H2 [rs' E]. pose proof (loaded_fmap io cert_id env n ks) as F1.
  pose proof (loaded_fmap io cert_domains env n ks) as F2. rewrite <- F1 in H1. rewrite <- F2 in H2.
  rewrite E, fmap_app in H1. rewrite E, fmap_app, concat_app in H2.
  split; [by apply NoDup_app in H1 as [? _]|by apply NoDup_app in H2 as [? _]].
Qed.

(** The first turns remove some certificates; once all are removed, the next
    turns install the first replacements. *)
Lemma take_turns m removed rs n :
  ∃ gone new, gone `prefix_of` removed ∧ new `prefix_of` rs ∧ (new = [] ∨ gone = removed) ∧
    foldl run_turn m (take n (lock_turns removed rs)) = foldl install_cert (foldl remove_cert m gone) new.
Proof.
  exists (take n removed), (take (n - length removed) rs). split_and!; [apply prefix_take|apply prefix_take| |].
  - destruct (decide (length removed <= n)%nat); [right; by apply take_ge|left].
    by replace (n - length removed)%nat with 0%nat by lia.
  - unfold lock_turns. rewrite take_app, length_fmap, <- !fmap_take. apply run_turns.
Qed.

Record swapped_part (env : apply_env) (m : CertificateManager) (c : ProxyConfig) (removed : list str)
  (S : CertificateManager) : Prop := {
  sp_exact : exact_ok (resolver m) → exact_ok (resolver S);
  sp_directs : directs S = directs (swap_config io env m c);
  sp_entries : ∀ d,
    entry_at (resolver S) d = entry_at (resolver m) d ∨
    entry_at (resolver S) d = entry_at (resolver (swap_config io env m c)) d ∨
    (entry_at (resolver S) d = None ∧ ∃ e e',
       entry_at (resolver m) d = Some e ∧ entry_at (resolver (swap_config io env m c)) d = Some e' ∧
       entry_owner e ≠ entry_owner e') }.

Lemma swap_directs env m c :
  directs (swap_config io env m c) = directs (load_replacements io env m c).1.
Proof.
  unfold swap_config. destruct (load_replacements io env m c) as [m1 rs]. cbn [fst].
  cbn [directs set_config]. destruct (reset_retry_frame (config m) (certificates c)
    (foldl run_turn m1 (lock_turns (removed_ids m c) rs))) as (_ & _ & _ & -> & _).
  generalize (lock_turns (removed_ids m c) rs). intros l. revert m1.
  induction l as [|[id|[[k h] st]] l IH]; intros m1; [done|exact (IH _)|exact (IH _)].
Qed.

Lemma run_turns_directs l m : directs (foldl run_turn m l) = directs m.
Proof. revert m. induction l as [|[id|[[k h] st]] l IH]; intros m; [done|exact (IH _)|exact (IH _)]. Qed.

(** The table of an application in progress, domain by domain. *)
Lemma swapping_entries (env : apply_env) m c gone (rs : list (CertificateConfig * N * CertificateRuntimeStatus))
    m1 (R S : CertificateManager) d :
  manager_inv m → next_ok c → (∀ id, id ∈ gone → id ∈ removed_ids m c) →
  (rs = [] ∨ ∀ id, id ∈ removed_ids m c → id ∈ gone) → resolver m1 = resolver m →
  (∀ k h st, (k, h, st) ∈ rs → reloads m c k ∧ resolvers (swap_config io env m c) !! cert_id k = Some h) →
  R = foldl remove_cert m1 gone → installed_all rs R S →
  entry_at (resolver S) d = entry_at (resolver m) d ∨
  entry_at (resolver S) d = entry_at (resolver (swap_config io env m c)) d ∨
  (entry_at (resolver S) d = None ∧ ∃ e e',
     entry_at (resolver m) d = Some e ∧ entry_at (resolver (swap_config io env m c)) d = Some e' ∧
     entry_owner e ≠ entry_owner e').
Proof.
  intros Hi Hok Hgone Hall Hm1 Hrs -> Hins. pose proof (sw_entries _ _ _ _ _ (swap_config_spec io env m c Hi Hok) d) as Hnew.
  pose proof (ia_entries _ _ _ Hins d) as He. rewrite (ra_entries _ _ _ (remove_all gone m1)), Hm1 in He.
  set (F := swap_config io env m c) in *.
  destruct (entry_at (resolver S) d) as [e|] eqn:ES.
  - destruct (proj1 (He e) eq_refl) as [(k & h & st & Hk & Hd & ->)|(_ & Ho & _)].
    + right. left. symmetry. apply Hnew. left. exists k. by destruct (Hrs _ _ _ Hk).
    + left. destruct (entry_at (resolver m) d) as [e0|]; [|done]. cbn [mbind option_bind] in Ho.
      unfold not_owned in Ho. by case_decide.
  - destruct (entry_at (resolver m) d) as [e0|] eqn:E0; [|by left]. right.
    destruct (entry_at (resolver F) d) as [e'|] eqn:EF; [right|by left]. split; [done|].
    exists e0, e'. split_and!; [done..|]. intros Hown. cbn [mbind option_bind] in He.
    assert (Hnone : ∀ k h st, (k, h, st) ∈ rs → d ∉ cert_domains k).
    { intros k h st Hk Hd. discriminate (proj2 (He _) (or_introl (ex_intro _ k (ex_intro _ h (ex_intro _ st
        (conj Hk (conj Hd eq_refl))))))). }
    assert (Hgo : entry_owner e0 ∈ gone ∨ entry_owner e0 ∈ rep_id <$> rs).
    { unfold not_owned in He. case_decide; [by left|]. right.
      destruct (decide (entry_owner e0 ∈ rep_id <$> rs)); [done|].
      discriminate (proj2 (He e0) (or_intror (conj Hnone (conj eq_refl n)))). }
    destruct (proj1 (Hnew e') eq_refl) as [(k & Hk & Hd & Ho & _)|(_ & [= <-] & Hnd)].
    + rewrite Ho in Hown. destruct Hgo as [Hg|([[k' h'] st'] & Heq & Hk')%list_elem_of_fmap].
      * apply Hgone in Hg. apply removed_elem in Hg as [_ Hn]. apply Hn. rewrite Hown.
        apply list_elem_of_fmap_2, Hk.
      * cbn in Heq. assert (k' = k) as ->; [|by apply (Hnone _ _ _ Hk')].
        apply (cert_id_inj (certificates c)); [apply Hok|by apply Hrs in Hk' as [[? _] _]|apply Hk|unfold rep_id in Heq; cbn in Heq; congruence].
    + apply Hnd, dropped_elem. destruct Hgo as [Hg|([[k' h'] st'] & Heq & Hk')%list_elem_of_fmap]; [right; auto|left].
      rewrite Heq. apply reload_ids. exists k'. split; [by apply Hrs in Hk' as [? _]|done].
Qed.

Lemma swapping_spec env m c removed n :
  manager_inv m → next_ok c → removed ≡ₚ removed_ids m c →
  swapped_part env m c removed (swapping io env m c removed n).
Proof.
  intros Hi Hok Hp. unfold swapping.
  assert (HD := swap_directs env m c). pose proof (swap_config_spec io env m c Hi Hok) as Sw.
  pose proof (sw_loaded _ _ _ _ _ Sw) as Hload. unfold load_replacements in *. set (reload := certificates_requiring_reload (config m) c) in *.
  destruct (drop_all (dropped_ids m c) m Hi) as [_ [_ _ _ D4]]. unfold dropped_ids in D4. fold reload in D4.
  set (m1 := foldl drop_work m (elements reload ++ removed_ids m c)) in *.
  destruct D4 as (_ & Dr & _). set (ks := filter (λ k, cert_id k ∈ reload) (certificates c)) in *.
  destruct (load_all io env ks m1 []) as (D & HDl & _ & _). rewrite HDl in *. cbn [app fst] in *.
  set (m2 := set_directs D _) in *. set (rs := loaded io env (next_handle m1) ks) in *.
  destruct (take_turns m2 removed rs n) as (gone & new & Hg & Hnw & Hor & ->).
  assert (HK : NoDup (cert_id <$> ks) ∧ NoDup (concat (cert_domains <$> ks))).
  { split; [apply NoDup_fmap_filter, Hok|apply NoDup_concat_filter, Hok]. }
  destruct (loaded_NoDup env _ ks new (proj1 HK) (proj2 HK) Hnw) as [Hn1 Hn2].
  pose proof (install_all_spec new (foldl remove_cert m2 gone) Hn1 Hn2) as Hins.
  split.
  - intros He. apply (ia_exact _ _ _ Hins), (ra_exact _ _ _ (remove_all gone m2)). change (resolver m2) with (resolver m1).
    by rewrite Dr.
  - rewrite HD. rewrite (proj1 (proj2 (ia_rest _ _ _ Hins))). by rewrite (proj1 (proj2 (ra_rest _ _ _ (remove_all gone m2)))).
  - intros d. apply (swapping_entries env m c gone new m2 _ _ d Hi Hok) with (5 := eq_refl); try done.
    + intros id Hin. rewrite <- Hp. destruct Hg as [l ->]. apply elem_of_app. by left.
    + destruct Hor as [->| ->]; [by left|right]. intros id. by rewrite Hp.
    + intros k h st Hk. assert (Hk' : (k, h, st) ∈ rs) by (destruct Hnw as [l ->]; apply elem_of_app; by left).
      exact (Hload k h st Hk').
Qed.

(** An apply, from the deployment it swaps in. *)
Lemma apply_scheduled env m c : scheduled (swap_config io env m c) (apply_config io env m c).
Proof.
  unfold apply_config. eapply scheduled_trans; [|apply schedule_due_scheduled]. done.
Qed.

(** The entry that answers a server name: its own or that of its wildcard. *)
Definition host_entry (st : ResolverState N) (name : str) : option (ResolverEntry N) :=
  match entry_at st name with
  | Some e => Some e
  | None => '(_, suffix) ← split_once "."%char name; entry_at st (lit "*." ++ suffix)
  end.

Lemma resolve_host m iter name :
  exact_ok (resolver m) → iter ≡ₚ map_to_list (wildcard_names (resolver m)) →
  resolve m iter (Some name) = host_entry (resolver m) name ≫= λ e, mjoin (directs m !! entry_resolver e).
Proof.
  intros He Hp. cbn [resolve mbind option_bind]. rewrite resolver_for_at by done.
  fold (host_entry (resolver m) name). by destruct (host_entry (resolver m) name).
Qed.

(** An entry of the table names an object that exists. *)
Lemma entry_handle m d e : manager_inv m → entry_at (resolver m) d = Some e → entry_resolver e < next_handle m.
Proof.
  intros Hi (k & _ & _ & _ & Hr)%(inv_table m Hi). by apply (proj1 (inv_handles m Hi) (cert_id k)).
Qed.

(** C1: between the turns of the manager, whatever the interleaving of
    commands, finished tasks, scheduler ticks and new configurations, the TLS
    handshake picks for every server name the resolver object of the
    certificate to which the applied configuration attributes the name, in any
    order of the wildcard table, and the key this object holds; every
    configured certificate has such an object, and no other.  While a new
    configuration is applied the lock of the table is taken once per
    certificate; after any number of these turns, in any order of the removed
    certificates, a name is answered by its own entry or else by that of its
    wildcard; each of these entries is the one from before the application or
    the one from after it, so it is unchanged when both agree, and it is
    missing only while the domain moves from one certificate to another; the
    objects from before still hold their keys, those from after already do. *)
Theorem tls_serves_configuration `{UriLib} s m :
  rtc (manager_step io) (manager_new s) m →
  (∀ c iter name, config m = Some c → iter ≡ₚ map_to_list (wildcard_names (resolver m)) →
    let owners := owners_of (certificates c) in
    resolver_for (resolver m) iter name =
      (certificate_for_host owners (map_to_list owners) name ≫= λ i, resolvers m !! i) ∧
    resolve m iter (Some name) =
      (certificate_for_host owners (map_to_list owners) name ≫= λ i, resolvers m !! i ≫= λ h, mjoin (directs m !! h)) ∧
    resolve m iter None = None ∧
    ∀ i, is_Some (resolvers m !! i) ↔ i ∈ cert_id <$> certificates c) ∧
  (∀ env c removed n iter name, enabled (EApply env c) m → removed ≡ₚ removed_ids m c →
    let S := swapping io env m c removed n in
    let F := apply_config io env m c in
    iter ≡ₚ map_to_list (wildcard_names (resolver S)) →
    resolve S iter (Some name) = (host_entry (resolver S) name ≫= λ e, mjoin (directs S !! entry_resolver e)) ∧
    (∀ d, entry_at (resolver S) d = entry_at (resolver m) d ∨
          entry_at (resolver S) d = entry_at (resolver F) d ∨
          (entry_at (resolver S) d = None ∧ ∃ e e',
             entry_at (resolver m) d = Some e ∧ entry_at (resolver F) d = Some e' ∧
             entry_owner e ≠ entry_owner e')) ∧
    (∀ d e, entry_at (resolver m) d = Some e → directs S !! entry_resolver e = directs m !! entry_resolver e) ∧
    directs S = directs F).
Proof.
  intros Hr. destruct (reachable_inv io s m Hr) as [Hi Hv]. split.
  - intros c iter name Hc Hp owners. specialize (Hv c Hc).
    assert (Hname : resolver_for (resolver m) iter name =
      (certificate_for_host owners (map_to_list owners) name ≫= λ i, resolvers m !! i)).
    { rewrite resolver_for_at, certificate_for_host_owner by (done || apply (inv_table m Hi)). unfold host_owner.
      destruct (entry_of_owner m c name Hi Hc Hv) as [H1 H2]. fold owners in H1, H2.
      destruct (owners !! name) as [i|].
      + destruct (H2 i eq_refl) as [h Hh]. cbn [mbind option_bind] in H1 |- *. rewrite Hh in *.
        by destruct (entry_at (resolver m) name).
      + destruct (entry_at (resolver m) name); [done|].
        destruct (split_once "."%char name) as [[label suf]|]; [|done]. by apply entry_of_owner. }
    split_and!; [done| |done|].
    + cbn [resolve mbind option_bind]. rewrite Hname.
      by destruct (certificate_for_host owners (map_to_list owners) name).
    + intros i. rewrite (resolvers_ids m (inv_statuses m Hi)). unfold ids, certs. by rewrite Hc.
  - intros env c removed n iter name He Hp S F Hiter.
    destruct (validated_facts c (proj2 He)) as (_ & _ & Hn).
    destruct (swapping_spec env m c removed n Hi Hn Hp) as [P1 P2 P3].
    destruct (apply_scheduled env m c) as [_ F1 _ F2 _ _]. unfold F. rewrite F1, F2. split_and!; [|done| |done].
    + apply resolve_host; [apply P1, (inv_table m Hi)|done].
    + intros d e Hd%(entry_handle m d e Hi). unfold S. rewrite P2. by apply (sw_directs _ _ _ _ _ (swap_config_spec io env m c Hi Hn)).
Qed.

(** (a defect) while a new configuration is applied, a domain of a removed
    certificate is served by nobody once the removals are done, also when
    another certificate of the new configuration takes the domain over: a
    handshake for it fails, unless a wildcard covers it, until the turn that
    installs its new owner. *)
Theorem moved_domain_unserved `{UriLib} s m env c removed d e iter :
  rtc (manager_step io) (manager_new s) m → enabled (EApply env c) m → removed ≡ₚ removed_ids m c →
  entry_at (resolver m) d = Some e → entry_owner e ∈ removed →
  let S := swapping io env m c removed (length removed) in
  iter ≡ₚ map_to_list (wildcard_names (resolver S)) →
  entry_at (resolver S) d = None ∧
  ((∀ label suffix, split_once "."%char d = Some (label, suffix) →
      entry_at (resolver m) (lit "*." ++ suffix) = None) →
   resolve S iter (Some d) = None).
Proof.
  intros Hr He Hp Hd Ho S Hiter. pose proof (reachable_manager s m Hr) as Hi.
  destruct (validated_facts c (proj2 He)) as (_ & _ & Hn).
  destruct (swapping_spec env m c removed (length removed) Hi Hn Hp) as [P1 _ _]. fold S in P1.
  assert (Hat : ∀ x, entry_at (resolver S) x = entry_at (resolver m) x ≫= not_owned removed).
  { intros x. unfold S, swapping, load_replacements.
    destruct (drop_all (dropped_ids m c) m Hi) as [_ [_ _ _ D4]]. unfold dropped_ids in D4.
    set (m1 := foldl drop_work m _) in *. destruct D4 as (_ & Dr & _). set (ks := filter _ (certificates c)).
    destruct (load_all io env ks m1 []) as (D & -> & _ & _). cbn [app]. unfold lock_turns.
    rewrite take_app_le, take_ge, foldl_fmap by (rewrite length_fmap; lia).
    rewrite <- Dr. exact (ra_entries removed _ _ (remove_all removed (set_directs D
      (set_next_handle (next_handle m1 + len ks) m1))) x). }
  assert (Hnone : entry_at (resolver S) d = None).
  { rewrite Hat, Hd. cbn [mbind option_bind]. unfold not_owned. by rewrite decide_True. }
  split; [done|]. intros Hwild. rewrite resolve_host by (done || apply P1, (inv_table m Hi)).
  unfold host_entry. rewrite Hnone. destruct (split_once "."%char d) as [[l x]|] eqn:E; [|done].
  cbn [mbind option_bind]. by rewrite Hat, (Hwild l x).
Qed.

(** In every reachable state at most four issuance tasks run, a
    certificate is never both being issued and waiting for manual DNS records,
    only configured certificates are worked on, every task carries its own
    generation, and the token of an active certificate is not cancelled. *)
Theorem manager_work_safe `{UriLib} s m :
  rtc (manager_step io) (manager_new s) m →
  len (filter (λ t, t_running t = true) (tasks m)) <= MAX_CONCURRENT_ISSUANCE ∧
  NoDup (t_generation <$> tasks m) ∧
  (∀ id, is_Some (pending m !! id) ∨ is_Some (retry m !! id) → id ∈ ids m) ∧
  (∀ id a, active m !! id = Some a →
     id ∈ ids m ∧ pending m !! id = None ∧ at_cancellation a ∉ cancelled m) ∧
  ∀ id1 id2 h, resolvers m !! id1 = Some h → resolvers m !! id2 = Some h → id1 = id2.
Proof.
  intros Hr. pose proof (reachable_manager s m Hr) as Hi. pose proof (inv_work m Hi) as W. split_and!.
  - pose proof (permits_count m W). lia.
  - by eapply reachable_distinct.
  - intros id [?|?]; [by apply (pending_ids m W)|by apply (retry_ids m W)].
  - intros id a Ha. split_and!; [by eapply active_ids|by eapply active_pending|by eapply active_token].
  - apply (inv_handles m Hi).
Qed.

(** C10: when a new configuration reloads or removes a certificate, the tasks
    working for it are cancelled and their results are discarded for ever:
    however the manager goes on, joining such a task changes nothing but the
    list of tasks, even if the certificate is being issued again by then. *)
Theorem reload_discards_results `{UriLib} s m env c id t m' i t' r now :
  rtc (manager_step io) (manager_new s) m → enabled (EApply env c) m →
  id ∈ dropped_ids m c → t ∈ tasks m → t_certificate_id t = id →
  rtc (manager_step io) (apply_config io env m c) m' →
  tasks m' !! i = Some t' → t_running t' = false →
  t_certificate_id t' = id → t_generation t' = t_generation t →
  (∀ a, active m !! id = Some a → at_cancellation a ∈ cancelled m') ∧
  join_task io i r now m' = set_tasks (delete i (tasks m')) m'.
Proof.
  intros Hr He Hid Ht Htid Hs Ht' Hrun Hid' Hgen. pose proof (reachable_manager s m Hr) as Hi.
  destruct (validated_facts c (proj2 He)) as (_ & _ & Hn).
  pose proof (swap_config_spec io env m c Hi Hn) as Sw.
  assert (Hi1 : manager_inv (publish (swap_config io env m c))) by by apply publish_inv, swap_config_inv.
  assert (Hg1 : gens_ok (publish (swap_config io env m c))).
  { apply swap_gens; [done..|]. apply gens_ok_enabled; [done|apply He]. }
  assert (Hev : evolved (publish (swap_config io env m c)) m').
  { eapply evolved_trans; [by apply (schedule_due_evolved (apply_now env) (apply_clock env))|].
    apply (steps_inv (apply_config io env m c)); [|done]. by apply (handle_inv io (EApply env c)). }
  destruct (sw_rest _ _ _ _ _ Sw) as (_ & Hgen1 & _ & Hcan & _). split.
  - intros a Ha. apply (ev_cancelled _ _ Hev). cbn. rewrite Hcan.
    by eapply drop_all_cancelled.
  - unfold join_task. rewrite Ht', Hrun. destruct r as [r|]; [|done]. unfold handle_task.
    cbn [out_certificate_id out_generation active set_tasks]. rewrite Hid'.
    destruct (active m' !! id) as [a|] eqn:Ha; [|done].
    pose proof (task_generation m (inv_work m Hi) t Ht) as Hle.
    assert (Hlt : generation m < at_generation a).
    { apply (ev_active _ _ Hev) in Ha as [Ha|Ha]; [|cbn in Ha; lia].
      cbn in Ha. rewrite (sw_active _ _ _ _ _ Sw), decide_True in Ha by done. done. }
    destruct (N.eqb_spec (at_generation a) (t_generation t')); [lia|done].
Qed.

Lemma kept_not_dropped m c k :
  next_ok c → k ∈ certificates c → requires_reload (config m) c k = false →
  cert_id k ∉ certificates_requiring_reload (config m) c ∧ cert_id k ∉ removed_ids m c.
Proof.
  intros [Hid _] Hk Hr. split.
  - intros (k' & [Hk' Hr'] & He)%reload_ids. assert (k' = k) as ->; [|congruence].
    by apply (cert_id_inj (certificates c)).
  - intros [_ Hn]%removed_elem. apply Hn. by apply list_elem_of_fmap_2.
Qed.

(** A certificate that a new configuration keeps unchanged keeps its
    resolver object, the key the object serves and its running issuance; the
    names the configuration attributes to it go on being served by the same
    object. *)
Theorem unchanged_certificate_kept `{UriLib} s m env c k :
  rtc (manager_step io) (manager_new s) m → enabled (EApply env c) m →
  k ∈ certificates c → requires_reload (config m) c k = false →
  let m' := apply_config io env m c in
  ∃ h, resolvers m !! cert_id k = Some h ∧ resolvers m' !! cert_id k = Some h ∧
       directs m' !! h = directs m !! h ∧
       (∀ a, active m !! cert_id k = Some a → active m' !! cert_id k = Some a) ∧
       ∀ d, d ∈ cert_domains k →
         entry_resolver <$> entry_at (resolver m) d = Some h ∧
         entry_resolver <$> entry_at (resolver m') d = Some h.
Proof.
  intros Hr He Hk Hreq m'. pose proof (reachable_manager s m Hr) as Hi.
  destruct (validated_facts c (proj2 He)) as (_ & _ & Hn). pose proof (swap_config_spec io env m c Hi Hn) as Sw.
  destruct (kept_not_dropped m c k Hn Hk Hreq) as [Hrel Hrem].
  assert (Hi' : manager_inv m') by by apply (handle_inv io (EApply env c)).
  destruct (apply_scheduled env m c) as [S1 S2 S3 S4 _ S5]. fold m' in S1, S2, S3, S4, S5.
  destruct (not_reloaded m c k Hk Hreq) as (k0 & Hk0 & Hid0 & Hdom0).
  assert (Hs : is_Some (resolvers m !! cert_id k)).
  { apply (resolvers_ids m (inv_statuses m Hi)). rewrite <- Hid0. by apply list_elem_of_fmap_2. }
  destruct Hs as [h Hh]. exists h.
  assert (Hh' : resolvers m' !! cert_id k = Some h).
  { rewrite S3. destruct (sw_old _ _ _ _ _ Sw (cert_id k) Hrel) as [-> _]. by rewrite decide_False. }
  split_and!; [done|done| | |].
  - rewrite S4. apply (sw_directs _ _ _ _ _ Sw). by apply (proj1 (inv_handles m Hi) (cert_id k)).
  - intros a Ha. apply S5. rewrite (sw_active _ _ _ _ _ Sw), decide_False; [done|].
    rewrite dropped_elem. naive_solver.
  - intros d Hd. split.
    + rewrite (proj2 (proj2 (inv_table m Hi) d {| entry_owner := cert_id k; entry_resolver := h |})); [done|].
      exists k0. rewrite Hdom0, Hid0. done.
    + rewrite (proj2 (proj2 (inv_table m' Hi') d {| entry_owner := cert_id k; entry_resolver := h |})); [done|].
      exists k. unfold certs. rewrite S1, (sw_config _ _ _ _ _ Sw). done.
Qed.

(** ** A served key is only ever replaced by a working one *)

Definition keys_kept (m m' : CertificateManager) : Prop :=
  ∀ h, directs m' !! h = directs m !! h ∨
       ∃ cert key k, set_pem cert key = Ok k ∧ directs m' !! h = Some (Some k).

Lemma keys_kept_same m m' : directs m' = directs m → keys_kept m m'.
Proof. intros E h. left. by rewrite E. Qed.

Lemma deploy_keys m id c now : keys_kept m (deploy io m id c now).
Proof.
  unfold deploy. destruct (ok_or (resolvers m !! id) _) as [h|e] eqn:Eh; cbn [mbind result_bind];
    [|by apply keys_kept_same, fail_cert_frame].
  destruct (set_pem _ _) as [key|e] eqn:Ek; cbn [mbind result_bind]; [|by apply keys_kept_same, fail_cert_frame].
  intros h'. cbn. destruct (decide (h' = h)) as [->|Hne]; [|left; by rewrite lookup_insert_ne].
  right. exists (issued_certificate_pem c), (issued_private_key_pem c), key. by rewrite lookup_insert_eq.
Qed.

Lemma fail_keys m id e now : keys_kept m (fail_cert io m id e now).
Proof. by apply keys_kept_same, fail_cert_frame. Qed.

Lemma handle_task_keys m o now : keys_kept m (handle_task io m o now).
Proof.
  unfold handle_task. destruct (active m !! _) as [a|]; [|by apply keys_kept_same].
  destruct (negb _); [by apply keys_kept_same|]. set (m1 := set_active _ m).
  destruct (out_result o) as [[[c|]|e]|[c|e]|o' e].
  - exact (deploy_keys m1 _ c now).
  - by apply keys_kept_same.
  - exact (fail_keys m1 _ e now).
  - exact (deploy_keys m1 _ c now).
  - exact (fail_keys m1 _ e now).
  - by apply keys_kept_same.
Qed.

Lemma deploy_table m id c now :
  resolver (deploy io m id c now) = resolver m ∧ resolvers (deploy io m id c now) = resolvers m.
Proof.
  unfold deploy. destruct (_ ≫= _) as [[h key]|e]; [done|]. by destruct (fail_cert_frame io m id e now) as (_&_&_&_&->&->&_).
Qed.

Lemma fail_table m id e now :
  resolver (fail_cert io m id e now) = resolver m ∧ resolvers (fail_cert io m id e now) = resolvers m.
Proof. by destruct (fail_cert_frame io m id e now) as (_&_&_&_&->&->&_). Qed.

Lemma handle_task_table m o now :
  resolver (handle_task io m o now) = resolver m ∧ resolvers (handle_task io m o now) = resolvers m.
Proof.
  unfold handle_task. destruct (active m !! _) as [a|]; [|done]. destruct (negb _); [done|].
  set (m1 := set_active _ m). destruct (out_result o) as [[[c|]|e]|[c|e]|o' e]; try done.
  - exact (deploy_table m1 _ c now).
  - exact (fail_table m1 _ e now).
  - exact (deploy_table m1 _ c now).
  - exact (fail_table m1 _ e now).
Qed.

(** Apart from a new configuration, no step of the manager takes a key
    out of service: a resolver object that serves a key goes on serving one,
    either the same or the key of a certificate whose chain and private key
    have just been parsed and matched; failed issuances, expired certificates,
    panics and unusable answers of the CA leave the served key alone, and no
    name changes its resolver object. *)
Theorem served_key_kept m e h k :
  (∀ env c, e ≠ EApply env c) → directs m !! h = Some (Some k) →
  (∃ k', directs (handle io e m) !! h = Some (Some k') ∧
         (k' = k ∨ ∃ cert key, set_pem cert key = Ok k')) ∧
  resolver (handle io e m) = resolver m ∧ resolvers (handle io e m) = resolvers m.
Proof.
  intros Hne Hk.
  assert (Hkeys : keys_kept m (handle io e m) ∧ resolver (handle io e m) = resolver m ∧
                  resolvers (handle io e m) = resolvers m).
  { destruct e; cbn [handle]; try by (split_and!; [by apply keys_kept_same|done..]).
    - by destruct (Hne env c).
    - destruct (start_issue m id false) as [r m'] eqn:E. apply start_issue_inv in E as (a & d & n & _ & E).
      destruct (start_blocked m id); [destruct E as [_ ->]|destruct E as (_ & c & cert & req & _ & _ & _ & ->)];
        (split; [by apply keys_kept_same|done]).
    - destruct (start_continue m id) as [r m'] eqn:E.
      apply start_continue_inv in E as [[-> _]|(_ & c & order & _ & _ & _ & _ & ->)];
        (split; [by apply keys_kept_same|done]).
    - unfold test_dns. destruct (dns_test_permits m =? 0); (split; [by apply keys_kept_same|done]).
    - unfold end_task. destruct (tasks m !! i) as [t|]; [destruct (t_running t)|];
        (split; [by apply keys_kept_same|done]).
    - unfold join_task. destruct (tasks m !! i) as [t|]; [destruct (t_running t); [|destruct r as [r|]]|];
        try (split; [by apply keys_kept_same|done]).
      set (m1 := set_tasks _ m). split; [exact (handle_task_keys m1 _ now)|exact (handle_task_table m1 _ now)].
    - destruct (schedule_due_scheduled now clock m) as [_ -> -> E _ _]. split; [by apply keys_kept_same|done]. }
  destruct Hkeys as (Hkeys & E1 & E2). split; [|done]. destruct (Hkeys h) as [E|(cert & key & k' & Hs & E)].
  - exists k. rewrite E. auto.
  - exists k'. eauto 10.
Qed.

(** ** Retries *)

Lemma retry_delay_bounds a : RETRY_BASE <= retry_delay a <= 19200.
Proof.
  unfold retry_delay, RETRY_BASE, RETRY_MAX.
  assert (1 <= 2 ^ N.min a 6 <= 64); [|lia]. split.
  - change 1 with (2 ^ 0). apply N.pow_le_mono_r; lia.
  - change 64 with (2 ^ 6). apply N.pow_le_mono_r; lia.
Qed.

Lemma retry_delay_mono a b : a <= b → retry_delay a <= retry_delay b.
Proof.
  intros Hab. unfold retry_delay. apply N.min_le_compat_r, N.mul_le_mono_l, N.pow_le_mono_r; lia.
Qed.

Lemma next_retry_later now id r : now < u64_max → now < retry_at (next_retry now id r).
Proof.
  intros Hn. unfold next_retry, saturating_add. cbn [retry_at].
  pose proof (retry_delay_bounds (attempts (default {| attempts := 0; retry_at := now |} r))).
  unfold RETRY_BASE in *. lia.
Qed.

Lemma fail_cert_retry m id e now k :
  retry (fail_cert io m id e now) !! k =
  if can_retry m id && bool_decide (k = id) then Some (next_retry now id (retry m !! id)) else retry m !! k.
Proof.
  unfold fail_cert. destruct (can_retry m id); [|done]. cbn. case_bool_decide as Hk; [subst|].
  - by rewrite lookup_insert_eq.
  - by rewrite lookup_insert_ne.
Qed.

(** A failure backs the renewal of a certificate off: the next attempt of
    a renewable certificate comes at least five minutes and at most 5 h 20 min
    59 s later, the delay never shrinks as failures accumulate, and it never
    reaches the six hours of [RETRY_MAX]; a certificate that is not renewable
    gets no retry, and no other certificate is affected. *)
Theorem retry_backoff m id e now :
  let m' := fail_cert io m id e now in
  let before := attempts (default {| attempts := 0; retry_at := now |} (retry m !! id)) in
  (∀ k, k ≠ id → retry m' !! k = retry m !! k) ∧
  (can_retry m id = false → retry m' !! id = retry m !! id) ∧
  (can_retry m id = true → ∃ r, retry m' !! id = Some r ∧
     attempts r = N.min (before + 1) u32_max ∧
     (now + 19259 <= u64_max → now + 300 <= retry_at r <= now + 19259) ∧
     (now < u64_max → now < retry_at r)) ∧
  (∀ a b, a <= b → retry_delay a <= retry_delay b < RETRY_MAX).
Proof.
  intros m' before. split_and!.
  - intros k Hk. unfold m'. rewrite fail_cert_retry, bool_decide_false, andb_false_r; done.
  - intros Hc. unfold m'. by rewrite fail_cert_retry, Hc.
  - intros Hc. exists (next_retry now id (retry m !! id)). unfold m'. rewrite fail_cert_retry, Hc, bool_decide_true by done.
    split_and!; [done|done| |by apply next_retry_later].
    intros Hn. unfold next_retry, saturating_add. cbn [retry_at]. fold before.
    pose proof (retry_delay_bounds before) as Hb. unfold RETRY_BASE in Hb.
    assert (jitter id < 60) by (by apply N.mod_lt). lia.
  - intros a b Hab. split; [by apply retry_delay_mono|].
    pose proof (retry_delay_bounds b). unfold RETRY_MAX. lia.
Qed.

(** ** The scheduler settles every due certificate *)

Definition expiry (m : CertificateManager) (id : str) : option N := statuses m !! id ≫= rs_expires_at.

Lemma is_due_true m now c :
  is_due m now c = true ↔
  auto_renew c = true ∧ (∃ x, expiry m (cert_id c) = Some x ∧ x - RENEW_BEFORE <= now) ∧
  (∀ r, retry m !! cert_id c = Some r → retry_at r <= now) ∧ active m !! cert_id c = None.
Proof.
  unfold is_due, expiry. rewrite andb_true_iff.
  destruct (statuses m !! cert_id c) as [st|]; cbn [mbind option_bind]; [|naive_solver].
  destruct (rs_expires_at st) as [x|]; [|naive_solver].
  rewrite !andb_true_iff, bool_decide_eq_true, N.leb_le.
  destruct (retry m !! cert_id c) as [r|].
  - rewrite N.leb_le. naive_solver.
  - naive_solver.
Qed.

Lemma find_cert_in c k : NoDup (cert_id <$> certificates c) → k ∈ certificates c → find_cert c (cert_id k) = Some k.
Proof.
  intros Hnd Hk. destruct (find_cert c (cert_id k)) as [k'|] eqn:E.
  - apply find_cert_ids in E as [Hin He]. f_equal. by apply (cert_id_inj (certificates c)).
  - unfold find_cert in E. apply list_elem_of_In in Hk. pose proof (List.find_none _ _ E k Hk) as Hn.
    cbn in Hn. by rewrite bool_decide_eq_false in Hn.
Qed.

Lemma validated_refs `{UriLib} c cert :
  ProxyConfig_validate c = Ok c → cert ∈ certificates c →
  find_cert c (cert_id cert) = Some cert ∧ is_Some (find_acme c (acme_account_id cert)) ∧
  is_ok (request_dns c cert) = true.
Proof.
  intros Hv Hc. destruct (validated_facts c Hv) as (Hwf & _ & Hid & _).
  split; [by apply find_cert_in|].
  pose proof (cert_refs _ _ _ (wf_certs _ Hwf)) as Hrefs. rewrite Forall_forall in Hrefs.
  destruct (Hrefs cert Hc) as (H1 & H2 & _). split.
  - unfold find_acme. destruct (List.find _ (acme_accounts c)) eqn:E; [by eexists|].
    apply list_elem_of_fmap in H1 as (x & Hx & Hin%list_elem_of_In).
    pose proof (List.find_none _ _ E x Hin) as Hn. cbn in Hn. by rewrite bool_decide_eq_false in Hn.
  - unfold request_dns. destruct (cert_validation cert) as [[i|]|]; [|done|done].
    unfold find_dns. destruct (List.find _ (dns_accounts c)) eqn:E; [done|].
    apply list_elem_of_fmap in H2 as (x & Hx & Hin%list_elem_of_In).
    pose proof (List.find_none _ _ E x Hin) as Hn. cbn in Hn. by rewrite bool_decide_eq_false in Hn.
Qed.

(** When a start is refused, on a validated configuration. *)
Lemma validated_blocked `{UriLib} m c cert :
  config m = Some c → ProxyConfig_validate c = Ok c → cert ∈ certificates c →
  start_blocked m (cert_id cert) =
    match active m !! cert_id cert, cert_validation cert with
    | Some _, _ => Some (PRuntime "该证书正在申请中")
    | None, None => Some (PRuntime (default (lit "证书尚未选择验证方式") (migration_error cert)))
    | None, Some _ => if issuance_permits m =? 0 then Some (PRuntime "证书签发任务已达到并发上限") else None
    end.
Proof.
  intros Hc Hv Hk. destruct (validated_refs c cert Hv Hk) as (Hfind & [acc Hacc] & Hdns).
  unfold start_blocked. destruct (active m !! cert_id cert); [done|]. rewrite Hc, Hfind.
  destruct (cert_validation cert); [|done]. rewrite Hacc. by destruct (request_dns c cert).
Qed.

(** A certificate whose recorded status is a failure with its reason. *)
Definition failed_at (m : CertificateManager) (id : str) : Prop :=
  ∃ st, statuses m !! id = Some st ∧ (rs_status st = SFailed ∨ rs_status st = Expired) ∧
        is_Some (rs_last_error st).

Lemma fail_cert_failed m id e now k :
  k = id ∧ is_Some (statuses m !! id) ∨ failed_at m k → failed_at (fail_cert io m id e now) k.
Proof.
  intros H. assert (E : statuses (fail_cert io m id e now) =
    alter (λ st, status_with (if expired now (rs_expires_at st) then Expired else SFailed)
                   (Some (fmt_proxy_error io e)) [] st) id (statuses m)).
  { unfold fail_cert. by destruct (can_retry m id). }
  unfold failed_at. rewrite E. destruct (decide (k = id)) as [->|Hne].
  - rewrite lookup_alter_eq.
    assert (Hs : is_Some (statuses m !! id)) by (destruct H as [[_ ?]|(st & ? & _)]; [done|by exists st]).
    destruct Hs as [st ->]. eexists. split; [done|]. cbn. split; [|by eexists].
    destruct (expired now (rs_expires_at st)); auto.
  - rewrite lookup_alter_ne by done. by destruct H as [[? _]|H].
Qed.

(** When a certificate has to be renewed: it renews itself, it expires within
    two weeks, no back-off holds it back and nothing works on it. *)
Definition renewal_due (m : CertificateManager) (now : N) (k : CertificateConfig) : Prop :=
  auto_renew k = true ∧
  (∃ st x, statuses m !! cert_id k = Some st ∧ rs_expires_at st = Some x ∧ x <= now + 14 * 24 * 3600) ∧
  (∀ r, retry m !! cert_id k = Some r → retry_at r <= now) ∧
  active m !! cert_id k = None.

(** Its renewal runs: exactly one new task issues it. *)
Definition renewing (m m' : CertificateManager) (id : str) : Prop :=
  ∃ t request, t ∈ tasks m' ∧ t ∉ tasks m ∧
    t_certificate_id t = id ∧ t_running t = true ∧ t_work t = BeginIssue request ∧
    (∀ u, u ∈ tasks m' → t_certificate_id u = id → u = t ∨ u ∈ tasks m) ∧
    active m' !! id = Some {| at_generation := t_generation t; at_cancellation := t_token t |} ∧
    rs_status <$> statuses m' !! id = Some Renewing ∧ retry m' !! id = retry m !! id.

(** Its renewal is put off by a failure at the time [at_time]. *)
Definition postponed (m m' : CertificateManager) (id : str) (at_time : N) : Prop :=
  active m' !! id = None ∧ retry m' !! id = Some (next_retry at_time id (retry m !! id)) ∧ failed_at m' id.

Lemma renewal_due_is_due m now k : renewal_due m now k ↔ is_due m now k = true.
Proof.
  rewrite is_due_true. unfold renewal_due, expiry, RENEW_BEFORE. split.
  - intros (H1 & (st & x & H2 & H3 & H4) & H5). split; [done|]. split; [|done]. exists x. rewrite H2. split; [done|lia].
  - intros (H1 & (x & H2 & H3) & H4). split; [done|]. split; [|done].
    destruct (statuses m !! cert_id k) as [st|]; [|done]. exists st, x. split_and!; [done|done|lia].
Qed.
(** One renewal, for the other certificates. *)
Record untouched (m m' : CertificateManager) (id : str) : Prop := {
  ut_active : active m' !! id = active m !! id;
  ut_retry : retry m' !! id = retry m !! id;
  ut_statuses : statuses m' !! id = statuses m !! id;
  ut_tasks : ∀ t, t ∈ tasks m' → t_certificate_id t = id → t ∈ tasks m }.

Lemma untouched_refl m id : untouched m m id.
Proof. by split. Qed.
Lemma untouched_trans m1 m2 m3 id : untouched m1 m2 id → untouched m2 m3 id → untouched m1 m3 id.
Proof. intros [] []. split; [congruence..|auto]. Qed.

Lemma renew_one_other clock m id k : k ≠ id → untouched m (renew_one io clock m id) k.
Proof.
  intros Hk. destruct (renew_one_cases clock m id) as (a & d & n & H).
  destruct (start_blocked m id) as [e|].
  - rewrite H. set (m1 := with_gates a d n m). pose proof (fail_cert_frame io m1 id e (clock id)) as F. split.
    + by rewrite (proj1 (proj2 (proj2 (proj2 F)))).
    + by rewrite fail_cert_retry, bool_decide_false, andb_false_r by done.
    + unfold fail_cert. destruct (can_retry m1 id); cbn; by rewrite lookup_alter_ne.
    + intros t. by rewrite (proj1 (proj2 (proj2 (proj2 (proj2 (proj2 (proj2 (proj2 F)))))))).
  - destruct H as (c & cert & req & _ & _ & ->). split; cbn -[N.modulo N.pow].
    + by rewrite lookup_insert_ne.
    + done.
    + by rewrite lookup_alter_ne.
    + intros t [Ht|Ht%list_elem_of_singleton]%elem_of_app Hid; [done|]. subst t. by cbn in Hid.
Qed.

Lemma renew_one_grows clock m id :
  tasks m ⊆ tasks (renew_one io clock m id) ∧ issuance_permits (renew_one io clock m id) <= issuance_permits m.
Proof.
  destruct (renew_one_cases clock m id) as (a & d & n & H). destruct (start_blocked m id) as [e|].
  - rewrite H. destruct (fail_cert_frame io (with_gates a d n m) id e (clock id)) as (_&->&_&_&_&_&_&->&_). done.
  - destruct H as (c & cert & req & _ & _ & ->). cbn -[N.modulo N.pow]. split; [|lia]. intros t Ht.
    apply elem_of_app. by left.
Qed.

Lemma renew_all_other clock l m k :
  (k ∉ l → untouched m (foldl (renew_one io clock) m l) k) ∧
  tasks m ⊆ tasks (foldl (renew_one io clock) m l) ∧
  issuance_permits (foldl (renew_one io clock) m l) <= issuance_permits m.
Proof.
  revert m. induction l as [|i l IH]; intros m; [split; [intros _; apply untouched_refl|done]|]. cbn [foldl].
  destruct (IH (renew_one io clock m i)) as (H1 & H2 & H3), (renew_one_grows clock m i) as [H4 H5].
  split_and!; [|set_solver|lia]. intros [Hne Hn]%not_elem_of_cons.
  eapply untouched_trans; [by apply renew_one_other|auto].
Qed.

(** One renewal, for the certificate it is for. *)
Lemma renew_one_self `{UriLib} clock m c k :
  manager_inv m → gens_ok m → config m = Some c → ProxyConfig_validate c = Ok c → k ∈ certificates c →
  auto_renew k = true → (∃ st x, statuses m !! cert_id k = Some st ∧ rs_expires_at st = Some x) →
  active m !! cert_id k = None →
  let m' := renew_one io clock m (cert_id k) in
  renewing m m' (cert_id k) ∨
  (postponed m m' (cert_id k) (clock (cert_id k)) ∧ (issuance_permits m' = 0 ∨ cert_validation k = None)).
Proof.
  intros Hi Hg Hc Hv Hk Hauto (st & x & Hst & Hx) Ha m'.
  destruct (renew_one_cases clock m (cert_id k)) as (a & d & n & Hm). fold m' in Hm.
  pose proof (validated_blocked m c k Hc Hv Hk) as Hb. rewrite Ha in Hb.
  destruct (start_blocked m (cert_id k)) as [e|] eqn:Hblk.
  - right. set (m1 := with_gates a d n m) in *.
    pose proof (fail_cert_frame io m1 (cert_id k) e (clock (cert_id k))) as (_ & Fp & _ & Fa & _). rewrite <- Hm in Fp, Fa.
    assert (Hcan : can_retry m1 (cert_id k) = true).
    { unfold can_retry. change (config m1) with (config m). change (statuses m1) with (statuses m).
      destruct (validated_facts c Hv) as (_ & _ & Hid & _). rewrite Hc, find_cert_in, Hauto, Hst by done. cbn.
      by rewrite Hx. }
    split; [split_and!|].
    + by rewrite Fa.
    + rewrite Hm, fail_cert_retry, Hcan, bool_decide_true by done. done.
    + rewrite Hm. apply fail_cert_failed. left. split; [done|]. change (statuses m1) with (statuses m). by eexists.
    + rewrite Fp. destruct (cert_validation k); [left|by right]. change (issuance_permits m1) with (issuance_permits m).
      by destruct (N.eqb_spec (issuance_permits m) 0).
  - left. destruct Hm as (c' & cert & req & _ & _ & ->).
    assert (Hp : issuance_permits m ≠ 0) by (by apply (start_permit m (cert_id k) true)).
    eexists _, req. split_and!; [apply elem_of_app; right; left| |reflexivity|reflexivity|reflexivity| | |..].
    + intros Hin%(task_generation m (inv_work m Hi)). cbn -[N.modulo N.pow] in Hin. unfold gens_ok in Hg.
      rewrite N.mod_small in Hin by lia. lia.
    + intros u [Hu|Hu%list_elem_of_singleton]%elem_of_app _; [by right|by left].
    + cbn -[N.modulo N.pow]. by rewrite lookup_insert_eq.
    + cbn -[N.modulo N.pow]. rewrite lookup_alter_eq. change (statuses (with_gates a d n m)) with (statuses m). by rewrite Hst.
    + done.
Qed.

Lemma due_split m now c k :
  config m = Some c → k ∈ certificates c → NoDup (cert_id <$> certificates c) → is_due m now k = true →
  ∃ l1 l2, due m now = l1 ++ cert_id k :: l2 ∧ cert_id k ∉ l1 ∧ cert_id k ∉ l2.
Proof.
  intros Hc Hk Hnd Hd. assert (Hin : cert_id k ∈ due m now).
  { unfold due. rewrite Hc. apply list_elem_of_fmap_2. by apply list_elem_of_filter. }
  apply list_elem_of_split in Hin as (l1 & l2 & E). exists l1, l2. split; [done|].
  assert (Hn : NoDup (due m now)) by (unfold due; rewrite Hc; by apply NoDup_fmap_filter).
  rewrite E in Hn. apply NoDup_app in Hn as (_ & H1 & H2). apply NoDup_cons in H2 as [H2 _]. split; [|done].
  intros Hl. by apply (H1 _ Hl); left.
Qed.

(** C21: a tick of the scheduler settles every certificate: one that has to be
    renewed is renewed by exactly one new task or, when no permit is left or
    it has no validation method, its failure is recorded and the next attempt
    put off by the back-off; for every other certificate no task starts and
    its work and back-off stay.  Afterwards, as long as the clock does not go
    back during the tick, no certificate has to be renewed: renewals are
    neither forgotten nor retried in a loop. *)
Theorem schedule_settles `{UriLib} s m now clock c k :
  rtc (manager_step io) (manager_new s) m → generation m + 4 < 2 ^ 64 →
  config m = Some c → k ∈ certificates c →
  let id := cert_id k in
  let m' := schedule_due io m now clock in
  (renewal_due m now k →
     renewing m m' id ∨
     (postponed m m' id (clock id) ∧ (issuance_permits m' = 0 ∨ cert_validation k = None))) ∧
  (¬ renewal_due m now k →
     active m' !! id = active m !! id ∧ retry m' !! id = retry m !! id ∧
     statuses m' !! id = expire_one now <$> statuses m !! id ∧
     ∀ t, t ∈ tasks m' → t_certificate_id t = id → t ∈ tasks m) ∧
  (now <= clock id < u64_max → ¬ renewal_due m' now k).
Proof.
  intros Hr Hgen Hc Hk id m'. destruct (reachable_inv io s m Hr) as [Hi Hv]. specialize (Hv c Hc).
  destruct (validated_facts c Hv) as (_ & _ & Hnd & _). pose proof (gens_ok_enabled m Hi Hgen) as Hg.
  set (m1 := set_statuses (expire_one now <$> statuses m) m).
  assert (Hi1 : manager_inv m1) by by apply expire_statuses_inv.
  set (f := foldl (renew_one io clock) m1 (due m1 now)).
  assert (Hf : m' = f ∨ m' = publish f) by (unfold m', schedule_due; case_goal; auto).
  assert (Hex : ∀ st, rs_expires_at (expire_one now st) = rs_expires_at st).
  { intros st. unfold expire_one. by destruct (expirable now st). }
  assert (Hd1 : is_due m1 now k = is_due m now k).
  { unfold is_due. change (statuses m1) with (expire_one now <$> statuses m). rewrite lookup_fmap.
    destruct (statuses m !! cert_id k) as [st|]; [|done]. cbn [fmap option_fmap option_map]. by rewrite Hex. }
  assert (Hyes : renewal_due m now k → renewing m m' id ∨
     (postponed m m' id (clock id) ∧ (issuance_permits m' = 0 ∨ cert_validation k = None))).
  { intros Hdue. pose proof Hdue as (Hauto & (st & x & Hst & Hx & _) & _ & Hact).
    apply renewal_due_is_due in Hdue. rewrite <- Hd1 in Hdue.
    destruct (due_split m1 now c k Hc Hk Hnd Hdue) as (l1 & l2 & El & Hl1 & Hl2).
    unfold f in Hf. rewrite El, foldl_app in Hf. cbn [foldl] in Hf. fold id in Hl1, Hl2, Hf.
    destruct (renew_all_inv io clock l1 m1 Hg Hi1) as [Hga Hia].
    destruct (renew_all_other clock l1 m1 id) as (U1 & G1 & _). specialize (U1 Hl1).
    pose proof (sd_config _ _ (renew_all_scheduled clock l1 m1)) as Hca.
    set (ma := foldl (renew_one io clock) m1 l1) in *. destruct U1 as [A1 A2 A3 A4].
    destruct (renew_one_self clock ma c k Hia Hga) as [Hs|Hs]; try done.
    { by rewrite Hca. }
    { exists (expire_one now st), x. fold id. rewrite A3. change (statuses m1) with (expire_one now <$> statuses m).
      rewrite lookup_fmap. unfold id. rewrite Hst. cbn. by rewrite Hex. }
    { fold id. by rewrite A1. }
    all: fold id in Hs; set (mb := renew_one io clock ma id) in *;
      destruct (renew_all_other clock l2 mb id) as (U2 & G2 & P2); specialize (U2 Hl2) as [B1 B2 B3 B4];
      set (mc := foldl (renew_one io clock) mb l2) in *.
    - left. assert (Hmc : renewing m mc id).
      { destruct Hs as (t & req & H1 & H2 & H3 & H4 & H5 & H6 & H7 & H8 & H9). exists t, req. split_and!; try done.
        - by apply G2.
        - intros Hin. by apply H2, G1.
        - intros u Hu Hid. destruct (H6 u) as [->|Hin]; [by apply B4|done|by left|right]. by apply A4.
        - by rewrite B1.
        - by rewrite B3.
        - by rewrite B2, H9, A2. }
      by destruct Hf as [-> | ->].
    - right. destruct Hs as [(H1 & H2 & (st' & H3 & H4)) H5].
      assert (Hmc : postponed m mc id (clock id) ∧ (issuance_permits mc = 0 ∨ cert_validation k = None)).
      { split; [split_and!|].
        - by rewrite B1.
        - by rewrite B2, H2, A2.
        - exists st'. by rewrite B3.
        - destruct H5 as [H5|H5]; [left; lia|by right]. }
      by destruct Hf as [-> | ->]. }
  assert (Hno : ¬ renewal_due m now k → untouched m1 m' id).
  { intros Hn. destruct (renew_all_other clock (due m1 now) m1 id) as (U & _). fold f in U.
    assert (Hd : id ∉ due m1 now).
    { intros Hin. apply Hn, renewal_due_is_due. rewrite <- Hd1. unfold due in Hin.
      change (config m1) with (config m) in Hin. rewrite Hc in Hin.
      apply list_elem_of_fmap in Hin as (k' & He & [Hd Hk']%list_elem_of_filter).
      by rewrite (cert_id_inj (certificates c) k k'). }
    specialize (U Hd) as [U1 U2 U3 U4]. destruct Hf as [-> | ->]; by split. }
  split_and!; [done| |].
  - intros Hn. destruct (Hno Hn) as [U1 U2 U3 U4]. split_and!; try done. rewrite U3. cbn. by rewrite lookup_fmap.
  - intros Hclk Hdue. destruct (decide (is_due m now k = true)) as [Hd|Hd].
    + destruct Hdue as (_ & _ & Hret & Hact). fold id in Hret, Hact.
      destruct (Hyes (proj2 (renewal_due_is_due m now k) Hd)) as [(t & req & _ & _ & _ & _ & _ & _ & Ha & _)|[(_ & Hre & _) _]].
      * congruence.
      * apply Hret in Hre as Hle. pose proof (next_retry_later (clock id) id (retry m !! id)). lia.
    + apply Hd, renewal_due_is_due. assert (Hn : ¬ renewal_due m now k) by (by rewrite renewal_due_is_due).
      destruct (Hno Hn) as [U1 U2 U3 _]. destruct Hdue as (D1 & (st & x & D2 & D3 & D4) & D5 & D6). fold id in D2, D5, D6.
      change (active m1) with (active m) in U1. change (retry m1) with (retry m) in U2.
      unfold renewal_due. fold id. rewrite <- U1, <- U2. split_and!; try done.
      rewrite D2 in U3. cbn in U3. rewrite lookup_fmap in U3. destruct (statuses m !! id) as [st0|]; [|done].
      cbn in U3. injection U3 as ->. rewrite Hex in D3. by exists st0, x.
Qed.

(** ** A panicked task *)

(** A step that does not drop the work of a certificate. *)
Inductive quiet_step `{UriLib} (id : str) : CertificateManager → CertificateManager → Prop :=
  | quiet_step_intro e m :
      enabled e m → (∀ env c, e = EApply env c → id ∉ dropped_ids m c) → quiet_step id m (handle io e m).

(** Nobody will ever report for this generation of the certificate. *)
Definition orphan (id : str) (a : ActiveTask) (m : CertificateManager) : Prop :=
  active m !! id = Some a ∧ at_generation a <= generation m ∧
  ∀ t, t ∈ tasks m → t_certificate_id t = id → t_generation t ≠ at_generation a.

Lemma handle_task_active m o now id a :
  active m !! id = Some a → ¬ (out_certificate_id o = id ∧ out_generation o = at_generation a) →
  active (handle_task io m o now) !! id = Some a.
Proof.
  intros Ha Hn. unfold handle_task. destruct (active m !! out_certificate_id o) as [b|] eqn:Hb; [|done].
  destruct (N.eqb_spec (at_generation b) (out_generation o)) as [Hg|]; [|done]. cbn [negb].
  assert (Hne : out_certificate_id o ≠ id).
  { intros <-. apply Hn. split; [done|]. rewrite Hb in Ha. injection Ha as ->. done. }
  set (m1 := set_active _ m).
  assert (H1 : active m1 !! id = Some a) by (unfold m1; cbn; by rewrite lookup_delete_ne).
  assert (Hf : ∀ m id' e', active m !! id = Some a → active (fail_cert io m id' e' now) !! id = Some a).
  { intros m2 id' e' H2. by rewrite (proj1 (proj2 (proj2 (proj2 (fail_cert_frame io m2 id' e' now))))). }
  assert (Hd : ∀ m id' c, active m !! id = Some a → active (deploy io m id' c now) !! id = Some a).
  { intros m2 id' c H2. unfold deploy. destruct (_ ≫= _) as [[h key]|e']; [done|auto]. }
  clearbody m1. destruct (out_result o) as [[[c|]|e']|[c|e']|o' e'];
    [exact (Hd m1 _ c H1)|exact H1|exact (Hf m1 _ e' H1)|exact (Hd m1 _ c H1)|exact (Hf m1 _ e' H1)|exact H1].
Qed.

Lemma start_active id work root f m k a :
  k ≠ id → active m !! k = Some a → active (started id work root f m) !! k = Some a.
Proof. intros Hne Ha. cbn. by rewrite lookup_insert_ne by congruence. Qed.

Lemma orphan_step `{UriLib} id a m m' :
  manager_inv m → orphan id a m → quiet_step id m m' → orphan id a m'.
Proof.
  intros Hi Ho Hs. revert Hi Ho. destruct Hs as [e m0 He Hq]. intros Hi (Ha & Hg & Hno). pose proof (handle_evolved e m0 Hi He) as Hev.
  split_and!; [|pose proof (ev_generation _ _ Hev); lia|].
  2:{ intros t [(t0 & Ht0 & E1 & E2)|?]%(ev_tasks _ _ Hev) Hid; [rewrite <- E2; apply Hno; congruence|lia]. }
  destruct e; cbn [handle]; try done.
  - apply (sd_active _ _ (apply_scheduled env m0 c)).
    destruct (validated_facts c (proj2 He)) as (_ & _ & Hn).
    rewrite (sw_active _ _ _ _ _ (swap_config_spec io env m0 c Hi Hn)), decide_False; [done|].
    by apply (Hq env).
  - destruct (start_issue m0 id0 false) as [r m'] eqn:E. apply start_issue_inv in E as (x & d & n & _ & E).
    destruct (start_blocked m0 id0) eqn:Hb; [by destruct E as [_ ->]|].
    destruct E as (_ & c & cert & req & _ & _ & _ & ->). apply start_blocked_active in Hb.
    apply start_active; [congruence|done].
  - destruct (start_continue m0 id0) as [r m'] eqn:E.
    apply start_continue_inv in E as [[-> _]|(_ & c & order & _ & Hb & _ & _ & ->)]; [done|].
    apply start_active; [congruence|done].
  - unfold test_dns. by destruct (dns_test_permits m0 =? 0).
  - unfold end_task. destruct (tasks m0 !! i) as [t|]; [|done]. by destruct (t_running t).
  - unfold join_task. destruct (tasks m0 !! i) as [t|] eqn:Ht; [|done]. destruct (t_running t); [done|].
    destruct r as [r|]; [|done]. apply handle_task_active; [done|]. intros [E1 E2].
    apply (Hno t); [by eapply list_elem_of_lookup_2|done..].
  - by apply (sd_active _ _ (schedule_due_scheduled now clock m0)).
Qed.

(** (a defect) when the task of a certificate panics, the certificate is
    stuck: whatever happens next, until a configuration reloads or removes it,
    issuing or continuing it is refused as already in progress and the
    scheduler never renews it. *)
Theorem panicked_task_wedges `{UriLib} s m i t a m' :
  rtc (manager_step io) (manager_new s) m → generation m + 4 < 2 ^ 64 →
  tasks m !! i = Some t → t_running t = false →
  active m !! t_certificate_id t = Some a → at_generation a = t_generation t →
  rtc (quiet_step (t_certificate_id t)) (handle io (EJoin i None 0) m) m' →
  let id := t_certificate_id t in
  (∀ b, start_issue m' id b = (Err (PRuntime "该证书正在申请中"), m')) ∧
  start_continue m' id = (Err (PRuntime "该证书正在申请中"), m') ∧
  ∀ now, id ∉ due m' now.
Proof.
  intros Hr Hgen Ht Hrun Ha Hg Hs id.
  pose proof (reachable_manager s m Hr) as Hi. pose proof (reachable_distinct s m Hr) as Hd.
  assert (Ho : orphan id a (handle io (EJoin i None 0) m)).
  { cbn [handle]. unfold join_task. rewrite Ht, Hrun. split_and!; [done| |].
    - cbn. rewrite Hg. apply (task_generation m (inv_work m Hi)). by eapply list_elem_of_lookup_2.
    - cbn. intros u Hu _ He. rewrite Hg in He. rewrite <- (take_drop_middle _ _ _ Ht), fmap_app in Hd.
      rewrite delete_take_drop in Hu. rewrite fmap_cons in Hd. apply NoDup_app in Hd as (_ & H1 & H2).
      apply NoDup_cons in H2 as [H2 _]. apply elem_of_app in Hu as [Hu|Hu].
      + apply (H1 (t_generation u)); [by apply list_elem_of_fmap_2|]. rewrite He. left.
      + apply H2. rewrite <- He. by apply list_elem_of_fmap_2. }
  assert (Hi1 : manager_inv (handle io (EJoin i None 0) m)) by by apply (handle_inv io (EJoin i None 0) m).
  assert (Hend : orphan id a m').
  { revert Hs Ho Hi1. fold id. generalize (handle io (EJoin i None 0) m) as x. clear. intros x Hs.
    induction Hs as [x|x y z Hstep _ IH]; intros Ho Hi; [done|]. apply IH; [by apply (orphan_step id a x)|].
    destruct Hstep as [e x He _]. by apply (handle_inv io e x). }
  destruct Hend as (Hact & _ & _). split_and!.
  - intros b. unfold start_issue. by rewrite Hact.
  - unfold start_continue. by rewrite Hact.
  - intros now. unfold due. destruct (config m') as [c|]; [|apply not_elem_of_nil].
    intros (k & Hk & [Hdue _]%list_elem_of_filter)%list_elem_of_fmap.
    apply is_due_true in Hdue as (_ & _ & _ & Hn). congruence.
Qed.

(** ** Starting issuance on a validated configuration *)

(** Issuing a certificate of the applied configuration is refused for
    four reasons only (it is being issued, it has no validation method, or no
    permit is left), without any effect on certificates, tasks or the
    published snapshot; otherwise exactly one task starts, with a generation
    newer than every other, an uncancelled token and one permit, a waiting
    manual order is given up, and the new status is published. *)
Theorem start_issue_spec `{UriLib} s m c cert b :
  rtc (manager_step io) (manager_new s) m → generation m + 4 < 2 ^ 64 →
  config m = Some c → cert ∈ certificates c →
  let id := cert_id cert in
  match start_issue m id b with
  | (Err e, m') =>
      e = match active m !! id, cert_validation cert with
          | Some _, _ => PRuntime "该证书正在申请中"
          | None, None => PRuntime (default (lit "证书尚未选择验证方式") (migration_error cert))
          | None, Some _ => PRuntime "证书签发任务已达到并发上限"
          end ∧
      (is_Some (active m !! id) ∨ cert_validation cert = None ∨ issuance_permits m = 0) ∧
      active m' = active m ∧ pending m' = pending m ∧ tasks m' = tasks m ∧ statuses m' = statuses m ∧
      retry m' = retry m ∧ issuance_permits m' = issuance_permits m ∧ snapshot m' = snapshot m
  | (Ok _, m') =>
      active m !! id = None ∧ is_Some (cert_validation cert) ∧
      issuance_permits m' + 1 = issuance_permits m ∧ pending m' = delete id (pending m) ∧
      (∃ t, tasks m' = tasks m ++ [t] ∧ t_certificate_id t = id ∧ t_running t = true ∧
            (∀ u, u ∈ tasks m → t_generation u < t_generation t) ∧ t_token t ∉ cancelled m' ∧
            active m' = <[id := {| at_generation := t_generation t; at_cancellation := t_token t |}]> (active m)) ∧
      rs_status <$> statuses m' !! id = Some (if b then Renewing else Issuing) ∧
      snap_certificates (snapshot m') = published m'
  end.
Proof.
  intros Hr Hgen Hc Hk id. destruct (reachable_inv io s m Hr) as [Hi Hv].
  pose proof (inv_work m Hi) as W. pose proof (validated_blocked m c cert Hc (Hv c Hc) Hk) as Hblk. fold id in Hblk.
  destruct (start_issue m id b) as [r m'] eqn:E. apply start_issue_inv in E as (a & d & n & Hn & E).
  rewrite Hblk in E.
  destruct (active m !! id) as [x|] eqn:Ha; [destruct E as [-> ->]; split_and!; eauto|].
  destruct (cert_validation cert) as [v|] eqn:Hval; [|destruct E as [-> ->]; split_and!; eauto].
  destruct (N.eqb_spec (issuance_permits m) 0) as [Hp|Hp]; [destruct E as [-> ->]; split_and!; eauto|].
  destruct E as (-> & c' & cert' & req & _ & _ & _ & ->). split_and!; try done; [cbn; lia| |].
  - eexists. split; [reflexivity|]. split_and!; [done|done| | |reflexivity].
    + intros u Hu%(task_generation m W). cbn -[N.modulo N.pow]. rewrite N.mod_small; lia.
    + cbn. intros Hin%(cancelled_old m W). lia.
  - cbn. rewrite lookup_alter_eq. assert (Hs : is_Some (statuses m !! id)).
    { apply (statuses_ids m (inv_statuses m Hi)). unfold ids, certs. rewrite Hc. by apply list_elem_of_fmap_2. }
    by destruct Hs as [st ->].
Qed.

(** ** Failed renewals are not published *)

Lemma start_blocked_permits m id : issuance_permits m = 0 → ∃ e, start_blocked m id = Some e.
Proof.
  intros Hp. destruct (start_blocked m id) as [e|] eqn:E; [by exists e|].
  by apply (start_permit m id true) in E.
Qed.

Lemma renew_all_unpublished clock l m :
  issuance_permits m = 0 → (∀ id, id ∈ l → is_Some (statuses m !! id)) →
  snapshot (foldl (renew_one io clock) m l) = snapshot m ∧
  ∀ id, id ∈ l ∨ failed_at m id → failed_at (foldl (renew_one io clock) m l) id.
Proof.
  revert m. induction l as [|i l IH]; intros m Hp Hs.
  { split; [done|]. by intros id [?%not_elem_of_nil|H]. }
  cbn [foldl]. destruct (renew_one_cases clock m i) as (a & d & n & H).
  destruct (start_blocked_permits m i Hp) as [e He]. rewrite He in H.
  set (m1 := with_gates a d n m) in H. rewrite H. destruct (IH (fail_cert io m1 i e (clock i))) as [I1 I2].
  - by rewrite (proj1 (proj2 (fail_cert_frame io m1 i e (clock i)))).
  - intros id Hid. assert (Hid' : is_Some (statuses m !! id)) by (apply Hs; by right).
    unfold fail_cert. destruct (can_retry m1 i); cbn; (destruct (decide (id = i)) as [->|];
      [rewrite lookup_alter_eq, fmap_is_Some|rewrite lookup_alter_ne by done]); done.
  - split.
    + rewrite I1. unfold fail_cert. by destruct (can_retry m1 i).
    + intros id [[->|Hid]%elem_of_cons|Hid]; apply I2; [right|by left|right]; apply fail_cert_failed;
        [left; split; [done|apply Hs; left]|by right].
Qed.

(** (a defect) when no issuance permit is left, the scheduler records the
    failure of every due certificate but, unless some certificate expires in
    the same tick, publishes nothing: the snapshot the control side reads does
    not change although the recorded statuses have become failures. *)
Theorem unpublished_failure `{UriLib} s m now clock :
  rtc (manager_step io) (manager_new s) m → issuance_permits m = 0 →
  (∀ id st, statuses m !! id = Some st → expirable now st = false) →
  snapshot (schedule_due io m now clock) = snapshot m ∧
  ∀ id, id ∈ due m now → failed_at (schedule_due io m now clock) id.
Proof.
  intros Hr Hp Hex. pose proof (reachable_manager s m Hr) as Hi. unfold schedule_due.
  assert (existsb (λ kv, expirable now kv.2) (map_to_list (statuses m)) = false) as ->.
  { apply not_true_iff_false. intros ([id st] & Hin & He)%List.existsb_exists.
    apply list_elem_of_In, elem_of_map_to_list in Hin. cbn in He. rewrite (Hex id st) in He; done. }
  assert (Hst : expire_one now <$> statuses m = statuses m).
  { apply map_eq. intros id. rewrite lookup_fmap. destruct (statuses m !! id) as [st|] eqn:E; [|done].
    cbn. f_equal. unfold expire_one. by rewrite (Hex id st). }
  rewrite Hst. assert (set_statuses (statuses m) m = m) as -> by by destruct m.
  destruct (renew_all_unpublished clock (due m now) m Hp) as [H1 H2].
  - unfold due. destruct (config m) as [c|] eqn:Hc; [|by intros id ?%not_elem_of_nil].
    intros id (k & -> & [_ Hk]%list_elem_of_filter)%list_elem_of_fmap.
    apply (statuses_ids m (inv_statuses m Hi)). unfold ids, certs. rewrite Hc. by apply list_elem_of_fmap_2.
  - split; [done|]. auto.
Qed.
End props.

(** ** Witnesses *)

(** Key material as plain text, for the examples. *)
Definition sample_tls : TlsLib :=
  {| TlsCert := str; TlsKey := str; SigningKey := str;
     pem_certs := λ s, Ok [s]; pem_key := λ s, Ok (Some s);
     any_supported_type := λ k, Ok k; keys_match := λ _ _, Ok tt |}.
Definition sample_acme : AcmeLib := {| Order := unit; Challenge := unit |}.
#[local] Existing Instances sample_tls sample_acme sample_uri.

Definition sample_io (_ : ErrorKind) : str := "io".
Definition sample_env : apply_env :=
  {| cached := λ _, Ok (Some {| cached_certificate := "chain"; cached_private_key := "key";
                                cached_expires_at := 10000000 |});
     load_now := λ _, 0; apply_now := 0; apply_clock := λ _, 0 |}.
Definition sample_snapshot : ProxyRuntimeSnapshot :=
  {| snap_certificates := []; snap_config_status := {| ps_revision := 0; ps_last_apply_error := None |} |}.

(** Five renewable certificates, each with its domain. *)
Definition sample_cert (name : str) (k : CertificateConfig) : CertificateConfig :=
  {| cert_id := name; cert_name := name; cert_domains := [name ++ ".com"]; acme_account_id := acme_account_id k;
     cert_validation := cert_validation k; auto_renew := true; migration_error := None |}.
Definition sample_five : ProxyConfig :=
  {| proxy := proxy sample_loaded; acme_accounts := acme_accounts sample_loaded;
     dns_accounts := dns_accounts sample_loaded;
     certificates := concat ((λ k, (λ name, sample_cert name k) <$> [lit "a"; lit "b"; lit "c"; lit "d"; lit "e"])
                               <$> certificates sample_loaded);
     routes := [] |}.

(** The configuration is applied, a certificate is being issued, its task
    ends; and the state with every permit taken. *)
Definition applied_m : CertificateManager :=
  handle sample_io (EApply sample_env sample_five) (manager_new sample_snapshot).
Definition issuing_m : CertificateManager := handle sample_io (EIssue (lit "a")) applied_m.
Definition ended_m : CertificateManager := handle sample_io (EEnd 0) issuing_m.
Definition busy_m : CertificateManager :=
  foldl (λ m id, handle sample_io (EIssue id) m) applied_m [lit "a"; lit "b"; lit "c"; lit "d"].

Lemma step_reach `{L : TlsLib, A : AcmeLib, U : UriLib} io m0 m e :
  rtc (manager_step io) m0 m → enabled e m → rtc (manager_step io) m0 (handle io e m).
Proof. intros Hr He. eapply rtc_r; [exact Hr|by constructor]. Qed.

Notation sample_reach := (rtc (manager_step sample_io) (manager_new sample_snapshot)).
Ltac enabled_tac := split; vm_compute; reflexivity || exact I.

Lemma sample_enabled : enabled (EApply sample_env sample_five) (manager_new sample_snapshot).
Proof. enabled_tac. Qed.
Lemma applied_reach : sample_reach applied_m.
Proof. apply step_reach; [apply rtc_refl|exact sample_enabled]. Qed.
Lemma issuing_reach : sample_reach issuing_m.
Proof. apply step_reach; [exact applied_reach|enabled_tac]. Qed.
Lemma ended_reach : sample_reach ended_m.
Proof. apply step_reach; [exact issuing_reach|enabled_tac]. Qed.
Lemma busy_reach : sample_reach busy_m.
Proof.
  unfold busy_m. cbn [foldl].
  apply step_reach; [|enabled_tac]. apply step_reach; [|enabled_tac].
  apply step_reach; [|enabled_tac]. apply step_reach; [exact applied_reach|enabled_tac].
Qed.

Lemma manager_work_safe_witness :
  len (filter (λ t, t_running t = true) (tasks busy_m)) = 4 ∧
  len (filter (λ t, t_running t = true) (tasks busy_m)) <= MAX_CONCURRENT_ISSUANCE.
Proof.
  split; [by vm_compute|]. apply (manager_work_safe sample_io sample_snapshot busy_m busy_reach).
Defined.

(** A new configuration without the certificate being issued. *)
Definition without_a : ProxyConfig :=
  {| proxy := proxy sample_five; acme_accounts := acme_accounts sample_five;
     dns_accounts := dns_accounts sample_five; certificates := drop 1 (certificates sample_five); routes := [] |}.

(** Removing [a] while its domain moves to the certificate [f]. *)
Definition moved_a : ProxyConfig :=
  {| proxy := proxy sample_five; acme_accounts := acme_accounts sample_five;
     dns_accounts := dns_accounts sample_five;
     certificates := ((λ k, {| cert_id := lit "f"; cert_name := lit "f"; cert_domains := cert_domains k;
                              acme_account_id := acme_account_id k; cert_validation := cert_validation k;
                              auto_renew := true; migration_error := None |}) <$> take 1 (certificates sample_five))
                     ++ drop 1 (certificates sample_five); routes := [] |}.

Lemma tls_serves_configuration_witness :
  resolver_for (resolver ended_m) (map_to_list (wildcard_names (resolver ended_m))) (lit "b.com") = Some 1 ∧
  let S := swapping sample_io sample_env ended_m without_a (removed_ids ended_m without_a) 1 in
  directs S = directs (apply_config sample_io sample_env ended_m without_a).
Proof.
  destruct (tls_serves_configuration sample_io sample_snapshot ended_m ended_reach) as [H1 H2]. split.
  - rewrite (proj1 (H1 sample_five _ (lit "b.com") ltac:(by vm_compute) (Permutation_refl _))). by vm_compute.
  - exact (proj2 (proj2 (proj2 (H2 sample_env without_a _ 1%nat _ (lit "b.com") ltac:(enabled_tac)
      (Permutation_refl _) (Permutation_refl _))))).
Defined.

Lemma moved_domain_unserved_witness :
  let S := swapping sample_io sample_env ended_m moved_a [lit "a"] 1 in
  resolve S (map_to_list (wildcard_names (resolver S))) (Some (lit "a.com")) = None ∧
  entry_owner <$> entry_at (resolver (apply_config sample_io sample_env ended_m moved_a)) (lit "a.com") = Some (lit "f").
Proof.
  split; [|by vm_compute].
  apply (moved_domain_unserved sample_io sample_snapshot ended_m sample_env moved_a [lit "a"] (lit "a.com")
    {| entry_owner := lit "a"; entry_resolver := 0 |}); [exact ended_reach|enabled_tac| | |left|reflexivity|].
  - by vm_compute.
  - by vm_compute.
  - intros l x. vm_compute. by intros [= <- <-].
Defined.

Lemma ended_task : ∃ t, tasks ended_m !! 0%nat = Some t ∧
  t_running t = false ∧ t_certificate_id t = lit "a" ∧ t_generation t = 1.
Proof. eexists. split; [vm_compute; reflexivity|]. split_and!; reflexivity. Qed.

Lemma kept_b : ∃ k, k ∈ certificates without_a ∧ requires_reload (config ended_m) without_a k = false ∧
  cert_id k = lit "b" ∧ k ∈ certificates sample_five.
Proof.
  eexists. split; [eapply (list_elem_of_lookup_2 _ 0%nat); vm_compute; reflexivity|].
  split; [vm_compute; reflexivity|]. split; [vm_compute; reflexivity|].
  eapply (list_elem_of_lookup_2 _ 1%nat). vm_compute. reflexivity.
Qed.

Lemma reload_discards_results_witness :
  lit "a" ∈ dropped_ids ended_m without_a ∧
  let m' := apply_config sample_io sample_env ended_m without_a in
  join_task sample_io 0 (Some (Begin (Ok (Issued
    {| issued_certificate_pem := "c"; issued_private_key_pem := "k"; issued_expires_at := 5 |})))) 0 m' =
  set_tasks (delete 0%nat (tasks m')) m'.
Proof.
  assert (Hd : lit "a" ∈ dropped_ids ended_m without_a) by (vm_compute; left).
  split; [exact Hd|]. cbv zeta. destruct ended_task as (t & Ht & Hr & Hid & _).
  apply (reload_discards_results sample_io sample_snapshot ended_m sample_env without_a (lit "a")
    t _ 0%nat t _ 0 ended_reach); [enabled_tac|exact Hd|by eapply list_elem_of_lookup_2|exact Hid|apply rtc_refl| |
    exact Hr|exact Hid|reflexivity].
  rewrite <- Ht. vm_compute. reflexivity.
Defined.

Lemma unchanged_certificate_kept_witness :
  ∃ h, directs (apply_config sample_io sample_env ended_m without_a) !! h = directs ended_m !! h ∧
       resolvers (apply_config sample_io sample_env ended_m without_a) !! lit "b" = Some h.
Proof.
  destruct kept_b as (k & Hk & Hr & Hid & _).
  destruct (unchanged_certificate_kept sample_io sample_snapshot ended_m sample_env without_a k ended_reach
    ltac:(enabled_tac) Hk Hr) as (h & H1 & H2 & H3 & _).
  exists h. split; [exact H3|]. rewrite <- Hid. exact H2.
Defined.

Lemma served_key_kept_witness :
  ∃ k', directs (handle sample_io (EJoin 0 None 9) ended_m) !! 0 = Some (Some k').
Proof.
  destruct (served_key_kept sample_io ended_m (EJoin 0 None 9) 0 (@Build_CertifiedKey sample_tls [lit "chain"] (lit "key"))
    ltac:(done) ltac:(by vm_compute)) as [(k' & H & _) _].
  exists k'. exact H.
Defined.

Lemma schedule_settles_witness :
  ∃ k, k ∈ certificates sample_five ∧ renewal_due applied_m 9000000 k ∧
       ¬ renewal_due (schedule_due sample_io applied_m 9000000 (λ _, 9000001)) 9000000 k.
Proof.
  destruct kept_b as (k & _ & _ & Hid & Hk). exists k.
  destruct (schedule_settles sample_io sample_snapshot applied_m 9000000 (λ _, 9000001) sample_five k
    applied_reach ltac:(by vm_compute) ltac:(by vm_compute) Hk) as (_ & _ & H3).
  split_and!; [exact Hk| |apply H3; by vm_compute]. apply renewal_due_is_due.
  assert (Hd : existsb (λ k, bool_decide (cert_id k = lit "b") && is_due applied_m 9000000 k) (certificates sample_five) = true)
    by by vm_compute.
  apply List.existsb_exists in Hd as (k' & Hk'%list_elem_of_In & [He%bool_decide_eq_true Hd]%andb_true_iff).
  rewrite (cert_id_inj (certificates sample_five) k k'); [exact Hd| |exact Hk|exact Hk'|congruence].
  refine (bool_decide_unpack _ _). by vm_compute.
Defined.

Lemma panicked_task_wedges_witness :
  start_issue (handle sample_io (EJoin 0 None 0) ended_m) (lit "a") false =
  (Err (PRuntime "该证书正在申请中"), handle sample_io (EJoin 0 None 0) ended_m).
Proof.
  destruct ended_task as (t & Ht & Hr & Hid & Hg).
  assert (Ha : ∃ a, active ended_m !! lit "a" = Some a ∧ at_generation a = 1)
    by (eexists; split; [vm_compute; reflexivity|reflexivity]).
  destruct Ha as (a & Ha & Hag). rewrite <- Hid in Ha. assert (Hga : at_generation a = t_generation t) by congruence.
  destruct (panicked_task_wedges sample_io sample_snapshot ended_m 0%nat t a (handle sample_io (EJoin 0 None 0) ended_m)
    ended_reach ltac:(by vm_compute) Ht Hr Ha Hga (rtc_refl _ _)) as [H _].
  rewrite <- Hid. exact (H false).
Defined.

Lemma start_issue_spec_witness :
  issuance_permits applied_m = 4 ∧
  match start_issue applied_m (lit "b") false with
  | (Ok _, m') => issuance_permits m' + 1 = issuance_permits applied_m
  | (Err _, m') => active m' = active applied_m
  end.
Proof.
  split; [by vm_compute|]. destruct kept_b as (k & _ & _ & Hid & Hk).
  pose proof (start_issue_spec sample_io sample_snapshot applied_m sample_five k false applied_reach
    ltac:(by vm_compute) ltac:(by vm_compute) Hk) as H.
  cbv zeta in H. rewrite Hid in H.
  destruct (start_issue applied_m (lit "b") false) as [[|e] m']; [apply H|apply H].
Defined.

Lemma unpublished_failure_witness :
  due busy_m 9000000 = [lit "e"] ∧ failed_at (schedule_due sample_io busy_m 9000000 (λ _, 9000000)) (lit "e") ∧
  snapshot (schedule_due sample_io busy_m 9000000 (λ _, 9000000)) = snapshot busy_m.
Proof.
  assert (Hd : due busy_m 9000000 = [lit "e"]) by by vm_compute. split; [exact Hd|].
  destruct (unpublished_failure sample_io sample_snapshot busy_m 9000000 (λ _, 9000000) busy_reach ltac:(by vm_compute)) as [H1 H2].
  - assert (Hf : forallb (λ kv, negb (expirable 9000000 kv.2)) (map_to_list (statuses busy_m)) = true) by by vm_compute.
    intros id st Hst%elem_of_map_to_list%list_elem_of_In. rewrite List.forallb_forall in Hf.
    by apply Hf, negb_true_iff in Hst.
  - split; [apply H2; rewrite Hd; left|exact H1].
Defined.

Lemma retry_backoff_witness :
  can_retry applied_m (lit "a") = true ∧
  ∃ r, retry (fail_cert sample_io applied_m (lit "a") (PTls "x") 1000) !! lit "a" = Some r ∧
       1300 <= retry_at r <= 20259.
Proof.
  assert (Hc : can_retry applied_m (lit "a") = true) by by vm_compute. split; [exact Hc|].
  destruct (retry_backoff sample_io applied_m (lit "a") (PTls "x") 1000) as (_ & _ & H & _).
  destruct (H Hc) as (r & Hr & _ & Hb & _). exists r. split; [exact Hr|]. apply Hb. by vm_compute.
Defined.
