(* ===== verification/ConfigEdits.v ===== *)
(** * ConfigEdits: the editing operations of [gaterust-control/src/store.rs]

    Every operation of the administration API changes a configuration through
    one function, applied to what the file holds.  Here are these functions,
    the errors of the control plane ([error.rs]) and the default
    configurations; [ConfigStore] runs them against the file. *)

From S2P Require Import Prelude RustStr Net TunnelConfig ProxyConfig CertResolver.

(** ** Errors ([error.rs]) *)

Inductive ControlError :=
  | CReadConfig (path : Path) (source : ErrorKind)
  | CParseConfig (path : Path) (source : str)
  | CInvalidConfig (message : str)
  | ResourceNotFound (kind name : str)
  | ResourceConflict (message : str)
  | ReadRuntimeConfig (message : str)
  | WriteRuntimeConfig (message : str)
  | TunnelRuntimeApply (message : str)
  | ProxyRuntimeApply (message : str)
  | CWatch (source : str)
  | CBind (source : ErrorKind)
  | CServe (source : ErrorKind).
Notation CResult := (result ControlError).

Definition fmt_control_error (io : ErrorKind → str) (e : ControlError) : str :=
  match e with
  | CReadConfig p s => "读取控制平面配置 " ++ fmt_path p ++ " 失败: " ++ io s
  | CParseConfig p s => "解析控制平面配置 " ++ fmt_path p ++ " 失败: " ++ s
  | CInvalidConfig m => "控制平面配置无效: " ++ m
  | ResourceNotFound k n => k ++ "不存在: " ++ n
  | ResourceConflict m => m
  | ReadRuntimeConfig m => "读取运行配置失败: " ++ m
  | WriteRuntimeConfig m => "写入运行配置失败: " ++ m
  | TunnelRuntimeApply m => "配置已保存，但隧道运行时应用失败: " ++ m
  | ProxyRuntimeApply m => "配置已保存，但代理运行时应用失败: " ++ m
  | CWatch s => "启动配置文件监听失败: " ++ s
  | CBind s => "绑定 Web UI 地址失败: " ++ io s
  | CServe s => "Web UI 服务失败: " ++ io s
  end.

(** ** Lists of named resources *)

Definition resource_not_found (kind name : str) : ControlError := ResourceNotFound kind name.

(** [iter_mut().find(..)] followed by an assignment. *)
Fixpoint update_first {T} (p : T → bool) (f : T → T) (items : list T) : option (list T) :=
  match items with
  | [] => None
  | x :: rest => if p x then Some (f x :: rest) else cons x <$> update_first p f rest
  end.

Definition replace_named {T} (items : list T) (original_name : str) (replacement : T) (kind : str)
  (name : T → str) : CResult (list T) :=
  ok_or (update_first (λ x, bool_decide (name x = original_name)) (λ _, replacement) items)
        (resource_not_found kind original_name).

Definition remove_named {T} (items : list T) (target kind : str) (name : T → str) : CResult (list T) :=
  let kept := filter (λ x, name x ≠ target) items in
  _ ← reject_if (bool_decide (length kept = length items)) (resource_not_found kind target);
  Ok kept.

(** ** The tunnel configuration *)

Definition default_tunnel : ServerConfig :=
  {| quic := {| quic_bind := SockV4 (Build_Ipv4Addr 0 0 0 0) 2333;
                quic_certificate := [RootDir; Normal "etc"; Normal "gaterust"; Normal "tunnel"; Normal "server.pem"];
                quic_private_key := [RootDir; Normal "etc"; Normal "gaterust"; Normal "tunnel"; Normal "server-key.pem"] |};
     server_groups := []; server_tunnels := [] |}.

Definition with_groups (c : ServerConfig) (gs : list GroupConfig) : ServerConfig :=
  {| quic := quic c; server_groups := gs; server_tunnels := server_tunnels c |}.
Definition with_tunnels (c : ServerConfig) (ts : list ServerTunnelConfig) : ServerConfig :=
  {| quic := quic c; server_groups := server_groups c; server_tunnels := ts |}.
Definition with_group (t : ServerTunnelConfig) (g : str) : ServerTunnelConfig :=
  {| tunnel_name := tunnel_name t; tunnel_group := g; tunnel_kind := tunnel_kind t;
     tunnel_bind := tunnel_bind t; local_ip := local_ip t; local_port := local_port t;
     limit_bps := limit_bps t; TunnelConfig.max_connections := TunnelConfig.max_connections t;
     max_udp_sessions := max_udp_sessions t; udp_idle_seconds := udp_idle_seconds t |}.

Definition set_tunnel_quic (q : ServerQuicConfig) (c : ServerConfig) : CResult ServerConfig :=
  Ok {| quic := q; server_groups := server_groups c; server_tunnels := server_tunnels c |}.

Definition create_group (g : GroupConfig) (c : ServerConfig) : CResult ServerConfig :=
  Ok (with_groups c (server_groups c ++ [g])).

(** A renamed group takes its tunnels along. *)
Definition rename_tunnels (original new : str) (ts : list ServerTunnelConfig) : list ServerTunnelConfig :=
  (λ t, if bool_decide (tunnel_group t = original) then with_group t new else t) <$> ts.

Definition update_group (original_name : str) (g : GroupConfig) (c : ServerConfig) : CResult ServerConfig :=
  groups ← ok_or (update_first (λ x, bool_decide (group_name x = original_name)) (λ _, g) (server_groups c))
                 (resource_not_found "分组" original_name);
  let renamed := negb (bool_decide (original_name = group_name g)) in
  Ok {| quic := quic c; server_groups := groups;
        server_tunnels := if renamed then rename_tunnels original_name (group_name g) (server_tunnels c)
                          else server_tunnels c |}.

Definition delete_group (name : str) (c : ServerConfig) : CResult ServerConfig :=
  groups ← remove_named (server_groups c) name "分组" group_name;
  Ok {| quic := quic c; server_groups := groups;
        server_tunnels := filter (λ t, tunnel_group t ≠ name) (server_tunnels c) |}.

Definition create_tunnel (t : ServerTunnelConfig) (c : ServerConfig) : CResult ServerConfig :=
  Ok (with_tunnels c (server_tunnels c ++ [t])).
Definition update_tunnel_config (original_name : str) (t : ServerTunnelConfig) (c : ServerConfig)
  : CResult ServerConfig :=
  ts ← replace_named (server_tunnels c) original_name t "隧道" tunnel_name;
  Ok (with_tunnels c ts).
Definition delete_tunnel_config (name : str) (c : ServerConfig) : CResult ServerConfig :=
  ts ← remove_named (server_tunnels c) name "隧道" tunnel_name;
  Ok (with_tunnels c ts).

(** ** The proxy configuration *)

Record AcmeAccountRequest := {
  ar_id : str; ar_name : str; ar_provider : AcmeProvider; ar_environment : AcmeEnvironment;
  ar_email : str; ar_key_algorithm : KeyAlgorithm; ar_eab_key_id : option str; ar_eab_hmac_key : option str }.
Record DnsAccountRequest := {
  dr_id : str; dr_name : str; dr_provider : DnsProvider;
  dr_api_token : option str; dr_access_key : option str; dr_secret_key : option str }.

Definition default_proxy : ProxyConfig :=
  {| proxy := {| http_bind := SockV4 (Build_Ipv4Addr 0 0 0 0) 80; https_bind := SockV4 (Build_Ipv4Addr 0 0 0 0) 443;
                 cache_dir := [RootDir; Normal "var"; Normal "lib"; Normal "gaterust"; Normal "proxy"; Normal "acme"];
                 max_connections := 2048 |};
     acme_accounts := []; dns_accounts := []; certificates := []; routes := [] |}.

Definition acme_account_from_request (r : AcmeAccountRequest) : AcmeAccountConfig :=
  {| acme_id := ar_id r; acme_name := ar_name r; acme_provider := ar_provider r;
     acme_environment := ar_environment r; acme_email := ar_email r;
     acme_key_algorithm := ar_key_algorithm r; eab_key_id := ar_eab_key_id r;
     eab_hmac_key := Build_SecretString <$> ar_eab_hmac_key r |}.
Definition dns_account_from_request (r : DnsAccountRequest) : DnsAccountConfig :=
  {| dns_id := dr_id r; dns_name := dr_name r; dns_provider := dr_provider r;
     api_token := Build_SecretString <$> dr_api_token r; access_key := Build_SecretString <$> dr_access_key r;
     secret_key := Build_SecretString <$> dr_secret_key r |}.

Definition with_acme (c : ProxyConfig) (l : list AcmeAccountConfig) : ProxyConfig :=
  {| proxy := proxy c; acme_accounts := l; dns_accounts := dns_accounts c;
     certificates := certificates c; routes := routes c |}.
Definition with_dns (c : ProxyConfig) (l : list DnsAccountConfig) : ProxyConfig :=
  {| proxy := proxy c; acme_accounts := acme_accounts c; dns_accounts := l;
     certificates := certificates c; routes := routes c |}.
Definition with_certificates (c : ProxyConfig) (l : list CertificateConfig) : ProxyConfig :=
  {| proxy := proxy c; acme_accounts := acme_accounts c; dns_accounts := dns_accounts c;
     certificates := l; routes := routes c |}.
Definition with_routes (c : ProxyConfig) (l : list RouteConfig) : ProxyConfig :=
  {| proxy := proxy c; acme_accounts := acme_accounts c; dns_accounts := dns_accounts c;
     certificates := certificates c; routes := l |}.

Definition set_proxy_listener (l : ProxyListenerConfig) (c : ProxyConfig) : CResult ProxyConfig :=
  Ok {| proxy := l; acme_accounts := acme_accounts c; dns_accounts := dns_accounts c;
        certificates := certificates c; routes := routes c |}.

Definition create_acme_account (r : AcmeAccountRequest) (c : ProxyConfig) : CResult ProxyConfig :=
  Ok (with_acme c (acme_accounts c ++ [acme_account_from_request r])).

(** A Google account keeps its stored key when the request brings none. *)
Definition merge_acme (r : AcmeAccountRequest) (current : AcmeAccountConfig) : AcmeAccountConfig :=
  let new := acme_account_from_request r in
  if bool_decide (acme_provider new = GoogleCloud) && bool_decide (eab_hmac_key new = None)
     && bool_decide (acme_provider current = GoogleCloud)
  then {| acme_id := acme_id new; acme_name := acme_name new; acme_provider := acme_provider new;
          acme_environment := acme_environment new; acme_email := acme_email new;
          acme_key_algorithm := acme_key_algorithm new; eab_key_id := eab_key_id new;
          eab_hmac_key := eab_hmac_key current |}
  else new.

Definition update_acme_account (id : str) (r : AcmeAccountRequest) (c : ProxyConfig) : CResult ProxyConfig :=
  _ ← reject_if (negb (bool_decide (ar_id r = id))) (ResourceConflict "ACME 账户 ID 创建后不可修改");
  l ← ok_or (update_first (λ a, bool_decide (acme_id a = id)) (merge_acme r) (acme_accounts c))
            (resource_not_found "ACME 账户" id);
  Ok (with_acme c l).

Definition delete_acme_account (id : str) (c : ProxyConfig) : CResult ProxyConfig :=
  _ ← reject_if (existsb (λ k, bool_decide (acme_account_id k = id)) (certificates c))
        (ResourceConflict "ACME 账户仍被托管证书引用，不能删除");
  l ← remove_named (acme_accounts c) id "ACME 账户" acme_id;
  Ok (with_acme c l).

Definition create_dns_account (r : DnsAccountRequest) (c : ProxyConfig) : CResult ProxyConfig :=
  Ok (with_dns c (dns_accounts c ++ [dns_account_from_request r])).

(** Secrets the request does not bring stay, unless the provider changes. *)
Definition or_stored {A} (new stored : option A) : option A :=
  match new with Some x => Some x | None => stored end.
Definition merge_dns (r : DnsAccountRequest) (current : DnsAccountConfig) : DnsAccountConfig :=
  let new := dns_account_from_request r in
  if bool_decide (dns_provider new = dns_provider current)
  then {| dns_id := dns_id new; dns_name := dns_name new; dns_provider := dns_provider new;
          api_token := or_stored (api_token new) (api_token current);
          access_key := or_stored (access_key new) (access_key current);
          secret_key := or_stored (secret_key new) (secret_key current) |}
  else new.

Definition update_dns_account (id : str) (r : DnsAccountRequest) (c : ProxyConfig) : CResult ProxyConfig :=
  _ ← reject_if (negb (bool_decide (dr_id r = id))) (ResourceConflict "DNS 账户 ID 创建后不可修改");
  l ← ok_or (update_first (λ a, bool_decide (dns_id a = id)) (merge_dns r) (dns_accounts c))
            (resource_not_found "DNS 账户" id);
  Ok (with_dns c l).

Definition references_dns (id : str) (k : CertificateConfig) : bool :=
  match cert_validation k with Some (DnsAccount i) => bool_decide (i = id) | _ => false end.
Definition delete_dns_account (id : str) (c : ProxyConfig) : CResult ProxyConfig :=
  _ ← reject_if (existsb (references_dns id) (certificates c))
        (ResourceConflict "DNS 账户仍被托管证书引用，不能删除");
  l ← remove_named (dns_accounts c) id "DNS 账户" dns_id;
  Ok (with_dns c l).

(** The checks on a certificate request precede every access to the file. *)
Definition check_new_certificate (k : CertificateConfig) : CResult unit :=
  reject_if (configured (migration_error k)) (ResourceConflict "不能通过 API 创建待迁移证书").
Definition create_certificate (k : CertificateConfig) (c : ProxyConfig) : CResult ProxyConfig :=
  Ok (with_certificates c (certificates c ++ [k])).
Definition check_certificate_update (id : str) (k : CertificateConfig) : CResult unit :=
  _ ← reject_if (configured (migration_error k)) (ResourceConflict "不能通过 API 设置证书迁移状态");
  reject_if (negb (bool_decide (cert_id k = id))) (ResourceConflict "证书 ID 创建后不可修改").
Definition update_certificate (id : str) (k : CertificateConfig) (c : ProxyConfig) : CResult ProxyConfig :=
  l ← ok_or (update_first (λ x, bool_decide (cert_id x = id)) (λ _, k) (certificates c))
            (resource_not_found "证书" id);
  Ok (with_certificates c l).
Definition delete_certificate (id : str) (c : ProxyConfig) : CResult ProxyConfig :=
  _ ← reject_if (existsb (λ r, bool_decide (certificate_id r = Some id)) (routes c))
        (ResourceConflict "证书仍被域名路由引用，不能删除");
  l ← remove_named (certificates c) id "证书" cert_id;
  Ok (with_certificates c l).

Definition create_route (r : RouteConfig) (c : ProxyConfig) : CResult ProxyConfig :=
  Ok (with_routes c (routes c ++ [r])).
Definition update_route (original_name : str) (r : RouteConfig) (c : ProxyConfig) : CResult ProxyConfig :=
  l ← replace_named (routes c) original_name r "路由" route_name;
  Ok (with_routes c l).
Definition delete_route (name : str) (c : ProxyConfig) : CResult ProxyConfig :=
  l ← remove_named (routes c) name "路由" route_name;
  Ok (with_routes c l).

(** ** Lemmas *)

Lemma update_first_Some {T} (p : T → bool) (f : T → T) l l' :
  update_first p f l = Some l' ↔
  ∃ l1 x l2, l = l1 ++ x :: l2 ∧ p x = true ∧ Forall (λ y, p y = false) l1 ∧ l' = l1 ++ f x :: l2.
Proof.
  revert l'. induction l as [|y l IH]; intros l'; simpl.
  - split; [done|]. intros ([] & x & l2 & ? & _); simplify_list_eq.
  - destruct (p y) eqn:Hy.
    + split.
      * intros [= <-]. exists [], y, l. split_and!; try done.
      * intros ([|z l1] & x & l2 & E & Hx & Hf & ->); simplify_list_eq; [done|].
        inversion Hf; congruence.
    + destruct (update_first p f l) as [k|] eqn:E; simpl.
      * split.
        -- intros [= <-]. destruct (proj1 (IH k) eq_refl) as (l1 & x & l2 & -> & Hx & Hf & ->).
           exists (y :: l1), x, l2. split_and!; try done. by constructor.
        -- intros ([|z l1] & x & l2 & E1 & Hx & Hf & ->); simplify_list_eq; [congruence|].
           f_equal. assert (Some k = Some (l1 ++ f x :: l2)) as [= ->]; [|done]. apply IH.
           inversion Hf; subst. eauto 10.
      * split; [done|]. intros ([|z l1] & x & l2 & E1 & Hx & Hf & ->); simplify_list_eq; [congruence|].
        assert (None = Some (l1 ++ f x :: l2)) as [=]. apply IH. inversion Hf; subst. eauto 10.
Qed.

Lemma update_first_None {T} (p : T → bool) (f : T → T) l :
  update_first p f l = None ↔ Forall (λ y, p y = false) l.
Proof.
  induction l as [|y l IH]; simpl; [by split|]. destruct (p y) eqn:Hy.
  - split; [done|]. inversion 1; congruence.
  - rewrite fmap_None, IH, Forall_cons. naive_solver.
Qed.

(** Updating the only element with a name. *)
Lemma update_named {T} (name : T → str) (f : T → T) l x :
  NoDup (name <$> l) → x ∈ l → f x = x →
  update_first (λ y, bool_decide (name y = name x)) f l = Some l.
Proof.
  intros Hnd Hx Hf. apply list_elem_of_split in Hx as (l1 & l2 & ->). apply update_first_Some.
  exists l1, x, l2. rewrite bool_decide_true by done. split_and!; [done..| |by rewrite Hf].
  apply Forall_forall. intros y Hy. apply bool_decide_eq_false. intros He.
  rewrite fmap_app in Hnd. apply NoDup_app in Hnd as (_ & Hd & _).
  apply (Hd (name y)); [by apply list_elem_of_fmap_2|]. rewrite He, fmap_cons. left.
Qed.

Lemma remove_named_spec {T} (items : list T) target kind (name : T → str) :
  match remove_named items target kind name with
  | Ok l => target ∈ name <$> items ∧ l = filter (λ x, name x ≠ target) items
  | Err e => target ∉ name <$> items ∧ e = ResourceNotFound kind target
  end.
Proof.
  unfold remove_named. case_bool_decide as Hl; simpl.
  - split; [|done]. intros (x & -> & Hx)%list_elem_of_fmap.
    apply list_elem_of_split in Hx as (l1 & l2 & ->). rewrite filter_app, filter_cons_False in Hl by naive_solver.
    rewrite !length_app in Hl. simpl in Hl.
    pose proof (length_filter (λ y, name y ≠ name x) l1). pose proof (length_filter (λ y, name y ≠ name x) l2). lia.
  - split; [|done]. destruct (decide (target ∈ name <$> items)) as [|Hn]; [done|]. exfalso. apply Hl. f_equal.
    clear Hl. induction items as [|x l IH]; [done|]. rewrite fmap_cons, not_elem_of_cons in Hn.
    rewrite filter_cons_True by naive_solver. f_equal. apply IH. naive_solver.
Qed.

Lemma filter_sublist_mono {T} (P : T → Prop) `{∀ x, Decision (P x)} (l k : list T) :
  l `sublist_of` k → filter P l `sublist_of` filter P k.
Proof.
  induction 1 as [|x l k _ IH|x l k _ IH]; [done|..].
  - rewrite !filter_cons. case_decide; [by constructor|done].
  - rewrite filter_cons. case_decide; [by constructor|done].
Qed.

Lemma sublist_Forall {T} (P : T → Prop) l k : l `sublist_of` k → Forall P k → Forall P l.
Proof. induction 1; inversion 1; subst; auto. Qed.

Lemma sublist_NoDup_fmap {T B} (f : T → B) l k : l `sublist_of` k → NoDup (f <$> k) → NoDup (f <$> l).
Proof. intros Hs Hn. eapply sublist_NoDup; [exact Hn|]. by apply fmap_sublist. Qed.

Lemma sublist_len {T} (l k : list T) : l `sublist_of` k → len l <= len k.
Proof. intros Hs%sublist_length. unfold len. lia. Qed.

(** Dropping groups and tunnels keeps a configuration well-formed, as long as
    every tunnel keeps its group. *)
Lemma wf_server_sub c gs ts :
  wf_server c → gs `sublist_of` server_groups c → ts `sublist_of` server_tunnels c →
  Forall (λ t, tunnel_group t ∈ group_name <$> gs) ts →
  wf_server {| quic := quic c; server_groups := gs; server_tunnels := ts |}.
Proof.
  intros [H1 H2 H3 H4 H5 H6 H7 H8 H9 H10] Hg Ht Hr. split; cbn [server_groups server_tunnels].
  - pose proof (sublist_len _ _ Hg). lia.
  - pose proof (sublist_len _ _ Ht). lia.
  - by eapply sublist_Forall.
  - by eapply sublist_NoDup_fmap.
  - by eapply sublist_NoDup_fmap.
  - apply (sublist_Forall _ _ _ Ht) in H6. rewrite Forall_forall in *. intros t Hin.
    destruct (H6 t Hin) as (? & ? & _). auto.
  - by eapply sublist_NoDup_fmap.
  - intros g. etrans; [|apply (H8 g)]. by apply sublist_len, filter_sublist_mono.
  - eapply sublist_NoDup_fmap; [|exact H9]. by apply filter_sublist_mono.
  - eapply sublist_NoDup_fmap; [|exact H10]. by apply filter_sublist_mono.
Qed.

(** ** Theorems on the tunnel configuration *)

(** Deleting from a well-formed configuration gives a well-formed one. *)
Definition tunnel_deletion (c : ServerConfig) (gs : list GroupConfig) (ts : list ServerTunnelConfig)
  (present : Prop) (kind name : str) (r : CResult ServerConfig) : Prop :=
  match r with
  | Ok c' => present ∧ wf_server c' ∧ c' = {| quic := quic c; server_groups := gs; server_tunnels := ts |}
  | Err e => ¬ present ∧ e = ResourceNotFound kind name
  end.

(** In a well-formed tunnel configuration, deleting a group removes
    exactly this group and its tunnels, deleting a tunnel removes exactly it,
    and validation can never refuse the result; a name that is not there is
    reported as such. *)
Theorem tunnel_deletions_valid c name :
  wf_server c →
  tunnel_deletion c (filter (λ g, group_name g ≠ name) (server_groups c))
    (filter (λ t, tunnel_group t ≠ name) (server_tunnels c))
    (name ∈ group_name <$> server_groups c) "分组" name (delete_group name c) ∧
  tunnel_deletion c (server_groups c) (filter (λ t, tunnel_name t ≠ name) (server_tunnels c))
    (name ∈ tunnel_name <$> server_tunnels c) "隧道" name (delete_tunnel_config name c).
Proof.
  intros Hwf. pose proof (wf_tunnels c Hwf) as Ht. split.
  - unfold delete_group. pose proof (remove_named_spec (server_groups c) name "分组" group_name) as H.
    destruct (remove_named _ _ _ _) as [gs|e]; [|done]. destruct H as [Hin ->]. cbn [mbind result_bind].
    split; [done|]. split; [|done]. apply wf_server_sub; [done|apply sublist_filter..|].
    apply Forall_forall. intros t [Hne Hin']%list_elem_of_filter. rewrite Forall_forall in Ht.
    destruct (Ht t Hin') as (_ & _ & (g & Hg & Hgin)%list_elem_of_fmap). rewrite Hg.
    apply list_elem_of_fmap_2, list_elem_of_filter. split; [congruence|done].
  - unfold delete_tunnel_config. pose proof (remove_named_spec (server_tunnels c) name "隧道" tunnel_name) as H.
    destruct (remove_named _ _ _ _) as [ts|e]; [|done]. destruct H as [Hin ->]. cbn [mbind result_bind].
    split; [done|]. split; [|done]. apply wf_server_sub; [done|done|apply sublist_filter|].
    apply Forall_forall. intros t [_ Hin']%list_elem_of_filter. rewrite Forall_forall in Ht. by apply Ht.
Qed.

(** *** Renaming a group *)

Lemma rename_fmap {B} (f : ServerTunnelConfig → B) o n ts :
  (∀ t g, f (with_group t g) = f t) → f <$> rename_tunnels o n ts = f <$> ts.
Proof.
  intros Hf. unfold rename_tunnels. rewrite <- list_fmap_compose. apply list_fmap_ext. intros i t _.
  unfold compose. by case_bool_decide.
Qed.

Lemma rename_filter (P : ServerTunnelConfig → Prop) `{∀ t, Decision (P t)} o n ts :
  (∀ t g, P (with_group t g) ↔ P t) →
  filter P (rename_tunnels o n ts) = rename_tunnels o n (filter P ts).
Proof.
  intros HP. induction ts as [|t ts IH]; [done|]. unfold rename_tunnels in *. rewrite fmap_cons.
  set (u := if bool_decide (tunnel_group t = o) then with_group t n else t).
  assert (Hu : P u ↔ P t) by (unfold u; case_bool_decide; [apply HP|done]).
  destruct (decide (P t)) as [Ht|Ht].
  - rewrite !filter_cons_True by tauto. by rewrite fmap_cons, IH.
  - rewrite !filter_cons_False by tauto. exact IH.
Qed.

(** The tunnels of a group, when the new name was not in use. *)
Lemma rename_group_len o n g ts :
  o ≠ n → Forall (λ t, tunnel_group t ≠ n) ts →
  len (tunnels_of_group g (rename_tunnels o n ts)) =
  if decide (g = n) then len (tunnels_of_group o ts)
  else if decide (g = o) then 0 else len (tunnels_of_group g ts).
Proof.
  intros Hne. unfold tunnels_of_group, len. induction 1 as [|t ts Ht _ IH].
  - rewrite !filter_nil. by repeat case_decide.
  - unfold rename_tunnels in *. rewrite fmap_cons, !filter_cons. cbn [tunnel_group].
    case_bool_decide as Ho; cbn [tunnel_group with_group].
    + destruct (decide (g = n)) as [->|Hg].
      * rewrite decide_True by done. rewrite (decide_True (P := tunnel_group t = o)) by done. simpl. lia.
      * rewrite decide_False by done. destruct (decide (g = o)) as [->|Hgo]; [exact IH|].
        rewrite (decide_False (P := tunnel_group t = g)) by congruence. exact IH.
    + destruct (decide (g = n)) as [->|Hg].
      * rewrite decide_False by done. rewrite (decide_False (P := tunnel_group t = o)) by done. exact IH.
      * destruct (decide (g = o)) as [->|Hgo]; [by rewrite decide_False|].
        case_decide; simpl; lia.
Qed.

Lemma tunnel_fields_with_group t g : tunnel_fields_ok (with_group t g) ↔ tunnel_fields_ok t.
Proof. by split; intros []; split. Qed.

(** What the new description of a group must satisfy. *)
Definition group_fits (o : str) (g : GroupConfig) (c : ServerConfig) : Prop :=
  valid_name (group_name g) ∧ valid_group_key (group_key g) ∧
  ∀ x, x ∈ server_groups c → group_name x ≠ o → group_name x ≠ group_name g ∧ group_key x ≠ group_key g.

Lemma rename_same n ts : rename_tunnels n n ts = ts.
Proof.
  unfold rename_tunnels. induction ts as [|t ts IH]; [done|]. rewrite fmap_cons, IH. f_equal.
  case_bool_decide as Ht; [|done]. destruct t; unfold with_group; simpl in *. congruence.
Qed.

(** The state after an update, in terms of the position of the group. *)
Lemma update_group_inv o g c c' :
  update_group o g c = Ok c' →
  ∃ l1 x l2, server_groups c = l1 ++ x :: l2 ∧ group_name x = o ∧
    c' = {| quic := quic c; server_groups := l1 ++ g :: l2;
            server_tunnels := rename_tunnels o (group_name g) (server_tunnels c) |}.
Proof.
  unfold update_group. destruct (update_first _ _ _) as [gs|] eqn:E; cbn [ok_or mbind result_bind]; [|done].
  apply update_first_Some in E as (l1 & x & l2 & Hg & Hx & _ & ->). apply bool_decide_eq_true in Hx.
  intros [= <-]. exists l1, x, l2. split_and!; [done..|]. f_equal.
  case_bool_decide as Ho; simpl; [|done]. by rewrite Ho, rename_same.
Qed.

Lemma others_distinct {B} (f : GroupConfig → B) l1 x l2 g :
  NoDup (f <$> (l1 ++ x :: l2)) →
  NoDup (f <$> (l1 ++ g :: l2)) ↔ ∀ y, y ∈ l1 ++ l2 → f y ≠ f g.
Proof.
  intros Hn.
  assert (Hp : ∀ z, f <$> (l1 ++ z :: l2) ≡ₚ f z :: (f <$> (l1 ++ l2))).
  { intros z. by rewrite <- (Permutation_middle l1 l2 z), fmap_cons. }
  rewrite Hp in Hn |- *. apply NoDup_cons in Hn as [_ Hn]. rewrite NoDup_cons. split.
  - intros [Hg _] y Hy He. apply Hg. rewrite <- He. by apply list_elem_of_fmap_2.
  - intros Hy. split; [|done]. intros (y & He & Hin)%list_elem_of_fmap. by apply (Hy y Hin).
Qed.

Lemma names_middle {B} (f : GroupConfig → B) l1 x l2 n :
  n ∈ f <$> (l1 ++ x :: l2) ↔ n = f x ∨ n ∈ f <$> (l1 ++ l2).
Proof. rewrite <- (Permutation_middle l1 l2 x), fmap_cons, elem_of_cons. done. Qed.

Lemma renamed_tunnels_wf o g c l1 x l2 :
  wf_server c → server_groups c = l1 ++ x :: l2 → group_name x = o → group_fits o g c →
  let ts := rename_tunnels o (group_name g) (server_tunnels c) in
  Forall (λ t, valid_name (tunnel_name t) ∧ tunnel_fields_ok t ∧
               tunnel_group t ∈ group_name <$> (l1 ++ g :: l2)) ts ∧
  ∀ h, len (tunnels_of_group h ts) <= MAX_CLIENT_SERVICES.
Proof.
  intros Hwf Hg Hx (Hn & Hk & Hoth) ts. pose proof (wf_tunnels c Hwf) as Ht. rewrite Forall_forall in Ht. split.
  - unfold ts, rename_tunnels. apply Forall_fmap, Forall_forall. intros t Hin. unfold compose.
    destruct (Ht t Hin) as (H1 & H2 & H3). case_bool_decide as Ho.
    + rewrite tunnel_fields_with_group. split; [done|]. split; [done|]. apply names_middle. by left.
    + split_and!; [done..|]. rewrite Hg in H3. apply names_middle in H3 as [H3|H3]; [congruence|].
      apply names_middle. by right.
  - intros h. destruct (decide (o = group_name g)) as [He|Hne].
    + unfold ts. rewrite He, rename_same. apply (wf_per_group c Hwf).
    + unfold ts. rewrite rename_group_len; [|done|].
      * repeat case_decide; [apply (wf_per_group c Hwf)|by vm_compute|apply (wf_per_group c Hwf)].
      * apply Forall_forall. intros t Hin Heq. destruct (Ht t Hin) as (_ & _ & (y & Hy & Hyin)%list_elem_of_fmap).
        destruct (decide (group_name y = o)) as [Hyo|Hyo]; [congruence|].
        destruct (Hoth y Hyin Hyo) as [Hne' _]. congruence.
Qed.

(** Updating a group of a well-formed tunnel configuration replaces its
    description and, when it is renamed, moves exactly its tunnels along; the
    result is well-formed exactly when the new name and key are valid and no
    other group uses them, so no tunnel is ever orphaned by a renaming. *)
Theorem update_group_valid o g c :
  wf_server c →
  match update_group o g c with
  | Ok c' =>
      o ∈ group_name <$> server_groups c ∧ (wf_server c' ↔ group_fits o g c) ∧
      (group_name <$> server_groups c') = (λ n, if decide (n = o) then group_name g else n) <$> (group_name <$> server_groups c) ∧
      server_tunnels c' = rename_tunnels o (group_name g) (server_tunnels c) ∧ quic c' = quic c
  | Err e => o ∉ group_name <$> server_groups c ∧ e = ResourceNotFound "分组" o
  end.
Proof.
  intros Hwf. destruct (update_group o g c) as [c'|e] eqn:E.
  - apply update_group_inv in E as (l1 & x & l2 & Hg & Hx & ->). cbn [server_groups server_tunnels quic].
    pose proof (wf_group_names c Hwf) as Hnames. pose proof (wf_group_keys c Hwf) as Hkeys.
    rewrite Hg in Hnames, Hkeys.
    assert (Hne : ∀ y, y ∈ l1 ++ l2 → group_name y ≠ o).
    { intros y Hy He. rewrite <- (Permutation_middle l1 l2 x), fmap_cons in Hnames.
      apply NoDup_cons in Hnames as [Hn _]. apply Hn. rewrite Hx, <- He. by apply list_elem_of_fmap_2. }
    split_and!; try done.
    + rewrite Hg. apply names_middle. by left.
    + split.
      * intros [_ _ H3 H4 H5 _ _ _ _ _]. cbn [server_groups] in *.
        apply Forall_app in H3 as [_ [[Hn Hk] _]%Forall_cons]. split_and!; [done..|].
        intros y Hy Hyo. assert (Hy' : y ∈ l1 ++ l2).
        { rewrite Hg, <- (Permutation_middle l1 l2 x) in Hy. apply elem_of_cons in Hy as [->|Hy]; done. }
        split; [by apply (proj1 (others_distinct group_name l1 x l2 g Hnames))|].
        by apply (proj1 (others_distinct group_key l1 x l2 g Hkeys)).
      * intros Hfit. destruct (renamed_tunnels_wf o g c l1 x l2 Hwf Hg Hx Hfit) as [Ht1 Ht2].
        destruct Hfit as (Hn & Hk & Hoth). destruct Hwf as [H1 H2 H3 H4 H5 H6 H7 H8 H9 H10].
        assert (Hin : ∀ y, y ∈ l1 ++ l2 → y ∈ server_groups c) by (intros y Hy; rewrite Hg, <- (Permutation_middle l1 l2 x); by right).
        split; cbn [server_groups server_tunnels]; try done.
        -- revert H1. rewrite Hg. unfold len. by rewrite !length_app.
        -- unfold len in *. unfold rename_tunnels. by rewrite length_fmap.
        -- rewrite Hg in H3. rewrite Forall_app, Forall_cons in *. naive_solver.
        -- apply (others_distinct group_name l1 x l2 g Hnames). intros y Hy. apply Hoth; auto.
        -- apply (others_distinct group_key l1 x l2 g Hkeys). intros y Hy. apply Hoth; auto.
        -- by rewrite rename_fmap.
        -- unfold udp_tunnels. by rewrite rename_filter, rename_fmap.
        -- unfold stream_tunnels. by rewrite rename_filter, rename_fmap.
    + rewrite Hg, !fmap_app, !fmap_cons, decide_True by done. f_equal; [|f_equal];
        rewrite <- list_fmap_compose; apply list_fmap_ext; intros i y Hy; unfold compose;
        rewrite decide_False; try done; apply Hne, elem_of_app;
        [left|right]; by eapply list_elem_of_lookup_2.
  - unfold update_group in E. destruct (update_first _ _ _) as [gs|] eqn:Ef; [done|].
    injection E as <-. split; [|done]. apply update_first_None in Ef. rewrite Forall_forall in Ef.
    intros (y & -> & Hy)%list_elem_of_fmap. specialize (Ef y Hy). cbn in Ef. by rewrite bool_decide_eq_false in Ef.
Qed.

(** ** Theorems on the proxy configuration *)

Lemma sublist_concat {T B} (g : T → list B) l k :
  l `sublist_of` k → concat (g <$> l) `sublist_of` concat (g <$> k).
Proof.
  induction 1 as [|x l k _ IH|x l k _ IH]; [done|..]; rewrite !fmap_cons; cbn [concat].
  - by apply sublist_app.
  - by apply sublist_inserts_l.
Qed.

Lemma accounts_ok_sub {T} (aid aname : T → str) ok l k :
  l `sublist_of` k → accounts_ok aid aname ok k → accounts_ok aid aname ok l.
Proof.
  intros Hs []. split; first [by eapply sublist_Forall|by eapply sublist_NoDup_fmap].
Qed.

Lemma certs_ok_sub a d a' d' l k :
  l `sublist_of` k → certs_ok a d k → Forall (refs_ok a' d') l → certs_ok a' d' l.
Proof.
  intros Hs [H1 H2 H3 H4 _ H6 H7] Hr. split; try done;
    try by (eapply sublist_Forall + eapply sublist_NoDup_fmap).
  eapply sublist_NoDup; [exact H7|]. by apply sublist_concat.
Qed.

Lemma normal_filter {T} (f : T → T) (P : T → Prop) `{∀ x, Decision (P x)} (l : list T) :
  f <$> l = l → f <$> filter P l = filter P l.
Proof.
  intros Hl. assert (Hx : ∀ x, x ∈ l → f x = x).
  { intros x [i Hi]%list_elem_of_lookup. pose proof (f_equal (λ k, k !! i) Hl) as E. cbn in E.
    rewrite list_lookup_fmap, Hi in E. simpl in E. congruence. }
  rewrite <- (list_fmap_id (filter P l)) at 2. apply list_fmap_ext. intros i x Hi.
  apply Hx. apply list_elem_of_lookup_2 in Hi. by apply list_elem_of_filter in Hi as [_ Hi].
Qed.

Section proxy_edits.
Context `{UriLib}.

Lemma routes_ok_sub certs certs' l k :
  l `sublist_of` k → routes_ok certs k → Forall (route_ref_ok certs') l → routes_ok certs' l.
Proof.
  intros Hs [] Hr. split; try done; by (eapply sublist_Forall + eapply sublist_NoDup_fmap).
Qed.

Lemma validated_iff c : ProxyConfig_validate c = Ok c ↔ wf_proxy c ∧ normalise c = c.
Proof. rewrite ProxyConfig_validate_ok. naive_solver. Qed.

Lemma normalise_fixed c :
  normalise c = c ↔ norm_cert <$> certificates c = certificates c ∧ norm_route <$> routes c = routes c.
Proof.
  unfold normalise. split.
  - intros E. split; [exact (f_equal certificates E)|exact (f_equal routes E)].
  - intros [-> ->]. by destruct c.
Qed.

(** Removing a certificate leaves the owner of a host that is another one. *)
Lemma host_owner_filter (l : list CertificateConfig) id host i :
  NoDup (concat (domains_of <$> l)) → i ≠ id → host_owner (owners_of l) host = Some i →
  host_owner (owners_of (filter (λ k, cert_id k ≠ id) l)) host = Some i.
Proof.
  intros Hnd Hne.
  assert (Hnd' : NoDup (concat (domains_of <$> filter (λ k, cert_id k ≠ id) l))).
  { eapply sublist_NoDup; [exact Hnd|]. apply sublist_concat, sublist_filter. }
  assert (Hl : ∀ d j, owners_of (filter (λ k, cert_id k ≠ id) l) !! d = Some j ↔
                      owners_of l !! d = Some j ∧ j ≠ id).
  { intros d j. rewrite !owners_of_lookup by done. setoid_rewrite list_elem_of_filter. naive_solver. }
  unfold host_owner. destruct (owners_of l !! host) as [j|] eqn:Ej.
  - intros [= ->]. by rewrite (proj2 (Hl host i)).
  - destruct (owners_of (filter _ l) !! host) as [j|] eqn:Ej'; [apply Hl in Ej' as [? _]; congruence|].
    destruct (split_once _ host) as [[label suffix]|]; [|done]. cbn. intros Hs. by apply Hl.
Qed.

(** Rebuilding well-formedness after resources have been removed. *)
Lemma shrunk_valid c a d ks rs :
  ProxyConfig_validate c = Ok c →
  a `sublist_of` acme_accounts c → d `sublist_of` dns_accounts c →
  ks `sublist_of` certificates c → rs `sublist_of` routes c →
  norm_cert <$> ks = ks → norm_route <$> rs = rs →
  Forall (refs_ok (acme_id <$> a) (dns_id <$> d)) ks → Forall (route_ref_ok ks) rs →
  let c' := {| proxy := proxy c; acme_accounts := a; dns_accounts := d; certificates := ks; routes := rs |} in
  ProxyConfig_validate c' = Ok c'.
Proof.
  intros [Hwf _]%validated_iff Ha Hd Hk Hr Hnk Hnr Hrefs Hroutes c'. apply validated_iff. split.
  - destruct Hwf as [H1 H2 (S1 & S2 & S3 & S4) H4 H5 H6 H7]. split; cbn; try done.
    + pose proof (sublist_len _ _ Ha). pose proof (sublist_len _ _ Hd).
      pose proof (sublist_len _ _ Hk). pose proof (sublist_len _ _ Hr). lia.
    + by eapply accounts_ok_sub.
    + by eapply accounts_ok_sub.
    + by eapply certs_ok_sub.
    + by eapply routes_ok_sub.
  - by apply normalise_fixed.
Qed.

(** A deletion: refused when referenced or absent, and otherwise exact and
    never refused by validation. *)
Definition proxy_deletion {T} (items : ProxyConfig → list T) (name : T → str) (referenced : Prop)
  (conflict kind id : str) (c : ProxyConfig) (r : CResult ProxyConfig) : Prop :=
  match r with
  | Ok c' => ¬ referenced ∧ id ∈ name <$> items c ∧ ProxyConfig_validate c' = Ok c' ∧
             items c' = filter (λ x, name x ≠ id) (items c)
  | Err e => referenced ∧ e = ResourceConflict conflict ∨
             ¬ referenced ∧ id ∉ name <$> items c ∧ e = ResourceNotFound kind id
  end.

Lemma deletion_cases {T} (items : ProxyConfig → list T) name (referenced : Prop) (used : bool) conflict kind id c
  (wrap : list T → ProxyConfig) :
  (used = true ↔ referenced) →
  (¬ referenced → ProxyConfig_validate (wrap (filter (λ x, name x ≠ id) (items c))) =
                  Ok (wrap (filter (λ x, name x ≠ id) (items c)))) →
  (∀ l, items (wrap l) = l) →
  proxy_deletion items name referenced conflict kind id c
    (_ ← reject_if used (ResourceConflict conflict);
     l ← remove_named (items c) id kind name;
     Ok (wrap l)).
Proof.
  intros Hu Hv Hw. unfold reject_if. destruct used; cbn [mbind result_bind]; [left; tauto|].
  assert (Hn : ¬ referenced) by (rewrite <- Hu; done).
  pose proof (remove_named_spec (items c) id kind name) as Hr.
  destruct (remove_named (items c) id kind name) as [l|e]; cbn [mbind result_bind]; [|right; tauto].
  destruct Hr as [Hin ->]. cbn. split_and!; auto.
Qed.

Lemma existsb_true {T} (f : T → bool) l : existsb f l = true ↔ ∃ x, x ∈ l ∧ f x = true.
Proof. rewrite List.existsb_exists. by setoid_rewrite list_elem_of_In. Qed.

(** In a valid proxy configuration, an ACME account, a DNS account or a
    certificate that is still referenced cannot be deleted, an absent one is
    reported, and otherwise exactly the named resource disappears and
    validation never refuses the result; a route can always be deleted.  So
    no sequence of deletions leaves a dangling reference or gets stuck. *)
Theorem proxy_deletions_valid c id :
  ProxyConfig_validate c = Ok c →
  proxy_deletion acme_accounts acme_id (∃ k, k ∈ certificates c ∧ acme_account_id k = id)
    "ACME 账户仍被托管证书引用，不能删除" "ACME 账户" id c (delete_acme_account id c) ∧
  proxy_deletion dns_accounts dns_id (∃ k, k ∈ certificates c ∧ cert_validation k = Some (DnsAccount id))
    "DNS 账户仍被托管证书引用，不能删除" "DNS 账户" id c (delete_dns_account id c) ∧
  proxy_deletion certificates cert_id (∃ r, r ∈ routes c ∧ certificate_id r = Some id)
    "证书仍被域名路由引用，不能删除" "证书" id c (delete_certificate id c) ∧
  proxy_deletion routes route_name False [] "路由" id c (delete_route id c).
Proof.
  intros Hv. destruct (proj1 (validated_iff c) Hv) as [Hwf [Hnk Hnr]%normalise_fixed].
  pose proof (cert_refs _ _ _ (wf_certs c Hwf)) as Hrefs. pose proof (route_refs _ _ (wf_routes c Hwf)) as Hroutes.
  rewrite Forall_forall in Hrefs. rewrite Forall_forall in Hroutes. split_and!.
  - apply (deletion_cases _ _ _ _ _ _ _ _ (with_acme c)); [|intros Hno|done].
    { rewrite existsb_true. by setoid_rewrite bool_decide_eq_true. }
    apply shrunk_valid; try done; [apply sublist_filter|apply Forall_forall..]; [|done].
    intros k Hk. destruct (Hrefs k Hk) as ((x & Hx & Hin)%list_elem_of_fmap & H2 & H3). split; [|done].
    rewrite Hx. apply list_elem_of_fmap_2, list_elem_of_filter. split; [|done]. intros He. apply Hno.
    exists k. split; [done|congruence].
  - apply (deletion_cases _ _ _ _ _ _ _ _ (with_dns c)); [|intros Hno|done].
    { rewrite existsb_true. unfold references_dns. split; intros (k & Hk & E); exists k; (split; [done|]).
      - destruct (cert_validation k) as [[i|]|]; try done. by apply bool_decide_eq_true in E as ->.
      - by rewrite E, bool_decide_true. }
    apply shrunk_valid; try done; [apply sublist_filter|apply Forall_forall..]; [|done].
    intros k Hk. destruct (Hrefs k Hk) as (H1 & H2 & H3). split; [done|]. split; [|done].
    destruct (cert_validation k) as [[i|]|] eqn:E; try done.
    apply list_elem_of_fmap in H2 as (x & -> & Hin). apply list_elem_of_fmap_2, list_elem_of_filter.
    split; [|done]. intros He. apply Hno. exists k. split; [done|congruence].
  - apply (deletion_cases _ _ _ _ _ _ _ _ (with_certificates c)); [|intros Hno|done].
    { rewrite existsb_true. by setoid_rewrite bool_decide_eq_true. }
    apply shrunk_valid; try done; [apply sublist_filter|by apply normal_filter|apply Forall_forall..].
    + intros k [_ Hk]%list_elem_of_filter. by apply Hrefs.
    + intros r Hr i Hi. destruct (Hroutes r Hr i Hi) as [H1 H2]. assert (i ≠ id) by (intros ->; eauto). split.
      * apply list_elem_of_fmap in H1 as (k & -> & Hk). by apply list_elem_of_fmap_2, list_elem_of_filter.
      * apply host_owner_filter; [apply (wf_certs c Hwf)|done..].
  - unfold delete_route. pose proof (remove_named_spec (routes c) id "路由" route_name) as Hr.
    destruct (remove_named _ _ _ _) as [l|e]; cbn [mbind result_bind]; [|right; tauto].
    destruct Hr as [Hin ->]. cbn. split_and!; try tauto.
    apply shrunk_valid; try done; [apply sublist_filter|by apply normal_filter|apply Forall_forall..].
    + done.
    + intros r [_ Hr]%list_elem_of_filter. by apply Hroutes.
Qed.

(** *** Secrets *)

(** The request a client makes of what the API shows it: the view holds no
    secret, so neither does the request. *)
Definition request_of_acme_view (v : AcmeAccountView) : AcmeAccountRequest :=
  {| ar_id := av_id v; ar_name := av_name v; ar_provider := av_provider v; ar_environment := av_environment v;
     ar_email := av_email v; ar_key_algorithm := av_key_algorithm v; ar_eab_key_id := av_eab_key_id v;
     ar_eab_hmac_key := None |}.
Definition request_of_dns_view (v : DnsAccountView) : DnsAccountRequest :=
  {| dr_id := dv_id v; dr_name := dv_name v; dr_provider := dv_provider v;
     dr_api_token := None; dr_access_key := None; dr_secret_key := None |}.

(** The API never shows a secret, and sending an account back the way it
    was shown changes nothing: the stored secrets are kept.  When the provider
    of an account changes, none of its old secrets survives. *)
Theorem resubmission_keeps_secrets c :
  ProxyConfig_validate c = Ok c →
  (∀ a, a ∈ acme_accounts c →
     update_acme_account (acme_id a) (request_of_acme_view (acme_view a)) c = Ok c) ∧
  (∀ a, a ∈ dns_accounts c →
     update_dns_account (dns_id a) (request_of_dns_view (dns_view a)) c = Ok c) ∧
  (∀ a r, dr_provider r ≠ dns_provider a → merge_dns r a = dns_account_from_request r) ∧
  (∀ a r, ar_provider r ≠ acme_provider a → merge_acme r a = acme_account_from_request r).
Proof.
  intros [Hwf _]%validated_iff. split_and!.
  - intros a Ha. unfold update_acme_account. cbn [ar_id request_of_acme_view av_id acme_view].
    rewrite bool_decide_true by done. cbn [negb reject_if mbind result_bind].
    pose proof (each_ok _ _ _ _ (wf_acme c Hwf)) as Hok. rewrite Forall_forall in Hok.
    rewrite update_named; [by destruct c|apply (wf_acme c Hwf)|done|].
    unfold merge_acme. cbn. destruct (Hok a Ha) as [_ Hp]. destruct a as [i n [|] e m k ki kh]; simpl in *.
    + destruct Hp as [-> ->]. done.
    + done.
  - intros a Ha. unfold update_dns_account. cbn [dr_id request_of_dns_view dv_id dns_view].
    rewrite bool_decide_true by done. cbn [negb reject_if mbind result_bind].
    rewrite update_named; [by destruct c|apply (wf_dns c Hwf)|done|].
    unfold merge_dns. cbn. rewrite bool_decide_true by done. by destruct a.
  - intros a r Hne. unfold merge_dns. by rewrite bool_decide_false.
  - intros a r Hne. unfold merge_acme. cbn. repeat case_bool_decide; try done. congruence.
Qed.
End proxy_edits.

(** ** Witnesses *)

Definition sample_tunnel (name group : str) (port : N) : ServerTunnelConfig :=
  {| tunnel_name := name; tunnel_group := group; tunnel_kind := Tcp;
     tunnel_bind := SockV4 (Build_Ipv4Addr 127 0 0 1) port; local_ip := "localhost"; local_port := Some 22;
     limit_bps := None; TunnelConfig.max_connections := 8; max_udp_sessions := 8; udp_idle_seconds := 30 |}.
Definition sample_server : ServerConfig :=
  {| quic := quic default_tunnel;
     server_groups := [{| group_name := "office"; group_key := "AAAAAAAAAAAAAAAAAAAAAAAAAAAAAAAA" |};
                       {| group_name := "home"; group_key := "BBBBBBBBBBBBBBBBBBBBBBBBBBBBBBBB" |}];
     server_tunnels := [sample_tunnel "ssh" "office" 22022; sample_tunnel "web" "home" 8080] |}.

Lemma sample_server_wf : wf_server sample_server.
Proof. apply server_validate_iff. by vm_compute. Qed.

Lemma tunnel_deletions_valid_witness :
  match delete_group "office" sample_server with
  | Ok c' => wf_server c' ∧ length (server_tunnels c') = 1%nat
  | Err _ => False
  end.
Proof.
  pose proof (proj1 (tunnel_deletions_valid sample_server "office" sample_server_wf)) as H.
  destruct (delete_group "office" sample_server) as [c'|e].
  - destruct H as (_ & Hwf & ->). split; [exact Hwf|]. vm_compute. reflexivity.
  - destruct H as [H _]. apply H. vm_compute. left.
Defined.

Lemma update_group_valid_witness :
  match update_group "office" {| group_name := "lab"; group_key := "CCCCCCCCCCCCCCCCCCCCCCCCCCCCCCCC" |} sample_server with
  | Ok c' => tunnel_group <$> server_tunnels c' = [lit "lab"; lit "home"]
  | Err _ => False
  end.
Proof.
  pose proof (update_group_valid "office" {| group_name := "lab"; group_key := "CCCCCCCCCCCCCCCCCCCCCCCCCCCCCCCC" |}
    sample_server sample_server_wf) as H.
  destruct (update_group _ _ _) as [c'|e].
  - destruct H as (_ & _ & _ & -> & _). vm_compute. reflexivity.
  - destruct H as [H _]. apply H. vm_compute. left.
Defined.

Lemma proxy_deletions_valid_witness :
  delete_acme_account "acme-main" sample_loaded = Err (ResourceConflict "ACME 账户仍被托管证书引用，不能删除") ∧
  proxy_deletion (H := sample_uri) certificates cert_id (∃ r, r ∈ routes sample_loaded ∧ certificate_id r = Some (lit "main"))
    "证书仍被域名路由引用，不能删除" "证书" "main" sample_loaded (delete_certificate "main" sample_loaded).
Proof.
  split; [by vm_compute|].
  destruct (@proxy_deletions_valid sample_uri sample_loaded "main" ltac:(by vm_compute)) as (_ & _ & H & _).
  exact H.
Defined.

Lemma resubmission_keeps_secrets_witness :
  ∃ a, dns_accounts sample_loaded = [a] ∧ api_token a = Some (Build_SecretString "t") ∧
       update_dns_account (dns_id a) (request_of_dns_view (dns_view a)) sample_loaded = Ok sample_loaded.
Proof.
  assert (E : ∃ a, dns_accounts sample_loaded = [a] ∧ api_token a = Some (Build_SecretString "t")).
  { eexists. split; vm_compute; reflexivity. }
  destruct E as (a & E & Ht). exists a. split; [exact E|]. split; [exact Ht|].
  destruct (@resubmission_keeps_secrets sample_uri sample_loaded ltac:(by vm_compute)) as (_ & H & _).
  apply H. rewrite E. left.
Defined.
