(* ===== verification/ConfigStore.v ===== *)
(** * ConfigStore: [ConfigStore] of [gaterust-control/src/store.rs]

    The store edits the configuration files of the tunnel and of the proxy,
    one edit at a time for each ([Semaphore::new(1)]), and publishes what they
    hold.  An edit reads the file, changes the configuration ([ConfigEdits]),
    writes it to a temporary file, reads it back with full validation and
    renames it into place.  The disk is that of [Disk]: any call can fail, and
    the process can die during any of them. *)

From S2P Require Import Prelude RustStr Net Paths Disk TunnelConfig ConfigFiles ProxyConfig ConfigEdits.

Section edit.
Context {H : Host}.
(** [Display] of an I/O error. *)
Context (io : ErrorKind → str).

#[local] Instance write_from_io : FromIo ControlError := λ e, WriteRuntimeConfig (io e).
#[local] Notation IO := (IO ControlError).

(** ** One configuration file *)

(** The configuration type, its TOML writer, and its reader with validation;
    the message of a reading error may name the path.  [resolve] is what
    [load] does beyond [read]: it makes relative paths absolute. *)
Context {T : Type} (encode : T → result str str) (decode : str → result (Path → str) T)
  (read_error : Path → ErrorKind → str) (resolve : Path → T → T) (initial : T).

Definition load_optional (path : Path) : IO (option T) :=
  r ← fs_read path;
  match r with
  | Ok content => match decode content with
                  | Ok config => mret (Some config)
                  | Err message => io_err (ReadRuntimeConfig (message path))
                  end
  | Err NotFound => mret None
  | Err e => io_err (ReadRuntimeConfig (read_error path e))
  end.

(** [read] and [load], with the error constructor of their caller. *)
Definition read_config (wrap : str → ControlError) (path : Path) : IO T :=
  r ← fs_read path;
  match r with
  | Ok content => io_result (map_err (λ message, wrap (message path)) (decode content))
  | Err e => io_err (wrap (read_error path e))
  end.

Definition temporary_file (path : Path) (nonce : str) : Path :=
  path_join (default [CurDir] (path_parent path))
    [Normal ("." ++ default (lit "config") (path_file_name path) ++ "." ++ nonce ++ ".tmp")].

(** [nonce]: the sixteen random hexadecimal digits. *)
Definition write_validated (path : Path) (config : T) (nonce : str) : IO T :=
  content ← io_result (map_err WriteRuntimeConfig (encode config));
  _ ← create_dir_all (default [CurDir] (path_parent path));
  let temporary := temporary_file path nonce in
  or_remove
    (_ ← fs_create_new temporary;
     _ ← fs_write temporary content;
     stored ← read_config WriteRuntimeConfig temporary;
     _ ← fs_rename temporary path;
     _ ← syscall id id;
     mret stored) temporary.

(** What runs on the blocking thread: the stored configuration and the one
    the runtime will load. *)
Definition edit_file (path : Path) (edit : T → CResult T) (nonce : str) : IO (T * T) :=
  current ← load_optional path;
  edited ← io_result (edit (default initial current));
  stored ← write_validated path edited nonce;
  runtime_config ← read_config ReadRuntimeConfig path;
  mret (stored, resolve path runtime_config).

(** ** What an edit does to the files *)

(** A temporary file of the store, by its name. *)
Definition store_temporary (q : Path) : Prop :=
  ∃ n, path_file_name q = Some (n ++ lit ".tmp").

Lemma temporary_file_temporary path nonce : store_temporary (temporary_file path nonce).
Proof.
  unfold temporary_file, store_temporary. exists ("." ++ default (lit "config") (path_file_name path) ++ "." ++ nonce).
  cbn [path_join]. unfold path_file_name at 1. rewrite last_snoc. f_equal. by rewrite !(assoc_L (++)).
Qed.

Lemma fs_read_inv p d o d' :
  fs_read (Er := ControlError) p d = (o, d') → files d' = files d ∧
  (o = Done (ok_or (files d !! p) NotFound) ∨ (∃ e, o = Done (Err e)) ∨ o = Crashed).
Proof. unfold fs_read. destruct (sys (calls d)); intros [= <- <-]; cbn; eauto. Qed.

Lemma read_config_inv wrap p d o d' :
  read_config wrap p d = (o, d') → files d' = files d ∧
  match o with
  | Done c => ∃ s, files d !! p = Some s ∧ decode s = Ok c
  | Failed e => ∃ m, e = wrap m
  | Crashed => True
  end.
Proof.
  intros [(r & d1 & E1 & E)|[(e & E1 & ->)|[E1 ->]]]%io_bind_inv;
    apply fs_read_inv in E1 as [Hf Ho]; [|destruct Ho as [?|[[? ?]|?]]; done|done].
  destruct Ho as [[= ->]|[[e [= ->]]|?]]; [|injection E as <- <-; eauto|done].
  destruct (files d !! p) as [s|] eqn:Hs; cbn [ok_or] in E; [|injection E as <- <-; eauto].
  apply io_result_inv in E as [-> ->]. split; [done|].
  destruct (decode s) as [c|m] eqn:Hd; cbn; eauto.
Qed.

Lemma load_optional_inv p d o d' :
  load_optional p d = (o, d') → files d' = files d ∧
  match o with
  | Done (Some c) => ∃ s, files d !! p = Some s ∧ decode s = Ok c
  | Failed e => ∃ m, e = ReadRuntimeConfig m
  | _ => True
  end.
Proof.
  intros [(r & d1 & E1 & E)|[(e & E1 & ->)|[E1 ->]]]%io_bind_inv;
    apply fs_read_inv in E1 as [Hf Ho]; [|destruct Ho as [?|[[? ?]|?]]; done|done].
  destruct Ho as [[= ->]|[[e [= ->]]|?]]; [| |done].
  - destruct (files d !! p) as [s|] eqn:Hs; cbn [ok_or] in E; [|by injection E as <- <-].
    destruct (decode s) as [c|m] eqn:Hd; injection E as <- <-; eauto.
  - destruct e; injection E as <- <-; eauto.
Qed.

(** Only the temporary file may differ. *)
Definition same_but (ps : list Path) (d d' : disk) : Prop := ∀ q, q ∉ ps → files d' !! q = files d !! q.

Lemma same_but_trans ps d1 d2 d3 : same_but ps d1 d2 → same_but ps d2 d3 → same_but ps d1 d3.
Proof. intros H1 H2 q Hq. by rewrite H2, H1. Qed.
Lemma same_but_files ps d d' : files d' = files d → same_but ps d d'.
Proof. intros E q _. by rewrite E. Qed.
Lemma same_but_mono ps ps' d d' : ps ⊆ ps' → same_but ps d d' → same_but ps' d d'.
Proof. intros Hs Hd q Hq. apply Hd. set_solver. Qed.

Lemma fs_create_new_inv p d o d' : fs_create_new (Er := ControlError) p d = (o, d') → same_but [p] d d'.
Proof.
  unfold fs_create_new, syscall. case_bool_decide; [by intros [= <- <-]|].
  destruct (sys (calls d)) as [| |[]]; intros [= <- <-] q Hq; cbn; try done;
    rewrite lookup_insert_ne; set_solver.
Qed.

(** The new content is in place. *)
Definition replaced (path : Path) (config : T) (d' : disk) (stored : T) : Prop :=
  ∃ s, encode config = Ok s ∧ decode s = Ok stored ∧ files d' !! path = Some s.

Lemma failure_kind e : ∃ m, from_io (FromIo := write_from_io) e = WriteRuntimeConfig m.
Proof. by exists (io e). Qed.

Lemma syscall_failed ef un d e d' : syscall (F := write_from_io) ef un d = (Failed e, d') → ∃ m, e = WriteRuntimeConfig m.
Proof. unfold syscall. destruct (sys (calls d)); intros [= <- _]. apply failure_kind. Qed.

(** A step that only touches the temporary file and fails as a write. *)
Definition write_failure {A} (o : outcome ControlError A) : Prop :=
  (∀ a, o ≠ Done a) ∧ ∀ e, o = Failed e → ∃ m, e = WriteRuntimeConfig m.
Definition only_temp {A} (t : Path) (m : IO A) : Prop :=
  ∀ d o d', m d = (o, d') → same_but [t] d d' ∧ ∀ e, o = Failed e → ∃ m, e = WriteRuntimeConfig m.

Lemma only_temp_bind {A B} t (m : IO A) (k : A → IO B) d o d' :
  only_temp t m → (m ≫= k) d = (o, d') →
  (same_but [t] d d' ∧ write_failure o) ∨
  ∃ a d1, m d = (Done a, d1) ∧ same_but [t] d d1 ∧ k a d1 = (o, d').
Proof.
  intros Hm [(a & d1 & E1 & E)|[(e & E1 & ->)|[E1 ->]]]%io_bind_inv.
  - right. exists a, d1. split_and!; [done|apply (Hm _ _ _ E1)|done].
  - left. destruct (Hm _ _ _ E1) as [Hs He]. split; [done|]. split; [done|]. intros e' [= <-]. by apply He.
  - left. destruct (Hm _ _ _ E1) as [Hs _]. split; [done|]. by split.
Qed.

Lemma create_only_temp t : only_temp t (fs_create_new t).
Proof.
  intros d o d' E. split; [by eapply fs_create_new_inv|]. intros e ->. unfold fs_create_new in E.
  case_bool_decide; [injection E as <- _; apply failure_kind|by eapply syscall_failed].
Qed.
Lemma write_only_temp t c : only_temp t (fs_write t c).
Proof.
  intros d o d' E. split.
  - destruct (fs_write_inv _ _ _ _ _ E) as [Hw _]. intros q Hq. apply Hw. set_solver.
  - intros e ->. by eapply syscall_failed.
Qed.
Lemma read_only_temp t : only_temp t (read_config WriteRuntimeConfig t).
Proof.
  intros d o d' E. destruct (read_config_inv _ _ _ _ _ E) as [Hf Ho]. split; [by apply same_but_files|].
  intros e ->. exact Ho.
Qed.

(** What replacing the file may come to. *)
Definition write_end (path t : Path) (config : T) (d d' : disk) (o : outcome ControlError T) : Prop :=
  same_but [path; t] d d' ∧
  match o with
  | Done c => replaced path config d' c
  | _ => files d' !! path = files d !! path ∨ ∃ c, replaced path config d' c
  end ∧ ∀ e, o = Failed e → ∃ m, e = WriteRuntimeConfig m.

Lemma write_end_early path t config d d' (o : outcome ControlError T) :
  path ≠ t → same_but [t] d d' → write_failure o → write_end path t config d d' o.
Proof.
  intros Hne Hs [Hn He]. split; [eapply same_but_mono; [|exact Hs]; set_solver|]. split; [|done].
  assert (files d' !! path = files d !! path) by (apply Hs; by rewrite list_elem_of_singleton).
  destruct o; [by destruct (Hn a)|by left..].
Qed.

(** The steps after the directory exists, up to the clean-up. *)
Lemma replace_steps path t config content d o d' :
  encode config = Ok content → path ≠ t →
  (_ ← fs_create_new t; _ ← fs_write t content; stored ← read_config WriteRuntimeConfig t;
   _ ← fs_rename t path; _ ← syscall id id; mret stored) d = (o, d') →
  write_end path t config d d' o.
Proof.
  intros Henc Hne E.
  apply (only_temp_bind t) in E as [[Hs Hf]|([] & d1 & E1 & Hs1 & E)]; [by apply write_end_early| |apply create_only_temp].
  apply (only_temp_bind t) in E as [[Hs Hf]|([] & d2 & E2 & Hs2 & E)];
    [apply write_end_early; [done|by eapply same_but_trans|done]| |apply write_only_temp].
  destruct (fs_write_inv _ _ _ _ _ E2) as [_ Hc]. specialize (Hc eq_refl).
  pose proof (same_but_trans _ _ _ _ Hs1 Hs2) as Hs12.
  apply (only_temp_bind t) in E as [[Hs Hf]|(stored & d3 & E3 & Hs3 & E)];
    [apply write_end_early; [done|by eapply same_but_trans|done]| |apply read_only_temp].
  destruct (read_config_inv _ _ _ _ _ E3) as [Hf3 (s & Hs & Hdec)]. rewrite Hc in Hs. injection Hs as <-.
  pose proof (same_but_trans _ _ _ _ Hs12 Hs3) as Hs13.
  assert (Ht3 : files d3 !! t = Some content) by by rewrite Hf3.
  assert (Hnew : ∀ d4, files d4 !! path = Some content → replaced path config d4 stored) by (intros d4 Hd; by exists content).
  assert (Hsb : ∀ d4, (∀ q, q ≠ path → q ≠ t → files d4 !! q = files d3 !! q) → same_but [path; t] d d4).
  { intros d4 H4 q Hq. rewrite not_elem_of_cons, list_elem_of_singleton in Hq. destruct Hq as [Hq1 Hq2].
    rewrite H4 by done. apply Hs13. by rewrite list_elem_of_singleton. }
  assert (Hold : files d3 !! path = files d !! path) by (apply Hs13; by rewrite list_elem_of_singleton).
  apply io_bind_inv in E as [([] & d4 & E4 & E)|[(e & E4 & ->)|[E4 ->]]];
    destruct (fs_rename_inv _ _ _ _ _ _ Ht3 E4) as [Hq Hp]; cbn in Hp.
  - apply io_bind_inv in E as [([] & d5 & E5 & E)|[(e & E5 & ->)|[E5 ->]]];
      pose proof (syscall_id _ _ _ E5) as Hf5; rewrite <- Hf5 in Hp, Hq.
    + injection E as <- <-. split; [by apply Hsb|]. split; [by apply Hnew|done].
    + split; [by apply Hsb|]. split; [right; eauto|]. intros e' [= <-]. by eapply syscall_failed.
    + split; [by apply Hsb|]. split; [right; eauto|done].
  - split; [by apply Hsb|]. split; [left; congruence|]. intros e' [= <-]. unfold fs_rename in E4.
    rewrite Ht3 in E4. by eapply syscall_failed.
  - split; [by apply Hsb|]. split; [|done]. destruct Hp as [Hp|Hp]; [left; congruence|right; eauto].
Qed.

Lemma write_validated_inv path config nonce d o d' :
  ¬ store_temporary path → write_validated path config nonce d = (o, d') →
  write_end path (temporary_file path nonce) config d d' o.
Proof.
  intros Hnt E. assert (Hne : path ≠ temporary_file path nonce).
  { intros Heq. apply Hnt. rewrite Heq. apply temporary_file_temporary. }
  unfold write_validated in E. set (t := temporary_file path nonce) in *.
  assert (Hq : ∀ {A} (m : outcome ControlError A), write_failure m → write_failure m) by done.
  apply io_bind_inv in E as [(content & d1 & E1 & E)|[(e & E1 & ->)|[E1 ->]]];
    apply io_result_inv in E1 as [-> E1].
  2:{ apply write_end_early; [done..|]. split; [done|]. intros e' [= ->]. destruct (encode config); simplify_eq/=. eauto. }
  2:{ by destruct (encode config). }
  destruct (encode config) as [c|] eqn:Henc; simplify_eq/=.
  apply io_bind_inv in E as [([] & d1 & E1 & E)|[(e & E1 & ->)|[E1 ->]]]; pose proof (syscall_id _ _ _ E1) as Hf1.
  2:{ apply write_end_early; [done|by apply same_but_files|]. split; [done|]. intros e' [= <-]. by eapply syscall_failed. }
  2:{ apply write_end_early; [done|by apply same_but_files|by split]. }
  unfold or_remove in E.
  destruct ((_ ← fs_create_new t; _ ← fs_write t c; stored ← read_config WriteRuntimeConfig t;
             _ ← fs_rename t path; _ ← syscall id id; mret stored) d1) as [r d2] eqn:E2.
  apply (replace_steps _ _ _ _ _ _ _ Henc Hne) in E2 as (Hs & Hp & He).
  assert (Hs' : same_but [path; t] d d2) by (intros q Hin; by rewrite Hs, Hf1).
  rewrite Hf1 in Hp. destruct r as [stored|e|].
  - injection E as <- <-. by split.
  - destruct (fs_remove t d2) as [r d3] eqn:E3. pose proof (fs_remove_inv _ _ _ _ E3) as Hr.
    assert (H3 : same_but [path; t] d d3).
    { intros q Hin. rewrite Hr; [by apply Hs'|]. intros ->. apply Hin. right. left. }
    assert (Hp3 : files d3 !! path = files d !! path ∨ ∃ c, replaced path config d3 c).
    { rewrite (Hr path Hne). destruct Hp as [Hp|(c' & s & ? & ? & ?)]; [by left|right]. exists c', s. by rewrite (Hr path Hne). }
    destruct r; injection E as <- <-; (split; [done|split; [done|by auto]]).
  - injection E as <- <-. by split.
Qed.

(** A whole edit. *)
Lemma edit_file_inv path edit nonce d o d' :
  ¬ store_temporary path → edit_file path edit nonce d = (o, d') →
  (∀ q, q ≠ path → ¬ store_temporary q → files d' !! q = files d !! q) ∧
  (files d' !! path = files d !! path ∧ (∀ r, o ≠ Done r) ∨
   ∃ s stored current edited,
     files d' !! path = Some s ∧ decode s = Ok stored ∧ encode edited = Ok s ∧ edit current = Ok edited ∧
     ((∃ b, files d !! path = Some b ∧ decode b = Ok current) ∨ current = initial) ∧
     ∀ r, o = Done r → r = (stored, resolve path stored)).
Proof.
  intros Hnt E. unfold edit_file in E.
  apply io_bind_inv in E as [(cur & d1 & E1 & E)|[(e & E1 & ->)|[E1 ->]]];
    apply load_optional_inv in E1 as [Hf1 Hcur]; [|split; [by rewrite Hf1|left; by rewrite Hf1]..].
  apply io_bind_inv in E as [(edited & d2 & E2 & E)|[(e & E2 & ->)|[E2 ->]]];
    apply io_result_inv in E2 as [-> E2]; [|split; [by rewrite Hf1|left; by rewrite Hf1]..].
  destruct (edit (default initial cur)) as [ed|] eqn:Hed; [|done]. injection E2 as <-.
  assert (Hbefore : (∃ b, files d !! path = Some b ∧ decode b = Ok (default initial cur)) ∨ default initial cur = initial).
  { destruct cur as [c|]; [left|by right]. exact Hcur. }
  assert (Hq : ∀ d2, same_but [path; temporary_file path nonce] d1 d2 →
    ∀ q, q ≠ path → ¬ store_temporary q → files d2 !! q = files d !! q).
  { intros d2 Hs q Hqp Hqt. rewrite Hs, Hf1; [done|]. rewrite not_elem_of_cons, list_elem_of_singleton.
    split; [done|]. intros ->. apply Hqt, temporary_file_temporary. }
  assert (Hnew : ∀ d2 c, replaced path edited d2 c → ∃ s, files d2 !! path = Some s ∧ decode s = Ok c ∧ encode edited = Ok s)
    by (intros d2 c (s & ? & ? & ?); eauto).
  apply io_bind_inv in E as [(stored & d2 & E2 & E)|[(e & E2 & ->)|[E2 ->]]];
    apply write_validated_inv in E2 as (Hs & Hp & _); try done.
  - apply Hnew in Hp as (s & Hp1 & Hp2 & Hp3). pose proof (Hq _ Hs) as Hs'. clear Hs.
    apply io_bind_inv in E as [(rc & d3 & E3 & E)|[(e & E3 & ->)|[E3 ->]]];
      apply read_config_inv in E3 as [Hf3 Hrc]; rewrite <- Hf3 in Hs', Hp1.
    + injection E as <- <-. split; [done|right]. exists s, stored, (default initial cur), edited. split_and!; try done.
      intros r [= <-]. destruct Hrc as (s' & Hrs & Hrd). rewrite <- Hf3, Hp1 in Hrs. injection Hrs as <-. congruence.
    + split; [done|right]. exists s, stored, (default initial cur), edited. by split_and!.
    + split; [done|right]. exists s, stored, (default initial cur), edited. by split_and!.
  - split; [by apply Hq|]. destruct Hp as [Hp|[c Hp]]; [left; split; [congruence|done]|right].
    apply Hnew in Hp as (s & Hp1 & Hp2 & Hp3). exists s, c, (default initial cur), edited. by split_and!.
  - split; [by apply Hq|]. destruct Hp as [Hp|[c Hp]]; [left; split; [congruence|done]|right].
    apply Hnew in Hp as (s & Hp1 & Hp2 & Hp3). exists s, c, (default initial cur), edited. by split_and!.
Qed.

(** Whatever happens, the file is as it was or holds a validated configuration. *)
Definition valid_file (p : Path) (d : disk) : Prop := ∃ s c, files d !! p = Some s ∧ decode s = Ok c.

Lemma edit_file_valid path edit nonce d o d' :
  ¬ store_temporary path → edit_file path edit nonce d = (o, d') →
  (∀ q, q ≠ path → ¬ store_temporary q → files d' !! q = files d !! q) ∧
  (files d' !! path = files d !! path ∨ valid_file path d').
Proof.
  intros Hnt E. destruct (edit_file_inv _ _ _ _ _ _ Hnt E) as [Hq [[Hp _]|(s & c & _ & _ & Hs & Hc & _)]];
    (split; [done|]); [by left|right; by exists s, c].
Qed.

(** ** Edits when no call fails *)

Definition held (d : disk) (path : Path) : option T :=
  match files d !! path with
  | None => Some initial
  | Some b => match decode b with Ok c => Some c | Err _ => None end
  end.

(** What an edit makes of a configuration: the edited one as it is stored, or
    the old one when the edit, the writer or the validator refuses. *)
Definition apply_edit (c : T) (edit : T → CResult T) : T :=
  match edit c with
  | Ok edited => match encode edited with
                 | Ok s => match decode s with Ok stored => stored | Err _ => c end
                 | Err _ => c
                 end
  | Err _ => c
  end.

Lemma quiet_calls (Hq : ∀ n, sys n = SysOk) d :
  (∀ ef un, syscall (F := write_from_io) ef un d = (Done tt, with_files d (ef (files d)))) ∧
  (∀ p, fs_read (Er := ControlError) p d = (Done (ok_or (files d !! p) NotFound), with_files d (files d))).
Proof. unfold syscall, fs_read. by rewrite Hq. Qed.

Lemma quiet_read_config (Hq : ∀ n, sys n = SysOk) wrap p d s :
  files d !! p = Some s →
  read_config wrap p d = (match decode s with Ok c => Done c | Err m => Failed (wrap (m p)) end, with_files d (files d)).
Proof.
  intros Hs. unfold read_config, mbind, IO_bind. rewrite (proj2 (quiet_calls Hq d)), Hs. cbn [ok_or].
  by destruct (decode s).
Qed.

(** Writing when nothing fails. *)
Lemma write_validated_quiet (Hq : ∀ n, sys n = SysOk) path config nonce d :
  path ≠ temporary_file path nonce → files d !! temporary_file path nonce = None →
  ∃ d', write_validated path config nonce d =
    (match encode config with
     | Ok s => match decode s with
               | Ok stored => Done stored
               | Err m => Failed (WriteRuntimeConfig (m (temporary_file path nonce)))
               end
     | Err m => Failed (WriteRuntimeConfig m)
     end, d') ∧
    files d' = match encode config with
               | Ok s => if is_ok (decode s) then <[path := s]> (files d) else files d
               | Err _ => files d
               end.
Proof.
  intros Hne Hnone. unfold write_validated. set (t := temporary_file path nonce) in *.
  destruct (encode config) as [s|m]; [|by exists d].
  cbn [map_err io_result]. unfold mbind at 1, IO_bind at 1. cbn [mret IO_ret].
  unfold mbind at 1, IO_bind at 1. unfold create_dir_all.
  rewrite (proj1 (quiet_calls Hq d)). set (d1 := with_files d _). cbn [id] in d1.
  unfold or_remove. unfold mbind at 1, IO_bind at 1. unfold fs_create_new at 1.
  assert (Hfresh : ¬ is_Some (files d1 !! t)).
  { change (¬ is_Some (files d !! t)). rewrite Hnone. by intros [? ?]. }
  rewrite (bool_decide_false _ Hfresh).
  rewrite (proj1 (quiet_calls Hq d1)). set (d2 := with_files d1 _).
  unfold mbind at 1, IO_bind at 1. unfold fs_write. rewrite (proj1 (quiet_calls Hq d2)). set (d3 := with_files d2 _).
  assert (Ht3 : files d3 !! t = Some s) by (cbn; by rewrite lookup_insert_eq).
  assert (Hdel : delete t (files d3) = files d).
  { cbn. rewrite insert_insert_eq, delete_insert_id; [done|exact Hnone]. }
  unfold mbind at 1, IO_bind at 1. rewrite (quiet_read_config Hq _ t d3 s Ht3).
  destruct (decode s) as [stored|m]; cbn [is_ok].
  - set (d4 := with_files d3 _). unfold mbind at 1, IO_bind at 1. unfold fs_rename.
    change (files d4 !! t) with (files d3 !! t). rewrite Ht3, (proj1 (quiet_calls Hq d4)). set (d5 := with_files d4 _).
    unfold mbind at 1, IO_bind at 1. rewrite (proj1 (quiet_calls Hq d5)). cbn [mret IO_ret].
    eexists. split; [reflexivity|]. change (<[path := s]> (delete t (files d3)) = <[path := s]> (files d)).
    by rewrite Hdel.
  - unfold fs_remove. rewrite (proj1 (quiet_calls Hq _)). eexists. split; [reflexivity|]. exact Hdel.
Qed.

(** Reading when nothing fails. *)
Lemma load_optional_quiet (Hq : ∀ n, sys n = SysOk) path d c :
  held d path = Some c → ∃ cur, default initial cur = c ∧ load_optional path d = (Done cur, with_files d (files d)).
Proof.
  unfold held, load_optional, mbind, IO_bind. rewrite (proj2 (quiet_calls Hq d)).
  destruct (files d !! path) as [b|]; cbn [ok_or].
  - destruct (decode b) as [c0|]; [|done]. intros [= ->]. by exists (Some c).
  - intros [= ->]. by exists None.
Qed.

Lemma edit_file_quiet (Hq : ∀ n, sys n = SysOk) path edit nonce d c :
  ¬ store_temporary path → files d !! temporary_file path nonce = None → held d path = Some c →
  ∃ o d', edit_file path edit nonce d = (o, d') ∧
    (∀ q, q ≠ path → files d' !! q = files d !! q) ∧
    match o with
    | Done (stored, runtime_config) =>
        stored = apply_edit c edit ∧ runtime_config = resolve path stored ∧
        ∃ s, files d' !! path = Some s ∧ decode s = Ok stored
    | Failed _ => apply_edit c edit = c ∧ files d' !! path = files d !! path
    | Crashed => False
    end.
Proof.
  intros Hnt Hnone Hc.
  assert (Hne : path ≠ temporary_file path nonce).
  { intros Heq. apply Hnt. rewrite Heq. apply temporary_file_temporary. }
  assert (Hsame : ∀ d', files d' = files d → ∀ q, files d' !! q = files d !! q) by (by intros d' ->).
  unfold edit_file, apply_edit. unfold mbind at 1, IO_bind at 1.
  destruct (load_optional_quiet Hq path d c Hc) as (cur & Hcur & ->). rewrite Hcur.
  unfold mbind at 1, IO_bind at 1. destruct (edit c) as [edited|e]; cbn [io_result mret IO_ret io_err];
    [|eexists _, _; split; [done|]; split; [by auto|by split]].
  unfold mbind at 1, IO_bind at 1.
  destruct (write_validated_quiet Hq path edited nonce (with_files d (files d)) Hne Hnone) as (d' & -> & Hf).
  cbn [files with_files] in Hf.
  destruct (encode edited) as [s|]; [|eexists _, _; split; [done|]; split; [by auto|by split; [|apply Hsame]]].
  destruct (decode s) as [stored|] eqn:Hdec; cbn [is_ok] in Hf;
    [|eexists _, _; split; [done|]; split; [by auto|by split; [|apply Hsame]]].
  unfold mbind at 1, IO_bind at 1.
  rewrite (quiet_read_config Hq _ path d' s) by (by rewrite Hf, lookup_insert_eq). rewrite Hdec.
  eexists _, _. split; [done|]. cbn [files with_files]. rewrite Hf. split; [intros q Hqp; by rewrite lookup_insert_ne|].
  split_and!; [done|done|]. exists s. by rewrite lookup_insert_eq.
Qed.
End edit.
