(* ===== verification/Store.v ===== *)
(** * Store: the operations of [ConfigStore] ([gaterust-control/src/store.rs])

    [ConfigStore] says what an edit does to a file.  Here it is instantiated
    with the two configurations, and the state of the store is added: the
    snapshot the API serves, its revision and the dashboard of the event
    stream.  A mutation edits the file, publishes what it stored and waits for
    the runtime to confirm it; the states the runtime publishes meanwhile are
    an argument, in the order [wait_for_config] sees them. *)

From S2P Require Import Prelude RustStr Net Paths Disk TunnelConfig ConfigFiles TunnelRuntime ProxyConfig.
From S2P Require Import CertManager ConfigEdits ConfigStore.

(** The TOML writer of the proxy configuration. *)
Class ProxyTomlWriter `{ProxyToml} := {
  proxy_to_string : ProxyConfig → result str str;
  proxy_roundtrip : ∀ c s, proxy_to_string c = Ok s → parse_current s = Ok c }.

(** ** State *)

Record ConfigSnapshot := { snap_tunnel : option ServerConfig; snap_proxy : option ProxyConfigView }.

Record Dashboard := {
  dash_revision : N; dash_tunnel_enabled : bool; dash_proxy_enabled : bool;
  dash_groups : nat; dash_tunnels : nat; dash_certificates : nat; dash_routes : nat }.

Inductive ConfigKind := KTunnel | KProxy.

Record StoreInner := {
  st_snapshot : ConfigSnapshot; st_revision : N; st_dashboard : Dashboard;
  st_tunnel_enabled : bool; st_proxy_enabled : bool; tunnel_path : Path; proxy_path : Path }.

Definition dashboard_for (s : ConfigSnapshot) (revision : N) (tunnel_enabled proxy_enabled : bool) : Dashboard :=
  {| dash_revision := revision; dash_tunnel_enabled := tunnel_enabled; dash_proxy_enabled := proxy_enabled;
     dash_groups := from_option (λ c, length (server_groups c)) 0%nat (snap_tunnel s);
     dash_tunnels := from_option (λ c, length (server_tunnels c)) 0%nat (snap_tunnel s);
     dash_certificates := from_option (λ c, length (view_certificates c)) 0%nat (snap_proxy s);
     dash_routes := from_option (λ c, length (view_routes c)) 0%nat (snap_proxy s) |}.

Definition with_snapshot (st : StoreInner) (s : ConfigSnapshot) : StoreInner :=
  {| st_snapshot := s; st_revision := st_revision st; st_dashboard := st_dashboard st;
     st_tunnel_enabled := st_tunnel_enabled st; st_proxy_enabled := st_proxy_enabled st;
     tunnel_path := tunnel_path st; proxy_path := proxy_path st |}.

(** [fetch_add] wraps; the snapshot is read under the lock. *)
Definition publish (st : StoreInner) : StoreInner :=
  let revision := (st_revision st + 1) mod 2 ^ 64 in
  {| st_snapshot := st_snapshot st; st_revision := revision;
     st_dashboard := dashboard_for (st_snapshot st) revision (st_tunnel_enabled st) (st_proxy_enabled st);
     st_tunnel_enabled := st_tunnel_enabled st; st_proxy_enabled := st_proxy_enabled st;
     tunnel_path := tunnel_path st; proxy_path := proxy_path st |}.

Definition update_tunnel (c : option ServerConfig) (st : StoreInner) : StoreInner :=
  publish (with_snapshot st {| snap_tunnel := c; snap_proxy := snap_proxy (st_snapshot st) |}).
Definition update_proxy (c : option ProxyConfig) (st : StoreInner) : StoreInner :=
  publish (with_snapshot st {| snap_tunnel := snap_tunnel (st_snapshot st); snap_proxy := config_view <$> c |}).

(** ** The two files *)

(** [ProxyConfig::load] beyond [read]. *)
Definition resolve_proxy (path : Path) (c : ProxyConfig) : ProxyConfig :=
  let p := proxy c in
  let dir := if path_is_relative (cache_dir p)
             then path_join (default [CurDir] (path_parent path)) (cache_dir p)
             else cache_dir p in
  {| proxy := {| http_bind := http_bind p; https_bind := https_bind p; cache_dir := dir;
                 max_connections := max_connections p |};
     acme_accounts := acme_accounts c; dns_accounts := dns_accounts c;
     certificates := certificates c; routes := routes c |}.

(** [absolute_path]; [current] is the answer of [current_dir]. *)
Definition absolute_path (io : ErrorKind → str) (current : result ErrorKind Path) (path : Path) : CResult Path :=
  if path_is_relative path
  then match current with
       | Ok directory => Ok (path_join directory path)
       | Err e => Err (ReadRuntimeConfig (io e))
       end
  else Ok path.

Section store.
Context {H : Host} {TS : Toml ServerConfig} {UL : UriLib} {PT : ProxyToml} {PW : ProxyTomlWriter}.
Context (io : ErrorKind → str) (sha256 : str → str) (toml_string : ServerConfig → result str str).
#[local] Notation IO := (IO ControlError).

(** [ServerConfig::read] and [ProxyConfig::read] of a file with this content;
    the message of an error names the path. *)
Definition decode_tunnel (s : str) : result (Path → str) ServerConfig :=
  match toml_from_str s with
  | Ok c => match ServerConfig_validate c with
            | Ok _ => Ok c
            | Err e => Err (λ _, fmt_error io e)
            end
  | Err m => Err (λ p, fmt_error io (ParseConfig p m))
  end.
Definition decode_proxy (s : str) : result (Path → str) ProxyConfig :=
  match ProxyConfig_read (Ok s) [] with
  | Ok c => Ok c
  | Err _ => Err (λ p, match ProxyConfig_read (Ok s) p with Err e => fmt_proxy_error io e | Ok _ => [] end)
  end.

Definition tunnel_read_error (p : Path) (e : ErrorKind) : str := fmt_error io (ReadConfig p e).
Definition proxy_read_error (p : Path) (e : ErrorKind) : str := fmt_proxy_error io (PReadConfig p e).

Definition load_optional_tunnel (path : Path) : IO (option ServerConfig) :=
  load_optional decode_tunnel tunnel_read_error path.
Definition load_optional_proxy (path : Path) : IO (option ProxyConfig) :=
  load_optional decode_proxy proxy_read_error path.

Definition edit_tunnel_file (path : Path) (edit : ServerConfig → CResult ServerConfig) (nonce : str) :=
  edit_file io toml_to_string decode_tunnel tunnel_read_error resolve_server_paths default_tunnel path edit nonce.
Definition edit_proxy_file (path : Path) (edit : ProxyConfig → CResult ProxyConfig) (nonce : str) :=
  edit_file io proxy_to_string decode_proxy proxy_read_error resolve_proxy default_proxy path edit nonce.

(** ** Operations *)

Definition store_new (current : result ErrorKind Path) (tunnel_enabled proxy_enabled : bool)
  (tunnel_config proxy_config : Path) : IO StoreInner :=
  tunnel ← load_optional_tunnel tunnel_config;
  loaded ← load_optional_proxy proxy_config;
  let snapshot := {| snap_tunnel := tunnel; snap_proxy := config_view <$> loaded |} in
  tp ← io_result (absolute_path io current tunnel_config);
  pp ← io_result (absolute_path io current proxy_config);
  mret {| st_snapshot := snapshot; st_revision := 1;
          st_dashboard := dashboard_for snapshot 1 tunnel_enabled proxy_enabled;
          st_tunnel_enabled := tunnel_enabled; st_proxy_enabled := proxy_enabled;
          tunnel_path := tp; proxy_path := pp |}.

(** The runtime, when there is one: its revision before the edit, and the
    states it publishes until the deadline. *)
Definition confirm_tunnel (runtime : option (N * list TunnelRuntime.ConfigApplyState)) (c : ServerConfig)
  : CResult unit :=
  match runtime with
  | None => Ok tt
  | Some (after, observed) =>
      r ← map_err (λ e, TunnelRuntimeApply (fmt_error io e))
            (TunnelRuntime.wait_for_config sha256 toml_string c after observed);
      status ← ok_or r (TunnelRuntimeApply "等待运行时确认超时");
      match last_apply_error status with Some e => Err (TunnelRuntimeApply e) | None => Ok tt end
  end.
Definition confirm_proxy (runtime : option (N * list CertManager.ConfigApplyState)) (c : ProxyConfig)
  : CResult unit :=
  match runtime with
  | None => Ok tt
  | Some (after, observed) =>
      status ← ok_or (head (omap (CertManager.wait_for_config c after) observed))
                 (ProxyRuntimeApply "等待运行时确认超时");
      match ps_last_apply_error status with Some e => Err (ProxyRuntimeApply e) | None => Ok tt end
  end.

Definition mutate_tunnel (runtime : option (N * list TunnelRuntime.ConfigApplyState))
  (edit : ServerConfig → CResult ServerConfig) (nonce : str) (st : StoreInner) (d : disk)
  : outcome ControlError ServerConfig * disk * StoreInner :=
  match edit_tunnel_file (tunnel_path st) edit nonce d with
  | (Done (stored, runtime_config), d) =>
      let st := update_tunnel (Some stored) st in
      match confirm_tunnel runtime runtime_config with
      | Ok _ => (Done stored, d, st)
      | Err e => (Failed e, d, st)
      end
  | (Failed e, d) => (Failed e, d, st)
  | (Crashed, d) => (Crashed, d, st)
  end.

Definition mutate_proxy (runtime : option (N * list CertManager.ConfigApplyState))
  (edit : ProxyConfig → CResult ProxyConfig) (nonce : str) (st : StoreInner) (d : disk)
  : outcome ControlError ProxyConfigView * disk * StoreInner :=
  match edit_proxy_file (proxy_path st) edit nonce d with
  | (Done (stored, runtime_config), d) =>
      let st := update_proxy (Some stored) st in
      match confirm_proxy runtime runtime_config with
      | Ok _ => (Done (config_view stored), d, st)
      | Err e => (Failed e, d, st)
      end
  | (Failed e, d) => (Failed e, d, st)
  | (Crashed, d) => (Crashed, d, st)
  end.

(** A failed load is only logged. *)
Definition reload (kind : ConfigKind) (st : StoreInner) (d : disk) : StoreInner * disk :=
  match kind with
  | KTunnel => match load_optional_tunnel (tunnel_path st) d with
               | (Done c, d) => (update_tunnel c st, d)
               | (_, d) => (st, d)
               end
  | KProxy => match load_optional_proxy (proxy_path st) d with
              | (Done c, d) => (update_proxy c st, d)
              | (_, d) => (st, d)
              end
  end.

Definition dns_account (id : str) (st : StoreInner) : IO DnsAccountConfig :=
  loaded ← load_optional_proxy (proxy_path st);
  io_result (ok_or (loaded ≫= λ c, snd <$> list_find (λ a, dns_id a = id) (dns_accounts c))
                   (resource_not_found "DNS 账户" id)).

(** *** The edits of the API *)

Inductive tunnel_op :=
  | SetQuic (q : ServerQuicConfig)
  | CreateGroup (g : GroupConfig)
  | UpdateGroup (name : str) (g : GroupConfig)
  | DeleteGroup (name : str)
  | CreateTunnel (t : ServerTunnelConfig)
  | UpdateTunnel (name : str) (t : ServerTunnelConfig)
  | DeleteTunnel (name : str).

Inductive proxy_op :=
  | SetListener (l : ProxyListenerConfig)
  | CreateAcme (r : AcmeAccountRequest)
  | UpdateAcme (id : str) (r : AcmeAccountRequest)
  | DeleteAcme (id : str)
  | CreateDns (r : DnsAccountRequest)
  | UpdateDns (id : str) (r : DnsAccountRequest)
  | DeleteDns (id : str)
  | CreateCertificate (k : CertificateConfig)
  | UpdateCertificate (id : str) (k : CertificateConfig)
  | DeleteCertificate (id : str)
  | CreateRoute (r : RouteConfig)
  | UpdateRoute (name : str) (r : RouteConfig)
  | DeleteRoute (name : str).

Definition tunnel_edit (op : tunnel_op) : ServerConfig → CResult ServerConfig :=
  match op with
  | SetQuic q => set_tunnel_quic q
  | CreateGroup g => create_group g
  | UpdateGroup n g => update_group n g
  | DeleteGroup n => delete_group n
  | CreateTunnel t => create_tunnel t
  | UpdateTunnel n t => update_tunnel_config n t
  | DeleteTunnel n => delete_tunnel_config n
  end.
Definition proxy_edit (op : proxy_op) : ProxyConfig → CResult ProxyConfig :=
  match op with
  | SetListener l => set_proxy_listener l
  | CreateAcme r => create_acme_account r
  | UpdateAcme i r => update_acme_account i r
  | DeleteAcme i => delete_acme_account i
  | CreateDns r => create_dns_account r
  | UpdateDns i r => update_dns_account i r
  | DeleteDns i => delete_dns_account i
  | CreateCertificate k => create_certificate k
  | UpdateCertificate i k => update_certificate i k
  | DeleteCertificate i => delete_certificate i
  | CreateRoute r => create_route r
  | UpdateRoute n r => update_route n r
  | DeleteRoute n => delete_route n
  end.

(** What is refused before the file is read. *)
Definition proxy_precheck (op : proxy_op) : CResult unit :=
  match op with
  | CreateCertificate k => check_new_certificate k
  | UpdateCertificate i k => check_certificate_update i k
  | _ => Ok tt
  end.

Definition tunnel_method (runtime : option (N * list TunnelRuntime.ConfigApplyState)) (op : tunnel_op) :=
  mutate_tunnel runtime (tunnel_edit op).
Definition proxy_method (runtime : option (N * list CertManager.ConfigApplyState)) (op : proxy_op)
  (nonce : str) (st : StoreInner) (d : disk) : outcome ControlError ProxyConfigView * disk * StoreInner :=
  match proxy_precheck op with
  | Ok _ => mutate_proxy runtime (proxy_edit op) nonce st d
  | Err e => (Failed e, d, st)
  end.
(** ** Runs of the store *)

(** A request to the store, with the states the runtime publishes while it
    waits. *)
Inductive store_call :=
  | CallTunnel (runtime : option (N * list TunnelRuntime.ConfigApplyState)) (op : tunnel_op) (nonce : str)
  | CallProxy (runtime : option (N * list CertManager.ConfigApplyState)) (op : proxy_op) (nonce : str)
  | CallReload (kind : ConfigKind)
  | CallDnsAccount (id : str).

Definition run_call (w : StoreInner * disk) (call : store_call) : StoreInner * disk :=
  match call with
  | CallTunnel runtime op nonce => let '(_, d, st) := tunnel_method runtime op nonce w.1 w.2 in (st, d)
  | CallProxy runtime op nonce => let '(_, d, st) := proxy_method runtime op nonce w.1 w.2 in (st, d)
  | CallReload kind => reload kind w.1 w.2
  | CallDnsAccount id => (w.1, (dns_account id w.1 w.2).2)
  end.
Definition run_calls (w : StoreInner * disk) (calls : list store_call) : StoreInner * disk := foldl run_call w calls.

(** The two files are two files, and no temporary ones. *)
Definition paths_ok (st : StoreInner) : Prop :=
  ¬ store_temporary (tunnel_path st) ∧ ¬ store_temporary (proxy_path st) ∧ tunnel_path st ≠ proxy_path st.

(** *** The codecs *)

Lemma decode_tunnel_ok s c : decode_tunnel s = Ok c ↔ toml_from_str s = Ok c ∧ wf_server c.
Proof.
  clear sha256 toml_string. unfold decode_tunnel. rewrite <- server_validate_iff. destruct (toml_from_str s) as [c'|]; [|naive_solver].
  destruct (ServerConfig_validate c') as [[]|] eqn:E; [naive_solver|]. split; [done|]. intros [[= ->] ?]. congruence.
Qed.

Lemma decode_tunnel_read s p :
  map_err (λ m, m p) (decode_tunnel s) = map_err (fmt_error io) (ServerConfig_read no_faults {[p := s]} p).
Proof.
  unfold ServerConfig_read, parse_config, decode_tunnel. cbn [read_to_string no_faults f_read].
  rewrite lookup_singleton_eq. cbn [ok_or map_err mbind result_bind].
  destruct (toml_from_str s) as [c|]; cbn [map_err mbind result_bind]; [|done].
  by destruct (ServerConfig_validate c) as [[]|].
Qed.

Lemma proxy_read_path s p p' c : ProxyConfig_read (Ok s) p = Ok c → ProxyConfig_read (Ok s) p' = Ok c.
Proof.
  unfold ProxyConfig_read. cbn [map_err mbind result_bind].
  destruct (parse_current s); [done|]. by destruct (parse_legacy s).
Qed.

Lemma decode_proxy_ok s p c : decode_proxy s = Ok c ↔ ProxyConfig_read (Ok s) p = Ok c.
Proof.
  clear sha256 toml_string. unfold decode_proxy. destruct (ProxyConfig_read (Ok s) []) as [c'|] eqn:E.
  - rewrite (proxy_read_path _ _ p _ E). naive_solver.
  - split; [done|]. intros Hp. by rewrite (proxy_read_path _ _ [] _ Hp) in E.
Qed.

Lemma decode_proxy_read s p :
  map_err (λ m, m p) (decode_proxy s) = map_err (fmt_proxy_error io) (ProxyConfig_read (Ok s) p).
Proof.
  destruct (decode_proxy s) as [c|m] eqn:E.
  - apply (decode_proxy_ok s p) in E. by rewrite E.
  - destruct (ProxyConfig_read (Ok s) p) as [c|e] eqn:Ep; [apply (decode_proxy_ok s p c) in Ep; congruence|].
    unfold decode_proxy in E. destruct (ProxyConfig_read (Ok s) []); [done|]. injection E as <-. simpl. by rewrite Ep.
Qed.

Lemma decode_proxy_valid s c : decode_proxy s = Ok c → wf_proxy c ∧ ProxyConfig_validate c = Ok c.
Proof.
  rewrite (decode_proxy_ok s []). unfold ProxyConfig_read. cbn [map_err mbind result_bind].
  destruct (match parse_current s with Ok _ => _ | Err _ => _ end) as [c0|]; cbn [result_bind]; [|done].
  intros [-> Hwf]%ProxyConfig_validate_ok. destruct (wf_normalise _ Hwf) as [Hw Hn]. split; [done|].
  by apply ProxyConfig_validate_ok.
Qed.

Lemma resolve_proxy_load file path :
  ProxyConfig_load file path = resolve_proxy path <$> ProxyConfig_read file path.
Proof. unfold ProxyConfig_load. by destruct (ProxyConfig_read file path). Qed.

(** *** What a call changes *)

Lemma mutate_tunnel_inv runtime edit nonce st d o d' st' :
  mutate_tunnel runtime edit nonce st d = (o, d', st') →
  ∃ r, edit_tunnel_file (tunnel_path st) edit nonce d = (r, d') ∧
    match r with
    | Done (stored, runtime_config) =>
        st' = update_tunnel (Some stored) st ∧
        o = match confirm_tunnel runtime runtime_config with Ok _ => Done stored | Err e => Failed e end
    | Failed e => st' = st ∧ o = Failed e
    | Crashed => st' = st ∧ o = Crashed
    end.
Proof.
  unfold mutate_tunnel. destruct (edit_tunnel_file _ _ _ _) as [[[stored rc]|e|] d1]; [|intros [= <- <- <-]; eexists; (split; [reflexivity|]); done..].
  destruct (confirm_tunnel runtime rc) eqn:Hc; intros [= <- <- <-]; eexists; (split; [reflexivity|]); cbn beta iota; by rewrite Hc.
Qed.

Lemma mutate_proxy_inv runtime edit nonce st d o d' st' :
  mutate_proxy runtime edit nonce st d = (o, d', st') →
  ∃ r, edit_proxy_file (proxy_path st) edit nonce d = (r, d') ∧
    match r with
    | Done (stored, runtime_config) =>
        st' = update_proxy (Some stored) st ∧
        o = match confirm_proxy runtime runtime_config with Ok _ => Done (config_view stored) | Err e => Failed e end
    | Failed e => st' = st ∧ o = Failed e
    | Crashed => st' = st ∧ o = Crashed
    end.
Proof.
  unfold mutate_proxy. destruct (edit_proxy_file _ _ _ _) as [[[stored rc]|e|] d1]; [|intros [= <- <- <-]; eexists; (split; [reflexivity|]); done..].
  destruct (confirm_proxy runtime rc) eqn:Hc; intros [= <- <- <-]; eexists; (split; [reflexivity|]); cbn beta iota; by rewrite Hc.
Qed.

Lemma reload_inv kind st d st' d' : reload kind st d = (st', d') →
  files d' = files d ∧ (st' = st ∨
   (kind = KTunnel ∧ ∃ c, st' = update_tunnel c st ∧ load_optional_tunnel (tunnel_path st) d = (Done c, d')) ∨
   (kind = KProxy ∧ ∃ c, st' = update_proxy c st ∧ load_optional_proxy (proxy_path st) d = (Done c, d'))).
Proof.
  unfold reload. destruct kind.
  - destruct (load_optional_tunnel _ d) as [[c|e|] d1] eqn:E; intros [= <- <-];
      apply load_optional_inv in E as HE; destruct HE as [Hf _]; (split; [done|]); eauto 8.
  - destruct (load_optional_proxy _ d) as [[c|e|] d1] eqn:E; intros [= <- <-];
      apply load_optional_inv in E as HE; destruct HE as [Hf _]; (split; [done|]); eauto 8.
Qed.

Lemma dns_account_files id st d o d' : dns_account id st d = (o, d') → files d' = files d.
Proof.
  unfold dns_account. intros [(c & d1 & E1 & E)|[(e & E1 & _)|[E1 _]]]%io_bind_inv;
    apply load_optional_inv in E1 as [Hf _]; [|done..].
  apply io_result_inv in E as [-> _]. done.
Qed.

(** One call: the paths stay, each configuration file is as it was or valid,
    and nothing else but temporary files changes. *)
Definition files_kept (st : StoreInner) (d d' : disk) : Prop :=
  (files d' !! tunnel_path st = files d !! tunnel_path st ∨ valid_file decode_tunnel (tunnel_path st) d') ∧
  (files d' !! proxy_path st = files d !! proxy_path st ∨ valid_file decode_proxy (proxy_path st) d') ∧
  (∀ q, q ≠ tunnel_path st → q ≠ proxy_path st → ¬ store_temporary q → files d' !! q = files d !! q).

Definition same_paths (st st' : StoreInner) : Prop := tunnel_path st' = tunnel_path st ∧ proxy_path st' = proxy_path st.

Lemma files_kept_same st d d' : files d' = files d → files_kept st d d'.
Proof. unfold files_kept. intros ->. auto. Qed.

Lemma files_kept_trans st d1 d2 d3 : files_kept st d1 d2 → files_kept st d2 d3 → files_kept st d1 d3.
Proof.
  intros (Ht & Hp & Ho) (Ht' & Hp' & Ho'). split_and!.
  - destruct Ht' as [E|?]; [|by right]. destruct Ht as [Ht|(s & c & ? & ?)]; [left; congruence|right; exists s, c; by rewrite E].
  - destruct Hp' as [E|?]; [|by right]. destruct Hp as [Hp|(s & c & ? & ?)]; [left; congruence|right; exists s, c; by rewrite E].
  - intros q ???. by rewrite Ho', Ho.
Qed.

Lemma run_call_files call w : paths_ok w.1 →
  same_paths w.1 (run_call w call).1 ∧ files_kept w.1 w.2 (run_call w call).2.
Proof.
  destruct w as [st d]. cbn [fst snd]. intros (Ht & Hp & Hne).
  assert (Hself : same_paths st st) by done.
  destruct call as [runtime op nonce|runtime op nonce|kind|id]; cbn [run_call fst snd].
  - unfold tunnel_method. destruct (mutate_tunnel _ _ _ _ _) as [[o d'] st'] eqn:E. cbn [fst snd].
    apply mutate_tunnel_inv in E as (r & E & Hr). split; [by destruct r as [[]| |]; destruct Hr as [-> _]|].
    apply edit_file_valid in E as [Ho Hv]; [|done]. split; [done|]. split; [left; by apply Ho|]. by intros; apply Ho.
  - unfold proxy_method. destruct (proxy_precheck op); [|by split; [|apply files_kept_same]].
    destruct (mutate_proxy _ _ _ _ _) as [[o d'] st'] eqn:E. cbn [fst snd].
    apply mutate_proxy_inv in E as (r & E & Hr). split; [by destruct r as [[]| |]; destruct Hr as [-> _]|].
    apply edit_file_valid in E as [Ho Hv]; [|done]. split; [left; by apply Ho|]. split; [done|]. by intros; apply Ho.
  - destruct (reload kind st d) as [st' d'] eqn:E. cbn [fst snd].
    apply reload_inv in E as [Hf Hst]. split; [|by apply files_kept_same].
    destruct Hst as [->|[(_ & c & -> & _)|(_ & c & -> & _)]]; done.
  - destruct (dns_account id st d) as [o d'] eqn:E. cbn [snd]. split; [done|].
    by apply files_kept_same, (dns_account_files id st d o).
Qed.

(** *** When no call fails *)

(** What an operation makes of a configuration: nothing when it is refused by
    its checks, by the validator or by the writer. *)
Definition accept_tunnel (op : tunnel_op) (c : ServerConfig) : ServerConfig :=
  match tunnel_edit op c with
  | Ok edited => if is_ok (toml_to_string edited) && is_ok (ServerConfig_validate edited) then edited else c
  | Err _ => c
  end.
Definition accept_proxy (op : proxy_op) (c : ProxyConfig) : ProxyConfig :=
  match proxy_precheck op, proxy_edit op c with
  | Ok _, Ok edited => match proxy_to_string edited, ProxyConfig_validate edited with
                       | Ok _, Ok stored => stored
                       | _, _ => c
                       end
  | _, _ => c
  end.

Definition tunnel_call (c : ServerConfig) (call : store_call) : ServerConfig :=
  match call with CallTunnel _ op _ => accept_tunnel op c | _ => c end.
Definition proxy_call (c : ProxyConfig) (call : store_call) : ProxyConfig :=
  match call with CallProxy _ op _ => accept_proxy op c | _ => c end.

(** The snapshot is what the files hold, and the dashboard what the snapshot
    says. *)
Record synced (st : StoreInner) (d : disk) : Prop := {
  synced_tunnel : match files d !! tunnel_path st with
                  | None => snap_tunnel (st_snapshot st) = None
                  | Some s => ∃ c, decode_tunnel s = Ok c ∧ snap_tunnel (st_snapshot st) = Some c
                  end;
  synced_proxy : match files d !! proxy_path st with
                 | None => snap_proxy (st_snapshot st) = None
                 | Some s => ∃ c, decode_proxy s = Ok c ∧ snap_proxy (st_snapshot st) = Some (config_view c)
                 end;
  synced_dashboard : st_dashboard st = dashboard_for (st_snapshot st) (st_revision st)
                                         (st_tunnel_enabled st) (st_proxy_enabled st) }.

(** The configurations an edit starts from. *)
Definition configs (st : StoreInner) (d : disk) (t : ServerConfig) (p : ProxyConfig) : Prop :=
  held decode_tunnel default_tunnel d (tunnel_path st) = Some t ∧
  held decode_proxy default_proxy d (proxy_path st) = Some p.

Definition no_temporaries (d : disk) : Prop := ∀ q, store_temporary q → files d !! q = None.

Lemma apply_tunnel_edit op c : apply_edit toml_to_string decode_tunnel c (tunnel_edit op) = accept_tunnel op c.
Proof.
  unfold apply_edit, accept_tunnel. destruct (tunnel_edit op c) as [x|]; [|done].
  destruct (toml_to_string x) as [s|] eqn:E; [|done]. unfold decode_tunnel. rewrite (toml_roundtrip x s E).
  by destruct (ServerConfig_validate x) as [[]|].
Qed.

Lemma apply_proxy_edit op c u : proxy_precheck op = Ok u →
  apply_edit proxy_to_string decode_proxy c (proxy_edit op) = accept_proxy op c.
Proof.
  intros Hp. unfold apply_edit, accept_proxy. rewrite Hp. destruct (proxy_edit op c) as [x|]; [|done].
  destruct (proxy_to_string x) as [s|] eqn:E; [|done]. unfold decode_proxy, ProxyConfig_read.
  cbn [map_err mbind result_bind]. rewrite (proxy_roundtrip x s E). cbn [mbind result_bind].
  by destruct (ProxyConfig_validate x).
Qed.

Lemma load_optional_sound {T} (decode : str → result (Path → str) T) re p d c d' :
  (∀ n, sys n = SysOk) → load_optional decode re p d = (Done c, d') →
  match files d !! p with None => c = None | Some s => ∃ x, decode s = Ok x ∧ c = Some x end.
Proof.
  intros Hq. unfold load_optional, mbind, IO_bind, fs_read. rewrite Hq.
  destruct (files d !! p) as [s|]; cbn [ok_or].
  - destruct (decode s) as [x|]; intros [= <- <-]. eauto.
  - by intros [= <- <-].
Qed.

Lemma held_ext {T} (decode : str → result (Path → str) T) initial d d' p :
  files d' !! p = files d !! p → held decode initial d' p = held decode initial d p.
Proof. unfold held. by intros ->. Qed.

Section quiet.
Context (Hq : ∀ n, sys n = SysOk) (st : StoreInner) (d : disk) (t : ServerConfig) (p : ProxyConfig)
  (Hpaths : paths_ok st) (Hnt : no_temporaries d) (Hs : synced st d) (Hc : configs st d t p).

(** What a call leaves. *)
Definition quiet_end (st' : StoreInner) (d' : disk) (t' : ServerConfig) (p' : ProxyConfig) : Prop :=
  no_temporaries d' ∧ synced st' d' ∧ configs st d' t' p'.

Lemma quiet_same d' : files d' = files d → quiet_end st d' t p.
Proof.
  intros Hf. split; [unfold no_temporaries; by rewrite Hf|]. split; [split; rewrite ?Hf; apply Hs|].
  destruct Hc as [Ht Hp]. split; rewrite (held_ext _ _ d); by rewrite ?Hf.
Qed.

Lemma mutate_tunnel_quiet runtime op nonce o d' st' :
  mutate_tunnel runtime (tunnel_edit op) nonce st d = (o, d', st') → quiet_end st' d' (accept_tunnel op t) p.
Proof.
  intros E. apply mutate_tunnel_inv in E as (r & E & Hr).
  destruct Hpaths as (Htt & Hpt & Hne), Hc as [Ht Hp].
  destruct (edit_file_quiet io toml_to_string decode_tunnel tunnel_read_error resolve_server_paths default_tunnel Hq
    (tunnel_path st) (tunnel_edit op) nonce d t Htt (Hnt _ (temporary_file_temporary _ _)) Ht) as (r' & d'' & E' & Ho & Hr').
  unfold edit_tunnel_file in E. rewrite E in E'. injection E' as <- <-. rewrite apply_tunnel_edit in Hr'.
  assert (Hpx : files d' !! proxy_path st = files d !! proxy_path st) by by apply Ho.
  split; [intros q Hqt; rewrite Ho; [by apply Hnt|congruence]|].
  destruct r as [[stored rc]|e|]; [| |done]; destruct Hr as [-> _].
  - destruct Hr' as (-> & _ & s & Hs1 & Hs2). split.
    + split; cbn; [rewrite Hs1; eauto|rewrite Hpx; apply Hs|done].
    + split; [unfold held; by rewrite Hs1, Hs2|by rewrite (held_ext _ _ _ _ _ Hpx)].
  - destruct Hr' as [Heq Hf]. rewrite Heq. split.
    + split; [rewrite Hf; apply Hs|rewrite Hpx; apply Hs|apply Hs].
    + by split; rewrite (held_ext _ _ d).
Qed.

Lemma mutate_proxy_quiet runtime op u nonce o d' st' : proxy_precheck op = Ok u →
  mutate_proxy runtime (proxy_edit op) nonce st d = (o, d', st') → quiet_end st' d' t (accept_proxy op p).
Proof.
  intros Hpre E. apply mutate_proxy_inv in E as (r & E & Hr).
  destruct Hpaths as (Htt & Hpt & Hne), Hc as [Ht Hp].
  destruct (edit_file_quiet io proxy_to_string decode_proxy proxy_read_error resolve_proxy default_proxy Hq
    (proxy_path st) (proxy_edit op) nonce d p Hpt (Hnt _ (temporary_file_temporary _ _)) Hp) as (r' & d'' & E' & Ho & Hr').
  unfold edit_proxy_file in E. rewrite E in E'. injection E' as <- <-. rewrite (apply_proxy_edit op p u Hpre) in Hr'.
  assert (Htx : files d' !! tunnel_path st = files d !! tunnel_path st) by by apply Ho.
  split; [intros q Hqt; rewrite Ho; [by apply Hnt|congruence]|].
  destruct r as [[stored rc]|e|]; [| |done]; destruct Hr as [-> _].
  - destruct Hr' as (-> & _ & s & Hs1 & Hs2). split.
    + split; cbn; [rewrite Htx; apply Hs|rewrite Hs1; eauto|done].
    + split; [by rewrite (held_ext _ _ _ _ _ Htx)|unfold held; by rewrite Hs1, Hs2].
  - destruct Hr' as [Heq Hf]. rewrite Heq. split.
    + split; [rewrite Htx; apply Hs|rewrite Hf; apply Hs|apply Hs].
    + by split; rewrite (held_ext _ _ d).
Qed.

Lemma reload_quiet kind st' d' : reload kind st d = (st', d') → quiet_end st' d' t p.
Proof.
  intros [Hf Hst]%reload_inv. destruct (quiet_same d' Hf) as (Hnt' & Hs' & Hc').
  split; [done|]. split; [|done].
  destruct Hst as [->|[(-> & c & -> & Hl)|(-> & c & -> & Hl)]]; [done|..]; apply load_optional_sound in Hl; try done;
    split; cbn; try apply Hs'; try done; rewrite Hf.
  - destruct (files d !! tunnel_path st); naive_solver.
  - destruct (files d !! proxy_path st); [|by rewrite Hl]. destruct Hl as (x & ? & ->). by exists x.
Qed.

Lemma run_call_quiet call :
  quiet_end (run_call (st, d) call).1 (run_call (st, d) call).2 (tunnel_call t call) (proxy_call p call).
Proof.
  destruct call as [runtime op nonce|runtime op nonce|kind|id]; cbn [run_call tunnel_call proxy_call fst snd].
  - unfold tunnel_method. destruct (mutate_tunnel _ _ _ _ _) as [[o d'] st'] eqn:E. by eapply mutate_tunnel_quiet.
  - unfold proxy_method. destruct (proxy_precheck op) as [u|e] eqn:Hpre;
      [|unfold accept_proxy; rewrite Hpre; by apply quiet_same].
    destruct (mutate_proxy _ _ _ _ _) as [[o d'] st'] eqn:E. by eapply mutate_proxy_quiet.
  - destruct (reload kind st d) as [st' d'] eqn:E. by eapply reload_quiet.
  - destruct (dns_account id st d) as [o d'] eqn:E. by apply quiet_same, (dns_account_files id st d o).
Qed.
End quiet.
End store.

(** ** Theorems *)

(** C3: whatever is requested of the store, whichever system calls fail and
    wherever the process dies, each configuration file is either as it was
    before or holds a valid configuration; no other file changes except
    temporary ones. *)
Theorem config_files_valid {H : Host} {TS : Toml ServerConfig} {UL : UriLib} {PT : ProxyToml} {PW : ProxyTomlWriter}
  io sha256 toml_string calls st d :
  paths_ok st →
  let d' := (run_calls io sha256 toml_string (st, d) calls).2 in
  (files d' !! tunnel_path st = files d !! tunnel_path st ∨
   ∃ s c, files d' !! tunnel_path st = Some s ∧ toml_from_str s = Ok c ∧ wf_server c) ∧
  (files d' !! proxy_path st = files d !! proxy_path st ∨
   ∃ s c, files d' !! proxy_path st = Some s ∧ ProxyConfig_read (Ok s) (proxy_path st) = Ok c ∧ wf_proxy c) ∧
  (∀ q, q ≠ tunnel_path st → q ≠ proxy_path st → ¬ store_temporary q → files d' !! q = files d !! q).
Proof.
  intros Hp d'. assert (Hk : files_kept io st d d').
  { subst d'. unfold run_calls. assert (Hgen : ∀ calls w, paths_ok w.1 → same_paths w.1 (foldl (run_call io sha256 toml_string) w calls).1 ∧
      files_kept io w.1 w.2 (foldl (run_call io sha256 toml_string) w calls).2).
    { clear. induction calls as [|call calls IH]; intros w Hp; cbn [foldl]; [by split; [|apply files_kept_same]|].
      destruct (run_call_files io sha256 toml_string call w Hp) as [[Ht Hq] Hk].
      destruct (IH (run_call io sha256 toml_string w call)) as [[Ht' Hq'] Hk'];
        [unfold paths_ok; by rewrite Ht, Hq|]. split; [split; congruence|].
      eapply files_kept_trans; [done|]. unfold files_kept in Hk'. by rewrite Ht, Hq in Hk'. }
    by destruct (Hgen calls (st, d) Hp). }
  destruct Hk as (Ht & Hx & Ho). split_and!; [| |done].
  - destruct Ht as [?|(s & c & ? & Hd)]; [by left|right]. apply decode_tunnel_ok in Hd as [? ?]. eauto 8.
  - destruct Hx as [?|(s & c & Hs & Hd)]; [by left|right]. exists s, c. split; [done|].
    split; [by apply (decode_proxy_ok io s (proxy_path st))|by eapply decode_proxy_valid].
Qed.

(** C4: when no system call fails, no edit is lost: after any sequence of
    requests, in any order, each file holds the configuration that the
    accepted edits make of the first one, one after another; a refused edit
    changes nothing; and the snapshot and the dashboard show what the files
    hold. *)
Theorem edits_are_sequential {H : Host} {TS : Toml ServerConfig} {UL : UriLib} {PT : ProxyToml} {PW : ProxyTomlWriter}
  io sha256 toml_string calls st d t p :
  (∀ n, sys n = SysOk) → paths_ok st → no_temporaries d → synced io st d → configs io st d t p →
  let '(st', d') := run_calls io sha256 toml_string (st, d) calls in
  synced io st' d' ∧ same_paths st st' ∧ configs io st' d' (foldl tunnel_call t calls) (foldl proxy_call p calls).
Proof.
  intros Hq. unfold run_calls. revert st d t p.
  induction calls as [|call calls IH]; intros st d t p Hp Hnt Hs Hc; cbn [foldl]; [done|].
  destruct (run_call_files io sha256 toml_string call (st, d) Hp) as [[Ht Hx] _].
  destruct (run_call_quiet io sha256 toml_string Hq st d t p Hp Hnt Hs Hc call) as (Hnt' & Hs' & Hc').
  destruct (run_call io sha256 toml_string (st, d) call) as [st' d']. cbn [fst snd] in *.
  assert (Hp' : paths_ok st') by (unfold paths_ok; by rewrite Ht, Hx).
  assert (Hc1 : configs io st' d' (tunnel_call t call) (proxy_call p call)) by (unfold configs; by rewrite Ht, Hx).
  specialize (IH st' d' _ _ Hp' Hnt' Hs' Hc1). destruct (foldl _ _ calls) as [st2 d2].
  destruct IH as (? & [Ht2 Hx2] & ?). split; [done|]. split; [split; congruence|done].
Qed.

(** A state of the configuration the tunnel runtime published. *)
Definition published (sha256 : str → str) (toml_string : ServerConfig → result str str)
  (s : TunnelRuntime.ConfigApplyState) : Prop :=
  ∃ rt, s = config_status rt ∧ (fingerprint s = None ∨ ∃ rt0 c,
    TunnelRuntime.report_config_applied sha256 toml_string rt0 c = Ok rt ∨
    ∃ e, TunnelRuntime.report_config_failed sha256 toml_string rt0 c e = Ok rt).

Lemma published_applied sha256 toml_string s c fp :
  published sha256 toml_string s → config_fingerprint sha256 toml_string c = Ok fp → fingerprint s = Some fp →
  (∀ c', config_fingerprint sha256 toml_string c' = Ok fp → c' = c) → last_apply_error (TunnelRuntime.status s) = None →
  ∃ rt0 rt, TunnelRuntime.report_config_applied sha256 toml_string rt0 c = Ok rt ∧ s = config_status rt.
Proof.
  intros (rt & -> & [Hn|(rt0 & c' & [E|(e & E)])]) Hfp Hs Hinj Hno; [congruence| |].
  - exists rt0, rt. split; [|done]. rewrite <- (Hinj c'); [done|]. revert E Hs.
    unfold TunnelRuntime.report_config_applied. destruct (config_fingerprint _ _ c'); [|done]. by intros [= <-] [= <-].
  - revert E Hno. unfold TunnelRuntime.report_config_failed. destruct (config_fingerprint _ _ c'); [|done]. by intros [= <-].
Qed.

(** A mutation of the tunnel configuration that returns has saved a valid
    configuration, shows it in the snapshot, and, when a runtime is there, the
    runtime has reported since then that exactly this configuration, with its
    paths resolved, is applied.  One that fails because of the runtime has
    saved it too; any other failure leaves the store as it was. *)
Theorem acknowledged_is_applied {H : Host} {TS : Toml ServerConfig} io sha256 toml_string
  runtime edit nonce st d o d' st' :
  ¬ store_temporary (tunnel_path st) →
  mutate_tunnel io sha256 toml_string runtime edit nonce st d = (o, d', st') →
  let saved := λ c, st' = update_tunnel (Some c) st ∧
    ∃ s, files d' !! tunnel_path st = Some s ∧ toml_from_str s = Ok c ∧ wf_server c in
  match o with
  | Done c => saved c ∧
      ∀ after observed fp, runtime = Some (after, observed) → Forall (published sha256 toml_string) observed →
        let applied := resolve_server_paths (tunnel_path st) c in
        config_fingerprint sha256 toml_string applied = Ok fp →
        (∀ c', config_fingerprint sha256 toml_string c' = Ok fp → c' = applied) →
        ∃ rt0 rt, TunnelRuntime.report_config_applied sha256 toml_string rt0 applied = Ok rt ∧
          config_status rt ∈ observed ∧ status_revision (TunnelRuntime.status (config_status rt)) ≠ after
  | Failed e => (∃ c, saved c ∧ confirm_tunnel io sha256 toml_string runtime
                                  (resolve_server_paths (tunnel_path st) c) = Err e) ∨ st' = st
  | Crashed => st' = st
  end.
Proof.
  intros Hnt E saved. apply mutate_tunnel_inv in E as (r & E & Hr).
  apply edit_file_inv in E as [_ HE]; [|done]. destruct r as [[stored rc]|e|]; [|by destruct Hr as [-> ->]; auto..].
  destruct Hr as [Hst ->].
  destruct HE as [[_ Hno]|(s & c & _ & _ & Hs & Hc & _ & _ & _ & Hd)]; [by destruct (Hno (stored, rc))|].
  specialize (Hd _ eq_refl). injection Hd as -> ->. apply (decode_tunnel_ok io) in Hc.
  assert (Hsaved : saved c) by (split; [done|eauto]).
  destruct (confirm_tunnel io sha256 toml_string runtime _) as [u|e] eqn:Hcf; [|left; eauto].
  split; [done|]. intros after observed fp -> Hpub applied Hfp Hinj. revert Hcf. subst applied.
  unfold confirm_tunnel, TunnelRuntime.wait_for_config. rewrite Hfp. cbn [mbind result_bind map_err].
  destruct (list_find _ observed) as [[i a]|] eqn:Hf; [|done]. cbn.
  apply list_find_Some in Hf as (Ha & [Hrev Hafp] & _). apply list_elem_of_lookup_2 in Ha as Hin.
  destruct (last_apply_error (TunnelRuntime.status a)) eqn:Hno; [done|intros _].
  rewrite Forall_forall in Hpub.
  destruct (published_applied _ _ _ _ _ (Hpub a Hin) Hfp Hafp Hinj Hno) as (rt0 & rt & ? & ->).
  by exists rt0, rt.
Qed.

(** The same for the proxy, which compares whole configurations. *)
Theorem acknowledged_proxy {H : Host} {UL : UriLib} {PT : ProxyToml} {PW : ProxyTomlWriter} io
  runtime edit nonce st d o d' st' :
  ¬ store_temporary (proxy_path st) →
  mutate_proxy io runtime edit nonce st d = (o, d', st') →
  let saved := λ c, st' = update_proxy (Some c) st ∧
    ∃ s, files d' !! proxy_path st = Some s ∧ decode_proxy io s = Ok c ∧ wf_proxy c in
  match o with
  | Done v => ∃ c, v = config_view c ∧ saved c ∧
      ∀ after observed, runtime = Some (after, observed) →
        ∃ a, a ∈ observed ∧ ca_config a = Some (resolve_proxy (proxy_path st) c) ∧
          ps_revision (ca_status a) ≠ after ∧ ps_last_apply_error (ca_status a) = None
  | Failed e => (∃ c, saved c ∧ confirm_proxy runtime (resolve_proxy (proxy_path st) c) = Err e) ∨ st' = st
  | Crashed => st' = st
  end.
Proof.
  intros Hnt E saved. apply mutate_proxy_inv in E as (r & E & Hr).
  apply edit_file_inv in E as [_ HE]; [|done]. destruct r as [[stored rc]|e|]; [|by destruct Hr as [-> ->]; auto..].
  destruct Hr as [Hst ->].
  destruct HE as [[_ Hno]|(s & c & _ & _ & Hs & Hc & _ & _ & _ & Hd)]; [by destruct (Hno (stored, rc))|].
  specialize (Hd _ eq_refl). injection Hd as -> ->.
  assert (Hsaved : saved c) by (split; [done|]; exists s; split_and!; [done|done|by eapply decode_proxy_valid]).
  destruct (confirm_proxy runtime _) as [u|e] eqn:Hcf; [|left; eauto].
  exists c. split_and!; [done|done|]. intros after observed ->. revert Hcf. unfold confirm_proxy.
  destruct (omap _ observed) as [|ps l] eqn:Ho; [done|]. cbn.
  destruct (ps_last_apply_error ps) eqn:Hno; [done|intros _].
  assert (Hin : ps ∈ omap (CertManager.wait_for_config (resolve_proxy (proxy_path st) c) after) observed)
    by (rewrite Ho; left).
  apply list_elem_of_omap in Hin as (a & Ha & Hw). exists a. revert Hw. unfold CertManager.wait_for_config.
  destruct (N.eqb_spec (ps_revision (ca_status a)) after); [done|]. cbn.
  destruct (ca_config a); [|done]. case_bool_decide; [|done]. intros [= <-]. split_and!; congruence.
Qed.

(** ** Witnesses *)

Definition plain_host : Host := {| process_id := 0; sys := λ _, SysOk; partial := λ _, None |}.

(** The disk runs full at the fourth call. *)
Definition full_host : Host :=
  {| process_id := 0; sys := λ n, if bool_decide (n = 3)%nat then SysFail (OtherKind "no space") else SysOk;
     partial := λ _, Some (lit "quic") |}.

(** [sample_server] without its group [office]. *)
Definition home_server : ServerConfig :=
  match delete_group "office" sample_server with Ok c => c | Err _ => sample_server end.

Definition sample_server_toml : Toml ServerConfig.
Proof.
  refine {| toml_to_string := λ c, if decide (c = sample_server) then Ok (lit "both") else
                                   if decide (c = home_server) then Ok (lit "home") else Err (lit "no");
            toml_from_str := λ s, if decide (s = lit "both") then Ok sample_server else
                                  if decide (s = lit "home") then Ok home_server else Err (lit "no") |}.
  intros c s H. repeat case_decide; simplify_eq; done.
Defined.

Definition sample_proxy_toml : ProxyToml :=
  {| parse_current := λ s, if decide (s = lit "proxy") then Ok sample_loaded else Err (lit "no");
     parse_legacy := λ _, Err (lit "no") |}.
Definition sample_proxy_writer : @ProxyTomlWriter sample_proxy_toml.
Proof.
  refine {| proxy_to_string := λ c, if decide (c = sample_loaded) then Ok (lit "proxy") else Err (lit "no") |}.
  intros c s H. destruct (decide (c = sample_loaded)) as [->|]; [|discriminate].
  injection H as <-. cbn [parse_current sample_proxy_toml]. by rewrite decide_True.
Defined.

Definition sample_io : ErrorKind → str := λ _, lit "io".
Definition fp_toml (c : ServerConfig) : result str str :=
  if decide (c = home_server) then Ok (lit "home") else Err (lit "no").

Definition tunnel_file : Path := [RootDir; Normal "etc"; Normal "server.toml"].
Definition proxy_file : Path := [RootDir; Normal "etc"; Normal "proxy.toml"].
Definition sample_disk : disk :=
  {| files := <[tunnel_file := lit "both"]> (<[proxy_file := lit "proxy"]> ∅); calls := 0; temporary_file_id := 0 |}.
Definition sample_store : StoreInner :=
  let s := {| snap_tunnel := Some sample_server; snap_proxy := Some (config_view sample_loaded) |} in
  {| st_snapshot := s; st_revision := 1; st_dashboard := dashboard_for s 1 true true;
     st_tunnel_enabled := true; st_proxy_enabled := true; tunnel_path := tunnel_file; proxy_path := proxy_file |}.

Lemma not_store_temporary p : (match path_file_name p with
    | Some n => bool_decide (drop (length n - 4) n = lit ".tmp") | None => false end) = false → ¬ store_temporary p.
Proof.
  intros Hf [n Hn]. rewrite Hn, length_app in Hf. apply bool_decide_eq_false in Hf. apply Hf.
  replace (length n + length (lit ".tmp") - 4)%nat with (length n)
    by (change (length (lit ".tmp")) with 4%nat; lia). by rewrite drop_app_length.
Qed.

Lemma sample_paths_ok : paths_ok sample_store.
Proof. split_and!; [apply not_store_temporary; by vm_compute..|done]. Qed.

Lemma config_files_valid_witness :
  let d' := (@run_calls full_host sample_server_toml sample_uri sample_proxy_toml sample_proxy_writer sample_io id fp_toml
               (sample_store, sample_disk) [CallTunnel None (DeleteGroup "office") "0"]).2 in
  paths_ok sample_store ∧
  (files d' !! tunnel_file = Some (lit "both") ∨
   ∃ s c, files d' !! tunnel_file = Some s ∧ toml_from_str (Toml := sample_server_toml) s = Ok c ∧ wf_server c).
Proof.
  split; [exact sample_paths_ok|].
  exact (proj1 (@config_files_valid full_host sample_server_toml sample_uri sample_proxy_toml sample_proxy_writer
    sample_io id fp_toml [CallTunnel None (DeleteGroup "office") "0"] sample_store sample_disk sample_paths_ok)).
Defined.

Lemma sample_no_temporaries : no_temporaries sample_disk.
Proof.
  intros q Hq. unfold sample_disk. cbn [files].
  rewrite !lookup_insert_ne; [done| |]; intros <-; by destruct sample_paths_ok as (? & ? & _).
Qed.

Lemma edits_are_sequential_witness :
  let w := @run_calls plain_host sample_server_toml sample_uri sample_proxy_toml sample_proxy_writer sample_io id fp_toml
             (sample_store, sample_disk)
             [CallTunnel None (DeleteGroup "lab") "0"; CallProxy None (DeleteRoute "none") "1";
              CallTunnel None (DeleteGroup "office") "2"; CallReload KProxy] in
  held (@decode_tunnel sample_server_toml sample_io) default_tunnel w.2 tunnel_file = Some home_server ∧
  snap_tunnel (st_snapshot w.1) = Some home_server.
Proof.
  assert (Hs : @synced sample_server_toml sample_uri sample_proxy_toml sample_io sample_store sample_disk).
  { split; [exists sample_server|exists sample_loaded|]; vm_compute; auto. }
  assert (Hc : @configs sample_server_toml sample_uri sample_proxy_toml sample_io sample_store sample_disk
    sample_server sample_loaded) by (split; vm_compute; reflexivity).
  pose proof (@edits_are_sequential plain_host sample_server_toml sample_uri sample_proxy_toml sample_proxy_writer
    sample_io id fp_toml
    [CallTunnel None (DeleteGroup "lab") "0"; CallProxy None (DeleteRoute "none") "1";
     CallTunnel None (DeleteGroup "office") "2"; CallReload KProxy]
    sample_store sample_disk sample_server sample_loaded (λ _, eq_refl) sample_paths_ok sample_no_temporaries Hs Hc) as Hw.
  destruct (run_calls _ _ _ _ _) as [st' d']. destruct Hw as (Hs' & [Ht _] & [Hc' _]). cbn [fst snd].
  rewrite Ht in Hc'. assert (Hc2 : held (@decode_tunnel sample_server_toml sample_io) default_tunnel d' tunnel_file = Some home_server).
  { etransitivity; [exact Hc'|]. vm_compute. reflexivity. }
  split; [exact Hc2|]. destruct Hs' as [Hst _ _]. rewrite Ht in Hst. revert Hst Hc2. unfold held.
  change (tunnel_path sample_store) with tunnel_file. destruct (files d' !! tunnel_file) as [s|].
  - intros (c & E & ->). rewrite E. intros [= ->]. reflexivity.
  - intros _ E. exfalso. revert E. vm_compute. discriminate.
Defined.

Definition confirming_runtime : TunnelRuntime.TunnelRuntime :=
  match TunnelRuntime.report_config_applied id fp_toml TunnelRuntime_new home_server with Ok rt => rt | Err _ => TunnelRuntime_new end.

Lemma acknowledged_is_applied_witness :
  ∃ d' st', @mutate_tunnel plain_host sample_server_toml sample_io id fp_toml
      (Some (0, [config_status confirming_runtime])) (delete_group "office") "0" sample_store sample_disk =
    (Done home_server, d', st') ∧
  ∃ rt0 rt, TunnelRuntime.report_config_applied id fp_toml rt0 home_server = Ok rt ∧
    config_status rt ∈ [config_status confirming_runtime].
Proof.
  destruct (mutate_tunnel sample_io id fp_toml (Some (0, [config_status confirming_runtime])) (delete_group "office") "0"
              sample_store sample_disk) as [[o d'] st'] eqn:E.
  assert (Ho : o = Done home_server).
  { change o with (o, d', st').1.1. rewrite <- E. vm_compute. reflexivity. }
  subst o. exists d', st'. split; [done|].
  pose proof (@acknowledged_is_applied plain_host sample_server_toml sample_io id fp_toml _ _ _ _ _ _ _ _
    (proj1 sample_paths_ok) E) as (_ & Hw).
  destruct (Hw 0 [config_status confirming_runtime] (lit "home") eq_refl) as (rt0 & rt & H1 & H2 & _).
  - apply Forall_singleton. exists confirming_runtime. split; [done|right].
    exists TunnelRuntime_new, home_server. left. vm_compute. reflexivity.
  - vm_compute. reflexivity.
  - intros c'. unfold config_fingerprint, fp_toml. destruct (decide (c' = home_server)) as [->|]; [|discriminate].
    intros _. vm_compute. reflexivity.
  - exists rt0, rt. split; [|exact H2]. rewrite <- H1. f_equal.
Defined.
