(* ===== verification/StoreRuns.v ===== *)
(** * StoreRuns: concurrent requests to [ConfigStore]

    [Store] runs one request at a time.  Here the requests interleave at their
    suspension points.  [Edits]: the mutations of one file, with the semaphore
    that serialises them, the blocking task that does the work, and the
    cancellation of a request when its client goes away.  [Publishing]: the
    updates of the snapshot and the dashboard, with the read-write lock
    between them. *)

From S2P Require Import Prelude RustStr Net TunnelConfig ProxyConfig ConfigEdits Store.

Module Edits.

(** What an edit makes of a configuration, if it is accepted. *)
Definition edit_fun (T : Type) : Type := T → option T.

Section edits.
Context {T : Type}.

(** ** State

    A request waits for the permit, then for its blocking task, then for the
    runtime.  The task is detached: dropping the request does not stop it. *)
Inductive request :=
  | Waiting (e : edit_fun T)
  | Running
  | Confirming.
Inductive job :=
  | Start (e : edit_fun T)
  | HasRead (e : edit_fun T) (c : T)
  | Finished (r : option T).

Record world := {
  permit : bool;
  file : T;
  snap : T;
  requests : gmap nat request;
  jobs : gmap nat job;
  (** the edits that were written, in order *)
  written : list (edit_fun T);
  (** the requests that were answered with a stored configuration *)
  acknowledged : list nat;
  (** the file was written and the request told that it failed, and no edit
      has brought the snapshot up to date since *)
  unreported : bool }.

(** How the write of an accepted edit ends: stored and read back; failed before
    the file was replaced; failed after it (the directory cannot be flushed,
    or the new file cannot be loaded). *)
Inductive write_end := Stored | NotWritten | NotReported.

Inductive event :=
  | Request (i : nat) (e : edit_fun T)
  | Acquire (i : nat)
  | ReadFile (i : nat) (ok : bool)
  | WriteFile (i : nat) (o : write_end)
  | Join (i : nat)
  (** the runtime confirms the configuration, or does not in time *)
  | Confirmed (i : nat) (ok : bool)
  | Cancel (i : nat).

Definition with_request (w : world) (p : bool) (m : gmap nat request) (j : gmap nat job) (s : T) (l : list nat)
  : world :=
  {| permit := p; file := file w; snap := s; requests := m; jobs := j; written := written w; acknowledged := l;
     unreported := unreported w |}.
Definition with_job (w : world) (i : nat) (j : job) (c : T) (l : list (edit_fun T)) (u : bool) : world :=
  {| permit := permit w; file := c; snap := snap w; requests := requests w; jobs := <[i := j]> (jobs w);
     written := l; acknowledged := acknowledged w; unreported := u |}.
(** [update_tunnel] or [update_proxy] with what was stored. *)
Definition shown (w : world) : world :=
  {| permit := permit w; file := file w; snap := snap w; requests := requests w; jobs := jobs w;
     written := written w; acknowledged := acknowledged w; unreported := false |}.

(** One step of [mutate_tunnel] or [mutate_proxy], up to the next suspension
    point; [None] when it cannot happen. *)
Definition step (ev : event) (w : world) : option world :=
  match ev with
  | Request i e =>
      match requests w !! i, jobs w !! i with
      | None, None => Some (with_request w (permit w) (<[i := Waiting e]> (requests w)) (jobs w) (snap w) (acknowledged w))
      | _, _ => None
      end
  | Acquire i =>
      match permit w, requests w !! i with
      | true, Some (Waiting e) =>
          Some (with_request w false (<[i := Running]> (requests w)) (<[i := Start e]> (jobs w)) (snap w) (acknowledged w))
      | _, _ => None
      end
  | ReadFile i ok =>
      match jobs w !! i with
      | Some (Start e) =>
          Some (with_job w i (if ok then HasRead e (file w) else Finished None) (file w) (written w) (unreported w))
      | _ => None
      end
  | WriteFile i o =>
      match jobs w !! i with
      | Some (HasRead e c) =>
          match e c, o with
          | Some c', Stored => Some (with_job w i (Finished (Some c')) c' (written w ++ [e]) (unreported w))
          | Some c', NotReported => Some (with_job w i (Finished None) c' (written w ++ [e]) true)
          | _, _ => Some (with_job w i (Finished None) (file w) (written w) (unreported w))
          end
      | _ => None
      end
  | Join i =>
      match requests w !! i, jobs w !! i with
      | Some Running, Some (Finished (Some c)) =>
          Some (shown (with_request w false (<[i := Confirming]> (requests w)) (delete i (jobs w)) c (acknowledged w)))
      | Some Running, Some (Finished None) =>
          Some (with_request w true (delete i (requests w)) (delete i (jobs w)) (snap w) (acknowledged w))
      | _, _ => None
      end
  | Confirmed i ok =>
      match requests w !! i with
      | Some Confirming =>
          Some (with_request w true (delete i (requests w)) (jobs w) (snap w) (acknowledged w ++ if ok then [i] else []))
      | _ => None
      end
  | Cancel i =>
      match requests w !! i with
      | Some (Waiting _) =>
          Some (with_request w (permit w) (delete i (requests w)) (jobs w) (snap w) (acknowledged w))
      | Some _ => Some (with_request w true (delete i (requests w)) (jobs w) (snap w) (acknowledged w))
      | None => None
      end
  end.

Fixpoint run (evs : list event) (w : world) : option world :=
  match evs with
  | [] => Some w
  | ev :: evs => w' ← step ev w; run evs w'
  end.

Definition start (c : T) : world :=
  {| permit := true; file := c; snap := c; requests := ∅; jobs := ∅; written := []; acknowledged := [];
     unreported := false |}.

Definition apply_all (c : T) (l : list (edit_fun T)) : T := foldl (λ c e, default c (e c)) c l.

(** ** Serialised edits *)

(** Without cancellation, the request that holds the permit is the only one
    with a task, and the task works on what the file holds. *)
Definition in_step (w : world) : Prop := unreported w = false → snap w = file w.
Definition job_ok (j : job) (w : world) : Prop :=
  match j with
  | Start _ | Finished None => in_step w
  | HasRead _ c => c = file w ∧ in_step w
  | Finished (Some c) => c = file w
  end.
Definition holder_ok (i : nat) (r : request) (w : world) : Prop :=
  match r with
  | Waiting _ => False
  | Running => ∃ j, jobs w = {[i := j]} ∧ job_ok j w
  | Confirming => jobs w = ∅ ∧ in_step w
  end.

Definition waiting (r : request) : Prop := match r with Waiting _ => True | _ => False end.

Record serial (c0 : T) (w : world) : Prop := {
  serial_file : file w = apply_all c0 (written w);
  serial_holder : if permit w
    then jobs w = ∅ ∧ in_step w ∧ map_Forall (λ _, waiting) (requests w)
    else ∃ i r, requests w !! i = Some r ∧ holder_ok i r w ∧
         map_Forall (λ j r', j ≠ i → waiting r') (requests w) }.

Lemma serial_start c0 : serial c0 (start c0).
Proof. split; [done|]. cbn. split_and!; [done|done|apply map_Forall_empty]. Qed.

Lemma apply_all_snoc c l e c' : e (apply_all c l) = Some c' → apply_all c (l ++ [e]) = c'.
Proof. intros He. unfold apply_all in *. rewrite foldl_app. cbn. by rewrite He. Qed.

(** Only the holder is not waiting. *)
Lemma holder_unique c0 w i r : serial c0 w → requests w !! i = Some r → ¬ waiting r →
  permit w = false ∧ holder_ok i r w ∧ map_Forall (λ j r', j ≠ i → waiting r') (requests w).
Proof.
  intros [_ Hh] Hi Hr. destruct (permit w).
  - destruct Hh as (_ & _ & Hw). by destruct (Hr (Hw i r Hi)).
  - destruct Hh as (j & r' & Hj & Hok & Hw). destruct (decide (i = j)) as [->|Hne].
    + rewrite Hi in Hj. by injection Hj as ->.
    + by destruct (Hr (Hw i r Hi Hne)).
Qed.

Lemma holder_job c0 w i j : serial c0 w → jobs w !! i = Some j →
  permit w = false ∧ requests w !! i = Some Running ∧ jobs w = {[i := j]} ∧ job_ok j w ∧
  map_Forall (λ k r, k ≠ i → waiting r) (requests w).
Proof.
  intros [_ Hh] Hj. destruct (permit w).
  { destruct Hh as (He & _). by rewrite He, lookup_empty in Hj. }
  destruct Hh as (k & r & Hk & Hok & Hw).
  destruct r; [done| |destruct Hok as [He _]; by rewrite He, lookup_empty in Hj].
  destruct Hok as (j' & E & Hok). rewrite E in Hj. apply lookup_singleton_Some in Hj as [-> ->]. done.
Qed.

(** The requests after the holder changed its own entry. *)
Lemma others_insert (m : gmap nat request) i r :
  map_Forall (λ j r', j ≠ i → waiting r') m → map_Forall (λ j r', j ≠ i → waiting r') (<[i := r]> m).
Proof. intros Hm j r' [[<- _]|[_ Hj]]%lookup_insert_Some Hne; [done|by apply (Hm j)]. Qed.
Lemma others_delete (m : gmap nat request) i :
  map_Forall (λ j r', j ≠ i → waiting r') m → map_Forall (λ _, waiting) (delete i m).
Proof. intros Hm j r [Hne Hj]%lookup_delete_Some. by apply (Hm j). Qed.

Lemma step_serial c0 ev w w' : (∀ i, ev ≠ Cancel i) → serial c0 w → step ev w = Some w' → serial c0 w'.
Proof.
  intros Hnc Hs. pose proof Hs as [Hf Hh]. destruct ev as [i e|i|i ok|i o|i|i ok|i]; cbn [step]; [..|by destruct (Hnc i)].
  - destruct (requests w !! i) eqn:Hi; [done|]. destruct (jobs w !! i); [done|]. intros [= <-]. split; [done|].
    cbn. destruct (permit w).
    + destruct Hh as (Hj & Hsn & Hw). split_and!; [done|done|]. by apply map_Forall_insert_2.
    + destruct Hh as (k & r & Hk & Hok & Hw). exists k, r. split_and!; [|done|].
      * rewrite lookup_insert_ne; [done|]. by intros ->; rewrite Hi in Hk.
      * apply map_Forall_insert_2; [done|done].
  - destruct (permit w); [|done]. destruct (requests w !! i) as [[e| |]|] eqn:Hi; try done. intros [= <-].
    destruct Hh as (Hj & Hsn & Hw). split; [done|]. cbn. exists i, Running. split_and!.
    + by rewrite lookup_insert_eq.
    + exists (Start e). cbn. by rewrite Hj.
    + apply others_insert. intros j r Hjr _. by apply (Hw j).
  - destruct (jobs w !! i) as [[e| |]|] eqn:Hi; try done. intros [= <-].
    destruct (holder_job _ _ _ _ Hs Hi) as (Hp & Hr & Hj & Hok & Hw). split; [done|]. cbn. rewrite Hp.
    exists i, Running. split_and!; [done| |done]. eexists. cbn. rewrite Hj, insert_singleton_eq. split; [done|]. by destruct ok.
  - destruct (jobs w !! i) as [[|e c|]|] eqn:Hi; try done.
    destruct (holder_job _ _ _ _ Hs Hi) as (Hp & Hr & Hj & [-> Hsn] & Hw).
    destruct (e (file w)) as [c'|] eqn:He; [destruct o|]; intros [= <-];
      (split; cbn; [|rewrite Hp; exists i, Running; split_and!; [done| |done]; eexists; cbn; by rewrite Hj, insert_singleton_eq]);
      try done; rewrite Hf in He; symmetry; exact (apply_all_snoc _ _ _ _ He).
  - destruct (requests w !! i) as [[| |]|] eqn:Hr; try done.
    destruct (jobs w !! i) as [[| |[c|]]|] eqn:Hi; try done; intros [= <-];
      destruct (holder_job _ _ _ _ Hs Hi) as (Hp & _ & Hj & Hok & Hw); (split; [done|]); cbn; rewrite Hj, delete_singleton_eq.
    + exists i, Confirming. split_and!; [by rewrite lookup_insert_eq|split; [done|intros _; exact Hok]|by apply others_insert].
    + split_and!; [done|done|by apply others_delete].
  - destruct (requests w !! i) as [[| |]|] eqn:Hr; try done. intros [= <-].
    destruct (holder_unique _ _ _ _ Hs Hr) as (Hp & [Hj Hsn] & Hw); [by cbn; tauto|].
    split; [done|]. cbn. split_and!; [done|done|by apply others_delete].
Qed.

Lemma run_serial c0 evs w w' : Forall (λ ev, ∀ i, ev ≠ Cancel i) evs → serial c0 w → run evs w = Some w' → serial c0 w'.
Proof.
  revert w. induction evs as [|ev evs IH]; cbn; intros w Hnc Hs E; [by simplify_eq|].
  inversion Hnc as [|?? Hev Hevs]; subst. destruct (step ev w) as [w1|] eqn:E1; [|done]. simpl in E.
  eapply IH; [done| |done]. by eapply step_serial.
Qed.

(** ** Progress *)

Definition no_cancel (evs : list event) : Prop := Forall (λ ev, ∀ i, ev ≠ Cancel i) evs.

Lemma run_app evs1 evs2 w : run (evs1 ++ evs2) w = run evs1 w ≫= run evs2.
Proof. revert w. induction evs1 as [|ev evs IH]; intros w; cbn; [done|]. destruct (step ev w); [apply IH|done]. Qed.

Lemma no_cancel_app l1 l2 : no_cancel l1 → no_cancel l2 → no_cancel (l1 ++ l2).
Proof. apply Forall_app_2. Qed.

(** The request that waits for the runtime releases the permit. *)
Lemma finish_confirming w i : requests w !! i = Some Confirming →
  ∃ w', run [Confirmed i true] w = Some w' ∧ permit w' = true ∧ requests w' = delete i (requests w).
Proof. intros Hr. eexists. cbn. by rewrite Hr. Qed.

(** The steps left to the task of the holder and to the holder itself. *)
Lemma finish_running w i j : requests w !! i = Some Running → jobs w !! i = Some j →
  ∃ evs w', no_cancel evs ∧ run evs w = Some w' ∧ permit w' = true ∧ requests w' = delete i (requests w).
Proof.
  assert (Hfin : ∀ w r, requests w !! i = Some Running → jobs w !! i = Some (Finished r) →
    ∃ evs w', no_cancel evs ∧ run evs w = Some w' ∧ permit w' = true ∧ requests w' = delete i (requests w)).
  { clear w. intros w [c|] Hr Hj.
    - exists [Join i; Confirmed i true]. eexists. split; [by repeat constructor|]. cbn. rewrite Hr, Hj. cbn.
      rewrite lookup_insert_eq. split; [done|]. cbn. split; [done|]. by rewrite delete_insert_eq.
    - exists [Join i]. eexists. split; [by repeat constructor|]. cbn. by rewrite Hr, Hj. }
  assert (Hread : ∀ w e c, requests w !! i = Some Running → jobs w !! i = Some (HasRead e c) →
    ∃ evs w', no_cancel evs ∧ run evs w = Some w' ∧ permit w' = true ∧ requests w' = delete i (requests w)).
  { clear w. intros w e c Hr Hj. destruct (step (WriteFile i Stored) w) as [w1|] eqn:E.
    2:{ cbn in E. rewrite Hj in E. by destruct (e c). }
    assert (Hw1 : requests w1 = requests w ∧ ∃ r, jobs w1 !! i = Some (Finished r)).
    { cbn in E. rewrite Hj in E. destruct (e c); injection E as <-; cbn; rewrite lookup_insert_eq; eauto. }
    destruct Hw1 as [Hr1 [r Hj1]]. rewrite <- Hr1 in Hr.
    destruct (Hfin w1 r Hr Hj1) as (evs & w' & ? & Hrun & ? & Hd).
    exists (WriteFile i Stored :: evs), w'. split; [by constructor|]. cbn [run]. rewrite E. split; [done|]. by rewrite Hd, Hr1. }
  intros Hr Hj. destruct j as [e|e c|r]; [|by eapply Hread|by eapply Hfin].
  destruct (Hread (with_job w i (HasRead e (file w)) (file w) (written w) (unreported w)) e (file w)) as (evs & w' & ? & Hrun & ?);
    [done|apply lookup_insert_eq|].
  exists (ReadFile i true :: evs), w'. split; [by constructor|]. cbn [run step]. by rewrite Hj.
Qed.

Lemma drain c0 n w : serial c0 w → size (requests w) = n →
  ∃ evs w', no_cancel evs ∧ run evs w = Some w' ∧ requests w' = ∅.
Proof.
  revert w. induction n as [n IH] using lt_wf_ind. intros w Hs Hn.
  assert (Hstep : ∀ w1 i, run [] w1 = Some w1 → serial c0 w1 → is_Some (requests w1 !! i) → size (requests w1) = n →
    (∃ evs w', no_cancel evs ∧ run evs w1 = Some w' ∧ permit w' = true ∧ requests w' = delete i (requests w1)) →
    ∃ evs w', no_cancel evs ∧ run evs w1 = Some w' ∧ requests w' = ∅).
  { intros w1 i _ Hs1 Hi Hn1 (evs & w2 & Hnc & Hrun & _ & Hd).
    destruct (IH (size (requests w2))) with (w := w2) as (evs' & w' & Hnc' & Hrun' & He).
    - rewrite Hd, <- Hn1. rewrite map_size_delete. destruct Hi as [r Hi]. rewrite Hi.
      assert (size (requests w1) ≠ 0)%nat; [|lia]. apply map_size_ne_0_lookup. eauto.
    - by eapply run_serial.
    - done.
    - exists (evs ++ evs'), w'. split; [by apply no_cancel_app|]. by rewrite run_app, Hrun. }
  destruct (permit w) eqn:Hp.
  - destruct (decide (requests w = ∅)) as [He|(i & r & Hi)%map_choose]; [by exists [], w; repeat constructor|].
    pose proof (serial_holder _ _ Hs) as Hh. rewrite Hp in Hh. destruct Hh as (Hj & _ & Hw).
    pose proof (Hw i r Hi) as Hr. destruct r as [e| |]; [|done..].
    destruct (step (Acquire i) w) as [w1|] eqn:E; [|cbn in E; by rewrite Hp, Hi in E].
    assert (Hs1 : serial c0 w1) by (eapply step_serial; [|exact Hs|exact E]; done).
    assert (Hw1 : requests w1 !! i = Some Running ∧ jobs w1 !! i = Some (Start e) ∧ size (requests w1) = n).
    { cbn in E. rewrite Hp, Hi in E. injection E as <-. cbn. rewrite !lookup_insert_eq. split_and!; [done|done|].
      by rewrite map_size_insert_Some. }
    destruct Hw1 as (Hr1 & Hj1 & Hn1).
    destruct (Hstep w1 i eq_refl Hs1 ltac:(by rewrite Hr1) Hn1 (finish_running _ _ _ Hr1 Hj1)) as (evs & w' & Hnc & Hrun & He).
    exists (Acquire i :: evs), w'. split; [by constructor|]. cbn [run]. by rewrite E.
  - pose proof (serial_holder _ _ Hs) as Hh. rewrite Hp in Hh. destruct Hh as (i & r & Hi & Hok & _).
    apply (Hstep w i eq_refl Hs ltac:(by rewrite Hi) Hn). destruct r; [done| |].
    + destruct Hok as (j & Hj & _). eapply finish_running; [done|]. by rewrite Hj, lookup_singleton_eq.
    + destruct (finish_confirming w i Hi) as (w' & ? & ? & ?). exists [Confirmed i true], w'. by repeat constructor.
Qed.

(** ** Theorems *)

(** Without a failure after the replacement nothing is unreported. *)
Lemma run_reported evs : ∀ w w', Forall (λ ev, ∀ i, ev ≠ WriteFile i NotReported) evs → run evs w = Some w' →
  unreported w = false → unreported w' = false.
Proof.
  induction evs as [|ev evs IH]; cbn; intros w w' Hf E Hu; [by simplify_eq|].
  apply Forall_cons in Hf as [Hev Hf]. destruct (step ev w) as [w1|] eqn:E1; [|done]. simpl in E. eapply IH; [done..|].
  destruct ev as [i e|i|i ok|i o|i|i ok|i]; cbn [step] in E1; repeat case_match; simplify_eq; try done. by destruct (Hev i).
Qed.

(** C34: as long as no request is cancelled, the semaphore serialises the edits
    however the requests interleave and whatever of their input and output
    fails: the file holds what the written edits make of the first
    configuration, each applied to the result of the one before; when no edit
    is under way the snapshot shows the file, except after a write whose
    failure came after the file had been replaced and until the next edit
    that succeeds (or the watcher's reload, which is not in this model); and
    all requests can run to their end. *)
Theorem edits_serialised c evs w :
  no_cancel evs → run evs (start c) = Some w →
  file w = apply_all c (written w) ∧
  (permit w = true → jobs w = ∅ ∧ (unreported w = false → snap w = file w)) ∧
  (Forall (λ ev, ∀ i, ev ≠ WriteFile i NotReported) evs → unreported w = false) ∧
  ∃ evs' w', no_cancel evs' ∧ run evs' w = Some w' ∧ requests w' = ∅.
Proof.
  intros Hnc Hr. pose proof (run_serial c _ _ _ Hnc (serial_start c) Hr) as Hs.
  split; [apply Hs|]. split; [|split; [|by eapply drain]].
  - intros Hp. pose proof (serial_holder _ _ Hs) as Hh. rewrite Hp in Hh. by destruct Hh as (? & ? & _).
  - intros Hf. by eapply run_reported.
Qed.

(** An edit can be in the file although its request was told that it failed,
    and the snapshot does not show it; the next edit builds on it. *)
Theorem failed_edit_applies c e c1 :
  e c = Some c1 →
  ∃ evs w, no_cancel evs ∧ run evs (start c) = Some w ∧ requests w = ∅ ∧ acknowledged w = [] ∧
    written w = [e] ∧ file w = c1 ∧ snap w = c.
Proof.
  intros He. exists [Request 1 e; Acquire 1; ReadFile 1 true; WriteFile 1 NotReported; Join 1].
  eexists. split; [by repeat constructor|]. vm_compute. rewrite He. done.
Qed.

(** C35: a cancelled request breaks that: it gives its permit back while its
    task still runs.  There is a run in which an edit is written and
    acknowledged, and then erased by the task of a request that was cancelled
    before: the file holds the cancelled edit only, the snapshot the other. *)
Theorem cancelled_edit_erases c e1 e2 c1 c2 :
  e1 c = Some c1 → e2 c = Some c2 →
  ∃ evs w, run evs (start c) = Some w ∧ requests w = ∅ ∧ acknowledged w = [2%nat] ∧ written w = [e2; e1] ∧
    file w = c1 ∧ snap w = c2.
Proof.
  intros H1 H2.
  exists [Request 1 e1; Acquire 1; ReadFile 1 true; Cancel 1; Request 2 e2; Acquire 2; ReadFile 2 true; WriteFile 2 Stored; Join 2;
          Confirmed 2 true; WriteFile 1 Stored].
  eexists. vm_compute. rewrite H2. cbn. rewrite H1. done.
Qed.

End edits.
End Edits.

(** ** Updates of the snapshot and the dashboard *)

Module Publishing.

(** An update writes the snapshot, takes its revision from the counter and
    then, holding the read lock, sends the dashboard.  [Sending] holds the
    lock. *)
Inductive stage := Written | Counted (revision : N) | Sending (revision : N).

Record world := {
  snapshot : ConfigSnapshot;
  revision : N;
  dashboard : Dashboard;
  stages : gmap nat stage;
  (** the revisions the receivers were sent, in order *)
  sent : list N;
  (** how many updates took a revision *)
  updates : N }.

Section publishing.
Context (tunnel_enabled proxy_enabled : bool).

Inductive event :=
  | Write (i : nat) (s : ConfigSnapshot)
  | Count (i : nat)
  | Lock (i : nat)
  | Send (i : nat).

Definition with_stages (w : world) (s : ConfigSnapshot) (m : gmap nat stage) : world :=
  {| snapshot := s; revision := revision w; dashboard := dashboard w; stages := m; sent := sent w; updates := updates w |}.

Definition is_reader (s : stage) : bool := match s with Sending _ => true | _ => false end.
Definition no_reader (w : world) : bool := bool_decide (map_Forall (λ _ s, is_reader s = false) (stages w)).

(** The write lock excludes every reader; readers do not exclude each other. *)
Definition step (ev : event) (w : world) : option world :=
  match ev with
  | Write i s =>
      if no_reader w
      then match stages w !! i with
           | None => Some (with_stages w s (<[i := Written]> (stages w)))
           | Some _ => None
           end
      else None
  | Count i =>
      match stages w !! i with
      | Some Written =>
          let r := (revision w + 1) mod 2 ^ 64 in
          Some {| snapshot := snapshot w; revision := r; dashboard := dashboard w;
                  stages := <[i := Counted r]> (stages w); sent := sent w; updates := updates w + 1 |}
      | _ => None
      end
  | Lock i =>
      match stages w !! i with
      | Some (Counted r) => Some (with_stages w (snapshot w) (<[i := Sending r]> (stages w)))
      | _ => None
      end
  | Send i =>
      match stages w !! i with
      | Some (Sending r) =>
          Some {| snapshot := snapshot w; revision := revision w;
                  dashboard := dashboard_for (snapshot w) r tunnel_enabled proxy_enabled;
                  stages := delete i (stages w); sent := sent w ++ [r]; updates := updates w |}
      | _ => None
      end
  end.

Fixpoint run (evs : list event) (w : world) : option world :=
  match evs with
  | [] => Some w
  | ev :: evs => w' ← step ev w; run evs w'
  end.

Definition start (s : ConfigSnapshot) : world :=
  {| snapshot := s; revision := 1; dashboard := dashboard_for s 1 tunnel_enabled proxy_enabled; stages := ∅;
     sent := [1]; updates := 0 |}.

(** ** Invariant *)

Definition stage_revision (s : stage) : option N :=
  match s with Written => None | Counted r | Sending r => Some r end.

(** The dashboard shows the snapshot unless an update has yet to send. *)
Definition shown (w : world) : Prop :=
  stages w ≠ ∅ ∨ dashboard w = dashboard_for (snapshot w) (dash_revision (dashboard w)) tunnel_enabled proxy_enabled.

(** No revision is used twice, as long as the counter has not wrapped. *)
Record fresh (w : world) : Prop := {
  fresh_counter : revision w = 1 + updates w;
  fresh_last : last (sent w) = Some (dash_revision (dashboard w));
  fresh_sent : NoDup (sent w) ∧ Forall (λ r, r <= revision w) (sent w);
  fresh_stage : ∀ i s r, stages w !! i = Some s → stage_revision s = Some r → r ∉ sent w ∧ r <= revision w;
  fresh_stages : ∀ i j s s' r, stages w !! i = Some s → stages w !! j = Some s' → stage_revision s = Some r →
                   stage_revision s' = Some r → i = j }.

Lemma step_shown ev w w' : shown w → step ev w = Some w' → shown w'.
Proof.
  intros Hs. destruct ev as [i s|i|i|i]; cbn [step].
  - destruct (no_reader w); [|done]. destruct (stages w !! i); [done|]. intros [= <-]. left. cbn. apply insert_non_empty.
  - destruct (stages w !! i) as [[]|]; try done. intros [= <-]. left. cbn. apply insert_non_empty.
  - destruct (stages w !! i) as [[]|]; try done. intros [= <-]. left. cbn. apply insert_non_empty.
  - destruct (stages w !! i) as [[]|]; try done. intros [= <-]. by right.
Qed.

Lemma step_updates ev w w' : step ev w = Some w' → updates w <= updates w'.
Proof.
  destruct ev as [i s|i|i|i]; cbn [step]; [destruct (no_reader w); [|done]|..];
    destruct (stages w !! i) as [[]|]; try done; intros [= <-]; cbn; lia.
Qed.

(** Changing the entry [i] to one whose revision is new or its own. *)
Lemma stages_insert (P : N → Prop) (m : gmap nat stage) (i : nat) (s : stage) :
  (∀ i s r, m !! i = Some s → stage_revision s = Some r → P r) →
  (∀ r, stage_revision s = Some r → P r ∧ ∀ j s', m !! j = Some s' → j ≠ i → stage_revision s' ≠ Some r) →
  (∀ i j s s' r, m !! i = Some s → m !! j = Some s' → stage_revision s = Some r → stage_revision s' = Some r → i = j) →
  (∀ i' s' r, <[i := s]> m !! i' = Some s' → stage_revision s' = Some r → P r) ∧
  (∀ i' j s' s'' r, <[i := s]> m !! i' = Some s' → <[i := s]> m !! j = Some s'' → stage_revision s' = Some r →
     stage_revision s'' = Some r → i' = j).
Proof.
  intros Hp Hs Hu. split.
  - intros i' s' r [[<- <-]|[_ Hi]]%lookup_insert_Some Hr; [by apply Hs|eauto].
  - intros i' j s' s'' r [[<- <-]|[Hn Hi]]%lookup_insert_Some [[<- <-]|[Hn' Hj]]%lookup_insert_Some Hr Hr'; [done|..].
    + destruct (Hs r Hr) as [_ Hf]. by destruct (Hf j s'' Hj).
    + destruct (Hs r Hr') as [_ Hf]. by destruct (Hf i' s' Hi).
    + by eapply (Hu i' j).
Qed.

Lemma step_fresh ev w w' : updates w' < 2 ^ 64 - 1 → fresh w → step ev w = Some w' → fresh w'.
Proof.
  intros Hb [Hc Hl [Hnd Hle] Hst Hu]. destruct ev as [i s|i|i|i]; cbn [step].
  - destruct (no_reader w); [|done]. destruct (stages w !! i) eqn:Hi; [done|]. intros [= <-].
    destruct (stages_insert (λ r, r ∉ sent w ∧ r <= revision w) (stages w) i Written) as [H1 H2]; try done.
  - destruct (stages w !! i) as [[]|] eqn:Hi; try done. intros [= <-]. cbn in Hb.
    assert (Hr : (revision w + 1) mod 2 ^ 64 = revision w + 1) by (apply N.mod_small; lia). rewrite Hr.
    destruct (stages_insert (λ r, r ∉ sent w ∧ r <= revision w + 1) (stages w) i (Counted (revision w + 1))) as [H1 H2].
    + intros j s r Hj Hsr. destruct (Hst j s r Hj Hsr). split; [done|lia].
    + cbn. intros r [= <-]. split; [split; [|lia]|].
      * rewrite Forall_forall in Hle. intros Hin. specialize (Hle _ Hin). lia.
      * intros j s' Hj _ Hs'. destruct (Hst j s' _ Hj Hs'). lia.
    + done.
    + split; cbn; [lia|done| |done|done]. split; [done|]. eapply Forall_impl; [done|]. cbn. lia.
  - destruct (stages w !! i) as [[|r|]|] eqn:Hi; try done. intros [= <-].
    destruct (stages_insert (λ r, r ∉ sent w ∧ r <= revision w) (stages w) i (Sending r)) as [H1 H2]; try done.
    cbn. intros r' [= <-]. split; [by apply (Hst i (Counted r))|]. intros j s' Hj Hne Hs'.
    by destruct Hne; eapply (Hu j i).
  - destruct (stages w !! i) as [[| |r]|] eqn:Hi; try done. intros [= <-].
    destruct (Hst i _ r Hi eq_refl) as [Hns Hr]. split; cbn.
    + done.
    + by rewrite last_snoc.
    + split; [|by apply Forall_app_2; [|apply Forall_singleton]].
      apply NoDup_app. split_and!; [done| |apply NoDup_singleton]. intros x Hx ->%list_elem_of_singleton. done.
    + intros j s r' [Hne Hj]%lookup_delete_Some Hsr. destruct (Hst j s r' Hj Hsr) as [Hn Hle']. split; [|done].
      rewrite elem_of_app, list_elem_of_singleton. intros [?| ->]; [done|]. by destruct Hne; eapply (Hu i j).
    + intros j k s s' r' [_ Hj]%lookup_delete_Some [_ Hk]%lookup_delete_Some. by eapply Hu.
Qed.

Lemma run_inv evs w w' : shown w → (updates w < 2 ^ 64 - 1 → fresh w) → run evs w = Some w' →
  shown w' ∧ (updates w' < 2 ^ 64 - 1 → fresh w').
Proof.
  revert w. induction evs as [|ev evs IH]; cbn; intros w Hs Hf E; [by simplify_eq|].
  destruct (step ev w) as [w1|] eqn:E1; [|done]. simpl in E. eapply IH; [| |done].
  - by eapply step_shown.
  - intros Hb. eapply step_fresh; [done| |done]. apply Hf. pose proof (step_updates _ _ _ E1). lia.
Qed.

Lemma start_fresh s : fresh (start s).
Proof.
  split; cbn; [done|done| | |].
  - split; [apply NoDup_singleton|by apply Forall_singleton].
  - intros i t r Hi. by rewrite lookup_empty in Hi.
  - intros i j t t' r Hi. by rewrite lookup_empty in Hi.
Qed.

(** ** Theorem *)

(** Whatever way the updates interleave, once none is under way the
    dashboard shows the current snapshot; and its receivers never see a
    revision twice, although the revisions may arrive out of order. *)
Theorem dashboard_converges s evs w :
  run evs (start s) = Some w →
  (stages w = ∅ →
     dashboard w = dashboard_for (snapshot w) (dash_revision (dashboard w)) tunnel_enabled proxy_enabled) ∧
  (updates w < 2 ^ 64 - 1 → NoDup (sent w) ∧ last (sent w) = Some (dash_revision (dashboard w))).
Proof.
  intros Hr. destruct (run_inv evs (start s) w) as [Hs Hf]; [by right|intros _; apply start_fresh|done|].
  split; [intros He; by destruct Hs|]. intros Hb. destruct (Hf Hb) as [_ ? [? _] _ _]. done.
Qed.
End publishing.
End Publishing.

(** ** Witnesses *)

(** An edit of the API as a function of the configuration. *)
Definition stored_edit (op : tunnel_op) (c : ServerConfig) : option ServerConfig :=
  match tunnel_edit op c with
  | Ok x => if is_ok (ServerConfig_validate x) then Some x else None
  | Err _ => None
  end.

Definition lab : GroupConfig := {| group_name := "lab"; group_key := "CCCCCCCCCCCCCCCCCCCCCCCCCCCCCCCC" |}.
Definition attic : GroupConfig := {| group_name := "attic"; group_key := "DDDDDDDDDDDDDDDDDDDDDDDDDDDDDDDD" |}.

Definition two_requests : list (@Edits.event ServerConfig) :=
  [Edits.Request 1 (stored_edit (CreateGroup lab)); Edits.Request 2 (stored_edit (CreateGroup attic));
   Edits.Acquire 1; Edits.ReadFile 1 true; Edits.WriteFile 1 Edits.NotReported; Edits.Join 1;
   Edits.Acquire 2; Edits.ReadFile 2 true; Edits.WriteFile 2 Edits.Stored; Edits.Join 2].

Lemma edits_serialised_witness :
  ∃ w, Edits.run two_requests (Edits.start sample_server) = Some w ∧
    group_name <$> server_groups (Edits.file w) = [lit "office"; lit "home"; lit "lab"; lit "attic"] ∧
    ∃ evs' w', Edits.no_cancel evs' ∧ Edits.run evs' w = Some w' ∧ Edits.requests w' = ∅.
Proof.
  assert (Hg : (λ w, group_name <$> server_groups (Edits.file w)) <$> Edits.run two_requests (Edits.start sample_server) =
    Some [lit "office"; lit "home"; lit "lab"; lit "attic"]) by (vm_compute; reflexivity).
  destruct (Edits.run two_requests (Edits.start sample_server)) as [w|] eqn:E; [|discriminate].
  exists w. split; [reflexivity|].
  destruct (Edits.edits_serialised sample_server two_requests w) as (_ & _ & _ & H); [by repeat constructor|exact E|].
  split; [|exact H]. injection Hg as Hg. exact Hg.
Defined.

Lemma cancelled_edit_erases_witness :
  ∃ evs w, Edits.run evs (Edits.start sample_server) = Some w ∧ Edits.acknowledged w = [2%nat] ∧
    group_name <$> server_groups (Edits.file w) = [lit "office"; lit "home"; lit "lab"].
Proof.
  destruct (Edits.cancelled_edit_erases sample_server (stored_edit (CreateGroup lab)) (stored_edit (CreateGroup attic))
    (with_groups sample_server (server_groups sample_server ++ [lab]))
    (with_groups sample_server (server_groups sample_server ++ [attic]))) as (evs & w & Hr & _ & Ha & _ & Hf & _).
  - vm_compute. reflexivity.
  - vm_compute. reflexivity.
  - exists evs, w. split; [exact Hr|]. split; [exact Ha|]. rewrite Hf. vm_compute. reflexivity.
Defined.

Lemma dashboard_converges_witness :
  let s0 := {| snap_tunnel := None; snap_proxy := None |} in
  let s1 := {| snap_tunnel := Some sample_server; snap_proxy := None |} in
  let s2 := {| snap_tunnel := Some sample_server; snap_proxy := Some (config_view sample_loaded) |} in
  ∃ w, Publishing.run true true
         [Publishing.Write 1 s1; Publishing.Count 1; Publishing.Write 2 s2; Publishing.Count 2;
          Publishing.Lock 2; Publishing.Lock 1; Publishing.Send 2; Publishing.Send 1] (Publishing.start true true s0) = Some w ∧
    Publishing.sent w = [1; 3; 2] ∧
    Publishing.dashboard w = dashboard_for s2 (dash_revision (Publishing.dashboard w)) true true.
Proof.
  intros s0 s1 s2. destruct (Publishing.run true true _ _) as [w|] eqn:E.
  - exists w. split; [reflexivity|].
    destruct (Publishing.dashboard_converges true true s0 _ w E) as [H _].
    vm_compute in E. injection E as <-. split; [vm_compute; reflexivity|]. apply H. reflexivity.
  - exfalso. vm_compute in E. discriminate.
Defined.
