(* ===== verification/Auth.v ===== *)
(** * Auth: [gaterust-control/src/config.rs] and [auth.rs]

    The configuration of the web interface, the login with its limit on failed
    attempts, and the session tokens.  TOML, header values, Argon2 and JSON web
    tokens are the crates' ([ControlToml], [HeaderLib], [Argon], [Jwt]).
    Instants are nanoseconds, [SystemTime] is in seconds; [None] for it is a
    clock before the epoch.  Logins interleave: each is a check, a password
    verification and the recording of its outcome ([Logins]). *)

From S2P Require Import Prelude RustStr Net Paths ConfigEdits.

(** ** The configuration ([config.rs]) *)

Definition DEFAULT_TOKEN_TTL_SECONDS : N := 72 * 60 * 60.

Record WebConfig := {
  web_bind : SocketAddr; static_dir : option Path; admin_username : str; admin_password_hash : str;
  jwt_secret : str; token_ttl_seconds : N; allowed_origins : list str }.
Record ControlConfig := { web : WebConfig }.

(** [http::HeaderValue]: whether a string is one. *)
Class HeaderLib := header_value : str → bool.
Class ControlToml := parse_control : str → result str ControlConfig.

Definition bad_origin `{HeaderLib} (origin : str) : bool :=
  let valid := starts_with "http://" origin || starts_with "https://" origin in
  negb valid || negb (header_value origin).

Definition WebConfig_validate `{HeaderLib} (c : WebConfig) : CResult unit :=
  _ ← reject_if (bool_decide (admin_username c = []) || (64 <? len (admin_username c)))
        (CInvalidConfig "管理员用户名长度必须为 1..=64");
  _ ← reject_if (len (jwt_secret c) <? 32) (CInvalidConfig "jwt_secret 至少需要 32 字节");
  _ ← reject_if (negb ((300 <=? token_ttl_seconds c) && (token_ttl_seconds c <=? DEFAULT_TOKEN_TTL_SECONDS)))
        (CInvalidConfig "token_ttl_seconds 必须为 300..=259200");
  try_for (λ _ origin, reject_if (bad_origin origin) (CInvalidConfig ("allowed_origins 包含无效来源: " ++ origin)))
    tt (allowed_origins c).

Definition with_static_dir (c : WebConfig) (d : option Path) : WebConfig :=
  {| web_bind := web_bind c; static_dir := d; admin_username := admin_username c;
     admin_password_hash := admin_password_hash c; jwt_secret := jwt_secret c;
     token_ttl_seconds := token_ttl_seconds c; allowed_origins := allowed_origins c |}.

(** A relative directory is relative to the configuration file. *)
Definition resolve_static_dir (path : Path) (c : WebConfig) : WebConfig :=
  match static_dir c with
  | Some d => if path_is_relative d
              then with_static_dir c (Some (path_join (default [CurDir] (path_parent path)) d))
              else c
  | None => c
  end.

Definition ControlConfig_load `{HeaderLib, ControlToml} (file : result ErrorKind str) (path : Path)
  : CResult ControlConfig :=
  content ← map_err (CReadConfig path) file;
  config ← map_err (CParseConfig path) (parse_control content);
  let config := {| web := resolve_static_dir path (web config) |} in
  _ ← WebConfig_validate (web config);
  Ok config.

(** ** Tokens and passwords ([auth.rs]) *)

Definition LOGIN_WINDOW : N := 60 * 1000000000.
Definition MAX_LOGIN_FAILURES : N := 5.
Definition MAX_TRACKED_ADDRESSES : nat := 4096.
(** in seconds *)
Definition TOKEN_REFRESH_INTERVAL : N := 60 * 60.

Inductive LoginError := InvalidCredentials | RateLimited | Internal.
Record LoginAttempt := { window_started : N; failures : N }.
Record Claims := { claim_sub : str; claim_iat : N; claim_exp : N }.
Record AuthToken := { token_value : str; expires_at : N }.
Record AuthenticatedSession := { issued_at : N }.

(** [argon2]: a PHC string, and what it says of a password. *)
Class Argon := {
  Phc : Type;
  parse_phc : str → option Phc;
  verify_password : Phc → str → bool;
  encode_salt : str → result str str;
  argon_hash : str → str → result str str;
  argon_hash_verifies : ∀ password salt h, argon_hash password salt = Ok h →
    ∃ p, parse_phc h = Some p ∧ verify_password p password = true }.

(** [jsonwebtoken] with HS256: a token decodes under the secret that signed
    it, until its expiry and a leeway have passed. *)
Class Jwt := {
  jwt_leeway : N;
  jwt_encode : str → Claims → option str;
  jwt_decode : str → N → str → option Claims;
  jwt_roundtrip : ∀ secret c t now, jwt_encode secret c = Some t →
    jwt_decode secret now t = if now <=? claim_exp c + jwt_leeway then Some c else None }.

Notation attempts := (gmap IpAddr LoginAttempt).

Record AuthService := { username : str; password_hash : str; secret : str; token_ttl : N }.

Section auth.
Context {AR : Argon} {JW : Jwt}.

Definition AuthService_new (c : WebConfig) : CResult AuthService :=
  _ ← ok_or (parse_phc (admin_password_hash c))
        (CInvalidConfig "admin_password_hash 不是有效的 Argon2 PHC 字符串");
  Ok {| username := admin_username c; password_hash := admin_password_hash c;
        secret := jwt_secret c; token_ttl := token_ttl_seconds c |}.

Definition check_config `{HeaderLib, ControlToml} (file : result ErrorKind str) (path : Path) : CResult unit :=
  config ← ControlConfig_load file path;
  _ ← AuthService_new (web config);
  Ok tt.

Definition u64_max : N := 2 ^ 64 - 1.
Definition issue_token (s : AuthService) (now : N) : result LoginError AuthToken :=
  let exp := N.min u64_max (now + token_ttl s) in
  match jwt_encode (secret s) {| claim_sub := username s; claim_iat := now; claim_exp := exp |} with
  | Some value => Ok {| token_value := value; expires_at := exp |}
  | None => Err Internal
  end.

(** [now] is the clock of the token library. *)
Definition verify_token (s : AuthService) (now : N) (token : str) : option AuthenticatedSession :=
  match jwt_decode (secret s) now token with
  | Some c => if bool_decide (claim_sub c = username s) then Some {| issued_at := claim_iat c |} else None
  | None => None
  end.

Definition refresh_token (s : AuthService) (session : AuthenticatedSession) (unix : option N)
  : result LoginError (option AuthToken) :=
  match unix with
  | None => Err Internal
  | Some now =>
      if now - issued_at session <? TOKEN_REFRESH_INTERVAL then Ok None
      else token ← issue_token s now; Ok (Some token)
  end.

(** *** The limit on failed logins *)

Definition can_attempt (address : IpAddr) (now : N) (m : attempts) : bool * attempts :=
  let m := filter (λ kv, now - window_started kv.2 < LOGIN_WINDOW) m in
  (match m !! address with None => true | Some a => failures a <? MAX_LOGIN_FAILURES end, m).

(** [min_by_key]: the first entry of the least key. *)
Definition earlier (best : option (IpAddr * LoginAttempt)) (kv : IpAddr * LoginAttempt)
  : option (IpAddr * LoginAttempt) :=
  match best with
  | None => Some kv
  | Some b => if window_started kv.2 <? window_started b.2 then Some kv else best
  end.
Definition oldest (m : attempts) : option IpAddr := fst <$> foldl earlier None (map_to_list m).

Definition record_failure (address : IpAddr) (now : N) (m : attempts) : attempts :=
  let m := if (MAX_TRACKED_ADDRESSES <=? size m)%nat && bool_decide (m !! address = None)
           then match oldest m with Some a => delete a m | None => m end
           else m in
  let a := default {| window_started := now; failures := 0 |} (m !! address) in
  <[address := {| window_started := window_started a; failures := N.min 255 (failures a + 1) |}]> m.

Definition password_ok (s : AuthService) (password : str) : bool :=
  match parse_phc (password_hash s) with
  | Some hash => verify_password hash password
  | None => false
  end.

(** What follows the verification: [now] is the instant of [record_failure],
    [unix] the clock when a token is issued. *)
Definition finish_login (s : AuthService) (address : IpAddr) (user : str) (verified : bool) (now : N)
  (unix : option N) (m : attempts) : result LoginError AuthToken * attempts :=
  if negb verified || bool_decide (user ≠ username s)
  then (Err InvalidCredentials, record_failure address now m)
  else
    let m := delete address m in
    match unix with
    | None => (Err Internal, m)
    | Some t => (issue_token s t, m)
    end.

(** A login that no other one interleaves with. *)
Definition login (s : AuthService) (address : IpAddr) (user password : str) (now later : N) (unix : option N)
  (m : attempts) : result LoginError AuthToken * attempts :=
  let '(ok, m) := can_attempt address now m in
  if ok then finish_login s address user (password_ok s password) later unix m
  else (Err RateLimited, m).

Definition hash_password (salt_bytes password : str) : CResult str :=
  _ ← reject_if (bool_decide (password = [])) (CInvalidConfig "管理员密码不能为空");
  salt ← map_err (λ e, CInvalidConfig ("生成密码盐失败: " ++ e)) (encode_salt salt_bytes);
  map_err (λ e, CInvalidConfig ("生成密码哈希失败: " ++ e)) (argon_hash password salt).

(** ** Lemmas *)

Lemma can_attempt_lookup address now m a att :
  (can_attempt address now m).2 !! a = Some att ↔ m !! a = Some att ∧ now - window_started att < LOGIN_WINDOW.
Proof. unfold can_attempt. cbn [snd]. by rewrite map_lookup_filter_Some. Qed.

Lemma earlier_in l best r : foldl earlier best l = Some r → r ∈ l ∨ best = Some r.
Proof.
  revert best. induction l as [|kv l IH]; cbn; intros best E; [by right|].
  apply IH in E as [Hin|E]; [left; by right|]. unfold earlier in E.
  destruct best as [b|]; [destruct (_ <? _)|]; [left; simplify_eq; left|by right|left; simplify_eq; left].
Qed.

Lemma earlier_some l b : is_Some (foldl earlier (Some b) l).
Proof. revert b. induction l as [|kv l IH]; cbn; intros b; [by eexists|]. destruct (_ <? _); apply IH. Qed.

Lemma oldest_in m a : oldest m = Some a → is_Some (m !! a).
Proof.
  unfold oldest. intros ([k v] & [Hin|?]%earlier_in & ->)%fmap_Some; [|done].
  apply elem_of_map_to_list in Hin. by exists v.
Qed.

Lemma oldest_some m : m ≠ ∅ → is_Some (oldest m).
Proof.
  intros Hm. unfold oldest. rewrite fmap_is_Some. destruct (map_to_list m) as [|kv l] eqn:E; [|apply earlier_some].
  by apply map_to_list_empty_iff in E.
Qed.

Lemma absent_delete (m : attempts) o a : m !! a = None → delete o m !! a = None.
Proof. intros Hm. apply lookup_delete_None. by right. Qed.

(** The entry of another address either stays or is evicted. *)
Lemma record_failure_other address now m a : a ≠ address →
  record_failure address now m !! a = m !! a ∨ record_failure address now m !! a = None.
Proof.
  intros Hne. unfold record_failure. rewrite lookup_insert_ne by done.
  destruct (_ && _); [|by left]. destruct (oldest m) as [o|]; [|by left].
  destruct (decide (o = a)) as [->|]; [right; apply lookup_delete_eq|left; by rewrite lookup_delete_ne].
Qed.

Lemma record_failure_self address now m :
  ∃ w, record_failure address now m !! address = Some {| window_started := w;
         failures := N.min 255 (from_option failures 0 (m !! address) + 1) |} ∧
    (w = now ∨ ∃ a, m !! address = Some a ∧ w = window_started a).
Proof.
  unfold record_failure. rewrite lookup_insert_eq. eexists. split; [f_equal; f_equal|].
  - destruct (m !! address) as [a|] eqn:Hm.
    + by rewrite bool_decide_false, andb_false_r, Hm.
    + cbn. destruct (_ && _); [|by rewrite Hm]. destruct (oldest m) as [o|] eqn:Ho; [|by rewrite Hm].
      by rewrite absent_delete.
  - destruct (m !! address) as [a|] eqn:Hm.
    + rewrite bool_decide_false, andb_false_r, Hm by done. eauto.
    + left. destruct (_ && _); [|by rewrite Hm]. destruct (oldest m) as [o|]; [|by rewrite Hm].
      by rewrite absent_delete.
Qed.

Lemma record_failure_size address now m : (size m <= MAX_TRACKED_ADDRESSES)%nat →
  (size (record_failure address now m) <= MAX_TRACKED_ADDRESSES)%nat.
Proof.
  intros Hs. unfold record_failure. destruct (m !! address) as [a|] eqn:Hm.
  - rewrite (bool_decide_false (Some a = None)), andb_false_r by done. rewrite map_size_insert_Some; [done|by eexists].
  - rewrite bool_decide_true, andb_true_r by done. destruct (Nat.leb_spec MAX_TRACKED_ADDRESSES (size m)).
    + destruct (oldest_some m) as [o Ho]; [intros ->; rewrite map_size_empty in *; unfold MAX_TRACKED_ADDRESSES in *; lia|]. rewrite Ho.
      destruct (oldest_in _ _ Ho) as [b Hb]. rewrite map_size_insert_None by by apply absent_delete.
      rewrite map_size_delete_Some by by eexists. unfold MAX_TRACKED_ADDRESSES in *; lia.
    + rewrite map_size_insert_None by done. lia.
Qed.
End auth.

(** ** Interleaved logins *)

Module Logins.

(** [pending] counts, for an address, the logins that passed [can_attempt] and
    have no outcome yet. *)
Record world := { table : attempts; pending : gmap IpAddr nat }.

Inductive event :=
  | Check (address : IpAddr) (now : N)
  | Fail (address : IpAddr) (now : N)
  | Succeed (address : IpAddr)
  (** the client goes away before the outcome *)
  | Drop (address : IpAddr).

Definition waiting (w : world) (a : IpAddr) : nat := default 0%nat (pending w !! a).

(** A step, when no address has more than [k] logins at a time. *)
Definition step (k : nat) (ev : event) (w : world) : option world :=
  match ev with
  | Check a now =>
      let '(ok, m) := can_attempt a now (table w) in
      if ok then
        if (waiting w a <? k)%nat
        then Some {| table := m; pending := <[a := S (waiting w a)]> (pending w) |}
        else None
      else Some {| table := m; pending := pending w |}
  | Fail a now =>
      match waiting w a with
      | S n => Some {| table := record_failure a now (table w); pending := <[a := n]> (pending w) |}
      | O => None
      end
  | Succeed a =>
      match waiting w a with
      | S n => Some {| table := delete a (table w); pending := <[a := n]> (pending w) |}
      | O => None
      end
  | Drop a =>
      match waiting w a with
      | S n => Some {| table := table w; pending := <[a := n]> (pending w) |}
      | O => None
      end
  end.

Fixpoint run (k : nat) (evs : list event) (w : world) : option world :=
  match evs with
  | [] => Some w
  | ev :: evs => w' ← step k ev w; run k evs w'
  end.

Definition start : world := {| table := ∅; pending := ∅ |}.

Definition failed (w : world) (a : IpAddr) : N := from_option failures 0 (table w !! a).

Record bounded (k : nat) (w : world) : Prop := {
  bounded_size : (size (table w) <= MAX_TRACKED_ADDRESSES)%nat;
  bounded_waiting : ∀ a, (waiting w a <= k)%nat;
  bounded_failed : ∀ a, failed w a + N.of_nat (waiting w a) <= 4 + N.of_nat k }.

Lemma waiting_insert t p a n b :
  waiting {| table := t; pending := <[a := n]> p |} b = if decide (a = b) then n else default 0%nat (p !! b).
Proof.
  unfold waiting. cbn. case_decide as Hab; [by subst; rewrite lookup_insert_eq|by rewrite lookup_insert_ne].
Qed.

(** Tables that forget something. *)
Lemma failed_le w (m : attempts) b : (∀ att, m !! b = Some att → table w !! b = Some att) →
  from_option failures 0 (m !! b) <= failed w b.
Proof. intros Hm. unfold failed. destruct (m !! b) as [att|] eqn:E; [by rewrite (Hm _ eq_refl)|cbn; lia]. Qed.

Lemma step_bounded k ev w w' : bounded k w → step k ev w = Some w' → bounded k w'.
Proof.
  intros [Hs Hw Hf]. destruct ev as [a now|a now|a|a]; cbn [step].
  - destruct (can_attempt a now (table w)) as [ok m] eqn:E.
    assert (Hm : ∀ b att, m !! b = Some att → table w !! b = Some att).
    { intros b att Hb. pose proof (can_attempt_lookup a now (table w) b att) as Hc. rewrite E in Hc. by apply Hc. }
    assert (Hsz : (size m <= MAX_TRACKED_ADDRESSES)%nat).
    { etransitivity; [|exact Hs]. apply map_subseteq_size. apply map_subseteq_spec. auto. }
    destruct ok.
    + destruct (Nat.ltb_spec (waiting w a) k); [|done]. intros [= <-].
      assert (Hok : from_option failures 0 (m !! a) <= 4).
      { unfold can_attempt in E. injection E as E1 <-. destruct (filter _ (table w) !! a); cbn; [|lia].
        apply N.ltb_lt in E1. unfold MAX_LOGIN_FAILURES in E1. lia. }
      split; [done|..]; intros b; rewrite waiting_insert; unfold failed; cbn [table];
        specialize (Hw b); specialize (Hf b); pose proof (failed_le w m b (Hm b)); unfold waiting in *;
        case_decide; subst; lia.
    + intros [= <-]. split; [done|done|]. intros b. unfold failed. cbn [table].
      specialize (Hf b). pose proof (failed_le w m b (Hm b)). unfold waiting in *. cbn [pending] in *. lia.
  - destruct (waiting w a) as [|n] eqn:Hn; [done|]. intros [= <-]. split; [by apply record_failure_size| |].
    + intros b. rewrite waiting_insert. specialize (Hw b). unfold waiting in *. case_decide; subst; lia.
    + intros b. rewrite waiting_insert. unfold failed. cbn [table]. specialize (Hf b). case_decide as Hab.
      * subst b. destruct (record_failure_self a now (table w)) as (t & -> & _). cbn. unfold failed in Hf. lia.
      * assert (Hle : from_option failures 0 (record_failure a now (table w) !! b) <= failed w b).
        { apply failed_le. destruct (record_failure_other a now (table w) b) as [-> | ->]; [by auto|done..]. }
        unfold waiting in Hf. lia.
  - destruct (waiting w a) as [|n] eqn:Hn; [done|]. intros [= <-].
    assert (Hm : ∀ b att, delete a (table w) !! b = Some att → table w !! b = Some att)
      by (intros b att [_ ?]%lookup_delete_Some; done).
    split; [|intros b; rewrite waiting_insert|intros b; rewrite waiting_insert; unfold failed; cbn [table]].
    + etransitivity; [|exact Hs]. apply map_subseteq_size, delete_subseteq.
    + specialize (Hw b). unfold waiting in *. case_decide; subst; lia.
    + specialize (Hf b). pose proof (failed_le w _ b (Hm b)). unfold waiting in *. case_decide; subst; lia.
  - destruct (waiting w a) as [|n] eqn:Hn; [done|]. intros [= <-].
    split; [done|..]; intros b; rewrite waiting_insert; unfold failed; cbn [table]; specialize (Hw b); specialize (Hf b);
      unfold failed, waiting in *; case_decide; subst; lia.
Qed.

Lemma run_bounded k evs w w' : bounded k w → run k evs w = Some w' → bounded k w'.
Proof.
  revert w. induction evs as [|ev evs IH]; cbn; intros w Hb E; [by simplify_eq|].
  destruct (step k ev w) as [w1|] eqn:E1; [|done]. simpl in E. eapply IH; [|done]. by eapply step_bounded.
Qed.

Lemma start_bounded k : bounded k start.
Proof.
  split; [cbn; rewrite map_size_empty; unfold MAX_TRACKED_ADDRESSES; lia|..]; intros a;
    unfold failed, waiting; cbn [table pending start]; rewrite ?lookup_empty; cbn; lia.
Qed.

(** [n] logins at once. *)
Lemma checks_pass n k a now : (n <= k)%nat →
  ∃ p, run k (replicate n (Check a now)) start = Some {| table := ∅; pending := p |} ∧ default 0%nat (p !! a) = n.
Proof.
  assert (Hgen : ∀ m p, (default 0 (p !! a) + m <= k)%nat → ∃ p', run k (replicate m (Check a now)) {| table := ∅; pending := p |} =
    Some {| table := ∅; pending := p' |} ∧ (default 0 (p' !! a) = default 0 (p !! a) + m)%nat).
  { induction m as [|m IH]; intros p Hp; cbn [replicate run]; [exists p; split; [done|lia]|].
    cbn [step]. unfold can_attempt, waiting. cbn [table pending]. rewrite map_filter_empty, lookup_empty.
    destruct (Nat.ltb_spec (default 0%nat (p !! a)) k); [|lia]. simpl.
    destruct (IH (<[a := S (default 0%nat (p !! a))]> p)) as (p' & E & Hp'); [rewrite lookup_insert_eq; cbn; lia|].
    exists p'. split; [done|]. rewrite Hp', lookup_insert_eq. cbn. lia. }
  intros Hn. destruct (Hgen n ∅) as (p & E & Hp); [rewrite lookup_empty; cbn; lia|]. exists p. split; [done|].
  rewrite Hp, lookup_empty. done.
Qed.

Lemma fails_count n k a now t p : default 0%nat (p !! a) = n →
  ∃ w, run k (replicate n (Fail a now)) {| table := t; pending := p |} = Some w ∧
    failed w a = (if (n =? 0)%nat then from_option failures 0 (t !! a) else N.min 255 (from_option failures 0 (t !! a) + N.of_nat n)).
Proof.
  revert t p. induction n as [|n IH]; intros t p Hp; cbn [replicate run]; [by eexists|].
  cbn [step]. unfold waiting. cbn [pending table]. rewrite Hp. simpl.
  destruct (IH (record_failure a now t) (<[a := n]> p)) as (w & E & Hw); [by rewrite lookup_insert_eq|].
  exists w. split; [done|]. rewrite Hw. destruct (record_failure_self a now t) as (s & -> & _). cbn.
  destruct (Nat.eqb_spec n 0); [subst; cbn; done|lia].
Qed.
End Logins.

(** ** Theorems *)

(** The failures that still count for an address. *)
Definition live_failures (address : IpAddr) (now : N) (m : attempts) : N :=
  from_option failures 0 ((can_attempt address now m).2 !! address).

Lemma can_attempt_ok address now m : (can_attempt address now m).1 = (live_failures address now m <? MAX_LOGIN_FAILURES).
Proof. unfold live_failures, can_attempt. cbn [fst snd]. by destruct (filter _ m !! address). Qed.

Section tokens.
Context {AR : Argon} {JW : Jwt}.

Lemma issued_token s now t : issue_token s now = Ok t →
  expires_at t = N.min u64_max (now + token_ttl s) ∧
  ∀ clock, verify_token s clock (token_value t) =
    if clock <=? expires_at t + jwt_leeway then Some {| issued_at := now |} else None.
Proof.
  unfold issue_token, verify_token. destruct (jwt_encode _ _) as [v|] eqn:E; [|done]. intros [= <-]. cbn.
  split; [done|]. intros clock. rewrite (jwt_roundtrip _ _ _ clock E). cbn.
  destruct (_ <=? _); [|done]. cbn. by rewrite bool_decide_true.
Qed.

(** What [record_failure] writes after a check that passed. *)
Lemma recorded address now later m :
  live_failures address now m < MAX_LOGIN_FAILURES →
  ∃ a, record_failure address later (can_attempt address now m).2 !! address = Some a ∧
    failures a = live_failures address now m + 1 ∧
    window_started a = from_option window_started later ((can_attempt address now m).2 !! address).
Proof.
  unfold live_failures, MAX_LOGIN_FAILURES. set (m1 := (can_attempt address now m).2). clearbody m1. intros Hl.
  destruct (record_failure_self address later m1) as (w & Hw & Hwin). eexists. split; [exact Hw|]. cbn.
  split; [lia|]. unfold record_failure in Hw. rewrite lookup_insert_eq in Hw. injection Hw as Hw _. rewrite <- Hw.
  destruct (m1 !! address) as [a|] eqn:Hm.
  - by rewrite (bool_decide_false (Some a = None)), andb_false_r, Hm.
  - cbn. destruct (_ && _); [|by rewrite Hm]. destruct (oldest m1) as [o|]; [|by rewrite Hm]. by rewrite absent_delete.
Qed.

(** A login from an address with five failures in the current window is
    refused without looking at the password.  Otherwise it fails exactly when
    the password or the name is wrong, and the failure is counted in that
    window; with both right the count is cleared and the token it returns is
    accepted, as a session issued at that moment, until it expires and the
    leeway has passed. *)
Theorem login_spec s address user password now later unix m :
  let live := live_failures address now m in
  let good := password_ok s password = true ∧ user = username s in
  let '(r, m') := login s address user password now later unix m in
  match r with
  | Err RateLimited => MAX_LOGIN_FAILURES <= live ∧ live_failures address now m' = live
  | Err InvalidCredentials => live < MAX_LOGIN_FAILURES ∧ ¬ good ∧
      ∃ a, m' !! address = Some a ∧ failures a = live + 1 ∧
        window_started a = from_option window_started later ((can_attempt address now m).2 !! address)
  | Err Internal => live < MAX_LOGIN_FAILURES ∧ good ∧ m' !! address = None ∧
      (∀ t, unix = Some t → is_ok (issue_token s t) = false)
  | Ok t => live < MAX_LOGIN_FAILURES ∧ good ∧ m' !! address = None ∧
      ∃ t0, unix = Some t0 ∧ expires_at t = N.min u64_max (t0 + token_ttl s) ∧
        ∀ clock, verify_token s clock (token_value t) =
          if clock <=? expires_at t + jwt_leeway then Some {| issued_at := t0 |} else None
  end.
Proof.
  intros live good. unfold login. pose proof (can_attempt_ok address now m) as Hok. fold live in Hok.
  pose proof (recorded address now later m) as Hrec. fold live in Hrec.
  assert (Hlive : from_option failures 0 ((can_attempt address now m).2 !! address) = live) by done.
  destruct (can_attempt address now m) as [ok m1] eqn:E. cbn [fst snd] in *. subst ok.
  destruct (N.ltb_spec live MAX_LOGIN_FAILURES) as [Hl|Hl].
  2:{ split; [done|]. unfold live_failures. rewrite <- Hlive. f_equal. unfold can_attempt in *. cbn [snd].
      injection E as _ <-. by rewrite map_filter_filter_l by done. }
  unfold finish_login. destruct (password_ok s password) eqn:Hp; cbn [negb orb].
  2:{ split_and!; [done|by intros [? _]|by apply Hrec]. }
  destruct (decide (user = username s)) as [Hu|Hu].
  2:{ rewrite bool_decide_true by done. split_and!; [done|by intros [_ ?]|by apply Hrec]. }
  rewrite bool_decide_false by tauto. destruct unix as [t0|].
  2:{ split; [done|]. split; [by split|]. split; [apply lookup_delete_eq|done]. }
  destruct (issue_token s t0) as [t|e] eqn:Ht.
  - destruct (issued_token _ _ _ Ht) as [He Hv]. split; [done|]. split; [by split|].
    split; [apply lookup_delete_eq|eauto].
  - assert (e = Internal) as -> by (unfold issue_token in Ht; destruct (jwt_encode _ _); by simplify_eq).
    split; [done|]. split; [by split|]. split; [apply lookup_delete_eq|]. intros ? [= <-]. by rewrite Ht.
Qed.

(** A session can be refreshed once an hour has passed since its token was
    issued, not before, and a refreshed session lasts for the configured time
    from then on.  With a lifetime below an hour, which the configuration
    allows, no token that is still accepted can ever be refreshed. *)
Theorem refresh_spec s now token clock session :
  issue_token s now = Ok token → verify_token s clock (token_value token) = Some session →
  issued_at session = now ∧
  refresh_token s session (Some clock) =
    (if clock <? now + TOKEN_REFRESH_INTERVAL then Ok None else Some <$> issue_token s clock) ∧
  (token_ttl s + jwt_leeway < TOKEN_REFRESH_INTERVAL → refresh_token s session (Some clock) = Ok None).
Proof.
  intros Hi Hv. destruct (issued_token _ _ _ Hi) as [He Hall]. rewrite Hall in Hv.
  destruct (N.leb_spec clock (expires_at token + jwt_leeway)) as [Hc|]; [|done]. injection Hv as <-. cbn [issued_at].
  assert (Hr : refresh_token s {| issued_at := now |} (Some clock) =
    (if clock <? now + TOKEN_REFRESH_INTERVAL then Ok None else Some <$> issue_token s clock)).
  { unfold refresh_token. cbn [issued_at].
    assert ((clock - now <? TOKEN_REFRESH_INTERVAL) = (clock <? now + TOKEN_REFRESH_INTERVAL)) as ->.
    { unfold TOKEN_REFRESH_INTERVAL.
      destruct (N.ltb_spec (clock - now) (60 * 60)), (N.ltb_spec clock (now + 60 * 60)); lia. }
    destruct (_ <? _); [done|]. by destruct (issue_token s clock). }
  split_and!; [done|done|]. intros Hs. rewrite Hr. destruct (N.ltb_spec clock (now + TOKEN_REFRESH_INTERVAL)); [done|]. lia.
Qed.

(** A hashed password is accepted by the service configured with it. *)
Theorem hash_password_verifies c salt password h : admin_password_hash c = h → hash_password salt password = Ok h →
  ∃ s, AuthService_new c = Ok s ∧ password_ok s password = true.
Proof.
  intros Hc. unfold hash_password. rewrite bind_ok. intros (? & _ & H). apply bind_ok in H as (sa & _ & H).
  destruct (argon_hash password sa) as [h'|] eqn:E; [|done]. injection H as ->.
  destruct (argon_hash_verifies _ _ _ E) as (p & Hp & Hv). unfold AuthService_new, password_ok. rewrite Hc, Hp.
  eexists. split; [done|]. cbn. by rewrite Hp.
Qed.
End tokens.

(** C36: at most 4096 addresses are tracked, and when no address has more than
    [k] logins under way at a time, at most [4 + k] failures are counted for an
    address: five when its logins do not overlap. *)
Theorem guesses_bounded k evs w :
  Logins.run k evs Logins.start = Some w →
  (size (Logins.table w) <= MAX_TRACKED_ADDRESSES)%nat ∧
  ∀ a att, Logins.table w !! a = Some att → failures att <= 4 + N.of_nat k.
Proof.
  intros Hr. destruct (Logins.run_bounded _ _ _ _ (Logins.start_bounded k) Hr) as [Hs _ Hf]. split; [done|].
  intros a att Ha. specialize (Hf a). unfold Logins.failed in Hf. rewrite Ha in Hf. cbn in Hf. lia.
Qed.

(** The limit does not hold for logins that overlap: any number of them
    can pass the check at the same instant, and all their passwords are
    verified. *)
Theorem concurrent_guesses n a now :
  ∃ w, Logins.run n (replicate n (Logins.Check a now) ++ replicate n (Logins.Fail a now)) Logins.start = Some w ∧
    Logins.failed w a = N.min 255 (N.of_nat n).
Proof.
  destruct (Logins.checks_pass n n a now) as (p & E & Hp); [lia|].
  destruct (Logins.fails_count n n a now ∅ p Hp) as (w & E' & Hw). exists w. split.
  - assert (Happ : ∀ l1 l2 w0, Logins.run n (l1 ++ l2) w0 = Logins.run n l1 w0 ≫= Logins.run n l2).
    { induction l1 as [|ev l1 IH]; intros l2 w0; cbn; [done|]. destruct (Logins.step n ev w0); [apply IH|done]. }
    rewrite Happ, E. exact E'.
  - rewrite Hw, lookup_empty. cbn [from_option]. destruct (Nat.eqb_spec n 0) as [->|]; [done|]. by f_equal.
Qed.

Lemma origins_ok `{HeaderLib} (f : str → ControlError) l :
  try_for (λ _ origin, reject_if (bad_origin origin) (f origin)) tt l = Ok tt ↔ Forall (λ o, bad_origin o = false) l.
Proof.
  induction l as [|o l IH]; cbn [try_for]; [naive_solver|]. rewrite bind_ok, Forall_cons, <- IH.
  split; [intros ([] & ?%reject_if_ok & ?); done|]. intros [? ?]. exists tt. by rewrite reject_if_ok.
Qed.

(** What [WebConfig::validate] accepts. *)
Theorem WebConfig_validate_spec `{HeaderLib} c :
  WebConfig_validate c = Ok tt ↔
  1 <= len (admin_username c) <= 64 ∧ 32 <= len (jwt_secret c) ∧ 300 <= token_ttl_seconds c <= 259200 ∧
  Forall (λ o, (∃ r, o = lit "http://" ++ r ∨ o = lit "https://" ++ r) ∧ header_value o = true) (allowed_origins c).
Proof.
  unfold WebConfig_validate. rewrite !bind_unit_ok, !reject_if_ok, origins_ok.
  assert (Hlen : admin_username c = [] ↔ len (admin_username c) = 0).
  { unfold len. destruct (admin_username c); cbn; [done|]. split; [done|lia]. }
  assert (Ho : ∀ o, bad_origin o = false ↔ (∃ r, o = lit "http://" ++ r ∨ o = lit "https://" ++ r) ∧ header_value o = true).
  { intros o. unfold bad_origin. rewrite orb_false_iff, !negb_false_iff, orb_true_iff, !starts_with_true. naive_solver. }
  rewrite (Forall_iff (λ o, bad_origin o = false) _ _ Ho), orb_false_iff, bool_decide_eq_false, Hlen, N.ltb_ge, N.ltb_ge, negb_false_iff,
    andb_true_iff, !N.leb_le. unfold DEFAULT_TOKEN_TTL_SECONDS. intuition lia.
Qed.

(** ** Witnesses *)

#[global] Instance Claims_eq_dec : EqDecision Claims.
Proof. solve_decision. Defined.

Definition sample_claims : Claims := {| claim_sub := "admin"; claim_iat := 1000; claim_exp := 1300 |}.
Definition sample_jwt : Jwt.
Proof.
  refine {| jwt_leeway := 60;
            jwt_encode := λ _ c, if decide (c = sample_claims) then Some (lit "token") else None;
            jwt_decode := λ _ now t, if decide (t = lit "token")
                                     then if now <=? 1360 then Some sample_claims else None else None |}.
  intros secret c t now H. destruct (decide (c = sample_claims)) as [->|]; [|discriminate].
  injection H as <-. rewrite decide_True by done. reflexivity.
Defined.
Definition sample_argon : Argon.
Proof.
  refine {| Phc := str; parse_phc := λ s, Some s; verify_password := λ p s, bool_decide (p = s);
            encode_salt := λ s, Ok s; argon_hash := λ password _, Ok password |}.
  intros password salt h [= <-]. exists password. split; [done|]. by apply bool_decide_true.
Defined.

Definition sample_auth : AuthService :=
  {| username := "admin"; password_hash := "pw"; secret := "0123456789abcdef0123456789abcdef"; token_ttl := 300 |}.

Lemma refresh_spec_witness :
  @refresh_token sample_jwt sample_auth {| issued_at := 1000 |} (Some 1360) = Ok None.
Proof.
  apply (@refresh_spec sample_jwt sample_auth 1000 {| token_value := "token"; expires_at := 1300 |} 1360 {| issued_at := 1000 |});
    vm_compute; reflexivity.
Defined.

Lemma hash_password_verifies_witness :
  ∃ s, @AuthService_new sample_argon {| web_bind := SockV4 (Build_Ipv4Addr 127 0 0 1) 8080; static_dir := None;
         admin_username := "admin"; admin_password_hash := "pw"; jwt_secret := []; token_ttl_seconds := 300;
         allowed_origins := [] |} = Ok s ∧ @password_ok sample_argon s "pw" = true.
Proof. by apply (@hash_password_verifies sample_argon _ "salt" "pw" "pw"). Defined.

(** Four failures one after another, then two logins at once: six in all. *)
Definition six_guesses : list Logins.event :=
  let a := V4 (Build_Ipv4Addr 10 0 0 1) in
  [Logins.Check a 0; Logins.Fail a 0; Logins.Check a 0; Logins.Fail a 0; Logins.Check a 0; Logins.Fail a 0;
   Logins.Check a 0; Logins.Fail a 0; Logins.Check a 0; Logins.Check a 0; Logins.Fail a 0; Logins.Fail a 0].

Lemma guesses_bounded_witness :
  ∃ w, Logins.run 2 six_guesses Logins.start = Some w ∧ Logins.failed w (V4 (Build_Ipv4Addr 10 0 0 1)) = 6 ∧
    ∀ a att, Logins.table w !! a = Some att → failures att <= 6.
Proof.
  destruct (Logins.run 2 six_guesses Logins.start) as [w|] eqn:E.
  - exists w. split; [reflexivity|]. destruct (guesses_bounded 2 six_guesses w E) as [_ H]. split.
    + vm_compute in E. injection E as <-. vm_compute. reflexivity.
    + intros a att Ha. exact (H a att Ha).
  - exfalso. vm_compute in E. discriminate.
Defined.
