(* ===== verification/Api.v ===== *)
(** * Api: the handlers of [gaterust-control/src/api.rs]

    A request is the [endpoint] its route selects, with the arguments the
    framework extracted, and the value of its [Authorization] header.  What a
    handler needs from outside is in [env]: the instants and clocks it reads,
    the random name of a temporary file, and the answers of the runtimes, which
    run concurrently.  [None] as a response is the death of the process. *)

From S2P Require Import Prelude RustStr Net Paths Disk TunnelConfig ConfigFiles Protocol TunnelRuntime ServerSession.
From S2P Require Import ProxyConfig CertManager ConfigEdits ConfigStore Store Auth.

(** ** Routes *)

Inductive Method := GET | POST | PUT | DELETE.

(** A handler by its name in the source. *)
Inductive handler :=
  | h_login | h_get_config | h_events | h_session
  | h_set_tunnel_quic | h_create_group | h_update_group | h_delete_group
  | h_create_tunnel | h_update_tunnel | h_delete_tunnel
  | h_generate_key | h_tunnel_runtime | h_disconnect_tunnel | h_generate_client_config
  | h_set_proxy_listener | h_create_acme_account | h_update_acme_account | h_delete_acme_account
  | h_create_dns_account | h_update_dns_account | h_delete_dns_account | h_test_dns_account
  | h_create_certificate | h_update_certificate | h_delete_certificate
  | h_issue_certificate | h_continue_certificate | h_proxy_runtime
  | h_create_route | h_update_route | h_delete_route.

#[global] Instance Method_eq_dec : EqDecision Method.
Proof. solve_decision. Defined.
#[global] Instance handler_eq_dec : EqDecision handler.
Proof. solve_decision. Defined.

Definition module_routes : list (str * list (Method * handler)) :=
  [(lit "/config/tunnel/quic", [(PUT, h_set_tunnel_quic)]);
   (lit "/config/tunnel/groups", [(POST, h_create_group)]);
   (lit "/config/tunnel/groups/{name}", [(PUT, h_update_group); (DELETE, h_delete_group)]);
   (lit "/config/tunnel/tunnels", [(POST, h_create_tunnel)]);
   (lit "/config/tunnel/tunnels/{name}", [(PUT, h_update_tunnel); (DELETE, h_delete_tunnel)]);
   (lit "/groups/key", [(POST, h_generate_key)]);
   (lit "/tunnel/runtime", [(GET, h_tunnel_runtime)]);
   (lit "/tunnel/sessions/{session_id}/tunnels/{name}", [(DELETE, h_disconnect_tunnel)]);
   (lit "/client-config", [(POST, h_generate_client_config)]);
   (lit "/config/proxy/listener", [(PUT, h_set_proxy_listener)]);
   (lit "/config/proxy/acme-accounts", [(POST, h_create_acme_account)]);
   (lit "/config/proxy/acme-accounts/{id}", [(PUT, h_update_acme_account); (DELETE, h_delete_acme_account)]);
   (lit "/config/proxy/dns-accounts", [(POST, h_create_dns_account)]);
   (lit "/config/proxy/dns-accounts/{id}", [(PUT, h_update_dns_account); (DELETE, h_delete_dns_account)]);
   (lit "/config/proxy/dns-accounts/{id}/test", [(POST, h_test_dns_account)]);
   (lit "/config/proxy/certificates", [(POST, h_create_certificate)]);
   (lit "/config/proxy/certificates/{id}", [(PUT, h_update_certificate); (DELETE, h_delete_certificate)]);
   (lit "/proxy/certificates/{id}/issue", [(POST, h_issue_certificate)]);
   (lit "/proxy/certificates/{id}/continue", [(POST, h_continue_certificate)]);
   (lit "/proxy/runtime", [(GET, h_proxy_runtime)]);
   (lit "/config/proxy/routes", [(POST, h_create_route)]);
   (lit "/config/proxy/routes/{name}", [(PUT, h_update_route); (DELETE, h_delete_route)])].

(** The routes behind [require_auth], and all of them with their full paths;
    [true] marks the protected ones. *)
Definition protected_routes : list (str * list (Method * handler)) :=
  [(lit "/config", [(GET, h_get_config)]); (lit "/events", [(GET, h_events)]); (lit "/auth/session", [(GET, h_session)])]
  ++ module_routes.
Definition router : list (Method * str * (handler * bool)) :=
  (POST, lit "/api/auth/login", (h_login, false))
  :: concat (map (λ r : str * list (Method * handler),
       map (λ mh : Method * handler, (mh.1, lit "/api" ++ r.1, (mh.2, true))) r.2) protected_routes).

(** ** Requests and responses *)

Record ClientConfigRequest := {
  cr_group : str; cr_server_address : str; cr_server_name : option str; cr_ca_certificate : option Path;
  cr_services : list ClientServiceConfig }.

Inductive endpoint :=
  | Login (user password : str)
  | GetConfig
  | Events
  | Session
  | EditTunnel (op : tunnel_op)
  | EditProxy (op : proxy_op)
  | TestDns (id : str)
  | IssueCertificate (id : str)
  | ContinueCertificate (id : str)
  | GetProxyRuntime
  | GenerateKey
  | GetTunnelRuntime
  | DisconnectTunnel (session_id : N) (name : str)
  | GenerateClientConfig (r : ClientConfigRequest).

Definition handler_of (e : endpoint) : handler :=
  match e with
  | Login _ _ => h_login
  | GetConfig => h_get_config
  | Events => h_events
  | Session => h_session
  | EditTunnel op => match op with
      | SetQuic _ => h_set_tunnel_quic | CreateGroup _ => h_create_group | UpdateGroup _ _ => h_update_group
      | DeleteGroup _ => h_delete_group | CreateTunnel _ => h_create_tunnel
      | UpdateTunnel _ _ => h_update_tunnel | DeleteTunnel _ => h_delete_tunnel end
  | EditProxy op => match op with
      | SetListener _ => h_set_proxy_listener | CreateAcme _ => h_create_acme_account
      | UpdateAcme _ _ => h_update_acme_account | DeleteAcme _ => h_delete_acme_account
      | CreateDns _ => h_create_dns_account | UpdateDns _ _ => h_update_dns_account
      | DeleteDns _ => h_delete_dns_account | CreateCertificate _ => h_create_certificate
      | UpdateCertificate _ _ => h_update_certificate | DeleteCertificate _ => h_delete_certificate
      | CreateRoute _ => h_create_route | UpdateRoute _ _ => h_update_route | DeleteRoute _ => h_delete_route end
  | TestDns _ => h_test_dns_account
  | IssueCertificate _ => h_issue_certificate
  | ContinueCertificate _ => h_continue_certificate
  | GetProxyRuntime => h_proxy_runtime
  | GenerateKey => h_generate_key
  | GetTunnelRuntime => h_tunnel_runtime
  | DisconnectTunnel _ _ => h_disconnect_tunnel
  | GenerateClientConfig _ => h_generate_client_config
  end.

Inductive StatusCode :=
  | OK | ACCEPTED | NO_CONTENT | BAD_REQUEST | UNAUTHORIZED | NOT_FOUND | CONFLICT | TOO_MANY_REQUESTS
  | INTERNAL_SERVER_ERROR | BAD_GATEWAY.

Inductive body :=
  | Empty
  | ErrorBody (error : str)
  | LoginResponse (token : str) (expires : N)
  | ConfigBody (s : ConfigSnapshot)
  | DashboardEvent (d : Dashboard)
  | TunnelBody (c : ServerConfig)
  | ProxyBody (v : ProxyConfigView)
  | KeyBody (key : str)
  | TunnelRuntimeBody (s : TunnelRuntimeSnapshot)
  | ProxyRuntimeBody (s : ProxyRuntimeSnapshot)
  | ClientConfigResponse (toml : str).

(** [resp_token] is the header [x-gaterust-token]. *)
Record response := { resp_status : StatusCode; resp_body : body; resp_token : option str }.

Record ApiError := { err_status : StatusCode; err_message : str }.

Definition respond (status : StatusCode) (b : body) : response :=
  {| resp_status := status; resp_body := b; resp_token := None |}.
Definition into_response (e : ApiError) : response := respond (err_status e) (ErrorBody (err_message e)).
Definition fail (status : StatusCode) (message : str) : response :=
  into_response {| err_status := status; err_message := message |}.

Definition from_control (io : ErrorKind → str) (e : ControlError) : ApiError :=
  {| err_status := match e with
                   | ResourceNotFound _ _ => NOT_FOUND
                   | ResourceConflict _ | TunnelRuntimeApply _ | ProxyRuntimeApply _ => CONFLICT
                   | _ => BAD_REQUEST
                   end;
     err_message := fmt_control_error io e |}.

(** ** State *)

Record api_world := {
  w_store : StoreInner;
  w_disk : disk;
  w_attempts : attempts;
  w_tunnel : option TunnelRuntime;
  w_proxy : option ProxyRuntimeSnapshot }.

Record env := {
  e_address : IpAddr;
  (** the instants of [can_attempt] and [record_failure] *)
  e_now : N;
  e_later : N;
  (** [unix_seconds], and the clock of the token library *)
  e_unix : option N;
  e_clock : N;
  e_nonce : str;
  e_sample : nat → ascii;
  (** what the runtimes publish while a mutation waits, and their answers *)
  e_tunnel_states : list TunnelRuntime.ConfigApplyState;
  e_proxy_states : list CertManager.ConfigApplyState;
  e_test_dns : DnsAccountConfig → PResult unit;
  e_issue : str → PResult unit;
  e_continue : str → PResult unit }.

Definition with_store (w : api_world) (st : StoreInner) (d : disk) : api_world :=
  {| w_store := st; w_disk := d; w_attempts := w_attempts w; w_tunnel := w_tunnel w; w_proxy := w_proxy w |}.
Definition with_attempts (w : api_world) (m : attempts) : api_world :=
  {| w_store := w_store w; w_disk := w_disk w; w_attempts := m; w_tunnel := w_tunnel w; w_proxy := w_proxy w |}.
Definition with_tunnel (w : api_world) (rt : TunnelRuntime) : api_world :=
  {| w_store := w_store w; w_disk := w_disk w; w_attempts := w_attempts w; w_tunnel := Some rt; w_proxy := w_proxy w |}.

(** ** Handlers *)

Section api.
Context {H : Host} {TS : Toml ServerConfig} {TC : Toml ClientConfig} {UL : UriLib} {PT : ProxyToml}
  {PW : ProxyTomlWriter} {AR : Argon} {JW : Jwt}.
Context (io : ErrorKind → str) (sha256 : str → str) (toml_string : ServerConfig → result str str).
(** [HeaderValue::to_str] of the [Authorization] header, and
    [HeaderValue::from_str]. *)
Context (header_to_str : str → option str) (header_from_str : str → bool).
Context (s : AuthService).

Definition login_handler (e : env) (user password : str) (w : api_world) : response * api_world :=
  let '(r, m) := login s (e_address e) user password (e_now e) (e_later e) (e_unix e) (w_attempts w) in
  (match r with
   | Ok token => respond OK (LoginResponse (token_value token) (expires_at token))
   | Err InvalidCredentials => fail UNAUTHORIZED "用户名或密码错误"
   | Err RateLimited => fail TOO_MANY_REQUESTS "登录尝试过于频繁，请稍后重试"
   | Err Internal => fail INTERNAL_SERVER_ERROR "认证服务暂时不可用"
   end, with_attempts w m).

(** [require_auth]: the session of the request, if its token is accepted. *)
Definition authenticated (e : env) (authorization : option str) : option AuthenticatedSession :=
  token ← (authorization ≫= header_to_str) ≫= strip_prefix "Bearer ";
  verify_token s (e_clock e) token.

Definition session_handler (e : env) (session : AuthenticatedSession) : response :=
  match refresh_token s session (e_unix e) with
  | Err _ => fail INTERNAL_SERVER_ERROR "认证服务暂时不可用"
  | Ok None => respond NO_CONTENT Empty
  | Ok (Some token) =>
      if header_from_str (token_value token)
      then {| resp_status := NO_CONTENT; resp_body := Empty; resp_token := Some (token_value token) |}
      else fail INTERNAL_SERVER_ERROR "认证服务暂时不可用"
  end.

Definition saved {A} (f : A → body) (r : outcome ControlError A) : option response :=
  match r with
  | Done a => Some (respond OK (f a))
  | Failed e => Some (into_response (from_control io e))
  | Crashed => None
  end.

Definition edit_tunnel (e : env) (op : tunnel_op) (w : api_world) : option response * api_world :=
  let runtime := (λ rt, (TunnelRuntime.config_revision rt, e_tunnel_states e)) <$> w_tunnel w in
  let '(r, d, st) := tunnel_method io sha256 toml_string runtime op (e_nonce e) (w_store w) (w_disk w) in
  (saved TunnelBody r, with_store w st d).
Definition edit_proxy (e : env) (op : proxy_op) (w : api_world) : option response * api_world :=
  let runtime := (λ p, (ps_revision (snap_config_status p), e_proxy_states e)) <$> w_proxy w in
  let '(r, d, st) := proxy_method io runtime op (e_nonce e) (w_store w) (w_disk w) in
  (saved ProxyBody r, with_store w st d).

Definition test_dns_account (e : env) (id : str) (w : api_world) : option response * api_world :=
  let '(r, d) := dns_account io id (w_store w) (w_disk w) in
  (match r with
   | Done account =>
       Some (match w_proxy w with
             | None => fail CONFLICT "代理模块未运行"
             | Some _ => match e_test_dns e account with
                         | Ok _ => respond NO_CONTENT Empty
                         | Err error => fail BAD_GATEWAY (fmt_proxy_error io error)
                         end
             end)
   | Failed error => Some (into_response (from_control io error))
   | Crashed => None
   end, with_store w (w_store w) d).

(** [issue_certificate] and [continue_certificate]. *)
Definition certificate_command (command : str → PResult unit) (id : str) (w : api_world) : response :=
  match w_proxy w with
  | None => fail CONFLICT "代理模块未运行"
  | Some _ => match command id with
              | Ok _ => respond ACCEPTED Empty
              | Err error => fail CONFLICT (fmt_proxy_error io error)
              end
  end.

Definition proxy_runtime (w : api_world) : response :=
  match w_proxy w with
  | None => fail CONFLICT "代理模块未运行"
  | Some p => respond OK (ProxyRuntimeBody p)
  end.
Definition tunnel_runtime (w : api_world) : response :=
  match w_tunnel w with
  | None => fail CONFLICT "隧道模块未运行"
  | Some rt => respond OK (TunnelRuntimeBody (TunnelRuntime.snapshot rt))
  end.

Definition disconnect_handler (session_id : N) (name : str) (w : api_world) : response * api_world :=
  match w_tunnel w with
  | None => (fail CONFLICT "隧道模块未运行", w)
  | Some rt =>
      let '(r, rt) := disconnect_tunnel rt session_id name in
      (match r with
       | Ok _ => respond NO_CONTENT Empty
       | Err SessionNotFound => fail NOT_FOUND "客户端会话不存在"
       | Err TunnelNotFound => fail NOT_FOUND "隧道不存在"
       | Err NotOwnedBySession => fail CONFLICT "隧道归属已变化，请刷新后重试"
       end, with_tunnel w rt)
  end.

Definition client_config (r : ClientConfigRequest) (key : str) : ClientConfig :=
  {| client_key := key;
     client_server := {| server_address := cr_server_address r; server_tls_name := cr_server_name r;
                         ca_certificate := cr_ca_certificate r |};
     client_services := cr_services r |}.

Definition generate_client_config (r : ClientConfigRequest) (snapshot : ConfigSnapshot) : result ApiError str :=
  tunnel ← ok_or (snap_tunnel snapshot) {| err_status := CONFLICT; err_message := "尚未配置隧道模块" |};
  group ← ok_or (snd <$> list_find (λ g, group_name g = cr_group r) (server_groups tunnel))
            {| err_status := BAD_REQUEST; err_message := "分组不存在" |};
  let config := client_config r (group_key group) in
  _ ← map_err (λ e, {| err_status := BAD_REQUEST; err_message := fmt_error io e |}) (ClientConfig_validate config);
  map_err (λ _, {| err_status := INTERNAL_SERVER_ERROR; err_message := "生成客户端配置失败" |}) (toml_to_string config).

(** A handler behind [require_auth]. *)
Definition protected_handler (e : env) (session : AuthenticatedSession) (ep : endpoint) (w : api_world)
  : option response * api_world :=
  match ep with
  | Login user password => let '(r, w) := login_handler e user password w in (Some r, w)
  | GetConfig => (Some (respond OK (ConfigBody (st_snapshot (w_store w)))), w)
  | Events => (Some (respond OK (DashboardEvent (st_dashboard (w_store w)))), w)
  | Session => (Some (session_handler e session), w)
  | EditTunnel op => edit_tunnel e op w
  | EditProxy op => edit_proxy e op w
  | TestDns id => test_dns_account e id w
  | IssueCertificate id => (Some (certificate_command (e_issue e) id w), w)
  | ContinueCertificate id => (Some (certificate_command (e_continue e) id w), w)
  | GetProxyRuntime => (Some (proxy_runtime w), w)
  | GenerateKey => (Some (respond OK (KeyBody (generate_group_key (e_sample e)))), w)
  | GetTunnelRuntime => (Some (tunnel_runtime w), w)
  | DisconnectTunnel session_id name => let '(r, w) := disconnect_handler session_id name w in (Some r, w)
  | GenerateClientConfig r =>
      (Some (match generate_client_config r (st_snapshot (w_store w)) with
             | Ok toml => respond OK (ClientConfigResponse toml)
             | Err error => into_response error
             end), w)
  end.

Definition is_protected (ep : endpoint) : bool :=
  existsb (λ r, bool_decide (r.2.1 = handler_of ep) && r.2.2) router.

Definition handle (e : env) (authorization : option str) (ep : endpoint) (w : api_world)
  : option response * api_world :=
  if is_protected ep then
    match authenticated e authorization with
    | Some session => protected_handler e session ep w
    | None => (Some (fail UNAUTHORIZED "登录已失效"), w)
    end
  else protected_handler e {| issued_at := 0 |} ep w.
End api.

(** ** Theorems *)

Lemma protected_all ep : is_protected ep = match ep with Login _ _ => false | _ => true end.
Proof. destruct ep as [| | | |[]|[]| | | | | | | |]; vm_compute; reflexivity. Qed.

(** The routes of the interface: every handler is reached by exactly one
    route, no two routes have the same method and path, and all but the login
    ask for a session. *)
Theorem routes_exact ep :
  (∃ m p, (m, p, (handler_of ep, is_protected ep)) ∈ router) ∧
  NoDup ((λ r, r.1) <$> router) ∧ NoDup ((λ r, r.2.1) <$> router) ∧
  (is_protected ep = false ↔ ∃ user password, ep = Login user password).
Proof.
  split_and!.
  - assert (Hin : existsb (λ r, bool_decide (r.2 = (handler_of ep, is_protected ep))) router = true).
    { rewrite protected_all. destruct ep as [| | | |[]|[]| | | | | | | |]; vm_compute; reflexivity. }
    apply existsb_exists in Hin as ([[m p] x] & Hin & Hx). apply bool_decide_eq_true in Hx. cbn in Hx. subst x.
    exists m, p. by apply list_elem_of_In.
  - apply (bool_decide_unpack _). vm_compute. reflexivity.
  - apply (bool_decide_unpack _). vm_compute. reflexivity.
  - rewrite protected_all. destruct ep; naive_solver.
Qed.

Section access.
Context {H : Host} {TS : Toml ServerConfig} {TC : Toml ClientConfig} {UL : UriLib} {PT : ProxyToml}
  {PW : ProxyTomlWriter} {AR : Argon} {JW : Jwt}.
Context (io : ErrorKind → str) (sha256 : str → str) (toml_string : ServerConfig → result str str).
Context (header_to_str : str → option str) (header_from_str : str → bool) (s : AuthService).
#[local] Notation handle := (handle io sha256 toml_string header_to_str header_from_str s).
#[local] Notation authenticated := (authenticated header_to_str s).

(** The tokens a response carries. *)
Definition tokens_of (r : option response) : list str :=
  match r with
  | Some r => option_list (resp_token r) ++ match resp_body r with LoginResponse token _ => [token] | _ => [] end
  | None => []
  end.

(** The right name and password. *)
Definition rightful (ep : endpoint) : Prop :=
  ∃ user password, ep = Login user password ∧ password_ok s password = true ∧ user = username s.

(** The requests that the interface serves one after the other, each with its
    answer. *)
Notation request := (env * option str * endpoint)%type.
Fixpoint serve (requests : list request) (w : api_world) : list (request * option response) :=
  match requests with
  | [] => []
  | (e, authorization, ep) :: requests =>
      let '(r, w) := handle e authorization ep w in ((e, authorization, ep), r) :: serve requests w
  end.

(** Nobody makes a token without the secret: a token that is accepted is one
    that an earlier answer carried. *)
Definition unforgeable (exchanges : list (request * option response)) : Prop :=
  ∀ i e authorization ep r session, exchanges !! i = Some ((e, authorization, ep), r) →
    authenticated e authorization = Some session →
    ∃ j x token, (j < i)%nat ∧ exchanges !! j = Some x ∧ token ∈ tokens_of x.2 ∧
      authorization ≫= header_to_str = Some (lit "Bearer " ++ token).

Lemma serve_exchange requests : ∀ w i req r, serve requests w !! i = Some (req, r) →
  requests !! i = Some req ∧ ∃ w0 w1, handle req.1.1 req.1.2 req.2 w0 = (r, w1).
Proof.
  induction requests as [|[[e authorization] ep] requests IH]; intros w i req r; [done|]. cbn [serve].
  destruct (handle e authorization ep w) as [r0 w0] eqn:E. destruct i as [|i]; [|apply IH].
  intros [= <- <-]. split; [done|]. by exists w, w0.
Qed.

(** Who is given a token, and for what. *)
Lemma tokens_issued e authorization ep w r w' token :
  handle e authorization ep w = (r, w') → token ∈ tokens_of r →
  rightful ep ∨
  ep = Session ∧ ∃ session now, authenticated e authorization = Some session ∧ e_unix e = Some now ∧
    TOKEN_REFRESH_INTERVAL <= now - issued_at session.
Proof.
  assert (Hsaved : ∀ A (f : A → body) o, (∀ a t n, f a ≠ LoginResponse t n) → token ∉ tokens_of (saved io f o)).
  { intros A f [a|err|] Hf; cbn; [|apply not_elem_of_nil..]. destruct (f a) eqn:E; try apply not_elem_of_nil. by destruct (Hf a token0 expires). }
  unfold Api.handle. rewrite protected_all. destruct ep as [user password| | | |op|op|id|id|id| | | |sid name|req]; cbn [protected_handler].
  { unfold login_handler, login, finish_login.
    destruct (can_attempt (e_address e) (e_now e) (w_attempts w)) as [[] m1]; [|intros [= <- <-] []%elem_of_nil].
    destruct (password_ok s password) eqn:Hp; cbn [negb orb]; [|intros [= <- <-] []%elem_of_nil].
    case_bool_decide as Hu; [intros [= <- <-] []%elem_of_nil|]. intros _ _. left. exists user, password. split_and!; [done|done|].
    destruct (decide (user = username s)); [done|]. by destruct Hu. }
  all: destruct (authenticated e authorization) as [session|]; [|intros [= <- <-] []%elem_of_nil].
  all: try (intros [= <- <-] []%elem_of_nil; fail).
  - (* the session *) intros [= <- <-]. unfold session_handler, refresh_token. destruct (e_unix e) as [now|]; [|intros []%elem_of_nil].
    destruct (_ <? _) eqn:El; [intros []%elem_of_nil|]. intros _. right. split; [done|]. exists session, now. apply N.ltb_ge in El. done.
  - unfold edit_tunnel. destruct (tunnel_method _ _ _ _ _ _ _ _) as [[o d] st]. intros [= <- <-] Hin. by apply Hsaved in Hin.
  - unfold edit_proxy. destruct (proxy_method _ _ _ _ _ _) as [[o d] st]. intros [= <- <-] Hin. by apply Hsaved in Hin.
  - unfold test_dns_account. destruct (dns_account _ _ _ _) as [[acc|err|] d]; intros [= <- <-]; [|intros []%elem_of_nil..].
    destruct (w_proxy w); [destruct (e_test_dns e acc)|]; intros []%elem_of_nil.
  - unfold certificate_command. intros [= <- <-]. destruct (w_proxy w); [destruct (e_issue e id)|]; intros []%elem_of_nil.
  - unfold certificate_command. intros [= <- <-]. destruct (w_proxy w); [destruct (e_continue e id)|]; intros []%elem_of_nil.
  - unfold proxy_runtime. intros [= <- <-]. destruct (w_proxy w); intros []%elem_of_nil.
  - unfold tunnel_runtime. intros [= <- <-]. destruct (w_tunnel w); intros []%elem_of_nil.
  - unfold disconnect_handler. destruct (w_tunnel w) as [rt|]; [|intros [= <- <-] []%elem_of_nil].
    destruct (disconnect_tunnel rt sid name) as [[u|[]] rt']; intros [= <- <-] []%elem_of_nil.
  - intros [= <- <-]. destruct (generate_client_config _ _ _); intros []%elem_of_nil.
Qed.

(** C37: who is let in.  Without an accepted token a request other than the login
    is answered 401 and changes nothing.  A token is issued by a login with
    the right name and password, and by the session route to a session that
    is accepted and at least an hour old, and by nothing else; a login's
    token opens every route until it has expired and the leeway has passed.
    Over a whole run, when tokens cannot be forged, every request that is let
    in was preceded by a login with the right name and password. *)
Theorem access_control :
  (∀ e authorization ep w, (∀ user password, ep ≠ Login user password) → authenticated e authorization = None →
     handle e authorization ep w = (Some (fail UNAUTHORIZED "登录已失效"), w)) ∧
  (∀ e authorization ep w r w' token, handle e authorization ep w = (r, w') → token ∈ tokens_of r →
     rightful ep ∨
     ep = Session ∧ ∃ session now, authenticated e authorization = Some session ∧ e_unix e = Some now ∧
       TOKEN_REFRESH_INTERVAL <= now - issued_at session) ∧
  (∀ e authorization user password w r w' token expires,
     handle e authorization (Login user password) w = (Some r, w') → resp_body r = LoginResponse token expires →
     w_store w' = w_store w ∧ w_disk w' = w_disk w ∧
     ∃ t0, ∀ e' value, header_to_str value = Some (lit "Bearer " ++ token) →
       authenticated e' (Some value) =
         if e_clock e' <=? expires + jwt_leeway then Some {| issued_at := t0 |} else None) ∧
  (∀ requests w, unforgeable (serve requests w) →
     ∀ i e authorization ep r session, serve requests w !! i = Some ((e, authorization, ep), r) →
       authenticated e authorization = Some session →
       ∃ j login answer token, (j < i)%nat ∧ serve requests w !! j = Some (login, answer) ∧ rightful login.2 ∧ token ∈ tokens_of answer).
Proof.
  split_and!.
  - intros e authorization ep w Hne Ha. unfold Api.handle. rewrite protected_all, Ha. destruct ep as [u p| | | | | | | | | | | | |]; [by destruct (Hne u p)|done..].
  - intros e authorization ep w r w' token. apply tokens_issued.
  - intros e authorization user password w r w' token expires. unfold Api.handle. rewrite protected_all.
    cbn [protected_handler]. unfold login_handler, login, finish_login.
    destruct (can_attempt (e_address e) (e_now e) (w_attempts w)) as [[] m1]; [|intros [= <- <-]; done].
    destruct (password_ok s password) eqn:Hp; cbn [negb orb]; [|intros [= <- <-]; done].
    case_bool_decide as Hu; [intros [= <- <-]; done|]. destruct (e_unix e) as [t0|]; [|intros [= <- <-]; done].
    destruct (issue_token s t0) as [t|[]] eqn:Ht; [|intros [= <- <-]; done..].
    intros [= <- <-] [= <- <-]. destruct (issued_token _ _ _ Ht) as [He Hv].
    split_and!; [done|done|]. exists t0. intros e' value Hh.
    unfold Api.authenticated. cbn [mbind option_bind]. rewrite Hh. cbn [mbind option_bind].
    rewrite (proj2 (strip_prefix_Some _ _ _) eq_refl). cbn [mbind option_bind]. apply Hv.
  - intros requests w Hu i. induction i as [i IH] using lt_wf_ind. intros e authorization ep r session Hi Ha.
    destruct (Hu i e authorization ep r session Hi Ha) as (j & [[[e' authorization'] ep'] r'] & token & Hj & Hx & Ht & _).
    destruct (serve_exchange _ _ _ _ _ Hx) as (_ & w0 & w1 & Hh). cbn [fst snd] in *.
    destruct (tokens_issued _ _ _ _ _ _ _ Hh Ht) as [Hr|(-> & session' & now & Ha' & _)].
    + by exists j, (e', authorization', ep'), r', token.
    + destruct (IH j Hj _ _ _ _ _ Hx Ha') as (k & login & answer & token' & Hk & ?). exists k, login, answer, token'. split; [lia|done].
Qed.
End access.

(** *** Generated client configurations *)

Lemma digest_map_lookup sha256 l n k : NoDup l.*1 → (n, k) ∈ l →
  digest_map sha256 l !! n = Some (credential_digest sha256 k).
Proof.
  unfold digest_map. intros Hnd Hin.
  assert (Hgen : ∀ m : gmap str str, ((n, k) ∈ l ∨ n ∉ l.*1 ∧ m !! n = Some (credential_digest sha256 k)) →
    foldl (λ m c, <[c.1 := credential_digest sha256 c.2]> m) m l !! n = Some (credential_digest sha256 k)).
  { clear Hin. induction l as [|[n' k'] l IH]; intros m Hm; cbn [foldl].
    - destruct Hm as [Hm|[_ Hm]]; [by apply elem_of_nil in Hm|done].
    - inversion Hnd as [|?? Hn' Hnd']; subst. apply IH; [done|]. cbn [fst snd] in *.
      destruct Hm as [[[= <- <-]|Hm]%elem_of_cons|[Hm Hl]].
      + right. by rewrite lookup_insert_eq.
      + by left.
      + right. cbn in Hm. rewrite not_elem_of_cons in Hm. destruct Hm. by rewrite lookup_insert_ne. }
  apply Hgen. by left.
Qed.

Lemma find_group_unique sha256 l n k : NoDup l.*2 → (n, k) ∈ l →
  find_group sha256 l k = Some (n, credential_digest sha256 k).
Proof.
  induction l as [|[n' k'] l IH]; intros Hnd Hin; [by apply elem_of_nil in Hin|].
  inversion Hnd as [|?? Hn' Hnd']; subst. cbn [find_group].
  apply elem_of_cons in Hin as [[= <- <-]|Hin]; [by rewrite bool_decide_true|].
  rewrite bool_decide_false; [by apply IH|]. intros ->. apply Hn'. cbn. apply list_elem_of_fmap. by exists (n, k).
Qed.

(** A client configuration generated for a group is valid, reads back, and
    authenticates as that group: a server that runs the configuration it was
    generated from accepts its key, unless the device is already online or the
    server is full. *)
Theorem generated_config_authenticates {TC : Toml ClientConfig} io sha256 r snapshot c content :
  snap_tunnel snapshot = Some c → wf_server c → generate_client_config io r snapshot = Ok content →
  ∃ cfg, toml_from_str content = Ok cfg ∧ wf_client cfg ∧
    ∀ rt id conn now hello env,
      rt_credentials (state (others_before env rt)) = digest_map sha256 (credentials c) → valid_hello hello = true →
      hello_key hello = client_key cfg →
      match (authenticate sha256 rt (credentials c) id conn now hello env).1 with
      | AuthAccepted h g => g = cr_group r ∧ sh_status h = Accepted
      | AuthRejected h sent ret => ret = sent ∧ (sh_status h = DeviceIdConflictStatus ∨ sh_status h = ServerBusy)
      | AuthLost e => answer_written env = Err e
      end.
Proof.
  intros Hs Hwf. unfold generate_client_config. rewrite Hs. cbn [ok_or mbind result_bind].
  destruct (list_find _ (server_groups c)) as [[i g]|] eqn:Hg; cbn [fmap option_fmap option_map ok_or mbind result_bind snd]; [|done].
  apply list_find_Some in Hg as (Hi & Hname & _). apply list_elem_of_lookup_2 in Hi.
  destruct (ClientConfig_validate _) as [u|] eqn:Hv; cbn [map_err mbind result_bind]; [|done].
  destruct (toml_to_string _) as [str|] eqn:Ht; cbn [map_err]; [|done]. intros [= <-].
  exists (client_config r (group_key g)). split; [by apply toml_roundtrip|]. split; [by eapply client_validate_iff|].
  intros rt id conn now hello env Hc Hh Hk. cbn [client_config client_key] in Hk.
  assert (Hin : (cr_group r, group_key g) ∈ credentials c).
  { unfold credentials. rewrite <- Hname. apply (list_elem_of_fmap_2 (λ g, (group_name g, group_key g)) _ _ Hi). }
  assert (Hn1 : NoDup (credentials c).*1) by (unfold credentials; rewrite <- list_fmap_compose; apply Hwf).
  assert (Hn2 : NoDup (credentials c).*2) by (unfold credentials; rewrite <- list_fmap_compose; apply Hwf).
  unfold authenticate. cbv zeta. rewrite Hh, Hk, (find_group_unique sha256 _ _ _ Hn2 Hin).
  assert (Hcred : rt_credentials (state (others_before env rt)) !! cr_group r = Some (credential_digest sha256 (group_key g)))
    by (rewrite Hc; by apply digest_map_lookup).
  assert (Hrej : ∀ rt status message, status = DeviceIdConflictStatus ∨ status = ServerBusy →
    match (rejected_with env rt conn status message (Ok tt)).1 with
    | AuthRejected h sent ret => ret = sent ∧ (sh_status h = DeviceIdConflictStatus ∨ sh_status h = ServerBusy)
    | _ => False
    end).
  { intros rt' st message Hst. unfold rejected_with. destruct (reject_authentication env rt' conn) as [[[]|e] rt1]; by split. }
  assert (Hdone : ∀ rt status message, status = DeviceIdConflictStatus ∨ status = ServerBusy →
    match (rejected_with env rt conn status message (Ok tt)).1 with
    | AuthAccepted h g => g = cr_group r ∧ sh_status h = Accepted
    | AuthRejected h sent ret => ret = sent ∧ (sh_status h = DeviceIdConflictStatus ∨ sh_status h = ServerBusy)
    | AuthLost e => answer_written env = Err e
    end).
  { intros rt' st message Hst. specialize (Hrej rt' st message Hst). by destruct (rejected_with _ _ _ _ _ _).1. }
  destruct (register (others_before env rt) id _ _ _ _ _ _) as [[[]|[]] rt'] eqn:Hr; cbn [fst];
    [by destruct (answer_written env) as [[]|]|apply Hdone; by left|apply Hdone; by right|].
  exfalso. revert Hr. unfold register. rewrite Hcred, bool_decide_false by (by intros []).
  repeat case_match; congruence.
Qed.

(** ** Witnesses *)

Definition sample_request : ClientConfigRequest :=
  {| cr_group := "office"; cr_server_address := "example.org:2333"; cr_server_name := None; cr_ca_certificate := None;
     cr_services := client_services one_config |}.
Definition sample_snapshot : ConfigSnapshot := {| snap_tunnel := Some sample_server; snap_proxy := None |}.

Lemma generated_config_authenticates_witness :
  ∃ cfg, @generate_client_config (one_toml cfg) sample_io sample_request sample_snapshot = Ok (lit "one") ∧
    wf_client cfg ∧ client_key cfg = lit "AAAAAAAAAAAAAAAAAAAAAAAAAAAAAAAA".
Proof.
  set (cfg := client_config sample_request "AAAAAAAAAAAAAAAAAAAAAAAAAAAAAAAA").
  assert (E : @generate_client_config (one_toml cfg) sample_io sample_request sample_snapshot = Ok (lit "one"))
    by (vm_compute; reflexivity).
  exists cfg. split; [exact E|].
  destruct (@generated_config_authenticates (one_toml cfg) sample_io id sample_request sample_snapshot sample_server
    (lit "one") eq_refl sample_server_wf E) as (cfg' & Hc & Hwf & _).
  assert (Heq : cfg' = cfg) by (vm_compute in Hc; injection Hc as <-; vm_compute; reflexivity).
  subst cfg'. split; [exact Hwf|]. reflexivity.
Defined.

(** A request received at the second 2000. *)
Definition sample_env : env :=
  {| e_address := V4 {| octet0 := 127; octet1 := 0; octet2 := 0; octet3 := 1 |}; e_now := 0; e_later := 0; e_unix := Some 2000; e_clock := 2000; e_nonce := lit "n";
     e_sample := λ _, "A"%char; e_tunnel_states := []; e_proxy_states := []; e_test_dns := λ _, Ok tt;
     e_issue := λ _, Ok tt; e_continue := λ _, Ok tt |}.

(** A login at the second 1000, and a request with the token it returned. *)
Definition login_env : env :=
  {| e_address := e_address sample_env; e_now := 0; e_later := 0; e_unix := Some 1000; e_clock := 1000; e_nonce := lit "n";
     e_sample := λ _, "A"%char; e_tunnel_states := []; e_proxy_states := []; e_test_dns := λ _, Ok tt;
     e_issue := λ _, Ok tt; e_continue := λ _, Ok tt |}.
Definition sample_world : api_world :=
  {| w_store := sample_store; w_disk := sample_disk; w_attempts := ∅; w_tunnel := None; w_proxy := None |}.
Definition sample_requests : list (env * option str * endpoint) :=
  [(login_env, None, Login "admin" "pw"); (login_env, Some (lit "Bearer token"), GetConfig)].
Notation sample_serve := (@serve plain_host sample_server_toml (one_toml one_config) sample_uri sample_proxy_toml sample_proxy_writer
    sample_argon sample_jwt sample_io id fp_toml Some (λ _, true) sample_auth).

Lemma access_control_witness :
  @handle plain_host sample_server_toml (one_toml one_config) sample_uri sample_proxy_toml sample_proxy_writer
    sample_argon sample_jwt sample_io id fp_toml Some (λ _, true) sample_auth sample_env (Some (lit "Bearer token"))
    (EditTunnel (DeleteGroup "office")) sample_world = (Some (fail UNAUTHORIZED "登录已失效"), sample_world) ∧
  ∃ login answer token, sample_serve sample_requests sample_world !! 0%nat = Some (login, answer) ∧
    rightful (AR := sample_argon) sample_auth login.2 ∧ token ∈ tokens_of answer.
Proof.
  destruct (@access_control plain_host sample_server_toml (one_toml one_config) sample_uri sample_proxy_toml sample_proxy_writer
    sample_argon sample_jwt sample_io id fp_toml Some (λ _, true) sample_auth) as (Hout & _ & _ & Hrun).
  split.
  - apply Hout; [done|]. unfold authenticated. cbn [mbind option_bind].
    change (strip_prefix "Bearer " (lit "Bearer token")) with (Some (lit "token")). reflexivity.
  - assert (Hreq : fst <$> sample_serve sample_requests sample_world = sample_requests) by reflexivity.
    assert (Htok : (λ x, tokens_of x.2) <$> sample_serve sample_requests sample_world = [[lit "token"]; []]) by (vm_compute; reflexivity).
    assert (Hacc : @authenticated sample_jwt Some sample_auth login_env (Some (lit "Bearer token")) = Some {| issued_at := 1000 |}) by (vm_compute; reflexivity).
    specialize (Hrun sample_requests sample_world). set (exchanges := sample_serve sample_requests sample_world) in *. clearbody exchanges.
    destruct exchanges as [|[q0 r0] [|[q1 r1] [|]]]; try discriminate Hreq. injection Hreq as -> ->. injection Htok as H0 H1.
    match type of Hrun with ?U → _ => assert (Hu : U) end.
    { intros i e authorization ep r session Hi Ha. destruct i as [|[|i]]; [injection Hi as <- <- <- <-; discriminate Ha| |discriminate Hi].
      injection Hi as <- <- <- <-. exists 0%nat, ((login_env, None, Login "admin" "pw"), r0), (lit "token").
      split_and!; [lia|reflexivity|cbn [snd]; rewrite H0; left|reflexivity]. }
    destruct (Hrun Hu 1%nat _ _ _ _ _ eq_refl Hacc) as (j & login & answer & token & Hj & Hx & Hr & Ht).
    exists login, answer, token. assert (j = 0%nat) as -> by lia. split_and!; [exact Hx|exact Hr|exact Ht].
Defined.
