(* ===== verification/ConnLimit.v ===== *)
(** * ConnLimit: [ConnectionLimit] of [gaterust-proxy/src/connection.rs]

    The number of connections the proxy serves at a time is limited by two
    atomic counters and a [Notify].  [acquire] registers with the [Notify],
    reads both counters and either takes a place by compare-and-swap or waits;
    dropping a permit gives the place back and wakes one waiter.  The threads
    interleave at every access to the shared state.

    [Notify] is tokio's: [notify_one] wakes one registered waiter or, without
    one, leaves a permit for the next; [notify_waiters] wakes all registered
    waiters; a waiter that is dropped after [notify_one] chose it passes the
    notification on.  Which waiter is chosen is left open. *)

From S2P Require Import Prelude.

#[local] Open Scope nat_scope.

(** ** State *)

(** What a registered [Notified] has received. *)
Inductive notice := Nothing | ByOne | ByAll.

(** Where a call of [acquire] is. *)
Inductive stage :=
  | Registered
  | LoadedActive (active : nat)
  | LoadedBoth (active maximum : nat)
  | Parked.

(** [None] is a call that has ended. *)
Notation thread := (option (stage * notice)).

Record world := {
  maximum : nat;
  active : nat;
  (** the permit [notify_one] stores *)
  stored : bool;
  threads : list thread;
  (** permits that were handed out *)
  held : nat;
  (** calls of [drop] and of [set_maximum] between their two steps *)
  releasing : nat;
  raising : nat }.

Definition ConnectionLimit_new (max : nat) : world :=
  {| maximum := max; active := 0; stored := false; threads := []; held := 0; releasing := 0; raising := 0 |}.

Definition with_threads (w : world) (s : bool) (l : list thread) : world :=
  {| maximum := maximum w; active := active w; stored := s; threads := l; held := held w;
     releasing := releasing w; raising := raising w |}.

(** ** Notifications *)

Definition waiter (t : thread) : bool := match t with Some (_, Nothing) => true | _ => false end.

(** [notify_one]: [j] is the waiter it chooses. *)
Definition notify_one (j : nat) (s : bool) (l : list thread) : option (bool * list thread) :=
  if existsb waiter l
  then match l !! j with
       | Some (Some (st, Nothing)) => Some (s, <[j := Some (st, ByOne)]> l)
       | _ => None
       end
  else Some (true, l).

Definition notify_waiters (l : list thread) : list thread :=
  (λ t : thread, match t with Some (st, Nothing) => Some (st, ByAll) | _ => t end) <$> l.

(** Dropping the [Notified] of a call. *)
Definition drop_notified (n : notice) (j : nat) (s : bool) (l : list thread) : option (bool * list thread) :=
  match n with
  | ByOne => notify_one j s l
  | Nothing | ByAll => Some (s, l)
  end.

(** A new [Notified], enabled: it takes a stored permit if there is one. *)
Definition register (s : bool) : bool * thread :=
  (false, Some (Registered, if s then ByAll else Nothing)).

(** ** Steps *)

Inductive event :=
  | Enter
  | LoadActive (i : nat)
  | LoadMaximum (i : nat)
  (** the exchange; it may fail spuriously; [j] is whom a notification passes on to *)
  | Exchange (i : nat) (spurious : bool) (j : nat)
  | Park (i : nat)
  | Wake (i : nat)
  | Cancel (i j : nat)
  | Release
  | NotifyRelease (j : nat)
  | SetMaximum (max : nat)
  | NotifyMaximum.

Definition step (ev : event) (w : world) : option world :=
  match ev with
  | Enter => let '(s, t) := register (stored w) in Some (with_threads w s (threads w ++ [t]))
  | LoadActive i =>
      match threads w !! i with
      | Some (Some (Registered, n)) =>
          Some (with_threads w (stored w) (<[i := Some (LoadedActive (active w), n)]> (threads w)))
      | _ => None
      end
  | LoadMaximum i =>
      match threads w !! i with
      | Some (Some (LoadedActive a, n)) =>
          Some (with_threads w (stored w) (<[i := Some (LoadedBoth a (maximum w), n)]> (threads w)))
      | _ => None
      end
  | Exchange i spurious j =>
      match threads w !! i with
      | Some (Some (LoadedBoth a m, n)) =>
          if a <? m then
            '(s, l) ← drop_notified n j (stored w) (<[i := None]> (threads w));
            if (active w =? a) && negb spurious
            then Some {| maximum := maximum w; active := active w + 1; stored := s; threads := l; held := held w + 1;
                         releasing := releasing w; raising := raising w |}
            else let '(s, t) := register s in Some (with_threads w s (<[i := t]> l))
          else None
      | _ => None
      end
  | Park i =>
      match threads w !! i with
      | Some (Some (LoadedBoth a m, n)) =>
          if a <? m then None else Some (with_threads w (stored w) (<[i := Some (Parked, n)]> (threads w)))
      | _ => None
      end
  | Wake i =>
      match threads w !! i with
      | Some (Some (Parked, ByOne)) | Some (Some (Parked, ByAll)) =>
          let '(s, t) := register (stored w) in Some (with_threads w s (<[i := t]> (threads w)))
      | _ => None
      end
  | Cancel i j =>
      match threads w !! i with
      | Some (Some (Parked, n)) =>
          '(s, l) ← drop_notified n j (stored w) (<[i := None]> (threads w));
          Some (with_threads w s l)
      | _ => None
      end
  | Release =>
      match held w with
      | O => None
      | S h => Some {| maximum := maximum w; active := active w - 1; stored := stored w; threads := threads w; held := h;
                       releasing := releasing w + 1; raising := raising w |}
      end
  | NotifyRelease j =>
      match releasing w with
      | O => None
      | S r =>
          '(s, l) ← notify_one j (stored w) (threads w);
          Some {| maximum := maximum w; active := active w; stored := s; threads := l; held := held w;
                  releasing := r; raising := raising w |}
      end
  | SetMaximum max =>
      Some {| maximum := max; active := active w; stored := stored w; threads := threads w; held := held w;
              releasing := releasing w; raising := raising w + 1 |}
  | NotifyMaximum =>
      match raising w with
      | O => None
      | S r => Some {| maximum := maximum w; active := active w; stored := stored w; threads := notify_waiters (threads w);
                       held := held w; releasing := releasing w; raising := r |}
      end
  end.

Fixpoint run (evs : list event) (w : world) : option world :=
  match evs with
  | [] => Some w
  | ev :: evs => w' ← step ev w; run evs w'
  end.

(** ** The limit *)

(** No maximum that was ever set exceeds [b]. *)
Definition max_ok (b : nat) (ev : event) : Prop := match ev with SetMaximum m => m <= b | _ => True end.

Definition stage_ok (b : nat) (t : thread) : Prop :=
  match t with Some (LoadedBoth _ m, _) => m <= b | _ => True end.

Record limited (b : nat) (w : world) : Prop := {
  limited_max : maximum w <= b;
  limited_held : held w = active w;
  limited_active : active w <= b;
  limited_threads : Forall (stage_ok b) (threads w) }.

Lemma notify_one_stages b j s l s' l' : notify_one j s l = Some (s', l') → Forall (stage_ok b) l → Forall (stage_ok b) l'.
Proof.
  unfold notify_one. destruct (existsb waiter l); [|by intros [= <- <-]].
  destruct (l !! j) as [[[st []]|]|] eqn:Hj; try done. intros [= <- <-] Hl.
  apply Forall_insert; [done|]. by apply (Forall_lookup_1 _ _ _ _ Hl Hj).
Qed.

Lemma drop_notified_stages b n j s l s' l' :
  drop_notified n j s l = Some (s', l') → Forall (stage_ok b) l → Forall (stage_ok b) l'.
Proof. destruct n; cbn; [by intros [= <- <-]|apply notify_one_stages|by intros [= <- <-]]. Qed.

Lemma step_limited b ev w w' : max_ok b ev → limited b w → step ev w = Some w' → limited b w'.
Proof.
  intros Hev [Hm Hh Ha Ht]. destruct ev as [|i|i|i sp j|i|i|i j| |j|max|]; cbn [step].
  - intros [= <-]. split; cbn; try done. apply Forall_app. split; [done|]. by apply Forall_singleton.
  - destruct (threads w !! i) as [[[[] n]|]|]; try done. intros [= <-]. split; cbn; try done. by apply Forall_insert.
  - destruct (threads w !! i) as [[[[] n]|]|]; try done. intros [= <-]. split; cbn; try done. by apply Forall_insert.
  - destruct (threads w !! i) as [[[[| |a m|] n]|]|] eqn:Hi; try done. destruct (Nat.ltb_spec a m) as [Hlt|]; [|done].
    assert (Hmb : m <= b) by exact (Forall_lookup_1 _ _ _ _ Ht Hi).
    destruct (drop_notified n j _ _) as [[s l]|] eqn:E; [|done]. cbn.
    assert (Hl : Forall (stage_ok b) l) by (eapply drop_notified_stages; [exact E|]; by apply Forall_insert).
    destruct (Nat.eqb_spec (active w) a) as [Hact|]; [destruct sp|]; intros [= <-]; split; cbn; try done;
      try (by apply Forall_insert); lia.
  - destruct (threads w !! i) as [[[[| |a m|] n]|]|]; try done. destruct (a <? m); [done|].
    intros [= <-]. split; cbn; try done. by apply Forall_insert.
  - destruct (threads w !! i) as [[[[] []]|]|]; try done; intros [= <-]; split; cbn; try done; by apply Forall_insert.
  - destruct (threads w !! i) as [[[[] n]|]|]; try done.
    destruct (drop_notified n j _ _) as [[s l]|] eqn:E; [|done]. intros [= <-]. split; cbn; try done.
    eapply drop_notified_stages; [exact E|]. by apply Forall_insert.
  - destruct (held w) as [|h] eqn:Hheld; [done|]. intros [= <-]. split; cbn; try done; lia.
  - destruct (releasing w); [done|]. destruct (notify_one j _ _) as [[s l]|] eqn:E; [|done].
    intros [= <-]. split; cbn; try done. by eapply notify_one_stages.
  - intros [= <-]. split; cbn; done.
  - destruct (raising w); [done|]. intros [= <-]. split; cbn; try done.
    unfold notify_waiters. apply Forall_fmap. eapply Forall_impl; [exact Ht|].
    intros [[st []]|]; cbn; done.
Qed.

Lemma run_limited b evs w w' : Forall (max_ok b) evs → limited b w → run evs w = Some w' → limited b w'.
Proof.
  revert w. induction evs as [|ev evs IH]; cbn; intros w Hev Hl E; [by simplify_eq|].
  inversion Hev; subst. destruct (step ev w) as [w1|] eqn:E1; [|done]. simpl in E.
  eapply IH; [done| |done]. by eapply step_limited.
Qed.

(** ** No lost wake-up

    A call that is about to sleep, or sleeps, without a notification is
    [sleepy].  Every other call accounts for free places: one if it will still
    try to take a place, and one for a notification it will pass on. *)

Definition checking (mx : nat) (st : stage) : bool :=
  match st with
  | Registered => true
  | LoadedActive a => a <? mx
  | LoadedBoth a m => a <? m
  | Parked => false
  end.

Definition weight (mx : nat) (t : thread) : nat :=
  match t with
  | Some (st, Nothing) => Nat.b2n (checking mx st)
  | Some (st, ByOne) => 1 + Nat.b2n (checking mx st)
  | Some (_, ByAll) | None => 0
  end.

Definition sleepy (mx : nat) (t : thread) : Prop :=
  match t with Some (st, Nothing) => checking mx st = false | _ => False end.

Definition total (mx : nat) (l : list thread) : nat := sum_list_with (weight mx) l.

Record awake (w : world) : Prop := {
  awake_stored : stored w = true → existsb waiter (threads w) = false;
  awake_covered : raising w = 0 → Exists (sleepy (maximum w)) (threads w) →
                  maximum w - active w <= total (maximum w) (threads w) + releasing w }.

Lemma total_insert mx l i x y : l !! i = Some x → total mx (<[i := y]> l) + weight mx x = total mx l + weight mx y.
Proof.
  unfold total. revert i. induction l as [|z l IH]; intros [|i] Hi; simpl in *; [done|done| |].
  - assert (z = x) as -> by congruence. lia.
  - specialize (IH i Hi). unfold insert in *. lia.
Qed.

Lemma total_snoc mx l t : total mx (l ++ [t]) = total mx l + weight mx t.
Proof. unfold total. rewrite sum_list_with_app. cbn. lia. Qed.

Lemma sleepy_insert mx l i t : ¬ sleepy mx t → Exists (sleepy mx) (<[i := t]> l) → Exists (sleepy mx) l.
Proof.
  intros Ht. rewrite !Exists_exists. intros (x & Hx & Hs). apply list_elem_of_lookup in Hx as [k Hk].
  apply list_lookup_insert_Some in Hk as [(-> & <- & _)|[_ Hk]]; [done|]. exists x. split; [|done].
  by eapply list_elem_of_lookup_2.
Qed.

Lemma sleepy_waiter mx l : Exists (sleepy mx) l → existsb waiter l = true.
Proof.
  rewrite Exists_exists. intros (x & Hx & Hs). apply existsb_exists. exists x. split; [by apply list_elem_of_In|].
  by destruct x as [[st []]|].
Qed.

Lemma waiters_insert l i t : waiter t = false → existsb waiter l = false → existsb waiter (<[i := t]> l) = false.
Proof.
  intros Ht Hl. destruct (existsb waiter (<[i := t]> l)) eqn:E; [|done].
  apply existsb_exists in E as (x & Hx & Hw). apply list_elem_of_In, list_elem_of_lookup in Hx as [k Hk].
  apply list_lookup_insert_Some in Hk as [(_ & -> & _)|[_ Hk]]; [congruence|].
  assert (Hc : existsb waiter l = true); [|congruence].
  apply existsb_exists. exists x. split; [|done]. apply list_elem_of_In. by eapply list_elem_of_lookup_2.
Qed.

(** Waking one: the chosen call accounts for one place more. *)
Lemma notify_one_covers mx j s l s' l' : notify_one j s l = Some (s', l') → Exists (sleepy mx) l' →
  Exists (sleepy mx) l ∧ total mx l' = total mx l + 1 ∧ s' = s.
Proof.
  unfold notify_one. destruct (existsb waiter l) eqn:E.
  - destruct (l !! j) as [[[st []]|]|] eqn:Hj; try done. intros [= <- <-] Hs.
    split; [by eapply sleepy_insert; [|exact Hs]; intros []|]. split; [|done].
    pose proof (total_insert mx l j _ (Some (st, ByOne)) Hj) as Ht. cbn [weight] in Ht. lia.
  - intros [= <- <-] Hs. apply sleepy_waiter in Hs. congruence.
Qed.

Lemma notify_one_stored j s l s' l' : notify_one j s l = Some (s', l') →
  (s = true → existsb waiter l = false) → s' = true → existsb waiter l' = false.
Proof.
  unfold notify_one. destruct (existsb waiter l) eqn:E; [|by intros [= <- <-]].
  destruct (l !! j) as [[[st []]|]|] eqn:Hj; try done. intros [= <- <-] Hs ->. by specialize (Hs eq_refl).
Qed.

(** Dropping the [Notified] of call [i], which ends. *)
Lemma drop_covers mx n j s l i t s' l' : l !! i = Some t →
  drop_notified n j s (<[i := None]> l) = Some (s', l') → Exists (sleepy mx) l' →
  Exists (sleepy mx) l ∧ total mx l' + weight mx t = total mx l + (if n is ByOne then 1 else 0) ∧ s' = s.
Proof.
  intros Hi E Hs. pose proof (total_insert mx l i _ None Hi) as Ht. cbn [weight] in Ht.
  assert (Hnone : Exists (sleepy mx) (<[i := None]> l) → Exists (sleepy mx) l)
    by (apply sleepy_insert; by intros []).
  destruct n; cbn [drop_notified] in E.
  - injection E as <- <-. split_and!; [auto|lia|done].
  - apply (notify_one_covers mx) in E as (Hs' & Ht' & ->); [|done]. split_and!; [auto|lia|done].
  - injection E as <- <-. split_and!; [auto|lia|done].
Qed.

Lemma drop_stored n j s l s' l' : drop_notified n j s l = Some (s', l') →
  (s = true → existsb waiter l = false) → s' = true → existsb waiter l' = false.
Proof. destruct n; cbn; [by intros [= <- <-]|apply notify_one_stored|by intros [= <- <-]]. Qed.

Lemma register_sleepy mx s : ¬ sleepy mx (register s).2.
Proof. destruct s; cbn; [tauto|done]. Qed.

(** A step that replaces one entry by one that accounts for as much. *)
Lemma awake_insert w i t t' s :
  awake w → threads w !! i = Some t → (waiter t' = true → waiter t = true) → stored w = s →
  (raising w = 0 → sleepy (maximum w) t' → sleepy (maximum w) t ∨ maximum w <= active w) →
  weight (maximum w) t <= weight (maximum w) t' ∨ maximum w <= active w →
  awake (with_threads w s (<[i := t']> (threads w))).
Proof.
  intros [Hs Hc] Hi Hw <- Hsl Hwt.
  split; cbn [stored threads raising maximum active releasing with_threads].
  - intros Hst. specialize (Hs Hst). destruct (waiter t') eqn:Et'; [|by apply waiters_insert].
    assert (existsb waiter (threads w) = true); [|congruence]. apply existsb_exists. exists t.
    split; [apply list_elem_of_In; by eapply list_elem_of_lookup_2|auto].
  - intros Hr Hex. destruct Hwt as [Hwt|]; [|lia].
    pose proof (total_insert (maximum w) (threads w) i t t' Hi) as Ht.
    destruct (decide (maximum w <= active w)) as [|Hfull]; [lia|].
    assert (Hex' : Exists (sleepy (maximum w)) (threads w)).
    { apply Exists_exists in Hex as (x & Hx & Hxs). apply list_elem_of_lookup in Hx as [k Hk].
      apply Exists_exists. apply list_lookup_insert_Some in Hk as [(_ & <- & _)|[_ Hk]].
      - exists t. split; [by eapply list_elem_of_lookup_2|]. by destruct (Hsl Hr Hxs).
      - exists x. split; [by eapply list_elem_of_lookup_2|done]. }
    specialize (Hc Hr Hex'). lia.
Qed.

Lemma waiters_none mx l : existsb waiter l = false → ¬ Exists (sleepy mx) l.
Proof. intros Hw Hs%sleepy_waiter. congruence. Qed.

Lemma notified_all l : existsb waiter (notify_waiters l) = false.
Proof. induction l as [|[[st []]|] l IH]; cbn in *; done. Qed.

(** A call that ended stays ended while others are notified. *)
Lemma drop_keeps n j s l s' l' i : drop_notified n j s l = Some (s', l') → l !! i = Some None → l' !! i = Some None.
Proof.
  destruct n; cbn; [by intros [= <- <-]| |by intros [= <- <-]]. unfold notify_one.
  destruct (existsb waiter l); [|by intros [= <- <-]].
  destruct (l !! j) as [[[st []]|]|] eqn:Hj; try done. intros [= <- <-] Hi.
  rewrite list_lookup_insert_ne; [done|]. intros ->. congruence.
Qed.

(** A call that registers again. *)
Lemma awake_register w l i s t : (stored w = true → existsb waiter (threads w) = false) →
  l !! i = Some t →
  (raising w = 0 → Exists (sleepy (maximum w)) l →
     Exists (sleepy (maximum w)) (threads w) ∧ s = stored w ∧
     maximum w - active w + weight (maximum w) t <= total (maximum w) l + releasing w + 1) →
  awake (with_threads w (register s).1 (<[i := (register s).2]> l)).
Proof.
  intros Hst Hi Hc. split; cbn [stored threads raising maximum active releasing with_threads]; [done|].
  intros Hr Hex. apply sleepy_insert in Hex; [|apply register_sleepy].
  destruct (Hc Hr Hex) as (Hex' & -> & Hle).
  assert (Hfalse : stored w = false).
  { destruct (stored w); [|done]. by destruct (waiters_none (maximum w) _ (Hst eq_refl)). }
  rewrite Hfalse in *. pose proof (total_insert (maximum w) l i t (register false).2 Hi) as Ht.
  cbn [register snd weight checking Nat.b2n] in Ht |- *. lia.
Qed.

Lemma exchange_awake w i sp j w' : awake w → step (Exchange i sp j) w = Some w' → awake w'.
Proof.
  intros Hw. pose proof Hw as [Hs Hc]. cbn [step].
  destruct (threads w !! i) as [[[[| |a m|] n]|]|] eqn:Hi; try done. destruct (a <? m) eqn:Ham; [|done].
  destruct (drop_notified n j (stored w) (<[i := None]> (threads w))) as [[s l]|] eqn:E; [|done].
  assert (Hstored : stored w = true → existsb waiter (<[i := None]> (threads w)) = false)
    by (intros Hst; apply waiters_insert; [done|auto]).
  pose proof (drop_stored _ _ _ _ _ _ E Hstored) as Hs'.
  assert (Hcov : Exists (sleepy (maximum w)) l → Exists (sleepy (maximum w)) (threads w) ∧
      total (maximum w) l + 1 >= total (maximum w) (threads w) ∧ s = stored w).
  { intros Hex. destruct (drop_covers (maximum w) _ _ _ _ _ _ _ _ Hi E Hex) as (Hex' & Ht & ->).
    split_and!; [done| |done]. destruct n; cbn [weight checking] in Ht; rewrite ?Ham in Ht; cbn in Ht; lia. }
  cbn [mbind option_bind]. destruct (_ && negb sp); intros [= <-].
  - split; cbn [stored threads raising maximum active releasing]; [done|]. intros Hr Hex.
    destruct (Hcov Hex) as (Hex' & Ht & _). specialize (Hc Hr Hex'). lia.
  - change (awake (with_threads w (register s).1 (<[i := (register s).2]> l))).
    eapply (awake_register w l i s None); [done| |].
    + eapply drop_keeps; [exact E|]. apply list_lookup_insert_eq. by eapply lookup_lt_Some.
    + intros Hr Hex. destruct (Hcov Hex) as (Hex' & Ht & Hss). specialize (Hc Hr Hex').
      split_and!; [done|done|]. cbn [weight]. lia.
Qed.

Lemma step_awake ev w w' : awake w → step ev w = Some w' → awake w'.
Proof.
  intros Hw. pose proof Hw as [Hs Hc]. destruct ev as [|i|i|i sp j|i|i|i j| |j|max|];
    try (by apply exchange_awake); cbn [step].
  - intros [= <-]. split; cbn [stored threads raising maximum active releasing with_threads]; [done|].
    intros Hr Hex. apply Exists_app in Hex as [Hex|Hex].
    + rewrite total_snoc. specialize (Hc Hr Hex). lia.
    + apply Exists_cons in Hex as [Hex|Hex%Exists_nil]; [by apply (register_sleepy (maximum w) (stored w)) in Hex|done].
  - destruct (threads w !! i) as [[[[] n]|]|] eqn:Hi; try done. intros [= <-].
    destruct (Nat.ltb_spec (active w) (maximum w)) as [Hlt|Hge].
    + apply Nat.ltb_lt in Hlt. eapply awake_insert; [done|exact Hi|by destruct n|done| |left];
        destruct n; cbn [sleepy weight checking]; rewrite ?Hlt; cbn; auto; done.
    + eapply awake_insert; [done|exact Hi|by destruct n|done|by right|by right].
  - destruct (threads w !! i) as [[[[] n]|]|] eqn:Hi; try done. intros [= <-].
    eapply awake_insert; [done|exact Hi|by destruct n|done| |left]; destruct n; cbn; auto.
  - destruct (threads w !! i) as [[[[| |a m|] n]|]|] eqn:Hi; try done. destruct (a <? m) eqn:Ham; [done|].
    intros [= <-]. eapply awake_insert; [done|exact Hi|by destruct n|done| |left];
      destruct n; cbn [sleepy weight checking]; rewrite ?Ham; auto.
  - destruct (threads w !! i) as [[[[] []]|]|] eqn:Hi; try done; intros [= <-];
      (change (awake (with_threads w (register (stored w)).1 (<[i := (register (stored w)).2]> (threads w))));
       eapply awake_register; [done|exact Hi|]; intros Hr Hex; specialize (Hc Hr Hex); split_and!; [done|done|cbn [weight checking Nat.b2n]; lia]).
  - destruct (threads w !! i) as [[[[] n]|]|] eqn:Hi; try done.
    destruct (drop_notified n j (stored w) (<[i := None]> (threads w))) as [[s l]|] eqn:E; [|done].
    cbn [mbind option_bind]. intros [= <-]. split; cbn [stored threads raising maximum active releasing with_threads].
    + eapply drop_stored; [exact E|]. intros Hst. apply waiters_insert; [done|auto].
    + intros Hr Hex. destruct (drop_covers (maximum w) _ _ _ _ _ _ _ _ Hi E Hex) as (Hex' & Ht & _).
      specialize (Hc Hr Hex'). destruct n; cbn [weight checking Nat.b2n] in Ht; lia.
  - destruct (held w) as [|h]; [done|]. intros [= <-]. split; cbn [stored threads raising maximum active releasing]; [done|].
    intros Hr Hex. specialize (Hc Hr Hex). lia.
  - destruct (releasing w) as [|r] eqn:Hrel; [done|].
    destruct (notify_one j (stored w) (threads w)) as [[s l]|] eqn:E; [|done]. cbn [mbind option_bind]. intros [= <-].
    split; cbn [stored threads raising maximum active releasing]; [by eapply notify_one_stored|].
    intros Hr Hex. destruct (notify_one_covers _ _ _ _ _ _ E Hex) as (Hex' & Ht & _). specialize (Hc Hr Hex'). lia.
  - intros [= <-]. split; cbn [stored threads raising maximum active releasing]; [done|lia].
  - destruct (raising w); [done|]. intros [= <-]. split; cbn [stored threads raising maximum active releasing].
    + intros _. apply notified_all.
    + intros _ Hex. by destruct (waiters_none _ _ (notified_all (threads w)) Hex).
Qed.

Lemma run_awake evs w w' : awake w → run evs w = Some w' → awake w'.
Proof.
  revert w. induction evs as [|ev evs IH]; cbn; intros w Hw E; [by simplify_eq|].
  destruct (step ev w) as [w1|] eqn:E1; [|done]. simpl in E. eapply IH; [|done]. by eapply step_awake.
Qed.

(** ** Theorems *)

(** The number of connections never exceeds the limit: whatever way the
    calls interleave, no more permits are out than the largest maximum that was
    ever set, and the counter is their number (so giving one back never
    underflows). *)
Theorem connections_bounded max b evs w :
  max <= b → Forall (max_ok b) evs → run evs (ConnectionLimit_new max) = Some w →
  held w <= b ∧ active w = held w.
Proof.
  intros Hb Hev Hr. assert (Hl : limited b (ConnectionLimit_new max)) by (split; cbn; [done|done|lia|done]).
  destruct (run_limited _ _ _ _ Hev Hl Hr) as [_ Hh Ha _]. split; congruence.
Qed.

(** C17: no wake-up is lost: when nothing else can happen, that is when every
    call has ended or sleeps without a notification and no permit or maximum is
    half way through its change, a sleeping call means that all places are
    taken. *)
Theorem no_lost_wakeup max evs w i :
  run evs (ConnectionLimit_new max) = Some w →
  releasing w = 0 → raising w = 0 →
  Forall (λ t, t = None ∨ t = Some (Parked, Nothing)) (threads w) →
  threads w !! i = Some (Some (Parked, Nothing)) → maximum w <= active w.
Proof.
  intros Hr Hrel Hrai Hall Hi. assert (Ha : awake (ConnectionLimit_new max)).
  { split; [done|]. intros _ Hex%Exists_nil. done. }
  destruct (run_awake _ _ _ Ha Hr) as [_ Hc].
  assert (Hex : Exists (sleepy (maximum w)) (threads w)).
  { apply Exists_exists. eexists. split; [by eapply list_elem_of_lookup_2|]. done. }
  specialize (Hc Hrai Hex). assert (Hz : total (maximum w) (threads w) = 0); [|lia].
  revert Hall. unfold total. clear. induction 1 as [|t l [->| ->] _ IH]; cbn; done.
Qed.

(** ** Witnesses *)

(** One place: the first call takes it, the second waits. *)
Definition two_calls : list event :=
  [Enter; LoadActive 0; LoadMaximum 0; Enter; LoadActive 1; LoadMaximum 1; Exchange 0 false 0; Exchange 1 false 0;
   LoadActive 1; LoadMaximum 1; Park 1].

Lemma connections_bounded_witness :
  ∃ w, run two_calls (ConnectionLimit_new 1) = Some w ∧ held w = 1 ∧ active w = held w.
Proof.
  destruct (run two_calls (ConnectionLimit_new 1)) as [w|] eqn:E.
  - exists w. split; [reflexivity|]. split.
    + vm_compute in E. injection E as <-. reflexivity.
    + apply (connections_bounded 1 1 two_calls w); [lia|by repeat constructor|exact E].
  - exfalso. vm_compute in E. discriminate.
Defined.

Lemma no_lost_wakeup_witness :
  ∃ w, run two_calls (ConnectionLimit_new 1) = Some w ∧ threads w = [None; Some (Parked, Nothing)] ∧ maximum w <= active w.
Proof.
  destruct (run two_calls (ConnectionLimit_new 1)) as [w|] eqn:E.
  - exists w. split; [reflexivity|].
    assert (Ht : threads w = [None; Some (Parked, Nothing)] ∧ releasing w = 0 ∧ raising w = 0)
      by (vm_compute in E; injection E as <-; done).
    destruct Ht as (Ht & Hr1 & Hr2). split; [exact Ht|].
    assert (Hall : Forall (λ t, t = None ∨ t = Some (Parked, Nothing)) (threads w)).
    { rewrite Ht. constructor; [by left|]. constructor; [by right|]. constructor. }
    assert (Hi : threads w !! 1 = Some (Some (Parked, Nothing))) by (rewrite Ht; reflexivity).
    exact (no_lost_wakeup 1 two_calls w 1 E Hr1 Hr2 Hall Hi).
  - exfalso. vm_compute in E. discriminate.
Defined.
