(* ===== verification/ProxyService.v ===== *)
(** * ProxyService: [gaterust-proxy/src/proxy.rs]

    How a request is checked, rewritten and sent to its upstream.  The header
    map, header values and URIs are the [http] crate's: class [HeaderMapLib]
    states what the code relies on, every name having the list of its values.
    The HTTP client is an argument: it answers a request with a status and
    headers or fails. *)

From S2P Require Import Prelude RustStr Net ProxyConfig Router.

(** ** Headers *)

(** [http::HeaderMap] with lower-case names. [name_from_bytes] is
    [HeaderName::from_bytes], [to_str] and [from_str] are those of
    [HeaderValue]. *)
Class HeaderMapLib := {
  HeaderMap : Type;
  get_all : HeaderMap → str → list str;
  insert_header : HeaderMap → str → str → HeaderMap;
  remove_header : HeaderMap → str → HeaderMap;
  get_all_insert : ∀ m n v n', get_all (insert_header m n v) n' = if decide (n' = n) then [v] else get_all m n';
  get_all_remove : ∀ m n n', get_all (remove_header m n) n' = if decide (n' = n) then [] else get_all m n';
  name_from_bytes : str → option str;
  value_to_str : str → option str;
  value_from_str : str → bool }.

Definition CONNECTION : str := "connection".
Definition HOST : str := "host".
Definition TE : str := "te".
Definition TRAILER : str := "trailer".
Definition TRANSFER_ENCODING : str := "transfer-encoding".
Definition UPGRADE : str := "upgrade".
Definition X_FORWARDED_FOR : str := "x-forwarded-for".
Definition X_FORWARDED_PROTO : str := "x-forwarded-proto".
Definition X_FORWARDED_HOST : str := "x-forwarded-host".

(** [Authority::from_str] and [host], and the URI builder. *)
Class UriBuild `{UriLib} := {
  authority_host : str → option str;
  build_uri : str → str → str → result str Uri }.

Section service.
Context `{HL : HeaderMapLib} `{UL : UriLib} `{!UriBuild} `{!Orders}.

(** [get]: the first value. *)
Definition header_get (m : HeaderMap) (n : str) : option str := head (get_all m n).

Definition set_forwarded (m : HeaderMap) (name value : str) : HeaderMap :=
  if value_from_str value then insert_header m name value else m.

(** The names listed by the first [Connection] header. *)
Definition connection_tokens (m : HeaderMap) : list str :=
  match header_get m CONNECTION ≫= value_to_str with
  | Some value => omap (λ name, name_from_bytes (trim name)) (split ","%char value)
  | None => []
  end.
Definition hop_headers : list str := [CONNECTION; TE; TRAILER; TRANSFER_ENCODING; UPGRADE].
Definition remove_hop_headers (m : HeaderMap) : HeaderMap :=
  foldl remove_header (foldl remove_header m (connection_tokens m)) hop_headers.

(** ** Requests *)

Record Request := { rq_uri : Uri; rq_headers : HeaderMap }.

Definition base_path (upstream : Uri) : str := trim_end_matches (λ c, bool_decide (c = "/"%char)) (uri_path upstream).
Definition joined_path (upstream incoming : Uri) : str :=
  let base := base_path upstream in
  let incoming_path := uri_path incoming in
  let result :=
    if bool_decide (base = []) then incoming_path
    else if bool_decide (incoming_path = lit "/") then base ++ "/"
    else base ++ incoming_path in
  match uri_query incoming with
  | Some query => result ++ "?"%char :: query
  | None => result
  end.

Definition request_host (r : Request) : option str :=
  value ← header_get (rq_headers r) HOST ≫= value_to_str;
  host ← authority_host value;
  Some (to_ascii_lowercase (trim_end_matches (λ c, bool_decide (c = "."%char)) host)).

Definition tls_host_matches (host : str) (server_name : option str) : bool :=
  match server_name with
  | None => true
  | Some server_name => eq_ignore_ascii_case server_name host
  end.

Definition prepare_request (r : Request) (route : Route) (remote : SocketAddr) (tls : bool) : PResult Request :=
  let original_host := header_get (rq_headers r) HOST in
  let upgrade := header_get (rq_headers r) UPGRADE in
  let path := joined_path (rt_upstream route) (rq_uri r) in
  authority ← ok_or (uri_authority (rt_upstream route)) (PInvalidConfig "上游 URI 缺少 authority");
  uri ← map_err PHttp (build_uri (default (lit "http") (uri_scheme (rt_upstream route))) authority path);
  let m := remove_hop_headers (rq_headers r) in
  let m := match original_host with Some host => insert_header m HOST host | None => m end in
  let m := match upgrade with
           | Some upgrade => insert_header (insert_header m UPGRADE upgrade) CONNECTION "upgrade"
           | None => m
           end in
  let m := set_forwarded m X_FORWARDED_FOR (fmt_ip (sock_ip remote)) in
  let m := set_forwarded m X_FORWARDED_PROTO (if tls then "https" else "http") in
  let m := match original_host ≫= value_to_str with
           | Some host => set_forwarded m X_FORWARDED_HOST host
           | None => m
           end in
  Ok {| rq_uri := uri; rq_headers := m |}.

(** ** Responses *)

(** An answer of the proxy itself, or the upstream's, with whether the
    connection is handed over to the two sides. *)
Inductive Response :=
  | Local (status : N) (message : str)
  | Upstream (status : N) (headers : HeaderMap) (tunnelled : bool).

Definition response (status : N) (message : str) : Response := Local status message.

(** The answer, and the request that was sent upstream. *)
Definition handle (routes : Router) (client : Request → result str (N * HeaderMap)) (r : Request)
  (remote : SocketAddr) (tls_server_name : option str) : Response * option Request :=
  match request_host r with
  | None => (response 400 "缺少有效 Host 请求头", None)
  | Some host =>
  if negb (tls_host_matches host tls_server_name) then (response 421 "TLS SNI 与 Host 不一致", None) else
  let tls := configured tls_server_name in
  match Router_find routes host (uri_path (rq_uri r)) with
  | None => (response 404 "未匹配到代理路由", None)
  | Some route =>
  if tls && negb (rt_tls route) then (response 421 "该路由未绑定 TLS 证书", None) else
  let upgrading := configured (header_get (rq_headers r) UPGRADE) in
  match prepare_request r route remote tls with
  | Err _ => (response 502 "上游地址无效", None)
  | Ok request =>
      (match client request with
       | Ok (status, headers) => Upstream status (remove_hop_headers headers) ((status =? 101) && upgrading)
       | Err _ => response 502 "上游服务不可用"
       end, Some request)
  end end end.

(** ** Lemmas *)

Lemma remove_all_values l m n :
  get_all (foldl remove_header m l) n = if decide (n ∈ l) then [] else get_all m n.
Proof.
  revert m. induction l as [|x l IH]; intros m; cbn [foldl].
  - rewrite decide_False; [done|]. by intros ?%elem_of_nil.
  - rewrite IH, get_all_remove. destruct (decide (n ∈ l)) as [Hl|Hl].
    + rewrite decide_True; [done|]. by right.
    + destruct (decide (n = x)) as [->|Hne]; [rewrite decide_True; [done|by left]|].
      rewrite decide_False; [done|]. intros [?|?]%elem_of_cons; done.
Qed.

Lemma hop_values m n :
  get_all (remove_hop_headers m) n =
    if decide (n ∈ hop_headers ∨ n ∈ connection_tokens m) then [] else get_all m n.
Proof.
  unfold remove_hop_headers. rewrite !remove_all_values.
  destruct (decide (n ∈ hop_headers)); [rewrite decide_True; [done|by left]|].
  destruct (decide (n ∈ connection_tokens m)); [rewrite decide_True; [done|by right]|].
  rewrite decide_False; [done|tauto].
Qed.

Lemma set_forwarded_values m name value n : value_from_str value = true →
  get_all (set_forwarded m name value) n = if decide (n = name) then [value] else get_all m n.
Proof. intros Hv. unfold set_forwarded. by rewrite Hv, get_all_insert. Qed.

Lemma joined_path_eq upstream incoming :
  joined_path upstream incoming =
    base_path upstream ++ uri_path incoming ++
    match uri_query incoming with Some query => "?"%char :: query | None => [] end.
Proof.
  unfold joined_path. destruct (bool_decide_reflect (base_path upstream = [])) as [->|].
  { destruct (uri_query incoming); [done|by rewrite app_nil_r]. }
  destruct (bool_decide_reflect (uri_path incoming = lit "/")) as [->|];
    destruct (uri_query incoming); by rewrite ?app_nil_r, <- ?(assoc_L (++)).
Qed.

(** ** Theorems *)

(** What each of the steps does to the values of a name. *)
Lemma values_host m (o : option str) n :
  get_all (match o with Some h => insert_header m HOST h | None => m end) n =
    if decide (n = HOST) then match o with Some h => [h] | None => get_all m n end else get_all m n.
Proof. destruct o; rewrite ?get_all_insert; by destruct (decide _). Qed.

Lemma values_upgrade m (o : option str) n :
  get_all (match o with
           | Some u => insert_header (insert_header m UPGRADE u) CONNECTION "upgrade"
           | None => m
           end) n =
    match o with
    | Some u => if decide (n = CONNECTION) then [lit "upgrade"] else if decide (n = UPGRADE) then [u] else get_all m n
    | None => get_all m n
    end.
Proof. destruct o; by rewrite ?get_all_insert. Qed.

Lemma values_forwarded_host m (o : option str) n : (∀ s, o = Some s → value_from_str s = true) →
  get_all (match o with Some h => set_forwarded m X_FORWARDED_HOST h | None => m end) n =
    if decide (n = X_FORWARDED_HOST) then match o with Some h => [h] | None => get_all m n end else get_all m n.
Proof. intros Ho. destruct o; rewrite ?set_forwarded_values by auto; by destruct (decide _). Qed.

Lemma head_values m n : match header_get m n with Some h => True | None => get_all m n = [] end.
Proof. unfold header_get. by destruct (get_all m n). Qed.

(** The values of a name in a prepared request. *)
Definition prepared_value (m : HeaderMap) (ip proto n : str) : list str :=
  let hop : list str := if decide (n ∈ hop_headers ∨ n ∈ connection_tokens m) then [] else get_all m n in
  let host := if decide (n = HOST) then match header_get m HOST with Some h => [h] | None => hop end else hop in
  let upgraded := match header_get m UPGRADE with
                  | Some u => if decide (n = CONNECTION) then [lit "upgrade"] else if decide (n = UPGRADE) then [u] else host
                  | None => host
                  end in
  let forwarded := if decide (n = X_FORWARDED_PROTO) then [proto] else
                   if decide (n = X_FORWARDED_FOR) then [ip] else upgraded in
  if decide (n = X_FORWARDED_HOST) then match header_get m HOST ≫= value_to_str with Some h => [h] | None => forwarded end
  else forwarded.

Lemma prepared_values r route remote (tls : bool) r' n :
  value_from_str (fmt_ip (sock_ip remote)) = true → value_from_str (if tls then lit "https" else lit "http") = true →
  (∀ v s, value_to_str v = Some s → value_from_str s = true) → prepare_request r route remote tls = Ok r' →
  get_all (rq_headers r') n =
    prepared_value (rq_headers r) (fmt_ip (sock_ip remote)) (if tls then lit "https" else lit "http") n.
Proof.
  intros Hip Hproto Hstr. unfold prepare_request. rewrite bind_ok. intros (authority & _ & E).
  apply bind_ok in E as (uri & _ & [= <-]). cbn [rq_headers]. unfold prepared_value.
  rewrite values_forwarded_host, (set_forwarded_values _ _ _ _ Hproto), (set_forwarded_values _ _ _ _ Hip),
    values_upgrade, values_host, hop_values; [done|].
  intros s Hs. destruct (header_get (rq_headers r) HOST); [|done]. by eapply Hstr.
Qed.

(** Decides the equations between header names. *)
Ltac decide_names :=
  repeat match goal with
         | |- context [decide (?a = ?b)] =>
             first [rewrite (decide_True (P := a = b)) by reflexivity
                   |rewrite (decide_False (P := a = b)) by (vm_compute; discriminate)]
         end.

(** C28: the headers of a request that goes upstream, whatever the client sent:
    the forwarded address and protocol are the proxy's own and the forwarded
    host the one of the request, none of them can be forged; the host is kept;
    an upgrade is passed on with its [Connection] header; the other hop-by-hop
    headers and those the first [Connection] header lists are gone; all other
    headers are unchanged.  The target is the upstream of the route with the
    path joined to its own. *)
Theorem prepare_request_spec r route remote tls r' :
  value_from_str (fmt_ip (sock_ip remote)) = true → value_from_str "http" = true → value_from_str "https" = true →
  (∀ v s, value_to_str v = Some s → value_from_str s = true) →
  prepare_request r route remote tls = Ok r' →
  let m := rq_headers r in
  let v := get_all (rq_headers r') in
  (∃ authority, uri_authority (rt_upstream route) = Some authority ∧
     build_uri (default (lit "http") (uri_scheme (rt_upstream route))) authority
       (base_path (rt_upstream route) ++ uri_path (rq_uri r) ++
        match uri_query (rq_uri r) with Some query => "?"%char :: query | None => [] end) = Ok (rq_uri r')) ∧
  v X_FORWARDED_FOR = [fmt_ip (sock_ip remote)] ∧
  v X_FORWARDED_PROTO = [if tls then lit "https" else lit "http"] ∧
  (∀ host, header_get m HOST ≫= value_to_str = Some host → v X_FORWARDED_HOST = [host]) ∧
  v HOST = option_list (header_get m HOST) ∧
  v UPGRADE = option_list (header_get m UPGRADE) ∧
  v CONNECTION = (if configured (header_get m UPGRADE) then [lit "upgrade"] else []) ∧
  v TE = [] ∧ v TRAILER = [] ∧ v TRANSFER_ENCODING = [] ∧
  (∀ n, n ∉ [X_FORWARDED_FOR; X_FORWARDED_PROTO; X_FORWARDED_HOST; HOST] → n ∉ hop_headers →
     v n = if decide (n ∈ connection_tokens m) then [] else get_all m n).
Proof.
  intros Hip Hhttp Hhttps Hstr E m v.
  assert (Hproto : value_from_str (if tls then lit "https" else lit "http") = true) by by destruct tls.
  assert (Hv : ∀ n, v n = prepared_value m (fmt_ip (sock_ip remote)) (if tls then lit "https" else lit "http") n)
    by (intros n; exact (prepared_values r route remote tls r' n Hip Hproto Hstr E)).
  assert (Hhop : ∀ n, n ∈ hop_headers → (if decide (n ∈ hop_headers ∨ n ∈ connection_tokens m) then [] else get_all m n) = [])
    by (intros n Hn; rewrite decide_True; [done|by left]).
  pose proof (head_values m HOST) as Hh.
  split.
  { revert E. unfold prepare_request. rewrite bind_ok. intros (authority & Ha & E).
    apply bind_ok in E as (uri & Hu & [= <-]). exists authority. split; [by destruct (uri_authority _); simplify_eq/=|].
    rewrite joined_path_eq in Hu. by destruct (build_uri _ _ _); simplify_eq/=. }
  assert (Hhost : match header_get m HOST with
                  | Some h => [h]
                  | None => if decide (HOST ∈ hop_headers ∨ HOST ∈ connection_tokens m) then [] else get_all m HOST
                  end = option_list (header_get m HOST)).
  { destruct (header_get m HOST); [done|]. rewrite Hh. by destruct (decide _). }
  assert (Hgone : ∀ n, bool_decide (n ∈ hop_headers) = true →
    (if decide (n ∈ hop_headers ∨ n ∈ connection_tokens m) then [] else get_all m n) = [])
    by (intros n Hn; apply Hhop; by apply bool_decide_eq_true in Hn).
  rewrite !Hv. unfold prepared_value at 1 2 3 4 5 6 7 8 9.
  split; [decide_names; done|]. split; [decide_names; done|].
  split; [intros host ->; by decide_names|].
  split; [destruct (header_get m UPGRADE); by decide_names|].
  split; [destruct (header_get m UPGRADE); decide_names; try apply Hgone; reflexivity|].
  split; [destruct (header_get m UPGRADE); decide_names; try apply Hgone; reflexivity|].
  split; [destruct (header_get m UPGRADE); decide_names; try apply Hgone; reflexivity|].
  split; [destruct (header_get m UPGRADE); decide_names; try apply Hgone; reflexivity|].
  split; [destruct (header_get m UPGRADE); decide_names; try apply Hgone; reflexivity|].
  intros n Hn1 Hn2. rewrite Hv. unfold prepared_value.
    rewrite !not_elem_of_cons in Hn1. destruct Hn1 as (Hx1 & Hx2 & Hx3 & Hx4 & _).
    assert (n ≠ CONNECTION ∧ n ≠ UPGRADE) as [Hx5 Hx6]
      by (unfold hop_headers in Hn2; rewrite !not_elem_of_cons in Hn2; tauto).
    assert (Hd : (if decide (n ∈ hop_headers ∨ n ∈ connection_tokens m) then [] else get_all m n) =
      if decide (n ∈ connection_tokens m) then [] else get_all m n).
    { destruct (decide (n ∈ connection_tokens m)); [rewrite decide_True; [done|by right]|].
      rewrite decide_False; [done|tauto]. }
    destruct (header_get m UPGRADE); by rewrite !(decide_False (P := n = _)) by done.
Qed.

Lemma route_entry_ok rc e : route_entry rc = Ok e →
  parse_uri (ProxyConfig.upstream rc) = Some (rt_upstream (entry_route e)) ∧
  rt_tls (entry_route e) = configured (certificate_id rc).
Proof. unfold route_entry. destruct (parse_uri _); [|done]. by intros [= <-]. Qed.

(** Building the table read every upstream. *)
Lemma add_routes_entries rs : ∀ st st' rc, try_for add_route st rs = Ok st' → rc ∈ rs → ∃ e, route_entry rc = Ok e.
Proof.
  induction rs as [|x rs IH]; intros st st' rc; [by intros _ ?%elem_of_nil|].
  change (try_for add_route st (x :: rs)) with (s' ← add_route st x; try_for add_route s' rs).
  intros (s1 & H1 & H2)%bind_ok [->|Hin]%elem_of_cons; [|by eapply IH]. apply bind_ok in H1 as (e & He & _). by exists e.
Qed.

Lemma selected_in host path rs rc : selected host path rs rc → rc ∈ rs.
Proof. by intros [[[? _] _]|[_ [[? _] _]]]. Qed.

(** The host is the one the connection was made for. *)
Definition named (host : str) (server_name : option str) : Prop :=
  ∀ name, server_name = Some name → eq_ignore_ascii_case name host = true.
(** Over TLS the route needs a certificate. *)
Definition covered (rc : RouteConfig) (server_name : option str) : Prop :=
  server_name ≠ None → certificate_id rc ≠ None.
Definition route_of (rc : RouteConfig) (upstream : Uri) : Route :=
  {| rt_name := route_name rc; rt_upstream := upstream; rt_tls := configured (certificate_id rc) |}.

(** The answer to a request, with what is sent upstream, by the routes of the
    configuration. *)
Inductive verdict (c : ProxyConfig) (client : Request → result str (N * HeaderMap)) (r : Request) (remote : SocketAddr)
  (server_name : option str) : Response → option Request → Prop :=
  | no_host : request_host r = None → verdict c client r remote server_name (Local 400 "缺少有效 Host 请求头") None
  | other_host host name :
      request_host r = Some host → server_name = Some name → eq_ignore_ascii_case name host = false →
      verdict c client r remote server_name (Local 421 "TLS SNI 与 Host 不一致") None
  | no_route host :
      request_host r = Some host → named host server_name →
      (∀ rc, rc ∈ ProxyConfig.routes c → serves_path (uri_path (rq_uri r)) rc → ¬ serves_exact host rc ∧ ¬ serves_wild host rc) →
      verdict c client r remote server_name (Local 404 "未匹配到代理路由") None
  | no_certificate host rc :
      request_host r = Some host → named host server_name → selected host (uri_path (rq_uri r)) (ProxyConfig.routes c) rc →
      ¬ covered rc server_name → verdict c client r remote server_name (Local 421 "该路由未绑定 TLS 证书") None
  | no_upstream host rc u err :
      request_host r = Some host → named host server_name → selected host (uri_path (rq_uri r)) (ProxyConfig.routes c) rc →
      covered rc server_name → parse_uri (ProxyConfig.upstream rc) = Some u →
      prepare_request r (route_of rc u) remote (configured server_name) = Err err →
      verdict c client r remote server_name (Local 502 "上游地址无效") None
  | forwarded host rc u rq :
      request_host r = Some host → named host server_name → selected host (uri_path (rq_uri r)) (ProxyConfig.routes c) rc →
      covered rc server_name → parse_uri (ProxyConfig.upstream rc) = Some u →
      prepare_request r (route_of rc u) remote (configured server_name) = Ok rq →
      verdict c client r remote server_name
        match client rq with
        | Ok (status, headers) =>
            Upstream status (remove_hop_headers headers) ((status =? 101) && configured (header_get (rq_headers r) UPGRADE))
        | Err _ => Local 502 "上游服务不可用"
        end (Some rq).

Lemma tls_host_named host server_name : tls_host_matches host server_name = true ↔ named host server_name.
Proof. unfold named. destruct server_name as [name|]; cbn; [|done]. split; [by intros ? ? [= <-]|intros Hn; by apply Hn]. Qed.

Lemma covered_true rc server_name : configured server_name && negb (configured (certificate_id rc)) = false ↔ covered rc server_name.
Proof.
  unfold covered. destruct server_name as [name|], (certificate_id rc) as [id|]; cbn; split; try done. intros Hc. by destruct Hc.
Qed.

(** C29: what is answered to a request and what reaches an upstream, exactly: a
    request without a valid host is answered 400; over TLS, 421 exactly when
    the host is not the server name of the connection or the route selected
    for it has no certificate; 404 exactly when no configured route serves the
    host and the path; 502 when no request can be made for the upstream or the
    upstream cannot be reached.  Everything else, and nothing else, is sent to
    the upstream of the route the configuration selects, and the upstream's
    answer is passed on without its hop-by-hop headers. *)
Theorem handle_spec c routes client r remote server_name :
  NoDup ((λ r, (route_host r, path_prefix r)) <$> ProxyConfig.routes c) → Router_new c = Ok routes →
  ∀ resp sent, handle routes client r remote server_name = (resp, sent) ↔ verdict c client r remote server_name resp sent.
Proof.
  intros Hnd HR. set (path := uri_path (rq_uri r)).
  assert (Hentry : ∀ rc, rc ∈ ProxyConfig.routes c → ∃ u, parse_uri (ProxyConfig.upstream rc) = Some u ∧
    route_entry rc = Ok {| entry_prefix := path_prefix rc; entry_route := route_of rc u |}).
  { intros rc Hin. assert (HR' := HR). unfold Router_new in HR'. apply bind_ok in HR' as ([ex wi] & Hloop & _).
    destruct (add_routes_entries _ _ _ rc Hloop Hin) as (e & He). unfold route_entry in *.
    destruct (parse_uri (ProxyConfig.upstream rc)) as [u|]; [|done]. exists u. done. }
  assert (Hfind : ∀ host rc u, selected host path (ProxyConfig.routes c) rc → parse_uri (ProxyConfig.upstream rc) = Some u →
    Router_find routes host path = Some (route_of rc u)).
  { intros host rc u Hs Hu. destruct (Hentry rc (selected_in _ _ _ _ Hs)) as (u' & Hu' & He). assert (u' = u) as -> by congruence.
    destruct (Router_find_ok c routes host path Hnd HR) as [Hsome _]. apply Hsome. by eexists _, _. }
  intros resp sent. split.
  - unfold handle. destruct (request_host r) as [host|] eqn:Hh; [|intros [= <- <-]; by constructor].
    destruct (tls_host_matches host server_name) eqn:Hm; cbn [negb].
    2:{ intros [= <- <-]. destruct server_name as [name|]; [|done]. by eapply other_host. }
    apply tls_host_named in Hm. destruct (Router_find_ok c routes host path Hnd HR) as [Hsome Hnone]. fold path.
    destruct (Router_find routes host path) as [route|] eqn:Hf; [|intros [= <- <-]; eapply no_route; [done..|by apply Hnone]].
    destruct (proj1 (Hsome route) eq_refl) as (rc & e & Hsel & He & ->).
    destruct (Hentry rc (selected_in _ _ _ _ Hsel)) as (u & Hu & He'). rewrite He' in He. injection He as <-. cbn [entry_route route_of rt_tls].
    destruct (configured server_name && negb (configured (certificate_id rc))) eqn:Ht.
    { intros [= <- <-]. eapply no_certificate; [done..|]. intros Hc. apply covered_true in Hc. congruence. }
    apply covered_true in Ht. fold (route_of rc u). destruct (prepare_request r (route_of rc u) remote (configured server_name)) as [rq|err] eqn:Hp.
    + intros [= <- <-]. by eapply forwarded.
    + intros [= <- <-]. by eapply no_upstream.
  - intros [Hh|host name Hh -> Hn|host Hh Hn Hno|host rc Hh Hn Hs Hc|host rc u err Hh Hn Hs Hc Hu Hp|host rc u rq Hh Hn Hs Hc Hu Hp];
      unfold handle; rewrite Hh; [done|cbn [tls_host_matches]; by rewrite Hn|..]; rewrite (proj2 (tls_host_named _ _) Hn); cbn [negb]; fold path.
    + destruct (Router_find_ok c routes host path Hnd HR) as [_ Hnone]. by rewrite (proj2 Hnone Hno).
    + destruct (Hentry rc (selected_in _ _ _ _ Hs)) as (u & Hu & _). rewrite (Hfind _ _ _ Hs Hu). cbn [route_of rt_tls].
      destruct (configured server_name && negb (configured (certificate_id rc))) eqn:Ht; [done|]. by apply covered_true in Ht.
    + rewrite (Hfind _ _ _ Hs Hu). cbn [rt_tls]. change (rt_tls (route_of rc u)) with (configured (certificate_id rc)).
      rewrite (proj2 (covered_true _ _) Hc), Hp. done.
    + rewrite (Hfind _ _ _ Hs Hu). change (rt_tls (route_of rc u)) with (configured (certificate_id rc)).
      rewrite (proj2 (covered_true _ _) Hc), Hp. done.
Qed.

(** An upgrade the upstream accepts is answered without the [Upgrade] and
    [Connection] headers the protocol requires, since they are removed as
    hop-by-hop headers. *)
Theorem switching_headers_removed routes client r remote server_name headers sent :
  handle routes client r remote server_name = (Upstream 101 headers true, sent) →
  get_all headers UPGRADE = [] ∧ get_all headers CONNECTION = [].
Proof.
  assert (Hgone : ∀ h, get_all (remove_hop_headers h) UPGRADE = [] ∧ get_all (remove_hop_headers h) CONNECTION = []).
  { assert (UPGRADE ∈ hop_headers ∧ CONNECTION ∈ hop_headers) as [Hu Hc]
      by (split; apply (bool_decide_unpack _); by vm_compute).
    intros h. rewrite !hop_values, !decide_True; tauto. }
  unfold handle. destruct (request_host r); [|done]. destruct (negb _); [done|].
  destruct (Router_find _ _ _); [|done]. destruct (_ && _); [done|]. destruct (prepare_request _ _ _ _); [|done].
  destruct (client _) as [[st h]|]; [|done]. intros [= _ <- _ _]. apply Hgone.
Qed.
End service.

(** ** Witnesses *)

Definition sample_headers : HeaderMapLib.
Proof.
  refine {| HeaderMap := gmap str (list str);
            get_all := λ m n, default [] (m !! n);
            insert_header := λ m n v, <[n := [v]]> m;
            remove_header := λ m n, delete n m;
            name_from_bytes := λ s, Some (to_ascii_lowercase s);
            value_to_str := Some;
            value_from_str := λ _, true |}.
  - intros m n v n'. destruct (decide (n' = n)) as [->|]; [by rewrite lookup_insert_eq|by rewrite lookup_insert_ne].
  - intros m n n'. destruct (decide (n' = n)) as [->|]; [by rewrite lookup_delete_eq|by rewrite lookup_delete_ne].
Defined.
Definition sample_build : @UriBuild sample_uri :=
  {| authority_host := Some; build_uri := λ _ authority _, (Ok authority : result str (@Uri sample_uri)) |}.

#[local] Notation sheaders := (@HeaderMap sample_headers).

(** A client that tries to forge its address and hides a header behind a
    second [Connection]. *)
Definition forged : sheaders :=
  <[HOST := [lit "www.example.com"]]> (<[X_FORWARDED_FOR := [lit "10.9.9.9"]]>
    (<[CONNECTION := [lit "close, x-one"; lit "x-two"]]> (<[lit "x-one" := [lit "1"]]> (<[lit "x-two" := [lit "2"]]> ∅)))).
Definition forged_request : @Request sample_headers sample_uri := @Build_Request sample_headers sample_uri (lit "www.example.com") forged.
Definition sample_remote : SocketAddr := SockV4 (Build_Ipv4Addr 192 0 2 1) 4000.
Definition sample_route : @Route sample_uri := @Build_Route sample_uri "r" (lit "up") true.

Lemma prepare_request_spec_witness :
  ∃ r', @prepare_request sample_headers sample_uri sample_build forged_request sample_route sample_remote true = Ok r' ∧
    get_all (rq_headers r') X_FORWARDED_FOR = [lit "192.0.2.1"] ∧
    get_all (rq_headers r') "x-two" = [lit "2"].
Proof.
  assert (Hok : is_ok (@prepare_request sample_headers sample_uri sample_build forged_request sample_route sample_remote true)
    = true) by (vm_compute; reflexivity).
  destruct (@prepare_request sample_headers sample_uri sample_build forged_request sample_route sample_remote true)
    as [r'|e] eqn:E; [|discriminate Hok].
  - exists r'. split; [reflexivity|].
    destruct (@prepare_request_spec sample_headers sample_uri sample_build forged_request sample_route sample_remote true r'
      eq_refl eq_refl eq_refl (λ _ _ _, eq_refl) E) as (_ & Hf & _ & _ & _ & _ & _ & _ & _ & _ & Hn).
    split; [rewrite Hf; vm_compute; reflexivity|].
    rewrite Hn; [vm_compute; reflexivity|apply (bool_decide_unpack _); vm_compute; reflexivity..].
Defined.

Definition sample_router : @Router sample_uri :=
  match @Router_new sample_uri (@merge_orders sample_uri) sample_loaded with
  | Ok r => r
  | Err _ => {| exact := ∅; wildcard := [] |}
  end.
Definition sample_client (r : @Request sample_headers sample_uri) : result str (N * sheaders) :=
  Ok (101, <[UPGRADE := [lit "websocket"]]> (<[CONNECTION := [lit "upgrade"]]> ∅)).
Definition upgrade_request : @Request sample_headers sample_uri :=
  @Build_Request sample_headers sample_uri (lit "www.example.com") (<[UPGRADE := [lit "websocket"]]> forged).

#[local] Notation shandle := (@handle sample_headers sample_uri sample_build).

(** A request over TLS for another host than the server name, and one that is
    passed on. *)
Lemma handle_spec_witness :
  shandle sample_router sample_client upgrade_request sample_remote (Some (lit "other.example.com"))
    = (Local 421 "TLS SNI 与 Host 不一致", None) ∧
  ∃ host rc, @request_host sample_headers sample_uri sample_build upgrade_request = Some host ∧
    selected host (lit "/") (routes sample_loaded) rc ∧ certificate_id rc ≠ None.
Proof.
  assert (Hnd : NoDup ((λ r, (route_host r, path_prefix r)) <$> routes sample_loaded))
    by (apply (bool_decide_unpack _); vm_compute; reflexivity).
  assert (HR : @Router_new sample_uri (@merge_orders sample_uri) sample_loaded = Ok sample_router) by (vm_compute; reflexivity).
  pose proof (λ name, @handle_spec sample_headers sample_uri sample_build (@merge_orders sample_uri) sample_loaded sample_router
    sample_client upgrade_request sample_remote name Hnd HR) as Hs.
  split.
  - apply (proj2 (Hs (Some (lit "other.example.com")) _ _)). eapply other_host; [vm_compute; reflexivity|reflexivity|vm_compute; reflexivity].
  - assert (Hsent : configured (shandle sample_router sample_client upgrade_request sample_remote
      (Some (lit "www.example.com"))).2 = true) by (vm_compute; reflexivity).
    assert (Hv := proj1 (Hs (Some (lit "www.example.com")) _ _) (surjective_pairing _)).
    change (handle _ _ _ _ _) with (shandle sample_router sample_client upgrade_request sample_remote (Some (lit "www.example.com"))) in Hv.
    destruct (shandle sample_router sample_client upgrade_request sample_remote (Some (lit "www.example.com"))) as [resp sent].
    cbn [fst snd] in Hv, Hsent. destruct Hv as [| | | | |host rc u rq Hh Hn Hsel Hc Hu Hp]; try discriminate Hsent.
    exists host, rc. split; [exact Hh|]. split; [exact Hsel|]. by apply Hc.
Defined.

Lemma switching_headers_removed_witness :
  ∃ headers sent, shandle sample_router sample_client upgrade_request sample_remote None = (Upstream 101 headers true, sent) ∧
    get_all headers UPGRADE = [].
Proof.
  destruct (shandle sample_router sample_client upgrade_request sample_remote None) as [resp sent] eqn:E.
  assert (Hr : ∃ headers, resp = Upstream 101 headers true).
  { assert (Hc : match (shandle sample_router sample_client upgrade_request sample_remote None).1 with
                 | Upstream st _ t => (st =? 101) && t | Local _ _ => false end = true) by (vm_compute; reflexivity).
    rewrite E in Hc. cbn [fst] in Hc. destruct resp as [|st h t]; [discriminate|].
    destruct (N.eqb_spec st 101) as [->|]; [|discriminate]. cbn in Hc. subst t. by exists h. }
  destruct Hr as [headers ->]. exists headers, sent. split; [reflexivity|].
  apply (@switching_headers_removed sample_headers sample_uri sample_build
    sample_router sample_client upgrade_request sample_remote None headers sent E).
Defined.
