(* ===== verification/ProxyListeners.v ===== *)
(** * ProxyListeners: [gaterust-proxy/src/listener.rs]

    The two listeners of the proxy and the change of their addresses.  The
    sockets the process holds are part of the state, under numbers that are
    never used twice, so that it is visible which socket serves a protocol and
    which ones remain after a task that did not end in time.  What the
    operating system answers to a bind is an argument ([bind]); it may depend
    on everything, in particular on the sockets that are held. *)

From S2P Require Import Prelude Net Paths ProxyConfig.

(** ** The listeners *)

(** The task of a listener, by the socket it accepts from. *)
Notation ActiveListener := N (only parsing).

Record PreparedListeners := { prepared_http : option N; prepared_https : option N }.

Record ListenerManager := {
  pl_maximum : N;
  pl_config : ProxyListenerConfig;
  pl_http : option ActiveListener;
  pl_https : option ActiveListener;
  (** the sockets the process holds *)
  sockets : gmap N SocketAddr;
  next_socket : N;
  binds : N }.

Section listeners.
(** The answer to the [n]-th bind while the process holds the given sockets. *)
Context (bind : N → gmap N SocketAddr → SocketAddr → option str).
(** Whether the task on a socket ends within [SHUTDOWN_TIMEOUT]. *)
Context (ends : N → bool).

Definition with_sockets (m : ListenerManager) (s : gmap N SocketAddr) : ListenerManager :=
  {| pl_maximum := pl_maximum m; pl_config := pl_config m; pl_http := pl_http m; pl_https := pl_https m;
     sockets := s; next_socket := next_socket m; binds := binds m |}.
Definition with_active (m : ListenerManager) (http https : option ActiveListener) : ListenerManager :=
  {| pl_maximum := pl_maximum m; pl_config := pl_config m; pl_http := http; pl_https := https;
     sockets := sockets m; next_socket := next_socket m; binds := binds m |}.
Definition with_maximum (m : ListenerManager) (n : N) : ListenerManager :=
  {| pl_maximum := n; pl_config := pl_config m; pl_http := pl_http m; pl_https := pl_https m;
     sockets := sockets m; next_socket := next_socket m; binds := binds m |}.
Definition with_config (m : ListenerManager) (c : ProxyListenerConfig) : ListenerManager :=
  {| pl_maximum := pl_maximum m; pl_config := c; pl_http := pl_http m; pl_https := pl_https m;
     sockets := sockets m; next_socket := next_socket m; binds := binds m |}.

(** Dropping a [TcpListener] closes its socket. *)
Definition close_socket (m : ListenerManager) (s : N) : ListenerManager :=
  with_sockets m (delete s (sockets m)).

Definition bind_listener (protocol : str) (m : ListenerManager) (address : SocketAddr)
  : PResult N * ListenerManager :=
  let m' s n := {| pl_maximum := pl_maximum m; pl_config := pl_config m; pl_http := pl_http m;
                   pl_https := pl_https m; sockets := s; next_socket := n; binds := binds m + 1 |} in
  match bind (binds m) (sockets m) address with
  | Some error =>
      (Err (PRuntime ("绑定 " ++ protocol ++ " 监听地址 " ++ fmt_sock address ++ " 失败: " ++ error)),
       m' (sockets m) (next_socket m))
  | None => (Ok (next_socket m), m' (<[next_socket m := address]> (sockets m)) (next_socket m + 1))
  end.

Definition bind_listener_pair (m : ListenerManager) (c : ProxyListenerConfig)
  : PResult (N * N) * ListenerManager :=
  match bind_listener "HTTP" m (http_bind c) with
  | (Err e, m) => (Err e, m)
  | (Ok http, m) =>
      match bind_listener "HTTPS" m (https_bind c) with
      | (Err e, m) => (Err e, close_socket m http)
      | (Ok https, m) => (Ok (http, https), m)
      end
  end.

(** A task that ends drops its socket; one that is given up on holds it until
    its cancellation takes effect ([socket_released]). *)
Definition await_listener (m : ListenerManager) (s : N) : ListenerManager :=
  if ends s then close_socket m s else m.
Definition socket_released (m : ListenerManager) (s : N) : ListenerManager :=
  if bool_decide (pl_http m = Some s ∨ pl_https m = Some s) then m else close_socket m s.
Definition stop_listeners (m : ListenerManager) (http https : option ActiveListener) : ListenerManager :=
  let m := match http with Some s => await_listener m s | None => m end in
  match https with Some s => await_listener m s | None => m end.

Definition stop_active (m : ListenerManager) : ListenerManager :=
  stop_listeners (with_active m None None) (pl_http m) (pl_https m).

Definition prepare (m : ListenerManager) (c : ProxyListenerConfig)
  : PResult PreparedListeners * ListenerManager :=
  let bind_if changed protocol m address :=
    if (changed : bool)
    then match bind_listener protocol m address with
         | (Ok s, m) => (Ok (Some s), m)
         | (Err e, m) => (Err e, m)
         end
    else (Ok None, m) in
  match bind_if (negb (bool_decide (http_bind (pl_config m) = http_bind c))) (lit "HTTP") m (http_bind c) with
  | (Err e, m) => (Err e, m)
  | (Ok http, m) =>
      match bind_if (negb (bool_decide (https_bind (pl_config m) = https_bind c))) (lit "HTTPS") m (https_bind c) with
      | (Err e, m) => (Err e, match http with Some s => close_socket m s | None => m end)
      | (Ok https, m) => (Ok {| prepared_http := http; prepared_https := https |}, m)
      end
  end.

Definition has_internal_address_conflict (m : ListenerManager) (c : ProxyListenerConfig) : bool :=
  let old := pl_config m in
  (bool_decide (http_bind old ≠ http_bind c) && bool_decide (http_bind c = https_bind old)) ||
  (bool_decide (https_bind old ≠ https_bind c) && bool_decide (https_bind c = http_bind old)).

Definition rebind_all (m : ListenerManager) (c : ProxyListenerConfig) (initial_error : ProxyError)
  (io : ErrorKind → str) : PResult unit * ListenerManager :=
  let previous := pl_config m in
  let m := stop_active m in
  match bind_listener_pair m c with
  | (Ok (http, https), m) =>
      let m := with_maximum m (max_connections c) in
      (Ok tt, with_config (with_active m (Some http) (Some https)) c)
  | (Err error, m) =>
      match bind_listener_pair m previous with
      | (Ok (http, https), m) => (Err error, with_active m (Some http) (Some https))
      | (Err rollback_error, m) =>
          (Err (PRuntime ("切换监听失败（" ++ fmt_proxy_error io initial_error ++ "；重试失败: "
                          ++ fmt_proxy_error io error ++ "），恢复原监听也失败: "
                          ++ fmt_proxy_error io rollback_error)), m)
      end
  end.

(** [replace] of the prepared listener; [None] keeps the old one. *)
Definition replaced (prepared current : option N) : option N :=
  match prepared with Some s => Some s | None => current end.
Definition superseded (prepared current : option N) : option N :=
  match prepared with Some _ => current | None => None end.

Definition apply (m : ListenerManager) (c : ProxyListenerConfig) (io : ErrorKind → str)
  : PResult unit * ListenerManager :=
  match prepare m c with
  | (Err error, m') =>
      if has_internal_address_conflict m c then rebind_all m' c error io else (Err error, m')
  | (Ok prepared, m) =>
      let m := with_maximum m (max_connections c) in
      let old_http := superseded (prepared_http prepared) (pl_http m) in
      let old_https := superseded (prepared_https prepared) (pl_https m) in
      let m := with_active m (replaced (prepared_http prepared) (pl_http m))
                             (replaced (prepared_https prepared) (pl_https m)) in
      (Ok tt, with_config (stop_listeners m old_http old_https) c)
  end.

(** [ListenerManager::bind]; [local_addr] can fail too. *)
Definition manager_bind (local_addr : N → PResult SocketAddr) (c : ProxyListenerConfig)
  (m0 : ListenerManager) : PResult (SocketAddr * SocketAddr) * ListenerManager :=
  match bind_listener_pair m0 c with
  | (Err e, m) => (Err e, m)
  | (Ok (http, https), m) =>
      match (a ← local_addr http; b ← local_addr https; Ok (a, b)) with
      | Err e => (Err e, close_socket (close_socket m http) https)
      | Ok addresses =>
          (Ok addresses, with_config (with_active (with_maximum m (max_connections c)) (Some http) (Some https)) c)
      end
  end.
End listeners.

(** ** Invariant *)

(** An active listener holds a socket of the configured address. *)
Record wf_listeners (m : ListenerManager) : Prop := {
  wf_fresh : ∀ s, is_Some (sockets m !! s) → s < next_socket m;
  wf_http : ∀ s, pl_http m = Some s → sockets m !! s = Some (http_bind (pl_config m));
  wf_https : ∀ s, pl_https m = Some s → sockets m !! s = Some (https_bind (pl_config m));
  wf_distinct : ∀ s, pl_http m = Some s → pl_https m ≠ Some s }.

Definition up (m : ListenerManager) : Prop := is_Some (pl_http m) ∧ is_Some (pl_https m).
Definition down (m : ListenerManager) : Prop := pl_http m = None ∧ pl_https m = None.
Definition is_active (m : ListenerManager) (s : N) : Prop := pl_http m = Some s ∨ pl_https m = Some s.

(** Only sockets changed. *)
Definition same_listeners (m m' : ListenerManager) : Prop :=
  pl_maximum m' = pl_maximum m ∧ pl_config m' = pl_config m ∧ pl_http m' = pl_http m ∧
  pl_https m' = pl_https m ∧ next_socket m <= next_socket m'.
Lemma same_listeners_refl m : same_listeners m m.
Proof. by repeat split. Qed.

Definition fresh_sockets (m : ListenerManager) : Prop := ∀ s, is_Some (sockets m !! s) → s < next_socket m.

Lemma fresh_none m s : fresh_sockets m → next_socket m <= s → sockets m !! s = None.
Proof. intros Hf Hs. apply eq_None_not_Some. intros H%Hf. lia. Qed.

Lemma close_opened m m' s a :
  fresh_sockets m → next_socket m <= s → sockets m' = <[s := a]> (sockets m) →
  sockets (close_socket m' s) = sockets m.
Proof. intros Hf Hs E. cbn [close_socket with_sockets sockets]. rewrite E. apply delete_insert_id, fresh_none; done. Qed.

Section facts.
Context (bind : N → gmap N SocketAddr → SocketAddr → option str) (ends : N → bool).

Lemma bind_listener_inv p m a r m' :
  bind_listener bind p m a = (r, m') → fresh_sockets m →
  same_listeners m m' ∧ fresh_sockets m' ∧ binds m' = binds m + 1 ∧
  match r with
  | Ok s => s = next_socket m ∧ next_socket m' = s + 1 ∧ sockets m' = <[s := a]> (sockets m) ∧
            bind (binds m) (sockets m) a = None
  | Err _ => sockets m' = sockets m ∧ is_Some (bind (binds m) (sockets m) a)
  end.
Proof.
  unfold bind_listener. intros E Hf. destruct (bind (binds m) (sockets m) a) as [e|] eqn:Hb.
  - injection E as <- <-. by split_and!.
  - injection E as <- <-. split; [split_and!; cbn; first [done|lia]|]. split; [|by split_and!].
    intros s. cbn. destruct (decide (s = next_socket m)) as [->|]; [lia|].
    rewrite lookup_insert_ne by done. intros H%Hf. lia.
Qed.

Lemma bind_pair_inv m c r m' :
  bind_listener_pair bind m c = (r, m') → fresh_sockets m →
  same_listeners m m' ∧ fresh_sockets m' ∧
  match r with
  | Ok (h, s) => next_socket m <= h ∧ h < s ∧ s < next_socket m' ∧
      sockets m' = <[s := https_bind c]> (<[h := http_bind c]> (sockets m))
  | Err _ => sockets m' = sockets m
  end.
Proof.
  unfold bind_listener_pair. intros E Hf.
  destruct (bind_listener bind "HTTP" m _) as [[h|e] m1] eqn:E1; apply bind_listener_inv in E1 as (Hs1 & Hf1 & _ & H1); [|done| |done].
  2:{ injection E as <- <-. split; [done|]. split; [done|]. apply H1. }
  destruct H1 as (-> & Hn & Hk & _).
  destruct (bind_listener bind "HTTPS" m1 _) as [[s|e] m2] eqn:E2; apply bind_listener_inv in E2 as (Hs2 & Hf2 & _ & H2); [|done| |done];
    injection E as <- <-; destruct Hs1 as (?&?&?&?&?), Hs2 as (?&?&?&?&?).
  - destruct H2 as (-> & Hn2 & Hk2 & _). split; [split_and!; first [congruence|lia]|]. split; [done|].
    rewrite Hk2, Hk. split_and!; first [done|lia].
  - destruct H2 as [Hk2 _]. assert (Hc : sockets (close_socket m2 (next_socket m)) = sockets m)
      by (eapply close_opened; [done|lia|by rewrite Hk2]).
    split; [split_and!; cbn; first [congruence|lia]|]. split; [|done].
    intros x. rewrite Hc. intros Hx%Hf. cbn. lia.
Qed.

Lemma prepare_inv m c r m' :
  prepare bind m c = (r, m') → fresh_sockets m →
  same_listeners m m' ∧ fresh_sockets m' ∧
  match r with
  | Ok p =>
      (prepared_http p = None ↔ http_bind (pl_config m) = http_bind c) ∧
      (prepared_https p = None ↔ https_bind (pl_config m) = https_bind c) ∧
      (∀ s, prepared_http p = Some s → next_socket m <= s ∧ s < next_socket m' ∧ prepared_https p ≠ Some s) ∧
      (∀ s, prepared_https p = Some s → next_socket m <= s ∧ s < next_socket m') ∧
      sockets m' = match prepared_https p with Some s => <[s := https_bind c]> | None => id end
                     (match prepared_http p with Some s => <[s := http_bind c]> | None => id end (sockets m))
  | Err _ => sockets m' = sockets m
  end.
Proof using bind.
  clear ends. unfold prepare. intros E Hf.
  case_bool_decide as Hh; cbn [negb] in E.
  - case_bool_decide as Ht; cbn [negb] in E.
    + injection E as <- <-. split; [apply same_listeners_refl|]. split; [done|]. cbn. naive_solver.
    + destruct (bind_listener bind (lit "HTTPS") m (https_bind c)) as [[s|e] m1] eqn:E1;
        apply bind_listener_inv in E1 as (Hs1 & Hf1 & _ & H1); [|done| |done]; injection E as <- <-.
      * destruct H1 as (-> & Hn & Hk & _). split; [done|]. split; [done|]. cbn. do 3 (split; [naive_solver|]). split; [|done]. intros s [= <-]. lia.
      * by destruct H1.
  - destruct (bind_listener bind (lit "HTTP") m (http_bind c)) as [[h|e] m1] eqn:E1;
      apply bind_listener_inv in E1 as (Hs1 & Hf1 & _ & H1); [|done| |done].
    2:{ injection E as <- <-. by destruct H1. }
    destruct H1 as (-> & Hn & Hk & _). rewrite (proj1 (proj2 Hs1)) in E.
    case_bool_decide as Ht; cbn [negb] in E.
    + injection E as <- <-. split; [done|]. split; [done|]. cbn. do 2 (split; [naive_solver|]). split; [|done].
      intros s [= <-]. split_and!; [lia|lia|done].
    + destruct (bind_listener bind (lit "HTTPS") m1 (https_bind c)) as [[s|e] m2] eqn:E2;
        apply bind_listener_inv in E2 as (Hs2 & Hf2 & _ & H2); [|done| |done]; injection E as <- <-;
        destruct Hs1 as (?&?&?&?&?), Hs2 as (?&?&?&?&?).
      * destruct H2 as (-> & Hn2 & Hk2 & _). split; [split_and!; first [congruence|lia]|]. split; [done|]. cbn.
        do 2 (split; [naive_solver|]). split; [|split; [|by rewrite Hk2, Hk]]; intros s [= <-]; [|lia].
        split_and!; [lia|lia|]. intros [= Hx]. lia.
      * destruct H2 as [Hk2 _]. assert (Hc : sockets (close_socket m2 (next_socket m)) = sockets m)
          by (eapply close_opened; [done|lia|by rewrite Hk2]).
        split; [split_and!; cbn; first [congruence|lia]|]. split; [|done].
        intros x. rewrite Hc. intros Hx%Hf. cbn. lia.
Qed.

Lemma stop_same m h s : same_listeners m (stop_listeners ends m h s).
Proof. unfold stop_listeners, await_listener, same_listeners. destruct h, s; repeat case_match; cbn; split_and!; first [done|lia]. Qed.

Lemma stop_lookup m h s x :
  sockets (stop_listeners ends m h s) !! x =
    if bool_decide (h = Some x ∨ s = Some x) && ends x then None else sockets m !! x.
Proof using ends.
  clear bind. assert (Ha : ∀ m y, sockets (await_listener ends m y) !! x =
    if bool_decide (y = x) && ends x then None else sockets m !! x).
  { intros m0 y. unfold await_listener. case_bool_decide as Hy; [subst y; cbn [andb]|cbn [andb]].
    - destruct (ends x); [|done]. cbn. apply lookup_delete_eq.
    - destruct (ends y); [|done]. cbn. by apply lookup_delete_ne. }
  unfold stop_listeners. destruct h as [h|], s as [s|]; rewrite ?Ha; repeat case_bool_decide; destruct (ends x); naive_solver.
Qed.

(** *** The theorem on [apply] *)

(** No socket is held without a reason: it serves, or it was held before and
    either served nobody or did not end in time. *)
Definition no_leak (m m' : ListenerManager) : Prop :=
  ∀ s, is_Some (sockets m' !! s) →
    is_active m' s ∨ (sockets m' !! s = sockets m !! s ∧ (is_active m s → ends s = false)).

Definition keeps_unchanged (m m' : ListenerManager) (c : ProxyListenerConfig) : Prop :=
  (http_bind c = http_bind (pl_config m) → https_bind c ≠ http_bind c → pl_http m' = pl_http m) ∧
  (https_bind c = https_bind (pl_config m) → http_bind c ≠ https_bind c → pl_https m' = pl_https m).

Definition applied (m m' : ListenerManager) (c : ProxyListenerConfig) : Prop :=
  pl_config m' = c ∧ pl_maximum m' = max_connections c ∧ (up m → up m').

Definition refused (m m' : ListenerManager) : Prop :=
  pl_config m' = pl_config m ∧ pl_maximum m' = pl_maximum m.

(** The sockets after a switch: the old ones of the protocols that changed are
    closed when their task ended, the new ones are open. *)
Definition switched (m : ListenerManager) (c : ProxyListenerConfig) (p : PreparedListeners) (x : N) : option SocketAddr :=
  if bool_decide (superseded (prepared_http p) (pl_http m) = Some x ∨
                  superseded (prepared_https p) (pl_https m) = Some x) && ends x then None
  else if bool_decide (prepared_https p = Some x) then Some (https_bind c)
  else if bool_decide (prepared_http p = Some x) then Some (http_bind c)
  else sockets m !! x.

Lemma switched_ok m m' c p bound :
  wf_listeners m →
  (prepared_http p = None ↔ http_bind (pl_config m) = http_bind c) →
  (prepared_https p = None ↔ https_bind (pl_config m) = https_bind c) →
  (∀ s, prepared_http p = Some s → next_socket m <= s ∧ s < bound ∧ prepared_https p ≠ Some s) →
  (∀ s, prepared_https p = Some s → next_socket m <= s ∧ s < bound) →
  pl_http m' = replaced (prepared_http p) (pl_http m) → pl_https m' = replaced (prepared_https p) (pl_https m) →
  pl_config m' = c → bound <= next_socket m' → next_socket m <= bound →
  (∀ x, sockets m' !! x = switched m c p x) →
  wf_listeners m' ∧ no_leak m m' ∧ keeps_unchanged m m' c ∧ (up m → up m').
Proof.
  intros [Hwf1 Hwf2 Hwf3 Hwf4] Hph Hpt Hoh Hot Hh Ht Hc Hb Hn Hl. unfold switched in Hl.
  assert (Hoh' : ∀ s, pl_http m = Some s → s < next_socket m) by (intros s Hs; apply Hwf1; rewrite (Hwf2 _ Hs); eauto).
  assert (Hot' : ∀ s, pl_https m = Some s → s < next_socket m) by (intros s Hs; apply Hwf1; rewrite (Hwf3 _ Hs); eauto).
  assert (Hold : ∀ s, superseded (prepared_http p) (pl_http m) = Some s ∨ superseded (prepared_https p) (pl_https m) = Some s →
            (pl_http m = Some s ∧ prepared_http p ≠ None ∨ pl_https m = Some s ∧ prepared_https p ≠ None)).
  { unfold superseded. intros s [Hs|Hs]; case_match; naive_solver. }
  split_and!.
  - split.
    + intros s [v Hv]. rewrite Hl in Hv. destruct (_ && _); [done|].
      case_bool_decide as H1; [apply Hot in H1; lia|]. case_bool_decide as H2; [apply Hoh in H2; lia|].
      assert (s < next_socket m) by eauto. lia.
    + intros s. rewrite Hh, Hl, Hc. intros Hs. rewrite bool_decide_false.
      2:{ intros [[H1 H2]|[H1 H2]]%Hold; unfold replaced in Hs; case_match; simplify_eq;
            first [by eapply Hwf4|edestruct Hoh; [done|]; first [apply Hoh' in H1|apply Hot' in H1]; lia]. }
      cbn [andb]. unfold replaced in Hs. destruct (prepared_http p) as [n|] eqn:Hp.
      * injection Hs as ->. edestruct Hoh as (_ & _ & H1); [done|]. by rewrite bool_decide_false, bool_decide_true.
      * rewrite bool_decide_false by (intros H1%Hot; apply Hoh' in Hs; lia). rewrite bool_decide_false by done.
        rewrite (Hwf2 _ Hs). f_equal. by apply Hph.
    + intros s. rewrite Ht, Hl, Hc. intros Hs. rewrite bool_decide_false.
      2:{ intros [[H1 H2]|[H1 H2]]%Hold; unfold replaced in Hs; case_match; simplify_eq;
            first [by eapply Hwf4|edestruct Hot; [done|]; first [apply Hoh' in H1|apply Hot' in H1]; lia]. }
      cbn [andb]. unfold replaced in Hs. destruct (prepared_https p) as [n|] eqn:Hp.
      * injection Hs as ->. by rewrite bool_decide_true.
      * rewrite bool_decide_false by done. rewrite bool_decide_false by (intros H1%Hoh; apply Hot' in Hs; lia).
        rewrite (Hwf3 _ Hs). f_equal. by apply Hpt.
    + intros s. rewrite Hh, Ht. unfold replaced. intros Hs Hs'.
      destruct (prepared_http p) as [n|] eqn:Hp, (prepared_https p) as [n'|] eqn:Hp'; simplify_eq.
      * by apply (Hoh s).
      * apply Hot' in Hs'. specialize (Hoh s eq_refl). lia.
      * apply Hoh' in Hs. specialize (Hot s eq_refl). lia.
      * by eapply Hwf4.
  - intros s Hs. unfold is_active. rewrite Hh, Ht. rewrite Hl in *. 
    destruct (bool_decide _ && ends s) eqn:Hb1; [by destruct Hs|].
    case_bool_decide as H1; [left; right; by rewrite H1|]. case_bool_decide as H2; [left; left; by rewrite H2|].
    unfold superseded, replaced in *. apply andb_false_iff in Hb1 as [Hb1|Hb1]; [|by right].
    apply bool_decide_eq_false in Hb1.
    destruct (decide (pl_http m = Some s)); [destruct (prepared_http p); [by destruct Hb1; left|by left; left]|].
    destruct (decide (pl_https m = Some s)); [destruct (prepared_https p); [by destruct Hb1; right|by left; right]|].
    right. split; [done|]. by intros [?|?].
  - split; intros E1 E2; rewrite ?Hh, ?Ht; unfold replaced; [rewrite (proj2 Hph)|rewrite (proj2 Hpt)]; done.
  - unfold up, replaced. rewrite Hh, Ht. unfold replaced. intros [? ?]. repeat case_match; eauto.
Qed.

Lemma stopped_lookup m x :
  sockets (stop_active ends m) !! x =
    if bool_decide (pl_http m = Some x ∨ pl_https m = Some x) && ends x then None else sockets m !! x.
Proof. unfold stop_active. by rewrite stop_lookup. Qed.

Lemma stopped_fresh m : fresh_sockets m → fresh_sockets (stop_active ends m).
Proof.
  intros Hf x. rewrite stopped_lookup. destruct (_ && _); [by intros []|]. intros Hx%Hf.
  destruct (stop_same (with_active m None None) (pl_http m) (pl_https m)) as (_ & _ & _ & _ & Hn).
  cbn in Hn. unfold stop_active. lia.
Qed.

(** Two listeners on sockets that have just been opened. *)
Lemma both_opened m0 m m' c h t :
  fresh_sockets m0 → sockets m0 = sockets (stop_active ends m) → next_socket m0 <= h → h < t → t < next_socket m' →
  pl_http m' = Some h → pl_https m' = Some t → pl_config m' = c →
  sockets m' = <[t := https_bind c]> (<[h := http_bind c]> (sockets m0)) →
  wf_listeners m' ∧ no_leak m m'.
Proof.
  intros Hf H0 Hh Ht Hn Eh Et Hc Hk.
  assert (Hl : ∀ x, is_Some (sockets m' !! x) → x = h ∨ x = t ∨ is_Some (sockets m0 !! x) ∧ sockets m' !! x = sockets m0 !! x).
  { intros x. rewrite Hk. destruct (decide (x = t)); [auto|]. destruct (decide (x = h)); [auto|].
    rewrite !lookup_insert_ne by done. auto. }
  split; [split|].
  - intros x [->|[->|[Hx%Hf _]]]%Hl; lia.
  - intros x. rewrite Eh. intros [= <-]. rewrite Hk, lookup_insert_ne by lia. by rewrite lookup_insert_eq, Hc.
  - intros x. rewrite Et. intros [= <-]. by rewrite Hk, lookup_insert_eq, Hc.
  - intros x. rewrite Eh, Et. intros [= <-] [=]. lia.
  - intros x Hx. unfold is_active. rewrite Eh, Et. destruct (Hl x Hx) as [->|[->|[Hx0 E]]]; [auto..|].
    right. rewrite E. rewrite H0, stopped_lookup in *. unfold is_active.
    destruct (bool_decide _ && ends x) eqn:Hb; [by destruct Hx0|]. split; [done|]. intros Ha.
    by rewrite bool_decide_true in Hb.
Qed.

Lemma rebind_all_ok m m0 c e io r m' :
  wf_listeners m → same_listeners m m0 → sockets m0 = sockets m → fresh_sockets m0 →
  rebind_all bind ends m0 c e io = (r, m') →
  wf_listeners m' ∧ no_leak m m' ∧
  match r with
  | Ok _ => applied m m' c
  | Err e => refused m m' ∧ (up m' ∨ down m' ∧ ∃ text, e = PRuntime text)
  end.
Proof.
  intros Hwf (Hmx & Hc & Hh & Ht & Hn) Hk Hf. unfold rebind_all.
  assert (Hst : sockets (stop_active ends m0) = sockets (stop_active ends m)).
  { apply map_eq. intros x. by rewrite !stopped_lookup, Hh, Ht, Hk. }
  destruct (stop_same (with_active m0 None None) (pl_http m0) (pl_https m0)) as (Hmx1 & Hc1 & Hh1 & Ht1 & Hn1).
  assert (Hf1 := stopped_fresh _ Hf). unfold stop_active in *. set (m1 := stop_listeners ends (with_active m0 None None) (pl_http m0) (pl_https m0)) in *.
  cbn in Hmx1, Hc1, Hh1, Ht1, Hn1.
  destruct (bind_listener_pair bind m1 c) as [[[h t]|e1] m2] eqn:E1; apply bind_pair_inv in E1 as ((Hmx2 & Hc2 & Hh2 & Ht2 & Hn2) & Hf2 & H2); [|done| |done].
  - intros [= <- <-]. destruct H2 as (? & ? & ? & Hs). 
    match goal with |- wf_listeners ?m' ∧ _ => destruct (both_opened m1 m m' c h t) as [? ?]; try done end.
  - destruct (bind_listener_pair bind m2 (pl_config m0)) as [[[h t]|e2] m3] eqn:E3; apply bind_pair_inv in E3 as ((Hmx3 & Hc3 & Hh3 & Ht3 & Hn3) & Hf3 & H3); [|done| |done];
      intros [= <- <-].
    + destruct H3 as (? & ? & ? & Hs). 
      match goal with |- wf_listeners ?m' ∧ _ => destruct (both_opened m2 m m' (pl_config m0) h t) as [? ?]; try done end.
      * by rewrite H2.
      * cbn. congruence.
      * split_and!; [done..|split; cbn; congruence|left; split; cbn; eauto].
    + assert (Hdn : pl_http m3 = None ∧ pl_https m3 = None) by (split; congruence). destruct Hdn as [Hd1 Hd2].
      split_and!; [split; [done|congruence..]| |split; congruence|right; split; [done|eauto]].
      intros x Hx. right. rewrite H3, H2, Hst in *. fold (stop_active ends m) in *. rewrite stopped_lookup in *.
      destruct (bool_decide _ && ends x) eqn:Hb; [by destruct Hx|]. split; [done|]. intros Ha.
      by rewrite bool_decide_true in Hb.
Qed.

Lemma wf_same m m' : wf_listeners m → same_listeners m m' → sockets m' = sockets m → wf_listeners m' ∧ no_leak m m'.
Proof.
  intros [H1 H2 H3 H4] (Hmx & Hc & Hh & Ht & Hn) Hk. split; [split; rewrite ?Hk, ?Hh, ?Ht, ?Hc; try done|].
  - intros s Hs%H1. lia.
  - intros s Hs. unfold is_active. rewrite Hh, Ht, Hk in *.
    destruct (decide (pl_http m = Some s)); [by left; left|]. destruct (decide (pl_https m = Some s)); [by left; right|].
    right. split; [done|]. by intros [?|?].
Qed.

Lemma conflict_changes m c :
  has_internal_address_conflict m c = true →
  (http_bind c = http_bind (pl_config m) → https_bind c = http_bind c) ∧
  (https_bind c = https_bind (pl_config m) → http_bind c = https_bind c).
Proof.
  unfold has_internal_address_conflict. intros H.
  apply orb_true_iff in H as [[H1%bool_decide_eq_true H2%bool_decide_eq_true]%andb_true_iff|
                              [H1%bool_decide_eq_true H2%bool_decide_eq_true]%andb_true_iff]; split; congruence.
Qed.

Lemma apply_inv m c io r m' :
  wf_listeners m → apply bind ends m c io = (r, m') →
  wf_listeners m' ∧ no_leak m m' ∧ keeps_unchanged m m' c ∧
  match r with
  | Ok _ => applied m m' c
  | Err e => refused m m' ∧
      (pl_http m' = pl_http m ∧ pl_https m' = pl_https m ∨ up m' ∨ down m' ∧ ∃ text, e = PRuntime text)
  end.
Proof.
  intros Hwf. unfold apply. destruct (prepare bind m c) as [[p|e] m1] eqn:E.
  - intros [= <- <-]. apply prepare_inv in E as ((Hmx & Hc & Hh & Ht & Hn) & Hf & Hph & Hpt & Hoh & Hot & Hk); [|exact (wf_fresh _ Hwf)].
    match goal with |- wf_listeners (with_config (stop_listeners _ ?m2 ?oh ?ot) _) ∧ _ =>
      destruct (stop_same m2 oh ot) as (Hmx' & _ & Hh' & Ht' & Hn');
      edestruct (switched_ok m (with_config (stop_listeners ends m2 oh ot) c) c p (next_socket m1)) as (? & ? & ? & ?);
        try done end.
    + cbn. rewrite Hh'. cbn. by rewrite Hh.
    + cbn. rewrite Ht'. cbn. by rewrite Ht.
    + intros x. cbn. rewrite stop_lookup. unfold switched. rewrite Hh, Ht. destruct (_ && _); [done|]. cbn. rewrite Hk.
      destruct (prepared_https p) as [t|], (prepared_http p) as [h|]; cbn [id]; repeat case_bool_decide; simplify_eq;
        rewrite ?lookup_insert_ne, ?lookup_insert_eq by congruence; done.
  - apply prepare_inv in E as (Hs & Hf & Hk); [|exact (wf_fresh _ Hwf)].
    destruct (has_internal_address_conflict m c) eqn:Hx.
    + intros E2. eapply rebind_all_ok in E2 as (H1 & H2 & H3); [|done..].
      apply conflict_changes in Hx as [Hx1 Hx2]. split; [done|]. split; [done|]. split; [split; intros ??; naive_solver|].
      destruct r as [u|e2]; [done|]. naive_solver.
    + intros [= <- <-]. destruct (wf_same m m1) as [? ?]; [done..|]. destruct Hs as (?&?&?&?&?).
      split; [done|]. split; [done|]. split; [by split|]. split; [by split|by left].
Qed.
End facts.

(** ** With a regular operating system *)

(** A bind fails only when the address clashes with a socket that is held, and
    the tasks of listeners end in time. *)
Section regular.
Context (bind : N → gmap N SocketAddr → SocketAddr → option str) (ends : N → bool).
Context (clash : SocketAddr → SocketAddr → bool).
Context (bind_free : ∀ n held a, bind n held a = None ↔ map_Forall (λ _ b, clash b a = false) held).
Context (all_end : ∀ s, ends s = true).

Definition only_active (m : ListenerManager) : Prop := ∀ s, is_Some (sockets m !! s) → is_active m s.

(** Whether the addresses of [c] can be taken over from those of [old]. *)
Definition switch_possible (old c : ProxyListenerConfig) : bool :=
  let h := http_bind old in let t := https_bind old in
  let h' := http_bind c in let t' := https_bind c in
  let free a := negb (clash h a) && negb (clash t a) in
  ((bool_decide (h = h') || free h') &&
   (bool_decide (t = t') || (free t' && (bool_decide (h = h') || negb (clash h' t'))))) ||
  (((bool_decide (h ≠ h') && bool_decide (h' = t)) || (bool_decide (t ≠ t') && bool_decide (t' = h))) &&
   negb (clash h' t')).

Lemma bind_listener_cases p m a :
  (∃ e, bind_listener bind p m a = (Err e, {| pl_maximum := pl_maximum m; pl_config := pl_config m; pl_http := pl_http m;
        pl_https := pl_https m; sockets := sockets m; next_socket := next_socket m; binds := binds m + 1 |})
     ∧ ¬ map_Forall (λ _ b, clash b a = false) (sockets m)) ∨
  (bind_listener bind p m a = (Ok (next_socket m), {| pl_maximum := pl_maximum m; pl_config := pl_config m;
        pl_http := pl_http m; pl_https := pl_https m; sockets := <[next_socket m := a]> (sockets m);
        next_socket := next_socket m + 1; binds := binds m + 1 |})
     ∧ map_Forall (λ _ b, clash b a = false) (sockets m)).
Proof.
  unfold bind_listener. destruct (bind (binds m) (sockets m) a) as [e|] eqn:E.
  - left. eexists. split; [done|]. rewrite <- bind_free, E. done.
  - right. split; [done|]. by apply bind_free in E.
Qed.

Lemma pair_on_nothing m c :
  sockets m = ∅ → is_ok (bind_listener_pair bind m c).1 = negb (clash (http_bind c) (https_bind c)).
Proof.
  intros E. unfold bind_listener_pair.
  destruct (bind_listener_cases "HTTP" m (http_bind c)) as [(e & -> & H)|[-> H]].
  { rewrite E in H. by destruct H. }
  destruct (bind_listener_cases "HTTPS" {| pl_maximum := pl_maximum m; pl_config := pl_config m;
        pl_http := pl_http m; pl_https := pl_https m; sockets := <[next_socket m := http_bind c]> (sockets m);
        next_socket := next_socket m + 1; binds := binds m + 1 |} (https_bind c)) as [(e & -> & H2)|[-> H2]]; cbn in *;
    rewrite E in H2.
  - destruct (clash _ _) eqn:Hc; [done|]. destruct H2. apply map_Forall_insert_2; [done|]. apply map_Forall_empty.
  - by apply map_Forall_insert_1_1 in H2 as ->.
Qed.

Lemma two_sockets m x y :
  wf_listeners m → only_active m → pl_http m = Some x → pl_https m = Some y →
  sockets m = <[x := http_bind (pl_config m)]> (<[y := https_bind (pl_config m)]> ∅).
Proof.
  intros [H1 H2 H3 H4] Ho Hx Hy. apply map_eq. intros s.
  destruct (decide (s = x)) as [->|]; [by rewrite lookup_insert_eq, (H2 _ Hx)|].
  destruct (decide (s = y)) as [->|]; [by rewrite lookup_insert_ne, lookup_insert_eq, (H3 _ Hy)|].
  rewrite !lookup_insert_ne by done. rewrite lookup_empty. apply eq_None_not_Some. intros [?|?]%Ho; congruence.
Qed.

Lemma prepare_possible m c :
  wf_listeners m → only_active m → up m →
  is_ok (prepare bind m c).1 =
    let h := http_bind (pl_config m) in let t := https_bind (pl_config m) in
    let free a := negb (clash h a) && negb (clash t a) in
    (bool_decide (h = http_bind c) || free (http_bind c)) &&
    (bool_decide (t = https_bind c) || (free (https_bind c) && (bool_decide (h = http_bind c) || negb (clash (http_bind c) (https_bind c))))).
Proof.
  intros Hwf Ho [[x Hx] [y Hy]]. assert (Hs := two_sockets m x y Hwf Ho Hx Hy).
  assert (Hxy : x ≠ y) by (intros ->; by eapply (wf_distinct _ Hwf)).
  assert (Hfree : ∀ a, map_Forall (λ _ b, clash b a = false) (sockets m) ↔
    negb (clash (http_bind (pl_config m)) a) && negb (clash (https_bind (pl_config m)) a) = true).
  { intros a. rewrite Hs, map_Forall_insert by (by rewrite lookup_insert_ne, lookup_empty).
    rewrite map_Forall_insert by apply lookup_empty. rewrite andb_true_iff, !negb_true_iff.
    split; [by intros (? & ? & _)|]. intros [? ?]. split_and!; [done..|apply map_Forall_empty]. }
  assert (Hfresh : sockets m !! next_socket m = None) by (apply fresh_none; [exact (wf_fresh _ Hwf)|lia]).
  cbn zeta. unfold prepare. case_bool_decide as E1; cbn [negb orb andb].
  - case_bool_decide as E2; cbn [negb orb andb]; [done|].
    destruct (bind_listener_cases (lit "HTTPS") m (https_bind c)) as [(e & -> & H)|[-> H]]; cbn [fst is_ok];
      rewrite Hfree in H; [by apply not_true_iff_false in H as ->|by rewrite H].
  - destruct (bind_listener_cases (lit "HTTP") m (http_bind c)) as [(e & -> & H)|[-> H]]; cbn [fst is_ok];
      rewrite Hfree in H; [by apply not_true_iff_false in H as ->|rewrite H; cbn [andb]].
    cbn [pl_config]. case_bool_decide as E2; cbn [negb orb andb]; [done|].
    match goal with |- context [bind_listener bind (lit "HTTPS") ?m1 ?a] =>
      destruct (bind_listener_cases (lit "HTTPS") m1 a) as [(e & -> & H2)|[-> H2]] end; cbn [fst is_ok sockets] in *;
      rewrite map_Forall_insert, Hfree in H2 by done.
    + apply eq_sym, not_true_iff_false. rewrite andb_true_iff, (negb_true_iff (clash (http_bind c) _)). tauto.
    + destruct H2 as [-> ->]. done.
Qed.

(** The restored listeners always find their addresses free. *)
Lemma rebind_possible m m0 c e io :
  wf_listeners m → only_active m → up m → clash (http_bind (pl_config m)) (https_bind (pl_config m)) = false →
  same_listeners m m0 → sockets m0 = sockets m → fresh_sockets m0 →
  let '(r, m') := rebind_all bind ends m0 c e io in
  up m' ∧ is_ok r = negb (clash (http_bind c) (https_bind c)).
Proof.
  intros Hwf Ho Hup Hcl (Hmx & Hc & Hh & Ht & Hn) Hk Hf. unfold rebind_all.
  assert (H0 : sockets (stop_active ends m0) = ∅).
  { apply map_eq. intros x. rewrite stopped_lookup, lookup_empty, all_end, Hh, Ht, Hk, andb_true_r.
    case_bool_decide as Hx; [done|]. apply eq_None_not_Some. by intros ?%Ho. }
  assert (Hf1 := stopped_fresh ends _ Hf).
  assert (Hp := pair_on_nothing _ c H0). destruct (bind_listener_pair bind (stop_active ends m0) c) as [[[h t]|e1] m2] eqn:E1.
  - split; [|done]. split; eauto.
  - apply bind_pair_inv in E1 as (_ & _ & H2); [|done]. rewrite H0 in H2.
    assert (Hp2 := pair_on_nothing _ (pl_config m0) H2). rewrite Hc, Hcl in Hp2. rewrite Hc.
    destruct (bind_listener_pair bind m2 (pl_config m)) as [[[h t]|e2] m3]; [|done].
    split; [split; cbn; eauto|done].
Qed.

Lemma switch_exact m c io :
  wf_listeners m → only_active m → up m → clash (http_bind (pl_config m)) (https_bind (pl_config m)) = false →
  let '(r, m') := apply bind ends m c io in
  up m' ∧ only_active m' ∧ is_ok r = switch_possible (pl_config m) c.
Proof.
  intros Hwf Ho Hup Hcl. destruct (apply bind ends m c io) as [r m'] eqn:E.
  assert (Hi := apply_inv bind ends m c io r m' Hwf E). destruct Hi as (_ & Hleak & _ & Hr).
  assert (Ho' : only_active m').
  { intros s Hs. destruct (Hleak s Hs) as [?|[Hs' Ha]]; [done|]. rewrite Hs' in Hs. apply Ho, Ha in Hs. by rewrite all_end in Hs. }
  assert (Hp := prepare_possible m c Hwf Ho Hup). unfold switch_possible. cbn zeta in *. revert E. unfold apply.
  destruct (prepare bind m c) as [[p|e] m1] eqn:E1; cbn [fst is_ok] in Hp; rewrite <- Hp; cbn [orb].
  - intros [= <- <-]. split; [|done]. by apply Hr.
  - apply prepare_inv in E1 as (Hs & Hf & Hk); [|exact (wf_fresh _ Hwf)].
    destruct (has_internal_address_conflict m c) eqn:Hx; unfold has_internal_address_conflict in Hx;
      cbn zeta in Hx; rewrite Hx; cbn [andb]; intros E.
    + assert (Hb := rebind_possible m m1 c e io Hwf Ho Hup Hcl Hs Hk Hf). rewrite E in Hb. naive_solver.
    + injection E as <- <-. split; [|done]. destruct Hs as (_ & _ & Hh & Ht & _). unfold up. by rewrite Hh, Ht.
Qed.
End regular.

(** ** Theorems *)

(** Whatever the operating system answers, a change of the addresses either
    succeeds, and then both listeners accept on the new addresses under the
    new limit, or fails and changes neither the configuration nor the limit;
    after a failure the listeners are the old ones, have been opened again on
    the old addresses, or, when even that failed, are both gone.  A listener
    whose address does not change keeps its socket, and no socket leaks. *)
Theorem address_change_spec bind ends m c io r m' :
  wf_listeners m → up m → apply bind ends m c io = (r, m') →
  wf_listeners m' ∧ no_leak ends m m' ∧ keeps_unchanged m m' c ∧
  match r with
  | Ok _ => pl_config m' = c ∧ pl_maximum m' = max_connections c ∧ up m'
  | Err e =>
      pl_config m' = pl_config m ∧ pl_maximum m' = pl_maximum m ∧
      (pl_http m' = pl_http m ∧ pl_https m' = pl_https m ∨ up m' ∨ down m' ∧ ∃ text, e = PRuntime text)
  end.
Proof.
  intros Hwf Hup E. apply apply_inv in E as (H1 & H2 & H3 & H4); [|done]. do 3 (split; [done|]).
  destruct r; [destruct H4 as (? & ? & ?); auto|destruct H4 as [[? ?] ?]; auto].
Qed.

(** On a system where a bind fails only for an address that clashes with a
    socket the process holds, and where stopped tasks end in time, the
    listeners are never lost, and a change succeeds exactly when the new
    addresses are free one after the other, or when one of them is an old
    address of the other protocol and they do not clash with each other: in
    particular the two ports can be exchanged. *)
Theorem address_change_exact bind ends clash m c io :
  (∀ n held a, bind n held a = None ↔ map_Forall (λ _ b, clash b a = false) held) → (∀ s, ends s = true) →
  wf_listeners m → only_active m → up m → clash (http_bind (pl_config m)) (https_bind (pl_config m)) = false →
  let '(r, m') := apply bind ends m c io in
  up m' ∧ only_active m' ∧ is_ok r = switch_possible clash (pl_config m) c.
Proof. intros. by apply switch_exact. Qed.

(** ** Witnesses *)

(** A system with nothing but exact conflicts. *)
Definition same_address (a b : SocketAddr) : bool := bool_decide (a = b).
Definition sample_bind (n : N) (held : gmap N SocketAddr) (a : SocketAddr) : option str :=
  if decide (map_Forall (λ _ b, same_address b a = false) held) then None else Some (lit "address in use").

Lemma sample_bind_free n held a :
  sample_bind n held a = None ↔ map_Forall (λ _ b, same_address b a = false) held.
Proof. unfold sample_bind. by case_decide. Qed.

Definition exchanged (c : ProxyListenerConfig) : ProxyListenerConfig :=
  {| http_bind := https_bind c; https_bind := http_bind c; cache_dir := cache_dir c;
     max_connections := max_connections c + 1 |}.
Definition listening : ListenerManager :=
  {| pl_maximum := 10; pl_config := sample_listener; pl_http := Some 0; pl_https := Some 1;
     sockets := {[0 := http_bind sample_listener; 1 := https_bind sample_listener]}; next_socket := 2; binds := 2 |}.

Lemma listening_wf : wf_listeners listening.
Proof.
  split.
  - intros s. cbn. destruct (decide (s = 0)) as [->|]; [lia|]. destruct (decide (s = 1)) as [->|]; [lia|].
    rewrite lookup_insert_ne, lookup_singleton_ne by done. by intros [].
  - by intros s [= <-].
  - by intros s [= <-].
  - by intros s [= <-].
Qed.

Lemma listening_only : only_active listening.
Proof.
  intros s. cbn. unfold is_active. cbn. destruct (decide (s = 0)) as [->|]; [auto|]. destruct (decide (s = 1)) as [->|]; [auto|].
  rewrite lookup_insert_ne, lookup_singleton_ne by done. by intros [].
Qed.

Lemma address_change_spec_witness :
  let m' := (apply sample_bind (λ _, true) listening (exchanged sample_listener) (λ _, lit "io")).2 in
  pl_maximum m' = 11 ∧ up m'.
Proof.
  destruct (apply sample_bind (λ _, true) listening (exchanged sample_listener) (λ _, lit "io")) as [r m'] eqn:E.
  destruct (address_change_spec sample_bind (λ _, true) listening (exchanged sample_listener) (λ _, lit "io") r m'
    listening_wf (conj (mk_is_Some _ 0 eq_refl) (mk_is_Some _ 1 eq_refl)) E) as (_ & _ & _ & H).
  assert (Hr : is_ok r = true) by (change r with (r, m').1; rewrite <- E; vm_compute; reflexivity).
  destruct r; [|discriminate]. cbn. split; apply H.
Defined.

Lemma address_change_exact_witness :
  is_ok (apply sample_bind (λ _, true) listening (exchanged sample_listener) (λ _, lit "io")).1 =
  switch_possible same_address sample_listener (exchanged sample_listener).
Proof.
  pose proof (address_change_exact sample_bind (λ _, true) same_address listening (exchanged sample_listener)
    (λ _, lit "io") sample_bind_free (λ _, eq_refl) listening_wf listening_only
    (conj (mk_is_Some _ 0 eq_refl) (mk_is_Some _ 1 eq_refl)) eq_refl) as H.
  destruct (apply sample_bind (λ _, true) listening (exchanged sample_listener) (λ _, lit "io")). apply H.
Defined.
