(* ===== verification/ProxyServer.v ===== *)
(** * ProxyServer: [gaterust-proxy/src/server.rs]

    The proxy as a whole: start, reload and stop.  A reload loads the file,
    builds the routes, moves the listeners, hands the configuration to the
    certificate manager and replaces the routes, and reports how it ended.
    Between two reloads the manager handles its other events; both are events
    of one run here, and the theorems hold for every order of them. *)

From S2P Require Import Prelude Net Paths ProxyConfig Router CertResolver CertManager ProxyListeners ManagerProps.

Section server.
Context {L : TlsLib} {A : AcmeLib} `{UriLib, ProxyToml, !Orders}.
Context (io : ErrorKind → str).
Context (bind : N → gmap N SocketAddr → SocketAddr → option str) (ends : N → bool).
Context (path : Path).

Record proxy_server := {
  listeners : ListenerManager;
  manager : CertificateManager;
  service_routes : Router;
  apply_state : ConfigApplyState }.

Definition with_listeners (s : proxy_server) (l : ListenerManager) : proxy_server :=
  {| listeners := l; manager := manager s; service_routes := service_routes s; apply_state := apply_state s |}.
Definition report (s : proxy_server) (r : CertificateManager * ConfigApplyState) : proxy_server :=
  {| listeners := listeners s; manager := r.1; service_routes := service_routes s; apply_state := r.2 |}.

(** [stopped]: the answer of [ProxyRuntime::apply_config] when the manager no
    longer runs. *)
Definition reload (env : apply_env) (file : result ErrorKind str) (stopped : option ProxyError)
  (s : proxy_server) : proxy_server :=
  match ProxyConfig_load file path with
  | Err error => report s (report_config_load_error (manager s) (fmt_proxy_error io error))
  | Ok c =>
  match Router_new c with
  | Err error => report s (report_config_failed (manager s) c (fmt_proxy_error io error))
  | Ok routes =>
  let previous_listener := pl_config (listeners s) in
  match apply bind ends (listeners s) (proxy c) io with
  | (Err error, l) =>
      let s := with_listeners s l in
      report s (report_config_failed (manager s) c (fmt_proxy_error io error))
  | (Ok _, l) =>
  match stopped with
  | Some error =>
      let s := with_listeners s (apply bind ends l previous_listener io).2 in
      report s (report_config_failed (manager s) c (fmt_proxy_error io error))
  | None =>
      let s := {| listeners := l; manager := apply_config io env (manager s) c;
                  service_routes := routes; apply_state := apply_state s |} in
      report s (report_config_applied (manager s) c)
  end end end end.

(** ** Start and stop *)

Definition no_snapshot : ProxyRuntimeSnapshot :=
  {| snap_certificates := []; snap_config_status := {| ps_revision := 0; ps_last_apply_error := None |} |}.

Definition no_listeners (c : ProxyListenerConfig) : ListenerManager :=
  {| pl_maximum := max_connections c; pl_config := c; pl_http := None; pl_https := None;
     sockets := ∅; next_socket := 0; binds := 0 |}.

(** [run_proxy_with_runtime] up to its loop. *)
Definition start (env : apply_env) (file : result ErrorKind str) (watcher : PResult unit)
  (local_addr : N → PResult SocketAddr) : PResult proxy_server :=
  initial ← ProxyConfig_load file path;
  _ ← watcher;
  routes ← Router_new initial;
  let m := apply_config io env (manager_new no_snapshot) initial in
  match manager_bind bind local_addr (proxy initial) (no_listeners (proxy initial)) with
  | (Err error, _) => Err error
  | (Ok _, l) =>
      let '(m, a) := report_config_applied m initial in
      Ok {| listeners := l; manager := m; service_routes := routes; apply_state := a |}
  end.

(** The end of the loop; the tasks of connections are aborted. *)
Definition shutdown_server (s : proxy_server) : proxy_server :=
  {| listeners := stop_active ends (listeners s); manager := shutdown_manager (manager s);
     service_routes := service_routes s; apply_state := apply_state s |}.

(** ** Runs *)

Inductive event :=
  | Changed (env : apply_env) (file : result ErrorKind str) (stopped : option ProxyError)
  | Managed (e : CertManager.event).

Definition step (s : proxy_server) (ev : event) : proxy_server :=
  match ev with
  | Changed env file stopped => reload env file stopped s
  | Managed e => {| listeners := listeners s; manager := handle io e (manager s);
                    service_routes := service_routes s; apply_state := apply_state s |}
  end.

(** What the loop and the control side let the manager do by itself: no
    application and no report. *)
Definition own_event (e : CertManager.event) : Prop :=
  match e with EApply _ _ | EReport _ _ => False | _ => True end.

(** ** Correctness *)

(** The proxy serves a configuration: both listeners accept on its addresses
    under its limit, requests are routed by its table, and the manager deploys
    its certificates. *)
Definition serves (s : proxy_server) (c : ProxyConfig) : Prop :=
  wf_listeners (listeners s) ∧ up (listeners s) ∧ pl_config (listeners s) = proxy c ∧
  pl_maximum (listeners s) = max_connections (proxy c) ∧
  Router_new c = Ok (service_routes s) ∧ config (manager s) = Some c.

Definition reports (s : proxy_server) (c : option ProxyConfig) (error : option str) : Prop :=
  ca_config (apply_state s) = c ∧ ps_last_apply_error (ca_status (apply_state s)) = error ∧
  snap_config_status (snapshot (manager s)) = ca_status (apply_state s).

Lemma report_reports s m c error : reports (report s (publish_config_status m c error)) c error.
Proof. done. Qed.

Lemma apply_config_config env m c : config (apply_config io env m c) = Some c.
Proof. exact (handle_config io (EApply env c) m). Qed.

Lemma loaded_router file c : ProxyConfig_load file path = Ok c → ∃ R, Router_new c = Ok R.
Proof.
  intros [Hwf _]%load_normal. destruct (add_route_total (routes c) (∅, ∅)) as [[ex wi] E]; [apply Hwf|].
  unfold Router_new. rewrite E. by eexists.
Qed.

Lemma report_serves s c oc err : serves s c → serves (report s (publish_config_status (manager s) oc err)) c.
Proof. intros Hs. exact Hs. Qed.

(** Replacing the listeners by others on the same configuration. *)
Lemma listeners_serve s c l :
  serves s c → wf_listeners l → up l → pl_config l = pl_config (listeners s) →
  pl_maximum l = pl_maximum (listeners s) → serves (with_listeners s l) c.
Proof. intros (_ & _ & Hc & Hm & Hr & Hg) ? ? Hc' Hm'. split_and!; cbn; [done|done|congruence|congruence|done|done]. Qed.

Lemma reload_ok env file stopped s c0 :
  serves s c0 →
  let s' := reload env file stopped s in
  (∃ c, ProxyConfig_load file path = Ok c ∧ stopped = None ∧ serves s' c ∧ reports s' (Some c) None) ∨
  ((∃ oc e, reports s' oc (Some e)) ∧ service_routes s' = service_routes s ∧ config (manager s') = Some c0 ∧
   (serves s' c0 ∨ stopped ≠ None ∨ down (listeners s'))).
Proof.
  intros Hs s'. assert (Hg : config (manager s) = Some c0) by apply Hs.
  unfold s', reload. clear s'. destruct (ProxyConfig_load file path) as [c|e] eqn:El.
  2:{ right. split; [eauto using report_reports|]. split_and!; [done|done|]. left. by apply report_serves. }
  destruct (loaded_router file c El) as [R ER]. rewrite ER.
  destruct (apply bind ends (listeners s) (proxy c) io) as [[u|e] l] eqn:Ea;
    apply apply_inv in Ea as (Hwf & _ & _ & Ha); [|apply Hs| |apply Hs].
  - destruct Ha as (Hc & Hm & Hup). destruct stopped as [e|].
    + right. split; [eauto using report_reports|]. split_and!; [done|done|]. right. by left.
    + left. exists c. split; [done|]. split; [done|]. split; [|done].
      split_and!; cbn; [done|by apply Hup, Hs|done|done|done|apply apply_config_config].
  - destruct Ha as [[Hc Hm] Ha]. right. split; [eauto using report_reports|]. split_and!; [done|done|].
    assert (Hd : up l ∨ down l).
    { destruct Ha as [[Eh Et]|[?|[? _]]]; [left|by left|by right]. unfold up. rewrite Eh, Et. apply Hs. }
    destruct Hd as [Hd|Hd]; [|by right; right]. left. apply report_serves. by apply listeners_serve.
Qed.

(** *** Runs *)

(** Whether an event is a reload that finds the manager stopped. *)
Definition finds_stopped (ev : event) : Prop :=
  match ev with Changed _ _ stopped => is_Some stopped | Managed _ => False end.
Definition managed_own (ev : event) : Prop :=
  match ev with Changed _ _ _ => True | Managed e => own_event e end.

(** The last configuration whose reload was reported as applied. *)
Definition last_applied (sc : proxy_server * ProxyConfig) (ev : event) : proxy_server * ProxyConfig :=
  let s' := step sc.1 ev in
  (s', match ev with
       | Changed _ file _ =>
           match ps_last_apply_error (ca_status (apply_state s')), ProxyConfig_load file path with
           | None, Ok c => c
           | _, _ => sc.2
           end
       | Managed _ => sc.2
       end).

Lemma last_applied_state evs sc : (foldl last_applied sc evs).1 = foldl step sc.1 evs.
Proof. revert sc. induction evs as [|ev evs IH]; intros sc; [done|]. cbn [foldl]. by rewrite IH. Qed.

(** Routes and certificates: those of the last applied configuration. *)
Definition follows (s : proxy_server) (c : ProxyConfig) : Prop :=
  Router_new c = Ok (service_routes s) ∧ config (manager s) = Some c.

Lemma step_follows s c ev :
  managed_own ev → follows s c → let sc := last_applied (s, c) ev in follows sc.1 sc.2.
Proof.
  intros Ho [Hr Hg]. destruct ev as [env file stopped|e]; cbn [last_applied step fst snd].
  2:{ split; [done|]. cbn. rewrite handle_config. by destruct e. }
  unfold reload. destruct (ProxyConfig_load file path) as [c'|e] eqn:El; [|done].
  destruct (loaded_router file c' El) as [R ER]. rewrite ER.
  destruct (apply bind ends (listeners s) (proxy c') io) as [[u|e] l]; [|done].
  destruct stopped as [e|]; [done|]. split; [done|]. apply apply_config_config.
Qed.

Lemma step_serves s c ev :
  managed_own ev → serves s c → let sc := last_applied (s, c) ev in
  serves sc.1 sc.2 ∨ finds_stopped ev ∨ (down (listeners sc.1) ∧ ∃ oc e, reports sc.1 oc (Some e)).
Proof.
  intros Ho Hs. destruct ev as [env file stopped|e]; cbn [last_applied step fst snd finds_stopped].
  2:{ left. destruct Hs as (? & ? & ? & ? & ? & Hg). split_and!; cbn; try done. rewrite handle_config. by destruct e. }
  destruct (reload_ok env file stopped s c Hs) as [(c' & -> & _ & Hs' & (_ & -> & _))|(Hrep & _ & _ & Hr)]; [by left|].
  destruct Hrep as (oc & e & Hrep). pose proof Hrep as (_ & He & _). rewrite He.
  destruct Hr as [Hr|[Hr|Hr]]; [by left|right; left|right; right; eauto].
  destruct stopped; [by eexists|done].
Qed.

Lemma run_follows s c evs :
  Forall managed_own evs → serves s c → let sc := foldl last_applied (s, c) evs in
  follows sc.1 sc.2 ∧
  (serves sc.1 sc.2 ∨ Exists finds_stopped evs ∨
   ∃ before after, evs = before ++ after ∧ let s1 := foldl step s before in
     down (listeners s1) ∧ ∃ oc e, reports s1 oc (Some e)).
Proof.
  intros Ho Hs. revert s c Hs. assert (Hf : ∀ s c, follows s c → let sc := foldl last_applied (s, c) evs in follows sc.1 sc.2).
  { induction Ho as [|ev evs Hev _ IH]; intros s c Hfol; [done|]. cbn [foldl].
    pose proof (step_follows s c ev Hev Hfol) as Hn. destruct (last_applied (s, c) ev) as [s' c']. by apply IH. }
  intros s c Hs. split; [apply Hf; by destruct Hs as (_ & _ & _ & _ & ? & ?)|]. clear Hf. revert s c Hs.
  induction Ho as [|ev evs Hev _ IH]; intros s c Hs; [by left|]. cbn [foldl].
  pose proof (step_serves s c ev Hev Hs) as Hn. destruct (last_applied (s, c) ev) as [s' c'] eqn:E. cbn [fst snd] in Hn.
  assert (Es : s' = step s ev) by by injection E. destruct Hn as [Hn|[Hn|Hn]].
  - destruct (IH s' c' Hn) as [Hx|[Hx|(b & a & -> & Hx)]]; [by left|right; left; by right|right; right].
    exists (ev :: b), a. cbn [foldl]. rewrite <- Es. done.
  - right. left. by left.
  - right. right. exists [ev], evs. cbn [foldl]. by rewrite <- Es.
Qed.

Lemma start_serves env file watcher local_addr s :
  start env file watcher local_addr = Ok s →
  ∃ c, ProxyConfig_load file path = Ok c ∧ serves s c ∧ reports s (Some c) None.
Proof.
  unfold start. rewrite bind_ok. intros (c & El & Hb). apply bind_ok in Hb as (u & _ & Hb).
  apply bind_ok in Hb as (R & ER & Hb). exists c. split; [done|]. revert Hb. unfold manager_bind.
  assert (Hf : fresh_sockets (no_listeners (proxy c))) by (intros x; cbn; rewrite lookup_empty; by intros []).
  destruct (bind_listener_pair _ _ _) as [[[h t]|e] l] eqn:Eb; [|done].
  apply bind_pair_inv in Eb as ((_ & _ & _ & _ & _) & Hf' & Hh & Hht & Ht & Hk); [|done].
  destruct (local_addr h ≫= _) as [addresses|e]; [|done]. cbn. intros [= <-]. split; [|done].
  match goal with |- serves {| listeners := ?l' |} _ =>
    destruct (both_opened ends (no_listeners (proxy c)) (no_listeners (proxy c)) l' (proxy c) h t) as [Hwf _]; try done end.
  split_and!; cbn; try done. apply apply_config_config.
Qed.
End server.

(** ** Theorems *)

(** Whatever the file holds and whatever the operating system answers, a
    reload of a running proxy either makes it serve exactly the loaded
    configuration (listeners, limit, routes and certificates) and reports
    that, or reports an error and leaves routes and certificates as they are;
    then the old configuration is still served in full, unless the manager
    had stopped or the listeners could not be opened again. *)
Theorem proxy_reload_all_or_nothing {L : TlsLib} {A : AcmeLib} `{UriLib, ProxyToml, !Orders}
  io bind ends path env file stopped s c0 :
  serves s c0 →
  let s' := reload io bind ends path env file stopped s in
  (∃ c, ProxyConfig_load file path = Ok c ∧ stopped = None ∧ serves s' c ∧ reports s' (Some c) None) ∨
  ((∃ oc e, reports s' oc (Some e)) ∧ service_routes s' = service_routes s ∧ config (manager s') = Some c0 ∧
   (serves s' c0 ∨ stopped ≠ None ∨ down (listeners s'))).
Proof. apply reload_ok. Qed.

(** C6: whatever the operating system answers to the proxy's binds and stops,
    after any changes of its file and any events of its certificate manager a
    proxy that has started routes and deploys certificates by the last
    configuration whose reload was reported as applied, at first the one it
    started with; it serves that configuration in full, listeners and limit
    included, unless some reload found the manager stopped, or some reload
    reported an error and left both listeners closed. *)
Theorem proxy_follows_file {L : TlsLib} {A : AcmeLib} `{UriLib, ProxyToml, !Orders}
  io bind ends path env file watcher local_addr s0 evs :
  start io bind path env file watcher local_addr = Ok s0 → Forall managed_own evs →
  ∃ c0, ProxyConfig_load file path = Ok c0 ∧ reports s0 (Some c0) None ∧
    let s := foldl (step io bind ends path) s0 evs in
    let c := (foldl (last_applied io bind ends path) (s0, c0) evs).2 in
    Router_new c = Ok (service_routes s) ∧ config (manager s) = Some c ∧
    (serves s c ∨ Exists finds_stopped evs ∨
     ∃ before after, evs = before ++ after ∧ let s1 := foldl (step io bind ends path) s0 before in
       down (listeners s1) ∧ ∃ oc e, reports s1 oc (Some e)).
Proof.
  intros Hs Ho. destruct (start_serves io bind ends path _ _ _ _ _ Hs) as (c0 & Hc & Hsv & Hrep).
  exists c0. split; [done|]. split; [done|]. cbv zeta.
  pose proof (run_follows io bind ends path s0 c0 evs Ho Hsv) as H2. cbv zeta in H2.
  rewrite last_applied_state in H2. cbn [fst] in H2. destruct H2 as [[H3 H4] H5]. done.
Qed.

(** A failed restoration is not noticed afterwards: when both listeners are
    gone, loading the configuration that was in force again is reported as
    applied, although nothing listens. *)
Theorem lost_listeners_reported_applied {L : TlsLib} {A : AcmeLib} `{UriLib, ProxyToml, !Orders}
  io bind ends path env file s c :
  down (listeners s) → pl_config (listeners s) = proxy c → ProxyConfig_load file path = Ok c →
  let s' := reload io bind ends path env file None s in
  reports s' (Some c) None ∧ down (listeners s').
Proof.
  intros [Hh Ht] Hc El s'. unfold s', reload. rewrite El. destruct (loaded_router path file c El) as [R ->].
  assert (Ea : apply bind ends (listeners s) (proxy c) io = (Ok tt, with_config (with_active (with_maximum (listeners s) (max_connections (proxy c))) None None) (proxy c))).
  { assert (Ep : prepare bind (listeners s) (proxy c) = (Ok {| prepared_http := None; prepared_https := None |}, listeners s)).
    { unfold prepare. rewrite Hc, bool_decide_true by done. cbn [negb]. by rewrite Hc, bool_decide_true by done. }
    unfold apply. rewrite Ep. cbn [prepared_http prepared_https replaced superseded pl_http pl_https with_maximum]. by rewrite Hh, Ht. }
  rewrite Ea. done.
Qed.

(** ** Witnesses *)

Definition swapped_loaded : ProxyConfig :=
  {| proxy := exchanged (proxy sample_loaded); acme_accounts := acme_accounts sample_loaded;
     dns_accounts := dns_accounts sample_loaded; certificates := certificates sample_loaded;
     routes := routes sample_loaded |}.
Definition two_files : ProxyToml :=
  {| parse_current := λ s, if bool_decide (s = lit "swapped") then Ok swapped_loaded else Ok sample_loaded;
     parse_legacy := λ _, Err (lit "no") |}.
Definition proxy_file : Path := [RootDir; Normal "etc"; Normal "p.toml"].
Definition sample_address (n : N) : PResult SocketAddr := Ok (http_bind sample_listener).
#[local] Existing Instances sample_tls sample_acme sample_uri two_files.
#[local] Instance sample_orders : Orders := @merge_orders sample_uri.

Definition first_state (bind : N → gmap N SocketAddr → SocketAddr → option str) : proxy_server :=
  match start sample_io bind proxy_file sample_env (Ok (lit "first")) (Ok tt) sample_address with
  | Ok s => s
  | Err _ => {| listeners := no_listeners sample_listener; manager := manager_new no_snapshot;
                service_routes := {| exact := ∅; wildcard := [] |};
                apply_state := {| ca_config := None; ca_status := snap_config_status no_snapshot |} |}
  end.

Lemma first_started :
  start sample_io sample_bind proxy_file sample_env (Ok (lit "first")) (Ok tt) sample_address = Ok (first_state sample_bind).
Proof.
  unfold first_state. destruct (start _ _ _ _ _ _ _) as [s|e] eqn:E; [done|].
  assert (is_ok (start sample_io sample_bind proxy_file sample_env (Ok (lit "first")) (Ok tt) sample_address) = true)
    by (vm_compute; reflexivity). by rewrite E in *.
Qed.

(** The ports are exchanged. *)
Definition swap_event : event := Changed sample_env (Ok (lit "swapped")) None.

Lemma proxy_follows_file_witness :
  let s := step sample_io sample_bind (λ _, true) proxy_file (first_state sample_bind) swap_event in
  https_bind (pl_config (listeners s)) = http_bind sample_listener ∧
  ∃ c, Router_new c = Ok (service_routes s) ∧ config (manager s) = Some c.
Proof.
  destruct (proxy_follows_file sample_io sample_bind (λ _, true) proxy_file sample_env (Ok (lit "first")) (Ok tt)
    sample_address (first_state sample_bind) [swap_event] first_started ltac:(repeat constructor))
    as (c0 & _ & _ & H1 & H2 & _).
  split; [by vm_compute|]. eexists. split; [exact H1|exact H2].
Defined.

Lemma first_serves : ∃ c, serves (first_state sample_bind) c.
Proof.
  destruct (start_serves sample_io sample_bind (λ _, true) proxy_file _ _ _ _ _ first_started) as (c & _ & Hs & _).
  by exists c.
Qed.

Lemma proxy_reload_all_or_nothing_witness :
  service_routes (reload sample_io sample_bind (λ _, true) proxy_file sample_env (Err NotFound) None (first_state sample_bind))
    = service_routes (first_state sample_bind).
Proof.
  destruct first_serves as [c Hs].
  destruct (proxy_reload_all_or_nothing sample_io sample_bind (λ _, true) proxy_file sample_env (Err NotFound) None
    (first_state sample_bind) c Hs) as [(c' & Hc & _)|(_ & Hr & _)]; [discriminate Hc|exact Hr].
Defined.

(** Another process takes the ports while they are exchanged. *)
Definition taken (n : N) (held : gmap N SocketAddr) (a : SocketAddr) : option str :=
  if n <? 2 then None else Some (lit "address in use").
Definition lost_state : proxy_server :=
  reload sample_io taken (λ _, true) proxy_file sample_env (Ok (lit "swapped")) None (first_state taken).

Lemma lost_down : down (listeners lost_state).
Proof. split; vm_compute; reflexivity. Qed.
Lemma lost_config :
  match ProxyConfig_load (Ok (lit "first")) proxy_file with
  | Ok c => bool_decide (http_bind (pl_config (listeners lost_state)) = http_bind (proxy c) ∧
                         https_bind (pl_config (listeners lost_state)) = https_bind (proxy c) ∧
                         cache_dir (pl_config (listeners lost_state)) = cache_dir (proxy c) ∧
                         max_connections (pl_config (listeners lost_state)) = max_connections (proxy c))
  | Err _ => false
  end = true.
Proof. vm_compute. reflexivity. Qed.

Lemma lost_listeners_reported_applied_witness :
  down (listeners (reload sample_io taken (λ _, true) proxy_file sample_env (Ok (lit "first")) None lost_state)).
Proof.
  pose proof lost_config as Hc. destruct (ProxyConfig_load (Ok (lit "first")) proxy_file) as [c|e] eqn:E; [|discriminate].
  apply bool_decide_eq_true_1 in Hc as (H1 & H2 & H3 & H4).
  assert (Hp : pl_config (listeners lost_state) = proxy c).
  { destruct (pl_config (listeners lost_state)), (proxy c). cbn in *. congruence. }
  exact (proj2 (lost_listeners_reported_applied sample_io taken (λ _, true) proxy_file sample_env (Ok (lit "first")) lost_state c
    lost_down Hp E)).
Defined.
