(* ===== verification/ConnTasks.v ===== *)
(** * ConnTasks: the tasks of [gaterust-proxy/src/connection.rs]

    The accept loops of the two listeners and the set of connection tasks they
    share.  Every task owns a permit of the connection limit ([ConnLimit]) and
    gives it back when it ends, however it ends. *)

From S2P Require Import Prelude.

#[local] Open Scope nat_scope.

(** A task of the [JoinSet]; a task that has ended stays in the set until it is
    joined. *)
Record task := { t_id : nat; t_running : bool }.

(** [tasks] is [None] after the shutdown; [permits] counts the permits that have
    not been dropped. *)
Record connections := { permits : nat; tasks : option (list task); next_task : nat }.

Definition ConnectionTasks_new : connections := {| permits := 0; tasks := Some []; next_task := 0 |}.

(** [ConnectionTasks::spawn] of a future that owns a permit: without a set the
    future is dropped, and its permit with it. *)
Definition spawn (c : connections) : connections :=
  match tasks c with
  | None => {| permits := permits c - 1; tasks := None; next_task := next_task c |}
  | Some l =>
      {| permits := permits c;
         tasks := Some (filter (λ t, t_running t = true) l ++ [{| t_id := next_task c; t_running := true |}]);
         next_task := S (next_task c) |}
  end.

Definition running (l : list task) : nat := length (filter (λ t, t_running t = true) l).

(** [JoinSet::shutdown] aborts and awaits every task. *)
Definition shutdown (c : connections) : connections :=
  match tasks c with
  | None => c
  | Some l => {| permits := permits c - running l; tasks := None; next_task := next_task c |}
  end.

(** A connection ends: its permit is dropped. *)
Definition finish (i : nat) (c : connections) : connections :=
  match tasks c ≫= (λ l, l !! i) with
  | Some t =>
      if t_running t
      then {| permits := permits c - 1;
              tasks := (λ l, <[i := {| t_id := t_id t; t_running := false |}]> l) <$> tasks c;
              next_task := next_task c |}
      else c
  | None => c
  end.

(** One turn of [run_http_listener] or [run_https_listener]: what [accept] and
    [acquire] return. *)
Inductive turn :=
  | Cancelled
  | AcceptFailed
  | AcceptedCancelled
  | Accepted.

(** Whether the loop goes on, and the tasks. *)
Definition listener_turn (t : turn) (c : connections) : bool * connections :=
  match t with
  | Cancelled => (false, c)
  | AcceptFailed => (true, c)
  | AcceptedCancelled => (false, c)
  | Accepted => (true, spawn {| permits := S (permits c); tasks := tasks c; next_task := next_task c |})
  end.

(** The loop of one listener. *)
Fixpoint run_listener (ts : list turn) (c : connections) : bool * connections :=
  match ts with
  | [] => (true, c)
  | t :: ts => let '(continue, c) := listener_turn t c in if continue then run_listener ts c else (false, c)
  end.

(** What becomes of a TLS handshake: the server name every request of the
    connection is handled with, or nothing when the connection is closed. *)
Inductive handshake := TimedOut | Failed | Done (server_name : option str).
Definition serve_tls (h : handshake) : option str :=
  match h with Done (Some name) => Some name | _ => None end.

(** ** All together *)

(** [Turn]: a turn of one of the loops; their order is free. *)
Inductive event := Turn (t : turn) | Finish (i : nat) | Shutdown.

Definition step (c : connections) (ev : event) : connections :=
  match ev with
  | Turn t => (listener_turn t c).2
  | Finish i => finish i c
  | Shutdown => shutdown c
  end.

(** Every permit belongs to a task that runs. *)
Record owned (c : connections) : Prop := {
  owned_permits : permits c = default 0 (running <$> tasks c);
  owned_ids : ∀ l, tasks c = Some l → NoDup (t_id <$> l) ∧ Forall (λ t, t_id t < next_task c) l }.

Lemma conn_running_app l k : running (l ++ k) = running l + running k.
Proof. unfold running. by rewrite filter_app, length_app. Qed.

Lemma running_cons t l : running (t :: l) = (if t_running t then 1 else 0) + running l.
Proof. unfold running. rewrite filter_cons. destruct (t_running t); case_decide; done. Qed.

Lemma running_filter l : running (filter (λ t, t_running t = true) l) = running l.
Proof.
  induction l as [|t l IH]; [done|]. rewrite filter_cons, running_cons.
  case_decide as Ht; [|destruct (t_running t); done]. by rewrite running_cons, IH.
Qed.

Lemma running_finish l i t b :
  l !! i = Some t → t_running t = true →
  running (<[i := {| t_id := b; t_running := false |}]> l) = running l - 1 ∧ 0 < running l.
Proof.
  intros Hi Ht. rewrite <- (take_drop_middle l i t Hi) at 2 3.
  rewrite insert_take_drop by (by eapply lookup_lt_Some).
  rewrite !conn_running_app, !running_cons, Ht. cbn [t_running]. lia.
Qed.

Lemma step_owned c ev : owned c → owned (step c ev).
Proof.
  intros [Hp Hi]. destruct ev as [[]|i|]; cbn [step listener_turn snd]; try (by split).
  - unfold spawn. cbn. destruct (tasks c) as [l|]; cbn in *; split; cbn; [|intros l' [= <-]|rewrite Nat.sub_0_r; done|done].
    + rewrite conn_running_app, running_filter, running_cons. change (running []) with 0. cbn [t_running]. lia.
    + destruct (Hi l eq_refl) as [Hnd Hlt]. rewrite fmap_app, NoDup_app, Forall_app. split_and!.
      * by apply NoDup_fmap_filter.
      * intros x (t & -> & [_ Ht]%list_elem_of_filter)%list_elem_of_fmap.
        cbn. rewrite list_elem_of_singleton. rewrite Forall_forall in Hlt. specialize (Hlt _ Ht). lia.
      * apply NoDup_singleton.
      * apply Forall_forall. intros t [_ Ht]%list_elem_of_filter. rewrite Forall_forall in Hlt. specialize (Hlt _ Ht). lia.
      * repeat constructor.
  - unfold finish. destruct (tasks c) as [l|] eqn:El; cbn in *; [|split; by rewrite ?El].
    destruct (l !! i) as [t|] eqn:Et; [|split; by rewrite ?El]. destruct (t_running t) eqn:Er; [|split; by rewrite ?El].
    destruct (running_finish l i t (t_id t) Et Er). destruct (Hi l eq_refl) as [Hnd Hlt].
    split; cbn; [lia|]. intros l' [= <-].
    assert (Hid : t_id <$> <[i := {| t_id := t_id t; t_running := false |}]> l = t_id <$> l).
    { rewrite list_fmap_insert. cbn. apply list_insert_id. by rewrite list_lookup_fmap, Et. }
    rewrite Hid. split; [done|]. apply Forall_insert; [done|]. rewrite Forall_lookup in Hlt. by apply (Hlt i t).
  - unfold shutdown. destruct (tasks c) as [l|] eqn:El; [|split; by rewrite ?El]. split; cbn in *; [lia|done].
Qed.

(** ** Theorem *)

(** In every order of accepted connections, connections that end and the
    shutdown, the permits that are out are exactly those of the connections
    that run: none is lost by an error, a cancellation or a shutdown, and
    after the shutdown there are none, whatever is still accepted. *)
Theorem permits_owned evs :
  let c := foldl step ConnectionTasks_new evs in
  permits c = default 0 (running <$> tasks c) ∧
  ∀ more, permits (foldl step (shutdown c) more) = 0 ∧ tasks (foldl step (shutdown c) more) = None.
Proof.
  intros c. assert (Hall : ∀ evs c0, owned c0 → owned (foldl step c0 evs)).
  { clear. induction evs as [|ev evs IH]; intros c0 H; [done|]. by apply IH, step_owned. }
  assert (Hc : owned c) by (apply Hall; split; [done|intros l [= <-]; split; constructor]).
  split; [apply Hc|]. intros more. 
  assert (Ho := Hall more _ (step_owned c Shutdown Hc)). cbn [step] in Ho.
  assert (Hn : tasks (foldl step (shutdown c) more) = None).
  { assert (H0 : tasks (shutdown c) = None) by (unfold shutdown; by destruct (tasks c) eqn:E).
    revert H0. generalize (shutdown c). clear. induction more as [|ev more IH]; intros c H0; [done|]. apply IH.
    destruct ev as [[]|i|]; cbn; try done; unfold spawn, finish, shutdown; cbn; by rewrite ?H0. }
  split; [|done]. rewrite (owned_permits _ Ho), Hn. done.
Qed.
