(* ===== verification/ClientSession.v ===== *)
(** * ClientSession: one connection of [gaterust-tunnel/src/client.rs]

    The client side of a tunnel: resolving and trying addresses, the two
    handshakes, the loop of the control session ([run_connected]) and the data
    streams the server opens.  One turn of the loop's [select!] is one call of
    [client_turn]; which branch is ready is the event, and what a turn sends,
    answers and publishes is a list of actions. *)

From S2P Require Import Prelude RustStr Net Paths TunnelConfig Protocol TunnelRuntime ServerSession.

Definition MAX_RESOLVED_ADDRESSES : nat := 8.

(** ** Names of a tunnel's local target *)

Definition local_target (t : ClientTunnel) : option str :=
  if bool_decide (ct_kind t = Socks5) then None else
  port ← ct_local_port t;
  let host := default DEFAULT_LOCAL_IP (ct_local_ip t) in
  Some (match parse_ip host with
        | Some (V6 _) => "[" ++ host ++ "]:" ++ dec port
        | _ => host ++ ":" ++ dec port
        end).

(** ** Addresses *)

(** The addresses the resolver returns, without duplicates, at most eight. *)
Fixpoint unique_addresses (seen : list SocketAddr) (l : list SocketAddr) : list SocketAddr :=
  match l with
  | [] => []
  | a :: l => if bool_decide (a ∈ seen) then unique_addresses seen l else a :: unique_addresses (a :: seen) l
  end.

Definition resolve_addresses (lookup_host : Result (list SocketAddr)) (target : str) : Result (list SocketAddr) :=
  found ← lookup_host;
  let addresses := take MAX_RESOLVED_ADDRESSES (unique_addresses [] found) in
  if bool_decide (addresses = []) then Err (InvalidConfig ("目标地址无法解析: " ++ target)) else Ok addresses.

Definition resolve_one (lookup_host : Result (list SocketAddr)) (target : str) : Result SocketAddr :=
  addresses ← resolve_addresses lookup_host target;
  ok_or (head addresses) (InvalidConfig ("目标地址无法解析: " ++ target)).

(** [try_addresses]: [finished] are the results of the attempts in the order
    in which they end; the attempts that have not ended are dropped. *)
Fixpoint try_addresses {T} (last_error : option TunnelError) (finished : list (Result T)) : Result T :=
  match finished with
  | [] => Err (default (InvalidConfig "没有可用的服务器地址") last_error)
  | Ok value :: _ => Ok value
  | Err (Authentication m) :: _ => Err (Authentication m)
  | Err error :: finished => try_addresses (Some error) finished
  end.

(** ** Configuration helpers *)

Definition declarations (services : list ClientServiceConfig) : list ServiceDeclaration :=
  (λ s, {| decl_name := service_name s; decl_kind := service_kind s |}) <$> services.

Definition service_table (services : list ClientServiceConfig) : gmap str ClientServiceConfig :=
  foldl (λ m s, <[service_name s := s]> m) ∅ services.

Definition with_client_services (c : ClientConfig) (l : list ClientServiceConfig) : ClientConfig :=
  {| client_key := client_key c; client_server := client_server c; client_services := l |}.

Definition connection_identity_changed (current updated : ClientConfig) : bool :=
  negb (bool_decide (client_server current = client_server updated)) ||
  negb (bool_decide (client_key current = client_key updated)).

Definition reconcile_config_update (current updated : ClientConfig) (managed : bool) : ClientConfig :=
  if managed
  then if connection_identity_changed current updated
       then with_client_services updated []
       else with_client_services updated (client_services current)
  else updated.

(** The identifier handed out and the next one. *)
Definition take_request_id (next : N) : N * N := (next, N.max ((next + 1) mod 2 ^ 64) 1).

(** ** Handshakes *)

(** The connection's close reason, when there is one, replaces a stream's
    error. *)
Definition connection_error_or (close_reason : option TunnelError) (fallback : TunnelError) : TunnelError :=
  default fallback close_reason.

Inductive AuthenticationResult :=
  | ClientAccepted (tunnels : list ClientTunnel)
  | ClientDeviceIdConflict.

Definition client_hello (c : ClientConfig) (device_id : str) : ClientHandshake :=
  HsAuthenticate {| hello_version := PROTOCOL_VERSION; hello_device_id := device_id; hello_key := client_key c;
                    hello_services := declarations (client_services c) |}.

(** [opened], [written] and [response]: [None] is a timeout; [close_reason] is
    what the connection reports after a failure. *)
Definition client_authenticate (opened : option (Result unit)) (written : Result unit)
  (response : option (Result ServerHandshake)) (close_reason : option TunnelError) : Result AuthenticationResult :=
  _ ← match opened with None => Err (Timeout "打开认证流") | Some r => r end;
  _ ← map_err (connection_error_or close_reason) written;
  response ← match response with
             | None => Err (Timeout "等待认证结果")
             | Some r => map_err (connection_error_or close_reason) r
             end;
  match response with
  | ShAuthenticate hello =>
      match sh_status hello with
      | Accepted => Ok (ClientAccepted (sh_tunnels hello))
      | DeviceIdConflictStatus => Ok ClientDeviceIdConflict
      | Rejected | ServerBusy => Err (Authentication (sh_message hello))
      end
  | ShBootstrap _ => Err (Protocol "服务端返回了错误的认证响应类型")
  end.

Section bootstrap.
Context `{Crypto}.

(** What [bootstrap_at_address] sends. *)
Definition bootstrap_request (key client_nonce certificate : str) : Result CertificateBootstrapRequest :=
  p ← client_proof key PROTOCOL_VERSION client_nonce certificate;
  Ok {| boot_version := PROTOCOL_VERSION; boot_client_nonce := client_nonce; boot_proof := p |}.

(** How it judges the answer. *)
Definition bootstrap_verdict (key client_nonce certificate : str) (response : ServerHandshake) : Result unit :=
  match response with
  | ShAuthenticate _ => Err (Protocol "服务端返回了错误的证书引导响应类型")
  | ShBootstrap (BootAccepted server_nonce p) =>
      if verify_server_proof key PROTOCOL_VERSION client_nonce server_nonce certificate p
      then Ok tt else Err (Authentication "服务端证书密钥证明无效")
  | ShBootstrap (BootRejected message) => Err (Authentication message)
  end.

(** [bootstrap_at_address]: [identity] is the peer's certificate chain. *)
Definition bootstrap_at_address {D} (connected : Result unit) (identity : Result (list str)) (key client_nonce : str)
  (opened : option (Result unit)) (written : Result unit) (response : option (Result ServerHandshake))
  (close_reason : option TunnelError) (from_chain : list str → Result D) : Result D :=
  _ ← connected;
  certificates ← identity;
  certificate ← ok_or (head certificates) (Tls "服务端未提供叶证书");
  _ ← bootstrap_request key client_nonce certificate;
  _ ← match opened with None => Err (Timeout "打开证书引导流") | Some r => r end;
  _ ← map_err (connection_error_or close_reason) written;
  response ← match response with
             | None => Err (Timeout "等待证书引导结果")
             | Some r => map_err (connection_error_or close_reason) r
             end;
  _ ← bootstrap_verdict key client_nonce certificate response;
  from_chain certificates.
End bootstrap.

(** ** The control session *)

Inductive ClientStatus :=
  | Starting
  | Unconfigured (reason : str)
  | Connecting (server : str)
  | Online (server device_id : str) (tunnels : list ClientTunnel)
  | Reconnecting (error : str) (retry_seconds : N)
  | Stopped (reason : option str).

Inductive ConnectionEnd :=
  | Reconfigure (c : ClientConfig)
  | EndUnconfigured
  | Disconnected (e : TunnelError)
  | EndDeviceIdConflict
  | AdministratorDisconnected
  | Shutdown.

(** Requesters wait under numbers. *)
Record PendingServiceUpdate := {
  up_request_id : N;
  up_updated : ClientConfig;
  up_response : option N }.

Record session := {
  se_config : ClientConfig;
  se_services : gmap str ClientServiceConfig;
  se_pending : option PendingServiceUpdate;
  se_next_request : N;
  se_commands : bool }.

Definition session_start (c : ClientConfig) (managed : bool) : session :=
  {| se_config := c; se_services := service_table (client_services c); se_pending := None;
     se_next_request := 1; se_commands := managed |}.

Inductive action :=
  | Send (m : ControlMessage)
  | Answer (requester : N) (r : result str (list ClientTunnel))
  | Publish (s : ClientStatus)
  | Spawn.

Inductive client_event :=
  | CShutdown
  | CDeadline
  | CClosed (e : ConnectionError) (converted : TunnelError)
  | CMessage (m : ServerControlMessage)
  | CReadError (close_reason : option TunnelError) (e : TunnelError)
  | CWatch (changed : bool) (loaded : Result ClientConfig) (written : Result unit) (close_reason : option TunnelError)
  | CCommand (command : option (list ClientServiceConfig * N)) (response_closed : bool) (written : Result unit)
             (close_reason : option TunnelError)
  | CAccepted (stream : Result unit)
  | CJoined.

Section session.
Context (io : ErrorKind → str) (device_id : str) (managed : bool).

Definition is_administrator_disconnect (e : ConnectionError) : bool := matches_error AdministratorDisconnect e.

(** Both the configuration and the shared table may lose services. *)
Definition retain_enabled_services (s : session) (tunnels : list ClientTunnel) : session :=
  let enabled := ct_name <$> filter (λ t, ct_state t = Enabled) tunnels in
  let old := client_services (se_config s) in
  let kept := filter (λ v, service_name v ∈ enabled) old in
  let c := with_client_services (se_config s) kept in
  {| se_config := c;
     se_services := if bool_decide (length kept = length old) then se_services s else service_table kept;
     se_pending := se_pending s; se_next_request := se_next_request s; se_commands := se_commands s |}.

Definition with_pending (s : session) (p : option PendingServiceUpdate) : session :=
  {| se_config := se_config s; se_services := se_services s; se_pending := p;
     se_next_request := se_next_request s; se_commands := se_commands s |}.

Definition online (s : session) (tunnels : list ClientTunnel) : action :=
  Publish (Online (server_address (client_server (se_config s))) device_id tunnels).

(** [begin_service_update], with the request identifier taken before. *)
Definition begin_service_update (s : session) (updated : ClientConfig) (response : option N)
  (written : Result unit) (close_reason : option TunnelError) : list action * session * option ConnectionEnd :=
  let '(id, next) := take_request_id (se_next_request s) in
  let set services p := {| se_config := se_config s; se_services := services; se_pending := p;
                           se_next_request := next; se_commands := se_commands s |} in
  match written with
  | Ok _ =>
      ([Send (UpdateServices id (declarations (client_services updated)))],
       set (service_table (client_services updated))
           (Some {| up_request_id := id; up_updated := updated; up_response := response |}), None)
  | Err e =>
      let error := connection_error_or close_reason e in
      (match response with Some r => [Answer r (Err (fmt_error io error))] | None => [] end,
       set (service_table (client_services (se_config s))) None, Some (Disconnected error))
  end.

Definition set_config (s : session) (c : ClientConfig) : session :=
  {| se_config := c; se_services := se_services s; se_pending := se_pending s;
     se_next_request := se_next_request s; se_commands := se_commands s |}.

(** What the client does with a message of the server. *)
Definition on_message (s : session) (m : ServerControlMessage) : list action * session * option ConnectionEnd :=
  match m with
  | TunnelSnapshot tunnels =>
      let s := if managed then retain_enabled_services s tunnels else s in
      ([online s tunnels], s, None)
  | ServicesApplied request_id tunnels =>
      match se_pending s with
      | None => ([], s, Some (Disconnected (Protocol "收到没有对应请求的服务应用回执")))
      | Some p =>
          let s := with_pending s None in
          if negb (up_request_id p =? request_id)
          then ([], s, Some (Disconnected (Protocol "服务应用回执编号不匹配")))
          else
            let s := set_config s (up_updated p) in
            let s := if managed then retain_enabled_services s tunnels else s in
            (online s tunnels :: match up_response p with Some r => [Answer r (Ok tunnels)] | None => [] end, s, None)
      end
  end.

(** One turn; [None] when the branch is disabled. *)
Definition client_turn (s : session) (ev : client_event) : option (list action * session * option ConnectionEnd) :=
  match ev with
  | CShutdown => Some ([], s, Some Shutdown)
  | CDeadline =>
      match se_pending s with
      | None => None
      | Some p =>
          Some (match up_response p with Some r => [Answer r (Err (lit "等待服务端确认服务配置超时"))] | None => [] end,
                with_pending s None, Some (Disconnected (Timeout "等待服务端确认服务配置")))
      end
  | CClosed e converted =>
      Some ([], s, Some (if is_administrator_disconnect e then AdministratorDisconnected else Disconnected converted))
  | CMessage m => Some (on_message s m)
  | CReadError close_reason e => Some ([], s, Some (Disconnected (connection_error_or close_reason e)))
  | CWatch changed loaded written close_reason =>
      match se_pending s with
      | Some _ => None
      | None => Some (
          if negb changed then ([], s, Some (Disconnected (Protocol "配置监听器已关闭"))) else
          match loaded with
          | Err _ => ([], s, Some EndUnconfigured)
          | Ok updated =>
              if connection_identity_changed (se_config s) updated
              then ([], s, Some (Reconfigure (reconcile_config_update (se_config s) updated managed)))
              else if managed then ([], s, None)
              else begin_service_update s updated None written close_reason
          end)
      end
  | CCommand command response_closed written close_reason =>
      match se_pending s with
      | Some _ => None
      | None =>
          if negb (se_commands s) then None else
          Some (match command with
                | None => ([], {| se_config := se_config s; se_services := se_services s; se_pending := None;
                                  se_next_request := se_next_request s; se_commands := false |}, None)
                | Some (services, requester) =>
                    if response_closed then ([], s, None)
                    else begin_service_update s (with_client_services (se_config s) services) (Some requester)
                           written close_reason
                end)
      end
  | CAccepted stream =>
      Some (match stream with Ok _ => ([Spawn], s, None) | Err e => ([], s, Some (Disconnected e)) end)
  | CJoined => Some ([], s, None)
  end.

(** The loop of [run_connected] on the branches that become ready. *)
Fixpoint run_connected (s : session) (evs : list client_event) : list action * session * option ConnectionEnd :=
  match evs with
  | [] => ([], s, None)
  | ev :: evs =>
      match client_turn s ev with
      | None => run_connected s evs
      | Some (acts, s, Some e) => (acts, s, Some e)
      | Some (acts, s, None) => let '(more, s, e) := run_connected s evs in (acts ++ more, s, e)
      end
  end.
End session.

(** The close code of a connection that ends. *)
Definition end_code (e : ConnectionEnd) : ApplicationCloseCode :=
  match e with
  | Reconfigure _ | EndUnconfigured => ClientReconfigure
  | Shutdown | AdministratorDisconnected => ClientShutdown
  | Disconnected _ => ClientConnectionError
  | EndDeviceIdConflict => ClientShutdown
  end.

(** ** Data streams *)

(** What a stream does after its request. *)
Inductive stream_plan :=
  | RejectStream (message : str)
  | FailStream (e : TunnelError)
  | ConnectTcp (target : str)
  | ConnectUdp (target : str).

Definition handle_stream (services : gmap str ClientServiceConfig) (request : option (Result OpenRequest)) : stream_plan :=
  match request with
  | None => FailStream (Timeout "读取数据流请求")
  | Some (Err e) => FailStream e
  | Some (Ok r) =>
      match services !! open_service r with
      | None => RejectStream "服务不存在"
      | Some s =>
          match service_kind s with
          | Tcp => match service_target s with
                   | Some t => ConnectTcp t
                   | None => FailStream (InvalidConfig "TCP 服务缺少 target")
                   end
          | Socks5 => match open_destination r with
                      | Some d => ConnectTcp d
                      | None => FailStream (Protocol "SOCKS5 请求缺少目标地址")
                      end
          | Udp => match service_target s with
                   | Some t => ConnectUdp t
                   | None => FailStream (InvalidConfig "UDP 服务缺少 target")
                   end
          end
      end
  end.

(** The answer to the server, [None] when the stream fails without one; [tcp]:
    [None] is a timeout of the connection attempt. *)
Definition open_response (p : stream_plan) (tcp : option (result ErrorKind unit))
  (lookup_host : Result (list SocketAddr)) (udp_bind : Result unit) (udp_connect : result ErrorKind unit)
  : Result OpenResponse :=
  let accept := {| open_accepted := true; open_message := [] |} in
  let reject m := {| open_accepted := false; open_message := m |} in
  match p with
  | RejectStream m => Ok (reject m)
  | FailStream e => Err e
  | ConnectTcp _ =>
      Ok match tcp with
         | Some (Ok _) => accept
         | Some (Err _) => reject "目标连接失败"
         | None => reject "目标连接超时"
         end
  | ConnectUdp target =>
      _ ← resolve_one lookup_host target;
      _ ← udp_bind;
      Ok match udp_connect with Ok _ => accept | Err _ => reject "UDP 目标连接失败" end
  end.

(** ** Accounting of requests *)

Definition answers_to (r : N) (a : action) : Prop := match a with Answer r' _ => r' = r | _ => False end.
#[local] Instance answers_to_dec r a : Decision (answers_to r a).
Proof. destruct a; cbn; apply _. Defined.
Definition answers (r : N) (acts : list action) : nat := length (filter (answers_to r) acts).
Definition request_ids (acts : list action) : list N :=
  omap (λ a, match a with Send (UpdateServices id _) => Some id | _ => None end) acts.
Definition waits (r : N) (s : session) : nat :=
  if bool_decide (se_pending s ≫= up_response = Some r) then 1 else 0.

Lemma answers_cons r a l : answers r (a :: l) = ((if decide (answers_to r a) then 1 else 0) + answers r l)%nat.
Proof. unfold answers. rewrite filter_cons. by case_decide. Qed.

(** The answer to an optional requester. *)
Lemma answers_response r response x :
  answers r (match response with Some r' => [Answer r' x] | None => [] end) =
    if bool_decide (response = Some r) then 1%nat else 0%nat.
Proof.
  destruct response as [r'|]; [|done]. rewrite answers_cons. case_decide as H1; case_bool_decide as H2; cbn in *; congruence.
Qed.

Section accounting.
Context (io : ErrorKind → str) (device_id : str) (managed : bool).

(** The requesters whose command a turn takes. *)
Definition taken_by (ev : client_event) : list N :=
  match ev with CCommand (Some (_, r)) false _ _ => [r] | _ => [] end.

Fixpoint taken (s : session) (evs : list client_event) : list N :=
  match evs with
  | [] => []
  | ev :: evs =>
      match client_turn io device_id managed s ev with
      | None => taken s evs
      | Some (_, s', e) => taken_by ev ++ match e with None => taken s' evs | Some _ => [] end
      end
  end.

Definition times (r : N) (l : list N) : nat := length (filter (λ x, x = r) l).

Definition acknowledged (ev : client_event) : nat :=
  match ev with CMessage (ServicesApplied _ _) => 1 | _ => 0 end.

Definition under_way (s : session) : nat := if se_pending s then 1 else 0.

Lemma retain_pending s ts : se_pending (if managed then retain_enabled_services s ts else s) = se_pending s.
Proof. by destruct managed. Qed.
Lemma retain_next s ts : se_next_request (if managed then retain_enabled_services s ts else s) = se_next_request s.
Proof. by destruct managed. Qed.

(** One turn: answers, requests and identifiers. *)
Record turn_ok (s : session) (ev : client_event) (acts : list action) (s' : session) (e : option ConnectionEnd) : Prop := {
  to_answers : ∀ r, (answers r acts <= times r (taken_by ev) + waits r s)%nat;
  to_waits : e = None → ∀ r, (times r (taken_by ev) + waits r s = answers r acts + waits r s')%nat;
  to_count : e = None → (length (request_ids acts) + under_way s = acknowledged ev + under_way s')%nat;
  to_ids : request_ids acts = [] ∧ (e = None → se_next_request s' = se_next_request s) ∨
           request_ids acts = [se_next_request s] ∧ se_next_request s' = (take_request_id (se_next_request s)).2 }.

Lemma begin_ok s updated response w cr acts s' e ev :
  se_pending s = None → default [] ((λ r, [r]) <$> response) = taken_by ev → acknowledged ev = 0%nat →
  begin_service_update io s updated response w cr = (acts, s', e) → turn_ok s ev acts s' e.
Proof.
  intros Hp Ht Ha E. unfold begin_service_update in E. cbn zeta in E.
  destruct (take_request_id (se_next_request s)) as [id next] eqn:Eid.
  assert (Hid : id = se_next_request s) by (unfold take_request_id in Eid; congruence).
  assert (Hw : ∀ r, waits r s = 0%nat) by (intros r; unfold waits; by rewrite Hp).
  assert (Htimes : ∀ r, times r (taken_by ev) = if bool_decide (response = Some r) then 1%nat else 0%nat).
  { intros r. rewrite <- Ht. destruct response as [r'|]; cbn; [|done].
    case_decide; case_bool_decide; cbn; congruence. }
  destruct w as [u|err]; injection E as <- <- <-.
  - split.
    + intros r. rewrite Hw. change (answers r [_]) with 0%nat. lia.
    + intros _ r. rewrite Hw, Htimes. change (answers r [_]) with 0%nat. unfold waits. cbn. lia.
    + intros _. unfold under_way. rewrite Hp, Ha. done.
    + right. split; [by rewrite Hid|by rewrite Eid].
  - split; [|done|done|].
    + intros r. rewrite Htimes, Hw, answers_response. lia.
    + left. split; [by destruct response|done].
Qed.

Lemma idle_ok s ev s' e :
  taken_by ev = [] → acknowledged ev = 0%nat →
  (e = None → se_pending s' = se_pending s ∧ se_next_request s' = se_next_request s) → turn_ok s ev [] s' e.
Proof.
  intros Ht Ha Hs. split; rewrite ?Ht, ?Ha.
  - intros r. change (answers r []) with 0%nat. lia.
  - intros He r. unfold waits. by rewrite (proj1 (Hs He)).
  - intros He. unfold under_way. by rewrite (proj1 (Hs He)).
  - left. split; [done|]. intros He. by destruct (Hs He).
Qed.

Lemma turn_accounting s ev acts s' e :
  client_turn io device_id managed s ev = Some (acts, s', e) → turn_ok s ev acts s' e.
Proof.
  destruct ev; cbn [client_turn]; intros E.
  - injection E as <- <- <-. by apply idle_ok.
  - destruct (se_pending s) as [p|] eqn:Hp; [|done]. injection E as <- <- <-. split; [|done|done|].
    + intros r. rewrite answers_response. unfold waits. rewrite Hp. cbn. lia.
    + left. split; [by destruct (up_response p)|done].
  - injection E as <- <- <-. by apply idle_ok.
  - destruct m as [tunnels|id tunnels]; cbn [on_message] in E.
    + injection E as <- <- <-. split.
      * intros r. change (answers r [_]) with 0%nat. lia.
      * intros _ r. change (answers r [_]) with 0%nat. unfold waits. by rewrite retain_pending.
      * intros _. unfold under_way. by rewrite retain_pending.
      * left. split; [done|]. intros _. apply retain_next.
    + destruct (se_pending s) as [p|] eqn:Hp; [|injection E as <- <- <-; by split; [intros r; change (answers r []) with 0%nat; lia|done|done|left]].
      destruct (negb _); injection E as <- <- <-; [by split; [intros r; change (answers r []) with 0%nat; lia|done|done|left]|].
      assert (Hans : ∀ r, answers r (online device_id (if managed then retain_enabled_services (set_config (with_pending s None) (up_updated p)) tunnels
          else set_config (with_pending s None) (up_updated p)) tunnels :: match up_response p with Some r => [Answer r (Ok tunnels)] | None => [] end)
          = waits r s).
      { intros r. rewrite answers_cons, answers_response. unfold waits. rewrite Hp, decide_False by (by intros []). done. }
      split.
      * intros r. rewrite Hans. cbn. lia.
      * intros _ r. rewrite Hans. unfold waits. rewrite retain_pending. apply Nat.add_comm.
      * intros _. unfold under_way. rewrite retain_pending, Hp. cbn. by destruct (up_response p).
      * left. split; [by destruct (up_response p)|]. intros _. by rewrite retain_next.
  - injection E as <- <- <-. by apply idle_ok.
  - destruct (se_pending s) eqn:Hp; [done|].
    destruct (negb changed); [injection E as <- <- <-; by apply idle_ok|].
    destruct loaded as [updated|err]; [|injection E as <- <- <-; by apply idle_ok].
    destruct (connection_identity_changed _ _); [injection E as <- <- <-; by apply idle_ok|].
    destruct managed; [injection E as <- <- <-; by apply idle_ok|]. injection E as E.
    by apply (begin_ok s updated None written close_reason).
  - destruct (se_pending s) eqn:Hp; [done|]. destruct (negb (se_commands s)); [done|].
    destruct command as [[services requester]|]; [|injection E as <- <- <-; apply idle_ok; [done|done|by rewrite Hp]].
    destruct response_closed; [injection E as <- <- <-; by apply idle_ok|]. injection E as E.
    by apply (begin_ok s (with_client_services (se_config s) services) (Some requester) written close_reason).
  - destruct stream; injection E as <- <- <-; [|by apply idle_ok].
    split; [intros r; change (answers r [_]) with 0%nat; lia|done|done|by left].
  - injection E as <- <- <-. by apply idle_ok.
Qed.

Lemma answers_app r a b : answers r (a ++ b) = (answers r a + answers r b)%nat.
Proof. unfold answers. by rewrite filter_app, length_app. Qed.
Lemma times_app r a b : times r (a ++ b) = (times r a + times r b)%nat.
Proof. unfold times. by rewrite filter_app, length_app. Qed.
Lemma request_ids_app a b : request_ids (a ++ b) = request_ids a ++ request_ids b.
Proof. unfold request_ids. apply omap_app. Qed.

Fixpoint count_from (k : N) (n : nat) : list N :=
  match n with O => [] | S n => k :: count_from (k + 1) n end.

Lemma run_accounting evs : ∀ s acts s' e,
  run_connected io device_id managed s evs = (acts, s', e) →
  (∀ r, (answers r acts <= times r (taken s evs) + waits r s)%nat) ∧
  (e = None → ∀ r, (times r (taken s evs) + waits r s = answers r acts + waits r s')%nat) ∧
  (0 < se_next_request s → se_next_request s + N.of_nat (length evs) < 2 ^ 64 →
     request_ids acts = count_from (se_next_request s) (length (request_ids acts))).
Proof.
  induction evs as [|ev evs IH]; intros s acts s' e; cbn [run_connected taken].
  { intros [= <- <- <-]. split; [intros r; cbn; lia|]. split; [intros _ r; cbn; lia|done]. }
  destruct (client_turn io device_id managed s ev) as [[[acts1 s1] [e1|]]|] eqn:Et.
  - intros [= <- <- <-]. destruct (turn_accounting _ _ _ _ _ Et) as [H1 H2 H3 H4]. rewrite app_nil_r.
    split; [done|]. split; [done|]. intros _ _. by destruct H4 as [[-> _]|[-> _]].
  - destruct (run_connected io device_id managed s1 evs) as [[acts2 s2] e2] eqn:Er. intros [= <- <- <-].
    destruct (turn_accounting _ _ _ _ _ Et) as [H1 H2 H3 H4]. specialize (H2 eq_refl).
    destruct (IH _ _ _ _ Er) as (I1 & I2 & I3). split; [|split].
    + intros r. specialize (H2 r). specialize (I1 r). rewrite answers_app, times_app. lia.
    + intros He r. specialize (H2 r). specialize (I2 He r). rewrite answers_app, times_app. lia.
    + intros Hpos Hb. rewrite request_ids_app. cbn [length] in Hb.
      destruct H4 as [[-> Hn]|[-> Hn]].
      * rewrite (Hn eq_refl) in I3. cbn. apply I3; lia.
      * cbn in Hn. rewrite N.mod_small in Hn by lia. rewrite N.max_l in Hn by lia.
        rewrite Hn in I3. cbn. f_equal. apply I3; lia.
  - intros Er. destruct (IH _ _ _ _ Er) as (I1 & I2 & I3). split; [done|]. split; [done|].
    intros Hpos Hb. apply I3; [done|]. cbn [length] in Hb. lia.
Qed.
End accounting.

(** ** Theorems *)

(** In a session, whatever becomes ready in whatever order, a command of the
    user interface is answered at most once, and while the session goes on
    every command that was taken has been answered or is the one that waits;
    the identifiers of the requests are 1, 2, 3, ... so that no answer of the
    server can be taken for that of another request. *)
Theorem commands_answered_once io device_id managed c evs acts s e :
  run_connected io device_id managed (session_start c managed) evs = (acts, s, e) →
  (∀ r, answers r acts <= times r (taken io device_id managed (session_start c managed) evs))%nat ∧
  (e = None → ∀ r, times r (taken io device_id managed (session_start c managed) evs) = answers r acts + waits r s)%nat ∧
  (N.of_nat (length evs) + 1 < 2 ^ 64 → request_ids acts = count_from 1 (length (request_ids acts))).
Proof.
  intros H. destruct (run_accounting io device_id managed evs _ _ _ _ H) as (H1 & H2 & H3).
  assert (Hw : ∀ r, waits r (session_start c managed) = 0%nat) by done.
  split; [intros r; specialize (H1 r); rewrite Hw in H1; lia|]. split.
  - intros He r. specialize (H2 He r). rewrite Hw in H2. lia.
  - intros Hb. apply H3; cbn [session_start se_next_request]; lia.
Qed.

(** A command of requester 7 that the server confirms. *)
Lemma commands_answered_once_witness :
  let c := {| client_key := []; client_server := {| server_address := []; server_tls_name := None; ca_certificate := None |};
              client_services := [] |} in
  let evs := [CCommand (Some ([], 7)) false (Ok tt) None; CMessage (ServicesApplied 1 [])] in
  (answers 7 (run_connected (λ _, []) "dev" true (session_start c true) evs).1.1 <= 1)%nat ∧
  answers 7 (run_connected (λ _, []) "dev" true (session_start c true) evs).1.1 = 1%nat.
Proof.
  intros c evs.
  destruct (commands_answered_once (λ _, []) "dev" true c evs _ _ _ eq_refl) as (H & _).
  split; [exact (H 7)|vm_compute; reflexivity].
Defined.
