(* ===== verification/ClientLink.v ===== *)
(** * ClientLink: a client and its server session, connected

    The composition of [ClientSession] and the control session of
    [ServerSession]: the two loops, the frames in flight in both directions,
    and everything else that happens to the server's runtime in between. *)

From S2P Require Import Prelude Net TunnelConfig Protocol TunnelRuntime ServerSession ClientSession.

(** ** What other activities do to the runtime *)

Section foreign.
Context (sha256 : str → str) (sid : N).

(** Every operation of the runtime except the registration of the session and
    its own updates. *)
Inductive foreign_step : TunnelRuntime → TunnelRuntime → Prop :=
  | fo_register rt id dev group digest conn decls now r rt' :
      id ≠ sid → sessions (state rt) !! id = None →
      register rt id dev group digest conn decls now = (r, rt') → foreign_step rt rt'
  | fo_update rt id decls u rt' : id ≠ sid → update_services rt id decls = (u, rt') → foreign_step rt rt'
  | fo_unregister rt id : foreign_step rt (unregister rt id)
  | fo_disconnect rt id b rt' : disconnect rt id = (b, rt') → foreign_step rt rt'
  | fo_disconnect_tunnel rt id t r rt' : disconnect_tunnel rt id t = (r, rt') → foreign_step rt rt'
  | fo_apply_tunnels rt configs : foreign_step rt (apply_tunnels rt configs)
  | fo_apply_credentials rt creds : foreign_step rt (apply_credentials sha256 rt creds).

Definition declared (rt : TunnelRuntime) (n : str) : option TunnelKind :=
  s ← sessions (state rt) !! sid; services s !! n.

(** The session can only lose tunnels, and keeps the declarations of the
    tunnels it owns. *)
Definition shrinks (rt rt' : TunnelRuntime) : Prop :=
  ∀ n, owned_by rt' sid n → owned_by rt sid n ∧ declared rt' n = declared rt n.

Lemma shrinks_refl rt : shrinks rt rt.
Proof. by intros n H. Qed.

Lemma release_shrinks rt rt' id :
  sessions (state rt') = delete id (sessions (state rt)) →
  owners (state rt') = owners (release_session (with_sessions (state rt) (delete id (sessions (state rt)))) id) →
  shrinks rt rt'.
Proof.
  intros Hs Ho n (o & Hn & Hid). rewrite Ho in Hn. apply release_lookup in Hn as [Hn Hne]. cbn in Hn.
  split; [by exists o|]. unfold declared. rewrite Hs, lookup_delete_ne; [done|]. congruence.
Qed.

Lemma update_sessions rt id decls u rt' :
  update_services rt id decls = (Some u, rt') →
  ∃ s, sessions (state rt) !! id = Some s ∧
       sessions (state rt') = <[id := with_services s (service_map decls)]> (sessions (state rt)).
Proof.
  unfold update_services. destruct (sessions (state rt) !! id) as [s|]; [|done].
  destruct (claim_available _ _ id) as [st t] eqn:Ec. intros [= <- Hrt]. exists s. split; [done|].
  apply claim_available_spec in Ec as (_ & Hs & _).
  assert (Hst : state rt' = st) by (subst rt'; by destruct (_ || _)). by rewrite Hst, Hs.
Qed.

Lemma register_effect rt id dev group digest conn decls now r rt' :
  register rt id dev group digest conn decls now = (r, rt') →
  rt' = rt ∨ ∃ entry, sessions (state rt') = <[id := entry]> (sessions (state rt)) ∧
    ∀ n o, owners (state rt') !! n = Some o → owners (state rt) !! n = Some o ∨ owner_session o = id.
Proof.
  unfold register. destruct (_ <=? _)%nat; [intros [= _ <-]; by left|]. case_bool_decide; [intros [= _ <-]; by left|].
  destruct (existsb _ _); [intros [= _ <-]; by left|]. destruct (claim_available _ _ id) as [st' t'] eqn:Ec.
  intros [= _ <-]. right. apply claim_available_spec in Ec as (_ & Hs & _ & _ & Hkeep & Hnew). cbn in *.
  eexists. split; [exact Hs|]. intros n o Hn. destruct (owners (state rt) !! n) as [o'|] eqn:Eo.
  - left. by rewrite (Hkeep _ _ Eo) in Hn.
  - right. specialize (Hnew n Eo). rewrite lookup_insert_eq in Hnew.
    destruct (tunnels (state rt) !! n) as [spec|]; [|congruence].
    destruct (eligible _ _ _); [|congruence]. destruct Hnew as (x & Hx & Hxi). congruence.
Qed.

Lemma foreign_shrinks rt rt' : runtime_inv rt → foreign_step rt rt' → shrinks rt rt'.
Proof.
  intros (Hok & Hss & Htok) Hstep. destruct Hstep as
    [rt id dev group digest conn decls now r rt' Hne Hid E|rt id decls u rt' Hne E|rt id|rt id b rt' E|rt id t r rt' E|rt configs|rt creds].
  - destruct (register_effect _ _ _ _ _ _ _ _ _ _ E) as [->|(entry & Hs & Ho)]; [apply shrinks_refl|].
    intros n (o & Hn & Hos). destruct (Ho n o Hn) as [Hn'|Hn']; [|congruence].
    split; [by exists o|]. unfold declared. by rewrite Hs, lookup_insert_ne.
  - destruct u as [u|].
    + destruct (update_owners rt id decls u rt' Hok E) as (_ & Hoth & _).
      destruct (update_sessions _ _ _ _ _ E) as (s & _ & Hs).
      intros n (o & Ho & Hos). apply Hoth in Ho; [|congruence]. split; [by exists o|].
      unfold declared. by rewrite Hs, lookup_insert_ne.
    + unfold update_services in E. destruct (sessions (state rt) !! id); [by destruct (claim_available _ _ id)|].
      injection E as <-. apply shrinks_refl.
  - unfold unregister. destruct (sessions (state rt) !! id); [|apply shrinks_refl]. by eapply release_shrinks.
  - unfold disconnect in E. destruct (sessions (state rt) !! id); injection E as <- <-; [|apply shrinks_refl].
    by eapply (release_shrinks _ _ id).
  - pose proof (disconnect_tunnel_spec rt id t) as H. rewrite E in H. destruct r as [u|[]].
    2-4: destruct H as [-> _]; apply shrinks_refl.
    destruct H as (o & s & Ho & Hos & Hown & _ & Hs & Hss' & _). intros n (o' & Hn & Hn').
    rewrite Hown in Hn. apply lookup_delete_Some in Hn as [Hnt Hn]. split; [by exists o'|].
    unfold declared. rewrite Hss'. destruct (decide (id = sid)) as [->|]; [|by rewrite lookup_insert_ne].
    rewrite lookup_insert_eq, Hs. cbn. by rewrite lookup_delete_ne.
  - intros n (o & Ho & Hos). apply retain_lookup in Ho as [Ho _]. split; [by exists o|done].
  - destruct (apply_credentials_spec sha256 rt creds) as [l [C1 C2 C3 C4 C5 C6 _ _ _]].
    intros n (o & Ho & Hos). apply C6 in Ho as [Ho Hk]. split; [by exists o|]. unfold declared.
    destruct (sessions (state rt) !! sid) as [s|] eqn:Es.
    + rewrite (proj2 (C5 sid s)); [done|]. split; [done|]. destruct (revoked_session _ s) eqn:Er; [|done].
      destruct Hk. exists s. by rewrite Hos.
    + destruct (sessions (state (apply_credentials sha256 rt creds)) !! sid) as [s|] eqn:Es'; [|done].
      apply C5 in Es' as [Es' _]. congruence.
Qed.

Lemma foreign_inv rt rt' : runtime_inv rt → foreign_step rt rt' → runtime_inv rt'.
Proof.
  intros Hi Hs. destruct Hs.
  - by eapply register_inv.
  - by eapply update_services_inv.
  - by apply unregister_inv.
  - by eapply disconnect_inv.
  - by eapply disconnect_tunnel_inv.
  - by apply apply_tunnels_inv.
  - by apply apply_credentials_inv.
Qed.
End foreign.

(** ** The two loops and the frames between them *)

Record link := {
  l_client : session;
  l_to_server : list ControlMessage;
  l_to_client : list ServerControlMessage;
  l_runtime : TunnelRuntime }.

Definition sent (acts : list action) : list ControlMessage :=
  omap (λ a, match a with Send m => Some m | _ => None end) acts.

Section link.
Context (sha256 : str → str) (io : ErrorKind → str) (device : str) (managed : bool) (sid : N).
(** Restricts the messages the client receives. *)
Context (allowed : session → ServerControlMessage → Prop).

(** The steps after which both loops go on. *)
Inductive link_step : link → link → Prop :=
  | ls_client l ev acts s :
      (∀ m, ev ≠ CMessage m) → client_turn io device managed (l_client l) ev = Some (acts, s, None) →
      link_step l {| l_client := s; l_to_server := l_to_server l ++ sent acts; l_to_client := l_to_client l;
                     l_runtime := l_runtime l |}
  | ls_receive l m q acts s :
      l_to_client l = m :: q → allowed (l_client l) m →
      client_turn io device managed (l_client l) (CMessage m) = Some (acts, s, None) →
      link_step l {| l_client := s; l_to_server := l_to_server l ++ sent acts; l_to_client := q;
                     l_runtime := l_runtime l |}
  | ls_serve l id decls q frames rt :
      l_to_server l = UpdateServices id decls :: q →
      session_turn sid (l_runtime l) (EvRequest id decls IoOk) = (frames, rt, None) →
      link_step l {| l_client := l_client l; l_to_server := q; l_to_client := l_to_client l ++ frames; l_runtime := rt |}
  | ls_notice l frames rt :
      session_turn sid (l_runtime l) (EvChanged IoOk) = (frames, rt, None) →
      link_step l {| l_client := l_client l; l_to_server := l_to_server l; l_to_client := l_to_client l ++ frames;
                     l_runtime := rt |}
  | ls_foreign l rt :
      foreign_step sha256 sid (l_runtime l) rt →
      link_step l {| l_client := l_client l; l_to_server := l_to_server l; l_to_client := l_to_client l; l_runtime := rt |}.
End link.

(** A snapshot that does not take a service away from the configuration while
    an update is pending. *)
Definition undisturbed (managed : bool) (s : session) (m : ServerControlMessage) : Prop :=
  match m with
  | TunnelSnapshot tunnels =>
      managed = true → is_Some (se_pending s) →
      Forall (λ v, service_name v ∈ ct_name <$> filter (λ t, ct_state t = Enabled) tunnels) (client_services (se_config s))
  | ServicesApplied _ _ => True
  end.

(** ** Tables of services *)

Lemma service_table_snoc l v : service_table (l ++ [v]) = <[service_name v := v]> (service_table l).
Proof. unfold service_table. by rewrite foldl_app. Qed.

Lemma service_map_snoc l d : service_map (l ++ [d]) = <[decl_name d := decl_kind d]> (service_map l).
Proof. unfold service_map. by rewrite foldl_app. Qed.

Lemma service_map_declarations l n :
  service_map (declarations l) !! n = service_kind <$> service_table l !! n.
Proof.
  induction l as [|v l IH] using rev_ind; [done|].
  unfold declarations. rewrite fmap_app. cbn [fmap list_fmap]. rewrite service_map_snoc, service_table_snoc. cbn [decl_name decl_kind].
  destruct (decide (service_name v = n)) as [<-|Hne]; [by rewrite !lookup_insert_eq|]. by rewrite !lookup_insert_ne.
Qed.

Lemma service_table_filter (P : str → Prop) `{∀ n, Decision (P n)} l n :
  P n → service_table (filter (λ v, P (service_name v)) l) !! n = service_table l !! n.
Proof.
  intros Hn. induction l as [|v l IH] using rev_ind; [done|]. rewrite filter_app, service_table_snoc.
  rewrite filter_cons, filter_nil. case_decide as Hv.
  - rewrite service_table_snoc. destruct (decide (service_name v = n)) as [<-|]; [by rewrite !lookup_insert_eq|].
    by rewrite !lookup_insert_ne.
  - rewrite app_nil_r, IH, lookup_insert_ne; [done|]. intros E. by rewrite E in Hv.
Qed.

Lemma filter_full {A} (P : A → Prop) `{∀ x, Decision (P x)} l : length (filter P l) = length l → filter P l = l.
Proof.
  induction l as [|x l IH]; [done|]. rewrite filter_cons. pose proof (length_filter P l) as Hle. case_decide; cbn; [|lia].
  intros [= E]. by rewrite IH.
Qed.

Lemma filter_all {A} (P : A → Prop) `{∀ x, Decision (P x)} l : Forall P l → filter P l = l.
Proof. induction 1 as [|x l Hx _ IH]; [done|]. by rewrite filter_cons_True, IH. Qed.

(** ** What the server tells *)

Definition enabled_in (tunnels : list ClientTunnel) (n : str) : Prop :=
  n ∈ ct_name <$> filter (λ t, ct_state t = Enabled) tunnels.

#[local] Instance enabled_in_dec tunnels n : Decision (enabled_in tunnels n) := list_elem_of_dec _ _.

Lemma owned_enabled rt sid n : owners_ok (state rt) → owned_by rt sid n → enabled_in (catalog rt sid) n.
Proof.
  intros Hok Hn. destruct Hn as (o & Ho & Hos). pose proof (Hok n o Ho) as Hv.
  apply valid_owner_true in Hv as (spec & s & Ht & Hs & He). rewrite Hos in Hs. apply eligible_true in He as [Hg _].
  destruct (catalog_spec rt sid s Hs) as (_ & _ & Hin & Hen).
  assert (Hc : client_tunnel (state rt) sid (n, spec) ∈ catalog rt sid) by (apply Hin; eauto).
  unfold enabled_in. apply list_elem_of_fmap. exists (client_tunnel (state rt) sid (n, spec)). split; [done|].
  apply list_elem_of_filter. split; [|done]. apply Hen; [done|]. by exists o.
Qed.

(** ** Agreement *)

Section agreement.
Context (sha256 : str → str) (io : ErrorKind → str) (device : str) (managed : bool) (sid : N).

(** A tunnel the session owns is served by the table, with the declared kind. *)
Definition served (table : gmap str ClientServiceConfig) (rt : TunnelRuntime) (n : str) : Prop :=
  ∃ v, table !! n = Some v ∧ declared sid rt n = Some (service_kind v).

(** A snapshot in flight that does not take [n] away from a managed client. *)
Definition keeps (n : str) (m : ServerControlMessage) : Prop :=
  match m with TunnelSnapshot tunnels => managed = true → enabled_in tunnels n | ServicesApplied _ _ => False end.
Definition is_snapshot (m : ServerControlMessage) : Prop :=
  match m with TunnelSnapshot _ => True | ServicesApplied _ _ => False end.

Definition table_of (c : ClientConfig) : gmap str ClientServiceConfig := service_table (client_services c).
Definition request_of (p : PendingServiceUpdate) : ControlMessage :=
  UpdateServices (up_request_id p) (declarations (client_services (up_updated p))).

(** Nothing pending: the server has the table of the client. *)
Definition settled (l : link) : Prop :=
  l_to_server l = [] ∧ Forall is_snapshot (l_to_client l) ∧
  se_services (l_client l) = table_of (se_config (l_client l)) ∧
  ∀ n, owned_by (l_runtime l) sid n →
    served (se_services (l_client l)) (l_runtime l) n ∧ Forall (keeps n) (l_to_client l).

(** The request is under way. *)
Definition requested (p : PendingServiceUpdate) (l : link) : Prop :=
  l_to_server l = [request_of p] ∧ Forall is_snapshot (l_to_client l).

(** The answer is under way. *)
Definition answered (p : PendingServiceUpdate) (l : link) : Prop :=
  l_to_server l = [] ∧ ∃ before tunnels after,
    l_to_client l = before ++ ServicesApplied (up_request_id p) tunnels :: after ∧
    Forall is_snapshot before ∧ Forall is_snapshot after ∧
    ∀ n, owned_by (l_runtime l) sid n →
      served (table_of (up_updated p)) (l_runtime l) n ∧ (managed = true → enabled_in tunnels n) ∧ Forall (keeps n) after.

Definition agrees (l : link) : Prop :=
  runtime_inv (l_runtime l) ∧
  match se_pending (l_client l) with
  | None => settled l
  | Some p => se_services (l_client l) = table_of (up_updated p) ∧ (requested p l ∨ answered p l)
  end.

Lemma keeps_snapshot n m : keeps n m → is_snapshot m.
Proof. by destruct m. Qed.

(** What a turn of the client that is not a message does to the frames. *)
Lemma client_turn_sent s ev acts s' :
  (∀ m, ev ≠ CMessage m) → client_turn io device managed s ev = Some (acts, s', None) →
  (sent acts = [] ∧ se_config s' = se_config s ∧ se_services s' = se_services s ∧ se_pending s' = se_pending s) ∨
  (se_pending s = None ∧ ∃ p, se_pending s' = Some p ∧ sent acts = [request_of p] ∧
     se_services s' = table_of (up_updated p) ∧ se_config s' = se_config s).
Proof.
  assert (Hb : ∀ updated r w cr, se_pending s = None →
    begin_service_update io s updated r w cr = (acts, s', None) →
    se_pending s = None ∧ ∃ p, se_pending s' = Some p ∧ sent acts = [request_of p] ∧
     se_services s' = table_of (up_updated p) ∧ se_config s' = se_config s).
  { intros updated r w cr Hp. unfold begin_service_update, take_request_id. destruct w as [u|e]; [|done].
    intros [= <- <-]. split; [done|]. by eexists. }
  intros Hm. destruct ev; cbn [client_turn]; intros E.
  - done.
  - by destruct (se_pending s).
  - done.
  - by destruct (Hm m).
  - done.
  - destruct (se_pending s) eqn:Hp; [done|]. destruct (negb changed); [done|]. destruct loaded as [updated|e]; [|done].
    destruct (connection_identity_changed _ _); [done|]. destruct managed; [injection E as <- <-; by left|].
    right. injection E as E. split; [done|]. exact (proj2 (Hb _ _ _ _ eq_refl E)).
  - destruct (se_pending s) eqn:Hp; [done|]. destruct (negb (se_commands s)); [done|].
    destruct command as [[services requester]|]; [|injection E as <- <-; by left].
    destruct response_closed; [injection E as <- <-; by left|].
    right. injection E as E. split; [done|]. exact (proj2 (Hb _ _ _ _ eq_refl E)).
  - destruct stream; [injection E as <- <-; by left|done].
  - injection E as <- <-. by left.
Qed.

Lemma retain_table s tunnels n :
  se_services s = table_of (se_config s) → enabled_in tunnels n →
  let s' := retain_enabled_services s tunnels in
  se_services s' = table_of (se_config s') ∧ se_services s' !! n = se_services s !! n.
Proof.
  intros Ht Hn. unfold retain_enabled_services, table_of. cbn [se_services se_config client_services with_client_services].
  assert (Hf : service_table (filter (λ v, service_name v ∈ ct_name <$> filter (λ t, ct_state t = Enabled) tunnels)
            (client_services (se_config s))) !! n = se_services s !! n).
  { rewrite Ht. unfold table_of. exact (service_table_filter (enabled_in tunnels) _ n Hn). }
  case_bool_decide as Hl; [|done]. split; [|done]. rewrite Ht. unfold table_of. by rewrite filter_full.
Qed.

Lemma retain_settled s tunnels :
  se_services s = table_of (se_config s) →
  let s' := retain_enabled_services s tunnels in se_services s' = table_of (se_config s').
Proof.
  intros Ht. unfold retain_enabled_services, table_of. cbn [se_services se_config client_services with_client_services].
  case_bool_decide as Hl; [|done]. rewrite Ht. unfold table_of. by rewrite filter_full.
Qed.

Lemma retain_undisturbed s tunnels :
  Forall (λ v, service_name v ∈ ct_name <$> filter (λ t, ct_state t = Enabled) tunnels) (client_services (se_config s)) →
  retain_enabled_services s tunnels = s.
Proof.
  intros Hf. unfold retain_enabled_services. rewrite filter_all by done.
  rewrite bool_decide_true by done. destruct s as [[k sv l] t p n b]. done.
Qed.

Lemma agree_client l ev acts s :
  agrees l → (∀ m, ev ≠ CMessage m) → client_turn io device managed (l_client l) ev = Some (acts, s, None) →
  agrees {| l_client := s; l_to_server := l_to_server l ++ sent acts; l_to_client := l_to_client l; l_runtime := l_runtime l |}.
Proof.
  intros [Hi Ha] Hm Ht. split; [done|]. cbn [l_client].
  destruct (client_turn_sent _ _ _ _ Hm Ht) as [(Hs & Hc & Hv & Hp)|(Hp & p & Hp' & Hs & Hv & Hc)].
  - unfold settled, requested, answered in *. cbn. rewrite Hs, app_nil_r, Hc, Hv, Hp. done.
  - rewrite Hp in Ha. rewrite Hp'. destruct Ha as (Hq & Hsn & _ & _). split; [done|]. left. split; [|done]. cbn. by rewrite Hq, Hs.
Qed.

Lemma agree_receive l m q acts s :
  agrees l → l_to_client l = m :: q → undisturbed managed (l_client l) m →
  client_turn io device managed (l_client l) (CMessage m) = Some (acts, s, None) →
  agrees {| l_client := s; l_to_server := l_to_server l ++ sent acts; l_to_client := q; l_runtime := l_runtime l |}.
Proof.
  intros [Hi Ha] Hq Hu Ht. split; [done|]. cbn [client_turn] in Ht. injection Ht as Ht. cbn [l_client].
  destruct (se_pending (l_client l)) as [p|] eqn:Hp.
  - destruct Ha as [Hv Ha]. destruct m as [tunnels|id tunnels]; cbn [on_message] in Ht.
    + assert (Hs : (if managed then retain_enabled_services (l_client l) tunnels else l_client l) = l_client l).
      { destruct managed eqn:Em; [|done]. apply retain_undisturbed. apply Hu; [done|]. by rewrite Hp. }
      rewrite Hs in Ht. injection Ht as <- <-. rewrite Hp. split; [done|]. cbn [sent omap list_omap]. rewrite app_nil_r.
      destruct Ha as [[Hr Hsn]|(Hr & before & ts & after & Hm & Hb & Haf & Hn)].
      * left. split; [done|]. cbn. rewrite Hq in Hsn. by inversion Hsn.
      * right. split; [done|]. rewrite Hq in Hm. destruct before as [|m0 before]; [done|]. injection Hm as <- ->.
        exists before, ts, after. inversion Hb; subst. done.
    + destruct Ha as [[Hr Hsn]|(Hr & before & ts & after & Hm & Hb & Haf & Hn)].
      { rewrite Hq in Hsn. by inversion Hsn. }
      rewrite Hq in Hm. destruct before as [|m0 before]; [|injection Hm as <- _; by inversion Hb].
      injection Hm as -> -> ->. rewrite Hp in Ht. rewrite N.eqb_refl in Ht. cbn [negb] in Ht. injection Ht as <- <-.
      assert (Hsent : sent (online device (if managed then retain_enabled_services (set_config (with_pending (l_client l) None) (up_updated p)) ts
          else set_config (with_pending (l_client l) None) (up_updated p)) ts ::
          match up_response p with Some r => [Answer r (Ok ts)] | None => [] end) = []) by (by destruct (up_response p)).
      rewrite Hsent, app_nil_r. set (s0 := set_config (with_pending (l_client l) None) (up_updated p)) in *.
      assert (Hs0 : se_services s0 = table_of (se_config s0)) by exact Hv.
      assert (Hpend : se_pending (if managed then retain_enabled_services s0 ts else s0) = None) by (by destruct managed).
      rewrite Hpend. split; [done|]. split; [done|]. cbn [l_client l_runtime l_to_client]. split.
      { destruct managed; [by apply retain_settled|done]. }
      intros n Hown. destruct (Hn n Hown) as (Hsv & Hen & Hk). split; [|done].
      destruct managed; [|unfold served in *; change (se_services s0) with (se_services (l_client l)); by rewrite Hv].
      destruct (retain_table s0 ts n Hs0 (Hen eq_refl)) as [_ Hl]. unfold served in *. rewrite Hl, Hs0. exact Hsv.
  - destruct Ha as (Hr & Hsn & Hv & Hn). rewrite Hq in Hsn. inversion Hsn as [|? ? Hm Hsn']; subst.
    destruct m as [tunnels|id tunnels]; [|done]. cbn [on_message] in Ht. injection Ht as <- <-.
    set (s := if managed then retain_enabled_services (l_client l) tunnels else l_client l).
    assert (Hpend : se_pending s = None) by (subst s; by destruct managed). rewrite Hpend. unfold settled. cbn.
    rewrite app_nil_r. split; [done|]. split; [done|]. split; [subst s; destruct managed; [by apply retain_settled|done]|].
    intros n Hown. destruct (Hn n Hown) as [Hsv Hk]. rewrite Hq in Hk. inversion Hk as [|? ? Hk1 Hk2]; subst. split; [|done].
    subst s. destruct managed eqn:Em; [|done].
    destruct (retain_table (l_client l) tunnels n Hv) as [_ Hl]; [by apply Hk1|]. unfold served in *. by rewrite Hl.
Qed.

Lemma agree_serve l id decls q frames rt :
  agrees l → l_to_server l = UpdateServices id decls :: q →
  session_turn sid (l_runtime l) (EvRequest id decls IoOk) = (frames, rt, None) →
  agrees {| l_client := l_client l; l_to_server := q; l_to_client := l_to_client l ++ frames; l_runtime := rt |}.
Proof.
  intros [Hi Ha] Hq Ht. cbn [session_turn] in Ht. destruct (validate_declarations decls); [|done].
  destruct (update_services (l_runtime l) sid decls) as [[u|] rt'] eqn:Hu; [|done]. cbn [send_frame] in Ht.
  injection Ht as <- <-. assert (Hi' : runtime_inv rt') by (by eapply update_services_inv). split; [done|]. cbn [l_client].
  destruct (se_pending (l_client l)) as [p|]; [|destruct Ha as (Hr & _); by rewrite Hr in Hq].
  destruct Ha as [Hv [[Hr Hsn]|(Hr & _)]]; [|by rewrite Hr in Hq]. split; [done|]. right.
  rewrite Hr in Hq. injection Hq as <- <- <-. split; [done|].
  exists (l_to_client l), (catalog rt' sid), []. split; [done|]. split; [done|]. split; [done|].
  intros n Hown. split_and!; [|intros _; apply owned_enabled; [apply Hi'|done]|done].
  destruct (update_sessions _ _ _ _ _ Hu) as (s & Hs & Hs').
  destruct (update_owners _ _ _ _ _ (proj1 Hi) Hu) as (_ & _ & Ho). apply Ho in Hown as (s0 & spec & Hs0 & _ & He & _).
  rewrite Hs in Hs0. injection Hs0 as <-. apply eligible_true in He as [_ He]. cbn [services with_services] in He.
  unfold served, declared. cbn [l_runtime]. rewrite Hs', lookup_insert_eq. cbn [mbind option_bind services with_services].
  rewrite He. rewrite service_map_declarations in He. unfold table_of.
  destruct (service_table (client_services (up_updated p)) !! n) as [v|]; [|done]. exists v. split; [done|].
  by injection He as <-.
Qed.
Lemma agree_notice l frames rt :
  agrees l → session_turn sid (l_runtime l) (EvChanged IoOk) = (frames, rt, None) →
  agrees {| l_client := l_client l; l_to_server := l_to_server l; l_to_client := l_to_client l ++ frames; l_runtime := rt |}.
Proof.
  intros [Hi Ha] [= <- <-]. split; [done|]. cbn [l_client].
  assert (Hk : ∀ n, owned_by (l_runtime l) sid n → keeps n (TunnelSnapshot (catalog (l_runtime l) sid))).
  { intros n Hn _. apply owned_enabled; [apply Hi|done]. }
  destruct (se_pending (l_client l)) as [p|].
  - destruct Ha as [Hv [[Hr Hsn]|(Hr & before & ts & after & Hm & Hb & Haf & Hn)]]; (split; [done|]).
    + left. split; [done|]. cbn. apply Forall_app. split; [done|]. by constructor.
    + right. split; [done|]. cbn. exists before, ts, (after ++ [TunnelSnapshot (catalog (l_runtime l) sid)]).
      split; [by rewrite Hm, <- (assoc_L (++))|]. split; [done|]. split; [apply Forall_app; split; [done|by constructor]|].
      intros n Hown. destruct (Hn n Hown) as (? & ? & ?). split_and!; [done|done|]. apply Forall_app. split; [done|].
      constructor; [by apply Hk|done].
  - destruct Ha as (Hr & Hsn & Hv & Hn). split; [done|]. split; [apply Forall_app; split; [done|by constructor]|]. split; [done|].
    intros n Hown. destruct (Hn n Hown) as [? ?]. split; [done|]. apply Forall_app. split; [done|]. constructor; [by apply Hk|done].
Qed.

Lemma served_shrinks table rt rt' n :
  shrinks sid rt rt' → owned_by rt' sid n → served table rt n → served table rt' n.
Proof. intros Hs Hn (v & Hv & Hd). destruct (Hs n Hn) as [_ Hd']. exists v. by rewrite Hd'. Qed.

Lemma agree_foreign l rt :
  agrees l → foreign_step sha256 sid (l_runtime l) rt →
  agrees {| l_client := l_client l; l_to_server := l_to_server l; l_to_client := l_to_client l; l_runtime := rt |}.
Proof.
  intros [Hi Ha] Hf. assert (Hs := foreign_shrinks sha256 sid _ _ Hi Hf). split; [by eapply foreign_inv|]. cbn [l_client].
  destruct (se_pending (l_client l)) as [p|].
  - destruct Ha as [Hv [Hr|(Hr & before & ts & after & Hm & Hb & Haf & Hn)]]; (split; [done|]); [by left|right].
    split; [done|]. exists before, ts, after. do 3 (split; [done|]). intros n Hown.
    destruct (Hn n) as (? & ? & ?); [by apply Hs|]. split_and!; [by eapply served_shrinks|done..].
  - destruct Ha as (Hr & Hsn & Hv & Hn). do 3 (split; [done|]). intros n Hown.
    destruct (Hn n) as (? & ?); [by apply Hs|]. split; [by eapply served_shrinks|done].
Qed.

Lemma agree_step l l' :
  agrees l → link_step sha256 io device managed sid (undisturbed managed) l l' → agrees l'.
Proof.
  intros Ha Hs. destruct Hs.
  - by eapply agree_client.
  - by eapply agree_receive.
  - by eapply agree_serve.
  - by eapply agree_notice.
  - by eapply agree_foreign.
Qed.

(** A link right after an accepted handshake. *)
Lemma agree_start rt0 groups conn now hello c h group rt :
  runtime_inv rt0 → sessions (state rt0) !! sid = None → client_hello c device = HsAuthenticate hello →
  authenticate sha256 rt0 groups sid conn now hello calm = (AuthAccepted h group, rt) →
  agrees {| l_client := session_start c managed; l_to_server := []; l_to_client := []; l_runtime := rt |}.
Proof.
  intros Hi Hsid [= <-]. unfold authenticate. cbv zeta. cbn [hello_services hello_device_id hello_key others_before calm].
  destruct (if valid_hello _ then _ else _) as [[g d]|]; [|done].
  destruct (register rt0 sid device g d conn (declarations (client_services c)) now) as [[u|[]] rt'] eqn:Er;
    unfold rejected_with, reject_authentication; cbn [reject_written reject_finished calm]; try done.
  cbn [answer_written others_answer others_registered calm]. intros [= _ <- <-]. assert (Hi' : runtime_inv rt') by (by eapply register_inv). split; [done|]. cbn [l_client session_start se_pending].
  split; [done|]. split; [done|]. split; [done|]. intros n (o & Ho & Hos). split; [|done].
  pose proof (proj1 Hi' n o Ho) as Hv. apply valid_owner_true in Hv as (spec & s & _ & Hs & He). rewrite Hos in Hs.
  apply eligible_true in He as [_ He].
  assert (Hser : services s = service_map (declarations (client_services c))).
  { unfold register in Er. destruct (_ <=? _)%nat; [done|]. case_bool_decide; [done|]. destruct (existsb _ _); [done|].
    destruct (claim_available _ _ sid) as [st t] eqn:Ec. injection Er as _ <-. apply claim_available_spec in Ec as (_ & Hst & _).
    cbn in Hs, Hst. rewrite Hst, lookup_insert_eq in Hs. by injection Hs as <-. }
  unfold served, declared. cbn [l_runtime l_client se_services session_start]. rewrite Hs. cbn [mbind option_bind].
  rewrite He. rewrite Hser, service_map_declarations in He.
  destruct (service_table (client_services c) !! n) as [v|]; [|done]. exists v. split; [done|]. by injection He as <-.
Qed.
End agreement.

(** ** Theorems *)

(** C5: from an accepted handshake on, whatever the user, the configuration
    file, the other sessions and the administrator do, and however the frames
    of both directions interleave: when the client waits for no answer, every
    tunnel its session owns on the server is in its table of services with the
    kind of the tunnel, so a stream the server opens for it is never refused as
    unknown.  For a managed client this assumes that no snapshot takes a
    service away while an update is pending. *)
Theorem owned_tunnels_served sha256 io device managed sid rt0 groups conn now hello c h group rt l n spec :
  runtime_inv rt0 → sessions (state rt0) !! sid = None → client_hello c device = HsAuthenticate hello →
  authenticate sha256 rt0 groups sid conn now hello calm = (AuthAccepted h group, rt) →
  rtc (link_step sha256 io device managed sid (undisturbed managed))
      {| l_client := session_start c managed; l_to_server := []; l_to_client := []; l_runtime := rt |} l →
  se_pending (l_client l) = None → owned_by (l_runtime l) sid n → tunnels (state (l_runtime l)) !! n = Some spec →
  ∃ v, se_services (l_client l) !! n = Some v ∧ service_kind v = spec_kind spec ∧
    ∀ d, handle_stream (se_services (l_client l)) (Some (Ok {| open_service := n; open_destination := d |}))
           ≠ RejectStream "服务不存在".
Proof.
  intros Hi Hsid Hh Ha Hr Hp Hn Ht.
  assert (Hag : agrees managed sid l).
  { assert (H0 := agree_start sha256 device managed sid _ _ _ _ _ _ _ _ _ Hi Hsid Hh Ha).
    clear -Hr H0. induction Hr as [|l l1 l2 Hs _ IH]; [done|]. apply IH. by eapply agree_step. }
  destruct Hag as [Hinv Hag]. rewrite Hp in Hag. destruct Hag as (_ & _ & _ & Hall).
  destruct (Hall n Hn) as [(v & Hv & Hd) _]. exists v. split; [done|]. destruct Hn as (o & Ho & Hos).
  pose proof (proj1 Hinv n o Ho) as Hval. apply valid_owner_true in Hval as (spec' & s & Ht' & Hs & He).
  rewrite Ht in Ht'. injection Ht' as <-. apply eligible_true in He as [_ He]. rewrite Hos in Hs.
  unfold declared in Hd. rewrite Hs in Hd. cbn [mbind option_bind] in Hd. split; [congruence|].
  intros d. unfold handle_stream. cbn [open_service]. rewrite Hv.
  destruct (service_kind v); [destruct (service_target v)|destruct (service_target v)|destruct d]; done.
Qed.

(** ** A snapshot during an update *)

Definition web_service : ClientServiceConfig :=
  {| service_name := "web"; service_kind := Tcp; service_target := Some (lit "127.0.0.1:80") |}.
Definition web_client : ClientConfig :=
  {| client_key := "key";
     client_server := {| server_address := "example.org:2333"; server_tls_name := None; ca_certificate := None |};
     client_services := [web_service] |}.
(** The session 1 of [w_online] and its client. *)
Definition web_link : link :=
  {| l_client := session_start web_client true; l_to_server := []; l_to_client := []; l_runtime := w_online |}.

(** The assumption on snapshots is needed: while an update is pending, a
    managed client that learns that one of its tunnels was taken offline
    overwrites the table of the update with the old services; the answer does
    not repair it.  At the end the session owns the tunnel and the client
    shows it enabled, but its table does not have the service, and every
    stream is refused. *)
Theorem snapshot_unserves_tunnel :
  ∃ l, rtc (link_step (λ s, s) (λ _, []) "dev" true 1 (λ _ _, True)) web_link l ∧
    se_pending (l_client l) = None ∧ l_to_server l = [] ∧ l_to_client l = [] ∧
    owned_by (l_runtime l) 1 "web" ∧ client_services (se_config (l_client l)) = [web_service] ∧
    handle_stream (se_services (l_client l)) (Some (Ok {| open_service := "web"; open_destination := None |}))
      = RejectStream "服务不存在".
Proof.
  eexists. split.
  { eapply rtc_l.
    { eapply (ls_client _ _ _ _ _ _ web_link (CCommand (Some ([web_service], 1)) false (Ok tt) None)); [done|reflexivity]. }
    eapply rtc_l; [eapply ls_foreign, (fo_disconnect_tunnel _ _ _ 1 "web"), surjective_pairing|].
    eapply rtc_l; [eapply ls_notice; reflexivity|].
    eapply rtc_l; [eapply ls_receive; [reflexivity|done|reflexivity]|].
    eapply rtc_l; [eapply ls_serve; [reflexivity|vm_compute; reflexivity]|].
    eapply rtc_l; [eapply ls_receive; [reflexivity|done|vm_compute; reflexivity]|].
    apply rtc_refl. }
  cbn [l_client l_to_server l_to_client l_runtime]. split_and!; try (vm_compute; reflexivity).
  eexists. split; vm_compute; reflexivity.
Qed.

(** ** Witness *)

Definition long_key : str := "AAAAAAAAAAAAAAAAAAAAAAAAAAAAAAAA".
Definition keyed_client : ClientConfig :=
  {| client_key := long_key; client_server := client_server web_client; client_services := [web_service] |}.
Definition keyed_hello : ClientHello :=
  {| hello_version := PROTOCOL_VERSION; hello_device_id := "dev"; hello_key := long_key;
     hello_services := declarations [web_service] |}.
Definition keyed_ready : TunnelRuntime :=
  apply_tunnels (apply_credentials (λ s, s) TunnelRuntime_new [(lit "office", long_key)]) [w_tunnel].
Definition handshake : handshake_end * TunnelRuntime :=
  authenticate (λ s, s) keyed_ready [(lit "office", long_key)] 1 w_conn 0 keyed_hello calm.

Lemma keyed_ready_inv : runtime_inv keyed_ready.
Proof.
  apply (runtime_reachable (λ s, s) w_toml). eapply rtc_l; [apply (rs_apply_credentials _ _ _ [(lit "office", long_key)])|].
  eapply rtc_l; [apply (rs_apply_tunnels _ _ _ [w_tunnel])|]. apply rtc_refl.
Qed.

Lemma handshake_accepted : ∃ h g, handshake = (AuthAccepted h g, handshake.2).
Proof.
  assert (E : match handshake.1 with AuthAccepted _ _ => true | _ => false end = true) by (vm_compute; reflexivity).
  destruct handshake as [[| |] rt]; try discriminate E. cbn. eauto.
Qed.

Lemma handshake_owner : owned_by handshake.2 1 "web".
Proof. eexists. split; vm_compute; reflexivity. Qed.

Lemma handshake_tunnel : ∃ spec, tunnels (state handshake.2) !! lit "web" = Some spec.
Proof. eexists. vm_compute. reflexivity. Qed.

Lemma owned_tunnels_served_witness :
  ∃ v, se_services (session_start keyed_client false) !! lit "web" = Some v ∧ service_kind v = Tcp.
Proof.
  destruct handshake_accepted as (h & g & Hacc). destruct handshake_tunnel as [spec Hspec].
  destruct (owned_tunnels_served (λ s, s) (λ _, []) "dev" false 1 keyed_ready [(lit "office", long_key)] w_conn 0 keyed_hello
    keyed_client h g handshake.2
    {| l_client := session_start keyed_client false; l_to_server := []; l_to_client := []; l_runtime := handshake.2 |}
    "web" spec keyed_ready_inv ltac:(vm_compute; reflexivity) eq_refl Hacc (rtc_refl _ _) eq_refl handshake_owner Hspec)
    as (v & Hv & _ & _).
  exists v. split; [exact Hv|]. injection Hv as <-. reflexivity.
Defined.
