(* ===== verification/Watcher.v ===== *)
(** * Watcher: [gaterust-tunnel/src/watcher.rs] and [gaterust-proxy/src/watcher.rs]

    The watchers of configuration files.  A callback of the file system puts a
    token into a channel of capacity one; [changed] takes it out and, in the
    tunnel, waits until the file has been quiet for a while.  The future of
    [changed] is a state that is polled, and dropped when another branch of a
    [select!] is taken first.  Times are in milliseconds. *)

From S2P Require Import Prelude RustStr Paths.

Definition CHANGE_QUIET_PERIOD : N := 50.

(** ** Which events count *)

Inductive EventKind := AnyEvent | Access | Create | Modify | Remove | OtherEvent.
Record Event := { ev_kind : EventKind; ev_paths : list Path }.

(** [ConfigWatcher::new]: the directory that is watched and the name of the
    file. *)
Definition watch_target {E} (missing : E) (path : Path) : result E (Path * str) :=
  let parent := match path_parent path with
                | Some p => if bool_decide (p = []) then [CurDir] else p
                | None => [CurDir]
                end in
  file_name ← ok_or (path_file_name path) missing;
  Ok (parent, file_name).

Definition relevant_kind (k : EventKind) : bool :=
  match k with Create | Modify | Remove => true | _ => false end.

Definition matches_file (file_name : str) (e : Event) : bool :=
  relevant_kind (ev_kind e) &&
  existsb (λ changed, bool_decide (path_file_name changed = Some file_name)) (ev_paths e).

(** ** The channel *)

(** A channel of [()] with room for one; [open]: the callback, which owns the
    sender, is alive. *)
Record channel := { slot : bool; open : bool }.

Definition channel_new : channel := {| slot := false; open := true |}.

(** The callback: an event that the file system reports as an error counts for
    nothing, and a full channel is left as it is. *)
Definition on_event {E} (file_name : str) (e : result E Event) (c : channel) : channel :=
  match e with
  | Ok e => if matches_file file_name e then {| slot := slot c || open c; open := open c |} else c
  | Err _ => c
  end.

(** ** The future of [changed] *)

(** Waiting for a first event, or for the end of the quiet period. *)
Inductive changed := Waiting | Quiet (deadline : N).

Inductive poll := Pending (f : changed) | Ready (r : bool).

(** The loop of the tunnel's watcher in its second phase.  The channel holds at
    most one token, so at most one token is taken per poll. *)
Definition quiet (now : N) (c : channel) (deadline : N) : channel * poll :=
  let '(c, deadline) := if slot c then ({| slot := false; open := open c |}, now + CHANGE_QUIET_PERIOD)
                        else (c, deadline) in
  (c, if negb (open c) || (deadline <=? now) then Ready true else Pending (Quiet deadline)).

Definition poll_changed (now : N) (c : channel) (f : changed) : channel * poll :=
  match f with
  | Quiet deadline => quiet now c deadline
  | Waiting =>
      if slot c then quiet now {| slot := false; open := open c |} (now + CHANGE_QUIET_PERIOD)
      else (c, if open c then Pending Waiting else Ready false)
  end.

(** The proxy's watcher does not wait. *)
Definition proxy_poll_changed (c : channel) : channel * poll :=
  if slot c then ({| slot := false; open := open c |}, Ready true)
  else (c, if open c then Pending Waiting else Ready false).

(** ** A watcher in a loop

    The loops call [changed] again after each report; [Dropped]: another
    branch of the loop's [select!] was taken. *)

Record watcher := { w_channel : channel; w_future : changed }.

Definition watcher_new : watcher := {| w_channel := channel_new; w_future := Waiting |}.

Inductive watch_step := Notified (e : Event) | Polled (now : N) | Dropped | SenderGone.

Section run.
Context (file_name : str).

(** The new state and what [changed] returned. *)
Definition step (quiet_period : bool) (w : watcher) (s : watch_step) : watcher * option bool :=
  match s with
  | Notified e => ({| w_channel := on_event (E := unit) file_name (Ok e) (w_channel w); w_future := w_future w |}, None)
  | Polled now =>
      let '(c, p) := if quiet_period then poll_changed now (w_channel w) (w_future w)
                     else proxy_poll_changed (w_channel w) in
      match p with
      | Pending f => ({| w_channel := c; w_future := f |}, None)
      | Ready r => ({| w_channel := c; w_future := Waiting |}, Some r)
      end
  | Dropped => ({| w_channel := w_channel w; w_future := Waiting |}, None)
  | SenderGone => ({| w_channel := {| slot := slot (w_channel w); open := false |}; w_future := w_future w |}, None)
  end.

Fixpoint run (quiet_period : bool) (w : watcher) (l : list watch_step) : watcher * list bool :=
  match l with
  | [] => (w, [])
  | s :: l =>
      let '(w, r) := step quiet_period w s in
      let '(w, rs) := run quiet_period w l in
      (w, match r with Some b => b :: rs | None => rs end)
  end.

(** ** Lemmas *)

Lemma watch_run_app q w l k :
  run q w (l ++ k) = ((run q (run q w l).1 k).1, (run q w l).2 ++ (run q (run q w l).1 k).2).
Proof.
  revert w. induction l as [|s l IH]; intros w; [cbn; apply surjective_pairing|cbn [run app]].
  destruct (step q w s) as [w1 r]. rewrite IH. destruct (run q w1 l) as [w2 rs]. cbn. by destruct r.
Qed.

Definition is_drop (s : watch_step) : bool := match s with Dropped => true | _ => false end.
Definition is_end (s : watch_step) : bool := match s with SenderGone => true | _ => false end.
Definition noticed (s : watch_step) : bool := match s with Notified e => matches_file file_name e | _ => false end.
(** No poll later than [t]. *)
Definition before (t : N) (s : watch_step) : bool := match s with Polled now => now <=? t | _ => true end.

(** A change is known and not yet reported. *)
Definition owed (q : bool) (w : watcher) : bool :=
  slot (w_channel w) || match w_future w with Quiet _ => q | Waiting => false end.

(** A deadline is at most a quiet period away. *)
Definition bounded (t : N) (w : watcher) : Prop :=
  match w_future w with Quiet d => d <= t + CHANGE_QUIET_PERIOD | Waiting => True end.

Definition b2n (b : bool) : nat := if b then 1 else 0.

(** One step that does not drop the future: what is owed stays owed until it
    is reported, and a report pays for at least one event. *)
Lemma step_owed q w s w' r :
  step q w s = (w', r) → open (w_channel w) = true → is_drop s = false → is_end s = false →
  open (w_channel w') = true ∧ (r = None ∨ r = Some true) ∧
  (r = None → (owed q w = true ∨ noticed s = true) → owed q w' = true) ∧
  (length (option_list r) + b2n (owed q w') <= b2n (owed q w) + b2n (noticed s))%nat.
Proof.
  destruct w as [[sl op] f]. intros E Ho Hd He. cbn in Ho. subst op.
  destruct s; cbn in E, Hd, He |- *; [|clear Hd He|done|done].
  - injection E as <- <-. unfold owed. cbn. destruct (matches_file file_name e), sl, f; cbn; intuition (done || lia).
  - unfold poll_changed, proxy_poll_changed, quiet in E. cbn in E.
    destruct q, sl, f; cbn in E; repeat case_match; simplify_eq; unfold owed; cbn; intuition (done || lia).
Qed.

Lemma watch_step_bounded q w s w' r t :
  step q w s = (w', r) → before t s = true → bounded t w → bounded t w'.
Proof.
  unfold bounded. destruct w as [[sl op] f]. intros E Hb Hw.
  destruct s as [e|now| |]; cbn in E, Hb, Hw; [injection E as <- <-; exact Hw| |injection E as <- <-; done|injection E as <- <-; exact Hw].
  apply N.leb_le in Hb. unfold poll_changed, proxy_poll_changed, quiet in E. cbn in E.
  destruct q, sl, f; cbn in E; repeat case_match; simplify_eq; cbn in *; simplify_eq; try done; unfold CHANGE_QUIET_PERIOD in *; lia.
Qed.

Lemma run_owed q l : ∀ w,
  open (w_channel w) = true → forallb (λ s, negb (is_drop s || is_end s)) l = true →
  open (w_channel (run q w l).1) = true ∧ Forall (eq true) (run q w l).2 ∧
  ((run q w l).2 = [] → owed q w = true ∨ existsb noticed l = true → owed q (run q w l).1 = true) ∧
  (length (run q w l).2 + b2n (owed q (run q w l).1) <= b2n (owed q w) + length (filter noticed l))%nat.
Proof.
  induction l as [|s l IH]; intros w Ho Hl; cbn [run].
  { cbn. split; [done|]. split; [constructor|]. split; [by intros _ [?|?]|lia]. }
  cbn [forallb] in Hl. apply andb_true_iff in Hl as [Hs Hl]. apply negb_true_iff, orb_false_iff in Hs as [Hd He].
  destruct (step q w s) as [w1 r] eqn:E.
  destruct (step_owed _ _ _ _ _ E Ho Hd He) as (Ho1 & Hr & Hkeep & Hn).
  destruct (IH w1 Ho1 Hl) as (Ho2 & Ht & Hk & Hc). destruct (run q w1 l) as [w2 rs]. cbn [fst snd] in *.
  split; [done|]. split; [destruct Hr as [->| ->]; [done|by constructor]|]. split.
  - intros Hrs Hin. destruct r; [done|]. cbn [existsb] in Hin. apply Hk; [done|].
    destruct Hin as [Hin|[Hin|Hin]%orb_true_iff]; [left; by apply Hkeep; [|left]|left; by apply Hkeep; [|right]|by right].
  - rewrite filter_cons. destruct (noticed s) eqn:En; case_decide; try done; cbn in *; destruct r; cbn in *; lia.
Qed.

Lemma watch_run_bounded q t l : ∀ w,
  forallb (before t) l = true → bounded t w → bounded t (run q w l).1.
Proof.
  induction l as [|s l IH]; intros w Hl Hw; [done|]. cbn [forallb] in Hl. apply andb_true_iff in Hl as [Hs Hl].
  cbn [run]. destruct (step q w s) as [w1 r] eqn:E. assert (H1 := watch_step_bounded _ _ _ _ _ _ E Hs Hw).
  specialize (IH w1 Hl H1). by destruct (run q w1 l).
Qed.

(** Without a token nothing happens. *)
Lemma idle_polls times : run true watcher_new (Polled <$> times) = (watcher_new, []).
Proof. induction times as [|t ts IH]; cbn; [done|]. fold channel_new. fold watcher_new. by rewrite IH. Qed.

(** Two polls, a quiet period apart, report what is owed. *)
Lemma two_polls q w t :
  open (w_channel w) = true → owed q w = true → bounded t w →
  (run q w [Polled t; Polled (t + CHANGE_QUIET_PERIOD)]).2 ≠ [].
Proof.
  destruct w as [[sl op] f]. unfold owed, bounded. cbn. intros -> Ho Hb. unfold poll_changed, proxy_poll_changed, quiet. cbn.
  assert (H0 : (t + CHANGE_QUIET_PERIOD <=? t) = false) by (apply N.leb_gt; unfold CHANGE_QUIET_PERIOD; lia).
  assert (H1 : (t + CHANGE_QUIET_PERIOD <=? t + CHANGE_QUIET_PERIOD) = true) by (apply N.leb_le; lia).
  destruct q, sl; cbn in *; try done.
  - destruct f; cbn; rewrite ?H0; cbn; rewrite ?H1; done.
  - destruct f as [|d]; [done|]. destruct (d <=? t); cbn; [done|].
    assert (Hd : (d <=? t + CHANGE_QUIET_PERIOD) = true) by (by apply N.leb_le). by rewrite Hd.
  - by destruct f.
Qed.
End run.

(** ** Theorems *)

Section theorems.
Context (file_name : str).

(** A change of the file is reported, at the latest a quiet period after it
    was noticed, as long as no future of [changed] is dropped; several changes
    may share a report, and there are never more reports than changes.  [q]:
    the tunnel's watcher or the proxy's. *)
Theorem changes_reported q l e k t :
  forallb (λ s, negb (is_drop s || is_end s)) (l ++ Notified e :: k) = true →
  forallb (before t) (l ++ Notified e :: k) = true → matches_file file_name e = true →
  (∃ r, (run file_name q (run file_name q watcher_new l).1 (Notified e :: k ++ [Polled t; Polled (t + CHANGE_QUIET_PERIOD)])).2
        = true :: r) ∧
  (length (run file_name q watcher_new (l ++ Notified e :: k)).2 <= length (filter (noticed file_name) (l ++ Notified e :: k)))%nat.
Proof.
  intros Hd Hb He. destruct (run_owed file_name q _ watcher_new eq_refl Hd) as (_ & _ & _ & Hc).
  split; [|cbn [watcher_new owed slot w_channel channel_new w_future orb b2n] in Hc; lia].
  rewrite forallb_app in Hd, Hb. apply andb_true_iff in Hd as [Hd1 Hd2], Hb as [Hb1 Hb2].
  destruct (run_owed file_name q l watcher_new eq_refl Hd1) as (Ho & _).
  assert (Hbd : bounded t (run file_name q watcher_new l).1) by (by apply watch_run_bounded).
  set (w := (run file_name q watcher_new l).1) in *.
  destruct (run_owed file_name q (Notified e :: k) w Ho Hd2) as (Ho1 & Ht & Hk & _).
  assert (Hbd1 := watch_run_bounded file_name q t _ w Hb2 Hbd).
  rewrite app_comm_cons, watch_run_app. cbn [snd].
  destruct (run file_name q w (Notified e :: k)).2 as [|b rs] eqn:Er; [|apply Forall_cons in Ht as [<- _]; eauto].
  assert (Hw : owed q (run file_name q w (Notified e :: k)).1 = true) by (apply Hk; [done|right; cbn [existsb noticed]; by rewrite He]).
  assert (H2 := two_polls file_name q _ t Ho1 Hw Hbd1).
  destruct (run_owed file_name q [Polled t; Polled (t + CHANGE_QUIET_PERIOD)] _ Ho1 eq_refl) as (_ & Ht2 & _).
  destruct (run file_name q _ [_; _]).2 as [|b rs]; [done|]. apply Forall_cons in Ht2 as [<- _]. eauto.
Qed.

(** The proxy's watcher loses nothing when its future is dropped: a dropped
    future is no step at all. *)
Lemma proxy_drop_harmless w : w_future w = Waiting → step file_name false w Dropped = (w, None).
Proof. destruct w as [c f]. by intros [= ->]. Qed.

(** The tunnel's watcher takes the token out of the channel before the quiet
    period: when another branch of the loop is taken within it (the client
    accepts a stream, say), the change is never reported, however often the
    watcher is asked again. *)
Theorem cancelled_watch_loses_change e :
  matches_file file_name e = true →
  (run file_name true watcher_new [Notified e; Polled 0; Polled CHANGE_QUIET_PERIOD]).2 = [true] ∧
  ∀ times, (run file_name true watcher_new (Notified e :: Polled 0 :: Dropped :: (Polled <$> times))).2 = [].
Proof.
  intros He. split; [by cbn; rewrite He|]. intros times.
  cbn [run step watcher_new w_channel w_future on_event]. rewrite He. cbn [slot open orb channel_new].
  change (poll_changed 0 _ Waiting) with (channel_new, Pending (Quiet CHANGE_QUIET_PERIOD)).
  cbn [w_channel]. fold watcher_new. by rewrite idle_polls.
Qed.
End theorems.

(** ** Witnesses *)

Definition toml_path : Path := [RootDir; Normal "etc"; Normal "client.toml"].
Definition toml_written : Event := {| ev_kind := Modify; ev_paths := [toml_path] |}.

Lemma changes_reported_witness :
  watch_target tt toml_path = Ok ([RootDir; Normal "etc"], lit "client.toml") ∧
  ∃ r, (run "client.toml" true watcher_new [Notified toml_written; Polled 3; Polled (3 + CHANGE_QUIET_PERIOD)]).2 = true :: r.
Proof.
  split; [reflexivity|].
  exact (proj1 (changes_reported "client.toml" true [] toml_written [] 3 eq_refl eq_refl eq_refl)).
Defined.

Lemma cancelled_watch_loses_change_witness :
  (run "client.toml" true watcher_new [Notified toml_written; Polled 0; Dropped; Polled 50; Polled 1000]).2 = [].
Proof. exact (proj2 (cancelled_watch_loses_change "client.toml" toml_written eq_refl) [50; 1000]). Defined.
