(* ===== verification/ClientLoop.v ===== *)
(** * ClientLoop: the outer loop of [gaterust-tunnel/src/client.rs]

    [run_client_loop]: waiting for a configuration, connecting, running a
    session ([ClientSession]) and what follows its end: a new attempt after a
    growing delay, a new identifier, or the end of the client.  Also the reload
    of a configuration that is being replaced, and [ClientController] of
    [client_control.rs].  What the environment does in one round of the loop is
    a record. *)

From S2P Require Import Prelude RustStr Net Paths TunnelConfig ConfigFiles Identity Protocol TunnelRuntime ServerSession ClientSession.

(** ** Reloading a configuration after a change *)

Definition CONFIG_RELOAD_GRACE : N := 100.
Definition CONFIG_RELOAD_RETRY_DELAY : N := 10.

Section reload.
(** What a load at a time (in milliseconds) finds, and how much longer than
    asked the sleep that starts at a time lasts. *)
Context (file : N → Result ClientConfig) (lag : N → N).

Fixpoint load_until (fuel : nat) (deadline now : N) : option (Result ClientConfig) :=
  match fuel with
  | O => None
  | S fuel =>
      match file now with
      | Ok c => Some (Ok c)
      | Err e => if now <? deadline then load_until fuel deadline (now + CONFIG_RELOAD_RETRY_DELAY + lag now)
                 else Some (Err e)
      end
  end.

Definition load_client_config_after_change (now : N) : option (Result ClientConfig) :=
  load_until 11 (now + CONFIG_RELOAD_GRACE) now.
End reload.

(** ** Commands *)

(** [ClientController::update_services]: what becomes of the request. *)
Inductive command_outcome :=
  | CommandTimedOut
  | QueueClosed
  | ResponseDropped
  | CommandAnswered (r : result str (list ClientTunnel)).

(** The command that is queued, if any, and the result. *)
Definition update_services (services : list ClientServiceConfig) (o : command_outcome)
  : option (list ClientServiceConfig) * Result (list ClientTunnel) :=
  match validate_client_services services with
  | Err e => (None, Err e)
  | Ok _ =>
      (Some services,
       match o with
       | CommandTimedOut => Err (Timeout "等待客户端应用服务配置")
       | QueueClosed => Err (Protocol "客户端控制任务已停止")
       | ResponseDropped => Err (Protocol "客户端控制请求未完成")
       | CommandAnswered r => map_err Protocol r
       end)
  end.

(** ** One attempt *)

Inductive ConnectionStep (T : Type) :=
  | Completed (x : T)
  | StepReconfigure (c : ClientConfig)
  | StepUnconfigured
  | StepShutdown
  | WatcherClosed.
Arguments Completed {_} _.
Arguments StepReconfigure {_} _.
Arguments StepUnconfigured {_}.
Arguments StepShutdown {_}.
Arguments WatcherClosed {_}.

(** The branch that is ready first. *)
Inductive ready (T : Type) :=
  | RDone (x : T)
  | RShutdown
  | RChanged (changed : bool) (loaded : Result ClientConfig).
Arguments RDone {_} _.
Arguments RShutdown {_}.
Arguments RChanged {_} _ _.

Definition wait_for_connection_step {T} (r : ready T) : ConnectionStep T :=
  match r with
  | RDone x => Completed x
  | RShutdown => StepShutdown
  | RChanged false _ => WatcherClosed
  | RChanged true (Ok updated) => StepReconfigure updated
  | RChanged true (Err _) => StepUnconfigured
  end.

Definition config_watcher_closed : ConnectionEnd := Disconnected (Protocol "配置监听器已关闭").

Inductive output :=
  | OStatus (s : ClientStatus)
  | OClose (c : ApplicationCloseCode)
  | OSession (a : action).

(** What ends the wait after a disconnection. *)
Inductive wait := WaitShutdown | Slept | WaitChanged (changed : bool) (loaded : Result ClientConfig).
(** One turn of [wait_for_initial_config]: what it loads, and what wakes it. *)
Inductive wake := WokenShutdown | WokenChanged (changed : bool).

Record round := {
  rd_cancelled : bool;
  rd_connect : ready (Result unit);
  rd_auth : ready (Result AuthenticationResult);
  rd_events : list client_event;
  rd_wait : wait;
  rd_polls : list (Result ClientConfig * wake);
  rd_conflict : faults * fs * N }.

Section client.
Context {AW : AtomicWriteFile} (io : ErrorKind → str) (managed : bool).

(** [None]: the session goes on.  The configuration is the one the session may
    have changed. *)
Definition connect_and_run (c : ClientConfig) (device_id : str) (r : round)
  : list output * ClientConfig * option ConnectionEnd :=
  match wait_for_connection_step (rd_connect r) with
  | Completed (Ok _) =>
      match wait_for_connection_step (rd_auth r) with
      | Completed (Ok (ClientAccepted tunnels)) =>
          let '(acts, s, e) := run_connected io device_id managed (session_start c managed) (rd_events r) in
          (OStatus (Online (server_address (client_server c)) device_id tunnels)
             :: (OSession <$> acts) ++ match e with Some e => [OClose (end_code e)] | None => [] end,
           se_config s, e)
      | Completed (Ok ClientDeviceIdConflict) => ([OClose ClientShutdown], c, Some EndDeviceIdConflict)
      | Completed (Err error) => ([OClose ClientConnectionError], c, Some (Disconnected error))
      | StepReconfigure updated =>
          ([OClose ClientReconfigure], c, Some (Reconfigure (reconcile_config_update c updated managed)))
      | StepUnconfigured => ([OClose ClientReconfigure], c, Some EndUnconfigured)
      | StepShutdown => ([OClose ClientShutdown], c, Some Shutdown)
      | WatcherClosed => ([OClose ClientConnectionError], c, Some config_watcher_closed)
      end
  | Completed (Err error) => ([], c, Some (Disconnected error))
  | StepReconfigure updated => ([], c, Some (Reconfigure (reconcile_config_update c updated managed)))
  | StepUnconfigured => ([], c, Some EndUnconfigured)
  | StepShutdown => ([], c, Some Shutdown)
  | WatcherClosed => ([], c, Some config_watcher_closed)
  end.

(** ** Waiting for a configuration *)

(** [None]: still waiting; [Some None]: the client stops. *)
Fixpoint wait_for_initial_config (polls : list (Result ClientConfig * wake))
  : list output * option (option ClientConfig) :=
  match polls with
  | [] => ([], None)
  | (Ok c, _) :: _ => ([], Some (Some c))
  | (Err error, w) :: polls =>
      let status := OStatus (Unconfigured (fmt_error io error)) in
      match w with
      | WokenShutdown | WokenChanged false => ([status], Some None)
      | WokenChanged true => let '(out, r) := wait_for_initial_config polls in (status :: out, r)
      end
  end.

(** ** The loop *)

Record loop_state := {
  lo_config : ClientConfig;
  lo_identity : DeviceIdentity;
  lo_retry : N }.

Inductive loop_end := LoopStopped (reason : option str) | LoopFailed (e : TunnelError) | LoopPanicked.
(** [Blocked]: the rounds given do not tell how the current one ends. *)
Inductive flow := Go (st : loop_state) | Blocked | End (e : loop_end).

Definition ADMINISTRATOR : str := "客户端已被管理员下线".

(** The client has no configuration any more. *)
Definition unconfigured (c : ClientConfig) (d : DeviceIdentity) (out : list output) (r : round) : list output * flow :=
  let '(more, got) := wait_for_initial_config (rd_polls r) in
  (out ++ more,
   match got with
   | None => Blocked
   | Some None => End (LoopStopped None)
   | Some (Some updated) =>
       Go {| lo_config := reconcile_config_update c updated managed; lo_identity := d; lo_retry := 1 |}
   end).

Definition run_round (st : loop_state) (r : round) : list output * flow :=
  if rd_cancelled r then ([], End (LoopStopped None)) else
  let d := lo_identity st in
  let '(out, c, e) := connect_and_run (lo_config st) (id d) r in
  let out := OStatus (Connecting (server_address (client_server (lo_config st)))) :: out in
  match e with
  | None => (out, Blocked)
  | Some (Reconfigure updated) => (out, Go {| lo_config := updated; lo_identity := d; lo_retry := 1 |})
  | Some (Disconnected error) =>
      let out := out ++ [OStatus (Reconnecting (fmt_error io error) (lo_retry st))] in
      let retry := N.min (lo_retry st * 2) 30 in
      match rd_wait r with
      | WaitShutdown | WaitChanged false _ => (out, End (LoopStopped None))
      | Slept => (out, Go {| lo_config := c; lo_identity := d; lo_retry := retry |})
      | WaitChanged true (Ok updated) =>
          (out, Go {| lo_config := reconcile_config_update c updated managed; lo_identity := d; lo_retry := retry |})
      | WaitChanged true (Err _) => unconfigured c d out r
      end
  | Some EndUnconfigured => unconfigured c d out r
  | Some EndDeviceIdConflict =>
      let '(fl, m, suffix) := rd_conflict r in
      match resolve_conflict fl m d suffix with
      | None => (out, End LoopPanicked)
      | Some (Err error, _) => (out, End (LoopFailed error))
      | Some (Ok _, d) => (out, Go {| lo_config := c; lo_identity := d; lo_retry := 1 |})
      end
  | Some AdministratorDisconnected => (out, End (LoopStopped (Some ADMINISTRATOR)))
  | Some Shutdown => (out, End (LoopStopped None))
  end.

Fixpoint run_rounds (st : loop_state) (rounds : list round) : list output * flow :=
  match rounds with
  | [] => ([], Go st)
  | r :: rounds =>
      match run_round st r with
      | (out, Go st) => let '(more, f) := run_rounds st rounds in (out ++ more, f)
      | (out, f) => (out, f)
      end
  end.

(** The last status of a client that stops. *)
Definition stopped (p : list output * flow) : list output * flow :=
  match p with
  | (out, End (LoopStopped reason)) => (out ++ [OStatus (Stopped reason)], End (LoopStopped reason))
  | p => p
  end.

Definition run_client_loop (watcher : Result unit) (polls : list (Result ClientConfig * wake))
  (identity : Result DeviceIdentity) (rounds : list round) : list output * flow :=
  match watcher with
  | Err e => ([], End (LoopFailed e))
  | Ok _ =>
      let '(out, got) := wait_for_initial_config polls in
      match got, identity with
      | Some (Some config), Ok identity =>
          let config := if managed then with_client_services config [] else config in
          let '(more, f) := stopped (run_rounds {| lo_config := config; lo_identity := identity; lo_retry := 1 |} rounds) in
          (out ++ more, f)
      | Some (Some _), Err e => (out, End (LoopFailed e))
      | Some None, _ => stopped (out, End (LoopStopped None))
      | None, _ => (out, Blocked)
      end
  end.
End client.

(** ** The services of the file in managed mode *)

Section erasure.
Context {AW : AtomicWriteFile} (io : ErrorKind → str).

Definition erase (l : Result ClientConfig) : Result ClientConfig := (λ c, with_client_services c []) <$> l.
Definition erase_ready {T} (r : ready T) : ready T :=
  match r with RChanged b l => RChanged b (erase l) | r => r end.
Definition erase_event (ev : client_event) : client_event :=
  match ev with CWatch b l w cr => CWatch b (erase l) w cr | ev => ev end.
Definition erase_wait (w : wait) : wait := match w with WaitChanged b l => WaitChanged b (erase l) | w => w end.
Definition erase_polls (l : list (Result ClientConfig * wake)) := prod_map erase (λ w, w) <$> l.
Definition erase_round (r : round) : round :=
  {| rd_cancelled := rd_cancelled r; rd_connect := erase_ready (rd_connect r); rd_auth := erase_ready (rd_auth r);
     rd_events := erase_event <$> rd_events r; rd_wait := erase_wait (rd_wait r);
     rd_polls := erase_polls (rd_polls r); rd_conflict := rd_conflict r |}.

Lemma reconcile_erased c u :
  reconcile_config_update c (with_client_services u []) true = reconcile_config_update c u true.
Proof. done. Qed.

Lemma turn_erased device s ev :
  client_turn io device true s (erase_event ev) = client_turn io device true s ev.
Proof. by destruct ev as [| | | | |b [l|l]| | |]. Qed.

Lemma session_erased device evs : ∀ s,
  run_connected io device true s (erase_event <$> evs) = run_connected io device true s evs.
Proof.
  induction evs as [|ev evs IH]; intros s; [done|]. cbn [fmap list_fmap run_connected]. rewrite turn_erased.
  destruct (client_turn io device true s ev) as [[[acts s'] [e|]]|]; [done|by rewrite IH|apply IH].
Qed.

Lemma wait_erased polls :
  wait_for_initial_config io (erase_polls polls) =
    ((wait_for_initial_config io polls).1, fmap (M := option) (fmap (M := option) (λ c, with_client_services c [])) (wait_for_initial_config io polls).2).
Proof.
  induction polls as [|[[c|e] w] polls IH]; [done|done|].
  cbn [erase_polls fmap list_fmap prod_map fst snd erase result_fmap wait_for_initial_config].
  destruct w as [|[]]; [done| |done]. fold (erase_polls polls). rewrite IH.
  by destruct (wait_for_initial_config io polls).
Qed.

Lemma connect_erased c device r :
  connect_and_run io true c device (erase_round r) = connect_and_run io true c device r.
Proof.
  unfold connect_and_run. cbn [erase_round rd_connect rd_auth rd_events].
  destruct (rd_connect r) as [[|]| |[] [|]]; cbn [erase_ready wait_for_connection_step erase fmap result_fmap]; try done.
  destruct (rd_auth r) as [[[|]|]| |[] [|]]; cbn [erase_ready wait_for_connection_step erase fmap result_fmap]; try done.
  by rewrite session_erased.
Qed.

Lemma unconfigured_erased c d out r :
  unconfigured io true c d out (erase_round r) = unconfigured io true c d out r.
Proof.
  unfold unconfigured. cbn [erase_round rd_polls]. rewrite wait_erased.
  by destruct (wait_for_initial_config io (rd_polls r)) as [more [[|]|]].
Qed.

Lemma round_erased st r : run_round io true st (erase_round r) = run_round io true st r.
Proof.
  unfold run_round. rewrite connect_erased. cbn [erase_round rd_cancelled rd_wait rd_conflict].
  destruct (rd_cancelled r); [done|]. destruct (connect_and_run io true _ _ r) as [[out c] [[]|]]; try done.
  - apply unconfigured_erased.
  - destruct (rd_wait r) as [| |[] [u|e']]; cbn [erase_wait erase fmap result_fmap]; try done. apply unconfigured_erased.
Qed.

Lemma rounds_erased rounds : ∀ st, run_rounds io true st (erase_round <$> rounds) = run_rounds io true st rounds.
Proof.
  induction rounds as [|r rounds IH]; intros st; [done|]. cbn [fmap list_fmap run_rounds]. rewrite round_erased.
  destruct (run_round io true st r) as [out [st'| |e]]; [|done|done]. by rewrite IH.
Qed.
End erasure.

(** ** Lemmas on the reload, the delays and the ends *)

Lemma load_until_spec file lag deadline fuel : ∀ now,
  deadline <= now + CONFIG_RELOAD_RETRY_DELAY * N.of_nat fuel →
  ∃ t, now <= t ∧ load_until file lag (S fuel) deadline now = Some (file t) ∧
       (is_ok (file t) = false → deadline <= t).
Proof.
  unfold CONFIG_RELOAD_RETRY_DELAY. induction fuel as [|fuel IH]; intros now Hf; cbn [load_until].
  - exists now. split; [lia|]. destruct (file now) as [c|e]; [done|].
    replace (now <? deadline) with false by (symmetry; apply N.ltb_ge; lia). split; [done|lia].
  - destruct (file now) as [c|e] eqn:E; [exists now; rewrite E; split; [lia|done]|].
    destruct (now <? deadline) eqn:Ed; [|apply N.ltb_ge in Ed; exists now; rewrite E; split; [lia|done]].
    destruct (IH (now + CONFIG_RELOAD_RETRY_DELAY + lag now)) as (t & Ht & El & Hd); [unfold CONFIG_RELOAD_RETRY_DELAY; lia|].
    exists t. split; [lia|]. split; [exact El|done].
Qed.

Definition announced (out : list output) : list N :=
  omap (λ o, match o with OStatus (Reconnecting _ n) => Some n | _ => None end) out.
Definition attempts (out : list output) : nat :=
  length (omap (λ o, match o with OStatus (Connecting a) => Some a | _ => None end) out).

(** The output of one attempt. *)
Definition one_attempt (o : list output) : Prop := ∃ a rest, o = OStatus (Connecting a) :: rest ∧ attempts rest = 0%nat.

(** After a lost connection the client waits out its delay, or a new
    configuration is there during the wait: it is still counting losses. *)
Definition keeps_delay (r : round) : bool :=
  match rd_wait r with Slept | WaitChanged true (Ok _) => true | _ => false end.

(** The delays of a row of attempts: after [lost] losses in a row the delay is
    [2 ^ lost] seconds, at most thirty; an attempt that announces none, or a
    wait in which the configuration is gone, starts the row anew. *)
Fixpoint backed_off (lost : nat) (l : list (round * list output)) : Prop :=
  match l with
  | [] => True
  | (r, o) :: l =>
      match announced o with
      | [] => backed_off 0 l
      | delays => delays = [N.min (2 ^ N.of_nat lost) 30] ∧ backed_off (if keeps_delay r then S lost else 0) l
      end
  end.

Section ends.
Context {AW : AtomicWriteFile} (io : ErrorKind → str) (managed : bool).

Lemma announced_app a b : announced (a ++ b) = announced a ++ announced b.
Proof. apply omap_app. Qed.
Lemma attempts_app a b : attempts (a ++ b) = (attempts a + attempts b)%nat.
Proof. unfold attempts. by rewrite omap_app, length_app. Qed.

Lemma session_outputs (acts : list action) : announced (OSession <$> acts) = [] ∧ attempts (OSession <$> acts) = 0%nat.
Proof. induction acts as [|a acts [IH1 IH2]]; done. Qed.

Lemma connect_outputs c d r out c' e :
  connect_and_run io managed c d r = (out, c', e) → announced out = [] ∧ attempts out = 0%nat.
Proof.
  unfold connect_and_run. destruct (wait_for_connection_step (rd_connect r)) as [[|]| | | |]; try (by intros [= <- _ _]).
  destruct (wait_for_connection_step (rd_auth r)) as [[[]|]| | | |]; try (by intros [= <- _ _]).
  destruct (run_connected _ _ _ _ _) as [[acts s] e']. intros [= <- _ _].
  rewrite app_comm_cons, announced_app, attempts_app. destruct (session_outputs acts) as [H1 H2].
  change (announced (OStatus _ :: ?l)) with (announced l). change (attempts (OStatus (Online _ _ _) :: ?l)) with (attempts l).
  rewrite H1, H2. by destruct e'.
Qed.

Lemma wait_outputs polls out r :
  wait_for_initial_config io polls = (out, r) → announced out = [] ∧ attempts out = 0%nat.
Proof.
  revert out r. induction polls as [|[[c|e] w] polls IH]; intros out r; cbn [wait_for_initial_config]; try (by intros [= <- _]).
  destruct w as [|[]]; try (by intros [= <- _]). destruct (wait_for_initial_config io polls) as [out' r'].
  intros [= <- _]. by destruct (IH out' r' eq_refl).
Qed.

Lemma one_attempt_app o more : one_attempt o → attempts more = 0%nat → one_attempt (o ++ more).
Proof. intros (a & rest & -> & Hr) Hm. exists a, (rest ++ more). by rewrite attempts_app, Hr, Hm. Qed.
Lemma one_attempt_attempts o : one_attempt o → attempts o = 1%nat.
Proof. intros (a & rest & -> & Hr). change (attempts (OStatus (Connecting a) :: rest)) with (S (attempts rest)). by rewrite Hr. Qed.

(** One round: one attempt, at most one announced delay, and the next one. *)
Definition round_spec (st : loop_state) (r : round) (out : list output) (f : flow) : Prop :=
  one_attempt out ∧ (announced out = [] ∨ announced out = [lo_retry st]) ∧
  ∀ st', f = Go st' → lo_retry st' =
    match announced out with [] => 1 | _ => if keeps_delay r then N.min (lo_retry st * 2) 30 else 1 end.

Lemma round_outputs st r out f :
  run_round io managed st r = (out, f) → (out = [] ∧ ∀ st', f ≠ Go st') ∨ round_spec st r out f.
Proof.
  unfold run_round. destruct (rd_cancelled r); [intros [= <- <-]; by left|]. intros E. right. revert E.
  destruct (connect_and_run _ _ _ _ _) as [[out1 c] e] eqn:Ec. destruct (connect_outputs _ _ _ _ _ _ Ec) as [Ha Hc].
  set (o := OStatus (Connecting _) :: out1). assert (Ho : one_attempt o) by (by eexists _, _).
  assert (Ha0 : announced o = []) by done. clearbody o. clear Ec Ha Hc.
  assert (Hun : ∀ o1 out f, one_attempt o1 → (announced o1 = [] ∨ announced o1 = [lo_retry st] ∧ keeps_delay r = false) →
    unconfigured io managed c (lo_identity st) o1 r = (out, f) → round_spec st r out f).
  { clear. intros o1 out f Hc Ha. unfold unconfigured. destruct (wait_for_initial_config io (rd_polls r)) as [more got] eqn:Ew.
    destruct (wait_outputs _ _ _ Ew) as [Hw1 Hw2]. intros [= <- <-]. unfold round_spec. rewrite announced_app, Hw1, app_nil_r.
    split_and!; [by apply one_attempt_app|by destruct Ha as [->|[-> _]]; [left|right]|].
    intros st' E. destruct got as [[u|]|]; [injection E as <-|done|done]. destruct Ha as [->|[-> ->]]; done. }
  assert (Hquiet : ∀ f, (∀ st', f = Go st' → lo_retry st' = 1) → round_spec st r o f).
  { intros f' Hf. unfold round_spec. rewrite Ha0. by split_and!; [|left|]. }
  destruct e as [[u| |err| | |]|].
  - intros [= <- <-]. apply Hquiet. by intros st' [= <-].
  - apply Hun; [done|by left].
  - set (o' := o ++ _). assert (Ha1 : announced o' = [lo_retry st]) by (unfold o'; by rewrite announced_app, Ha0).
    assert (Hc1 : one_attempt o') by (by apply one_attempt_app). clearbody o'.
    assert (Hlost : ∀ f, (∀ st', f = Go st' → lo_retry st' = if keeps_delay r then N.min (lo_retry st * 2) 30 else 1) → round_spec st r o' f).
    { intros f' Hf. unfold round_spec. rewrite Ha1. by split_and!; [|right|]. }
    unfold keeps_delay in Hlost. destruct (rd_wait r) as [| |[] [u|er]] eqn:Ew; intros E; try (injection E as <- <-; apply Hlost; by intros st' [= <-]).
    eapply Hun; [exact Hc1| |exact E]. right. unfold keeps_delay. by rewrite Ew.
  - destruct (rd_conflict r) as [[fl m] suffix]. destruct (resolve_conflict fl m (lo_identity st) suffix) as [[[m'|er] d]|];
      intros [= <- <-]; apply Hquiet; by intros st' [= <-].
  - intros [= <- <-]. by apply Hquiet.
  - intros [= <- <-]. by apply Hquiet.
  - intros [= <- <-]. by apply Hquiet.
Qed.

(** ** Why a client stops *)

Inductive stop_cause (r : round) : loop_end → Prop :=
  | sc_cancelled : rd_cancelled r = true → stop_cause r (LoopStopped None)
  | sc_connect : rd_connect r = RShutdown → stop_cause r (LoopStopped None)
  | sc_auth : rd_auth r = RShutdown → stop_cause r (LoopStopped None)
  | sc_session : CShutdown ∈ rd_events r → stop_cause r (LoopStopped None)
  | sc_wait : rd_wait r = WaitShutdown → stop_cause r (LoopStopped None)
  | sc_watcher l : rd_wait r = WaitChanged false l → stop_cause r (LoopStopped None)
  | sc_poll l w : (l, w) ∈ rd_polls r → w ≠ WokenChanged true → stop_cause r (LoopStopped None)
  | sc_administrator e converted :
      CClosed e converted ∈ rd_events r → is_administrator_disconnect e = true →
      stop_cause r (LoopStopped (Some ADMINISTRATOR))
  | sc_identity fl m suffix d e d' :
      rd_conflict r = (fl, m, suffix) → resolve_conflict fl m d suffix = Some (Err e, d') → stop_cause r (LoopFailed e).

Lemma session_ends device evs : ∀ s acts s' e,
  run_connected io device managed s evs = (acts, s', Some e) →
  match e with
  | Shutdown => CShutdown ∈ evs
  | AdministratorDisconnected => ∃ e' conv, CClosed e' conv ∈ evs ∧ is_administrator_disconnect e' = true
  | EndDeviceIdConflict => False
  | _ => True
  end.
Proof.
  induction evs as [|ev evs IH]; intros s acts s' e; cbn [run_connected]; [done|].
  destruct (client_turn io device managed s ev) as [[[acts1 s1] [e1|]]|] eqn:Et.
  - intros [= <- <- <-]. destruct e1; try done; destruct ev; cbn [client_turn] in Et;
      unfold begin_service_update, on_message in Et; repeat case_match; simplify_eq; try by left.
    eexists _, _. split; [by left|done].
  - destruct (run_connected io device managed s1 evs) as [[acts2 s2] e2] eqn:Er. intros [= <- <- ->].
    specialize (IH _ _ _ _ Er). destruct e; try done; [|by right].
    destruct IH as (e' & conv & Hin & He). exists e', conv. split; [by right|done].
  - intros Er. specialize (IH _ _ _ _ Er). destruct e; try done; [|by right].
    destruct IH as (e' & conv & Hin & He). exists e', conv. split; [by right|done].
Qed.

Lemma connect_ends c d r out c' e :
  connect_and_run io managed c d r = (out, c', Some e) →
  match e with
  | Shutdown => stop_cause r (LoopStopped None)
  | AdministratorDisconnected => stop_cause r (LoopStopped (Some ADMINISTRATOR))
  | _ => True
  end.
Proof.
  unfold connect_and_run. destruct (rd_connect r) as [[|]| |[] [|]] eqn:E1; cbn [wait_for_connection_step];
    try (intros [= _ _ <-]; done || by apply sc_connect).
  destruct (rd_auth r) as [[[|]|]| |[] [|]] eqn:E2; cbn [wait_for_connection_step];
    try (intros [= _ _ <-]; done || by apply sc_auth).
  destruct (run_connected _ _ _ _ _) as [[acts s] e'] eqn:Er. intros [= _ _ ->].
  apply session_ends in Er. destruct e; try done; [|by apply sc_session].
  destruct Er as (e' & conv & Hin & He). by eapply sc_administrator.
Qed.

Lemma wait_ends polls out :
  wait_for_initial_config io polls = (out, Some None) → ∃ l w, (l, w) ∈ polls ∧ w ≠ WokenChanged true.
Proof.
  revert out. induction polls as [|[[c|e] w] polls IH]; intros out; cbn [wait_for_initial_config]; [done|done|].
  destruct w as [|[]]; [intros _; eexists _, _; split; [by left|done]| |intros _; eexists _, _; split; [by left|done]].
  destruct (wait_for_initial_config io polls) as [out' r]. intros [= _ ->].
  destruct (IH _ eq_refl) as (l & w & Hin & Hw). exists l, w. split; [by right|done].
Qed.

Lemma round_ends st r out f :
  valid_id (id (lo_identity st)) → run_round io managed st r = (out, f) →
  match f with
  | Go st' => valid_id (id (lo_identity st'))
  | Blocked => True
  | End e => stop_cause r e
  end.
Proof.
  intros Hv. unfold run_round. destruct (rd_cancelled r) eqn:Eb; [intros [= _ <-]; by apply sc_cancelled|].
  destruct (connect_and_run _ _ _ _ _) as [[out1 c] e] eqn:Ec.
  set (o := OStatus _ :: out1). clearbody o.
  assert (Hun : ∀ o out f, unconfigured io managed c (lo_identity st) o r = (out, f) →
    match f with Go st' => valid_id (id (lo_identity st')) | Blocked => True | End e => stop_cause r e end).
  { clear -Hv. intros o out f. unfold unconfigured. destruct (wait_for_initial_config io (rd_polls r)) as [more got] eqn:Ew.
    intros [= _ <-]. destruct got as [[u|]|]; [done| |done]. apply wait_ends in Ew as (l & w & Hin & Hw). by eapply sc_poll. }
  destruct e as [[u| |err| | |]|].
  - by intros [= _ <-].
  - apply Hun.
  - destruct (rd_wait r) as [| |[] [u|er]] eqn:Ew; intros E; [injection E as _ <-; by apply sc_wait|..].
    1,2: by injection E as _ <-.
    + by eapply Hun.
    + injection E as _ <-. by eapply sc_watcher.
    + injection E as _ <-. by eapply sc_watcher.
  - destruct (rd_conflict r) as [[fl m] suffix] eqn:Ed. destruct (conflict_id_valid _ suffix Hv) as (new & En & Hn & _).
    unfold resolve_conflict. rewrite En. cbn [mbind option_bind].
    destruct (persist fl m _) as [m'|er] eqn:Ep; intros [= _ <-]; [done|].
    eapply (sc_identity _ fl m suffix (lo_identity st)); [done|]. unfold resolve_conflict. rewrite En. cbn [mbind option_bind]. by rewrite Ep.
  - intros [= _ <-]. exact (connect_ends _ _ _ _ _ _ Ec).
  - intros [= _ <-]. exact (connect_ends _ _ _ _ _ _ Ec).
  - by intros [= _ <-].
Qed.

Lemma rounds_ends rounds : ∀ st out f,
  valid_id (id (lo_identity st)) → run_rounds io managed st rounds = (out, f) →
  match f with
  | Go _ => attempts out = length rounds
  | Blocked => True
  | End e => ∃ r, r ∈ rounds ∧ stop_cause r e
  end.
Proof.
  induction rounds as [|r rounds IH]; intros st out f Hv; cbn [run_rounds]; [by intros [= <- <-]|].
  destruct (run_round io managed st r) as [out1 f1] eqn:E1. assert (He := round_ends _ _ _ _ Hv E1).
  assert (Ho := round_outputs _ _ _ _ E1). destruct f1 as [st1| |e1].
  - destruct (run_rounds io managed st1 rounds) as [more f2] eqn:E2. intros [= <- <-].
    specialize (IH _ _ _ He E2). destruct f2 as [st2| |e2]; [|done|].
    + destruct Ho as [[_ Hn]|[Ho _]]; [by destruct (Hn st1)|]. rewrite attempts_app, IH. by rewrite one_attempt_attempts.
    + destruct IH as (r' & Hin & Hc). exists r'. split; [by right|done].
  - by intros [= <- <-].
  - intros [= <- <-]. exists r. split; [by left|done].
Qed.

Lemma rounds_backed_off rounds : ∀ st lost out f,
  lo_retry st = N.min (2 ^ N.of_nat lost) 30 → run_rounds io managed st rounds = (out, f) →
  ∃ outs, out = concat outs ∧ Forall one_attempt outs ∧ backed_off lost (zip rounds outs).
Proof.
  induction rounds as [|r rounds IH]; intros st lost out f Hst; cbn [run_rounds]; [intros [= <- <-]; by exists []|].
  destruct (run_round io managed st r) as [out1 f1] eqn:E1. assert (Ho := round_outputs _ _ _ _ E1).
  assert (Hlast : (∀ st', f1 ≠ Go st') → ∃ outs, out1 = concat outs ∧ Forall one_attempt outs ∧ backed_off lost (zip (r :: rounds) outs)).
  { intros Hn. destruct Ho as [[-> _]|(Ho & Ha & _)]; [by exists []|]. exists [out1]. split_and!; [cbn; by rewrite app_nil_r|by repeat constructor|].
    assert (Hnil : zip rounds ([] : list (list output)) = []) by by destruct rounds.
    cbn [zip zip_with backed_off]. rewrite Hnil. destruct Ha as [->| ->]; [done|]. by rewrite Hst. }
  destruct f1 as [st1| |e1]; [|intros [= <- <-]; by apply Hlast..]. clear Hlast.
  destruct Ho as [[_ Hn]|(Ho & Ha & Hnext)]; [by destruct (Hn st1)|]. specialize (Hnext _ eq_refl).
  destruct (run_rounds io managed st1 rounds) as [more f2] eqn:E2. intros [= <- <-].
  destruct Ha as [Ha|Ha]; rewrite Ha in Hnext.
  - destruct (IH st1 0%nat _ _ Hnext E2) as (outs & -> & Hf & Hb). exists (out1 :: outs).
    split_and!; [done|by constructor|]. cbn [zip zip_with backed_off]. by rewrite Ha.
  - destruct (IH st1 (if keeps_delay r then S lost else 0%nat) more f2) as (outs & -> & Hf & Hb); [|exact E2|].
    { rewrite Hnext. destruct (keeps_delay r); [|done]. rewrite Hst, Nat2N.inj_succ, N.pow_succ_r'. lia. }
    exists (out1 :: outs). split_and!; [done|by constructor|]. cbn [zip zip_with backed_off]. rewrite Ha, Hst. done.
Qed.
End ends.

(** ** Theorems *)

(** The reload after a change always ends, with what the file held at some
    time at or after the change; it fails only with what the file held at the
    end of the grace period or later.  A file that is absent while it is being
    replaced is not taken for a removed one. *)
Theorem reload_tolerates_absence file lag now :
  ∃ t, now <= t ∧ load_client_config_after_change file lag now = Some (file t) ∧
       (is_ok (file t) = false → now + CONFIG_RELOAD_GRACE <= t).
Proof.
  unfold load_client_config_after_change. apply load_until_spec.
  unfold CONFIG_RELOAD_GRACE, CONFIG_RELOAD_RETRY_DELAY. lia.
Qed.

(** With a managed selection the services of the configuration file have no
    influence at all: erasing them from every configuration that is ever
    loaded, at the start, while connecting, in a session or between two
    sessions, changes nothing of what the client does. *)
Theorem managed_ignores_file_services {AW : AtomicWriteFile} io watcher polls identity rounds :
  run_client_loop io true watcher (erase_polls polls) identity (erase_round <$> rounds) =
  run_client_loop io true watcher polls identity rounds.
Proof.
  unfold run_client_loop. destruct watcher as [_|]; [|done]. rewrite wait_erased.
  destruct (wait_for_initial_config io polls) as [out [[c|]|]]; cbn [fst snd fmap option_fmap option_map]; [|done|done].
  destruct identity; [|done]. by rewrite rounds_erased.
Qed.

(** C25: until it is told to stop, the client keeps trying: the loop ends only by a
    shutdown, a closed watcher, a disconnection by the administrator or an
    identifier that cannot be stored; otherwise every round makes one attempt.
    The output is that of the attempts, one after the other, and after the
    n-th lost connection in a row (counting from zero) the announced delay is
    exactly [2 ^ n] seconds, at most thirty: 1, 2, 4, 8, 16, 30, 30 and so on.
    The row starts anew when an attempt ends otherwise (a new configuration, a
    new identifier) or the configuration is gone during the wait. *)
Theorem client_keeps_trying {AW : AtomicWriteFile} io managed c d rounds out f :
  valid_id (id d) →
  run_rounds io managed {| lo_config := c; lo_identity := d; lo_retry := 1 |} rounds = (out, f) →
  match f with
  | Go _ => attempts out = length rounds
  | Blocked => True
  | End e => ∃ r, r ∈ rounds ∧ stop_cause r e
  end ∧
  ∃ outs, out = concat outs ∧ Forall one_attempt outs ∧ backed_off 0 (zip rounds outs).
Proof.
  intros Hv E. split; [exact (rounds_ends io managed rounds {| lo_config := c; lo_identity := d; lo_retry := 1 |} _ _ Hv E)|].
  by apply (rounds_backed_off io managed rounds {| lo_config := c; lo_identity := d; lo_retry := 1 |} 0 out f).
Qed.

(** A session that is established and then ends by [ev], and a full wait. *)
Definition established (tunnels : list ClientTunnel) (ev : client_event) : round :=
  {| rd_cancelled := false; rd_connect := RDone (Ok tt); rd_auth := RDone (Ok (ClientAccepted tunnels));
     rd_events := [ev]; rd_wait := Slept; rd_polls := []; rd_conflict := (no_faults, ∅, 0) |}.

(** A disconnection by the administrator stops the client only when the branch
    of the close is taken; the reader and the acceptance of streams fail for
    the same reason and are ready at the same time, and when one of them is
    taken the client connects again, with the services it had. *)
Theorem administrator_disconnect_race {AW : AtomicWriteFile} io managed st tunnels converted e :
  let close := ApplicationClosed (close_code_value AdministratorDisconnect) in
  let again := {| lo_config := lo_config st; lo_identity := lo_identity st; lo_retry := N.min (lo_retry st * 2) 30 |} in
  (run_round io managed st (established tunnels (CClosed close converted))).2 = End (LoopStopped (Some ADMINISTRATOR)) ∧
  (run_round io managed st (established tunnels (CReadError (Some converted) e))).2 = Go again ∧
  (run_round io managed st (established tunnels (CAccepted (Err converted)))).2 = Go again.
Proof. done. Qed.

Fixpoint delays (k : N) (n : nat) : list N :=
  match n with O => [] | S n => k :: delays (N.min (k * 2) 30) n end.

(** An established session does not reset the delay: a client that connected
    successfully every time still waits thirty seconds from its sixth lost
    connection on, however long the sessions lasted. *)
Theorem success_keeps_backoff {AW : AtomicWriteFile} io managed st tunnels lost n :
  announced (run_rounds io managed st (replicate n (established tunnels (CClosed OtherConnectionError lost)))).1
    = delays (lo_retry st) n ∧
  delays 1 8 = [1; 2; 4; 8; 16; 30; 30; 30].
Proof.
  split; [|done]. revert st. induction n as [|n IH]; intros st; [done|]. cbn [replicate run_rounds delays].
  set (r := established tunnels _) in *.
  assert (E : run_round io managed st r =
    ([OStatus (Connecting (server_address (client_server (lo_config st))));
      OStatus (Online (server_address (client_server (lo_config st))) (id (lo_identity st)) tunnels);
      OClose ClientConnectionError; OStatus (Reconnecting (fmt_error io lost) (lo_retry st))],
     Go {| lo_config := lo_config st; lo_identity := lo_identity st; lo_retry := N.min (lo_retry st * 2) 30 |})) by done.
  rewrite E. specialize (IH {| lo_config := lo_config st; lo_identity := lo_identity st; lo_retry := N.min (lo_retry st * 2) 30 |}).
  destruct (run_rounds io managed _ (replicate n r)) as [more f]. cbn [fst] in IH |- *.
  rewrite announced_app, IH. done.
Qed.

(** ** Witness *)

Definition some_client : ClientConfig :=
  {| client_key := []; client_server := {| server_address := "a:1"; server_tls_name := None; ca_certificate := None |};
     client_services := [] |}.
Definition some_device : DeviceIdentity := {| id := "linux-host"; identity_file := [Normal "c.device-id"] |}.
Definition lost_rounds : list round := replicate 7 (established [] (CClosed OtherConnectionError (Protocol []))).

Lemma client_keeps_trying_witness :
  ∃ outs, (@run_rounds plain_atomic (λ _, []) true {| lo_config := some_client; lo_identity := some_device; lo_retry := 1 |} lost_rounds).1 = concat outs ∧
    backed_off 0 (zip lost_rounds outs) ∧ announced (concat outs) = [1; 2; 4; 8; 16; 30; 30].
Proof.
  set (p := run_rounds _ _ _ _).
  destruct (proj2 (@client_keeps_trying plain_atomic (λ _, []) true some_client some_device lost_rounds p.1 p.2
    ltac:(split_and!; [done|vm_compute; lia|by repeat constructor]) (surjective_pairing _))) as (outs & Hout & _ & Hb).
  exists outs. split_and!; [exact Hout|exact Hb|]. rewrite <- Hout. vm_compute. reflexivity.
Defined.
