(* ===== verification/Socks5.v ===== *)
(** * Socks5: [gaterust-tunnel/src/server/socks5.rs]

    The handshake with the public client of a SOCKS5 tunnel, as a computation
    that consumes the bytes the client sends, produces the bytes it is sent,
    and may fail.  The theorem states it against the grammar of RFC 1928. *)

From S2P Require Import Prelude RustStr Net Paths TunnelConfig Protocol.

Definition SOCKS_VERSION : N := 5.
Definition NO_AUTH : N := 0.
Definition NO_ACCEPTABLE_METHOD : N := 255.
Definition CONNECT : N := 1.

(** ** Computations on a stream *)

(** What can still be read before the end, what was written, and the results
    of the writes to come (none: they succeed). *)
Record stream := { unread : str; written : str; write_errors : list (option ErrorKind) }.

Definition socks (A : Type) : Type := stream → Result A * stream.
#[global] Instance socks_ret : MRet socks := λ A a s, (Ok a, s).
#[global] Instance socks_bind : MBind socks := λ A B k m s,
  match m s with
  | (Ok a, s) => k a s
  | (Err e, s) => (Err e, s)
  end.
Definition fail {A} (e : TunnelError) : socks A := λ s, (Err e, s).

Definition read_bytes (n : nat) : socks str := λ s,
  let '(r, rest) := read_exact n (unread s) in
  (r, {| unread := rest; written := written s; write_errors := write_errors s |}).
Definition read_uint (n : nat) : socks N := b ← read_bytes n; mret (of_be b).
Definition read_u8 : socks N := read_uint 1.
Definition read_u16 : socks N := read_uint 2.

Definition write_bytes (b : list N) : socks unit := λ s,
  match write_errors s with
  | Some e :: es => (Err (Io e), {| unread := unread s; written := written s; write_errors := es |})
  | es => (Ok tt, {| unread := unread s; written := written s ++ (ascii_of_N <$> b); write_errors := tail es |})
  end.

(** ** The handshake *)

Definition reply (status : N) : list N := [SOCKS_VERSION; status; 0; 1; 0; 0; 0; 0; 0; 0].
Definition send_reply (status : N) : socks unit := write_bytes (reply status).

(** [Ipv4Addr::from(u32)], from the four bytes read, and
    [Ipv6Addr::from([u8; 16])]. *)
Definition ipv4_from (b : str) : Ipv4Addr :=
  let octet i := default 0 (N_of_ascii <$> b !! i) in
  {| octet0 := octet 0%nat; octet1 := octet 1%nat; octet2 := octet 2%nat; octet3 := octet 3%nat |}.
Definition ipv6_from (b : str) : Ipv6Addr :=
  (λ i, of_be (take 2 (drop (2 * i) b))) <$> seq 0 8.

Definition read_host (address_type : N) : socks str :=
  if address_type =? 1 then b ← read_bytes 4; mret (fmt_ipv4 (ipv4_from b))
  else if address_type =? 3 then
    length ← read_u8;
    if length =? 0 then _ ← send_reply 8; fail (Protocol "SOCKS5 域名为空") else
    domain ← read_bytes (N.to_nat length);
    if utf8_valid domain then mret domain else fail (Protocol "SOCKS5 域名不是 UTF-8")
  else if address_type =? 4 then
    octets ← read_bytes 16;
    mret ("[" ++ fmt_ipv6 (ipv6_from octets) ++ "]")
  else _ ← send_reply 8; fail (Protocol "SOCKS5 地址类型不受支持").

Definition handshake : socks str :=
  version ← read_u8;
  method_count ← read_u8;
  if negb (version =? SOCKS_VERSION) || (method_count =? 0) then fail (Protocol "无效的 SOCKS5 协商请求") else
  methods ← read_bytes (N.to_nat method_count);
  if negb (bool_decide (ascii_of_N NO_AUTH ∈ methods)) then
    _ ← write_bytes [SOCKS_VERSION; NO_ACCEPTABLE_METHOD];
    fail (Protocol "SOCKS5 客户端不支持免认证模式")
  else
  _ ← write_bytes [SOCKS_VERSION; NO_AUTH];
  version ← read_u8;
  command ← read_u8;
  reserved ← read_u8;
  address_type ← read_u8;
  if negb (version =? SOCKS_VERSION) || negb (command =? CONNECT) || negb (reserved =? 0) then
    _ ← send_reply 7;
    fail (Protocol "仅支持 SOCKS5 CONNECT 命令")
  else
  host ← read_host address_type;
  port ← read_u16;
  mret (host ++ ":" ++ dec port).

(** ** The grammar of the requests *)

Inductive address := AIpv4 (octets : str) | ADomain (name : str) | AIpv6 (octets : str).

Definition valid_address (a : address) : Prop :=
  match a with
  | AIpv4 b => length b = 4%nat
  | ADomain d => (0 < length d < 256)%nat ∧ utf8_valid d = true
  | AIpv6 b => length b = 16%nat
  end.

Definition address_type (a : address) : N := match a with AIpv4 _ => 1 | ADomain _ => 3 | AIpv6 _ => 4 end.
Definition address_body (a : address) : str :=
  match a with AIpv4 b => b | ADomain d => to_be 1 (len d) ++ d | AIpv6 b => b end.

Definition fmt_address (a : address) : str :=
  match a with
  | AIpv4 b => fmt_ipv4 (ipv4_from b)
  | ADomain d => d
  | AIpv6 b => "[" ++ fmt_ipv6 (ipv6_from b) ++ "]"
  end.

(** The methods offered, then the request to connect. *)
Definition encode_request (methods : str) (a : address) (port : N) : str :=
  (to_be 1 5 ++ to_be 1 (len methods) ++ methods) ++
  (to_be 1 5 ++ to_be 1 1 ++ to_be 1 0 ++ to_be 1 (address_type a) ++ address_body a ++ to_be 2 port).

Definition valid_request (methods : str) (a : address) (port : N) : Prop :=
  (length methods < 256)%nat ∧ ascii_of_N NO_AUTH ∈ methods ∧ valid_address a ∧ port <= u16_max.

(** ** Lemmas *)

Lemma to_be_of_be s : to_be (length s) (of_be s) = s.
Proof.
  induction s as [|c s IH] using rev_ind; [done|]. rewrite length_app, Nat.add_1_r, of_be_snoc. cbn [to_be].
  assert (Hc := N_of_ascii_lt c).
  rewrite N.div_add_l, N.div_small, N.add_0_r, IH by lia. do 2 f_equal.
  rewrite N.add_comm, N.Div0.mod_add, N.mod_small by lia. apply ascii_N_embedding.
Qed.

Lemma to_be_read n p k : length p = n → of_be p = k → p = to_be n k.
Proof. intros <- <-. by rewrite to_be_of_be. Qed.

Section computations.
Context (w : str).

Lemma socks_bind_ok {A B} (m : socks A) (k : A → socks B) s b s' :
  (m ≫= k) s = (Ok b, s') ↔ ∃ a s1, m s = (Ok a, s1) ∧ k a s1 = (Ok b, s').
Proof. unfold mbind, socks_bind. destruct (m s) as [[a|e] s1]; naive_solver. Qed.

Lemma read_bytes_ok n u es p s' :
  read_bytes n {| unread := u; written := w; write_errors := es |} = (Ok p, s') ↔
  ∃ rest, u = p ++ rest ∧ length p = n ∧ s' = {| unread := rest; written := w; write_errors := es |}.
Proof.
  unfold read_bytes. cbn [unread written write_errors]. destruct (read_exact n u) as [r rest] eqn:E. split.
  - intros [= -> <-]. apply read_exact_ok in E. destruct E as [-> Hl]. eauto.
  - intros (rest' & -> & Hl & ->). rewrite read_exact_app_n in E by done. by injection E as <- <-.
Qed.

Lemma read_uint_ok n u es k s' :
  read_uint n {| unread := u; written := w; write_errors := es |} = (Ok k, s') ↔
  ∃ rest, u = to_be n k ++ rest ∧ k < 256 ^ N.of_nat n ∧ s' = {| unread := rest; written := w; write_errors := es |}.
Proof.
  unfold read_uint. rewrite socks_bind_ok. setoid_rewrite read_bytes_ok. split.
  - intros (p & s1 & (rest & -> & Hl & ->) & [= <- <-]). exists rest. split_and!; [|by rewrite <- Hl; apply of_be_bound|done].
    by rewrite <- (to_be_read n p (of_be p)).
  - intros (rest & -> & Hk & ->). eexists _, _. split; [exists rest; split_and!; [done|apply length_to_be|done]|].
    unfold mret, socks_ret. by rewrite of_be_to_be.
Qed.

Lemma write_clean b u :
  write_bytes b {| unread := u; written := w; write_errors := [] |} =
    (Ok tt, {| unread := u; written := w ++ (ascii_of_N <$> b); write_errors := [] |}).
Proof. done. Qed.
End computations.

Lemma fail_not_ok {A} e (a : A) s s' : fail e s = (Ok a, s') ↔ False.
Proof. done. Qed.
Lemma mret_ok {A} (a b : A) s s' : (mret a : socks A) s = (Ok b, s') ↔ a = b ∧ s = s'.
Proof. unfold mret, socks_ret. naive_solver. Qed.

(** The part of the address after its type. *)
Lemma read_host_ok t u w host s' :
  read_host t {| unread := u; written := w; write_errors := [] |} = (Ok host, s') ↔
  ∃ a rest, valid_address a ∧ address_type a = t ∧ u = address_body a ++ rest ∧ host = fmt_address a ∧
    s' = {| unread := rest; written := w; write_errors := [] |}.
Proof.
  unfold read_host. destruct (t =? 1) eqn:E1; [|destruct (t =? 3) eqn:E3; [|destruct (t =? 4) eqn:E4]]; bsimpl; subst.
  - rewrite socks_bind_ok. setoid_rewrite read_bytes_ok. split.
    + intros (p & s1 & (rest & -> & Hl & ->) & [<- <-]%mret_ok). by exists (AIpv4 p), rest.
    + intros ([p| |] & rest & Hv & Ht & -> & -> & ->); try done. eexists _, _. split; [by exists rest|done].
  - rewrite socks_bind_ok. setoid_rewrite read_uint_ok. split.
    + intros (l & s1 & (rest & -> & Hl & ->) & H). destruct (l =? 0) eqn:E0; bsimpl.
      { apply socks_bind_ok in H as (? & ? & _ & []%fail_not_ok). }
      apply socks_bind_ok in H as (d & s2 & (rest2 & -> & Hd & ->)%read_bytes_ok & H).
      destruct (utf8_valid d) eqn:Eu; [|by apply fail_not_ok in H]. apply mret_ok in H as [<- <-].
      assert (Hl' : l = len d) by (unfold len; lia). exists (ADomain d), rest2. cbn [valid_address address_type address_body fmt_address].
      rewrite <- Hl'. change (256 ^ N.of_nat 1) with 256 in Hl. split_and!; first [done|lia|by rewrite (assoc_L (++))].
    + intros ([| d|] & rest & Hv & Ht & -> & -> & ->); try done. destruct Hv as [Hl Hu].
      exists (len d), {| unread := d ++ rest; written := w; write_errors := [] |}.
      split. { exists (d ++ rest). cbn [address_body]. rewrite (assoc_L (++)). split_and!; [done|unfold len; cbn; lia|done]. }
      replace (len d =? 0) with false by (symmetry; apply N.eqb_neq; unfold len; lia).
      apply socks_bind_ok. exists d, {| unread := rest; written := w; write_errors := [] |}. rewrite Hu. split; [|done].
      apply read_bytes_ok. exists rest. split_and!; [done|unfold len; lia|done].
  - rewrite socks_bind_ok. setoid_rewrite read_bytes_ok. split.
    + intros (p & s1 & (rest & -> & Hl & ->) & [<- <-]%mret_ok). by exists (AIpv6 p), rest.
    + intros ([| |p] & rest & Hv & Ht & -> & -> & ->); try done. eexists _, _. split; [by exists rest|done].
  - split.
    + intros (? & ? & _ & []%fail_not_ok)%socks_bind_ok.
    + by intros ([] & rest & _ & <- & _).
Qed.

(** Four one-byte fields in a row. *)
Lemma negb_or3 (a b c : bool) : negb a || negb b || negb c = false ↔ a = true ∧ b = true ∧ c = true.
Proof. destruct a, b, c; cbn; naive_solver. Qed.

(** ** Theorems *)

(** C26: the handshake accepts exactly the requests of the grammar (a greeting that
    offers no authentication, then CONNECT to an IPv4 address, a name or an
    IPv6 address): it answers the greeting, leaves what follows the request
    unread, and its target is the address and port of the request. *)
Theorem handshake_spec input w target s' :
  handshake {| unread := input; written := w; write_errors := [] |} = (Ok target, s') ↔
  ∃ methods a port rest, valid_request methods a port ∧ input = encode_request methods a port ++ rest ∧
    target = fmt_address a ++ ":" ++ dec port ∧
    s' = {| unread := rest; written := w ++ (ascii_of_N <$> [SOCKS_VERSION; NO_AUTH]); write_errors := [] |}.
Proof.
  unfold handshake, read_u8, read_u16. split.
  - intros (v & s1 & (r1 & -> & _ & ->)%read_uint_ok & H)%socks_bind_ok.
    apply socks_bind_ok in H as (n & s1 & (r2 & -> & Hn & ->)%read_uint_ok & H).
    destruct (negb (v =? SOCKS_VERSION) || (n =? 0)) eqn:E0; [by apply fail_not_ok in H|]. bsimpl. destruct E0 as [-> Hn0].
    apply socks_bind_ok in H as (methods & s1 & (r3 & -> & Hl & ->)%read_bytes_ok & H).
    destruct (negb (bool_decide (ascii_of_N NO_AUTH ∈ methods))) eqn:Em.
    { apply socks_bind_ok in H as (? & ? & _ & []%fail_not_ok). }
    bsimpl. apply socks_bind_ok in H as (? & s1 & Hw & H). rewrite write_clean in Hw. injection Hw as <- <-.
    apply socks_bind_ok in H as (v & s1 & (r4 & -> & _ & ->)%read_uint_ok & H).
    apply socks_bind_ok in H as (c & s1 & (r5 & -> & _ & ->)%read_uint_ok & H).
    apply socks_bind_ok in H as (z & s1 & (r6 & -> & _ & ->)%read_uint_ok & H).
    apply socks_bind_ok in H as (t & s1 & (r7 & -> & _ & ->)%read_uint_ok & H).
    destruct (negb (v =? SOCKS_VERSION) || _ || _) eqn:E1.
    { apply socks_bind_ok in H as (? & ? & _ & []%fail_not_ok). }
    apply negb_or3 in E1 as (->%N.eqb_eq & ->%N.eqb_eq & ->%N.eqb_eq).
    apply socks_bind_ok in H as (host & s1 & (a & r8 & Ha & <- & -> & -> & ->)%read_host_ok & H).
    apply socks_bind_ok in H as (port & s1 & (r9 & -> & Hp & ->)%read_uint_ok & H). apply mret_ok in H as [<- <-].
    exists methods, a, port, r9. unfold valid_request, encode_request.
    assert (Hlen : n = len methods) by (unfold len; lia). change (256 ^ N.of_nat 1) with 256 in Hn.
    change (256 ^ N.of_nat 2) with 65536 in Hp.
    split_and!; first [done|lia|unfold u16_max; lia|by rewrite <- Hlen, <- !(assoc_L (++))].
  - intros (methods & a & port & rest & (Hl & Hm & Ha & Hp) & -> & -> & ->).
    unfold encode_request. rewrite <- !(assoc_L (++)).
    assert (Hne : (len methods =? 0) = false).
    { apply N.eqb_neq. unfold len. destruct methods; [by apply not_elem_of_nil in Hm|cbn; lia]. }
    apply socks_bind_ok. eexists _, _. split; [apply read_uint_ok; eexists; split_and!; [reflexivity|done|reflexivity]|].
    apply socks_bind_ok. eexists _, _. split; [apply read_uint_ok; eexists; split_and!; [reflexivity|unfold len; cbn; lia|reflexivity]|].
    rewrite Hne. change (negb (5 =? SOCKS_VERSION) || false) with false. cbn match.
    apply socks_bind_ok. eexists _, _. split; [apply read_bytes_ok; eexists; split_and!; [reflexivity|unfold len; lia|reflexivity]|].
    rewrite bool_decide_eq_true_2 by done. cbn [negb].
    apply socks_bind_ok. eexists _, _. split; [apply write_clean|].
    do 4 (apply socks_bind_ok; eexists _, _; split; [apply read_uint_ok; eexists; split_and!; [reflexivity|by destruct a|reflexivity]|]).
    change (negb (5 =? SOCKS_VERSION) || negb (1 =? CONNECT) || negb (0 =? 0)) with false. cbn match.
    apply socks_bind_ok. eexists _, _. split; [apply read_host_ok; exists a; eexists; split_and!; reflexivity || exact Ha|].
    apply socks_bind_ok. eexists _, _. split; [apply read_uint_ok; eexists; split_and!; [reflexivity|unfold u16_max in Hp; cbn; lia|reflexivity]|].
    done.
Qed.

Section refusals.

Lemma socks_bind_err {A B} (m : socks A) (k : A → socks B) s e s' :
  (m ≫= k) s = (Err e, s') ↔ m s = (Err e, s') ∨ ∃ a s1, m s = (Ok a, s1) ∧ k a s1 = (Err e, s').
Proof. unfold mbind, socks_bind. destruct (m s) as [[a|e1] s1]; naive_solver. Qed.

Lemma read_bytes_err n u w es e s' :
  read_bytes n {| unread := u; written := w; write_errors := es |} = (Err e, s') →
  e = Io UnexpectedEof ∧ written s' = w.
Proof.
  unfold read_bytes. cbn [unread]. destruct (read_exact n u) as [r rest] eqn:E. intros [= -> <-].
  apply read_exact_err in E as (_ & -> & _). done.
Qed.

Lemma read_uint_err n u w es e s' :
  read_uint n {| unread := u; written := w; write_errors := es |} = (Err e, s') →
  e = Io UnexpectedEof ∧ written s' = w.
Proof.
  unfold read_uint. intros [H|(p & s1 & _ & H)]%socks_bind_err; [by eapply read_bytes_err|done].
Qed.

(** After [answer] was written, the computation fails with [e]. *)
Definition refuses (table : list (TunnelError * list N)) (w : str) (e : TunnelError) (s' : stream) : Prop :=
  ∃ answer, (e, answer) ∈ table ∧ written s' = w ++ (ascii_of_N <$> answer).

Lemma refuses_eof table w e s' :
  e = Io UnexpectedEof ∧ written s' = w → (Io UnexpectedEof, []) ∈ table → refuses table w e s'.
Proof. intros [-> Hw] Hin. exists []. split; [done|]. by rewrite Hw, app_nil_r. Qed.

Lemma write_then_fail table b m u w e s' :
  (write_bytes b ≫= λ _, fail (Protocol m) : socks str) {| unread := u; written := w; write_errors := [] |} = (Err e, s') →
  (Protocol m, b) ∈ table → refuses table w e s'.
Proof. intros [H|(? & s1 & H & H1)]%socks_bind_err Hin; [done|]. injection H as <- <-. injection H1 as <- <-. by exists b. Qed.

Definition host_refusals : list (TunnelError * list N) :=
  [(Io UnexpectedEof, []); (Protocol "SOCKS5 域名为空", reply 8); (Protocol "SOCKS5 域名不是 UTF-8", []);
   (Protocol "SOCKS5 地址类型不受支持", reply 8)].

Lemma read_host_err t u w e s' :
  read_host t {| unread := u; written := w; write_errors := [] |} = (Err e, s') → refuses host_refusals w e s'.
Proof.
  unfold read_host. destruct (t =? 1); [|destruct (t =? 3); [|destruct (t =? 4)]].
  - intros [H|(p & s1 & _ & H)]%socks_bind_err; [|done]. apply refuses_eof; [by eapply read_bytes_err|by left].
  - intros [H|(n & s1 & (rest & _ & _ & ->)%read_uint_ok & H)]%socks_bind_err.
    { apply refuses_eof; [by eapply read_uint_err|by left]. }
    destruct (n =? 0); [eapply write_then_fail; [exact H|]; right; by left|].
    apply socks_bind_err in H as [H|(d & s1 & (rest2 & _ & _ & ->)%read_bytes_ok & H)].
    { apply refuses_eof; [by eapply read_bytes_err|by left]. }
    destruct (utf8_valid d); [done|]. injection H as <- <-. exists []. split; [do 2 right; by left|by rewrite app_nil_r].
  - intros [H|(p & s1 & _ & H)]%socks_bind_err; [|done]. apply refuses_eof; [by eapply read_bytes_err|by left].
  - intros H. eapply write_then_fail; [exact H|]. do 3 right. by left.
Qed.

Definition greeting : list N := [SOCKS_VERSION; NO_AUTH].

Definition refusals : list (TunnelError * list N) :=
  [(Io UnexpectedEof, []); (Protocol "无效的 SOCKS5 协商请求", []);
   (Protocol "SOCKS5 客户端不支持免认证模式", [SOCKS_VERSION; NO_ACCEPTABLE_METHOD]);
   (Protocol "仅支持 SOCKS5 CONNECT 命令", greeting ++ reply 7)]
  ++ (prod_map (λ e, e) (app greeting) <$> host_refusals).

Lemma refuses_after table w e s' :
  refuses table (w ++ (ascii_of_N <$> greeting)) e s' →
  (∀ e answer, (e, answer) ∈ table → (e, greeting ++ answer) ∈ refusals) → refuses refusals w e s'.
Proof.
  intros (answer & Hin & Hw) Ht. exists (greeting ++ answer). split; [by apply Ht|].
  by rewrite Hw, fmap_app, (assoc_L (++)).
Qed.

Lemma host_refusals_after e answer : (e, answer) ∈ host_refusals → (e, greeting ++ answer) ∈ refusals.
Proof.
  intros Hin. unfold refusals. apply elem_of_app. right. apply list_elem_of_fmap. by exists (e, answer).
Qed.

Lemma after_greeting_eof w e s' :
  e = Io UnexpectedEof ∧ written s' = w ++ (ascii_of_N <$> greeting) → refuses refusals w e s'.
Proof.
  intros H. apply (refuses_after host_refusals); [|apply host_refusals_after]. apply refuses_eof; [done|by left].
Qed.

(** A request outside the grammar is refused with one of these errors, after
    exactly this answer: no acceptable method, or reply 7 for a command other
    than CONNECT, or reply 8 for an address of no known kind; a greeting that
    is none, a name that is not UTF-8 and a request cut short are left without
    a reply. *)
Theorem handshake_refusals input w e s' :
  handshake {| unread := input; written := w; write_errors := [] |} = (Err e, s') → refuses refusals w e s'.
Proof.
  unfold handshake, read_u8, read_u16.
  intros [H|(v & s1 & (r1 & _ & _ & ->)%read_uint_ok & H)]%socks_bind_err; [apply refuses_eof; [by eapply read_uint_err|by left]|].
  apply socks_bind_err in H as [H|(n & s1 & (r2 & _ & _ & ->)%read_uint_ok & H)]; [apply refuses_eof; [by eapply read_uint_err|by left]|].
  destruct (negb _ || _); [injection H as <- <-; exists []; split; [right; by left|by rewrite app_nil_r]|].
  apply socks_bind_err in H as [H|(methods & s1 & (r3 & _ & _ & ->)%read_bytes_ok & H)]; [apply refuses_eof; [by eapply read_bytes_err|by left]|].
  destruct (negb _); [eapply write_then_fail; [exact H|]; do 2 right; by left|].
  apply socks_bind_err in H as [H|(? & s1 & Hw & H)]; [done|]. injection Hw as <- <-. cbn [unread written write_errors tail] in H.
  apply socks_bind_err in H as [H|(v' & s1 & (r4 & _ & _ & ->)%read_uint_ok & H)]; [apply after_greeting_eof; by eapply read_uint_err|].
  apply socks_bind_err in H as [H|(c & s1 & (r5 & _ & _ & ->)%read_uint_ok & H)]; [apply after_greeting_eof; by eapply read_uint_err|].
  apply socks_bind_err in H as [H|(z & s1 & (r6 & _ & _ & ->)%read_uint_ok & H)]; [apply after_greeting_eof; by eapply read_uint_err|].
  apply socks_bind_err in H as [H|(t & s1 & (r7 & _ & _ & ->)%read_uint_ok & H)]; [apply after_greeting_eof; by eapply read_uint_err|].
  destruct (negb _ || _ || _).
  { eapply (refuses_after [(Protocol "仅支持 SOCKS5 CONNECT 命令", reply 7)]).
    - eapply write_then_fail; [exact H|by left].
    - intros e' answer [= -> ->]%list_elem_of_singleton. do 3 right. by left. }
  apply socks_bind_err in H as [H|(host & s1 & (a & r8 & _ & _ & _ & _ & ->)%read_host_ok & H)].
  { apply (refuses_after host_refusals); [by eapply read_host_err|apply host_refusals_after]. }
  apply socks_bind_err in H as [H|(port & s1 & _ & H)]; [apply after_greeting_eof; by eapply read_uint_err|done].
Qed.

(** A connection to a name whose length byte is zero. *)
Lemma handshake_refusals_witness :
  let input := ascii_of_N <$> [5; 1; 0; 5; 1; 0; 3; 0; 0; 80] in
  refuses refusals [] (Protocol "SOCKS5 域名为空")
    (handshake {| unread := input; written := []; write_errors := [] |}).2.
Proof. intros input. exact (handshake_refusals input [] _ _ eq_refl). Defined.
End refusals.
