(* ===== verification/Relay.v ===== *)
(** * Relay: [gaterust-tunnel/src/relay.rs]

    The two copying loops of a connection, [copy_bidirectional], for all the
    connections of a tunnel at once: they share its rate limiter.  A copier is
    one loop; its steps interleave with those of the others in any order, at
    times that do not decrease. *)

From S2P Require Import Prelude RustStr RateLimit.

#[local] Open Scope Z_scope.

Definition BUFFER_SIZE : nat := 16 * 1024.

(** ** The loops *)

(** What a loop waits for: its reader, the limiter (with what it holds) or
    nothing any more. *)
Inductive phase := Reading | Holding (chunk : str) (until : Instant) | Finished | Stopped.

(** [c_read]: the bytes taken from the reader, [c_written]: those given to the
    writer; [c_shut]: the writer was shut down. *)
Record copier := { c_phase : phase; c_read : str; c_written : str; c_shut : bool }.

Definition copier_new : copier := {| c_phase := Reading; c_read := []; c_written := []; c_shut := false |}.

(** The two directions of a connection. *)
Record relay := { left_to_right : copier; right_to_left : copier }.
Definition relay_new : relay := {| left_to_right := copier_new; right_to_left := copier_new |}.

Definition direction (d : bool) (r : relay) : copier := if d then left_to_right r else right_to_left r.
Definition set_direction (d : bool) (r : relay) (c : copier) : relay :=
  if d then {| left_to_right := c; right_to_left := right_to_left r |}
  else {| left_to_right := left_to_right r; right_to_left := c |}.

Definition stop (c : copier) : copier :=
  {| c_phase := match c_phase c with Finished => Finished | _ => Stopped end;
     c_read := c_read c; c_written := c_written c; c_shut := c_shut c |}.
(** [try_join!]: an error of one loop drops the other. *)
Definition stop_both (r : relay) : relay :=
  {| left_to_right := stop (left_to_right r); right_to_left := stop (right_to_left r) |}.

(** One turn of [copy_one_way] at [now]; what the reader or writer does is the
    argument.  [None]: not possible in this state, or the clock leaves its
    range.  The [bool] tells whether the loop returned an error. *)
Inductive io_event :=
  | IoRead (chunk : str)
  | IoEof (shut_down : bool)
  | IoReadError
  (** [write_all] gets some bytes out, all but the last *)
  | IoProgress (done : nat)
  | IoWritten
  | IoWriteError (done : nat).

Definition copy_one_way (limiter : RateLimiter) (now : Instant) (ev : io_event) (c : copier)
  : option (RateLimiter * copier * bool) :=
  match c_phase c, ev with
  | Reading, IoRead chunk =>
      if bool_decide (chunk = []) || (BUFFER_SIZE <? length chunk)%nat then None else
      '(until, limiter) ← acquire limiter (Z.of_nat (length chunk)) now;
      Some (limiter, {| c_phase := Holding chunk until; c_read := c_read c ++ chunk; c_written := c_written c; c_shut := false |},
            false)
  | Reading, IoEof true =>
      Some (limiter, {| c_phase := Finished; c_read := c_read c; c_written := c_written c; c_shut := true |}, false)
  | Reading, IoEof false | Reading, IoReadError => Some (limiter, stop c, true)
  | Holding chunk until, IoProgress done =>
      if (until <=? now) && (done <? length chunk)%nat
      then Some (limiter, {| c_phase := Holding (drop done chunk) until; c_read := c_read c;
                             c_written := c_written c ++ take done chunk; c_shut := false |}, false)
      else None
  | Holding chunk until, IoWritten =>
      if until <=? now
      then Some (limiter, {| c_phase := Reading; c_read := c_read c; c_written := c_written c ++ chunk; c_shut := false |}, false)
      else None
  | Holding chunk until, IoWriteError done =>
      if until <=? now
      then Some (limiter, stop {| c_phase := c_phase c; c_read := c_read c; c_written := c_written c ++ take done chunk;
                                  c_shut := false |}, true)
      else None
  | _, _ => None
  end.

(** ** A tunnel *)

(** The clock, the limiter of the tunnel and its connections; [reserved] is
    the history of the reservations: bytes and release. *)
Record tunnel := {
  now : Instant;
  limiter : RateLimiter;
  relays : list relay;
  reserved : list (Z * Instant) }.

Definition reservation (before after : copier) : list (Z * Instant) :=
  match c_phase before, c_phase after with
  | Reading, Holding chunk until => [(Z.of_nat (length chunk), until)]
  | _, _ => []
  end.

Inductive tunnel_step : tunnel → tunnel → Prop :=
  | ts_time t now' : now t <= now' →
      tunnel_step t {| now := now'; limiter := limiter t; relays := relays t; reserved := reserved t |}
  | ts_accept t :
      tunnel_step t {| now := now t; limiter := limiter t; relays := relays t ++ [relay_new]; reserved := reserved t |}
  | ts_copy t i r d ev l c failed :
      relays t !! i = Some r → copy_one_way (limiter t) (now t) ev (direction d r) = Some (l, c, failed) →
      let r' := set_direction d r c in
      tunnel_step t {| now := now t; limiter := l; relays := <[i := if failed then stop_both r' else r']> (relays t);
                       reserved := reserved t ++ reservation (direction d r) c |}
  (** The tunnel is revoked, or the task of the connection is dropped. *)
  | ts_revoke t i r : relays t !! i = Some r →
      tunnel_step t {| now := now t; limiter := limiter t; relays := <[i := stop_both r]> (relays t); reserved := reserved t |}.

Definition tunnel_new (t0 : Instant) (l : RateLimiter) : tunnel :=
  {| now := t0; limiter := l; relays := []; reserved := [] |}.

(** The bytes written to all peers. *)
Definition relay_written (r : relay) : Z :=
  Z.of_nat (length (c_written (left_to_right r))) + Z.of_nat (length (c_written (right_to_left r))).
Definition sum_of {A} (f : A → Z) (l : list A) : Z := foldr (λ x n, f x + n) 0 l.
Definition forwarded (t : tunnel) : Z := sum_of relay_written (relays t).

(** ** Integrity *)

(** A copier has written what it read, up to the chunk it holds. *)
Definition faithful (c : copier) : Prop :=
  match c_phase c with
  | Reading | Finished => c_written c = c_read c
  | Holding chunk _ => c_written c ++ chunk = c_read c ∧ chunk ≠ []
  | Stopped => ∃ rest, c_written c ++ rest = c_read c
  end ∧ (c_shut c = true → c_phase c = Finished) ∧ (c_phase c = Finished → c_shut c = true).

Lemma faithful_new : faithful copier_new.
Proof. done. Qed.

Lemma faithful_stop c : faithful c → faithful (stop c).
Proof.
  unfold faithful, stop. destruct (c_phase c); cbn.
  - intros (-> & Hs & Hf). split; [exists []; by rewrite app_nil_r|]. split; [|done]. intros H. by apply Hs in H.
  - intros ([H _] & Hs & Hf). split; [eauto|]. split; [|done]. intros H'. by apply Hs in H'.
  - done.
  - done.
Qed.

Lemma copy_faithful l now ev c l' c' failed :
  copy_one_way l now ev c = Some (l', c', failed) → faithful c → faithful c'.
Proof.
  unfold copy_one_way. destruct (c_phase c) as [|chunk until| |] eqn:Ep; destruct ev as [k|[]| |n| |n]; try done.
  - destruct (bool_decide (k = []) || _) eqn:E0; [done|]. destruct (acquire _ _ _) as [[t1 l1]|]; [|done]. intros [= <- <- <-].
    unfold faithful. rewrite Ep. cbn. intros (-> & _ & _). apply orb_false_iff in E0 as [E0%bool_decide_eq_false _]. done.
  - intros [= <- <- <-]. unfold faithful. rewrite Ep. cbn. by intros (-> & _ & _).
  - intros [= <- <- <-]. apply faithful_stop.
  - intros [= <- <- <-]. apply faithful_stop.
  - destruct ((until <=? now) && _) eqn:Eb; [|done]. intros [= <- <- <-]. apply andb_true_iff in Eb as [_ El]. apply Nat.ltb_lt in El.
    unfold faithful. rewrite Ep. cbn. intros ([<- _] & _ & _). split; [|done]. split; [by rewrite <- (assoc_L (++)), take_drop|].
    intros Hd. apply (f_equal length) in Hd. rewrite length_drop in Hd. cbn in Hd. lia.
  - destruct (until <=? now); [|done]. intros [= <- <- <-]. unfold faithful. rewrite Ep. cbn. by intros ([-> _] & _ & _).
  - destruct (until <=? now); [|done]. intros [= <- <- <-]. unfold faithful, stop. rewrite Ep. cbn. intros ([<- _] & Hs & _).
    split; [|done]. exists (drop n chunk). by rewrite <- (assoc_L (++)), take_drop.
Qed.

Definition relay_faithful (r : relay) : Prop := faithful (left_to_right r) ∧ faithful (right_to_left r).

Lemma stop_both_faithful r : relay_faithful r → relay_faithful (stop_both r).
Proof. intros [H1 H2]. split; by apply faithful_stop. Qed.

Lemma step_faithful t t' : tunnel_step t t' → Forall relay_faithful (relays t) → Forall relay_faithful (relays t').
Proof.
  intros [] Hf; cbn; try done.
  - apply Forall_app. split; [done|]. by repeat constructor.
  - apply Forall_insert; [done|]. rewrite Forall_lookup in Hf. destruct (Hf _ _ H) as [H1 H2].
    assert (Hr : relay_faithful r') by (unfold r'; destruct d; split; cbn; try done; by eapply copy_faithful).
    destruct failed; [by apply stop_both_faithful|done].
  - apply Forall_insert; [done|]. rewrite Forall_lookup in Hf. by apply stop_both_faithful, (Hf i).
Qed.

(** ** The rate *)

Definition held (τ : Instant) (c : copier) : Z :=
  match c_phase c with Holding chunk until => if until <=? τ then Z.of_nat (length chunk) else 0 | _ => 0 end.
(** What was written, and what may be written by [τ] without a reservation. *)
Definition weight (τ : Instant) (c : copier) : Z := Z.of_nat (length (c_written c)) + held τ c.
Definition relay_weight (τ : Instant) (r : relay) : Z := weight τ (left_to_right r) + weight τ (right_to_left r).
Definition released (τ : Instant) (log : list (Z * Instant)) : Z := sum_of (λ p : Z * Instant, if p.2 <=? τ then p.1 else 0) log.
Definition reserved_bytes (log : list (Z * Instant)) : Z := sum_of fst log.

Lemma sum_of_app {A} (f : A → Z) l k : sum_of f (l ++ k) = sum_of f l + sum_of f k.
Proof. unfold sum_of. induction l as [|x l IH]; cbn; [done|]. lia. Qed.

Lemma sum_of_insert {A} (f : A → Z) l i x y :
  l !! i = Some x → sum_of f (<[i:=y]> l) = sum_of f l - f x + f y.
Proof.
  intros Hi. rewrite <- (take_drop_middle l i x Hi) at 2. rewrite insert_take_drop by (by eapply lookup_lt_Some).
  rewrite !sum_of_app. cbn. lia.
Qed.

Lemma sum_of_le {A} (f g : A → Z) l : (∀ x, f x <= g x) → sum_of f l <= sum_of g l.
Proof. intros H. unfold sum_of. induction l as [|x l IH]; cbn; [lia|]. specialize (H x). lia. Qed.

Lemma held_nonneg τ c : 0 <= held τ c.
Proof. unfold held. destruct (c_phase c); try lia. destruct (until <=? τ); lia. Qed.

Lemma stop_weight τ c : weight τ (stop c) <= weight τ c.
Proof. assert (H := held_nonneg τ c). unfold weight, stop, held in *. cbn. destruct (c_phase c); lia. Qed.

Lemma set_direction_weight τ d r c :
  relay_weight τ (set_direction d r c) = relay_weight τ r - weight τ (direction d r) + weight τ c.
Proof. unfold relay_weight. destruct d; cbn; lia. Qed.

Lemma stop_both_weight τ r : relay_weight τ (stop_both r) <= relay_weight τ r.
Proof.
  unfold relay_weight. cbn. assert (H1 := stop_weight τ (left_to_right r)). assert (H2 := stop_weight τ (right_to_left r)). lia.
Qed.

Lemma copy_weight l now ev c l' c' failed τ :
  copy_one_way l now ev c = Some (l', c', failed) → now <= τ →
  weight τ c' <= weight τ c + released τ (reservation c c').
Proof.
  unfold copy_one_way, reservation. intros E Hτ. destruct (c_phase c) as [|chunk until| |] eqn:Ep; destruct ev as [k|[]| |n| |n]; try done.
  - destruct (_ || _); [done|]. destruct (acquire _ _ _) as [[t1 l1]|]; [|done]. injection E as <- <- <-.
    unfold weight, held, released. rewrite Ep. cbn. destruct (t1 <=? τ); lia.
  - injection E as <- <- <-. unfold weight, held. rewrite Ep. cbn. lia.
  - injection E as <- <- <-. cbn. rewrite Ep. assert (H := stop_weight τ c). cbn. lia.
  - injection E as <- <- <-. cbn. rewrite Ep. assert (H := stop_weight τ c). cbn. lia.
  - destruct ((until <=? now) && _) eqn:Eb; [|done]. injection E as <- <- <-. unfold weight, held. rewrite Ep. cbn.
    rewrite length_app, length_take, length_drop. destruct (until <=? τ) eqn:Eu; [lia|].
    apply andb_true_iff in Eb as [Eb _]. apply Z.leb_le in Eb. apply Z.leb_gt in Eu. lia.
  - destruct (until <=? now) eqn:Eu; [|done]. injection E as <- <- <-. unfold weight, held. rewrite Ep. cbn.
    rewrite length_app. replace (until <=? τ) with true by (symmetry; apply Z.leb_le; apply Z.leb_le in Eu; lia). lia.
  - destruct (until <=? now) eqn:Eu; [|done]. injection E as <- <- <-. unfold weight, held, stop. rewrite Ep. cbn.
    rewrite length_app, length_take. replace (until <=? τ) with true by (symmetry; apply Z.leb_le; apply Z.leb_le in Eu; lia). lia.
Qed.

(** What is written was reserved and released. *)
Lemma step_weight t t' :
  tunnel_step t t' →
  (∀ τ, now t <= τ → sum_of (relay_weight τ) (relays t) <= released τ (reserved t)) →
  now t <= now t' ∧ ∀ τ, now t' <= τ → sum_of (relay_weight τ) (relays t') <= released τ (reserved t').
Proof.
  intros [] Hw; cbn [now relays reserved limiter]; (split; [lia|]); intros τ Hτ; cbn [now relays reserved limiter] in *.
  - apply Hw. lia.
  - rewrite sum_of_app. specialize (Hw τ Hτ). change (sum_of (relay_weight τ) [relay_new]) with 0. lia.
  - specialize (Hw τ Hτ). rewrite (sum_of_insert _ _ _ _ _ H). unfold released in *. rewrite sum_of_app.
    assert (Hc := copy_weight _ _ _ _ _ _ _ τ H0 Hτ). unfold released in Hc.
    assert (Hr : relay_weight τ r' = relay_weight τ r - weight τ (direction d r) + weight τ c) by apply set_direction_weight.
    assert (Hs := stop_both_weight τ r'). destruct failed; lia.
  - specialize (Hw τ Hτ). rewrite (sum_of_insert _ _ _ _ _ H). assert (Hs := stop_both_weight τ r). lia.
Qed.

Section paced.
Context (rate burst start : Z).

(** No reservation is released earlier than the rate and the burst allow. *)
Record paced (l : Limited) (log : list (Z * Instant)) : Prop := {
  pa_ok : limiter_ok l;
  pa_rate : bytes_per_second l = rate;
  pa_burst : RateLimit.burst l = burst;
  pa_total : reserved_bytes log * NANOS <= rate * (next l - start);
  pa_bytes : Forall (λ p, 0 <= p.1) log;
  pa_release : ∀ p x q, log = p ++ x :: q → reserved_bytes (p ++ [x]) * NANOS <= rate * (x.2 + burst - start) }.

Lemma released_bound l log τ :
  paced l log → start - burst <= τ → released τ log * NANOS <= rate * (τ + burst - start).
Proof.
  intros [Hok Hr _ _ Hb Hrel] Hτ. destruct Hok as (Hr0 & _). rewrite Hr in Hr0. clear Hr l.
  induction log as [|x log IH] using rev_ind.
  { cbn. unfold released, sum_of. cbn. nia. }
  apply Forall_app in Hb as [Hb Hx]. apply Forall_cons in Hx as [Hx _].
  assert (Hs : released τ (log ++ [x]) = released τ log + (if x.2 <=? τ then x.1 else 0)).
  { unfold released at 1. rewrite sum_of_app. f_equal. apply Z.add_0_r. }
  rewrite Hs. clear Hs. destruct (x.2 <=? τ) eqn:E; bsimpl.
  - specialize (Hrel log x [] eq_refl).
    assert (Hle : released τ log <= reserved_bytes log).
    { unfold released, reserved_bytes, sum_of. clear -Hb. induction Hb as [|y l Hy _ IH]; cbn; [lia|]. destruct (y.2 <=? τ); lia. }
    unfold reserved_bytes in *. rewrite sum_of_app in Hrel. cbn [sum_of foldr] in Hrel.
    assert (rate * (x.2 + burst - start) <= rate * (τ + burst - start)) by nia. unfold NANOS in *. lia.
  - rewrite Z.add_0_r. apply IH; [done|]. intros p y q ->. apply (Hrel p y (q ++ [x])).
    by rewrite <- (assoc_L (++)).
Qed.

Lemma acquire_paced l log bytes t until l' :
  paced l log → 0 <= bytes <= Z.of_nat BUFFER_SIZE → acquire (Some l) bytes t = Some (until, l') →
  ∃ l1, l' = Some l1 ∧ paced l1 (log ++ [(bytes, until)]).
Proof.
  intros [Hok Hr Hb Ht Hn Hrel] Hby. unfold acquire. destruct (reserve l bytes t) as [[d l1]|] eqn:E; [|done].
  cbn. intros [= <- <-]. exists l1. split; [done|].
  destruct (reserve_release l bytes t d l1 Hok (proj1 Hby) E) as [Hok1 Hd].
  apply reserve_Some in E as (Hr1 & Hb1 & Hn1 & _). pose proof Hok as (Hrr & _).
  assert (Hin : in_budget l bytes) by (unfold in_budget, NANOS, u64_MAX, BUFFER_SIZE in *; nia).
  assert (Hc : bytes * NANOS <= bytes_per_second l * cost_of l bytes).
  { apply cost_of_covers; [lia|lia|done|lia|unfold u64_MAX, BUFFER_SIZE in *; lia]. }
  rewrite Hr in *.
  assert (Htot : reserved_bytes (log ++ [(bytes, t + d)]) * NANOS <= rate * (next l1 - start)).
  { unfold reserved_bytes in *. rewrite sum_of_app. cbn [sum_of foldr fst]. nia. }
  split; [done|congruence|congruence|done|by apply Forall_app; split; [|repeat constructor; cbn; lia]|].
  intros p x q Heq. destruct q as [|y q _] using rev_ind.
  - apply app_inj_tail in Heq as [<- <-]. cbn [snd]. etransitivity; [exact Htot|].
    apply Z.mul_le_mono_nonneg_l; [lia|]. rewrite Hd. lia.
  - rewrite app_comm_cons, (assoc_L (++)) in Heq. apply app_inj_tail in Heq as [-> _]. by apply (Hrel p x q).
Qed.

Lemma step_paced t t' l :
  tunnel_step t t' → limiter t = Some l → paced l (reserved t) →
  ∃ l', limiter t' = Some l' ∧ paced l' (reserved t').
Proof.
  intros [] Hl Hp; cbn; try (by exists l). cbn in Hl.
  unfold copy_one_way, reservation in *. destruct (c_phase (direction d r)) as [|chunk until| |] eqn:Ep; destruct ev as [k|[]| |n| |n]; try done.
  - destruct (bool_decide _ || _) eqn:E0; [done|]. destruct (acquire _ _ _) as [[t1 l1]|] eqn:Ea; [|done]. injection H0 as <- <- <-.
    cbn. apply orb_false_iff in E0 as [_ E0]. rewrite Hl in Ea. eapply acquire_paced in Ea as (l2 & -> & H2); [eauto|done|].
    apply Nat.ltb_ge in E0. lia.
  - injection H0 as <- <- <-. cbn. rewrite app_nil_r. eauto.
  - injection H0 as <- <- <-. cbn. rewrite Ep, app_nil_r. eauto.
  - injection H0 as <- <- <-. cbn. rewrite Ep, app_nil_r. eauto.
  - destruct ((until <=? _) && _); [|done]. injection H0 as <- <- <-. rewrite app_nil_r. eauto.
  - destruct (until <=? _); [|done]. injection H0 as <- <- <-. rewrite app_nil_r. eauto.
  - destruct (until <=? _); [|done]. injection H0 as <- <- <-. rewrite app_nil_r. eauto.
Qed.
End paced.

(** ** Theorems *)

(** Nothing is lost, altered or reordered: at any time, and also when a
    connection ends by an error or is revoked, what was written to one side is
    what was read from the other, but for a tail; the tail is empty when the
    end of the stream is passed on and whenever the loop waits for its reader. *)
Theorem relays_faithful t0 l t i r d :
  rtc tunnel_step (tunnel_new t0 l) t → relays t !! i = Some r →
  ∃ rest, c_read (direction d r) = c_written (direction d r) ++ rest ∧
    (c_shut (direction d r) = true → rest = []) ∧ (c_phase (direction d r) = Reading → rest = []).
Proof.
  intros Ht Hi. assert (Hf : Forall relay_faithful (relays t)).
  { assert (H0 : Forall relay_faithful (relays (tunnel_new t0 l))) by constructor. clear Hi. revert H0.
    induction Ht as [|t1 t2 t3 Hs _ IH]; [done|]. intros H0. by apply IH, (step_faithful _ _ Hs). }
  rewrite Forall_lookup in Hf. destruct (Hf _ _ Hi) as [H1 H2].
  assert (Hd : faithful (direction d r)) by by destruct d. destruct Hd as (Hp & Hs & _).
  destruct (c_phase (direction d r)) as [|chunk until| |].
  - exists []. by rewrite app_nil_r.
  - destruct Hp as [<- _]. exists chunk. split; [done|]. split; [|done]. intros H. by apply Hs in H.
  - exists []. by rewrite app_nil_r.
  - destruct Hp as [rest <-]. exists rest. split; [done|]. split; [|done]. intros H. by apply Hs in H.
Qed.

(** C23: the limit of a tunnel holds for what is really sent: the bytes written by
    all connections of the tunnel, in both directions, never exceed the rate
    over the time since the limiter was made plus a burst of 100 ms, whatever
    the order in which the loops run and however late they wake up. *)
Theorem relays_within_rate rate t0 t :
  0 < rate <= u64_MAX → - 2 ^ 63 * NANOS + 100 * 1000000 <= t0 →
  rtc tunnel_step (tunnel_new t0 (RateLimiter_new (Some rate) t0)) t →
  forwarded t * NANOS <= rate * (now t - t0 + 100 * 1000000).
Proof.
  intros Hr Ht0 Ht. set (burst := 100 * 1000000) in *.
  assert (Hall : t0 <= now t ∧ (∀ τ, now t <= τ → sum_of (relay_weight τ) (relays t) <= released τ (reserved t)) ∧
                 ∃ l, limiter t = Some l ∧ paced rate burst t0 l (reserved t)).
  { assert (H0 : t0 <= now (tunnel_new t0 (RateLimiter_new (Some rate) t0))) by (cbn; lia).
    assert (H1 : ∀ τ, now (tunnel_new t0 (RateLimiter_new (Some rate) t0)) <= τ →
      sum_of (relay_weight τ) (relays (tunnel_new t0 (RateLimiter_new (Some rate) t0))) <=
      released τ (reserved (tunnel_new t0 (RateLimiter_new (Some rate) t0)))) by (intros; cbn; lia).
    assert (H2 : ∃ l, limiter (tunnel_new t0 (RateLimiter_new (Some rate) t0)) = Some l ∧
      paced rate burst t0 l (reserved (tunnel_new t0 (RateLimiter_new (Some rate) t0)))).
    { eexists. split; [done|]. split; cbn; [|done|done|lia|constructor|by intros [] ???].
      unfold limiter_ok. cbn. unfold burst in *. lia. }
    revert H0 H1 H2. induction Ht as [t|t1 t2 t3 Hs _ IH]; [done|]. intros H0 H1 (l & Hl & Hp).
    destruct (step_weight _ _ Hs H1) as [Hn Hw]. destruct (step_paced _ _ _ _ _ _ Hs Hl Hp) as (l' & Hl' & Hp').
    apply IH; [lia|exact Hw|by exists l']. }
  destruct Hall as (Hn & Hw & l & _ & Hp). specialize (Hw (now t) (Z.le_refl _)).
  assert (Hb := released_bound rate burst t0 l (reserved t) (now t) Hp ltac:(unfold burst; lia)).
  assert (Hf : forwarded t <= sum_of (relay_weight (now t)) (relays t)).
  { apply sum_of_le. intros r. unfold relay_written, relay_weight, weight.
    assert (Hh1 := held_nonneg (now t) (left_to_right r)). assert (Hh2 := held_nonneg (now t) (right_to_left r)). lia. }
  assert (Hnano : forwarded t * NANOS <= released (now t) (reserved t) * NANOS) by (unfold NANOS; lia).
  replace (now t - t0 + burst) with (now t + burst - t0) by lia. lia.
Qed.

(** ** Witnesses *)

Lemma relay_run_exists :
  ∃ t, rtc tunnel_step (tunnel_new 0 (RateLimiter_new (Some 1000) 0)) t ∧
    (now t = 100000000 ∧ forwarded t = 200 ∧ ∃ r, relays t !! 0%nat = Some r).
Proof.
  assert (Hc : ∃ chunk : str, length chunk = 200%nat) by (exists (replicate 200 "x"%char); vm_compute; reflexivity).
  destruct Hc as [chunk Hc].
  eexists. split.
  { eapply rtc_l; [apply ts_accept|]. cbn.
    eapply rtc_l; [eapply (ts_copy _ 0 relay_new true (IoRead chunk)); [reflexivity|]|].
    { unfold copy_one_way. cbn [direction relay_new left_to_right copier_new c_phase]. rewrite Hc.
      rewrite bool_decide_eq_false_2 by (by intros ->). cbv [orb Nat.ltb Nat.leb BUFFER_SIZE]. vm_compute (acquire _ _ _). reflexivity. }
    cbn. eapply rtc_l; [apply (ts_time _ 100000000); vm_compute; done|].
    eapply rtc_l; [eapply (ts_copy _ 0 _ true IoWritten); [reflexivity|reflexivity]|]. apply rtc_refl. }
  cbn. unfold forwarded, relay_written. cbn. rewrite Hc. split; [done|]. split; [done|eauto].
Qed.

Lemma relays_within_rate_witness : ∃ t, forwarded t = 200 ∧ 200 * NANOS <= 1000 * (100000000 + 100 * 1000000).
Proof.
  destruct relay_run_exists as (t & Hr & Hn & Hf & _). exists t. split; [exact Hf|].
  assert (H := relays_within_rate 1000 0 t ltac:(vm_compute; done) ltac:(vm_compute; done) Hr).
  rewrite Hf, Hn in H. exact H.
Defined.

Lemma relays_faithful_witness : ∃ t r, relays t !! 0%nat = Some r ∧
  ∃ rest, c_read (direction true r) = c_written (direction true r) ++ rest.
Proof.
  destruct relay_run_exists as (t & Hr & _ & _ & r & Hi). exists t, r. split; [exact Hi|].
  destruct (relays_faithful 0 (RateLimiter_new (Some 1000) 0) t 0 r true Hr Hi) as (rest & H & _). exists rest. exact H.
Defined.
