(* ===== verification/Streams.v ===== *)
(** * Streams: [gaterust-tunnel/src/server/stream.rs]

    The TCP and SOCKS5 tunnels: the loop that accepts public connections under
    the limits of the tunnel and of the server, and what becomes of one
    connection, together with the client's side of it ([ClientSession]).  The
    results of input and output are arguments; what the code does to its peers
    is a list of effects.  Both ends wait twenty seconds at most; the times at
    which their waits begin are part of the model ([stream_timing]). *)

From S2P Require Import Prelude RustStr Net Paths TunnelConfig Protocol Resource TunnelRuntime ClientSession.

(** ** One connection *)

Inductive stream_effect :=
  | Sent (r : OpenRequest)
  | Replied (status : N)
  | Relayed.

(** The results of what [forward] waits for ([None]: a timeout). *)
Record forward_io := {
  fe_open : option (Result unit);
  fe_write : Result unit;
  fe_response : option (Result OpenResponse);
  fe_reply : Result unit;
  fe_copy : Result unit }.

(** [send_reply] to the public client, and then [k]. *)
Definition after_reply (status : N) (w : Result unit) (k : list stream_effect * Result unit)
  : list stream_effect * Result unit :=
  match w with
  | Ok _ => (Replied status :: k.1, k.2)
  | Err e => ([], Err e)
  end.

Definition forward (config : ServerTunnelConfig) (destination : option str) (io : forward_io)
  : list stream_effect * Result unit :=
  match fe_open io with
  | None => ([], Err (Timeout "打开 QUIC 数据流"))
  | Some (Err e) => ([], Err e)
  | Some (Ok _) =>
      match fe_write io with
      | Err e => ([], Err e)
      | Ok _ =>
          let '(more, r) :=
            match fe_response io with
            | None => ([], Err (Timeout "等待内网连接响应"))
            | Some (Err e) => ([], Err e)
            | Some (Ok response) =>
                if negb (open_accepted response) then
                  let failed := ([], Err (Protocol ("内网目标连接失败: " ++ open_message response))) in
                  if bool_decide (tunnel_kind config = Socks5) then after_reply 5 (fe_reply io) failed else failed
                else
                  let relayed := ([Relayed], fe_copy io) in
                  if bool_decide (tunnel_kind config = Socks5) then after_reply 0 (fe_reply io) relayed else relayed
            end in
          (Sent {| open_service := tunnel_name config; open_destination := destination |} :: more, r)
      end
  end.

(** [handle].  [handshake]: the result of the SOCKS5 handshake; [cut]: how many
    effects take place before the token of the tunnel is cancelled, when it
    is. *)
Definition handle (config : ServerTunnelConfig) (rt : TunnelRuntime) (handshake : option (Result str))
  (cut : option nat) (io : forward_io) : list stream_effect * Result unit :=
  let destination :=
    if bool_decide (tunnel_kind config = Socks5) then
      match handshake with
      | None => Err (Timeout "SOCKS5 握手")
      | Some r => Some <$> r
      end
    else Ok None in
  match destination with
  | Err e => ([], Err e)
  | Ok destination =>
      match find rt (tunnel_name config) with
      | None =>
          let failed := ([], Err (Protocol "没有可用的内网客户端")) in
          if bool_decide (tunnel_kind config = Socks5) then after_reply 1 (fe_reply io) failed else failed
      | Some _ =>
          let '(effects, r) := forward config destination io in
          match cut with
          | Some n => (take n effects, Ok tt)
          | None => (effects, r)
          end
      end
  end.

(** ** The two ends in time

    Both ends allow [HANDSHAKE_TIMEOUT]: the server from the moment its request
    is written until the response is read, the client from the moment it has
    read the request until its target is connected.  Times are milliseconds. *)

Definition HANDSHAKE_TIMEOUT : N := HANDSHAKE_TIMEOUT_SECS * 1000.

(** How long the request and the response are on the way; [dial]: when the
    attempt to connect to the target would end, and how, if ever. *)
Record stream_timing := {
  st_request : N;
  st_response : N;
  st_dial : option (N * result ErrorKind unit) }.

(** [tokio::time::timeout(HANDSHAKE_TIMEOUT, TcpStream::connect(target))]: how
    long it takes, and its result. *)
Definition dialled (dial : option (N * result ErrorKind unit)) : N * option (result ErrorKind unit) :=
  match dial with
  | Some (t, r) => if t <=? HANDSHAKE_TIMEOUT then (t, Some r) else (HANDSHAKE_TIMEOUT, None)
  | None => (HANDSHAKE_TIMEOUT, None)
  end.

(** What the server's [timeout(HANDSHAKE_TIMEOUT, read_frame(..))] gives, when
    the client follows [plan] for a TCP target. *)
Definition response_seen (tm : stream_timing) (plan : stream_plan) lookup_host udp_bind udp_connect : option (Result OpenResponse) :=
  let '(elapsed, tcp) := dialled (st_dial tm) in
  if st_request tm + elapsed + st_response tm <=? HANDSHAKE_TIMEOUT
  then Some (open_response plan tcp lookup_host udp_bind udp_connect) else None.

(** ** The listener *)

Record stream_listener (S : Type) := {
  sl_max : N;
  sl_permits : S;
  sl_tasks : N;
  sl_open : bool }.
Arguments sl_max {_} _. Arguments sl_permits {_} _. Arguments sl_tasks {_} _. Arguments sl_open {_} _.

(** A turn of the loop of [run]; [TurnJoined]: a connection ends (also after
    the listener was closed: its connections are waited for). *)
Inductive stream_turn := TurnCancelled | TurnAccepted | TurnAcceptFailed | TurnJoined.

Section listener.
Context {S : Type} `{Semaphore S}.

Definition stream_bind (config : ServerTunnelConfig) : stream_listener S :=
  {| sl_max := max_connections config; sl_permits := sem_new (max_connections config); sl_tasks := 0; sl_open := true |}.

Definition run_turn (t : stream_turn) (budget : ResourceBudget S) (l : stream_listener S)
  : ResourceBudget S * stream_listener S :=
  match t with
  | TurnCancelled | TurnAcceptFailed =>
      (budget, {| sl_max := sl_max l; sl_permits := sl_permits l; sl_tasks := sl_tasks l; sl_open := false |})
  | TurnAccepted =>
      if negb (sl_open l) then (budget, l) else
      match try_acquire (sl_permits l) with
      | None => (budget, l)
      | Some permits =>
          match try_data_stream budget with
          | None => (budget, {| sl_max := sl_max l; sl_permits := sem_release permits 1; sl_tasks := sl_tasks l; sl_open := true |})
          | Some budget => (budget, {| sl_max := sl_max l; sl_permits := permits; sl_tasks := sl_tasks l + 1; sl_open := true |})
          end
      end
  | TurnJoined =>
      if sl_tasks l =? 0 then (budget, l) else
      (drop_permit budget PStream,
       {| sl_max := sl_max l; sl_permits := sem_release (sl_permits l) 1; sl_tasks := sl_tasks l - 1; sl_open := sl_open l |})
  end.

(** The listeners of a server, and the streams that other tunnels hold. *)
Record stream_world := { sw_budget : ResourceBudget S; sw_listeners : list (stream_listener S); sw_others : N }.

Inductive stream_step : stream_world → stream_world → Prop :=
  | ss_bind w config :
      stream_step w {| sw_budget := sw_budget w; sw_listeners := sw_listeners w ++ [stream_bind config]; sw_others := sw_others w |}
  | ss_turn w i l t b l' : sw_listeners w !! i = Some l → run_turn t (sw_budget w) l = (b, l') →
      stream_step w {| sw_budget := b; sw_listeners := <[i := l']> (sw_listeners w); sw_others := sw_others w |}
  | ss_take w b : try_data_stream (sw_budget w) = Some b →
      stream_step w {| sw_budget := b; sw_listeners := sw_listeners w; sw_others := sw_others w + 1 |}
  | ss_drop w : 0 < sw_others w →
      stream_step w {| sw_budget := drop_permit (sw_budget w) PStream; sw_listeners := sw_listeners w; sw_others := sw_others w - 1 |}.

Definition stream_world_new : stream_world := {| sw_budget := ResourceBudget_new; sw_listeners := []; sw_others := 0 |}.

Definition total_tasks (l : list (stream_listener S)) : N := foldr (λ x n, sl_tasks x + n) 0 l.

Record stream_inv (w : stream_world) : Prop := {
  si_streams : available (data_streams (sw_budget w)) + total_tasks (sw_listeners w) + sw_others w = MAX_DATA_STREAMS;
  si_listeners : Forall (λ l, available (sl_permits l) + sl_tasks l = sl_max l) (sw_listeners w) }.

(** ** Lemmas *)

Lemma total_tasks_app l k : total_tasks (l ++ k) = total_tasks l + total_tasks k.
Proof. unfold total_tasks. induction l as [|x l IH]; cbn; [done|]. rewrite IH. lia. Qed.

Lemma total_tasks_insert l i x y :
  l !! i = Some x → total_tasks (<[i:=y]> l) + sl_tasks x = total_tasks l + sl_tasks y.
Proof.
  intros Hi. rewrite <- (take_drop_middle l i x Hi) at 2. rewrite insert_take_drop by (by eapply lookup_lt_Some).
  rewrite !total_tasks_app. cbn. lia.
Qed.

Lemma try_data_stream_ok (b b' : ResourceBudget S) :
  try_data_stream b = Some b' → available (data_streams b') + 1 = available (data_streams b).
Proof.
  unfold try_data_stream, try_acquire. destruct (try_acquire_many (data_streams b) 1) as [s|] eqn:E; [|done].
  cbn. intros [= <-]. apply try_acquire_ok in E as [H1 H2]. cbn. lia.
Qed.

Lemma run_turn_ok t b l b' l' :
  available (sl_permits l) + sl_tasks l = sl_max l → run_turn t b l = (b', l') →
  available (sl_permits l') + sl_tasks l' = sl_max l' ∧ sl_max l' = sl_max l ∧
  available (data_streams b') + sl_tasks l' = available (data_streams b) + sl_tasks l.
Proof.
  intros Hl. destruct t; cbn [run_turn].
  - by intros [= <- <-].
  - destruct (sl_open l); cbn [negb]; [|by intros [= <- <-]]. unfold try_acquire.
    destruct (try_acquire_many (sl_permits l) 1) as [p|] eqn:Ep; [|by intros [= <- <-]].
    apply try_acquire_ok in Ep as [Hp1 Hp2]. destruct (try_data_stream b) as [b1|] eqn:Eb; intros [= <- <-]; cbn.
    + apply try_data_stream_ok in Eb. lia.
    + rewrite available_release. lia.
  - by intros [= <- <-].
  - destruct (sl_tasks l =? 0) eqn:E0; intros [= <- <-]; cbn; [lia|]. apply N.eqb_neq in E0. rewrite !available_release. lia.
Qed.

Lemma stream_step_inv w w' : stream_step w w' → stream_inv w → stream_inv w'.
Proof.
  intros [w0 config|w0 i l t b l' Hi Ht|w0 b Hb|w0 H0] [Hs Hl]; split; cbn [sw_budget sw_listeners sw_others] in *.
  - rewrite total_tasks_app. change (total_tasks [stream_bind config]) with 0. lia.
  - apply Forall_app. split; [done|]. repeat constructor. cbn. rewrite available_new. lia.
  - rewrite Forall_lookup in Hl. destruct (run_turn_ok _ _ _ _ _ (Hl _ _ Hi) Ht) as (_ & _ & Htot).
    assert (Hsum := total_tasks_insert _ _ _ l' Hi). lia.
  - assert (Hl0 := Hl). rewrite Forall_lookup in Hl0. destruct (run_turn_ok _ _ _ _ _ (Hl0 _ _ Hi) Ht) as (Hok & _ & _).
    by apply Forall_insert.
  - apply try_data_stream_ok in Hb. lia.
  - done.
  - cbn [drop_permit data_streams]. rewrite available_release. lia.
  - done.
Qed.
End listener.
Arguments stream_world _ : clear implicits.

(** ** Theorems *)

(** However the listeners' loops, the ends of their connections and the
    streams of other tunnels interleave, no listener has more connections than
    its own maximum, the server never has more streams than its own, and no
    permit is lost: when the connections have ended, both limits are whole
    again. *)
Theorem stream_limits {S} `{Semaphore S} w :
  rtc stream_step (stream_world_new (S := S)) w →
  Forall (λ l, sl_tasks l <= sl_max l ∧ (sl_tasks l = 0 → available (sl_permits l) = sl_max l)) (sw_listeners w) ∧
  total_tasks (sw_listeners w) + sw_others w <= MAX_DATA_STREAMS ∧
  (total_tasks (sw_listeners w) + sw_others w = 0 → available (data_streams (sw_budget w)) = MAX_DATA_STREAMS).
Proof.
  intros Hw. assert (Hi : stream_inv w).
  { assert (H0 : stream_inv (stream_world_new (S := S))) by (split; [cbn; rewrite available_new; lia|constructor]).
    revert H0. induction Hw as [|w1 w2 w3 Hs _ IH]; [done|]. intros H0. by eapply IH, stream_step_inv. }
  destruct Hi as [Hs Hl]. split; [|lia]. eapply Forall_impl; [exact Hl|]. cbn. intros l Hll. lia.
Qed.

Definition replies (l : list stream_effect) : list N := omap (λ x, match x with Replied n => Some n | _ => None end) l.

Lemma forward_effects config destination io effects r :
  forward config destination io = (effects, r) →
  effects = [] ∨
  let socks := bool_decide (tunnel_kind config = Socks5) in
  ∃ more, effects = Sent {| open_service := tunnel_name config; open_destination := destination |} :: more ∧
    (more = [] ∨
     more = [Replied 5] ∧ socks = true ∨
     more = (if socks then [Replied 0] else []) ++ [Relayed] ∧
       ∃ response, fe_response io = Some (Ok response) ∧ open_accepted response = true).
Proof.
  unfold forward. destruct (fe_open io) as [[|]|]; [|intros [= <- <-]; by left..].
  destruct (fe_write io) as [|]; [|intros [= <- <-]; by left].
  destruct (fe_response io) as [[response|]|] eqn:Er; [|intros [= <- <-]; right; eexists; by split; [|left]..].
  destruct (negb (open_accepted response)) eqn:Ea; [|apply negb_false_iff in Ea].
  - destruct (bool_decide (tunnel_kind config = Socks5)) eqn:Es; unfold after_reply; [destruct (fe_reply io)|];
      intros [= <- <-]; right; (eexists; split; [done|]); [by right; left|by left|by left].
  - destruct (bool_decide (tunnel_kind config = Socks5)) eqn:Es; unfold after_reply; [destruct (fe_reply io)|];
      intros [= <- <-]; right; (eexists; split; [done|]); [right; right|by left|right; right]; by eauto.
Qed.

(** What the public client of a connection sees.  A TCP client is sent nothing
    by the server itself; a SOCKS5 client is sent at most one reply, and its
    bytes are relayed only after reply 0.  Bytes are relayed only when a
    session owns the tunnel at that time and its client answered that it is
    connected; the one request it was sent names the tunnel, and the
    destination of the handshake exactly for SOCKS5. *)
Theorem stream_handled config rt handshake cut io effects r :
  handle config rt handshake cut io = (effects, r) →
  (length (replies effects) <= 1)%nat ∧ (tunnel_kind config ≠ Socks5 → replies effects = []) ∧
  (Relayed ∈ effects →
     is_Some (find rt (tunnel_name config)) ∧
     (∃ response, fe_response io = Some (Ok response) ∧ open_accepted response = true) ∧
     ∃ destination,
       effects = Sent {| open_service := tunnel_name config; open_destination := destination |}
                   :: (if bool_decide (tunnel_kind config = Socks5) then [Replied 0] else []) ++ [Relayed] ∧
       match destination with
       | Some d => tunnel_kind config = Socks5 ∧ handshake = Some (Ok d)
       | None => tunnel_kind config ≠ Socks5
       end).
Proof.
  unfold handle. intros E.
  assert (Hdest : ∃ dest, match dest with
      | Err e => (effects, r) = ([], Err e)
      | Ok destination =>
          match find rt (tunnel_name config) with
          | None => (effects, r) = (if bool_decide (tunnel_kind config = Socks5)
              then after_reply 1 (fe_reply io) ([], Err (Protocol "没有可用的内网客户端"))
              else ([], Err (Protocol "没有可用的内网客户端")))
          | Some _ => ∃ all res n, forward config destination io = (all, res) ∧ effects = take n all
          end ∧ match destination with
                | Some d => tunnel_kind config = Socks5 ∧ handshake = Some (Ok d)
                | None => tunnel_kind config ≠ Socks5
                end
      end).
  { case_bool_decide as Hk; [destruct handshake as [[d|e]|]|]; cbn [fmap result_fmap] in E;
      [exists (Ok (Some d))|by exists (Err e)|by eexists (Err _)|exists (Ok None)].
    all: destruct (find rt (tunnel_name config)) as [cs|]; [|by split].
    all: split; [|done]; destruct (forward config _ io) as [all res]; exists all, res.
    all: destruct cut as [n|]; injection E as <- <-; [by exists n|exists (length all); by rewrite firstn_all]. }
  destruct Hdest as ([destination|e] & Hd); [|injection Hd as -> _; split; [cbn; lia|]; by split; [|intros []%not_elem_of_nil]].
  destruct Hd as [Hd Hdk]. destruct (find rt (tunnel_name config)) as [cs|].
  - destruct Hd as (all & res & n & Ef & ->). apply forward_effects in Ef as [->|(more & -> & Hm)].
    { rewrite take_nil. split; [cbn; lia|]. by split; [|intros []%not_elem_of_nil]. }
    case_bool_decide as Hk; cbn zeta in Hm.
    + destruct Hm as [->|[[-> _]|[-> Ha]]]; destruct n as [|[|[|n]]]; cbn; rewrite ?take_nil; cbn; (split; [lia|]); (split; [done|]);
        intros Hin; repeat (apply elem_of_cons in Hin as [Hin|Hin]; try done); try (by apply not_elem_of_nil in Hin).
      split; [by eexists|]. split; [exact Ha|]. by exists destination.
    + destruct Hm as [->|[[-> ?]|[-> Ha]]]; [|done|]; destruct n as [|[|n]]; cbn; rewrite ?take_nil; cbn; (split; [lia|]); (split; [done|]);
        intros Hin; repeat (apply elem_of_cons in Hin as [Hin|Hin]; try done); try (by apply not_elem_of_nil in Hin).
      split; [by eexists|]. split; [exact Ha|]. by exists destination.
  - case_bool_decide as Hk; [unfold after_reply in Hd; destruct (fe_reply io)|]; injection Hd as -> _; (split; [cbn; lia|]);
      (split; [done|]); intros Hin; repeat (apply elem_of_cons in Hin as [Hin|Hin]; try done); by apply not_elem_of_nil in Hin.
Qed.

(** C24: from the public client to the private target.  When the client's table
    serves the tunnel with its kind (which [ClientLink.owned_tunnels_served]
    provides for owned tunnels) and the streams between server and client
    work, a connection is relayed to the target the client configured, or for
    SOCKS5 to the address of the handshake, exactly when the client connects
    to it and its answer is back within twenty seconds of the request; a
    SOCKS5 client is told so (reply 0).  A refused connection, answered in
    that time, is told to a SOCKS5 client (reply 5) and named.  A target that
    does not answer is not: the client gives up no earlier than the server,
    so that its rejection is never read, a SOCKS5 client gets no reply at
    all, and the failure names the server's own wait. *)
Theorem stream_end_to_end config rt handshake destination services v target tm lookup_host udp_bind udp_connect copy :
  let socks := bool_decide (tunnel_kind config = Socks5) in
  let request := {| open_service := tunnel_name config; open_destination := destination |} in
  let plan := handle_stream services (Some (Ok request)) in
  let io := {| fe_open := Some (Ok tt); fe_write := Ok tt;
               fe_response := response_seen tm plan lookup_host udp_bind udp_connect;
               fe_reply := Ok tt; fe_copy := copy |} in
  is_Some (find rt (tunnel_name config)) →
  services !! tunnel_name config = Some v → service_kind v = tunnel_kind config →
  (if socks then handshake = Some (Ok target) ∧ destination = Some target
   else tunnel_kind config = Tcp ∧ destination = None ∧ service_target v = Some target) →
  0 < st_request tm + st_response tm →
  let late := ([Sent request], Err (Timeout "等待内网连接响应")) in
  plan = ConnectTcp target ∧
  handle config rt handshake None io =
    match st_dial tm with
    | Some (t, connected) =>
        if st_request tm + t + st_response tm <=? 20000 then
          match connected with
          | Ok _ => (Sent request :: (if socks then [Replied 0] else []) ++ [Relayed], copy)
          | Err _ => (Sent request :: (if socks then [Replied 5] else []),
                      Err (Protocol ("内网目标连接失败: " ++ "目标连接失败")))
          end
        else late
    | None => late
    end.
Proof.
  intros socks request plan io [cs Hf] Hv Hk Ht Hway late.
  assert (Hplan : plan = ConnectTcp target).
  { unfold plan, handle_stream. cbn [request open_service open_destination]. rewrite Hv, Hk. unfold socks in Ht.
    case_bool_decide as Hs; [destruct Ht as [_ ->]; by rewrite Hs|destruct Ht as (-> & _ & ->); done]. }
  split; [exact Hplan|]. unfold io. rewrite Hplan. clear io. clearbody plan. clear Hplan. unfold handle. fold socks.
  assert (Hd : (if socks then match handshake with None => Err (Timeout "SOCKS5 握手") | Some r => Some <$> r end else Ok None)
               = Ok destination).
  { destruct socks; [by destruct Ht as [-> ->]|by destruct Ht as (_ & -> & _)]. }
  rewrite Hd, Hf. unfold forward. cbn [fe_open fe_write fe_response]. fold socks. fold request. clear Ht Hd.
  assert (Hseen : response_seen tm (ConnectTcp target) lookup_host udp_bind udp_connect =
    match st_dial tm with
    | Some (t, r) => if st_request tm + t + st_response tm <=? 20000
                     then Some (open_response (ConnectTcp target) (Some r) lookup_host udp_bind udp_connect) else None
    | None => None
    end).
  { unfold response_seen, dialled. change HANDSHAKE_TIMEOUT with 20000. destruct (st_dial tm) as [[t r]|].
    - destruct (N.leb_spec t 20000); [done|]. by rewrite !(proj2 (N.leb_gt _ _)) by lia.
    - by rewrite (proj2 (N.leb_gt _ _)) by lia. }
  rewrite Hseen. destruct (st_dial tm) as [[t [|]]|]; [destruct (_ <=? _); destruct socks; reflexivity..|reflexivity].
Qed.

(** ** Witnesses *)

Lemma stream_run_exists : ∃ w, rtc stream_step (stream_world_new (S := N)) w ∧ total_tasks (sw_listeners w) = 1.
Proof.
  eexists. split.
  - eapply rtc_l; [apply (ss_bind _ w_tunnel)|]. cbn.
    eapply rtc_l; [eapply (ss_turn _ 0 _ TurnAccepted); reflexivity|]. apply rtc_refl.
  - vm_compute. reflexivity.
Qed.

Lemma stream_limits_witness :
  ∃ w, total_tasks (sw_listeners w) = 1 ∧ Forall (λ l : stream_listener N, sl_tasks l <= sl_max l) (sw_listeners w).
Proof.
  destruct stream_run_exists as (w & Hr & Ht). exists w. split; [exact Ht|].
  eapply Forall_impl; [exact (proj1 (stream_limits w Hr))|]. cbn. intros l [Hl _]. exact Hl.
Defined.

(** A connection to the tunnel [web] of the session that is online. *)
Definition w_io : forward_io :=
  {| fe_open := Some (Ok tt); fe_write := Ok tt;
     fe_response := Some (Ok {| open_accepted := true; open_message := [] |}); fe_reply := Ok tt; fe_copy := Ok tt |}.

Lemma stream_handled_witness :
  let p := handle w_tunnel w_online None None w_io in
  Relayed ∈ p.1 ∧ is_Some (find w_online "web").
Proof.
  intros p. assert (Hin : Relayed ∈ p.1) by (vm_compute; right; left). split; [exact Hin|].
  exact (proj1 (proj2 (proj2 (stream_handled w_tunnel w_online None None w_io p.1 p.2 (surjective_pairing _))) Hin)).
Defined.

Definition web_here : ClientServiceConfig :=
  {| service_name := "web"; service_kind := Tcp; service_target := Some (lit "127.0.0.1:80") |}.

(** Two targets of a SOCKS5 tunnel: one that refuses, one that is silent. *)
Definition socks_tunnel : ServerTunnelConfig :=
  {| tunnel_name := "web"; tunnel_group := "office"; tunnel_kind := Socks5; tunnel_bind := tunnel_bind w_tunnel;
     local_ip := []; local_port := None; limit_bps := None; max_connections := 8;
     max_udp_sessions := 8; udp_idle_seconds := 60 |}.
Definition socks_here : ClientServiceConfig := {| service_name := "web"; service_kind := Socks5; service_target := None |}.
Definition timing (dial : option (N * result ErrorKind unit)) : stream_timing :=
  {| st_request := 30; st_response := 30; st_dial := dial |}.
Definition socks_run (dial : option (N * result ErrorKind unit)) : list stream_effect * Result unit :=
  handle socks_tunnel w_online (Some (Ok (lit "db:5432"))) None
    {| fe_open := Some (Ok tt); fe_write := Ok tt;
       fe_response := response_seen (timing dial)
         (handle_stream {[ lit "web" := socks_here ]} (Some (Ok {| open_service := tunnel_name socks_tunnel; open_destination := Some (lit "db:5432") |})))
         (Ok []) (Ok tt) (Ok tt);
       fe_reply := Ok tt; fe_copy := Ok tt |}.

Lemma stream_end_to_end_witness :
  replies (socks_run (Some (1000, Err NotFound))).1 = [5] ∧ replies (socks_run None).1 = [].
Proof.
  assert (Hf : is_Some (find w_online (tunnel_name socks_tunnel))) by (eexists; vm_compute; reflexivity).
  assert (Hs : ({[ lit "web" := socks_here ]} : gmap str ClientServiceConfig) !! tunnel_name socks_tunnel = Some socks_here) by apply lookup_singleton_eq.
  split; unfold socks_run.
  - rewrite (proj2 (stream_end_to_end socks_tunnel w_online (Some (Ok (lit "db:5432"))) (Some (lit "db:5432")) {[ lit "web" := socks_here ]}
      socks_here "db:5432" (timing (Some (1000, Err NotFound))) (Ok []) (Ok tt) (Ok tt) (Ok tt) Hf Hs eq_refl (conj eq_refl eq_refl) eq_refl)).
    reflexivity.
  - rewrite (proj2 (stream_end_to_end socks_tunnel w_online (Some (Ok (lit "db:5432"))) (Some (lit "db:5432")) {[ lit "web" := socks_here ]}
      socks_here "db:5432" (timing None) (Ok []) (Ok tt) (Ok tt) (Ok tt) Hf Hs eq_refl (conj eq_refl eq_refl) eq_refl)).
    reflexivity.
Defined.
