(* ===== verification/Datagrams.v ===== *)
(** * Datagrams: [gaterust-tunnel/src/server/udp.rs] and the loop of
    [handle_udp] in [client.rs]

    A UDP tunnel: one socket, a session per public peer, each with a bounded
    queue and a task that relays it.  Queued datagrams hold permits of the
    server's budget until they are dropped.  The steps of the listener's loop,
    of the tasks and of whatever else draws on the budget interleave freely.
    The loops that relay datagrams read them in one branch of a [select!], made
    anew on every turn ([relay_reads]). *)

From S2P Require Import Prelude RustStr Net Paths TunnelConfig Protocol Resource TunnelRuntime.

Definition SESSION_QUEUE : nat := 8.

(** ** The state of a listener *)

(** A task: the receiver of its channel, and the datagram it is working on
    ([relay_session] keeps it, with its permit, until it is written).  [None]
    after the task returned: everything it owned is dropped. *)
Record udp_task := {
  ut_peer : SocketAddr;
  ut_queue : list str;
  ut_current : option str }.

Record udp_listener := {
  ul_max : N;
  ul_sessions : gmap SocketAddr nat;
  ul_tasks : gmap nat udp_task;
  ul_finished : gmap nat SocketAddr;
  ul_next : nat }.

Section udp.
Context {S : Type} `{Semaphore S}.

Definition udp_bind (config : ServerTunnelConfig) : udp_listener :=
  {| ul_max := max_udp_sessions config; ul_sessions := ∅; ul_tasks := ∅; ul_finished := ∅; ul_next := 0 |}.

Definition set_task (l : udp_listener) (i : nat) (t : udp_task) : udp_listener :=
  {| ul_max := ul_max l; ul_sessions := ul_sessions l; ul_tasks := <[i := t]> (ul_tasks l);
     ul_finished := ul_finished l; ul_next := ul_next l |}.

(** [queued_datagram]: the permits for the payload. *)
Definition queued_datagram (budget : ResourceBudget S) (payload : str) : option (ResourceBudget S) :=
  try_queue_udp_bytes budget (len payload).

(** What the loop does with a datagram. *)
Inductive datagram_outcome := Queued | QueueFull | BytesFull | SessionsFull | StreamsFull | UdpSessionsFull | Opened.

Definition receive (budget : ResourceBudget S) (l : udp_listener) (peer : SocketAddr) (payload : str)
  : ResourceBudget S * udp_listener * datagram_outcome :=
  match ul_sessions l !! peer with
  | Some i =>
      match ul_tasks l !! i with
      | None => (budget, l, QueueFull)
      | Some t =>
          if (SESSION_QUEUE <=? length (ut_queue t))%nat then (budget, l, QueueFull) else
          match queued_datagram budget payload with
          | None => (budget, l, BytesFull)
          | Some budget =>
              (budget, set_task l i {| ut_peer := ut_peer t; ut_queue := ut_queue t ++ [payload]; ut_current := ut_current t |}, Queued)
          end
      end
  | None =>
      if ul_max l <=? N.of_nat (size (ul_sessions l)) then (budget, l, SessionsFull) else
      match try_data_stream budget with
      | None => (budget, l, StreamsFull)
      | Some b1 =>
          match try_udp_session b1 with
          | None => (drop_permit b1 PStream, l, UdpSessionsFull)
          | Some b2 =>
              match queued_datagram b2 payload with
              | None => (drop_permit (drop_permit b2 PUdpSession) PStream, l, BytesFull)
              | Some b3 =>
                  (b3, {| ul_max := ul_max l; ul_sessions := <[peer := ul_next l]> (ul_sessions l);
                          ul_tasks := <[ul_next l := {| ut_peer := peer; ut_queue := [payload]; ut_current := None |}]> (ul_tasks l);
                          ul_finished := ul_finished l; ul_next := Datatypes.S (ul_next l) |}, Opened)
              end
          end
      end
  end.

(** The permits of the datagrams of a task. *)
Definition drop_datagram (b : ResourceBudget S) (payload : str) : ResourceBudget S := drop_permit b (PUdpBytes (len payload)).
Definition task_datagrams (t : udp_task) : list str := option_list (ut_current t) ++ ut_queue t.

(** The task takes the next datagram, [recv]. *)
Definition task_recv (t : udp_task) : option udp_task :=
  match ut_current t, ut_queue t with
  | None, p :: q => Some {| ut_peer := ut_peer t; ut_queue := q; ut_current := Some p |}
  | _, _ => None
  end.
(** It has written it to the client. *)
Definition task_wrote (b : ResourceBudget S) (t : udp_task) : option (ResourceBudget S * udp_task) :=
  match ut_current t with
  | Some p => Some (drop_datagram b p, {| ut_peer := ut_peer t; ut_queue := ut_queue t; ut_current := None |})
  | None => None
  end.

(** The task ends, by a result, a panic or an abort: it drops its datagrams and
    its two permits.  The loop learns of it later ([joined]). *)
Definition task_end (b : ResourceBudget S) (l : udp_listener) (i : nat) : ResourceBudget S * udp_listener :=
  match ul_tasks l !! i with
  | None => (b, l)
  | Some t =>
      (drop_permit (drop_permit (foldl drop_datagram b (task_datagrams t)) PUdpSession) PStream,
       {| ul_max := ul_max l; ul_sessions := ul_sessions l; ul_tasks := delete i (ul_tasks l);
          ul_finished := <[i := ut_peer t]> (ul_finished l); ul_next := ul_next l |})
  end.

(** [join_next]: a task that panicked leaves its session in the table. *)
Definition joined (l : udp_listener) (i : nat) (panicked : bool) : udp_listener :=
  match ul_finished l !! i with
  | None => l
  | Some peer =>
      {| ul_max := ul_max l; ul_sessions := if panicked then ul_sessions l else delete peer (ul_sessions l);
         ul_tasks := ul_tasks l; ul_finished := delete i (ul_finished l); ul_next := ul_next l |}
  end.

(** The end of [run]: the table is cleared and the tasks are aborted. *)
Definition udp_close (b : ResourceBudget S) (l : udp_listener) : ResourceBudget S * udp_listener :=
  let '(b, l) := foldl (λ '(b, l) i, task_end b l i) (b, l) (map_to_list (ul_tasks l)).*1 in
  (b, {| ul_max := ul_max l; ul_sessions := ∅; ul_tasks := ul_tasks l; ul_finished := ∅; ul_next := ul_next l |}).

(** ** Steps *)

(** The budget is the server's: other listeners and the other tunnels take and
    drop permits of it too ([uw_others], the ones that are alive).  What a
    listener has been sent and what its tasks have passed on, per peer, is
    recorded beside the state. *)
Record udp_world := {
  uw_budget : ResourceBudget S;
  uw_listener : udp_listener;
  uw_received : list (SocketAddr * str);
  uw_forwarded : list (SocketAddr * str);
  uw_others : list permit }.

Inductive udp_step : udp_world → udp_world → Prop :=
  | us_receive w peer payload b l o :
      receive (uw_budget w) (uw_listener w) peer payload = (b, l, o) →
      udp_step w {| uw_budget := b; uw_listener := l; uw_received := uw_received w ++ [(peer, payload)];
                    uw_forwarded := uw_forwarded w; uw_others := uw_others w |}
  | us_recv w i t t' : ul_tasks (uw_listener w) !! i = Some t → task_recv t = Some t' →
      udp_step w {| uw_budget := uw_budget w; uw_listener := set_task (uw_listener w) i t'; uw_received := uw_received w;
                    uw_forwarded := uw_forwarded w; uw_others := uw_others w |}
  | us_wrote w i t p b t' : ul_tasks (uw_listener w) !! i = Some t → ut_current t = Some p →
      task_wrote (uw_budget w) t = Some (b, t') →
      udp_step w {| uw_budget := b; uw_listener := set_task (uw_listener w) i t'; uw_received := uw_received w;
                    uw_forwarded := uw_forwarded w ++ [(ut_peer t, p)]; uw_others := uw_others w |}
  | us_end w i b l : task_end (uw_budget w) (uw_listener w) i = (b, l) →
      udp_step w {| uw_budget := b; uw_listener := l; uw_received := uw_received w; uw_forwarded := uw_forwarded w; uw_others := uw_others w |}
  | us_joined w i panicked :
      udp_step w {| uw_budget := uw_budget w; uw_listener := joined (uw_listener w) i panicked;
                    uw_received := uw_received w; uw_forwarded := uw_forwarded w; uw_others := uw_others w |}
  | us_others w b ps : budget_step (uw_budget w, uw_others w) (b, ps) →
      udp_step w {| uw_budget := b; uw_listener := uw_listener w; uw_received := uw_received w;
                    uw_forwarded := uw_forwarded w; uw_others := ps |}.

Definition udp_world_new (config : ServerTunnelConfig) : udp_world :=
  {| uw_budget := ResourceBudget_new; uw_listener := udp_bind config; uw_received := []; uw_forwarded := []; uw_others := [] |}.
End udp.

(** ** One session *)

(** What [relay_session] does: to the client, and to the public peer. *)
Inductive udp_effect :=
  | UdpRequest (r : OpenRequest)
  | ToClient (payload : str)
  | ToPeer (payload : str).

(** An event of its loop, with the result of what follows it: a queued datagram
    that is written to the stream, one read from the stream that is sent to the
    peer, the end of the queue, or nothing for [udp_idle_seconds]. *)
Inductive session_event :=
  | Inbound (payload : str) (written : Result unit)
  | Outbound (read : Result str) (sent : Result unit)
  | QueueClosed
  | SessionIdle.

(** [None]: the session goes on. *)
Fixpoint relay_events (l : list session_event) : list udp_effect * option (Result unit) :=
  match l with
  | [] => ([], None)
  | ev :: l =>
      let continue (o : udp_effect) := let '(more, r) := relay_events l in (o :: more, r) in
      match ev with
      | Inbound p (Ok _) => continue (ToClient p)
      | Inbound _ (Err e) => ([], Some (Err e))
      | Outbound (Ok p) (Ok _) => continue (ToPeer p)
      | Outbound (Ok _) (Err e) | Outbound (Err e) _ => ([], Some (Err e))
      | QueueClosed => ([], Some (Ok tt))
      | SessionIdle => ([], Some (Err (Timeout "UDP 会话空闲")))
      end
  end.

Definition relay_session (config : ServerTunnelConfig) (opened : option (Result unit)) (written : Result unit)
  (response : option (Result OpenResponse)) (l : list session_event) : list udp_effect * option (Result unit) :=
  match opened with
  | None => ([], Some (Err (Timeout "打开 QUIC UDP 数据流")))
  | Some (Err e) => ([], Some (Err e))
  | Some (Ok _) =>
      match written with
      | Err e => ([], Some (Err e))
      | Ok _ =>
          let '(more, r) :=
            match response with
            | None => ([], Some (Err (Timeout "等待 UDP 目标响应")))
            | Some (Err e) => ([], Some (Err e))
            | Some (Ok response) =>
                if negb (open_accepted response)
                then ([], Some (Err (Protocol ("内网 UDP 目标连接失败: " ++ open_message response))))
                else relay_events l
            end in
          (UdpRequest {| open_service := tunnel_name config; open_destination := None |} :: more, r)
      end
  end.

(** [cut]: the effects before the token of the tunnel is cancelled. *)
Definition run_session (config : ServerTunnelConfig) (rt : TunnelRuntime) (cut : option nat) (opened : option (Result unit))
  (written : Result unit) (response : option (Result OpenResponse)) (l : list session_event)
  : list udp_effect * option (Result unit) :=
  match find rt (tunnel_name config) with
  | None => ([], Some (Err (Protocol "没有可用的内网客户端")))
  | Some _ =>
      let '(effects, r) := relay_session config opened written response l in
      match cut with Some n => (take n effects, Some (Ok tt)) | None => (effects, r) end
  end.

(** The bytes a session writes to the stream after its request. *)
Fixpoint stream_bytes (w : str) (effects : list udp_effect) : Result str :=
  match effects with
  | [] => Ok w
  | ToClient p :: effects => w ← write_datagram w p; stream_bytes w effects
  | _ :: effects => stream_bytes w effects
  end.
Definition to_client (effects : list udp_effect) : list str :=
  omap (λ e, match e with ToClient p => Some p | _ => None end) effects.

(** The loop of the client's [handle_udp] on [n] datagrams of the stream: what
    it sends to the target. *)
Fixpoint client_udp (n : nat) (buffer input : str) : Result (list str) :=
  match n with
  | O => Ok []
  | Datatypes.S n =>
      match read_datagram buffer input with
      | (Ok length, buffer, rest) => (take (N.to_nat length) buffer ::.) <$> client_udp n buffer rest
      | (Err e, _, _) => Err e
      end
  end.

(** ** Sums over the tasks *)

(** The [select!] loops of the client's [handle_udp] and of [relay_session], in
    which every turn makes a new [read_datagram] ([Fut]) and drops it when the
    other branch, a packet from the socket or the queue, is ready first.  An
    event is a poll of the reading branch with the bytes that have arrived, or
    the other branch; the result is the datagrams that were read. *)
Inductive relay_event := StreamBytes (arrived : str) | OtherReady (packet : str).

Fixpoint read_arrived (fuel : nat) (s : Fut.state) (arrived : str) : list str * Fut.state :=
  match Fut.poll s arrived, fuel with
  | Fut.Pending s, _ => ([], s)
  | Fut.Ready p unread, O => ([p], Fut.start)
  | Fut.Ready p unread, Datatypes.S fuel => let '(l, s) := read_arrived fuel Fut.start unread in (p :: l, s)
  end.

Fixpoint relay_reads (s : Fut.state) (events : list relay_event) : list str :=
  match events with
  | [] => []
  | StreamBytes c :: events => let '(l, s) := read_arrived (length c) s c in l ++ relay_reads s events
  | OtherReady _ :: events => relay_reads Fut.start events
  end.

Definition msum (f : udp_task → N) (m : gmap nat udp_task) : N := map_fold (λ _ t n, f t + n) 0 m.

Lemma msum_insert f m i t : m !! i = None → msum f (<[i:=t]> m) = f t + msum f m.
Proof. intros Hi. unfold msum. rewrite map_fold_insert_L; [done|intros; lia|done]. Qed.

Lemma msum_delete f m i t : m !! i = Some t → msum f m = f t + msum f (delete i m).
Proof. intros Hi. unfold msum. rewrite (map_fold_delete_L _ _ i t); [done|intros; lia|done]. Qed.

Lemma msum_update f m i t t' : m !! i = Some t → msum f (<[i:=t']> m) + f t = msum f m + f t'.
Proof.
  intros Hi. rewrite (msum_delete f m i t Hi), <- insert_delete_eq, msum_insert by apply lookup_delete_eq. lia.
Qed.

Definition datagram_bytes (l : list str) : N := foldr (λ p n, len p + n) 0 l.
Definition task_bytes (t : udp_task) : N := datagram_bytes (task_datagrams t).

Lemma datagram_bytes_app l k : datagram_bytes (l ++ k) = datagram_bytes l + datagram_bytes k.
Proof. unfold datagram_bytes. induction l as [|x l IH]; cbn; [done|]. rewrite IH. lia. Qed.

(** The datagrams of one peer. *)
Definition from_peer (peer : SocketAddr) (l : list (SocketAddr * str)) : list str := (filter (λ x, x.1 = peer) l).*2.

Lemma from_peer_app p l k : from_peer p (l ++ k) = from_peer p l ++ from_peer p k.
Proof. unfold from_peer. by rewrite filter_app, fmap_app. Qed.
Lemma from_peer_same p d : from_peer p [(p, d)] = [d].
Proof. unfold from_peer. by rewrite filter_cons_True. Qed.
Lemma from_peer_other p q d : q ≠ p → from_peer p [(q, d)] = [].
Proof. intros Hq. unfold from_peer. by rewrite filter_cons_False. Qed.

Lemma from_peer_grows p q d l : from_peer p l `sublist_of` from_peer p (l ++ [(q, d)]).
Proof. rewrite from_peer_app. by apply sublist_inserts_r. Qed.

(** ** The invariant *)

Section invariant.
Context {S : Type} `{Semaphore S}.

Record udp_inv (w : udp_world (S := S)) : Prop := {
  ui_streams : available (data_streams (uw_budget w)) + N.of_nat (size (ul_tasks (uw_listener w))) + streams_held (uw_others w) = MAX_DATA_STREAMS;
  ui_sessions : available (udp_sessions (uw_budget w)) + N.of_nat (size (ul_tasks (uw_listener w))) + sessions_held (uw_others w) = MAX_UDP_SESSIONS;
  ui_bytes : available (queued_udp_bytes (uw_budget w)) + msum task_bytes (ul_tasks (uw_listener w)) + bytes_held (uw_others w) = MAX_QUEUED_UDP_BYTES;
  ui_table : N.of_nat (size (ul_sessions (uw_listener w))) <= ul_max (uw_listener w);
  ui_owner : ∀ i t, ul_tasks (uw_listener w) !! i = Some t →
    ul_sessions (uw_listener w) !! ut_peer t = Some i ∧ ul_finished (uw_listener w) !! i = None ∧
    (i < ul_next (uw_listener w))%nat ∧ (length (ut_queue t) <= SESSION_QUEUE)%nat ∧
    from_peer (ut_peer t) (uw_forwarded w) ++ task_datagrams t `sublist_of` from_peer (ut_peer t) (uw_received w);
  ui_finished : ∀ i p, ul_finished (uw_listener w) !! i = Some p →
    ul_sessions (uw_listener w) !! p = Some i ∧ (i < ul_next (uw_listener w))%nat;
  ui_entries : ∀ p i, ul_sessions (uw_listener w) !! p = Some i → (i < ul_next (uw_listener w))%nat ∧
    ∀ t, ul_tasks (uw_listener w) !! i = Some t → ut_peer t = p;
  ui_order : ∀ p, from_peer p (uw_forwarded w) `sublist_of` from_peer p (uw_received w) }.

Lemma try_udp_session_ok (b b' : ResourceBudget S) :
  try_udp_session b = Some b' → available (udp_sessions b') + 1 = available (udp_sessions b) ∧
    data_streams b' = data_streams b ∧ queued_udp_bytes b' = queued_udp_bytes b.
Proof.
  unfold try_udp_session, try_acquire. destruct (try_acquire_many (udp_sessions b) 1) as [s|] eqn:E; [|done].
  cbn. intros [= <-]. apply try_acquire_ok in E as [H1 H2]. cbn. split; [lia|done].
Qed.

Lemma try_data_stream_ok' (b b' : ResourceBudget S) :
  try_data_stream b = Some b' → available (data_streams b') + 1 = available (data_streams b) ∧
    udp_sessions b' = udp_sessions b ∧ queued_udp_bytes b' = queued_udp_bytes b.
Proof.
  unfold try_data_stream, try_acquire. destruct (try_acquire_many (data_streams b) 1) as [s|] eqn:E; [|done].
  cbn. intros [= <-]. apply try_acquire_ok in E as [H1 H2]. cbn. split; [lia|done].
Qed.

Lemma queued_datagram_ok (b b' : ResourceBudget S) p :
  queued_datagram b p = Some b' → available (queued_udp_bytes b') + len p = available (queued_udp_bytes b) ∧
    data_streams b' = data_streams b ∧ udp_sessions b' = udp_sessions b.
Proof.
  unfold queued_datagram, try_queue_udp_bytes. destruct (_ <? _); [done|].
  destruct (try_acquire_many (queued_udp_bytes b) (len p)) as [s|] eqn:E; [|done].
  cbn. intros [= <-]. apply try_acquire_ok in E as [H1 H2]. cbn. split; [lia|done].
Qed.

Lemma drop_datagrams_bytes l : ∀ b : ResourceBudget S,
  available (queued_udp_bytes (foldl drop_datagram b l)) = available (queued_udp_bytes b) + datagram_bytes l ∧
  data_streams (foldl drop_datagram b l) = data_streams b ∧ udp_sessions (foldl drop_datagram b l) = udp_sessions b.
Proof.
  induction l as [|p l IH]; intros b; cbn [foldl]; [cbn; split; [lia|done]|].
  destruct (IH (drop_datagram b p)) as (H1 & H2 & H3). rewrite H1, H2, H3.
  change (datagram_bytes (p :: l)) with (len p + datagram_bytes l).
  cbn [drop_datagram drop_permit queued_udp_bytes data_streams udp_sessions]. rewrite available_release. split; [lia|done].
Qed.

(** A received datagram changes nothing but the history when it is dropped. *)
Lemma received_grows w peer payload b :
  udp_inv w → available (data_streams b) = available (data_streams (uw_budget w)) →
  available (udp_sessions b) = available (udp_sessions (uw_budget w)) →
  available (queued_udp_bytes b) = available (queued_udp_bytes (uw_budget w)) →
  udp_inv {| uw_budget := b; uw_listener := uw_listener w; uw_received := uw_received w ++ [(peer, payload)];
             uw_forwarded := uw_forwarded w; uw_others := uw_others w |}.
Proof.
  intros [] Hd Hu Hq. split; cbn; rewrite ?Hd, ?Hu, ?Hq; try done.
  - intros i t Ht. destruct (ui_owner0 i t Ht) as (H1 & H2 & H3 & H4 & H5). split_and!; try done.
    etransitivity; [exact H5|apply from_peer_grows].
  - intros p. etransitivity; [apply ui_order0|apply from_peer_grows].
Qed.

(** One task changes, and the histories of its peer. *)
Lemma update_inv w i t t' b rec fwd :
  udp_inv w → ul_tasks (uw_listener w) !! i = Some t → ut_peer t' = ut_peer t → (length (ut_queue t') <= SESSION_QUEUE)%nat →
  available (data_streams b) = available (data_streams (uw_budget w)) →
  available (udp_sessions b) = available (udp_sessions (uw_budget w)) →
  available (queued_udp_bytes b) + task_bytes t' = available (queued_udp_bytes (uw_budget w)) + task_bytes t →
  (∀ p, p ≠ ut_peer t → from_peer p fwd = from_peer p (uw_forwarded w) ∧ from_peer p rec = from_peer p (uw_received w)) →
  from_peer (ut_peer t) fwd ++ task_datagrams t' `sublist_of` from_peer (ut_peer t) rec →
  udp_inv {| uw_budget := b; uw_listener := set_task (uw_listener w) i t'; uw_received := rec; uw_forwarded := fwd; uw_others := uw_others w |}.
Proof.
  intros [] Et Hp Hq Hd Hu Hb Hother Hsub.
  split; cbn [uw_budget uw_listener uw_received uw_forwarded uw_others set_task ul_tasks ul_sessions ul_max ul_finished ul_next].
  - rewrite map_size_insert_Some by eauto. lia.
  - rewrite map_size_insert_Some by eauto. lia.
  - assert (Hs := msum_update task_bytes _ i t t' Et). lia.
  - done.
  - intros j u Hj. destruct (decide (j = i)) as [->|Hne].
    + rewrite lookup_insert_eq in Hj. injection Hj as <-. rewrite Hp. destruct (ui_owner0 i t Et) as (K1 & K2 & K3 & _). by split_and!.
    + rewrite lookup_insert_ne in Hj by done. destruct (ui_owner0 j u Hj) as (K1 & K2 & K3 & K4 & K5). split_and!; try done.
      destruct (Hother (ut_peer u)) as [-> ->]; [|done]. intros Hsame. destruct (ui_owner0 i t Et) as (K6 & _). congruence.
  - done.
  - intros p j Hj. destruct (ui_entries0 p j Hj) as [K1 K2]. split; [done|]. intros u Hu'. destruct (decide (j = i)) as [->|Hne].
    + rewrite lookup_insert_eq in Hu'. injection Hu' as <-. rewrite Hp. by apply K2.
    + rewrite lookup_insert_ne in Hu' by done. by apply K2.
  - intros p. destruct (decide (p = ut_peer t)) as [->|Hne].
    + etransitivity; [|exact Hsub]. by apply sublist_inserts_r.
    + destruct (Hother p Hne) as [-> ->]. apply ui_order0.
Qed.

Lemma queue_inv w peer i t payload b :
  udp_inv w → ul_sessions (uw_listener w) !! peer = Some i → ul_tasks (uw_listener w) !! i = Some t →
  (SESSION_QUEUE <=? length (ut_queue t))%nat = false → queued_datagram (uw_budget w) payload = Some b →
  udp_inv {| uw_budget := b;
             uw_listener := set_task (uw_listener w) i {| ut_peer := ut_peer t; ut_queue := ut_queue t ++ [payload]; ut_current := ut_current t |};
             uw_received := uw_received w ++ [(peer, payload)]; uw_forwarded := uw_forwarded w; uw_others := uw_others w |}.
Proof.
  intros Hi Es Et Eq Eb. destruct (queued_datagram_ok _ _ _ Eb) as (H1 & H2 & H3). apply Nat.leb_gt in Eq.
  assert (Hp : ut_peer t = peer) by (by apply (ui_entries w Hi peer i Es)).
  eapply update_inv; [exact Hi|exact Et|done|cbn; rewrite length_app; cbn; lia|by rewrite H2|by rewrite H3|..].
  - unfold task_bytes, task_datagrams. cbn [ut_queue ut_current]. rewrite !datagram_bytes_app.
    change (datagram_bytes [payload]) with (len payload + 0). lia.
  - intros p Hne. by rewrite from_peer_app, from_peer_other, app_nil_r by congruence.
  - rewrite from_peer_app, Hp, from_peer_same. unfold task_datagrams. cbn [ut_queue ut_current]. rewrite !(assoc_L (++)).
    apply sublist_app; [|done]. rewrite <- (assoc_L (++)), <- Hp. by destruct (ui_owner w Hi i t Et) as (_ & _ & _ & _ & K).
Qed.

Lemma recv_inv w i t t' :
  udp_inv w → ul_tasks (uw_listener w) !! i = Some t → task_recv t = Some t' →
  udp_inv {| uw_budget := uw_budget w; uw_listener := set_task (uw_listener w) i t'; uw_received := uw_received w;
             uw_forwarded := uw_forwarded w; uw_others := uw_others w |}.
Proof.
  intros Hi Et. unfold task_recv. destruct (ut_current t) as [|] eqn:Ec; [done|]. destruct (ut_queue t) as [|p q] eqn:Eq; [done|].
  intros [= <-]. destruct (ui_owner w Hi i t Et) as (_ & _ & _ & K4 & K5). rewrite Eq in K4. cbn in K4.
  eapply update_inv; [exact Hi|exact Et|done|cbn; lia|done|done|..]; unfold task_bytes, task_datagrams in *; cbn [ut_queue ut_current];
    rewrite Ec, Eq in *; done.
Qed.

Lemma wrote_inv w i t p b t' :
  udp_inv w → ul_tasks (uw_listener w) !! i = Some t → ut_current t = Some p → task_wrote (uw_budget w) t = Some (b, t') →
  udp_inv {| uw_budget := b; uw_listener := set_task (uw_listener w) i t'; uw_received := uw_received w;
             uw_forwarded := uw_forwarded w ++ [(ut_peer t, p)]; uw_others := uw_others w |}.
Proof.
  intros Hi Et Ec. unfold task_wrote. rewrite Ec. intros [= <- <-]. destruct (ui_owner w Hi i t Et) as (_ & _ & _ & K4 & K5).
  eapply update_inv; [exact Hi|exact Et|done|done|done|done|..]; unfold task_bytes, task_datagrams in *; cbn [ut_queue ut_current];
    rewrite Ec in *; cbn [option_list app] in *.
  - cbn. rewrite available_release. lia.
  - intros q Hne. by rewrite from_peer_app, from_peer_other, app_nil_r by congruence.
  - by rewrite from_peer_app, from_peer_same, <- (assoc_L (++)).
Qed.

Lemma end_inv w i b l :
  udp_inv w → task_end (uw_budget w) (uw_listener w) i = (b, l) →
  udp_inv {| uw_budget := b; uw_listener := l; uw_received := uw_received w; uw_forwarded := uw_forwarded w; uw_others := uw_others w |}.
Proof.
  intros Hi. unfold task_end. destruct (ul_tasks (uw_listener w) !! i) as [t|] eqn:Et; intros [= <- <-]; [|by destruct w].
  destruct (drop_datagrams_bytes (task_datagrams t) (uw_budget w)) as (D1 & D2 & D3). destruct Hi.
  assert (Hsz : size (ul_tasks (uw_listener w)) = Datatypes.S (size (delete i (ul_tasks (uw_listener w))))).
  { rewrite <- (insert_delete_id _ i t Et) at 1. by rewrite map_size_insert_None by apply lookup_delete_eq. }
  split; cbn [uw_budget uw_listener uw_received uw_forwarded uw_others ul_tasks ul_sessions ul_max ul_finished ul_next drop_permit data_streams
              udp_sessions queued_udp_bytes]; rewrite ?available_release, ?D1, ?D2, ?D3.
  - lia.
  - lia.
  - assert (Hs := msum_delete task_bytes _ i t Et). unfold task_bytes at 2 in Hs. lia.
  - done.
  - intros j u Hj. apply lookup_delete_Some in Hj as [Hne Hj]. destruct (ui_owner0 j u Hj) as (K1 & K2 & K3 & K4 & K5).
    rewrite lookup_insert_ne by done. by split_and!.
  - intros j p Hj. destruct (decide (j = i)) as [->|Hne].
    + rewrite lookup_insert_eq in Hj. injection Hj as <-. by destruct (ui_owner0 i t Et) as (K1 & K2 & K3 & _).
    + rewrite lookup_insert_ne in Hj by done. by apply ui_finished0.
  - intros p j Hj. destruct (ui_entries0 p j Hj) as [K1 K2]. split; [done|]. intros u [_ Hu]%lookup_delete_Some. by apply K2.
  - done.
Qed.

Lemma joined_inv w i panicked :
  udp_inv w →
  udp_inv {| uw_budget := uw_budget w; uw_listener := joined (uw_listener w) i panicked;
             uw_received := uw_received w; uw_forwarded := uw_forwarded w; uw_others := uw_others w |}.
Proof.
  intros Hi. unfold joined. destruct (ul_finished (uw_listener w) !! i) as [p|] eqn:Ef; [|by destruct w].
  destruct Hi. destruct (ui_finished0 i p Ef) as [Hs _].
  split; cbn [uw_budget uw_listener uw_received uw_forwarded uw_others ul_tasks ul_sessions ul_max ul_finished ul_next]; try done.
  - destruct panicked; [done|]. rewrite map_size_delete_Some by eauto. lia.
  - intros j u Hj. destruct (ui_owner0 j u Hj) as (K1 & K2 & K3 & K4 & K5). split_and!; try done.
    + destruct panicked; [done|]. rewrite lookup_delete_ne; [done|]. intros ->. congruence.
    + by apply lookup_delete_None; right.
  - intros j q [Hne Hj]%lookup_delete_Some. destruct (ui_finished0 j q Hj) as [K1 K2]. split; [|done].
    destruct panicked; [done|]. rewrite lookup_delete_ne; [done|]. intros ->. congruence.
  - intros q j Hj. apply ui_entries0. destruct panicked; [done|]. by apply lookup_delete_Some in Hj as [_ Hj].
Qed.

(** A new session. *)
Lemma open_inv w peer payload b :
  udp_inv w → ul_sessions (uw_listener w) !! peer = None →
  N.of_nat (size (ul_sessions (uw_listener w))) < ul_max (uw_listener w) →
  available (data_streams b) + 1 = available (data_streams (uw_budget w)) →
  available (udp_sessions b) + 1 = available (udp_sessions (uw_budget w)) →
  available (queued_udp_bytes b) + len payload = available (queued_udp_bytes (uw_budget w)) →
  let l := uw_listener w in
  udp_inv {| uw_budget := b;
             uw_listener := {| ul_max := ul_max l; ul_sessions := <[peer := ul_next l]> (ul_sessions l);
                               ul_tasks := <[ul_next l := {| ut_peer := peer; ut_queue := [payload]; ut_current := None |}]> (ul_tasks l);
                               ul_finished := ul_finished l; ul_next := Datatypes.S (ul_next l) |};
             uw_received := uw_received w ++ [(peer, payload)]; uw_forwarded := uw_forwarded w; uw_others := uw_others w |}.
Proof.
  intros Hi Es Hm Hd Hu Hb l. subst l. destruct Hi.
  assert (Hnew : ul_tasks (uw_listener w) !! ul_next (uw_listener w) = None).
  { destruct (ul_tasks (uw_listener w) !! ul_next (uw_listener w)) as [t|] eqn:E; [|done].
    destruct (ui_owner0 _ _ E) as (_ & _ & K & _). lia. }
  split; cbn [uw_budget uw_listener uw_received uw_forwarded uw_others ul_tasks ul_sessions ul_max ul_finished ul_next].
  - rewrite map_size_insert_None by done. lia.
  - rewrite map_size_insert_None by done. lia.
  - rewrite msum_insert by done. change (task_bytes _) with (len payload + 0) at 1. lia.
  - rewrite map_size_insert_None by done. lia.
  - intros j u Hj. apply lookup_insert_Some in Hj as [[<- <-]|[Hne Hj]]; cbn [ut_peer ut_queue].
    + rewrite lookup_insert_eq. split_and!; [done| |lia|unfold SESSION_QUEUE; cbn; lia|].
      * destruct (ul_finished (uw_listener w) !! ul_next (uw_listener w)) as [q|] eqn:E; [|done].
        destruct (ui_finished0 _ _ E) as [_ K]. lia.
      * rewrite from_peer_app, from_peer_same. unfold task_datagrams. cbn. apply sublist_app; [apply ui_order0|done].
    + destruct (ui_owner0 j u Hj) as (K1 & K2 & K3 & K4 & K5). rewrite lookup_insert_ne by congruence.
      split_and!; try done; [lia|]. etransitivity; [exact K5|apply from_peer_grows].
  - intros j q Hj. destruct (ui_finished0 j q Hj) as [K1 K2]. rewrite lookup_insert_ne by congruence. split; [done|lia].
  - intros q j Hj. apply lookup_insert_Some in Hj as [[<- <-]|[Hne Hj]].
    + split; [lia|]. intros u Hu'. rewrite lookup_insert_eq in Hu'. by injection Hu' as <-.
    + destruct (ui_entries0 q j Hj) as [K1 K2]. split; [lia|]. intros u Hu'. rewrite lookup_insert_ne in Hu' by lia. by apply K2.
  - intros p. etransitivity; [apply ui_order0|apply from_peer_grows].
Qed.

Lemma receive_inv w peer payload b l o :
  udp_inv w → receive (uw_budget w) (uw_listener w) peer payload = (b, l, o) →
  udp_inv {| uw_budget := b; uw_listener := l; uw_received := uw_received w ++ [(peer, payload)];
             uw_forwarded := uw_forwarded w; uw_others := uw_others w |}.
Proof.
  intros Hi. unfold receive. destruct (ul_sessions (uw_listener w) !! peer) as [i|] eqn:Es.
  - destruct (ul_tasks (uw_listener w) !! i) as [t|] eqn:Et; [|intros [= <- <- <-]; by apply received_grows].
    destruct (SESSION_QUEUE <=? _)%nat eqn:Eq; [intros [= <- <- <-]; by apply received_grows|].
    destruct (queued_datagram (uw_budget w) payload) as [b1|] eqn:Eb; [|intros [= <- <- <-]; by apply received_grows].
    intros [= <- <- <-]. by eapply queue_inv.
  - destruct (_ <=? _) eqn:Em; [intros [= <- <- <-]; by apply received_grows|].
    destruct (try_data_stream (uw_budget w)) as [b1|] eqn:E1; [|intros [= <- <- <-]; by apply received_grows].
    destruct (try_data_stream_ok' _ _ E1) as (A1 & A2 & A3).
    destruct (try_udp_session b1) as [b2|] eqn:E2.
    2: { intros [= <- <- <-]. apply received_grows; cbn; rewrite ?available_release, ?A2, ?A3; [done|lia|done|done]. }
    destruct (try_udp_session_ok _ _ E2) as (B1 & B2 & B3).
    destruct (queued_datagram b2 payload) as [b3|] eqn:E3.
    2: { intros [= <- <- <-]. apply received_grows; cbn; rewrite ?available_release, ?B2, ?B3, ?A2, ?A3; [done|lia| |done].
         rewrite A2 in B1. lia. }
    destruct (queued_datagram_ok _ _ _ E3) as (C1 & C2 & C3).
    intros [= <- <- <-]. eapply open_inv; [exact Hi|exact Es|by apply N.leb_gt in Em|..]; rewrite ?C2, ?C3, ?B2, ?B3 in *;
      rewrite ?A2, ?A3 in *; lia.
Qed.

(** What the others take and drop is balanced. *)
Lemma others_balance (b b' : ResourceBudget S) ps ps' : budget_step (b, ps) (b', ps') →
  available (data_streams b') + streams_held ps' = available (data_streams b) + streams_held ps ∧
  available (udp_sessions b') + sessions_held ps' = available (udp_sessions b) + sessions_held ps ∧
  available (queued_udp_bytes b') + bytes_held ps' = available (queued_udp_bytes b) + bytes_held ps.
Proof.
  intros Hs. inversion Hs as [? ? p ? Ht|? p l k]; subst.
  - destruct p as [| |n]; cbn [take_permit] in Ht; cbn [streams_held sessions_held bytes_held foldr].
    + destruct (try_data_stream_ok' _ _ Ht) as (? & -> & ->). unfold streams_held, sessions_held, bytes_held. lia.
    + destruct (try_udp_session_ok _ _ Ht) as (? & -> & ->). unfold streams_held, sessions_held, bytes_held. lia.
    + unfold try_queue_udp_bytes in Ht. destruct (_ <? _); [done|].
      destruct (try_acquire_many (queued_udp_bytes b) n) as [s|] eqn:E; [|done]. injection Ht as <-.
      apply try_acquire_ok in E as [H1 H2]. cbn. unfold streams_held, sessions_held, bytes_held. lia.
  - destruct (held_app l (p :: k)) as (-> & -> & ->). destruct (held_app l k) as (-> & -> & ->).
    unfold streams_held, sessions_held, bytes_held. destruct p; cbn; rewrite available_release; lia.
Qed.

Lemma udp_step_inv w w' : udp_step w w' → udp_inv w → udp_inv w'.
Proof.
  intros [w0 peer payload b l o Hr|w0 i t t' Ht Hr|w0 i t p b t' Ht Hp Hr|w0 i b l He|w0 i panicked|w0 b ps Hb] Hi.
  - by eapply receive_inv.
  - by eapply recv_inv.
  - by eapply wrote_inv.
  - by eapply end_inv.
  - by apply joined_inv.
  - destruct (others_balance _ _ _ _ Hb) as (H1 & H2 & H3). destruct Hi. split; cbn [uw_budget uw_listener uw_received uw_forwarded uw_others]; try done; lia.
Qed.
End invariant.

Lemma udp_inv_new {S} `{Semaphore S} config : udp_inv (udp_world_new (S := S) config).
Proof. split; cbn; rewrite ?available_new, ?map_size_empty; try done; lia. Qed.

Lemma udp_reachable {S} `{Semaphore S} config (w : udp_world (S := S)) :
  rtc udp_step (udp_world_new config) w → udp_inv w.
Proof.
  intros Hw. assert (H0 := udp_inv_new (S := S) config). revert H0.
  induction Hw as [|w1 w2 w3 Hs _ IH]; [done|]. intros H0. by eapply IH, udp_step_inv.
Qed.

(** The entry of a peer refers to no task. *)
Definition wedged (l : udp_listener) (peer : SocketAddr) : Prop :=
  ∃ i, ul_sessions l !! peer = Some i ∧ (i < ul_next l)%nat ∧ ul_tasks l !! i = None ∧ ul_finished l !! i = None.

Lemma wedged_receive {S} `{Semaphore S} (b b' : ResourceBudget S) l l' p payload o peer :
  wedged l peer → receive b l p payload = (b', l', o) → wedged l' peer.
Proof.
  intros (i & K1 & K2 & K3 & K4). unfold receive. destruct (ul_sessions l !! p) as [j|] eqn:Es.
  - destruct (ul_tasks l !! j) as [t|] eqn:Et; [|intros [= <- <- <-]; by exists i].
    destruct (_ <=? _)%nat; [intros [= <- <- <-]; by exists i|].
    destruct (queued_datagram b payload); intros [= <- <- <-]; exists i; [|done].
    cbn. rewrite lookup_insert_ne by congruence. done.
  - destruct (_ <=? _); [intros [= <- <- <-]; by exists i|].
    destruct (try_data_stream b) as [b1|]; [|intros [= <- <- <-]; by exists i].
    destruct (try_udp_session b1) as [b2|]; [|intros [= <- <- <-]; by exists i].
    destruct (queued_datagram b2 payload) as [b3|]; intros [= <- <- <-]; exists i; [|done].
    cbn. rewrite !lookup_insert_ne by (congruence || lia). split_and!; try done. lia.
Qed.

Lemma wedged_step {S} `{Semaphore S} (w w' : udp_world (S := S)) peer :
  udp_inv w → udp_step w w' → wedged (uw_listener w) peer → wedged (uw_listener w') peer.
Proof.
  intros Hi Hs. revert Hi.
  destruct Hs as [w0 p payload b l o Hr|w0 j t t' Ht Hr|w0 j t p b t' Ht Hp Hr|w0 j b l He|w0 j panicked|w0 b ps Hb]; intros Hi Hw; cbn [uw_listener]; [..|done].
  - by eapply wedged_receive.
  - destruct Hw as (i & K1 & K2 & K3 & K4). exists i. cbn. rewrite lookup_insert_ne by congruence. done.
  - destruct Hw as (i & K1 & K2 & K3 & K4). exists i. cbn. rewrite lookup_insert_ne by congruence. done.
  - unfold task_end in He. destruct (ul_tasks (uw_listener w0) !! j) as [t|] eqn:Et; injection He as _ <-; [|done].
    destruct Hw as (i & K1 & K2 & K3 & K4). exists i. cbn.
    rewrite lookup_delete_None, lookup_insert_ne by congruence. split_and!; try done. by right.
  - unfold joined. destruct (ul_finished (uw_listener w0) !! j) as [q|] eqn:Ef; [|done].
    destruct Hw as (i & K1 & K2 & K3 & K4). exists i. cbn. split_and!; try done; [|by apply lookup_delete_None; right].
    destruct panicked; [done|]. rewrite lookup_delete_ne; [done|]. intros ->.
    destruct (ui_finished w0 Hi j peer Ef). congruence.
Qed.

Lemma stream_bytes_read effects : ∀ w bytes,
  stream_bytes w effects = Ok bytes →
  ∃ tail, bytes = w ++ tail ∧
    ∀ buffer rest, client_udp (length (to_client effects)) buffer (tail ++ rest) = Ok (to_client effects).
Proof.
  induction effects as [|ef effects IH]; intros w bytes; cbn [stream_bytes]; [intros [= <-]; exists []; by rewrite app_nil_r|].
  destruct ef as [r|p|p]; [apply IH| |apply IH]. rewrite bind_ok. intros (w1 & Hw & E).
  apply write_datagram_ok in Hw as [Hle ->]. destruct (IH _ _ E) as (tail & -> & Ht).
  exists ((to_be 2 (len p) ++ p) ++ tail). split; [by rewrite !(assoc_L (++))|]. intros buffer rest.
  change (to_client (ToClient p :: effects)) with (p :: to_client effects). cbn [length client_udp].
  assert (Hr : read_datagram buffer (((to_be 2 (len p) ++ p) ++ tail) ++ rest) = (Ok (len p), p, tail ++ rest)).
  { apply read_datagram_ok. exists (to_be 2 (len p)). rewrite <- !(assoc_L (++)).
    split_and!; [done|by rewrite length_to_be| |done].
    apply of_be_to_be. unfold MAX_DATAGRAM, u16_max in Hle. change (256 ^ N.of_nat 2) with 65536. lia. }
  rewrite Hr, Ht. cbn. unfold len. rewrite Nat2N.id, firstn_all. done.
Qed.

(** ** Theorems *)

(** C27: in every interleaving of the loop of a listener with its tasks: the table
    of sessions never exceeds the configured maximum, no queue holds more than
    eight datagrams; of the server's budget, which other listeners and tunnels
    draw on at the same time, exactly the permits of what lives are taken: a
    data stream and a UDP session for each task, the bytes of the datagrams
    it holds, and the permits of the others; and what is passed on for a peer
    is a subsequence of what that peer sent: datagrams may be dropped, but are
    never reordered, repeated or mixed up between peers. *)
Theorem udp_sessions_isolated {S} `{Semaphore S} config (w : udp_world (S := S)) :
  rtc udp_step (udp_world_new config) w →
  N.of_nat (size (ul_sessions (uw_listener w))) <= ul_max (uw_listener w) ∧
  (∀ i t, ul_tasks (uw_listener w) !! i = Some t →
     (length (ut_queue t) <= SESSION_QUEUE)%nat ∧ ul_sessions (uw_listener w) !! ut_peer t = Some i) ∧
  available (data_streams (uw_budget w)) + N.of_nat (size (ul_tasks (uw_listener w))) + streams_held (uw_others w) = MAX_DATA_STREAMS ∧
  available (udp_sessions (uw_budget w)) + N.of_nat (size (ul_tasks (uw_listener w))) + sessions_held (uw_others w) = MAX_UDP_SESSIONS ∧
  available (queued_udp_bytes (uw_budget w)) + msum task_bytes (ul_tasks (uw_listener w)) + bytes_held (uw_others w) = MAX_QUEUED_UDP_BYTES ∧
  ∀ p, from_peer p (uw_forwarded w) `sublist_of` from_peer p (uw_received w).
Proof.
  intros Hw. assert (Hi : udp_inv w).
  { assert (H0 : udp_inv (udp_world_new (S := S) config)).
    { apply udp_inv_new. }
    revert H0. induction Hw as [|w1 w2 w3 Hs _ IH]; [done|]. intros H0. by eapply IH, udp_step_inv. }
  destruct Hi. split_and!; try done. intros i t Ht. destruct (ui_owner0 i t Ht) as (K1 & _ & _ & K4 & _). done.
Qed.

(** A task that panicked leaves its entry in the table: from then on no
    datagram of that peer is accepted, whatever else happens to the listener. *)
Theorem panicked_session_wedges {S} `{Semaphore S} config (w w' : udp_world (S := S)) i t b l :
  rtc udp_step (udp_world_new config) w → ul_tasks (uw_listener w) !! i = Some t →
  task_end (uw_budget w) (uw_listener w) i = (b, l) →
  rtc udp_step {| uw_budget := b; uw_listener := joined l i true; uw_received := uw_received w; uw_forwarded := uw_forwarded w; uw_others := uw_others w |} w' →
  ∀ payload, receive (uw_budget w') (uw_listener w') (ut_peer t) payload = (uw_budget w', uw_listener w', QueueFull).
Proof.
  intros Hw Ht He Hr. assert (Hi := udp_reachable config w Hw). assert (Hi1 := end_inv w i b l Hi He).
  assert (Hi2 := joined_inv _ i true Hi1). cbn [uw_budget uw_listener uw_received uw_forwarded uw_others] in Hi2.
  assert (Hwedge : wedged (joined l i true) (ut_peer t)).
  { destruct (ui_owner w Hi i t Ht) as (K1 & K2 & K3 & _). unfold task_end in He. rewrite Ht in He. injection He as _ <-.
    unfold joined. cbn [ul_finished]. rewrite lookup_insert_eq. exists i. cbn. rewrite !lookup_delete_eq. done. }
  assert (Hend : wedged (uw_listener w') (ut_peer t)).
  { set (w1 := {| uw_budget := b; uw_listener := joined l i true; uw_received := uw_received w; uw_forwarded := uw_forwarded w; uw_others := uw_others w |}) in *.
    change (wedged (uw_listener w1) (ut_peer t)) in Hwedge. clearbody w1. clear -Hr Hi2 Hwedge.
    induction Hr as [|w1 w2 w3 Hs _ IH]; [done|]. apply IH; [by eapply udp_step_inv|by eapply wedged_step]. }
  destruct Hend as (j & K1 & _ & K2 & _). intros payload. unfold receive. by rewrite K1, K2.
Qed.

(** The datagrams that a session passes on and the client reads from the
    stream are the same, in order: what is written to the stream, with whatever
    follows it, is sent to the target unchanged. *)
Theorem datagrams_end_to_end effects bytes rest buffer :
  stream_bytes [] effects = Ok bytes →
  client_udp (length (to_client effects)) buffer (bytes ++ rest) = Ok (to_client effects).
Proof.
  intros E. destruct (stream_bytes_read effects [] bytes E) as (tail & -> & Ht). apply Ht.
Qed.

(** A datagram that is read is shorter than what it was read from. *)
Lemma poll_start_ready c p u : Fut.poll Fut.start c = Fut.Ready p u → (length p + length u + 2 = length c)%nat.
Proof.
  unfold Fut.start. cbn [Fut.poll app]. destruct (2 <=? length c)%nat eqn:E; [|done]. apply Nat.leb_le in E.
  unfold Fut.poll_body. cbn [app]. destruct (_ <=? _)%nat eqn:El; [|done]. apply Nat.leb_le in El. intros [= <- <-].
  rewrite length_drop, length_take in *. rewrite !length_drop in *. lia.
Qed.

Lemma read_arrived_short fuel : ∀ c x, x ∈ (read_arrived fuel Fut.start c).1 → (length x + 2 <= length c)%nat.
Proof.
  induction fuel as [|fuel IH]; intros c x; cbn [read_arrived]; destruct (Fut.poll Fut.start c) as [s|p u] eqn:E; cbn [fst];
    try (by intros ?%elem_of_nil); apply poll_start_ready in E.
  - intros ->%list_elem_of_singleton. lia.
  - specialize (IH u x). destruct (read_arrived fuel Fut.start u) as [l s]. cbn [fst] in *. intros [->|Hin]%elem_of_cons; [lia|].
    specialize (IH Hin). lia.
Qed.

(** C40: a datagram whose bytes arrive in two parts is read whole when the reading
    branch is polled for both in a row, and is lost when a packet for the
    other direction is ready in between: the bytes read so far go with the
    dropped future, and whatever the loop reads from the remaining ones, it is
    never that datagram. *)
Theorem interrupted_datagram_lost payload packet k :
  let frame := to_be 2 (len payload) ++ payload in
  len payload <= MAX_DATAGRAM → (0 < k < length frame)%nat →
  relay_reads Fut.start [StreamBytes (take k frame); StreamBytes (drop k frame)] = [payload] ∧
  payload ∉ relay_reads Fut.start [StreamBytes (take k frame); OtherReady packet; StreamBytes (drop k frame)].
Proof.
  intros frame Hlen Hk.
  assert (Hfr : length frame = (2 + length payload)%nat) by (unfold frame; by rewrite length_app, length_to_be).
  assert (Hrun : Fut.run Fut.start [take k frame; drop k frame] = Fut.Ready payload []).
  { apply (fragmentation_independence _ [] payload []). cbn [concat]. rewrite app_nil_r, take_drop.
    apply read_datagram_ok. exists (to_be 2 (len payload)). rewrite app_nil_r. split_and!; [done|by rewrite length_to_be| |done].
    apply of_be_to_be. unfold MAX_DATAGRAM, u16_max in Hlen. change (256 ^ N.of_nat 2) with 65536. lia. }
  cbn [Fut.run] in Hrun. cbn [relay_reads].
  assert (Hfirst : ∃ s, Fut.poll Fut.start (take k frame) = Fut.Pending s ∧ Fut.poll s (drop k frame) = Fut.Ready payload []).
  { destruct (Fut.poll Fut.start (take k frame)) as [s|p u] eqn:E.
    - exists s. split; [done|]. destruct (Fut.poll s (drop k frame)) as [s'|p u]; [done|]. cbn [concat] in Hrun. rewrite app_nil_r in Hrun. done.
    - exfalso. apply poll_start_ready in E. injection Hrun as -> Hu. apply app_eq_nil in Hu as [_ Hu].
      apply app_eq_nil in Hu as [Hu _]. apply (f_equal length) in Hu. rewrite length_drop in Hu. cbn [length] in Hu. lia. }
  destruct Hfirst as (s & H1 & H2).
  assert (Ht : read_arrived (length (take k frame)) Fut.start (take k frame) = ([], s)) by (destruct (length (take k frame)); cbn [read_arrived]; by rewrite H1).
  rewrite Ht. split.
  - destruct (length (drop k frame)) as [|n] eqn:Ed; cbn [read_arrived]; rewrite H2; [done|]. by destruct n.
  - cbn [app]. assert (Hs := read_arrived_short (length (drop k frame)) (drop k frame) payload).
    destruct (read_arrived (length (drop k frame)) Fut.start (drop k frame)) as [l s']. cbn [fst] in Hs. rewrite app_nil_r.
    intros Hin. specialize (Hs Hin). rewrite length_drop in Hs. lia.
Qed.

(** ** Witnesses *)

(** The length of a datagram arrives one byte at a time. *)
Lemma interrupted_datagram_lost_witness :
  relay_reads Fut.start [StreamBytes (take 1 (to_be 2 5 ++ lit "hello")); StreamBytes (drop 1 (to_be 2 5 ++ lit "hello"))] = [lit "hello"].
Proof. apply (interrupted_datagram_lost "hello" "from the target" 1); [vm_compute; discriminate|vm_compute; lia]. Defined.

Definition w_peer : SocketAddr := loop_addr 9000.
Definition w_new : udp_world (S := N) := udp_world_new w_tunnel.
Definition w_open : udp_world (S := N) :=
  let '(b, l, _) := receive (uw_budget w_new) (uw_listener w_new) w_peer "hello" in
  {| uw_budget := b; uw_listener := l; uw_received := [(w_peer, lit "hello")]; uw_forwarded := []; uw_others := [] |}.

Lemma w_open_reachable : rtc udp_step w_new w_open.
Proof. eapply rtc_l; [eapply (us_receive _ w_peer "hello"); reflexivity|]. apply rtc_refl. Qed.

Lemma udp_sessions_isolated_witness :
  size (ul_sessions (uw_listener w_open)) = 1%nat ∧ available (data_streams (uw_budget w_open)) + 1 = MAX_DATA_STREAMS ∧
  from_peer w_peer (uw_forwarded w_open) `sublist_of` [lit "hello"].
Proof.
  destruct (udp_sessions_isolated w_tunnel w_open w_open_reachable) as (_ & _ & Hs & _ & _ & Hp).
  split_and!; [vm_compute; reflexivity| |exact (Hp w_peer)].
  change (size (ul_tasks (uw_listener w_open))) with 1%nat in Hs. change (streams_held (uw_others w_open)) with 0 in Hs. lia.
Defined.

Lemma panicked_session_wedges_witness :
  let '(b, l) := task_end (uw_budget w_open) (uw_listener w_open) 0 in
  receive b (joined l 0 true) w_peer "again" = (b, joined l 0 true, QueueFull).
Proof.
  destruct (task_end (uw_budget w_open) (uw_listener w_open) 0) as [b l] eqn:E.
  exact (panicked_session_wedges w_tunnel w_open _ 0 {| ut_peer := w_peer; ut_queue := [lit "hello"]; ut_current := None |} b l
    w_open_reachable eq_refl E (rtc_refl _ _) "again").
Defined.

Lemma datagrams_end_to_end_witness :
  let effects := [ToClient "a"; ToPeer "x"; ToClient "bc"] in
  ∃ bytes, stream_bytes [] effects = Ok bytes ∧ client_udp 2 [] bytes = Ok [lit "a"; lit "bc"].
Proof.
  intros effects. eexists. split; [vm_compute; reflexivity|].
  exact (datagrams_end_to_end effects _ [] [] eq_refl).
Defined.
