(* ===== verification/Selection.v ===== *)
(** * Selection: the choice of tunnels in [gaterust-client/src/lib.rs]

    The desktop client enables tunnels of the catalogue it was sent: the names
    the user picked become services, which are submitted to the session
    ([ClientLoop.update_services]). *)

From S2P Require Import Prelude RustStr Net Paths TunnelConfig Protocol ClientSession ClientLoop.

Inductive ClientError :=
  | ConfigDirectoryUnavailable
  | RuntimeUnavailable
  | InvalidOperation (message : str)
  | LoginTimeout
  | LoginCancelled
  | ShutdownTimeout
  | Tunnel (e : TunnelError)
  | TaskFailed.

Notation CResult := (result ClientError).

(** The body of the loop over the catalogue. *)
Definition select_tunnel (requested : gset str) (services : list ClientServiceConfig) (t : ClientTunnel)
  : CResult (list ClientServiceConfig) :=
  if negb (bool_decide (ct_name t ∈ requested)) then Ok services else
  if bool_decide (ct_state t = Occupied) then Err (InvalidOperation ("隧道 " ++ ct_name t ++ " 已被其他客户端占用")) else
  target ← match ct_kind t with
           | Tcp | Udp => Some <$> ok_or (local_target t) (InvalidOperation ("隧道 " ++ ct_name t ++ " 缺少本地端口配置"))
           | Socks5 => Ok None
           end;
  Ok (services ++ [{| service_name := ct_name t; service_kind := ct_kind t; service_target := target |}]).

Definition services_for_selection (tunnels : list ClientTunnel) (names : list str) : CResult (list ClientServiceConfig) :=
  let requested := list_to_set names : gset str in
  if bool_decide (requested = ∅) then Err (InvalidOperation "请至少选择一个空闲隧道") else
  if MAX_CLIENT_SERVICES <? N.of_nat (size requested)
  then Err (InvalidOperation ("单个客户端最多连接 " ++ dec MAX_CLIENT_SERVICES ++ " 个隧道")) else
  services ← try_for (select_tunnel requested) [] tunnels;
  if negb (length services =? size requested)%nat then Err (InvalidOperation "选择中包含服务器未提供的隧道") else
  Ok (sort_by_key service_name services).

Definition enabled_names (tunnels : list ClientTunnel) : list str :=
  ct_name <$> filter (λ t, ct_state t = Enabled) tunnels.

Definition services_for_enable (tunnels : list ClientTunnel) (names : list str) : CResult (list ClientServiceConfig) :=
  services_for_selection tunnels (names ++ enabled_names tunnels).

Fixpoint join_names (l : list str) : str :=
  match l with [] => [] | [x] => x | x :: l => x ++ ", " ++ join_names l end.

(** [enable_tunnels]: the command queued for the session, if any, and the
    result; [o]: what becomes of the command, [after]: the status at the end. *)
Definition enable_tunnels (status : ClientStatus) (names : list str) (o : command_outcome) (after : ClientStatus)
  : option (list ClientServiceConfig) * CResult ClientStatus :=
  match status with
  | Online _ _ tunnels =>
      match services_for_enable tunnels names with
      | Err e => (None, Err e)
      | Ok services =>
          let '(sent, r) := update_services services o in
          (sent,
           tunnels ← map_err Tunnel r;
           let failed := filter (λ n, n ∉ enabled_names tunnels) (elements (list_to_set (service_name <$> services) : gset str)) in
           let failed := sort_by_key (λ n, n) failed in
           if negb (bool_decide (failed = [])) then Err (InvalidOperation ("以下隧道未能启用: " ++ join_names failed))
           else Ok after)
      end
  | _ => (None, Err (InvalidOperation "尚未登录服务器"))
  end.

Definition disable_tunnels (o : command_outcome) (after : ClientStatus)
  : option (list ClientServiceConfig) * CResult ClientStatus :=
  let '(sent, r) := update_services [] o in
  (sent,
   tunnels ← map_err Tunnel r;
   if negb (bool_decide (enabled_names tunnels = [])) then Err (InvalidOperation "部分隧道未能停用") else Ok after).

(** ** Specification *)

(** The service of a tunnel, and whether it can be selected. *)
Definition service_of (t : ClientTunnel) : ClientServiceConfig :=
  {| service_name := ct_name t; service_kind := ct_kind t; service_target := local_target t |}.
Definition selectable (t : ClientTunnel) : Prop :=
  ct_state t ≠ Occupied ∧ (ct_kind t = Socks5 ∨ is_Some (ct_local_port t)).
Definition chosen (names : list str) (tunnels : list ClientTunnel) : list ClientTunnel :=
  filter (λ t, ct_name t ∈ names) tunnels.

(** ** Lemmas *)

Lemma local_target_some t : is_Some (local_target t) ↔ ct_kind t ≠ Socks5 ∧ is_Some (ct_local_port t).
Proof.
  unfold local_target. case_bool_decide as Hk; [split; [by intros []|by intros [[] _]]|].
  destruct (ct_local_port t); cbn; split; [by eauto|by eauto|by intros []|by intros [_ []]].
Qed.

Lemma local_target_nonempty t target : local_target t = Some target → target ≠ [].
Proof.
  unfold local_target. case_bool_decide; [done|]. destruct (ct_local_port t); [|done]. cbn [mbind option_bind].
  assert (Hne : ∀ a b : str, b ≠ [] → a ++ b ≠ []) by (by intros a b Hb [_ Hn]%app_eq_nil).
  intros [= <-]. destruct (parse_ip _) as [[|]|]; first [by apply Hne|done].
Qed.

Lemma select_tunnel_ok R acc t r :
  select_tunnel R acc t = Ok r ↔
  (ct_name t ∈ R → selectable t) ∧ r = acc ++ (if bool_decide (ct_name t ∈ R) then [service_of t] else []).
Proof.
  unfold select_tunnel, selectable. case_bool_decide as Hin; cbn [negb]; [|rewrite app_nil_r; naive_solver].
  case_bool_decide as Ho; [split; [done|intros [H _]; by destruct (H Hin)]|].
  assert (Hs : service_of t = {| service_name := ct_name t; service_kind := ct_kind t; service_target := local_target t |}) by done.
  destruct (ct_kind t) eqn:Ek; cbn [mbind result_bind fmap result_fmap].
  1,2: destruct (local_target t) as [x|] eqn:Et; cbn [ok_or]; rewrite Hs;
    [assert (Hp : is_Some (ct_local_port t)) by (apply (local_target_some t); eauto); naive_solver|].
  1,2: split; [done|]; intros [H _]; destruct (H Hin) as [_ [?|Hp]]; [done|];
    assert (Hl : is_Some (local_target t)) by (apply local_target_some; by rewrite Ek); rewrite Et in Hl; by destruct Hl.
  assert (Hn : local_target t = None) by (unfold local_target; by rewrite bool_decide_eq_true_2).
  rewrite Hs, Hn. naive_solver.
Qed.

Lemma select_loop R l : ∀ acc r,
  try_for (select_tunnel R) acc l = Ok r ↔
  (∀ t, t ∈ l → ct_name t ∈ R → selectable t) ∧ r = acc ++ (service_of <$> filter (λ t, ct_name t ∈ R) l).
Proof.
  induction l as [|t l IH]; intros acc r; cbn [try_for].
  { cbn. rewrite app_nil_r. split; [intros [= <-]; split; [by intros t []%not_elem_of_nil|done]|by intros [_ ->]]. }
  rewrite bind_ok. setoid_rewrite select_tunnel_ok. setoid_rewrite IH. rewrite filter_cons. split.
  - intros (acc' & (Ht & ->) & Hl & ->). split.
    + intros u [->|Hu]%elem_of_cons; [done|by apply Hl].
    + case_bool_decide; case_decide; try done; by rewrite <- (assoc_L (++)).
  - intros (Hall & ->). eexists. split; [split; [apply Hall; by left|done]|]. split; [intros u Hu; apply Hall; by right|].
    case_bool_decide; case_decide; try done; by rewrite <- (assoc_L (++)).
Qed.

Lemma chosen_names names tunnels : service_name <$> (service_of <$> chosen names tunnels) = ct_name <$> chosen names tunnels.
Proof. rewrite <- list_fmap_compose. done. Qed.

(** A catalogue without repetitions has as many of the names as are in it. *)
Lemma chosen_count names tunnels :
  NoDup (ct_name <$> tunnels) →
  length (chosen names tunnels) = size (list_to_set names : gset str) ↔ ∀ n, n ∈ names → n ∈ ct_name <$> tunnels.
Proof.
  intros Hnd. assert (Hnd' : NoDup (ct_name <$> chosen names tunnels)) by by apply NoDup_fmap_filter.
  assert (Hsz : length (chosen names tunnels) = size (list_to_set (ct_name <$> chosen names tunnels) : gset str)).
  { rewrite size_list_to_set by done. by rewrite length_fmap. }
  assert (Hsub : (list_to_set (ct_name <$> chosen names tunnels) : gset str) ⊆ list_to_set names).
  { intros n. rewrite !elem_of_list_to_set. intros (t & -> & [Ht _]%list_elem_of_filter)%list_elem_of_fmap. done. }
  rewrite Hsz. split.
  - intros Heq n Hn. assert (Hset : (list_to_set (ct_name <$> chosen names tunnels) : gset str) = list_to_set names).
    { apply set_subseteq_size_eq; [exact Hsub|lia]. }
    assert (Hin : n ∈ (list_to_set names : gset str)) by by apply elem_of_list_to_set.
    rewrite <- Hset in Hin. apply elem_of_list_to_set, list_elem_of_fmap in Hin as (t & -> & [_ Ht]%list_elem_of_filter).
    by apply list_elem_of_fmap_2.
  - intros Hall. f_equal. apply set_eq. intros x. split; [apply Hsub|]. rewrite !elem_of_list_to_set. intros Hx.
    apply Hall in Hx as Hx'. apply list_elem_of_fmap in Hx' as (t & -> & Ht). by apply list_elem_of_fmap_2, list_elem_of_filter.
Qed.

(** ** Theorems *)

(** From a catalogue (whose names are distinct), the selection is accepted
    exactly when it is not empty, not too large, and every name is that of a
    tunnel in the catalogue that no other client occupies and that has a local
    port (or is a SOCKS5 tunnel); the services are those of the chosen tunnels
    with their local targets, sorted by name. *)
Theorem selection_spec tunnels names services :
  NoDup (ct_name <$> tunnels) →
  services_for_selection tunnels names = Ok services ↔
  (∃ n, n ∈ names) ∧ N.of_nat (size (list_to_set names : gset str)) <= MAX_CLIENT_SERVICES ∧
  (∀ n, n ∈ names → ∃ t, t ∈ tunnels ∧ ct_name t = n ∧ selectable t) ∧
  services = sort_by_key service_name (service_of <$> chosen names tunnels).
Proof.
  intros Hnd. unfold services_for_selection.
  assert (Hfil : filter (λ t, ct_name t ∈ (list_to_set names : gset str)) tunnels = chosen names tunnels).
  { unfold chosen. apply list_filter_iff. intros t. by rewrite elem_of_list_to_set. }
  assert (Hne : (list_to_set names : gset str) = ∅ ↔ ¬ ∃ n, n ∈ names).
  { rewrite <- leibniz_equiv_iff, elem_of_equiv_empty. setoid_rewrite elem_of_list_to_set. naive_solver. }
  case_bool_decide as He; [split; [done|intros (Hn & _)]; by apply Hne in He|].
  assert (Hn : ∃ n, n ∈ names).
  { destruct names as [|n names]; [by destruct He|exists n; by left]. }
  destruct (MAX_CLIENT_SERVICES <? _) eqn:Em; [apply N.ltb_lt in Em; split; [done|intros (_ & H1 & _); lia]|].
  apply N.ltb_ge in Em. rewrite bind_ok. setoid_rewrite select_loop. rewrite Hfil. cbn [app].
  assert (Hc := chosen_count names tunnels Hnd). split.
  - intros (r & (Hall & ->) & H1). rewrite length_fmap in H1. destruct (_ =? _)%nat eqn:El; [|done]. injection H1 as <-.
    apply Nat.eqb_eq in El. rewrite El in Hc. split_and!; [done|done| |done]. intros n Hin.
    assert (Hin' := proj1 Hc eq_refl n Hin). apply list_elem_of_fmap in Hin' as (t & -> & Ht). exists t. split_and!; [done|done|].
    apply Hall; [done|by rewrite elem_of_list_to_set].
  - intros (_ & _ & Hall & ->). eexists. split; [split; [|reflexivity]|].
    + intros t Ht Hin%elem_of_list_to_set. destruct (Hall _ Hin) as (u & Hu & Hnu & Hsel).
      assert (Hut : u = t); [|by subst]. clear -Hnd Ht Hu Hnu. apply list_elem_of_lookup in Ht as [i Hi], Hu as [j Hj].
      assert (Hij : j = i); [|congruence]. eapply (NoDup_lookup _ _ _ (ct_name t) Hnd); rewrite list_lookup_fmap; [by rewrite Hj, <- Hnu|by rewrite Hi].
    + rewrite length_fmap. replace (_ =? _)%nat with true; [done|]. symmetry. apply Nat.eqb_eq, Hc. intros n Hin.
      destruct (Hall n Hin) as (t & Ht & <- & _). by apply list_elem_of_fmap_2.
Qed.

Definition offered (n : str) (k : TunnelKind) (s : ClientTunnelState) : ClientTunnel :=
  {| ct_name := n; ct_kind := k; ct_server_port := 8000; ct_local_ip := None; ct_local_port := Some 80; ct_state := s |}.

Definition picked : list str := [lit "web"; lit "dns"].

Lemma selection_spec_witness :
  services_for_selection [offered "web" Tcp Idle; offered "dns" Udp Enabled; offered "other" Tcp Occupied] picked =
  Ok (sort_by_key service_name (service_of <$> [offered "web" Tcp Idle; offered "dns" Udp Enabled])).
Proof.
  apply selection_spec.
  - apply (bool_decide_unpack (NoDup _)). vm_compute. done.
  - split_and!; [exists (lit "web"); left|vm_compute; done| |done].
    intros n [->|[->|[]%not_elem_of_nil]%elem_of_cons]%elem_of_cons.
    + exists (offered "web" Tcp Idle). split_and!; [left|done|split; [done|right; eauto]].
    + exists (offered "dns" Udp Enabled). split_and!; [right; left|done|split; [done|right; eauto]].
Defined.
