(* ===== verification/Certificate.v ===== *)
(** * Certificate: certificates of the tunnel, [certificate.rs] and [tls.rs]

    Which name a downloaded certificate is checked against afterwards, the
    credentials of the server, and what each TLS configuration of the client
    trusts.  DER, PEM and rustls are the classes [Der] and [Pem] and arguments;
    the files are what opening a path gives. *)

From S2P Require Import Prelude RustStr Net Paths TunnelConfig ConfigFiles.

Definition MAX_CERTIFICATE_CHAIN_LENGTH : nat := 16.

(** [x509_parser]: what the code reads of a certificate. *)
Inductive GeneralName := DNSName (dns : str) | IPAddress (raw : str) | OtherName.

Record x509 := {
  basic_constraints : result unit (option bool);
  subject_alternative_name : result unit (option (list GeneralName)) }.

Class Der := parse_x509_certificate : str → option x509.

(** [pem] and [rustls_pemfile]. *)
Class Pem := {
  encode_many : list str → str;
  certs : str → list (result ErrorKind str);
  pem_private_key : str → result ErrorKind (option str);
  certs_encode_many : ∀ l, certs (encode_many l) = Ok <$> l }.

(** [collect::<Result<Vec<_>, _>>()]. *)
Fixpoint collect {E A} (l : list (result E A)) : result E (list A) :=
  match l with
  | [] => Ok []
  | Err e :: _ => Err e
  | Ok a :: l => r ← collect l; Ok (a :: r)
  end.

(** ** Names *)

(** [str::get(n..)]. *)
Definition is_char_boundary (s : str) (n : nat) : bool :=
  match s !! n with Some c => negb (is_cont c) | None => (n =? length s)%nat end.
Definition get_from (s : str) (n : nat) : option str :=
  if is_char_boundary s n then Some (drop n s) else None.

Definition dns_matches (pattern host : str) : bool :=
  if eq_ignore_ascii_case pattern host then true else
  match strip_prefix "*." pattern with
  | None => false
  | Some suffix =>
      let n := (length host - length suffix)%nat in
      (length suffix <? length host)%nat &&
      match get_from host n with Some value => eq_ignore_ascii_case value suffix | None => false end &&
      bool_decide (host !! (n - 1)%nat = Some "."%char) &&
      negb (contains_char "." (take (n - 1) host))
  end.

Fixpoint segments (raw : str) : list N :=
  match raw with
  | a :: b :: raw => N_of_ascii a * 256 + N_of_ascii b :: segments raw
  | _ => []
  end.

Definition ip_from_san (raw : str) : option IpAddr :=
  match raw with
  | [a; b; c; d] => Some (V4 {| octet0 := N_of_ascii a; octet1 := N_of_ascii b; octet2 := N_of_ascii c; octet3 := N_of_ascii d |})
  | _ => if (length raw =? 16)%nat then Some (V6 (segments raw)) else None
  end.

Definition san_matches (host : str) (n : GeneralName) : bool :=
  match n with
  | DNSName dns => dns_matches dns host
  | IPAddress raw => match ip_from_san raw with Some ip => bool_decide (Some ip = parse_ip host) | None => false end
  | OtherName => false
  end.

Definition concrete_dns (n : GeneralName) : option str :=
  match n with DNSName dns => if contains_char "*" dns then None else Some dns | _ => None end.
Definition concrete_ip (n : GeneralName) : option str :=
  match n with IPAddress raw => fmt_ip <$> ip_from_san raw | _ => None end.

Fixpoint find_map {A B} (f : A → option B) (l : list A) : option B :=
  match l with [] => None | x :: l => match f x with Some y => Some y | None => find_map f l end end.

Section certificates.
Context `{Der} `{Pem}.

Definition validate_server_leaf (certificate : str) : Result unit :=
  c ← ok_or (parse_x509_certificate certificate) (Tls "解析服务端叶证书失败");
  b ← map_err (λ _, Tls "解析服务端证书 Basic Constraints 失败") (basic_constraints c);
  if bool_decide (b = Some true) then Err ServerCertificateIsCa else Ok tt.

Definition server_name_from_der (certificate address : str) : Result str :=
  c ← ok_or (parse_x509_certificate certificate) (Tls "解析服务端叶证书失败");
  names ← map_err (λ _, Tls "解析服务端证书 SAN 失败") (subject_alternative_name c);
  names ← ok_or names (Tls "服务端证书缺少 SAN");
  host ← ok_or (address_host address) (InvalidConfig "无法从服务器地址推导主机名");
  if existsb (san_matches host) names then Ok host else
  ok_or (match find_map concrete_dns names with Some n => Some n | None => find_map concrete_ip names end)
    (Tls "服务端证书不包含可用的 DNS/IP SAN").

Record DownloadedServerCertificate := { downloaded_pem : str; downloaded_server_name : str }.

Definition from_chain (certificates : list str) (address : str) : Result DownloadedServerCertificate :=
  _ ← reject_if (bool_decide (certificates = []) || (MAX_CERTIFICATE_CHAIN_LENGTH <? length certificates)%nat)
        (Protocol "服务端证书链数量无效");
  let leaf := default [] (head certificates) in
  _ ← validate_server_leaf leaf;
  name ← server_name_from_der leaf address;
  Ok {| downloaded_pem := encode_many certificates; downloaded_server_name := name |}.

Definition server_name_from_pem (content address : str) : Result str :=
  certificate ← match certs content with
                | [] => Err (Tls "server.pem 不包含证书")
                | r :: _ => map_err Io r
                end;
  _ ← validate_server_leaf certificate;
  server_name_from_der certificate address.

(** ** [tls.rs] *)

(** Opening and reading a file: what it holds. *)
Context (open : Path → result ErrorKind str).

Definition read_certificates (path : Path) : Result (list str) :=
  file ← map_err (ReadConfig path) (open path);
  certificates ← map_err Io (collect (certs file));
  if bool_decide (certificates = []) then Err (Tls ("证书文件 " ++ fmt_path path ++ " 不包含证书")) else Ok certificates.

Definition read_private_key (path : Path) : Result str :=
  file ← map_err (ReadConfig path) (open path);
  key ← map_err Io (pem_private_key file);
  ok_or key (Tls ("私钥文件 " ++ fmt_path path ++ " 不包含私钥")).

Record transport_config := {
  keep_alive_interval : N;
  max_idle_timeout : N;
  max_concurrent_uni_streams : N;
  max_concurrent_bidi_streams : N }.

(** Times in milliseconds; quinn's default number of streams. *)
Definition base_transport_config (default_bidi : N) : transport_config :=
  {| keep_alive_interval := 15000; max_idle_timeout := 60000; max_concurrent_uni_streams := 0;
     max_concurrent_bidi_streams := default_bidi |}.

Definition with_bidi_streams (n : N) (t : transport_config) : transport_config :=
  {| keep_alive_interval := keep_alive_interval t; max_idle_timeout := max_idle_timeout t;
     max_concurrent_uni_streams := max_concurrent_uni_streams t; max_concurrent_bidi_streams := n |}.

Definition server_transport_config (default_bidi : N) : transport_config :=
  with_bidi_streams 1 (base_transport_config default_bidi).
Definition client_transport_config (default_bidi : N) : transport_config :=
  with_bidi_streams (if MAX_DATA_STREAMS <=? u32_max then MAX_DATA_STREAMS else u32_max) (base_transport_config default_bidi).

(** [with_single_cert] of rustls, and the credentials built from the files. *)
Context (with_single_cert : list str → str → result str unit) (default_bidi : N).

Record ServerCredentials := {
  cred_chain : list str;
  cred_key : str;
  cred_transport : transport_config;
  cred_certificate : str }.

Definition server_credentials (certificate private_key : Path) : Result ServerCredentials :=
  certificates ← read_certificates certificate;
  leaf ← ok_or (head certificates) (Tls "服务端证书文件不包含叶证书");
  _ ← validate_server_leaf leaf;
  key ← read_private_key private_key;
  _ ← map_err Tls (with_single_cert certificates key);
  Ok {| cred_chain := certificates; cred_key := key;
        cred_transport := server_transport_config default_bidi; cred_certificate := leaf |}.

Definition validate_server_credentials (certificate private_key : Path) : Result unit :=
  (λ _, tt) <$> server_credentials certificate private_key.

(** What a client configuration accepts of the server's certificate. *)
Inductive trust :=
  | TrustRoots (roots : list str)
  | TrustPublic
  | BootstrapCertificateVerifier.

Record client_tls := { tls_trust : trust; tls_transport : transport_config }.

Context (add_root : str → result str unit) (quic_config : trust → result str unit).

Definition quinn_client_config (t : trust) : Result client_tls :=
  _ ← map_err Tls (quic_config t);
  Ok {| tls_trust := t; tls_transport := client_transport_config default_bidi |}.

Definition client_config (ca_path : option Path) : Result client_tls :=
  t ← match ca_path with
      | Some ca_path =>
          certificates ← read_certificates ca_path;
          roots ← try_for (λ roots c,
            _ ← map_err (λ e, Tls ("添加 CA 证书失败: " ++ e)) (add_root c);
            Ok (roots ++ [c])) [] certificates;
          Ok (TrustRoots roots)
      | None => Ok TrustPublic
      end;
  quinn_client_config t.

Definition bootstrap_client_config : Result client_tls := quinn_client_config BootstrapCertificateVerifier.

(** The verifier of a connection: [chain_ok roots chain name] is rustls's
    check of the chain and the name, [signature_ok] its check that the peer
    holds the key of the certificate. *)
Definition verify_server_cert (chain_ok : option (list str) → list str → str → bool) (t : trust)
  (chain : list str) (name : str) : bool :=
  match t with
  | TrustRoots roots => chain_ok (Some roots) chain name
  | TrustPublic => chain_ok None chain name
  | BootstrapCertificateVerifier => true
  end.

Definition client_bind (server : SocketAddr) : str :=
  match server with SockV4 _ _ => "0.0.0.0:0" | SockV6 _ _ _ _ => "[::]:0" end.
End certificates.

(** ** Specification *)

(** One leading [*] label of the pattern stands for one label of the host. *)
Definition wildcard_covers (pattern host : str) : Prop :=
  ∃ suffix label rest,
    pattern = "*." ++ suffix ∧ host = label ++ "." ++ rest ∧ "."%char ∉ label ∧
    eq_ignore_ascii_case rest suffix = true ∧ is_char_boundary host (S (length label)) = true.

(** A name of the certificate that covers the host. *)
Definition covers (host : str) (n : GeneralName) : Prop :=
  match n with
  | DNSName dns => eq_ignore_ascii_case dns host = true ∨ wildcard_covers dns host
  | IPAddress raw => ∃ ip, ip_from_san raw = Some ip ∧ parse_ip host = Some ip
  | OtherName => False
  end.

(** A name that can be dialled as it stands. *)
Definition concrete (n : GeneralName) (name : str) : Prop :=
  match n with
  | DNSName dns => "*"%char ∉ dns ∧ name = dns
  | IPAddress raw => ∃ ip, ip_from_san raw = Some ip ∧ name = fmt_ip ip
  | OtherName => False
  end.

(** The first DNS name without a wildcard, or else the first address. *)
Definition fallback_name (names : list GeneralName) (name : str) : Prop :=
  ∃ l n r, names = l ++ n :: r ∧ concrete n name ∧
    match n with
    | DNSName _ => ∀ x, x ∈ l → concrete_dns x = None
    | _ => (∀ x, x ∈ names → concrete_dns x = None) ∧ ∀ x, x ∈ l → concrete_ip x = None
    end.

(** ** Lemmas *)

Lemma find_map_Some {A B} (f : A → option B) l y :
  find_map f l = Some y ↔ ∃ l1 x l2, l = l1 ++ x :: l2 ∧ f x = Some y ∧ ∀ z, z ∈ l1 → f z = None.
Proof.
  induction l as [|a l IH]; cbn [find_map].
  { split; [done|]. intros ([|??] & ? & ? & ? & _); done. }
  destruct (f a) as [b|] eqn:E.
  - split.
    + intros [= ->]. exists [], a, l. split_and!; [done|done|by intros z []%not_elem_of_nil].
    + intros ([|c l1] & x & l2 & [= -> ->] & Hx & Hz); [congruence|].
      assert (Hc : f c = None) by (apply Hz; left). congruence.
  - rewrite IH. split.
    + intros (l1 & x & l2 & -> & Hx & Hz). exists (a :: l1), x, l2. split_and!; [done|done|].
      by intros z [->|Hin]%elem_of_cons; [|apply Hz].
    + intros ([|c l1] & x & l2 & [= -> ->] & Hx & Hz); [congruence|]. exists l1, x, l2. split_and!; [done|done|].
      intros z Hin. apply Hz. by right.
Qed.

Lemma find_map_None {A B} (f : A → option B) l : find_map f l = None ↔ ∀ z, z ∈ l → f z = None.
Proof.
  induction l as [|a l IH]; cbn [find_map]; [split; [by intros _ z []%not_elem_of_nil|done]|].
  setoid_rewrite elem_of_cons. destruct (f a) eqn:E; [split; [done|]; intros Hz; specialize (Hz a (or_introl eq_refl)); congruence|].
  rewrite IH. naive_solver.
Qed.

#[export] Instance Ok_inj {E A} : Inj (=) (=) (@Ok E A).
Proof. by intros x y [= ->]. Qed.

Lemma collect_ok {E A} (l : list (result E A)) r : collect l = Ok r ↔ l = Ok <$> r.
Proof.
  revert r. induction l as [|[a|e] l IH]; intros r; cbn [collect].
  - destruct r; cbn; naive_solver.
  - rewrite bind_ok. setoid_rewrite IH. destruct r as [|b r]; cbn; [naive_solver|]. split.
    + intros (x & -> & [= -> ->]). done.
    + intros [= -> ->]. by eexists.
  - destruct r; cbn; done.
Qed.

Lemma wildcard_bool pattern host :
  match strip_prefix "*." pattern with
  | None => false
  | Some suffix =>
      let n := (length host - length suffix)%nat in
      (length suffix <? length host)%nat &&
      match get_from host n with Some value => eq_ignore_ascii_case value suffix | None => false end &&
      bool_decide (host !! (n - 1)%nat = Some "."%char) &&
      negb (contains_char "." (take (n - 1) host))
  end = true ↔ wildcard_covers pattern host.
Proof.
  unfold wildcard_covers. destruct (strip_prefix "*." pattern) as [suffix|] eqn:Es.
  2: { split; [done|]. intros (s & ? & ? & Hp & _). apply strip_prefix_Some in Hp. congruence. }
  assert (Hlen : ∀ rest, eq_ignore_ascii_case rest suffix = true → length rest = length suffix).
  { intros rest Hr. unfold eq_ignore_ascii_case in Hr. apply bool_decide_eq_true in Hr.
    rewrite <- (length_to_ascii_lowercase rest), <- (length_to_ascii_lowercase suffix). by rewrite Hr. }
  cbv zeta. rewrite !andb_true_iff, Nat.ltb_lt, bool_decide_eq_true, negb_true_iff, contains_char_false. unfold get_from. split.
  - intros [[[Hl Hg] Hd] Hc]. apply strip_prefix_Some in Es. set (n := (length host - length suffix)%nat) in *.
    destruct (is_char_boundary host n) eqn:Eb; [|done].
    exists suffix, (take (n - 1) host), (drop n host). split_and!; [done| |done|done|].
    + rewrite <- (take_drop_middle host (n - 1) _ Hd) at 1. f_equal. cbn. f_equal. f_equal. lia.
    + rewrite length_take. by replace (S ((n - 1) `min` length host))%nat with n by lia.
  - intros (s & label & rest & Hp & -> & Hn & Hr & Hb). apply strip_prefix_Some in Hp.
    assert (s = suffix) as -> by congruence. apply Hlen in Hr as Hlr.
    assert (Hdot : length (lit ".") = 1%nat) by done.
    assert (Hn' : (length (label ++ lit "." ++ rest) - length suffix)%nat = S (length label)) by (rewrite !length_app, Hlr, Hdot; lia).
    rewrite Hn', Hb. replace (S (length label) - 1)%nat with (length label) by lia. split_and!.
    + rewrite !length_app, Hlr, Hdot. lia.
    + rewrite (assoc_L (++)), drop_app_length'; [done|]. rewrite length_app, Hdot. lia.
    + change (lit "." ++ rest) with ("."%char :: rest). by rewrite list_lookup_middle.
    + by rewrite take_app_length.
Qed.

Lemma dns_matches_covers pattern host : dns_matches pattern host = true ↔ covers host (DNSName pattern).
Proof.
  unfold dns_matches. cbn [covers]. destruct (eq_ignore_ascii_case pattern host); [naive_solver|].
  rewrite wildcard_bool. naive_solver.
Qed.

Lemma san_matches_covers host n : san_matches host n = true ↔ covers host n.
Proof.
  destruct n as [dns|raw|]; cbn [san_matches]; [apply dns_matches_covers| |done]. cbn [covers].
  destruct (ip_from_san raw) as [ip|]; [|naive_solver]. rewrite bool_decide_eq_true. naive_solver.
Qed.

Lemma concrete_dns_Some n name : concrete_dns n = Some name ↔ ∃ dns, n = DNSName dns ∧ concrete n name.
Proof.
  destruct n; cbn; try naive_solver. destruct (contains_char _ _) eqn:E.
  - apply contains_char_true in E. naive_solver.
  - apply contains_char_false in E. naive_solver.
Qed.

Lemma concrete_ip_Some n name : concrete_ip n = Some name ↔ ∃ raw, n = IPAddress raw ∧ concrete n name.
Proof. destruct n; cbn; try naive_solver. rewrite fmap_Some. naive_solver. Qed.

Lemma fallback_ok names name :
  match find_map concrete_dns names with Some n => Some n | None => find_map concrete_ip names end = Some name ↔
  fallback_name names name.
Proof.
  unfold fallback_name. destruct (find_map concrete_dns names) as [m|] eqn:Ed.
  - assert (Ed' := Ed). apply find_map_Some in Ed as (l & n & r & -> & Hn & Hl). apply concrete_dns_Some in Hn as Hn'.
    destruct Hn' as (dns & -> & Hc). split.
    + intros [= ->]. exists l, (DNSName dns), r. done.
    + intros (l' & n' & r' & Heq & Hc' & Hrest). destruct n' as [dns'|raw|]; [| |done].
      * assert (Hf : find_map concrete_dns (l ++ DNSName dns :: r) = Some name); [|congruence].
        apply find_map_Some. exists l', (DNSName dns'), r'. split_and!; [done| |done]. apply concrete_dns_Some. eauto.
      * destruct Hrest as [Hall _]. rewrite (Hall (DNSName dns)) in Hn; [done|]. apply elem_of_app. right. left.
  - assert (Hall := proj1 (find_map_None _ _) Ed). split.
    + intros (l & n & r & -> & Hn & Hl)%find_map_Some. apply concrete_ip_Some in Hn as (raw & -> & Hc).
      exists l, (IPAddress raw), r. done.
    + intros (l & n & r & -> & Hc & Hrest). destruct n as [dns|raw|]; [| |done].
      * assert (Hn : concrete_dns (DNSName dns) = Some name) by (apply concrete_dns_Some; eauto).
        rewrite Hall in Hn; [done|]. apply elem_of_app. right. left.
      * apply find_map_Some. exists l, (IPAddress raw), r. split_and!; [done| |apply Hrest]. apply concrete_ip_Some. eauto.
Qed.

Section certificate_lemmas.
Context `{Der} `{Pem} (open : Path → result ErrorKind str).

Lemma server_leaf_ok c : validate_server_leaf c = Ok tt ↔
  ∃ x b, parse_x509_certificate c = Some x ∧ basic_constraints x = Ok b ∧ b ≠ Some true.
Proof.
  unfold validate_server_leaf. rewrite bind_ok. split.
  - intros (x & Hx & Hb). destruct (parse_x509_certificate c) as [y|]; [|done]. injection Hx as ->.
    apply bind_ok in Hb as (b & Hb & Hn). apply map_err_ok in Hb. exists x, b. case_bool_decide; done.
  - intros (x & b & -> & Hb & Hn). exists x. split; [done|]. apply bind_ok. exists b. split; [by apply map_err_ok|].
    by rewrite bool_decide_eq_false_2.
Qed.

Lemma leaf_name_ok c address name : server_name_from_der c address = Ok name ↔
  ∃ x names host, parse_x509_certificate c = Some x ∧ subject_alternative_name x = Ok (Some names) ∧
    address_host address = Some host ∧
    (name = host ∧ (∃ n, n ∈ names ∧ covers host n) ∨ (∀ n, n ∈ names → ¬ covers host n) ∧ fallback_name names name).
Proof.
  unfold server_name_from_der. rewrite bind_ok. setoid_rewrite bind_ok. setoid_rewrite map_err_ok. setoid_rewrite bind_ok. setoid_rewrite bind_ok.
  assert (Hcase : ∀ host names, (if existsb (san_matches host) names then Ok host else
    ok_or (match find_map concrete_dns names with Some n => Some n | None => find_map concrete_ip names end)
      (Tls "服务端证书不包含可用的 DNS/IP SAN")) = Ok name ↔
    name = host ∧ (∃ n, n ∈ names ∧ covers host n) ∨ (∀ n, n ∈ names → ¬ covers host n) ∧ fallback_name names name).
  { intros host names. rewrite <- fallback_ok. setoid_rewrite <- san_matches_covers. destruct (existsb _ _) eqn:E.
    - apply existsb_exists in E as (n & Hn & Hm). apply list_elem_of_In in Hn. split; [intros [= ->]; naive_solver|].
      intros [[-> _]|[Hall _]]; [done|]. by destruct (Hall n Hn).
    - assert (Hall : ∀ n, n ∈ names → san_matches host n ≠ true).
      { intros n Hn Hm. assert (existsb (san_matches host) names = true); [|congruence].
        apply existsb_exists. exists n. by rewrite <- list_elem_of_In. }
      destruct (match find_map _ _ with Some n => Some n | None => _ end); cbn; naive_solver. }
  setoid_rewrite Hcase. split.
  - intros (x & Hx & o & Ho & names & Hn & host & Hh & Hr). exists x, names, host.
    destruct (parse_x509_certificate c), o, (address_host address); try done. naive_solver.
  - intros (x & names & host & -> & Ho & -> & Hr). exists x. split; [done|]. exists (Some names). split; [done|].
    exists names. split; [done|]. exists host. done.
Qed.

Lemma read_certificates_ok path l : read_certificates open path = Ok l ↔
  ∃ file, open path = Ok file ∧ certs file = Ok <$> l ∧ l ≠ [].
Proof.
  unfold read_certificates. rewrite bind_ok. setoid_rewrite map_err_ok. setoid_rewrite bind_ok. setoid_rewrite map_err_ok.
  setoid_rewrite collect_ok. split.
  - intros (file & Hf & cs & Hc & Hr). case_bool_decide; [done|]. naive_solver.
  - intros (file & Hf & Hc & Hn). exists file. split; [done|]. exists l. rewrite bool_decide_eq_false_2 by done. done.
Qed.

Lemma add_roots_ok (add_root : str → result str unit) l : ∀ acc roots,
  try_for (λ roots c, _ ← map_err (λ e, Tls ("添加 CA 证书失败: " ++ e)) (add_root c); Ok (roots ++ [c])) acc l = Ok roots ↔
  roots = acc ++ l ∧ Forall (λ c, add_root c = Ok tt) l.
Proof.
  induction l as [|c l IH]; intros acc roots; cbn [try_for].
  { rewrite app_nil_r. split; [intros [= ->]; by split|by intros [-> _]]. }
  rewrite bind_ok. setoid_rewrite bind_unit_ok. setoid_rewrite map_err_ok. rewrite Forall_cons. split.
  - intros (acc' & [Ha [= <-]] & Hr). apply IH in Hr as [-> Hr]. by rewrite <- (assoc_L (++)).
  - intros (-> & Ha & Hl). eexists. split; [by split|]. apply IH. by rewrite <- (assoc_L (++)).
Qed.

Context (default_bidi : N) (add_root : str → result str unit) (quic_config : trust → result str unit).

(** With a certificate file the roots are exactly its certificates. *)
Lemma client_config_ok path t :
  client_config open default_bidi add_root quic_config (Some path) = Ok t ↔
  ∃ file roots, open path = Ok file ∧ certs file = Ok <$> roots ∧ roots ≠ [] ∧
    Forall (λ c, add_root c = Ok tt) roots ∧ quic_config (TrustRoots roots) = Ok tt ∧
    t = {| tls_trust := TrustRoots roots; tls_transport := client_transport_config default_bidi |}.
Proof.
  unfold client_config, quinn_client_config. rewrite bind_ok. setoid_rewrite bind_ok. setoid_rewrite read_certificates_ok.
  setoid_rewrite bind_ok. setoid_rewrite add_roots_ok. setoid_rewrite map_err_ok. split.
  - intros (t' & (cs & (file & Hf & Hc & Hn) & roots & [-> Ha] & [= <-]) & [] & Hq & [= <-]).
    exists file, cs. done.
  - intros (file & roots & Hf & Hc & Hn & Ha & Hq & ->). eexists. split; [|by exists tt].
    exists roots. split; [by exists file|]. by exists roots.
Qed.
End certificate_lemmas.

(** ** Theorems *)

(** A name of a certificate covers a host when they are equal up to case or
    when the name starts with a wildcard that stands for exactly the first
    label of the host. *)
Theorem dns_matches_spec pattern host :
  dns_matches pattern host = true ↔ eq_ignore_ascii_case pattern host = true ∨ wildcard_covers pattern host.
Proof. apply (dns_matches_covers pattern host). Qed.

(** What is stored of a downloaded chain: at most sixteen certificates, the
    PEM text reads back as exactly them, the leaf is not a CA, and the name is
    the host of the address when the leaf covers it and otherwise the first
    concrete name of the leaf; reading the name from the stored text gives the
    same one. *)
Theorem downloaded_certificate `{Der} `{Pem} chain address d :
  from_chain chain address = Ok d →
  (1 ≤ length chain ≤ 16)%nat ∧ certs (downloaded_pem d) = Ok <$> chain ∧
  server_name_from_pem (downloaded_pem d) address = Ok (downloaded_server_name d) ∧
  ∃ leaf rest x b names host, chain = leaf :: rest ∧ parse_x509_certificate leaf = Some x ∧
    basic_constraints x = Ok b ∧ b ≠ Some true ∧ subject_alternative_name x = Ok (Some names) ∧
    address_host address = Some host ∧
    (downloaded_server_name d = host ∧ (∃ n, n ∈ names ∧ covers host n) ∨
     (∀ n, n ∈ names → ¬ covers host n) ∧ fallback_name names (downloaded_server_name d)).
Proof.
  unfold from_chain. intros (Hlen & Hd)%bind_unit_ok. apply reject_if_ok in Hlen. bsimpl. destruct Hlen as [Hne Hmax].
  apply bind_unit_ok in Hd as [Hleaf Hd]. apply bind_ok in Hd as (name & Hname & [= <-]).
  destruct chain as [|leaf rest]; [done|]. cbn [head default from_option id] in *. split_and!.
  - cbn. lia.
  - unfold MAX_CERTIFICATE_CHAIN_LENGTH in Hmax. done.
  - apply certs_encode_many.
  - unfold server_name_from_pem. cbn [downloaded_pem downloaded_server_name]. rewrite certs_encode_many.
    cbn [fmap list_fmap map_err mbind result_bind]. by rewrite Hleaf.
  - apply server_leaf_ok in Hleaf as (x & b & Hx & Hb & Hn). apply leaf_name_ok in Hname as (x' & names & host & Hx' & Hs & Hh & Hr).
    exists leaf, rest, x, b, names, host. split_and!; try done; congruence.
Qed.

(** A PEM codec and a parser of two known certificates for the witness. *)
Fixpoint toy_certs (cur s : str) : list (result ErrorKind str) :=
  match s with
  | "0"%char :: s => Ok cur :: toy_certs [] s
  | "1"%char :: c :: s => toy_certs (cur ++ [c]) s
  | _ => []
  end.
Definition toy_encode (cert : str) : str := (cert ≫= λ c, ["1"%char; c]) ++ lit "0".

Lemma toy_certs_encode cert s : ∀ cur, toy_certs cur (toy_encode cert ++ s) = Ok (cur ++ cert) :: toy_certs [] s.
Proof.
  induction cert as [|c cert IH]; intros cur; [by rewrite app_nil_r|].
  change (toy_certs cur (toy_encode (c :: cert) ++ s)) with (toy_certs (cur ++ [c]) (toy_encode cert ++ s)).
  by rewrite IH, <- (assoc_L (++)).
Qed.

Definition toy_pem : Pem.
Proof.
  refine {| encode_many := λ l, l ≫= toy_encode; certs := toy_certs []; pem_private_key := λ s, Ok (Some s) |}.
  intros l. induction l as [|c l IH]; [done|]. cbn [mbind list_bind fmap list_fmap]. rewrite toy_certs_encode.
  cbn [app]. f_equal. exact IH.
Defined.

Definition toy_der : Der := λ s,
  if decide (s = lit "leaf") then Some {| basic_constraints := Ok (Some false);
    subject_alternative_name := Ok (Some [DNSName "*.example.org"; DNSName "example.net"]) |} else None.

Lemma downloaded_certificate_witness :
  @server_name_from_pem toy_der toy_pem (@encode_many toy_pem [lit "leaf"; lit "issuer"]) "tunnel.example.org:7000" =
  Ok (lit "tunnel.example.org").
Proof.
  apply (@downloaded_certificate toy_der toy_pem [lit "leaf"; lit "issuer"] "tunnel.example.org:7000"
    {| downloaded_pem := @encode_many toy_pem [lit "leaf"; lit "issuer"]; downloaded_server_name := "tunnel.example.org" |}).
  vm_compute. reflexivity.
Defined.
