(* ===== verification/Login.v ===== *)
(** * Login: the login of the desktop client

    [login_inner] of [gaterust-client/src/lib.rs], [trust.rs] and the two
    functions of [gaterust-tunnel/src/client.rs] it calls,
    [fetch_server_certificate] and [verify_client_credentials].  The files are
    state that survives a failure, as in [ConfigFiles]; a future is the list of
    its polls, and what the network does during it is an argument. *)

From S2P Require Import Prelude RustStr Net Paths TunnelConfig ConfigFiles Protocol ServerSession ClientSession Certificate Selection.

(** ** Operations on the files that can fail or stay pending

    The files survive a failure; [None] is a future that is not ready yet. *)

Definition fsio (A : Type) := fs → option (CResult A) * fs.

#[global] Instance fsio_ret : MRet fsio := λ A a m, (Some (Ok a), m).
#[global] Instance fsio_bind : MBind fsio := λ A B k x m,
  match x m with
  | (Some (Ok a), m') => k a m'
  | (Some (Err e), m') => (Some (Err e), m')
  | (None, m') => (None, m')
  end.

Definition lift {A} (r : CResult A) : fsio A := λ m, (Some r, m).
Definition with_files {A} (f : fs → CResult A) : fsio A := λ m, (Some (f m), m).

(** ** Polls of a future under [select!] *)

Record poll (A : Type) := { p_cancelled : bool; p_ready : option A; p_expired : bool }.
Arguments p_cancelled {_} _.
Arguments p_ready {_} _.
Arguments p_expired {_} _.

(** [run_login_step]: the branches in the order of [biased]; [f] is what the
    future computes from what it observed. *)
Fixpoint run_login_step {N T} (f : N → Result T) (polls : list (poll N)) : option (CResult T) :=
  match polls with
  | [] => None
  | p :: polls =>
      if p_cancelled p then Some (Err LoginCancelled) else
      match p_ready p with
      | Some n => Some (map_err Tunnel (f n))
      | None => if p_expired p then Some (Err LoginTimeout) else run_login_step f polls
      end
  end.

(** [run_login_step(..).await?] of a future that looks at the files. *)
Definition await_step {N T} (f : fs → N → Result T) (polls : list (poll N)) : fsio T :=
  λ m, (run_login_step (f m) polls, m).

(** [cancelled], and whether the deadline has passed. *)
Definition check_login_state (now : bool * bool) : CResult unit :=
  if now.1 then Err LoginCancelled else if now.2 then Err LoginTimeout else Ok tt.

(** ** [client.rs]: the two exchanges with the server *)

Record bootstrap_run := {
  b_connected : Result unit;
  b_identity : Result (list str);
  b_nonce : str;
  b_opened : option (Result unit);
  b_written : Result unit;
  b_response : option (Result ServerHandshake);
  b_close : option TunnelError }.

(** The resolver's answer, and the attempts in the order in which they end. *)
Record network (A : Type) := { n_lookup : Result (list SocketAddr); n_attempts : list A }.
Arguments n_lookup {_} _.
Arguments n_attempts {_} _.

Record attempt := {
  a_connected : Result unit;
  a_chain : list str;
  a_opened : option (Result unit);
  a_written : Result unit;
  a_response : option (Result ServerHandshake);
  a_close : option TunnelError }.

Section login.
Context {AW : AtomicWriteFile} `{Toml ClientConfig} `{Crypto} `{Der} `{Pem}.
(** quinn and rustls: see [Certificate]. *)
Context (default_bidi : N) (add_root : str → result str unit) (quic_config : trust → result str unit)
        (chain_ok : option (list str) → list str → str → bool) (bad_certificate : str).

Definition bootstrap_client (address key : str) : ClientConfig :=
  {| client_key := key;
     client_server := {| server_address := address; server_tls_name := None; ca_certificate := None |};
     client_services := [] |}.

Definition fetch_server_certificate (address key : str) (n : network bootstrap_run) : Result DownloadedServerCertificate :=
  _ ← validate_group_key key;
  let config := bootstrap_client address key in
  _ ← ClientConfig_validate config;
  _ ← server_name config;
  _ ← bootstrap_client_config default_bidi quic_config;
  addresses ← resolve_addresses (n_lookup n) address;
  try_addresses None ((λ b, bootstrap_at_address (b_connected b) (b_identity b) key (b_nonce b) (b_opened b) (b_written b)
                              (b_response b) (b_close b) (λ chain, from_chain chain address))
                        <$> take (length addresses) (n_attempts n)).

(** The handshake fails unless the verifier accepts the peer's chain. *)
Definition connect_at_address (tls : client_tls) (name : str) (a : attempt) : Result attempt :=
  _ ← a_connected a;
  if verify_server_cert chain_ok (tls_trust tls) (a_chain a) name then Ok a else Err (QuinnConnection bad_certificate).

Definition connect_server (open : Path → result ErrorKind str) (config : ClientConfig) (n : network attempt) : Result attempt :=
  addresses ← resolve_addresses (n_lookup n) (server_address (client_server config));
  name ← server_name config;
  tls ← client_config open default_bidi add_root quic_config (ca_certificate (client_server config));
  try_addresses None (connect_at_address tls name <$> take (length addresses) (n_attempts n)).

Definition verify_client_credentials (open : Path → result ErrorKind str) (config : ClientConfig) (n : network attempt)
  : Result (list ClientTunnel) :=
  _ ← ClientConfig_validate config;
  a ← connect_server open config n;
  r ← client_authenticate (a_opened a) (a_written a) (a_response a) (a_close a);
  match r with
  | ClientAccepted tunnels => Ok tunnels
  | ClientDeviceIdConflict => Err (Protocol "临时认证设备 ID 冲突")
  end.

(** ** [trust.rs] *)

Fixpoint hex_fixed (k : nat) (n : N) (acc : str) : str :=
  match k with O => acc | Datatypes.S k => hex_fixed k (n / 16) (hex_digit (n mod 16) :: acc) end.

(** [server-{:016x}.pem] *)
Definition candidate_name (random : N) : str := "server-" ++ hex_fixed 16 random [] ++ ".pem".
Definition candidate_path (config_path : Path) (random : N) : Path :=
  path_join (config_parent config_path) [Normal (candidate_name random)].

Definition is_ascii_hexdigit (c : ascii) : bool := is_ascii_digit c || in_range c 65 70 || in_range c 97 102.

Definition managed_certificate_path (config : ClientConfig) (config_path : Path) : option Path :=
  configured ← ca_certificate (client_server config);
  if match path_parent configured with Some (_ :: _) => true | _ => false end then None else
  name ← path_file_name configured;
  suffix ← strip_prefix "server-" name;
  suffix ← strip_suffix ".pem" suffix;
  if (length suffix =? 16)%nat && forallb is_ascii_hexdigit suffix
  then Some (path_join (config_parent config_path) configured) else None.

Record PreparedTrust := { pt_path : Path; pt_replaced : option Path }.

Definition commit (fl : faults) (p : PreparedTrust) (m : fs) : fs :=
  match pt_replaced p with Some path => cleanup_file fl m path | None => m end.
(** Dropped without a commit. *)
Definition drop_trust (fl : faults) (p : PreparedTrust) (m : fs) : fs := cleanup_file fl m (pt_path p).

Definition write_candidate_certificate (fl : faults) (random : N) (parent : Path) (content : str) (replaced : option Path)
  : fsio (PreparedTrust * Path) := λ m,
  match f_mkdir fl with
  | Some e => (Some (Err (Tunnel (WriteConfig parent e))), m)
  | None =>
      let file_name := [Normal (candidate_name random)] in
      let path := path_join parent file_name in
      let failed e m := (Some (Err (Tunnel (WriteConfig path e))), cleanup_file fl m path) in
      match f_open fl with
      | Some e => failed e m
      | None =>
          if bool_decide (is_Some (m !! path)) then failed AlreadyExists m else
          match f_write fl with
          | Some (e, partial) => failed e (<[path := partial]> m)
          | None => (Some (Ok ({| pt_path := path; pt_replaced := replaced |}, file_name)), <[path := content]> m)
          end
      end
  end.

(** ** [login_inner] *)

Record login_env := {
  (** cancellation and deadline at the [i]-th check *)
  l_check : nat → bool * bool;
  l_fetch : list (poll (network bootstrap_run));
  l_verify : list (poll (network attempt));
  l_random : N;
  (** failing calls while reading, writing the candidate, opening it,
      saving, and removing a certificate *)
  l_read : faults;
  l_write : faults;
  l_open : faults;
  l_save : faults;
  l_remove : faults }.

(** The configuration the login builds: without and with the certificate. *)
Definition login_config (address key : str) : ClientConfig := bootstrap_client (trim address) key.
Definition with_certificate (c : ClientConfig) (name : str) (ca : Path) : ClientConfig :=
  {| client_key := client_key c;
     client_server := {| server_address := server_address (client_server c); server_tls_name := Some name;
                         ca_certificate := Some ca |};
     client_services := client_services c |}.

Definition prepare (e : login_env) (config : ClientConfig) (config_path : Path) (replaced : option Path)
  : fsio (PreparedTrust * ClientConfig) :=
  certificate ← await_step (λ _, fetch_server_certificate (server_address (client_server config)) (client_key config)) (l_fetch e);
  '(prepared, file_name) ← write_candidate_certificate (l_write e) (l_random e) (config_parent config_path)
                             (downloaded_pem certificate) replaced;
  mret (prepared, with_certificate config (downloaded_server_name certificate) file_name).

(** A failure while the guard is alive drops it. *)
Definition guarded {A} (e : login_env) (p : PreparedTrust) (x : fsio A) : fsio A := λ m,
  match x m with
  | (Some (Err err), m') => (Some (Err err), drop_trust (l_remove e) p m')
  | r => r
  end.

Definition save_and_commit (e : login_env) (config_path : Path) (p : PreparedTrust) (config : ClientConfig) : fsio ClientConfig :=
  λ m, match ClientConfig_save config (l_save e) m config_path with
       | Err err => (Some (Err (Tunnel err)), m)
       | Ok m' => (Some (Ok config), commit (l_remove e) p m')
       end.

Definition finish_inner (e : login_env) (config_path : Path) (p : PreparedTrust) (config : ClientConfig) : fsio ClientConfig :=
  guarded e p
    (_ ← lift (check_login_state (l_check e 2));
     runtime_config ← lift (map_err Tunnel (ClientConfig_resolved config config_path));
     _ ← await_step (λ m, verify_client_credentials (read_to_string (l_open e) m) runtime_config) (l_verify e);
     _ ← lift (check_login_state (l_check e 3));
     save_and_commit e config_path p config).

Definition login_inner (e : login_env) (config_path : Path) (address key : str) : fsio ClientConfig :=
  _ ← lift (check_login_state (l_check e 0));
  config ← with_files (λ m, map_err Tunnel (ClientConfig_read (l_read e) m config_path));
  _ ← lift (check_login_state (l_check e 1));
  let replaced := managed_certificate_path config config_path in
  let config := login_config address key in
  _ ← lift (map_err Tunnel (ClientConfig_validate config));
  '(prepared, config) ← prepare e config config_path replaced;
  finish_inner e config_path prepared config.
End login.

(** ** Lemmas *)

Lemma fsio_bind_ok {A B} (x : fsio A) (k : A → fsio B) (m : fs) (b : B) (m'' : fs) :
  (x ≫= k) m = (Some (Ok b), m'') ↔ ∃ (a : A) (m' : fs), x m = (Some (Ok a), m') ∧ k a m' = (Some (Ok b), m'').
Proof. unfold mbind, fsio_bind. destruct (x m) as [[[a|e]|] m1]; naive_solver. Qed.

Lemma lift_bind {A B : Type} (r : CResult A) (k : A → fsio B) (m : fs) :
  (lift r ≫= k) m = match r with Ok a => k a m | Err e => (Some (Err e), m) end.
Proof. by destruct r. Qed.

Lemma with_files_bind {A B : Type} (f : fs → CResult A) (k : A → fsio B) (m : fs) :
  (with_files f ≫= k) m = match f m with Ok a => k a m | Err e => (Some (Err e), m) end.
Proof. unfold mbind, fsio_bind, with_files. by destruct (f m). Qed.

Lemma await_bind {N T B : Type} (f : fs → N → Result T) (polls : list (poll N)) (k : T → fsio B) (m : fs) :
  (await_step f polls ≫= k) m =
  match run_login_step (f m) polls with Some (Ok a) => k a m | Some (Err e) => (Some (Err e), m) | None => (None, m) end.
Proof. unfold mbind, fsio_bind, await_step. by destruct (run_login_step _ _) as [[]|]. Qed.

Lemma run_login_step_ok {N T} (f : N → Result T) polls v :
  run_login_step f polls = Some (Ok v) →
  ∃ before p after n, polls = before ++ p :: after ∧ p_ready p = Some n ∧ f n = Ok v ∧
    Forall (λ q, p_cancelled q = false) (before ++ [p]) ∧
    Forall (λ q, p_ready q = None ∧ p_expired q = false) before.
Proof.
  induction polls as [|p polls IH]; cbn [run_login_step]; [done|].
  destruct (p_cancelled p) eqn:Ec; [done|]. destruct (p_ready p) as [n|] eqn:Er.
  - intros [= Hv]. apply map_err_ok in Hv. exists [], p, polls, n. split_and!; [done|done|done|by constructor|constructor].
  - destruct (p_expired p) eqn:Ee; [done|]. intros (before & q & after & n & -> & Hr & Hf & Hc & Hb)%IH.
    exists (p :: before), q, after, n. split_and!; [done|done|done|by constructor|by constructor].
Qed.

(** A login step ends: when it is cancelled, when the future is ready or when
    the deadline passes. *)
Lemma run_login_step_ends {N T} (f : N → Result T) polls :
  is_Some (run_login_step f polls) ↔
  Exists (λ p, p_cancelled p = true ∨ is_Some (p_ready p) ∨ p_expired p = true) polls.
Proof.
  induction polls as [|p polls IH]; cbn [run_login_step].
  { split; [by intros []|by intros ?%Exists_nil]. }
  rewrite Exists_cons, <- IH. destruct (p_cancelled p), (p_ready p), (p_expired p); naive_solver.
Qed.

Lemma try_addresses_ok {T} (l : list (Result T)) : ∀ last v, try_addresses last l = Ok v → Ok v ∈ l.
Proof.
  induction l as [|[a|e] l IH]; intros last v; cbn [try_addresses]; [done|intros [= ->]; left|].
  destruct e; intros Hv; try done; right; by eapply IH.
Qed.

Section login_lemmas.
Context {AW : AtomicWriteFile} `{Toml ClientConfig} `{Crypto} `{Der} `{Pem}.
Context (default_bidi : N) (add_root : str → result str unit) (quic_config : trust → result str unit)
        (chain_ok : option (list str) → list str → str → bool) (bad_certificate : str).

(** A peer that answers the bootstrap with a proof of the key for its leaf. *)
Definition proved (key : str) (leaf : str) (b : bootstrap_run) : Prop :=
  ∃ server_nonce p, b_response b = Some (Ok (ShBootstrap (BootAccepted server_nonce p))) ∧
    verify_server_proof key PROTOCOL_VERSION (b_nonce b) server_nonce leaf p = true.

Lemma fetch_ok address key n d :
  fetch_server_certificate default_bidi quic_config address key n = Ok d →
  ∃ b leaf rest, b ∈ n_attempts n ∧ b_identity b = Ok (leaf :: rest) ∧ proved key leaf b ∧
    from_chain (leaf :: rest) address = Ok d.
Proof.
  unfold fetch_server_certificate. intros (_ & Hf)%bind_unit_ok. apply bind_unit_ok in Hf as [_ Hf].
  apply bind_ok in Hf as (sn & _ & Hf). apply bind_ok in Hf as (tls & _ & Hf). apply bind_ok in Hf as (addrs & _ & Hf).
  apply try_addresses_ok in Hf. apply list_elem_of_fmap in Hf as (b & Hb & Hin). symmetry in Hb.
  unfold bootstrap_at_address in Hb. apply bind_unit_ok in Hb as [_ Hb]. apply bind_ok in Hb as (chain & Hid & Hb).
  apply bind_ok in Hb as (leaf & Hl & Hb). apply bind_ok in Hb as (rq & _ & Hb). apply bind_unit_ok in Hb as [_ Hb].
  apply bind_unit_ok in Hb as [_ Hb]. apply bind_ok in Hb as (resp & Hresp & Hb). apply bind_unit_ok in Hb as [Hv Hb].
  destruct chain as [|c rest]; [done|]. injection Hl as ->. exists b, leaf, rest.
  split_and!; [by eapply elem_of_take in Hin as (? & ? & _); eapply list_elem_of_lookup_2|done| |done].
  destruct (b_response b) as [r|] eqn:Er; [|done]. apply map_err_ok in Hresp as ->. unfold bootstrap_verdict in Hv.
  destruct resp as [|[sn' p|m]]; try done. exists sn', p. split; [done|]. by destruct (verify_server_proof _ _ _ _ _ _).
Qed.

(** A connection on which the server accepted the key. *)
Definition authenticated (roots : list str) (name : str) (a : attempt) : Prop :=
  chain_ok (Some roots) (a_chain a) name = true ∧
  ∃ hello, a_response a = Some (Ok (ShAuthenticate hello)) ∧ sh_status hello = Accepted.

Lemma verify_ok open config n tunnels ca :
  ca_certificate (client_server config) = Some ca →
  verify_client_credentials default_bidi add_root quic_config chain_ok bad_certificate open config n = Ok tunnels →
  ∃ a file roots name, a ∈ n_attempts n ∧ open ca = Ok file ∧ certs file = Ok <$> roots ∧
    server_name config = Ok name ∧ authenticated roots name a.
Proof.
  intros Hca. unfold verify_client_credentials, connect_server. rewrite Hca.
  intros (_ & Hv)%bind_unit_ok. apply bind_ok in Hv as (a & Ha & Hv). apply bind_ok in Hv as (r & Hr & Hv).
  apply bind_ok in Ha as (addrs & _ & Ha). apply bind_ok in Ha as (name & Hn & Ha). apply bind_ok in Ha as (tls & Ht & Ha).
  apply client_config_ok in Ht as (file & roots & Ho & Hc & _ & _ & _ & ->).
  apply try_addresses_ok in Ha. apply list_elem_of_fmap in Ha as (a' & Ha & Hin). symmetry in Ha.
  unfold connect_at_address in Ha. apply bind_unit_ok in Ha as [_ Ha]. cbn [tls_trust verify_server_cert] in Ha.
  destruct (chain_ok _ _ _) eqn:Ek; [|done]. injection Ha as ->.
  exists a, file, roots, name. split_and!; [by eapply elem_of_take in Hin as (? & ? & _); eapply list_elem_of_lookup_2|done|done|done|].
  split; [done|]. unfold client_authenticate in Hr. apply bind_unit_ok in Hr as [_ Hr]. apply bind_unit_ok in Hr as [_ Hr].
  apply bind_ok in Hr as (resp & Hresp & Hr). destruct (a_response a) as [x|]; [|done]. apply map_err_ok in Hresp as ->.
  destruct resp as [hello|]; [|done]. exists hello. split; [done|]. by destruct (sh_status hello); simplify_eq.
Qed.
End login_lemmas.

Section files.
Context {AW : AtomicWriteFile} `{Toml ClientConfig} `{Crypto} `{Der} `{Pem}.
Context (default_bidi : N) (add_root : str → result str unit) (quic_config : trust → result str unit)
        (chain_ok : option (list str) → list str → str → bool) (bad_certificate : str).

Lemma write_candidate_spec fl random parent content replaced m :
  let path := path_join parent [Normal (candidate_name random)] in
  m !! path = None →
  match write_candidate_certificate fl random parent content replaced m with
  | (Some (Ok (p, name)), m') => p = {| pt_path := path; pt_replaced := replaced |} ∧
      name = [Normal (candidate_name random)] ∧ m' = <[path := content]> m
  | (Some (Err _), m') => m' = m ∨ is_Some (f_remove fl) ∧ delete path m' = m
  | (None, _) => False
  end.
Proof.
  intros path Hfresh. unfold write_candidate_certificate. fold path.
  destruct (f_mkdir fl); [by left|]. unfold cleanup_file.
  destruct (f_open fl); [left; destruct (f_remove fl); [done|by apply delete_id]|].
  rewrite bool_decide_eq_false_2 by (rewrite Hfresh; by intros []).
  destruct (f_write fl) as [[e partial]|]; [|done].
  destruct (f_remove fl) as [er|]; [right; split; [by exists er|]|left]; by rewrite delete_insert_eq, delete_id.
Qed.

Lemma finish_inner_spec e path p config m :
  match finish_inner default_bidi add_root quic_config chain_ok bad_certificate e path p config m with
  | (Some (Ok c), m') => c = config ∧
      ∃ runtime poll n tunnels m1, ClientConfig_resolved config path = Ok runtime ∧ poll ∈ l_verify e ∧ p_ready poll = Some n ∧
        verify_client_credentials default_bidi add_root quic_config chain_ok bad_certificate
          (read_to_string (l_open e) m) runtime n = Ok tunnels ∧
        ClientConfig_save config (l_save e) m path = Ok m1 ∧ m' = commit (l_remove e) p m1
  | (Some (Err _), m') => m' = drop_trust (l_remove e) p m
  | (None, m') => m' = m
  end.
Proof.
  unfold finish_inner, guarded. rewrite lift_bind. destruct (check_login_state (l_check e 2)) as [[]|]; [|done].
  rewrite lift_bind. destruct (ClientConfig_resolved config path) as [runtime|] eqn:Er; [|done]. cbn [map_err]. rewrite await_bind.
  match goal with |- context [run_login_step ?f ?l] => destruct (run_login_step f l) as [[tunnels|]|] eqn:Es end; [|done|done].
  rewrite lift_bind. destruct (check_login_state (l_check e 3)) as [[]|]; [|done]. unfold save_and_commit.
  destruct (ClientConfig_save config (l_save e) m path) as [m1|] eqn:Em; [|done].
  apply run_login_step_ok in Es as (before & q & after & n & Hp & Hr & Hv & _). split; [done|].
  exists runtime, q, n, tunnels, m1. split_and!; try done. rewrite Hp. apply elem_of_app. right. left.
Qed.

Lemma prepare_spec e config path replaced m :
  m !! candidate_path path (l_random e) = None →
  match prepare default_bidi quic_config e config path replaced m with
  | (Some (Ok (p, c)), m') =>
      p = {| pt_path := candidate_path path (l_random e); pt_replaced := replaced |} ∧
      ∃ q n d, q ∈ l_fetch e ∧ p_ready q = Some n ∧
        fetch_server_certificate default_bidi quic_config (server_address (client_server config)) (client_key config) n = Ok d ∧
        c = with_certificate config (downloaded_server_name d) [Normal (candidate_name (l_random e))] ∧
        m' = <[candidate_path path (l_random e) := downloaded_pem d]> m
  | (Some (Err _), m') => m' = m ∨ is_Some (f_remove (l_write e)) ∧ delete (candidate_path path (l_random e)) m' = m
  | (None, m') => m' = m
  end.
Proof.
  intros Hfresh. unfold prepare. rewrite await_bind.
  match goal with |- context [run_login_step ?f ?l] => destruct (run_login_step f l) as [[d|]|] eqn:Es end; [|by left|done].
  apply run_login_step_ok in Es as (before & q & after & n & Hp & Hr & Hf & _).
  assert (Hw := write_candidate_spec (l_write e) (l_random e) (config_parent path) (downloaded_pem d) replaced m Hfresh).
  unfold mbind at 1, fsio_bind at 1. destruct (write_candidate_certificate _ _ _ _ _ m) as [[[[p name]|]|] m'].
  - destruct Hw as (-> & -> & ->). split; [done|]. exists q, n, d. split_and!; try done.
    rewrite Hp. apply elem_of_app. right. left.
  - exact Hw.
  - by destruct Hw.
Qed.
End files.

(** A managed certificate lies beside the configuration. *)
Lemma managed_path_inv c path p :
  managed_certificate_path c path = Some p →
  ∃ n, p = config_parent path ++ [Normal n] ∧ is_Some (strip_prefix "server-" n).
Proof.
  unfold managed_certificate_path. intros (configured & _ & Hp)%bind_Some.
  destruct (match path_parent configured with Some (_ :: _) => true | _ => false end) eqn:Epar; [done|].
  apply bind_Some in Hp as (n & Hn & Hp). apply bind_Some in Hp as (s & Hs & Hp). apply bind_Some in Hp as (s' & _ & Hp).
  destruct (_ && _); [|done]. injection Hp as <-. exists n. split; [|eauto].
  unfold path_file_name in Hn. destruct (last configured) as [[]|] eqn:El; try done. injection Hn as ->.
  apply last_Some in El as [l ->]. unfold path_parent in Epar. rewrite last_snoc, removelast_last in Epar.
  destruct l; [done|done].
Qed.

Lemma candidate_prefix n : strip_prefix "server-" (candidate_name n) = Some (hex_fixed 16 n [] ++ lit ".pem").
Proof. by apply strip_prefix_Some. Qed.

Lemma config_parent_snoc dir file : dir ≠ [] → config_parent (dir ++ [Normal file]) = dir.
Proof. intros Hd. unfold config_parent, path_parent. rewrite last_snoc, removelast_last. by destruct dir. Qed.

Lemma resolved_beside dir file n : dir ≠ [] → resolve_path (dir ++ [Normal file]) [Normal n] = dir ++ [Normal n].
Proof. intros Hd. unfold resolve_path, path_parent. cbn [path_is_relative]. by rewrite last_snoc, removelast_last. Qed.

(** ** Theorems *)

(** What a completed login has established. *)
Section outcome.
Context {AW : AtomicWriteFile} `{Toml ClientConfig} `{Crypto} `{Der} `{Pem}.
Context (chain_ok : option (list str) → list str → str → bool).

Record logged_in (e : login_env) (path : Path) (address key : str) (m : fs) (c : ClientConfig) (m' : fs) : Prop := {
  li_readable : ∀ fl, f_read fl = None → ClientConfig_read fl m' path = Ok c;
  li_valid : wf_client c;
  li_key : client_key c = key;
  li_address : server_address (client_server c) = trim address;
  li_services : client_services c = [];
  li_trust : ∃ leaf rest d b n q n' q' a,
    ca_certificate (client_server c) = Some [Normal (candidate_name (l_random e))] ∧
    server_tls_name (client_server c) = Some (downloaded_server_name d) ∧
    from_chain (leaf :: rest) (trim address) = Ok d ∧
    m' !! candidate_path path (l_random e) = Some (downloaded_pem d) ∧
    q ∈ l_fetch e ∧ p_ready q = Some n ∧ b ∈ n_attempts n ∧ proved key leaf b ∧
    q' ∈ l_verify e ∧ p_ready q' = Some n' ∧ a ∈ n_attempts n' ∧
    authenticated chain_ok (leaf :: rest) (downloaded_server_name d) a;
  li_others : ∀ p, p ≠ path → p ≠ candidate_path path (l_random e) →
    m' !! p = m !! p ∨
    m' !! p = None ∧ ∃ c0, ClientConfig_read (l_read e) m path = Ok c0 ∧ managed_certificate_path c0 path = Some p }.
End outcome.

Lemma commit_lookup fl p m x :
  pt_replaced p ≠ Some x → commit fl p m !! x = m !! x.
Proof.
  unfold commit, cleanup_file. destruct (pt_replaced p) as [y|]; [|done]. intros Hn. destruct (f_remove fl); [done|].
  apply lookup_delete_ne. congruence.
Qed.

Section done.
Context {AW : AtomicWriteFile} `{Toml ClientConfig} `{Crypto} `{Der} `{Pem}.
Context (default_bidi : N) (add_root : str → result str unit) (quic_config : trust → result str unit)
        (chain_ok : option (list str) → list str → str → bool) (bad : str).

(** The last steps of a login that succeeds. *)
Lemma login_done e dir file address key m c0 q n d runtime q' n' tunnels m3 :
  let path := dir ++ [Normal file] in
  let candidate := candidate_path path (l_random e) in
  let config := with_certificate (login_config address key) (downloaded_server_name d) [Normal (candidate_name (l_random e))] in
  dir ≠ [] → strip_prefix "server-" file = None → path ≠ candidate →
  ClientConfig_read (l_read e) m path = Ok c0 → managed_certificate_path c0 path ≠ Some candidate →
  q ∈ l_fetch e → p_ready q = Some n → fetch_server_certificate default_bidi quic_config (trim address) key n = Ok d →
  ClientConfig_resolved config path = Ok runtime → q' ∈ l_verify e → p_ready q' = Some n' →
  verify_client_credentials default_bidi add_root quic_config chain_ok bad
    (read_to_string (l_open e) (<[candidate := downloaded_pem d]> m)) runtime n' = Ok tunnels →
  ClientConfig_save config (l_save e) (<[candidate := downloaded_pem d]> m) path = Ok m3 →
  logged_in chain_ok e path address key m config
    (commit (l_remove e) {| pt_path := candidate; pt_replaced := managed_certificate_path c0 path |} m3).
Proof.
  intros path candidate config Hdir Hfile Hpc Hc0 Hrep Hq Hqn Hf Hrun Hq' Hqn' Hv Hsave.
  assert (Hparent := config_parent_snoc dir file Hdir). fold path in Hparent.
  assert (Hcand : candidate = dir ++ [Normal (candidate_name (l_random e))]) by (unfold candidate, candidate_path; by rewrite Hparent).
  assert (Hpath : managed_certificate_path c0 path ≠ Some path).
  { intros (x & Hx & Hs)%managed_path_inv. rewrite Hparent in Hx. unfold path in Hx.
    apply app_inj_2 in Hx as [_ [= Hx]]; [|done]. rewrite Hx in Hfile. rewrite Hfile in Hs. by destruct Hs. }
  destruct (save_read _ _ _ _ _ no_faults Hsave eq_refl) as [_ Hother].
  apply fetch_ok in Hf as (b & leaf & rest & Hb & Hid & Hproved & Hchain).
  assert (Hca : ca_certificate (client_server runtime) = Some candidate).
  { rewrite Hcand. unfold ClientConfig_resolved in Hrun. apply bind_unit_ok in Hrun as [_ [= <-]].
    cbn [client_server ca_certificate config with_certificate fmap option_fmap option_map]. f_equal. by apply resolved_beside. }
  eapply verify_ok in Hv as (a & pem & roots & name & Ha & Hopen & Hroots & Hname & Hauth); [|exact Hca].
  split.
  - intros fl Hfl. destruct (save_read _ _ _ _ _ fl Hsave Hfl) as [Hread _].
    unfold ClientConfig_read, parse_config, read_to_string in *. rewrite Hfl in *. by rewrite commit_lookup.
  - unfold ClientConfig_save in Hsave. apply bind_unit_ok in Hsave as [Hval _]. by apply client_validate_iff in Hval.
  - done.
  - done.
  - done.
  - assert (Hd' := Hchain). unfold from_chain in Hd'. apply bind_unit_ok in Hd' as [_ Hd'].
    apply bind_unit_ok in Hd' as [_ Hd']. apply bind_ok in Hd' as (nm & _ & [= Hd']).
    assert (Hpem : pem = downloaded_pem d).
    { unfold read_to_string in Hopen. destruct (f_read (l_open e)); [done|]. rewrite lookup_insert_eq in Hopen. by injection Hopen. }
    assert (Hroots' : roots = leaf :: rest).
    { rewrite Hpem, <- Hd' in Hroots. cbn [downloaded_pem] in Hroots. rewrite certs_encode_many in Hroots.
      symmetry. by apply (inj (fmap Ok)) in Hroots. }
    assert (Hname' : name = downloaded_server_name d).
    { unfold ClientConfig_resolved in Hrun. apply bind_unit_ok in Hrun as [_ [= Hrun]]. subst runtime.
      unfold server_name in Hname. cbn [client_server server_tls_name config with_certificate] in Hname.
      apply bind_unit_ok in Hname as [_ [= <-]]. done. }
    subst roots name. exists leaf, rest, d, b, n, q, n', q', a. split_and!; try done.
    rewrite commit_lookup by done. rewrite Hother by done. by rewrite lookup_insert_eq.
  - intros p Hp1 Hp2. destruct (decide (managed_certificate_path c0 path = Some p)) as [Hm|Hm].
    + unfold commit, cleanup_file. cbn [pt_replaced]. rewrite Hm. destruct (f_remove (l_remove e)).
      * left. rewrite Hother by done. by rewrite lookup_insert_ne.
      * right. rewrite lookup_delete_eq. split; [done|]. by exists c0.
    + left. rewrite commit_lookup by done. rewrite Hother by done. by rewrite lookup_insert_ne.
Qed.
End done.

(** C11: a login is all or nothing.  When it succeeds the configuration on disk is
    the returned one, valid, with the new address and key and no services; the
    certificate beside it is the chain of a server that proved knowledge of
    the key, and the key was accepted on a connection verified against exactly
    that chain; no other file changed, but the certificate it replaces may be
    gone.  When it fails nothing changed, unless removing the new certificate
    failed as well; the configuration is as before in any case. *)
Theorem login_all_or_nothing {AW : AtomicWriteFile} `{Toml ClientConfig} `{Crypto} `{Der} `{Pem}
  default_bidi add_root quic_config chain_ok bad e dir file address key m :
  let path := dir ++ [Normal file] in
  let candidate := candidate_path path (l_random e) in
  dir ≠ [] → strip_prefix "server-" file = None →
  m !! candidate = None →
  (∀ c0, ClientConfig_read (l_read e) m path = Ok c0 → managed_certificate_path c0 path ≠ Some candidate) →
  match login_inner default_bidi add_root quic_config chain_ok bad e path address key m with
  | (Some (Ok c), m') => logged_in chain_ok e path address key m c m'
  | (Some (Err _), m') => m' = m ∨ (is_Some (f_remove (l_write e)) ∨ is_Some (f_remove (l_remove e))) ∧ delete candidate m' = m
  | (None, m') => delete candidate m' = m
  end.
Proof.
  intros path candidate Hdir Hfile Hfresh Hrep.
  assert (Hparent := config_parent_snoc dir file Hdir). fold path in Hparent.
  assert (Hcand : candidate = dir ++ [Normal (candidate_name (l_random e))]) by (unfold candidate, candidate_path; by rewrite Hparent).
  assert (Hpc : path ≠ candidate).
  { rewrite Hcand. unfold path. intros Heq. apply app_inj_2 in Heq as [_ [= Heq]]; [|done]. subst file. by rewrite candidate_prefix in Hfile. }
  assert (Hdel : delete candidate m = m) by by apply delete_id.
  unfold login_inner. rewrite lift_bind. destruct (check_login_state (l_check e 0)) as [[]|]; [|by left].
  rewrite with_files_bind. destruct (ClientConfig_read (l_read e) m path) as [c0|] eqn:Ec0; [|by left]. cbn [map_err].
  rewrite lift_bind. destruct (check_login_state (l_check e 1)) as [[]|]; [|by left].
  rewrite lift_bind. destruct (ClientConfig_validate (login_config address key)) as [[]|]; [|by left]. cbn [map_err].
  assert (Hp := prepare_spec default_bidi quic_config e (login_config address key) path (managed_certificate_path c0 path) m Hfresh).
  unfold mbind at 1, fsio_bind at 1. destruct (prepare _ _ _ _ _ _ m) as [[[[p config]|]|] m1]; cycle 1.
  { destruct Hp as [->|[Hr Hd]]; [by left|right; split; [by left|exact Hd]]. }
  { by rewrite Hp. }
  destruct Hp as (-> & q & n & d & Hq & Hqn & Hf & -> & ->).
  assert (Hs := finish_inner_spec default_bidi add_root quic_config chain_ok bad e path
    {| pt_path := candidate; pt_replaced := managed_certificate_path c0 path |}
    (with_certificate (login_config address key) (downloaded_server_name d) [Normal (candidate_name (l_random e))])
    (<[candidate := downloaded_pem d]> m)).
  fold candidate. destruct (finish_inner _ _ _ _ _ _ _ _ _ _) as [[[c|]|] m2].
  - destruct Hs as (-> & runtime & q' & n' & tunnels & m3 & Hrun & Hq' & Hqn' & Hv & Hsave & ->).
    exact (login_done default_bidi add_root quic_config chain_ok bad e dir file address key m c0 q n d runtime q' n' tunnels m3
      Hdir Hfile Hpc Ec0 (Hrep c0 eq_refl) Hq Hqn Hf Hrun Hq' Hqn' Hv Hsave).
  - rewrite Hs. unfold drop_trust, cleanup_file. cbn [pt_path].
    destruct (f_remove (l_remove e)) as [er|]; [right; split; [right; by exists er|]|left]; by rewrite delete_insert_eq.
  - rewrite Hs. by rewrite delete_insert_eq.
Qed.

(** A codec of two configurations, and a login that replaces one by the other. *)
Definition two_toml (a b : ClientConfig) : Toml ClientConfig.
Proof.
  refine {| toml_to_string := λ c, if decide (c = a) then Ok (lit "a") else if decide (c = b) then Ok (lit "b") else Err (lit "no");
            toml_from_str := λ s, if decide (s = lit "a") then Ok a else if decide (s = lit "b") then Ok b else Err (lit "no") |}.
  intros c s. repeat case_decide; intros; simplify_eq; done.
Defined.

Module Example.
Definition key : str := replicate 32 "k"%char.
Definition address : str := "tunnel.example.org:7000".
Definition dir : Path := [RootDir; Normal "etc"].
Definition path : Path := dir ++ [Normal "client.toml"].
Definition old_config : ClientConfig :=
  {| client_key := key;
     client_server := {| server_address := "old.example.org:7000"; server_tls_name := None;
                         ca_certificate := Some [Normal (candidate_name 1)] |};
     client_services := [] |}.
Definition new_config : ClientConfig :=
  with_certificate (login_config address key) "tunnel.example.org" [Normal (candidate_name 2)].
Definition before : fs := <[path := lit "a"]> {[ dir ++ [Normal (candidate_name 1)] := lit "old" ]}.
Definition after : fs :=
  <[path := lit "b"]> {[ dir ++ [Normal (candidate_name 2)] := @encode_many toy_pem [lit "leaf"; lit "issuer"] ]}.
Definition server_answer : ServerHandshake :=
  ShBootstrap (BootAccepted "server" match @server_proof toy_crypto key PROTOCOL_VERSION "client" "server" "leaf" with Ok p => p | Err _ => [] end).
Definition here : SocketAddr := SockV4 {| octet0 := 192; octet1 := 0; octet2 := 2; octet3 := 1 |} 7000.
Definition accepted : ServerHandshake := ShAuthenticate {| sh_status := Accepted; sh_message := []; sh_tunnels := [] |}.
Definition env : login_env :=
  {| l_check := λ _, (false, false);
     l_fetch := [{| p_cancelled := false; p_ready := None; p_expired := false |};
                 {| p_cancelled := false; p_expired := false; p_ready := Some {| n_lookup := Ok [here]; n_attempts :=
                   [{| b_connected := Ok tt; b_identity := Ok [lit "leaf"; lit "issuer"]; b_nonce := "client"; b_opened := Some (Ok tt);
                       b_written := Ok tt; b_response := Some (Ok server_answer); b_close := None |}] |} |}];
     l_verify := [{| p_cancelled := false; p_expired := true; p_ready := Some {| n_lookup := Ok [here]; n_attempts :=
                   [{| a_connected := Ok tt; a_chain := [lit "leaf"; lit "issuer"]; a_opened := Some (Ok tt);
                       a_written := Ok tt; a_response := Some (Ok accepted); a_close := None |}] |} |}];
     l_random := 2; l_read := no_faults; l_write := no_faults; l_open := no_faults; l_save := no_faults; l_remove := no_faults |}.
Definition run : option (CResult ClientConfig) * fs :=
  @login_inner plain_atomic (two_toml old_config new_config) toy_crypto toy_der toy_pem 100 (λ _, Ok tt) (λ _, Ok tt)
    (λ _ _ _, true) [] env path address key before.
End Example.

Lemma login_all_or_nothing_witness :
  @logged_in (two_toml Example.old_config Example.new_config) toy_crypto toy_der toy_pem (λ _ _ _, true)
    Example.env Example.path Example.address Example.key Example.before Example.new_config Example.after.
Proof.
  assert (Hrun : Example.run = (Some (Ok Example.new_config), Example.after)) 
    by exact (@eq_refl (option (CResult ClientConfig) * fs) (Some (Ok Example.new_config), Example.after)
             <: Example.run = (Some (Ok Example.new_config), Example.after)).
  assert (Hlogin := @login_all_or_nothing plain_atomic (two_toml Example.old_config Example.new_config) toy_crypto toy_der toy_pem
    100 (λ _, Ok tt) (λ _, Ok tt) (λ _ _ _, true) [] Example.env Example.dir "client.toml" Example.address Example.key Example.before).
  cbv zeta in Hlogin. change (@login_inner _ _ _ _ _ _ _ _ _ _ _ _ _ _ _) with Example.run in Hlogin. rewrite Hrun in Hlogin.
  apply Hlogin; [done|reflexivity|reflexivity|].
  intros c0 Hc0. assert (c0 = Example.old_config) as -> by (vm_compute in Hc0; by injection Hc0). vm_compute. discriminate.
Defined.
