(* ===== verification/ClientRuntime.v ===== *)
(** * ClientRuntime: the lifecycle of [ClientRuntime], [gaterust-client/src/lib.rs]

    Logins, cancellations and shutdowns are calls that interleave.  Each call
    is a program counter; a step is what a call does between two points where
    it may be suspended, with the locks it holds there.  [Login.login_inner] is
    the part of a login that is one phase here. *)

From S2P Require Import Prelude.

(** [ManagedTask::handle] joined with what the spawned task is doing.
    [Aborting]: [JoinHandle::abort] has been called, the runtime has not yet
    dropped the future of the task; nobody waits for that. *)
Inductive task := NotStarted | Running | Aborting | Ended | Aborted.
Definition finished (t : task) : bool := match t with Ended | Aborted => true | _ => false end.

#[global] Instance task_eq_dec : EqDecision task.
Proof. solve_decision. Defined.

(** A login: [login_inner] is running; it returned [Ok]; [activate] holds the
    lock and has taken the commands; [finish_login] before it empties the slot,
    before it completes the operation, and returned. *)
Inductive login_phase := LRunning | LOk | LSpawning | LFinish | LCompleting | LDone.

(** A [cancel_login] holds a clone of the operation, or waits for it. *)
Inductive cancel_phase := CSignal (i : nat) | CWait (i : nat) | CDone.

(** A shutdown: before the token is cancelled, before the slot of the login is
    read, before that login is cancelled, before the handle is taken, waiting
    with the handle or without, and returned. *)
Inductive stop_phase :=
  | SNew | SRead | SCancel (i : option nat) | STake (i : option nat)
  | SWait (i : option nat) (held : bool) | SDone (graceful : bool).

Record runtime := {
  shutdown : bool;
  login_slot : option nat;
  cancelled : gset nat;
  completed : gset nat;
  commands : bool;
  handle : bool;
  task_lock : option nat;
  running : task;
  spawned : nat;
  logins : gmap nat login_phase;
  cancels : gmap nat cancel_phase;
  stops : gmap nat stop_phase }.

(** [ClientRuntime::start] *)
Definition start : runtime :=
  {| shutdown := false; login_slot := None; cancelled := ∅; completed := ∅; commands := true; handle := false;
     task_lock := None; running := NotStarted; spawned := 0; logins := ∅; cancels := ∅; stops := ∅ |}.

Definition set_login (w : runtime) (i : nat) (ph : login_phase) : runtime :=
  {| shutdown := shutdown w; login_slot := login_slot w; cancelled := cancelled w; completed := completed w;
     commands := commands w; handle := handle w; task_lock := task_lock w; running := running w; spawned := spawned w;
     logins := <[i := ph]> (logins w); cancels := cancels w; stops := stops w |}.
Definition set_cancel (w : runtime) (c : nat) (ph : cancel_phase) : runtime :=
  {| shutdown := shutdown w; login_slot := login_slot w; cancelled := cancelled w; completed := completed w;
     commands := commands w; handle := handle w; task_lock := task_lock w; running := running w; spawned := spawned w;
     logins := logins w; cancels := <[c := ph]> (cancels w); stops := stops w |}.
Definition set_stop (w : runtime) (s : nat) (ph : stop_phase) : runtime :=
  {| shutdown := shutdown w; login_slot := login_slot w; cancelled := cancelled w; completed := completed w;
     commands := commands w; handle := handle w; task_lock := task_lock w; running := running w; spawned := spawned w;
     logins := logins w; cancels := cancels w; stops := <[s := ph]> (stops w) |}.

(** [begin_login] once the slot is locked: [None] is the refusal. *)
Definition begin_login (w : runtime) (i : nat) : option runtime :=
  match login_slot w with
  | Some _ => None
  | None => Some (set_login {| shutdown := shutdown w; login_slot := Some i; cancelled := cancelled w; completed := completed w;
      commands := commands w; handle := handle w; task_lock := task_lock w; running := running w; spawned := spawned w;
      logins := logins w; cancels := cancels w; stops := stops w |} i LRunning)
  end.

(** [activate] up to the spawn, which it does while it holds the lock. *)
Definition activate (w : runtime) (i : nat) : runtime :=
  if handle w || shutdown w then set_login w i LFinish else
  if negb (commands w) then set_login w i LFinish else
  set_login {| shutdown := shutdown w; login_slot := login_slot w; cancelled := cancelled w; completed := completed w;
    commands := false; handle := handle w; task_lock := Some i; running := running w; spawned := spawned w;
    logins := logins w; cancels := cancels w; stops := stops w |} i LSpawning.
Definition activate_spawn (w : runtime) (i : nat) : runtime :=
  set_login {| shutdown := shutdown w; login_slot := login_slot w; cancelled := cancelled w; completed := completed w;
    commands := commands w; handle := true; task_lock := None; running := Running; spawned := S (spawned w);
    logins := logins w; cancels := cancels w; stops := stops w |} i LFinish.

(** [finish_login] *)
Definition finish_take (w : runtime) (i : nat) : runtime :=
  set_login {| shutdown := shutdown w; login_slot := None; cancelled := cancelled w; completed := completed w;
    commands := commands w; handle := handle w; task_lock := task_lock w; running := running w; spawned := spawned w;
    logins := logins w; cancels := cancels w; stops := stops w |} i LCompleting.
Definition finish_complete (w : runtime) (i : nat) : runtime :=
  set_login {| shutdown := shutdown w; login_slot := login_slot w; cancelled := cancelled w; completed := {[i]} ∪ completed w;
    commands := commands w; handle := handle w; task_lock := task_lock w; running := running w; spawned := spawned w;
    logins := logins w; cancels := cancels w; stops := stops w |} i LDone.

Definition cancel_operation (w : runtime) (i : option nat) : runtime :=
  {| shutdown := shutdown w; login_slot := login_slot w;
     cancelled := match i with Some i => {[i]} ∪ cancelled w | None => cancelled w end; completed := completed w;
     commands := commands w; handle := handle w; task_lock := task_lock w; running := running w; spawned := spawned w;
     logins := logins w; cancels := cancels w; stops := stops w |}.

(** [shutdown_with_timeout]: the first statement, and the taking of the handle. *)
Definition stop_token (w : runtime) : runtime :=
  {| shutdown := true; login_slot := login_slot w; cancelled := cancelled w; completed := completed w;
     commands := commands w; handle := handle w; task_lock := task_lock w; running := running w; spawned := spawned w;
     logins := logins w; cancels := cancels w; stops := stops w |}.
Definition stop_take (w : runtime) : runtime :=
  {| shutdown := shutdown w; login_slot := login_slot w; cancelled := cancelled w; completed := completed w;
     commands := commands w; handle := false; task_lock := task_lock w; running := running w; spawned := spawned w;
     logins := logins w; cancels := cancels w; stops := stops w |}.
Definition set_running (w : runtime) (t : task) : runtime :=
  {| shutdown := shutdown w; login_slot := login_slot w; cancelled := cancelled w; completed := completed w;
     commands := commands w; handle := handle w; task_lock := task_lock w; running := t; spawned := spawned w;
     logins := logins w; cancels := cancels w; stops := stops w |}.

(** What a graceful shutdown waits for. *)
Definition login_over (w : runtime) (i : option nat) : Prop :=
  match i with Some i => i ∈ completed w | None => True end.
(** [task.abort()] of a handle, if there is one: a request only. *)
Definition abort_held (w : runtime) (held : bool) : runtime :=
  if held then match running w with Running => set_running w Aborting | _ => w end else w.

Inductive step (w : runtime) : runtime → Prop :=
  (* login_with_timeout *)
  | step_begin i w' : logins w !! i = None → begin_login w i = Some w' → step w w'
  | step_login_failed i : logins w !! i = Some LRunning → step w (set_login w i LFinish)
  | step_login_ok i : logins w !! i = Some LRunning → step w (set_login w i LOk)
  | step_activate i : logins w !! i = Some LOk → task_lock w = None → step w (activate w i)
  | step_spawn i : logins w !! i = Some LSpawning → step w (activate_spawn w i)
  | step_take_slot i : logins w !! i = Some LFinish → step w (finish_take w i)
  | step_complete i : logins w !! i = Some LCompleting → step w (finish_complete w i)
  (* cancel_login *)
  | step_cancel_nothing c : cancels w !! c = None → login_slot w = None → step w (set_cancel w c CDone)
  | step_cancel_read c i : cancels w !! c = None → login_slot w = Some i → step w (set_cancel w c (CSignal i))
  | step_cancel_signal c i : cancels w !! c = Some (CSignal i) →
      step w (set_cancel (cancel_operation w (Some i)) c (CWait i))
  | step_cancel_done c i : cancels w !! c = Some (CWait i) → i ∈ completed w → step w (set_cancel w c CDone)
  (* shutdown_with_timeout *)
  | step_stop_new s : stops w !! s = None → step w (set_stop w s SNew)
  | step_stop_token s : stops w !! s = Some SNew → step w (set_stop (stop_token w) s SRead)
  | step_stop_read s : stops w !! s = Some SRead → step w (set_stop w s (SCancel (login_slot w)))
  | step_stop_cancel s i : stops w !! s = Some (SCancel i) → step w (set_stop (cancel_operation w i) s (STake i))
  | step_stop_take s i : stops w !! s = Some (STake i) → task_lock w = None →
      step w (set_stop (stop_take w) s (SWait i (handle w)))
  | step_stop_done s i held : stops w !! s = Some (SWait i held) → login_over w i →
      (held = true → finished (running w) = true) → step w (set_stop w s (SDone true))
  | step_stop_timeout s i held : stops w !! s = Some (SWait i held) →
      step w (set_stop (abort_held w held) s (SDone false))
  (* the spawned task *)
  | step_task_ends : running w = Running ∨ running w = Aborting → step w (set_running w Ended)
  | step_task_aborted : running w = Aborting → step w (set_running w Aborted).

(** ** Invariants *)

(** The phases in which the operation of a login is in the slot. *)
Definition active (ph : login_phase) : bool :=
  match ph with LRunning | LOk | LSpawning | LFinish => true | LCompleting | LDone => false end.
(** A shutdown has cancelled the token, or has taken the handle. *)
Definition signalled (ph : stop_phase) : bool := match ph with SNew => false | _ => true end.
Definition taken (ph : stop_phase) : bool := match ph with SWait _ _ | SDone _ => true | _ => false end.

Record consistent (w : runtime) : Prop := {
  co_slot : ∀ i, login_slot w = Some i ↔ ∃ ph, logins w !! i = Some ph ∧ active ph = true;
  co_completed : ∀ i, i ∈ completed w ↔ logins w !! i = Some LDone;
  co_lock : ∀ i, task_lock w = Some i ↔ logins w !! i = Some LSpawning;
  co_unspawned : commands w = true ∨ task_lock w ≠ None → running w = NotStarted ∧ handle w = false ∧ spawned w = 0%nat;
  co_locked : task_lock w ≠ None → commands w = false;
  co_spawned : (spawned w ≤ 1)%nat;
  co_running : running w = Running → handle w = true ∨ ∃ s i, stops w !! s = Some (SWait i true);
  co_aborting : running w = Aborting → ∃ s, stops w !! s = Some (SDone false);
  co_signalled : ∀ s ph, stops w !! s = Some ph → signalled ph = true → shutdown w = true;
  co_taken : ∀ s ph, stops w !! s = Some ph → taken ph = true → handle w = false ∧ task_lock w = None;
  co_known : ∀ c i, cancels w !! c = Some (CSignal i) ∨ cancels w !! c = Some (CWait i) → is_Some (logins w !! i) }.

Lemma consistent_start : consistent start.
Proof. by split; cbn; try set_solver; naive_solver lia. Qed.

(** A step of login [i] to a phase that keeps its place in the slot and its lock. *)
Ltac at_insert :=
  repeat match goal with
  | H : context [<[?i := _]> _ !! ?j] |- _ => destruct (decide (i = j)) as [->|]; simplify_map_eq
  | |- context [<[?i := _]> _ !! ?j] => destruct (decide (i = j)) as [->|]; simplify_map_eq
  end.

Section preservation.
Implicit Types w : runtime.

(** Only one login is active. *)
Lemma active_unique w i j ph ph' : consistent w →
  logins w !! i = Some ph → active ph = true → logins w !! j = Some ph' → active ph' = true → i = j.
Proof.
  intros Hw Hi Ha Hj Hb. assert (H1 : login_slot w = Some i) by (apply (co_slot w Hw); eauto).
  assert (H2 : login_slot w = Some j) by (apply (co_slot w Hw); eauto). congruence.
Qed.

(** Moving a login between active phases other than the locked one. *)
Lemma consistent_move w i ph ph' : consistent w →
  logins w !! i = Some ph → active ph = true → ph ≠ LSpawning → active ph' = true → ph' ≠ LSpawning →
  consistent (set_login w i ph').
Proof.
  intros Hw Hi Ha Hn Ha' Hn'. destruct Hw as [Hslot Hcomp Hlock Huns Hlk Hsp Hrun Hab Hsig Htak Hkn].
  split; cbn; try assumption.
  - intros j. rewrite Hslot. split; intros (p & Hp & Hpa); at_insert; eauto.
  - intros j. rewrite Hcomp. at_insert; [|done]. split; intros; simplify_eq; by destruct ph' || destruct ph.
  - intros j. rewrite Hlock. at_insert; [|done]. split; intros; simplify_eq.
  - intros c j Hc. at_insert; eauto.
Qed.

Lemma consistent_begin w i w' : consistent w → logins w !! i = None → begin_login w i = Some w' → consistent w'.
Proof.
  intros Hw Hi. unfold begin_login. destruct (login_slot w) as [|] eqn:Es; [done|]. intros [= <-].
  assert (Hno : ∀ j ph, logins w !! j = Some ph → active ph = false).
  { intros j ph Hj. destruct (active ph) eqn:E; [|done]. assert (login_slot w = Some j) by (apply (co_slot w Hw); eauto). congruence. }
  destruct Hw as [Hslot Hcomp Hlock Huns Hlk Hsp Hrun Hab Hsig Htak Hkn]. split; cbn; try assumption.
  - intros j. split.
    + intros [= <-]. exists LRunning. by rewrite lookup_insert_eq.
    + intros (p & Hp & Hpa). at_insert; [done|]. apply Hno in Hp. congruence.
  - intros j. rewrite Hcomp. at_insert; [|done]. split; intros; congruence.
  - intros j. rewrite Hlock. at_insert; [|done]. split; intros; congruence.
  - intros c j Hc. at_insert; eauto.
Qed.

Lemma consistent_activate w i : consistent w → logins w !! i = Some LOk → task_lock w = None → consistent (activate w i).
Proof.
  intros Hw Hi Hl. unfold activate. destruct (handle w || shutdown w) eqn:Eh; [by eapply consistent_move|].
  destruct (commands w) eqn:Ec; [|by eapply consistent_move]. cbn [negb]. apply orb_false_iff in Eh as [Eh Es].
  destruct Hw as [Hslot Hcomp Hlock Huns Hlk Hsp Hrun Hab Hsig Htak Hkn].
  assert (Hstop : ∀ s ph, stops w !! s = Some ph → taken ph = false).
  { intros s ph Hs. destruct (taken ph) eqn:E; [|done]. assert (shutdown w = true); [|congruence].
    eapply Hsig; [exact Hs|]. by destruct ph. }
  split; cbn; try assumption; try done.
  - intros j. rewrite Hslot. split; intros (p & Hp & Hpa); at_insert; eauto.
  - intros j. rewrite Hcomp. at_insert; [|done]. split; intros; congruence.
  - intros j. at_insert; [done|]. rewrite <- Hlock, Hl. split; intros; congruence.
  - intros _. apply Huns. by left.
  - intros s ph Hs Ht. apply Hstop in Hs. congruence.
  - intros c j Hc. at_insert; eauto.
Qed.

Lemma consistent_spawn w i : consistent w → logins w !! i = Some LSpawning → consistent (activate_spawn w i).
Proof.
  intros Hw Hi. destruct Hw as [Hslot Hcomp Hlock Huns Hlk Hsp Hrun Hab Hsig Htak Hkn].
  assert (Hl : task_lock w = Some i) by by apply Hlock.
  destruct Huns as (Hr & Hh & Hz); [right; congruence|]. assert (Hc := Hlk ltac:(congruence)).
  split; cbn; try assumption; try done.
  - intros j. rewrite Hslot. split; intros (p & Hp & Hpa); at_insert; eauto.
  - intros j. rewrite Hcomp. at_insert; [|done]. split; intros; congruence.
  - intros j. split; [done|]. intros Hj. at_insert. apply Hlock in Hj. congruence.
  - intros [?|?]; congruence.
  - lia.
  - by left.
  - intros s ph Hs Ht. destruct (Htak s ph Hs Ht). congruence.
  - intros c j Hcc. at_insert; eauto.
Qed.

Lemma consistent_finish_take w i : consistent w → logins w !! i = Some LFinish → consistent (finish_take w i).
Proof.
  intros Hw Hi. assert (Hu := λ j ph, active_unique w i j LFinish ph Hw Hi eq_refl).
  destruct Hw as [Hslot Hcomp Hlock Huns Hlk Hsp Hrun Hab Hsig Htak Hkn]. split; cbn; try assumption.
  - intros j. split; [done|]. intros (p & Hp & Hpa). at_insert. by destruct (Hu j p Hp Hpa).
  - intros j. rewrite Hcomp. at_insert; [|done]. split; intros; congruence.
  - intros j. rewrite Hlock. at_insert; [|done]. split; intros; congruence.
  - intros c j Hc. at_insert; eauto.
Qed.

Lemma consistent_complete w i : consistent w → logins w !! i = Some LCompleting → consistent (finish_complete w i).
Proof.
  intros Hw Hi. destruct Hw as [Hslot Hcomp Hlock Huns Hlk Hsp Hrun Hab Hsig Htak Hkn]. split; cbn; try assumption.
  - intros j. rewrite Hslot. split; intros (p & Hp & Hpa); at_insert; eauto.
  - intros j. rewrite elem_of_union, elem_of_singleton, Hcomp. at_insert; naive_solver.
  - intros j. rewrite Hlock. at_insert; [|done]. split; intros; congruence.
  - intros c j Hc. at_insert; eauto.
Qed.

(** Steps that only move a cancellation. *)
Lemma consistent_cancel w c ph ops : consistent w →
  (∀ i, ph = CSignal i ∨ ph = CWait i → is_Some (logins w !! i)) →
  consistent (set_cancel (cancel_operation w ops) c ph).
Proof.
  intros Hw Hc. destruct Hw as [Hslot Hcomp Hlock Huns Hlk Hsp Hrun Hab Hsig Htak Hkn]. split; cbn; try assumption.
  intros d j Hd. at_insert; naive_solver.
Qed.

Lemma consistent_cancel' w c ph : consistent w →
  (∀ i, ph = CSignal i ∨ ph = CWait i → is_Some (logins w !! i)) → consistent (set_cancel w c ph).
Proof. intros Hw Hc. replace w with (cancel_operation w None) by by destruct w. by apply consistent_cancel. Qed.

(** Steps of a shutdown before it takes the handle. *)
Lemma consistent_stop w s ph ph' ops : consistent w →
  stops w !! s = Some ph → taken ph = false → taken ph' = false → (signalled ph' = true → signalled ph = true) →
  consistent (set_stop (cancel_operation w ops) s ph').
Proof.
  intros Hw Hs Ht Ht' Hsg. destruct Hw as [Hslot Hcomp Hlock Huns Hlk Hsp Hrun Hab Hsig Htak Hkn]. split; cbn; try assumption.
  - intros Hr. destruct (Hrun Hr) as [?|(t & i & Hi)]; [by left|]. right. exists t, i. by at_insert.
  - intros Ha; destruct (Hab Ha) as [u Hu]; exists u; by at_insert.
  - intros t p Hp Hpg. at_insert; [|by eapply Hsig]. eapply Hsig; [exact Hs|auto].
  - intros t p Hp Hpt. at_insert; [|by eapply Htak]. congruence.
Qed.

(** A shutdown that has taken the handle returns, with or without an abort. *)
Lemma consistent_returned w s i held graceful t : consistent w →
  stops w !! s = Some (SWait i held) → (held = true → t ≠ Running) →
  (t = running w ∨ running w = Running ∧ t = Aborting ∧ graceful = false) →
  consistent (set_stop (set_running w t) s (SDone graceful)).
Proof.
  intros Hw Hs Hnr Ht. destruct Hw as [Hslot Hcomp Hlock Huns Hlk Hsp Hrun Hab Hsig Htak Hkn]. split; cbn; try assumption.
  - intros Hu. destruct (Huns Hu) as (Hn & ? & ?). destruct Ht as [->|[? _]]; [done|congruence].
  - intros Hr. assert (Hrw : running w = Running) by (destruct Ht as [<-|(_ & -> & _)]; done).
    destruct (Hrun Hrw) as [?|(u & j & Hj)]; [by left|]. right. exists u, j.
    rewrite lookup_insert_ne; [exact Hj|]. intros ->. simplify_map_eq. by destruct (Hnr eq_refl).
  - intros Ha. destruct Ht as [->|(_ & _ & ->)]; [|exists s; apply lookup_insert_eq].
    destruct (Hab Ha) as [u Hu]. exists u. by at_insert.
  - intros u p Hp Hpg. at_insert; by eapply Hsig.
  - intros u p Hp Hpt. at_insert; by eapply Htak.
Qed.

Lemma set_running_id w : set_running w (running w) = w.
Proof. by destruct w. Qed.

Lemma consistent_finished w t : consistent w → running w = Running ∨ running w = Aborting → finished t = true →
  consistent (set_running w t).
Proof.
  intros Hw Hr Hf. destruct Hw as [Hslot Hcomp Hlock Huns Hlk Hsp Hrun Hab Hsig Htak Hkn]. split; cbn; try assumption.
  - intros Hu. destruct (Huns Hu) as (? & _). destruct Hr; congruence.
  - by intros ->.
  - by intros ->.
Qed.

Lemma consistent_take w s i : consistent w → stops w !! s = Some (STake i) → task_lock w = None →
  consistent (set_stop (stop_take w) s (SWait i (handle w))).
Proof.
  intros Hw Hs Hl. destruct Hw as [Hslot Hcomp Hlock Huns Hlk Hsp Hrun Hab Hsig Htak Hkn]. split; cbn; try assumption.
  - intros Hu. destruct (Huns Hu) as (? & _ & ?). done.
  - intros Hr. right. destruct (Hrun Hr) as [Hh|(t & j & Hj)].
    + exists s, i. by rewrite lookup_insert_eq, Hh.
    + exists t, j. at_insert. done.
  - intros Ha; destruct (Hab Ha) as [u Hu]; exists u; by at_insert.
  - intros t p Hp Hpg. at_insert; by eapply Hsig.
  - done.
Qed.

Lemma consistent_step w w' : consistent w → step w w' → consistent w'.
Proof.
  intros Hw Hs. destruct Hs as [i w' Hi Hb|i Hi|i Hi|i Hi Hl|i Hi|i Hi|i Hi|c Hc Hl|c i Hc Hl|c i Hc|c i Hc Hd|s Hs|s Hs|s Hs|s i Hs|s i Hs Hl|s i held Hs Ho Hn|s i held Hs|Hr|Hr].
  - by eapply consistent_begin.
  - by eapply consistent_move.
  - by eapply consistent_move.
  - by apply consistent_activate.
  - by apply consistent_spawn.
  - by apply consistent_finish_take.
  - by apply consistent_complete.
  - apply consistent_cancel'; [done|]. by intros i [].
  - apply consistent_cancel'; [done|]. intros j [[= <-]|]; [|done].
    apply (co_slot w Hw) in Hl as (ph & Hph & _). eauto.
  - apply consistent_cancel; [done|]. intros j [|[= <-]]; [done|]. apply (co_known w Hw c). by left.
  - apply consistent_cancel'; [done|]. by intros j [].
  - destruct Hw as [Hslot Hcomp Hlock Huns Hlk Hsp Hrun Hab Hsig Htak Hkn]. split; cbn; try assumption.
    + intros Hr. destruct (Hrun Hr) as [?|(t & i & Hi)]; [by left|]. right. exists t, i. by at_insert.
    + intros Ha; destruct (Hab Ha) as [u Hu]; exists u; by at_insert.
    + intros t p Hp Hpg. at_insert; by eapply Hsig.
    + intros t p Hp Hpt. at_insert; by eapply Htak.
  - destruct Hw as [Hslot Hcomp Hlock Huns Hlk Hsp Hrun Hab Hsig Htak Hkn]. split; cbn; try assumption; try done.
    + intros Hr. destruct (Hrun Hr) as [?|(t & i & Hi)]; [by left|]. right. exists t, i. by at_insert.
    + intros Ha; destruct (Hab Ha) as [u Hu]; exists u; by at_insert.
    + intros t p Hp Hpt. at_insert; by eapply Htak.
  - replace (set_stop w s _) with (set_stop (cancel_operation w None) s (SCancel (login_slot w))) by by destruct w.
    by eapply (consistent_stop _ s SRead).
  - by eapply (consistent_stop _ s (SCancel i)).
  - by apply consistent_take.
  - rewrite <- (set_running_id w). eapply consistent_returned; [done|done| |by left].
    intros Hh Hr. specialize (Hn Hh). by rewrite Hr in Hn.
  - unfold abort_held. destruct held, (running w) eqn:Er;
      try (rewrite <- (set_running_id w); eapply consistent_returned; [done|done|congruence|by left]).
    eapply consistent_returned; [done|done|done|right]. done.
  - by apply consistent_finished.
  - apply consistent_finished; [done|by right|done].
Qed.

Lemma consistent_reachable w : rtc step start w → consistent w.
Proof.
  intros Hr. assert (Hi : ∀ u v, rtc step u v → consistent u → consistent v).
  { intros u v Huv. induction Huv; [done|]. eauto using consistent_step. }
  by eapply Hi; [|apply consistent_start].
Qed.
End preservation.

(** Some shutdown has returned and none still holds the task. *)
Definition released (w : runtime) : Prop :=
  (∃ s g, stops w !! s = Some (SDone g)) ∧ ∀ t i, stops w !! t ≠ Some (SWait i true).

Lemma stops_set_login w i ph : stops (set_login w i ph) = stops w.
Proof. done. Qed.
Lemma stops_begin w i w' : begin_login w i = Some w' → stops w' = stops w.
Proof. unfold begin_login. destruct (login_slot w); [done|]. by intros [= <-]. Qed.
Lemma stops_activate w i : stops (activate w i) = stops w.
Proof. unfold activate. destruct (_ || _); [done|]. by destruct (negb _). Qed.

Lemma released_set w w' s ph ph' : released w → stops w' = stops w → stops w !! s = Some ph → (∀ g, ph ≠ SDone g) →
  (∀ i, ph' ≠ SWait i true) → released (set_stop w' s ph').
Proof.
  intros [(t & g & Ht) Hno] Heq Hs Hd Hp. split; cbn; rewrite Heq.
  - exists t, g. rewrite lookup_insert_ne; [done|]. intros ->. rewrite Ht in Hs. simplify_eq. by eapply Hd.
  - intros u i. destruct (decide (s = u)) as [->|]; [rewrite lookup_insert_eq; naive_solver|].
    by rewrite lookup_insert_ne.
Qed.

Lemma released_same w w' : released w → stops w' = stops w → released w'.
Proof. unfold released. by intros ? ->. Qed.

Lemma released_step w w' : consistent w → released w → step w w' → released w'.
Proof.
  intros Hw Hrel Hs. destruct Hs as [i w' Hi Hb|i Hi|i Hi|i Hi Hl|i Hi|i Hi|i Hi|c Hc Hl|c i Hc Hl|c i Hc|c i Hc Hd|s Hs|s Hs|s Hs|s i Hs|s i Hs Hl|s i held Hs Ho Hn|s i held Hs|Hr|Hr].
  1: eapply released_same; [done|by eapply stops_begin].
  3: eapply released_same; [done|by apply stops_activate].
  all: try (by apply (released_same w)).
  - destruct Hrel as [(t & g & Ht) Hno]. split; cbn.
    + exists t, g. rewrite lookup_insert_ne; [done|]. intros ->. congruence.
    + intros u i. destruct (decide (s = u)) as [->|]; [by rewrite lookup_insert_eq|by rewrite lookup_insert_ne].
  - by eapply (released_set w).
  - by eapply (released_set w).
  - by eapply (released_set w).
  - eapply (released_set w); try done. destruct Hrel as [(t & g & Ht) _]. destruct (co_taken w Hw t _ Ht eq_refl) as [-> _]. done.
  - by eapply (released_set w).
  - eapply (released_set w); try done. unfold abort_held. destruct held; [|done]. by destruct (running w).
Qed.

(** After a shutdown no task is spawned, and a finished one stays finished. *)
Lemma released_tasks w w' : consistent w → released w → step w w' →
  spawned w' = spawned w ∧ (running w = NotStarted ∨ finished (running w) = true → running w' = running w).
Proof.
  intros Hw [(t & g & Ht) _] Hs. destruct (co_taken w Hw t _ Ht eq_refl) as [Hh Hl].
  destruct Hs as [i w' Hi Hb|i Hi|i Hi|i Hi Hl'|i Hi|i Hi|i Hi|c Hc Hl'|c i Hc Hl'|c i Hc|c i Hc Hd|s Hs|s Hs|s Hs|s i Hs|s i Hs Hl'|s i held Hs Ho Hn|s i held Hs|Hr|Hr];
    try (by split).
  - unfold begin_login in Hb. destruct (login_slot w); [done|]. by injection Hb as <-.
  - unfold activate. destruct (_ || _); [done|]. by destruct (negb _).
  - apply (co_lock w Hw) in Hi. congruence.
  - split; [|intros Hf]; unfold abort_held; (destruct held; [|done]); destruct (running w) eqn:E; try done. by destruct Hf.
  - split; [done|]. intros Hf. destruct Hr as [Hr|Hr]; rewrite Hr in Hf; by destruct Hf.
  - split; [done|]. intros Hf. rewrite Hr in Hf; by destruct Hf.
Qed.

(** A login that has begun can always run to its end. *)
Lemma login_finishes w i : consistent w → is_Some (logins w !! i) →
  ∃ w', rtc step w w' ∧ i ∈ completed w' ∧ cancels w' = cancels w.
Proof.
  intros Hw [ph Hph].
  assert (Hcompleting : ∀ v, logins v !! i = Some LCompleting → ∃ w', rtc step v w' ∧ i ∈ completed w' ∧ cancels w' = cancels v).
  { intros v Hv. eexists. split; [eapply rtc_once, step_complete; exact Hv|]. split; [set_solver|done]. }
  assert (Hfinish : ∀ v, logins v !! i = Some LFinish → ∃ w', rtc step v w' ∧ i ∈ completed w' ∧ cancels w' = cancels v).
  { intros v Hv. destruct (Hcompleting (finish_take v i)) as (w' & Hr & Hc & He); [apply lookup_insert_eq|].
    exists w'. split; [eapply rtc_l; [by apply step_take_slot|done]|done]. }
  assert (Hspawn : ∀ v, logins v !! i = Some LSpawning → ∃ w', rtc step v w' ∧ i ∈ completed w' ∧ cancels w' = cancels v).
  { intros v Hv. destruct (Hfinish (activate_spawn v i)) as (w' & Hr & Hc & He); [apply lookup_insert_eq|].
    exists w'. split; [eapply rtc_l; [by apply step_spawn|done]|done]. }
  destruct ph; [| |by apply Hspawn|by apply Hfinish|by apply Hcompleting|].
  - destruct (Hfinish (set_login w i LFinish)) as (w' & Hr & Hc & He); [apply lookup_insert_eq|].
    exists w'. split; [eapply rtc_l; [by apply step_login_failed|done]|done].
  - assert (Hl : task_lock w = None).
    { destruct (task_lock w) as [j|] eqn:Ej; [|done]. apply (co_lock w Hw) in Ej.
      assert (i = j) as -> by by eapply (active_unique w). congruence. }
    assert (Hact : ∃ w', rtc step (activate w i) w' ∧ i ∈ completed w' ∧ cancels w' = cancels (activate w i)).
    { unfold activate. destruct (_ || _); [|destruct (negb _)]; [apply Hfinish|apply Hfinish|apply Hspawn]; apply lookup_insert_eq. }
    destruct Hact as (w' & Hr & Hc & He). exists w'. split; [eapply rtc_l; [by apply step_activate|done]|]. split; [done|].
    rewrite He. unfold activate. destruct (_ || _); [done|]. by destruct (negb _).
  - exists w. split; [done|]. split; [by apply (co_completed w Hw)|done].
Qed.

(** ** Theorems *)

(** Logins exclude each other, whatever calls interleave: at most one is
    active, a new one is refused exactly while one is, and the task that
    connects is spawned at most once. *)
Theorem logins_exclusive w :
  rtc step start w →
  (∀ i j ph ph', logins w !! i = Some ph → active ph = true → logins w !! j = Some ph' → active ph' = true → i = j) ∧
  (∀ k, begin_login w k = None ↔ ∃ i ph, logins w !! i = Some ph ∧ active ph = true) ∧
  (spawned w ≤ 1)%nat.
Proof.
  intros Hw%consistent_reachable. split_and!.
  - intros i j ph ph' Hi Ha Hj Hb. by eapply active_unique.
  - intros k. unfold begin_login. destruct (login_slot w) as [i|] eqn:Es.
    + split; [|done]. intros _. apply (co_slot w Hw) in Es as (ph & Hph & Ha). eauto.
    + split; [done|]. intros (i & ph & Hph & Ha). assert (login_slot w = Some i) by (apply (co_slot w Hw); eauto). congruence.
  - apply (co_spawned w Hw).
Qed.

(** C13: once a shutdown has returned, and no other one still waits for the task,
    no login, however late, starts the task: it never started, or it has
    finished, or it has been told to stop by [abort] and the runtime can drop it
    at any time; that last case needs a shutdown that ran into its time limit.
    What is finished stays so. *)
Theorem no_task_outlives_shutdown w s graceful w' :
  rtc step start w → stops w !! s = Some (SDone graceful) → (∀ t i, stops w !! t ≠ Some (SWait i true)) →
  rtc step w w' →
  shutdown w' = true ∧ spawned w' = spawned w ∧
  (running w = NotStarted ∨ finished (running w) = true → running w' = running w) ∧
  (running w' = NotStarted ∨ finished (running w') = true ∨
   running w' = Aborting ∧ (∃ t, stops w' !! t = Some (SDone false)) ∧
     ∃ w'', step w' w'' ∧ running w'' = Aborted).
Proof.
  intros Hw%consistent_reachable Hs Hno Hr. assert (Hrel : released w) by (split; eauto).
  assert (Hinv : ∀ u v, rtc step u v → consistent u ∧ released u → (consistent v ∧ released v) ∧ spawned v = spawned u ∧
    (running u = NotStarted ∨ finished (running u) = true → running v = running u)).
  { intros u v Huv. induction Huv as [|x y z Hxy _ IH]; [done|]. intros [H1 H2].
    destruct (released_tasks x y H1 H2 Hxy) as [T1 T2].
    destruct IH as (H3 & H4 & H5); [split; [by eapply consistent_step|by eapply released_step]|].
    split; [done|]. split; [congruence|]. intros Hf. rewrite H5; [by apply T2|]. by rewrite (T2 Hf). }
  destruct (Hinv w w' Hr (conj Hw Hrel)) as ([Hw' [(t & g & Ht) Hno']] & Hsp & Hf).
  split; [by eapply (co_signalled w' Hw' t)|]. split; [done|]. split; [done|].
  destruct (running w') eqn:E; [by left|exfalso|right; right|by right; left|by right; left].
  - destruct (co_running w' Hw' E) as [Hh|(u & i & Hu)]; [|by eapply Hno'].
    destruct (co_taken w' Hw' t _ Ht eq_refl) as [Hh' _]. congruence.
  - split; [done|]. split; [by apply (co_aborting w' Hw')|]. eexists. split; [by apply step_task_aborted|done].
Qed.

(** A cancellation returns: in every state the login it waits for can run to
    its end, and then the cancellation does. *)
Theorem cancellation_returns w c i :
  rtc step start w → cancels w !! c = Some (CWait i) →
  ∃ w', rtc step w w' ∧ i ∈ completed w' ∧ cancels w' !! c = Some CDone.
Proof.
  intros Hw%consistent_reachable Hc. destruct (login_finishes w i Hw) as (v & Hr & Hd & He).
  { apply (co_known w Hw c). by right. }
  exists (set_cancel v c CDone). split; [|split; [done|apply lookup_insert_eq]].
  eapply rtc_r; [exact Hr|]. apply (step_cancel_done v c i); [by rewrite He|done].
Qed.

(** ** Runs for the witnesses *)

(** A login connects, and a shutdown ends the connection. *)
Lemma shutdown_run : ∃ w, rtc step start w ∧ stops w !! 0%nat = Some (SDone true) ∧ running w = Ended ∧
  ∀ t i, stops w !! t ≠ Some (SWait i true).
Proof.
  eexists. split.
  - eapply rtc_l; [apply (step_begin _ 0); reflexivity|].
    eapply rtc_l; [apply (step_login_ok _ 0); reflexivity|].
    eapply rtc_l; [apply (step_activate _ 0); reflexivity|].
    eapply rtc_l; [apply (step_spawn _ 0); reflexivity|].
    eapply rtc_l; [apply (step_take_slot _ 0); reflexivity|].
    eapply rtc_l; [apply (step_complete _ 0); reflexivity|].
    eapply rtc_l; [apply (step_stop_new _ 0); reflexivity|].
    eapply rtc_l; [apply (step_stop_token _ 0); reflexivity|].
    eapply rtc_l; [apply (step_stop_read _ 0); reflexivity|].
    eapply rtc_l; [apply (step_stop_cancel _ 0); reflexivity|].
    eapply rtc_l; [eapply (step_stop_take _ 0); reflexivity|].
    eapply rtc_l; [apply step_task_ends; left; reflexivity|].
    eapply rtc_l; [eapply (step_stop_done _ 0); [reflexivity|done|done]|]. done.
  - split_and!; [reflexivity|reflexivity|]. cbn. intros t i. destruct t; [rewrite lookup_insert_eq; done|].
    rewrite !lookup_insert_ne by done. done.
Qed.

(** A shutdown runs into its time limit while the task goes on. *)
Lemma timeout_run : ∃ w, rtc step start w ∧ stops w !! 0%nat = Some (SDone false) ∧ running w = Aborting ∧
  ∀ t i, stops w !! t ≠ Some (SWait i true).
Proof.
  eexists. split.
  - eapply rtc_l; [apply (step_begin _ 0); reflexivity|].
    eapply rtc_l; [apply (step_login_ok _ 0); reflexivity|].
    eapply rtc_l; [apply (step_activate _ 0); reflexivity|].
    eapply rtc_l; [apply (step_spawn _ 0); reflexivity|].
    eapply rtc_l; [apply (step_stop_new _ 0); reflexivity|].
    eapply rtc_l; [apply (step_stop_token _ 0); reflexivity|].
    eapply rtc_l; [apply (step_stop_read _ 0); reflexivity|].
    eapply rtc_l; [apply (step_stop_cancel _ 0); reflexivity|].
    eapply rtc_l; [eapply (step_stop_take _ 0); reflexivity|].
    eapply rtc_l; [eapply (step_stop_timeout _ 0); reflexivity|]. done.
  - split_and!; [reflexivity|reflexivity|]. cbn. intros t i. destruct t; [rewrite lookup_insert_eq; done|].
    rewrite !lookup_insert_ne by done. done.
Qed.

(** A cancellation waits for a login. *)
Lemma cancelling_run : ∃ w, rtc step start w ∧ cancels w !! 0%nat = Some (CWait 0) ∧ logins w !! 0%nat = Some LRunning.
Proof.
  eexists. split.
  - eapply rtc_l; [apply (step_begin _ 0); reflexivity|].
    eapply rtc_l; [apply (step_cancel_read _ 0); reflexivity|].
    eapply rtc_l; [apply (step_cancel_signal _ 0); reflexivity|]. done.
  - done.
Qed.

Lemma logins_exclusive_witness : ∃ w, logins w !! 0%nat = Some LRunning ∧ begin_login w 1 = None.
Proof.
  destruct cancelling_run as (w & Hr & _ & Hl). exists w. split; [exact Hl|].
  apply (proj1 (proj2 (logins_exclusive w Hr)) 1%nat). exists 0%nat, LRunning. split; [exact Hl|reflexivity].
Defined.

Lemma no_task_outlives_shutdown_witness :
  (∃ w, running w = Ended ∧ ∀ w', rtc step w w' → running w' = Ended) ∧
  (∃ w, running w = Aborting ∧ ∀ w', rtc step w w' → shutdown w' = true).
Proof.
  split.
  - destruct shutdown_run as (w & Hr & Hs & He & Hno). exists w. split; [exact He|]. intros w' Hw.
    rewrite <- He. apply (no_task_outlives_shutdown w 0 true w' Hr Hs Hno Hw). right. by rewrite He.
  - destruct timeout_run as (w & Hr & Hs & He & Hno). exists w. split; [exact He|]. intros w' Hw.
    apply (no_task_outlives_shutdown w 0 false w' Hr Hs Hno Hw).
Defined.

Lemma cancellation_returns_witness : ∃ w w', logins w !! 0%nat = Some LRunning ∧ rtc step w w' ∧ 0%nat ∈ completed w'.
Proof.
  destruct cancelling_run as (w & Hr & Hc & Hl). destruct (cancellation_returns w 0 0 Hr Hc) as (w' & Hw' & Hd & _).
  exists w, w'. split; [exact Hl|]. split; [exact Hw'|exact Hd].
Defined.
