(* ===== verification/Dns.v ===== *)
(** * Dns: the DNS providers, [gaterust-proxy/src/dns.rs]

    The choice of the zone a challenge record goes to, the credentials, and the
    client of GoDaddy, which has no record identifiers: it rewrites the whole
    set of records of a name, one request at a time under a gate.  The HTTP
    client, JSON and the provider library are arguments. *)

From S2P Require Import Prelude RustStr Net Paths ProxyConfig.

Definition DNS_PAGE_SIZE : N := 100.
Definition DNS_RECORD_TTL : N := 600.

(** ** Zones *)

Definition domain_belongs_to_zone (fqdn zone : str) : bool :=
  bool_decide (fqdn = zone) ||
  match strip_suffix zone fqdn with Some prefix => ends_with "." prefix | None => false end.

Definition relative_name (fqdn zone : str) : PResult str :=
  if bool_decide (fqdn = zone) then Ok (lit "@") else
  ok_or (prefix ← strip_suffix zone fqdn;
         name ← strip_suffix "." prefix;
         if bool_decide (name = []) then None else Some name)
    (PDns ("记录 " ++ fqdn ++ " 不属于托管域名 " ++ zone)).

Record zone_entry := { z_id : str; z_name : str }.

(** One element of a page: the longer zone wins, the first of equals stays. *)
Definition better (fqdn : str) (best : option zone_entry) (z : zone_entry) : option zone_entry :=
  if domain_belongs_to_zone fqdn (z_name z) &&
     match best with None => true | Some b => (length (z_name b) <? length (z_name z))%nat end
  then Some z else best.

(** [page.saturating_add(1)] of a [u32]. *)
Definition next_page (page : N) : N := N.min (page + 1) u32_max.

Section unified.
(** [list_domains] of the provider: a page and [has_more]. *)
Context (list_domains : N → result str (list zone_entry * bool)).

Fixpoint find_zone_from (fuel : nat) (fqdn : str) (page : N) (best : option zone_entry) : option (PResult zone_entry) :=
  match fuel with
  | O => None
  | S fuel =>
      match list_domains page with
      | Err e => Some (Err (PDns e))
      | Ok (items, has_more) =>
          let best := foldl (better fqdn) best items in
          if has_more then find_zone_from fuel fqdn (next_page page) best else
          Some (ok_or best (PDns ("DNS 账户中找不到 " ++ fqdn ++ " 对应的托管域名")))
      end
  end.

Definition find_unified_zone (fuel : nat) (fqdn : str) : option (PResult zone_entry) := find_zone_from fuel fqdn 1 None.
End unified.

(** [max_by_key]: the last of the longest. *)
Definition longest (best : option str) (domain : str) : option str :=
  match best with
  | Some b => if (length domain <? length b)%nat then Some b else Some domain
  | None => Some domain
  end.
Definition godaddy_find_zone (domains : PResult (list str)) (fqdn : str) : PResult str :=
  domains ← domains;
  ok_or (foldl longest None (filter (λ d, domain_belongs_to_zone fqdn d = true) domains))
    (PDns ("GoDaddy 账户中找不到 " ++ fqdn ++ " 对应的托管域名")).

(** ** Credentials *)

Definition required (value : option SecretString) (field : str) : PResult str :=
  ok_or (v ← expose <$> value; if bool_decide (v = []) then None else Some v)
    (PInvalidConfig ("DNS 账户缺少 " ++ field)).

Inductive ProviderCredentials :=
  | CredCloudflare (api_token : str)
  | CredAliyun (access_key_id access_key_secret : str)
  | CredDnspod (secret_id secret_key : str).

Inductive DnsClient :=
  | Unified (credentials : ProviderCredentials)
  | GoDaddyClient (authorization : str) (mutation_gate : N).

Inductive DnsRecordHandle :=
  | UnifiedHandle (domain_id record_id : str)
  | GoDaddyHandle (domain name value : str).

(** [create_provider] of the library; [fresh]: a gate of its own. *)
Definition from_config (create_provider : ProviderCredentials → result str unit) (fresh : N)
  (config : DnsAccountConfig) (mutation_gate : option N) : PResult DnsClient :=
  let unified c := _ ← map_err PDns (create_provider c); Ok (Unified c) in
  match dns_provider config with
  | Cloudflare =>
      token ← required (api_token config) "api_token"; unified (CredCloudflare token)
  | Aliyun =>
      id ← required (access_key config) "access_key"; secret ← required (secret_key config) "secret_key";
      unified (CredAliyun id secret)
  | TencentCloud =>
      id ← required (access_key config) "access_key"; secret ← required (secret_key config) "secret_key";
      unified (CredDnspod id secret)
  | GoDaddy =>
      key ← required (access_key config) "access_key"; secret ← required (secret_key config) "secret_key";
      Ok (GoDaddyClient ("sso-key " ++ key ++ ":" ++ secret) (default fresh mutation_gate))
  end.

Definition credentials_valid (valid : bool) : PResult unit :=
  if valid then Ok tt else Err (PDns "DNS 凭据无效或权限不足").

(** ** HTTP responses of GoDaddy *)

Record GoDaddyRecord := { data : str; ttl : N }.

Record response := { status : N; body : result str str }.
Definition is_success (r : response) : bool := in_incl 200 299 (status r).

(** [serde_json] at the records of GoDaddy, and [Display] of a status. *)
Class RecordJson := {
  records_to_json : list GoDaddyRecord → str;
  records_of_json : str → result str (list GoDaddyRecord);
  records_roundtrip : ∀ l, records_of_json (records_to_json l) = Ok l;
  fmt_status : N → str }.

Section http.
Context {J : RecordJson}.

Definition response_error (r : response) : ProxyError :=
  PDns ("GoDaddy API 返回 HTTP " ++ fmt_status (status r) ++ ": " ++
        match body r with Ok s => s | Err _ => lit "无法读取响应内容" end).
Definition dns_http_error (error : str) : ProxyError := PDns ("GoDaddy API 请求失败: " ++ error).

Definition parse_response (r : response) : PResult (list GoDaddyRecord) :=
  if negb (is_success r) then Err (response_error r) else
  map_err (λ e, PDns ("解析 GoDaddy API 响应失败: " ++ e))
    (s ← body r; records_of_json s).

(** [get_txt] and [request_empty], of what sending the request gave. *)
Definition get_txt (sent : result str response) : PResult (list GoDaddyRecord) :=
  r ← map_err dns_http_error sent;
  if status r =? 404 then Ok [] else parse_response r.
Definition request_empty (sent : result str response) : PResult unit :=
  r ← map_err dns_http_error sent;
  if is_success r then Ok tt else Err (response_error r).
End http.

(** ** Changes of a set of records *)

Fixpoint rposition (value : str) (records : list GoDaddyRecord) : option nat :=
  match records with
  | [] => None
  | r :: records =>
      match rposition value records with
      | Some i => Some (S i)
      | None => if bool_decide (data r = value) then Some O else None
      end
  end.

Inductive operation :=
  | CreateTxt (domain name value : str)
  | DeleteTxt (domain name value : str).

Inductive request :=
  | PutTxt (domain name : str) (records : list GoDaddyRecord)
  | DeleteSet (domain name : str).

Definition set_of (op : operation) : str * str :=
  match op with CreateTxt d n _ | DeleteTxt d n _ => (d, n) end.
Definition req_set (r : request) : str * str := match r with PutTxt d n _ | DeleteSet d n => (d, n) end.

(** The request that follows the reading; a deletion may have nothing to do. *)
Definition change (op : operation) (records : list GoDaddyRecord) : option request :=
  match op with
  | CreateTxt d n value => Some (PutTxt d n (records ++ [{| data := value; ttl := DNS_RECORD_TTL |}]))
  | DeleteTxt d n value =>
      index ← rposition value records;
      let records := delete index records in
      Some (if bool_decide (records = []) then DeleteSet d n else PutTxt d n records)
  end.

(** ** [DnsClient] *)

(** [create_txt] and [delete_txt]: at a unified provider they are calls of its
    library, at GoDaddy an [operation], which the steps below carry out. *)
Section client.
Context (create_record : str → str → str → result str str).

Definition unified_create_txt (list_domains : N → result str (list zone_entry * bool)) (fuel : nat) (fqdn value : str)
  : option (PResult DnsRecordHandle) :=
  zone ← find_unified_zone list_domains fuel fqdn;
  Some (zone ← zone;
        name ← relative_name fqdn (z_name zone);
        record_id ← map_err PDns (create_record (z_id zone) name value);
        Ok (UnifiedHandle (z_id zone) record_id)).

Definition godaddy_create_txt (domains : PResult (list str)) (fqdn value : str) : PResult (operation * DnsRecordHandle) :=
  domain ← godaddy_find_zone domains fqdn;
  name ← relative_name fqdn domain;
  Ok (CreateTxt domain name value, GoDaddyHandle domain name value).
End client.

Inductive deletion := DeleteRecord (record_id domain_id : str) | DeleteOperation (op : operation).

Definition delete_txt (client : DnsClient) (handle : DnsRecordHandle) : PResult deletion :=
  match client, handle with
  | Unified _, UnifiedHandle domain_id record_id => Ok (DeleteRecord record_id domain_id)
  | GoDaddyClient _ _, GoDaddyHandle domain name value => Ok (DeleteOperation (DeleteTxt domain name value))
  | _, _ => Err (PDns "DNS 记录句柄与账户类型不匹配")
  end.

(** [valid]: the answer of a unified provider; [domains]: of GoDaddy. *)
Definition validate_credentials (client : DnsClient) (valid : result str bool) (domains : PResult (list str)) : PResult unit :=
  match client with
  | Unified _ => valid ← map_err PDns valid; credentials_valid valid
  | GoDaddyClient _ _ => (λ _, tt) <$> domains
  end.

(** ** Clients that interleave

    [sets] is what the provider holds.  An operation is the future of
    [create_txt] or [delete_txt] after the zone is known; the permit is held
    from before the reading until the future ends.  [log] is not state of the
    program: the operations whose request was applied, in that order. *)

Notation record_sets := (gmap (str * str) (list GoDaddyRecord)).

Inductive phase :=
  | Waiting
  | Holding
  | Read (records : list GoDaddyRecord)
  | Finished (r : PResult unit)
  | Dropped.

Record world := {
  sets : record_sets;
  gate : option nat;
  ops : gmap nat (operation * phase);
  in_flight : list request;
  log : list (nat * operation) }.

Definition records_of (m : record_sets) (k : str * str) : list GoDaddyRecord := default [] (m !! k).
Definition serve (m : record_sets) (r : request) : record_sets :=
  match r with PutTxt d n l => <[(d, n) := l]> m | DeleteSet d n => delete (d, n) m end.

Definition idle_world (m : record_sets) : world :=
  {| sets := m; gate := None; ops := ∅; in_flight := []; log := [] |}.
Definition set_op (w : world) (g : option nat) (i : nat) (op : operation) (ph : phase) : world :=
  {| sets := sets w; gate := g; ops := <[i := (op, ph)]> (ops w); in_flight := in_flight w; log := log w |}.
(** The provider carries out a request of operation [i]. *)
Definition applied_by (w : world) (i : nat) (op : operation) (r : request) : world :=
  {| sets := serve (sets w) r; gate := gate w; ops := ops w; in_flight := in_flight w; log := log w ++ [(i, op)] |}.

Section clients.
(** [late]: the provider may carry out a request after the future that sent it
    was dropped or has failed. *)
Context {J : RecordJson} (late : bool).

(** The provider's answer to a reading. *)
Definition reply (m : record_sets) (k : str * str) : response :=
  if bool_decide (records_of m k = []) then {| status := 404; body := Ok [] |}
  else {| status := 200; body := Ok (records_to_json (records_of m k)) |}.

Inductive step (w : world) : world → Prop :=
  | step_call i op : ops w !! i = None → step w (set_op w (gate w) i op Waiting)
  | step_acquire i op : ops w !! i = Some (op, Waiting) → gate w = None → step w (set_op w (Some i) i op Holding)
  | step_read i op l r : ops w !! i = Some (op, Holding) → get_txt (Ok (reply (sets w) (set_of op))) = Ok l →
      change op l = Some r → step w (set_op w (gate w) i op (Read l))
  | step_nothing i op l : ops w !! i = Some (op, Holding) → get_txt (Ok (reply (sets w) (set_of op))) = Ok l →
      change op l = None → step w (set_op w None i op (Finished (Ok tt)))
  | step_read_fails i op sent e : ops w !! i = Some (op, Holding) → get_txt sent = Err e →
      step w (set_op w None i op (Finished (Err e)))
  | step_write i op l r sent : ops w !! i = Some (op, Read l) → change op l = Some r → request_empty sent = Ok tt →
      step w (set_op (applied_by w i op r) None i op (Finished (Ok tt)))
  (* the request is refused, or carried out (at once) and its answer lost *)
  | step_write_fails i op l r sent e (done : bool) : ops w !! i = Some (op, Read l) → change op l = Some r →
      request_empty sent = Err e →
      step w (set_op (if done then applied_by w i op r else w) None i op (Finished (Err e)))
  (* the future is dropped by [bounded] or [timeout] *)
  | step_drop_waiting i op : ops w !! i = Some (op, Waiting) → step w (set_op w (gate w) i op Dropped)
  | step_drop i op ph : ops w !! i = Some (op, ph) → (ph = Holding ∨ ∃ l, ph = Read l) → step w (set_op w None i op Dropped)
  (* dropped after the request was sent *)
  | step_drop_sent i op l r : late = true → ops w !! i = Some (op, Read l) → change op l = Some r →
      step w (set_op {| sets := sets w; gate := gate w; ops := ops w; in_flight := r :: in_flight w; log := log w |} None i op Dropped)
  (* failed (its time was up) while the provider still has the request *)
  | step_fails_late i op l r sent e : late = true → ops w !! i = Some (op, Read l) → change op l = Some r →
      request_empty sent = Err e →
      step w (set_op {| sets := sets w; gate := gate w; ops := ops w; in_flight := r :: in_flight w; log := log w |} None i op (Finished (Err e)))
  | step_arrives r rest : in_flight w = r :: rest →
      step w {| sets := serve (sets w) r; gate := gate w; ops := ops w; in_flight := rest; log := log w |}.
End clients.

(** ** Specification *)

Fixpoint remove_last (value : str) (l : list GoDaddyRecord) : list GoDaddyRecord :=
  match l with
  | [] => []
  | r :: l =>
      if bool_decide (value ∈ data <$> l) then r :: remove_last value l
      else if bool_decide (data r = value) then l else r :: l
  end.

(** The change of one operation, alone. *)
Definition effect (m : record_sets) (op : operation) : record_sets :=
  <[set_of op :=
      match op with
      | CreateTxt _ _ value => records_of m (set_of op) ++ [{| data := value; ttl := DNS_RECORD_TTL |}]
      | DeleteTxt _ _ value => remove_last value (records_of m (set_of op))
      end]> m.

(** The zone a name belongs to. *)
Definition within (fqdn zone : str) : Prop := fqdn = zone ∨ ∃ label, fqdn = label ++ "." ++ zone.

(** ** Lemmas *)

Lemma belongs_within fqdn zone : domain_belongs_to_zone fqdn zone = true ↔ within fqdn zone.
Proof.
  unfold domain_belongs_to_zone, within. rewrite orb_true_iff, bool_decide_eq_true. apply or_iff_compat_l.
  destruct (strip_suffix zone fqdn) as [prefix|] eqn:Es.
  - apply strip_suffix_Some in Es as ->. rewrite ends_with_true. split.
    + intros [r ->]. exists r. by rewrite <- (assoc_L (++)).
    + intros [label Hl]. rewrite (assoc_L (++)) in Hl. apply app_inv_tail in Hl. eauto.
  - split; [done|]. intros [label ->]. rewrite (assoc_L (++)) in Es.
    assert (Hs := proj2 (strip_suffix_Some zone ((label ++ lit ".") ++ zone) (label ++ lit ".")) eq_refl). congruence.
Qed.

(** Two zones of a name are equal when they are equally long. *)
Lemma within_length fqdn z z' : within fqdn z → within fqdn z' → length z = length z' → z = z'.
Proof.
  assert (Hsuf : ∀ y, within fqdn y → ∃ p, fqdn = p ++ y).
  { intros y [->|[l ->]]; [by exists []|]. exists (l ++ lit "."). by rewrite <- (assoc_L (++)). }
  intros [p Hp]%Hsuf [p' Hp']%Hsuf Hl. rewrite Hp in Hp'. by apply app_inj_2 in Hp' as [_ ?].
Qed.

Lemma relative_name_ok fqdn zone name :
  relative_name fqdn zone = Ok name ↔
  fqdn = zone ∧ name = lit "@" ∨ fqdn ≠ zone ∧ fqdn = name ++ "." ++ zone ∧ name ≠ [].
Proof.
  unfold relative_name. case_bool_decide as Heq; [split; [intros [= <-]; by left|naive_solver]|].
  split.
  - intros Hn. right. split; [done|]. destruct (strip_suffix zone fqdn) as [prefix|] eqn:Es; [|done]. cbn [mbind option_bind] in Hn.
    destruct (strip_suffix "." prefix) as [n|] eqn:En; [|done]. cbn [mbind option_bind] in Hn. case_bool_decide; [done|].
    injection Hn as ->. apply strip_suffix_Some in Es as ->. apply strip_suffix_Some in En as ->. by rewrite <- (assoc_L (++)).
  - intros [[? _]|(_ & -> & Hne)]; [done|]. rewrite (assoc_L (++)).
    rewrite (proj2 (strip_suffix_Some zone ((name ++ lit ".") ++ zone) (name ++ lit ".")) eq_refl). cbn [mbind option_bind].
    rewrite (proj2 (strip_suffix_Some "." (name ++ lit ".") name) eq_refl). cbn [mbind option_bind].
    by rewrite bool_decide_eq_false_2.
Qed.

Lemma rposition_None value l : rposition value l = None ↔ value ∉ data <$> l.
Proof.
  induction l as [|r l IH]; cbn [rposition fmap list_fmap]; [split; [by intros _ ?%elem_of_nil|done]|].
  rewrite not_elem_of_cons, <- IH. destruct (rposition value l); [naive_solver|]. case_bool_decide; naive_solver.
Qed.

Lemma remove_last_absent value l : value ∉ data <$> l → remove_last value l = l.
Proof.
  destruct l as [|r l]; cbn [remove_last fmap list_fmap]; [done|]. rewrite not_elem_of_cons. intros [Hr Hl].
  rewrite bool_decide_eq_false_2 by done. by rewrite bool_decide_eq_false_2.
Qed.

Lemma rposition_remove value l i : rposition value l = Some i → delete i l = remove_last value l.
Proof.
  revert i. induction l as [|r l IH]; intros i; cbn [rposition remove_last]; [done|].
  destruct (rposition value l) as [j|] eqn:Ej.
  - intros [= <-]. rewrite bool_decide_eq_true_2; [cbn; f_equal; by apply IH|].
    destruct (decide (value ∈ data <$> l)) as [|Hn]; [done|]. apply rposition_None in Hn. congruence.
  - apply rposition_None in Ej. rewrite (bool_decide_eq_false_2 (value ∈ _)) by done. case_bool_decide; [by intros [= <-]|done].
Qed.

Lemma records_of_insert m k l k' : records_of (<[k := l]> m) k' = if decide (k = k') then l else records_of m k'.
Proof. unfold records_of. case_decide as Hk; [by rewrite Hk, lookup_insert_eq|by rewrite lookup_insert_ne]. Qed.

(** The request computed from the current records has the effect of the operation. *)
Lemma serve_effect m op r k :
  change op (records_of m (set_of op)) = Some r → records_of (serve m r) k = records_of (effect m op) k.
Proof.
  unfold effect. destruct op as [d n value|d n value]; cbn [change set_of].
  - intros [= <-]. done.
  - destruct (rposition value _) as [i|] eqn:Ei; [|done]. cbn [mbind option_bind]. intros [= <-].
    rewrite (rposition_remove _ _ _ Ei). case_bool_decide as He; [|done]. rewrite He. unfold records_of. cbn [serve].
    destruct (decide ((d, n) = k)) as [->|Hk]; [by rewrite lookup_delete_eq, lookup_insert_eq|].
    by rewrite lookup_delete_ne, lookup_insert_ne.
Qed.

Lemma change_None m op k :
  change op (records_of m (set_of op)) = None → records_of (effect m op) k = records_of m k.
Proof.
  unfold effect. destruct op as [d n value|d n value]; cbn [change set_of]; [done|].
  destruct (rposition value _) as [i|] eqn:Ei; [done|]. intros _. apply rposition_None in Ei.
  rewrite remove_last_absent by done. unfold records_of. destruct (decide ((d, n) = k)) as [->|Hk]; [by rewrite lookup_insert_eq|].
  by rewrite lookup_insert_ne.
Qed.

(** Effects only depend on the records. *)
Lemma effect_proper m m' op : (∀ k, records_of m k = records_of m' k) → ∀ k, records_of (effect m op) k = records_of (effect m' op) k.
Proof.
  intros Heq k. unfold effect. rewrite (Heq (set_of op)), !records_of_insert. by case_decide.
Qed.

Lemma effects_proper (l : list operation) m m' :
  (∀ k, records_of m k = records_of m' k) → ∀ k, records_of (foldl effect m l) k = records_of (foldl effect m' l) k.
Proof.
  revert m m'. induction l as [|op l IH]; intros m m' Heq; cbn [foldl]; [done|]. apply IH. by apply effect_proper.
Qed.

(** The order of the sets and absent against empty sets are not observed. *)
Definition same_records (m m' : record_sets) : Prop := ∀ k, records_of m k = records_of m' k.

#[export] Instance same_records_equiv : Equivalence same_records.
Proof. split; [done|by intros m m' H k|]. intros m1 m2 m3 H H' k. by rewrite H. Qed.
#[export] Instance effect_same : Proper (same_records ==> eq ==> same_records) effect.
Proof. intros m m' H op ? <-. exact (effect_proper m m' op H). Qed.
#[export] Instance effects_same : Proper (same_records ==> eq ==> same_records) (foldl effect).
Proof. intros m m' H l ? <-. exact (effects_proper l m m' H). Qed.

(** [l] has one record of [value] more than [l'], and none after it. *)
Definition one_more (value : str) (l l' : list GoDaddyRecord) : Prop :=
  ∃ a r b, l = a ++ r :: b ∧ l' = a ++ b ∧ data r = value ∧ value ∉ data <$> b.

Lemma remove_last_app value a b :
  remove_last value (a ++ b) = if bool_decide (value ∈ data <$> b) then a ++ remove_last value b else remove_last value a ++ b.
Proof.
  induction a as [|r a IH]; cbn [app remove_last]; [case_bool_decide; [done|by apply remove_last_absent]|].
  rewrite fmap_app, IH. destruct (decide (value ∈ data <$> b)) as [Hb|Hb].
  { by rewrite !bool_decide_eq_true_2 by set_solver. }
  rewrite (bool_decide_eq_false_2 (value ∈ data <$> b)) by done. destruct (decide (value ∈ data <$> a)) as [Ha|Ha].
  { by rewrite !bool_decide_eq_true_2 by set_solver. }
  rewrite (bool_decide_eq_false_2 (value ∈ _ ++ _)), (bool_decide_eq_false_2 (value ∈ _)) by set_solver. by destruct (bool_decide (data r = value)).
Qed.

Lemma one_more_snoc value l l' r : data r ≠ value → one_more value l l' → one_more value (l ++ [r]) (l' ++ [r]).
Proof.
  intros Hr (a & x & b & -> & -> & Hx & Hb). exists a, x, (b ++ [r]). rewrite <- !(assoc_L (++)). split_and!; [done..|].
  rewrite fmap_app. set_solver.
Qed.

Lemma one_more_remove value other l l' : other ≠ value → one_more value l l' → one_more value (remove_last other l) (remove_last other l').
Proof.
  intros Ho (a & x & b & -> & -> & Hx & Hb). rewrite (remove_last_app other a (x :: b)), (remove_last_app other a b).
  cbn [fmap list_fmap remove_last].
  destruct (decide (other ∈ data <$> b)) as [Hob|Hob].
  - rewrite !bool_decide_eq_true_2 by set_solver. exists a, x, (remove_last other b). split_and!; [done..|].
    intros Hv. apply Hb. revert Hv. clear. induction b as [|y b IH]; cbn [remove_last fmap list_fmap]; [done|].
    case_bool_decide; [cbn; set_solver|]. case_bool_decide; cbn; set_solver.
  - rewrite !bool_decide_eq_false_2 by set_solver. by exists (remove_last other a), x, b.
Qed.

Lemma one_more_last value l l' : one_more value l l' → remove_last value l = l'.
Proof.
  intros (a & x & b & -> & -> & Hx & Hb). rewrite (remove_last_app value a (x :: b)). cbn [fmap list_fmap remove_last].
  rewrite bool_decide_eq_true_2 by set_solver. rewrite bool_decide_eq_false_2 by done. by rewrite bool_decide_eq_true_2.
Qed.

(** A record that no deletion names survives. *)
Lemma effect_keeps m op k r : r ∈ records_of m k →
  (∀ d n value, op = DeleteTxt d n value → data r ≠ value) → r ∈ records_of (effect m op) k.
Proof.
  intros Hr Hd. unfold effect. rewrite records_of_insert. case_decide as Hk; [|done]. subst k.
  destruct op as [d n value|d n value]; [by apply elem_of_app; left|]. specialize (Hd d n value eq_refl). cbn [set_of] in *.
  revert Hr. generalize (records_of m (d, n)). intros l. induction l as [|x l IH]; cbn [remove_last]; [done|].
  rewrite elem_of_cons. case_bool_decide; [rewrite elem_of_cons; naive_solver|]. case_bool_decide; [naive_solver|by rewrite elem_of_cons].
Qed.

Lemma effects_keep (l : list operation) m k r : r ∈ records_of m k →
  (∀ d n value, DeleteTxt d n value ∈ l → data r ≠ value) → r ∈ records_of (foldl effect m l) k.
Proof.
  revert m. induction l as [|op l IH]; intros m Hr Hd; cbn [foldl]; [done|]. apply IH; [|intros d n v Hin; eapply Hd; by right].
  apply effect_keeps; [done|]. intros d n value ->. eapply Hd. by left.
Qed.

Section interleavings.
Context {J : RecordJson}.
Implicit Types w : world.

Lemma get_reply m k : get_txt (Ok (reply m k)) = Ok (records_of m k).
Proof.
  unfold reply. case_bool_decide as Hk; [by rewrite Hk|]. unfold get_txt, parse_response. cbn. by rewrite records_roundtrip.
Qed.

(** What holds whatever interleaves, without late requests. *)
Record serialised (m0 : record_sets) (w : world) : Prop := {
  se_sets : ∀ k, records_of (sets w) k = records_of (foldl effect m0 (snd <$> log w)) k;
  se_gate : ∀ i op ph, ops w !! i = Some (op, ph) → (ph = Holding ∨ ∃ l, ph = Read l) → gate w = Some i;
  se_read : ∀ i op l, ops w !! i = Some (op, Read l) → records_of (sets w) (set_of op) = l;
  se_log : ∀ i op, (i, op) ∈ log w → ∃ r, ops w !! i = Some (op, Finished r);
  se_once : NoDup (fst <$> log w);
  se_created : ∀ i op, ops w !! i = Some (op, Finished (Ok tt)) →
    (i, op) ∈ log w ∨ ∃ d n value, op = DeleteTxt d n value;
  se_flight : in_flight w = [] }.

Lemma serialised_idle m : serialised m (idle_world m).
Proof.
  split; cbn; try done.
  - intros i op. by rewrite elem_of_nil.
  - constructor.
Qed.

(** A step of one operation that applies nothing. *)
Lemma serialised_set m0 w g i op ph : serialised m0 w →
  (∀ j op' ph', j ≠ i → ops w !! j = Some (op', ph') → (ph' = Holding ∨ ∃ l, ph' = Read l) → g = Some j) →
  ((ph = Holding ∨ ∃ l, ph = Read l) → g = Some i) →
  (∀ l, ph = Read l → records_of (sets w) (set_of op) = l) →
  (∀ op' r, ops w !! i ≠ Some (op', Finished r)) →
  (ph = Finished (Ok tt) → ∃ d n value, op = DeleteTxt d n value) →
  serialised m0 (set_op w g i op ph).
Proof.
  intros Hw Hg Hgi Hl Hnf Hf. destruct Hw as [Hsets Hgate Hread Hlog Honce Hcr Hfl]. split; cbn; try done.
  - intros j op' ph'. destruct (decide (i = j)) as [->|Hij]; [rewrite lookup_insert_eq; intros [= <- <-]; done|].
    rewrite lookup_insert_ne by done. intros Hj. by eapply Hg.
  - intros j op' l. destruct (decide (i = j)) as [->|Hij]; [rewrite lookup_insert_eq; intros [= <- ->]; by apply Hl|].
    rewrite lookup_insert_ne by done. apply Hread.
  - intros j op' Hj. destruct (Hlog j op' Hj) as [r Hr]. exists r. rewrite lookup_insert_ne; [done|]. intros ->. by apply Hnf in Hr.
  - intros j op'. destruct (decide (i = j)) as [->|Hij]; [rewrite lookup_insert_eq; intros [= <- ->]; right; by apply Hf|].
    rewrite lookup_insert_ne by done. apply Hcr.
Qed.

(** The step that applies an operation and ends it. *)
Lemma serialised_apply m0 w i op l r res : serialised m0 w →
  ops w !! i = Some (op, Read l) → change op l = Some r →
  serialised m0 (set_op (applied_by w i op r) None i op (Finished res)).
Proof.
  intros Hw Hi Hc. destruct Hw as [Hsets Hgate Hread Hlog Honce Hcr Hfl].
  assert (Hgi : gate w = Some i) by (eapply Hgate; [exact Hi|eauto]).
  assert (Hl := Hread _ _ _ Hi). rewrite <- Hl in Hc.
  assert (Hni : i ∉ fst <$> log w).
  { intros ([j op'] & -> & Hin)%list_elem_of_fmap. destruct (Hlog _ _ Hin) as [r' Hr']. cbn in Hi. congruence. }
  assert (Hother : ∀ j op' ph', j ≠ i → ops w !! j = Some (op', ph') → ¬ (ph' = Holding ∨ ∃ l, ph' = Read l)).
  { intros j op' ph' Hj Ho Hp. assert (gate w = Some j) by by eapply Hgate. congruence. }
  split; cbn.
  - intros k. rewrite (serve_effect _ _ _ _ Hc), fmap_app, foldl_app. cbn. by apply effect_proper.
  - intros j op' ph'. destruct (decide (i = j)) as [->|Hij]; [rewrite lookup_insert_eq; intros [= <- <-] [|[]]; done|].
    rewrite lookup_insert_ne by done. intros Hj Hp. by destruct (Hother j op' ph' (not_eq_sym Hij) Hj).
  - intros j op' l'. destruct (decide (i = j)) as [->|Hij]; [by rewrite lookup_insert_eq|].
    rewrite lookup_insert_ne by done. intros Hj. destruct (Hother j op' _ (not_eq_sym Hij) Hj). eauto.
  - intros j op' [Hj|Hj%list_elem_of_singleton]%elem_of_app.
    + destruct (Hlog _ _ Hj) as [r' Hr']. exists r'. rewrite lookup_insert_ne; [done|]. intros ->. congruence.
    + injection Hj as -> ->. exists res. by rewrite lookup_insert_eq.
  - rewrite fmap_app. apply NoDup_app. split_and!; [done| |apply NoDup_singleton].
    intros x Hx Hy%list_elem_of_singleton. cbn in Hy. by subst x.
  - intros j op'. destruct (decide (i = j)) as [->|Hij].
    + rewrite lookup_insert_eq. intros [= <- _]. left. apply elem_of_app. right. by apply list_elem_of_singleton.
    + rewrite lookup_insert_ne by done. intros Hj. destruct (Hcr _ _ Hj) as [?|?]; [left; apply elem_of_app; by left|by right].
  - done.
Qed.

Lemma serialised_step m0 w w' : serialised m0 w → step false w w' → serialised m0 w'.
Proof.
  intros Hw Hs.
  assert (Halone : ∀ i op ph, ops w !! i = Some (op, ph) → (ph = Holding ∨ ∃ l, ph = Read l) →
    ∀ g j op' ph', j ≠ i → ops w !! j = Some (op', ph') → (ph' = Holding ∨ ∃ l, ph' = Read l) → g = Some j).
  { intros i op ph Hi Hp g j op' ph' Hij Hj Hp'. assert (H1 := se_gate m0 w Hw i op ph Hi Hp).
    assert (H2 := se_gate m0 w Hw j op' ph' Hj Hp'). congruence. }
  destruct Hs as [i op Hi|i op Hi Hg|i op l r Hi Hr Hc|i op l Hi Hr Hc|i op sent e Hi Hr|i op l r sent Hi Hc Hq|i op l r sent e d Hi Hc Hq|i op Hi|i op ph Hi Hp|i op l r Hf|i op l r sent e Hf|r rest Hfl].
  - apply serialised_set; try done.
    + intros j op' ph' _ Hj Hp. by eapply (se_gate m0 w Hw).
    + by intros [|[]].
    + intros op' r. congruence.
  - apply serialised_set; try done.
    + intros j op' ph' _ Hj Hp. assert (H := se_gate m0 w Hw _ _ _ Hj Hp). congruence.
    + intros op' r. congruence.
  - rewrite get_reply in Hr. injection Hr as Hr. assert (Hgi : gate w = Some i) by (eapply (se_gate m0 w Hw); [exact Hi|by left]).
    apply serialised_set; try done; [by eapply Halone; [|left]|by intros l' [= <-]|congruence].
  - rewrite get_reply in Hr. injection Hr as Hr. apply serialised_set; try done; [by eapply Halone; [|left]|by intros [|[]]|congruence|].
    intros _. destruct op as [|d n v]; [done|eauto].
  - apply serialised_set; try done; [by eapply Halone; [|left]|by intros [|[]]|congruence].
  - by eapply serialised_apply.
  - destruct d; [by eapply serialised_apply|]. apply serialised_set; try done; [eapply Halone; [exact Hi|eauto]|by intros [|[]]|congruence].
  - apply serialised_set; try done.
    + intros j op' ph' _ Hj Hp. by eapply (se_gate m0 w Hw).
    + by intros [|[]].
    + congruence.
  - apply serialised_set; try done; [by eapply Halone|by intros [|[]]|]. intros op' r Hr. rewrite Hi in Hr. destruct Hp as [|[]]; simplify_eq.
  - done.
  - done.
  - rewrite (se_flight m0 w Hw) in Hfl. done.
Qed.
End interleavings.

(** ** The zone *)

Section zones.
Context (list_domains : N → result str (list zone_entry * bool)).

(** All the zones of an account, page by page. *)
Fixpoint zones (fuel : nat) (page : N) : option (result str (list zone_entry)) :=
  match fuel with
  | O => None
  | S fuel =>
      match list_domains page with
      | Err e => Some (Err e)
      | Ok (items, true) =>
          match zones fuel (next_page page) with
          | Some (Ok l) => Some (Ok (items ++ l))
          | r => r
          end
      | Ok (items, false) => Some (Ok items)
      end
  end.

Lemma find_zone_zones fuel fqdn : ∀ page best,
  find_zone_from list_domains fuel fqdn page best =
  match zones fuel page with
  | None => None
  | Some (Err e) => Some (Err (PDns e))
  | Some (Ok l) => Some (ok_or (foldl (better fqdn) best l) (PDns ("DNS 账户中找不到 " ++ fqdn ++ " 对应的托管域名")))
  end.
Proof.
  induction fuel as [|fuel IH]; intros page best; cbn [find_zone_from zones]; [done|].
  destruct (list_domains page) as [[items []]|e]; [|done|done]. rewrite IH.
  destruct (zones fuel (next_page page)) as [[l|]|]; [|done|done]. by rewrite foldl_app.
Qed.
End zones.

(** [z] is a longest zone of [fqdn] among the names [l]. *)
Definition longest_zone (fqdn : str) (l : list str) (z : str) : Prop :=
  z ∈ l ∧ within fqdn z ∧ ∀ z', z' ∈ l → within fqdn z' → (length z' ≤ length z)%nat.

Lemma longest_unique fqdn l z z' : longest_zone fqdn l z → longest_zone fqdn l z' → z = z'.
Proof.
  intros (Hin & Hw & Hmax) (Hin' & Hw' & Hmax'). apply (within_length fqdn); [done|done|].
  assert (H1 := Hmax z' Hin' Hw'). assert (H2 := Hmax' z Hin Hw). lia.
Qed.

Lemma longest_snoc_out fqdn l x z : ¬ within fqdn x → longest_zone fqdn l z → longest_zone fqdn (l ++ [x]) z.
Proof.
  intros Hx (Hin & Hw & Hmax). split_and!; [apply elem_of_app; by left|done|].
  intros z' [Hz| ->%list_elem_of_singleton]%elem_of_app Hw'; [by apply Hmax|done].
Qed.

Lemma better_spec fqdn l :
  match foldl (better fqdn) None l with
  | Some z => z ∈ l ∧ longest_zone fqdn (z_name <$> l) (z_name z)
  | None => ∀ z, z ∈ l → ¬ within fqdn (z_name z)
  end.
Proof.
  induction l as [|x l IH] using rev_ind; [by intros z ?%elem_of_nil|]. rewrite foldl_app. cbn [foldl].
  set (best := foldl (better fqdn) None l) in *. unfold better. destruct (domain_belongs_to_zone fqdn (z_name x)) eqn:Eb.
  - apply belongs_within in Eb. rewrite fmap_app. cbn [fmap list_fmap]. destruct best as [b|].
    + destruct IH as [Hb (Hin & Hw & Hmax)]. destruct (length (z_name b) <? length (z_name x))%nat eqn:El; cbn [andb].
      * apply Nat.ltb_lt in El. split; [apply elem_of_app; right; by left|]. split_and!; [apply elem_of_app; right; by left|done|].
        intros z' [Hz| ->%list_elem_of_singleton]%elem_of_app Hw'; [|done]. specialize (Hmax z' Hz Hw'). lia.
      * apply Nat.ltb_ge in El. split; [apply elem_of_app; by left|]. split_and!; [apply elem_of_app; by left|done|].
        intros z' [Hz| ->%list_elem_of_singleton]%elem_of_app Hw'; [by apply Hmax|done].
    + cbn [andb]. split; [apply elem_of_app; right; by left|]. split_and!; [apply elem_of_app; right; by left|done|].
      intros z' [Hz| ->%list_elem_of_singleton]%elem_of_app Hw'; [|done]. apply list_elem_of_fmap in Hz as (y & -> & Hy). by destruct (IH y Hy).
  - cbn [andb]. assert (Hn : ¬ within fqdn (z_name x)) by (rewrite <- belongs_within, Eb; done).
    destruct best as [b|].
    + destruct IH as [Hb Hl]. split; [apply elem_of_app; by left|]. rewrite fmap_app. by apply longest_snoc_out.
    + intros z [Hz| ->%list_elem_of_singleton]%elem_of_app; [by apply IH|done].
Qed.

Lemma longest_spec (l : list str) :
  match foldl longest None l with
  | Some z => z ∈ l ∧ ∀ z', z' ∈ l → (length z' ≤ length z)%nat
  | None => l = []
  end.
Proof.
  induction l as [|x l IH] using rev_ind; [done|]. rewrite foldl_app. cbn [foldl]. destruct (foldl longest None l) as [b|]; cbn [longest].
  - destruct IH as [Hb Hmax]. destruct (length x <? length b)%nat eqn:El.
    + apply Nat.ltb_lt in El. split; [apply elem_of_app; by left|].
      intros z' [Hz| ->%list_elem_of_singleton]%elem_of_app; [by apply Hmax|lia].
    + apply Nat.ltb_ge in El. split; [apply elem_of_app; right; by left|].
      intros z' [Hz| ->%list_elem_of_singleton]%elem_of_app; [specialize (Hmax z' Hz); lia|done].
  - subst l. split; [by left|]. intros z' ->%list_elem_of_singleton. done.
Qed.

Lemma godaddy_zone_spec fqdn l :
  match godaddy_find_zone (Ok l) fqdn with
  | Ok z => longest_zone fqdn l z
  | Err _ => ∀ z, z ∈ l → ¬ within fqdn z
  end.
Proof.
  unfold godaddy_find_zone. cbn [mbind result_bind]. set (f := filter _ l). assert (Hf := longest_spec f).
  assert (Hin : ∀ z, z ∈ f ↔ within fqdn z ∧ z ∈ l) by (intros z; unfold f; by rewrite list_elem_of_filter, belongs_within).
  destruct (foldl longest None f) as [b|]; cbn [ok_or].
  - destruct Hf as [Hb Hmax]. apply Hin in Hb as [Hw Hb]. split_and!; [done|done|]. intros z' Hz Hw'. apply Hmax, Hin. done.
  - intros z Hz Hw. assert (z ∈ f) by by apply Hin. rewrite Hf in H. by apply elem_of_nil in H.
Qed.

(** An operation on another value. *)
Definition op_value (op : operation) : str := match op with CreateTxt _ _ v | DeleteTxt _ _ v => v end.
Definition undo (op : operation) : operation := match op with CreateTxt d n v | DeleteTxt d n v => DeleteTxt d n v end.

Lemma creation_undone d n value (others : list operation) m :
  (∀ x, x ∈ others → op_value x ≠ value) →
  same_records (foldl effect m (CreateTxt d n value :: others ++ [DeleteTxt d n value])) (foldl effect m others).
Proof.
  intros Ho. rewrite app_comm_cons. cbn [foldl app]. rewrite foldl_app. cbn [foldl]. set (m1 := effect m (CreateTxt d n value)).
  assert (H1 : one_more value (records_of m1 (d, n)) (records_of m (d, n))).
  { unfold m1, effect. cbn [set_of]. rewrite records_of_insert, decide_True by done.
    exists (records_of m (d, n)), {| data := value; ttl := DNS_RECORD_TTL |}, []. rewrite app_nil_r. split_and!; [done..|]. apply not_elem_of_nil. }
  assert (H2 : ∀ k, k ≠ (d, n) → records_of m1 k = records_of m k).
  { intros k Hk. unfold m1, effect. cbn [set_of]. by rewrite records_of_insert, decide_False. }
  clearbody m1. revert m m1 H1 H2. induction others as [|x others IH]; intros m m1 H1 H2; cbn [foldl].
  - intros k. unfold effect at 1. cbn [set_of]. rewrite records_of_insert. case_decide as Hk; [subst k; by apply one_more_last|]. by apply H2.
  - apply IH; [intros y Hy; apply Ho; by right| |].
    + pose proof (Ho x (list_elem_of_here _ _)) as Hx. unfold effect. rewrite !records_of_insert.
      destruct (decide (set_of x = (d, n))) as [Hk|Hk]; [|done]. rewrite Hk.
      destruct x; [by apply one_more_snoc|by apply one_more_remove].
    + intros k Hk. unfold effect. rewrite !records_of_insert. destruct (decide (set_of x = k)) as [Hxk|]; [|by apply H2].
      assert (set_of x ≠ (d, n)) by congruence. by destruct x; rewrite H2.
Qed.

Definition is_creation (op : operation) : Prop := match op with CreateTxt _ _ _ => True | DeleteTxt _ _ _ => False end.

#[export] Instance operation_eq_dec : EqDecision operation.
Proof. solve_decision. Defined.

(** The creations whose deletion is not among those that took effect. *)
Definition left_behind (created order : list operation) : list operation := filter (λ op, undo op ∉ order) created.

Lemma left_behind_middle created o1 o2 x :
  x ∉ undo <$> created → left_behind created (o1 ++ x :: o2) = left_behind created (o1 ++ o2).
Proof.
  unfold left_behind. induction created as [|op created IH]; intros Hx; [done|]. rewrite fmap_cons in Hx.
  apply not_elem_of_cons in Hx as [Hne Hx]. rewrite !filter_cons, IH by done.
  assert (undo op ∉ o1 ++ x :: o2 ↔ undo op ∉ o1 ++ o2) by (rewrite !elem_of_app, elem_of_cons; naive_solver).
  repeat case_decide; tauto.
Qed.

(** Creations of different values and the deletions of some of them, in any
    order, leave the creations that were not deleted. *)
Lemma creations_undone created : ∀ others order m,
  Forall is_creation created → NoDup (op_value <$> created) → (∀ x, x ∈ others → op_value x ∉ op_value <$> created) →
  order ⊆+ undo <$> created →
  same_records (foldl effect m (created ++ others ++ order)) (foldl effect m (left_behind created order ++ others)).
Proof.
  induction created as [|op created IH]; intros others order m Hc Hd Ho Hp.
  { apply submseteq_nil_r in Hp as ->. by rewrite app_nil_r. }
  apply Forall_cons in Hc as [Hop Hc]. rewrite fmap_cons in Hd. rewrite fmap_cons in Hp. apply NoDup_cons in Hd as [Hnew Hd].
  assert (Hundo : undo op ∉ undo <$> created).
  { intros (y & Hy & Hin)%list_elem_of_fmap. apply Hnew. apply list_elem_of_fmap. exists y. split; [|done].
    destruct op, y; cbn in Hy; by injection Hy as -> -> ->. }
  assert (Ho' : ∀ x, x ∈ others → op_value x ∉ op_value <$> created) by (intros x Hx Hin; apply (Ho x Hx); by right).
  unfold left_behind. rewrite filter_cons. case_decide as Hleft.
  { cbn [app foldl]. apply IH; [done..|]. by apply submseteq_cons_r in Hp as [?|(l & Hl & _)]; [|destruct Hleft; rewrite Hl; left]. }
  apply list_elem_of_split in Hleft as (o1 & o2 & ->). fold (left_behind created (o1 ++ undo op :: o2)).
  rewrite left_behind_middle by done.
  assert (Hp' : o1 ++ o2 ⊆+ undo <$> created) by (rewrite <- Permutation_middle in Hp; by apply (submseteq_app_inv_l _ _ [undo op])).
  destruct op as [d n value|]; [|done]. cbn [undo op_value] in *.
  assert (Hvals : ∀ x, x ∈ created ++ others ++ o1 → op_value x ≠ value).
  { intros x [Hx|[Hx|Hx]%elem_of_app]%elem_of_app <-.
    - apply Hnew. by apply list_elem_of_fmap_2.
    - apply (Ho x Hx). left.
    - assert (Hx' : x ∈ undo <$> created) by (apply (elem_of_submseteq _ _ _ ltac:(apply elem_of_app; by left) Hp')).
      apply list_elem_of_fmap in Hx' as (y & -> & Hy). apply Hnew. apply list_elem_of_fmap. exists y. split; [by destruct y|done]. }
  replace ((CreateTxt d n value :: created) ++ others ++ o1 ++ DeleteTxt d n value :: o2)
    with ((CreateTxt d n value :: (created ++ others ++ o1) ++ [DeleteTxt d n value]) ++ o2)
    by (cbn; by rewrite <- !app_assoc).
  rewrite foldl_app. rewrite creation_undone by done. rewrite <- foldl_app, <- !app_assoc. by apply IH.
Qed.

(** ** Theorems *)

(** The cleanup removes the record that was created and no other: whatever
    operations on other values come between them, the deletion a GoDaddy
    account makes of the handle of a creation leaves the records as if the
    creation had not been. *)
Theorem cleanup_removes_created domains fqdn value op h authorization gate (others : list operation) m :
  godaddy_create_txt domains fqdn value = Ok (op, h) →
  (∀ x, x ∈ others → match x with CreateTxt _ _ v | DeleteTxt _ _ v => v ≠ value end) →
  ∃ del, delete_txt (GoDaddyClient authorization gate) h = Ok (DeleteOperation del) ∧
         same_records (foldl effect m (op :: others ++ [del])) (foldl effect m others).
Proof.
  unfold godaddy_create_txt. intros (d & _ & (n & _ & [= <- <-])%bind_ok)%bind_ok Ho. eexists. split; [done|].
  apply creation_undone. intros x Hx. specialize (Ho x Hx). by destruct x.
Qed.

(** C30: the zone of a challenge record, whichever provider holds it: given the
    zones of the account, the choice is a zone the name belongs to, none is
    longer, and inside it the name is the zone's apex or a proper prefix; it
    fails only when the name belongs to no zone.  Both clients choose the same
    name. *)
Theorem zone_of_challenge list_domains fuel fqdn l :
  zones list_domains fuel 1 = Some (Ok l) →
  (∀ z, z ∈ l → fqdn ≠ "." ++ z_name z) →
  match find_unified_zone list_domains fuel fqdn with
  | Some (Ok z) =>
      z ∈ l ∧ longest_zone fqdn (z_name <$> l) (z_name z) ∧
      godaddy_find_zone (Ok (z_name <$> l)) fqdn = Ok (z_name z) ∧
      ∃ name, relative_name fqdn (z_name z) = Ok name ∧
        (fqdn = z_name z ∧ name = lit "@" ∨ fqdn ≠ z_name z ∧ fqdn = name ++ "." ++ z_name z ∧ name ≠ [])
  | Some (Err _) => (∀ z, z ∈ l → ¬ within fqdn (z_name z)) ∧ is_ok (godaddy_find_zone (Ok (z_name <$> l)) fqdn) = false
  | None => False
  end.
Proof.
  intros Hl Hdot. unfold find_unified_zone. rewrite find_zone_zones, Hl.
  assert (Hb := better_spec fqdn l). assert (Hg := godaddy_zone_spec fqdn (z_name <$> l)).
  destruct (foldl (better fqdn) None l) as [z|]; cbn [ok_or].
  - destruct Hb as [Hz Hlz]. split; [done|]. split; [done|]. assert (Hw := Hlz). destruct Hw as (Hin & Hw & _). split.
    + destruct (godaddy_find_zone _ _) as [z'|e]; [f_equal; by eapply longest_unique|]. by destruct (Hg (z_name z) Hin).
    + destruct (decide (fqdn = z_name z)) as [He|Hne].
      * exists (lit "@"). assert (H : fqdn = z_name z ∧ lit "@" = lit "@" ∨
          fqdn ≠ z_name z ∧ fqdn = lit "@" ++ "." ++ z_name z ∧ lit "@" ≠ []) by by left.
        split; [by apply relative_name_ok|done].
      * destruct Hw as [?|[label Hlabel]]; [done|].
        assert (H : fqdn ≠ z_name z ∧ fqdn = label ++ "." ++ z_name z ∧ label ≠ []).
        { split_and!; [done|done|]. intros ->. by apply (Hdot z Hz). }
        exists label. split; [apply relative_name_ok|]; by right.
  - split; [done|]. destruct (godaddy_find_zone _ _) as [z'|e]; [|done]. destruct Hg as (Hin & Hw & _).
    apply list_elem_of_fmap in Hin as (z & -> & Hz). by destruct (Hb z Hz).
Qed.

(** C12: challenges of one account do not disturb each other: however the requests
    of creations and deletions interleave, the records held by the provider
    are what the operations applied one after the other give, each at most
    once and every reported creation among them; a record that no deletion
    names is never lost.  (No future is dropped while its last request is on
    the way, and a request that fails is carried out by then or never: late
    requests break this, [cancelled_put_loses_record].) *)
Theorem challenge_records_serialised {J : RecordJson} m0 w :
  rtc (step false) (idle_world m0) w →
  (∀ k, records_of (sets w) k = records_of (foldl effect m0 (snd <$> log w)) k) ∧
  NoDup (fst <$> log w) ∧
  (∀ i op, (i, op) ∈ log w → ∃ r, ops w !! i = Some (op, Finished r)) ∧
  (∀ i d n value, ops w !! i = Some (CreateTxt d n value, Finished (Ok tt)) → (i, CreateTxt d n value) ∈ log w) ∧
  (∀ k r, r ∈ records_of m0 k → (∀ i d n value, (i, DeleteTxt d n value) ∈ log w → data r ≠ value) → r ∈ records_of (sets w) k).
Proof.
  intros Hr. assert (Hi : ∀ u v, rtc (step false) u v → serialised m0 u → serialised m0 v).
  { intros u v Huv. induction Huv; [done|]. eauto using serialised_step. }
  assert (Hw := Hi _ _ Hr (serialised_idle m0)). split_and!.
  - apply (se_sets m0 w Hw).
  - apply (se_once m0 w Hw).
  - apply (se_log m0 w Hw).
  - intros i d n value Hc. by destruct (se_created m0 w Hw _ _ Hc) as [?|(? & ? & ? & ?)].
  - intros k r Hk Hd. rewrite (se_sets m0 w Hw). apply effects_keep; [done|].
    intros d n value ([i op] & Heq & Hin)%list_elem_of_fmap. cbn in Heq. subst op. by eapply Hd.
Qed.

(** A late request breaks this: the permit is released while the request of a
    dropped future, or of one whose time was up, is still on the way, and
    when it arrives it overwrites the record of a creation that has been
    reported. *)
Theorem cancelled_put_loses_record {J : RecordJson} d n a b :
  a ≠ b →
  ∃ w, rtc (step true) (idle_world ∅) w ∧
    ops w !! 1%nat = Some (CreateTxt d n b, Finished (Ok tt)) ∧
    (∀ i v, (i, DeleteTxt d n v) ∉ log w) ∧
    b ∉ data <$> records_of (sets w) (d, n).
Proof.
  intros Hab. assert (Hok : request_empty (Ok {| status := 200; body := Ok [] |}) = Ok tt) by done. eexists. split.
  - eapply rtc_l; [apply (step_call _ _ 0 (CreateTxt d n a)); reflexivity|].
    eapply rtc_l; [apply (step_acquire _ _ 0 (CreateTxt d n a)); [apply lookup_insert_eq|reflexivity]|].
    eapply rtc_l; [eapply (step_read _ _ 0 (CreateTxt d n a)); [apply lookup_insert_eq|apply get_reply|reflexivity]|].
    eapply rtc_l; [eapply (step_drop_sent _ _ 0 (CreateTxt d n a)); [reflexivity|apply lookup_insert_eq|reflexivity]|].
    eapply rtc_l; [apply (step_call _ _ 1 (CreateTxt d n b)); reflexivity|].
    eapply rtc_l; [apply (step_acquire _ _ 1 (CreateTxt d n b)); [apply lookup_insert_eq|reflexivity]|].
    eapply rtc_l; [eapply (step_read _ _ 1 (CreateTxt d n b)); [apply lookup_insert_eq|apply get_reply|reflexivity]|].
    eapply rtc_l; [eapply (step_write _ _ 1 (CreateTxt d n b)); [apply lookup_insert_eq|reflexivity|exact Hok]|].
    eapply rtc_l; [eapply step_arrives; reflexivity|]. done.
  - split_and!.
    + apply lookup_insert_eq.
    + cbn. intros i v [|]%elem_of_cons; [done|]. by apply elem_of_nil in H.
    + cbn. unfold records_of. rewrite lookup_insert_eq. cbn. intros [|Hn]%elem_of_cons; [done|]. by apply elem_of_nil in Hn.
Qed.

(** ** Witnesses *)

(** A codec: the encoding of [Countable], in binary. *)
Fixpoint digits (p : positive) : str :=
  match p with xO p => "0"%char :: digits p | xI p => "1"%char :: digits p | xH => [] end.
Fixpoint number (s : str) : positive :=
  match s with "0"%char :: s => xO (number s) | _ :: s => xI (number s) | [] => xH end.

Lemma number_digits p : number (digits p) = p.
Proof. induction p as [p IH|p IH|]; cbn [digits number]; [by rewrite IH|by rewrite IH|done]. Qed.

#[global] Instance GoDaddyRecord_eq_dec : EqDecision GoDaddyRecord.
Proof. solve_decision. Defined.
#[global] Instance GoDaddyRecord_countable : Countable GoDaddyRecord.
Proof. refine (inj_countable' (λ r, (data r, ttl r)) (λ '(d, t), {| data := d; ttl := t |}) _). by intros []. Defined.

Definition toy_records : RecordJson.
Proof.
  refine {| records_to_json := λ l, digits (encode l);
            records_of_json := λ s, ok_or (decode (number s)) (lit "bad"); fmt_status := dec |}.
  intros l. by rewrite number_digits, decode_encode.
Defined.

Definition example_zones : list zone_entry :=
  [{| z_id := "1"; z_name := "org" |}; {| z_id := "2"; z_name := "example.org" |}; {| z_id := "3"; z_name := "ample.org" |}].
Definition example_pages (page : N) : result str (list zone_entry * bool) :=
  if page =? 1 then Ok (take 1 example_zones, true) else Ok (drop 1 example_zones, false).

Lemma zone_of_challenge_witness : ∃ name,
  relative_name "_acme-challenge.www.example.org" "example.org" = Ok name ∧
  lit "_acme-challenge.www.example.org" = name ++ "." ++ lit "example.org".
Proof.
  assert (H := zone_of_challenge example_pages 2 "_acme-challenge.www.example.org" example_zones eq_refl).
  assert (Hdot : ∀ z, z ∈ example_zones → lit "_acme-challenge.www.example.org" ≠ "." ++ z_name z).
  { intros z _ Hz. discriminate Hz. }
  specialize (H Hdot).
  assert (Hf : find_unified_zone example_pages 2 "_acme-challenge.www.example.org" = Some (Ok {| z_id := "2"; z_name := "example.org" |})) by reflexivity.
  rewrite Hf in H. destruct H as (_ & _ & _ & name & Hn & [[He _]|(_ & He & _)]); [discriminate He|].
  exists name. split; [exact Hn|exact He].
Defined.

Definition present : record_sets := {[ (lit "example.org", lit "_acme-challenge") := [{| data := "theirs"; ttl := 3600 |}] ]}.
Definition ours : operation := CreateTxt "example.org" "_acme-challenge" "ours".

(** A creation that is reported. *)
Lemma create_run : ∃ w, rtc (@step toy_records false) (idle_world present) w ∧
  ops w !! 0%nat = Some (ours, Finished (Ok tt)) ∧ log w = [(0%nat, ours)].
Proof.
  eexists. split.
  - eapply rtc_l; [apply (step_call _ _ 0 ours); reflexivity|].
    eapply rtc_l; [apply (step_acquire _ _ 0 ours); [apply lookup_insert_eq|reflexivity]|].
    eapply rtc_l; [eapply (step_read _ _ 0 ours); [apply lookup_insert_eq|apply get_reply|reflexivity]|].
    eapply rtc_l; [eapply (step_write _ _ 0 ours _ _ (Ok {| status := 200; body := Ok [] |})); [apply lookup_insert_eq|reflexivity|reflexivity]|]. done.
  - split; [apply lookup_insert_eq|done].
Qed.

Lemma challenge_records_serialised_witness : ∃ w, rtc (@step toy_records false) (idle_world present) w ∧
  {| data := "theirs"; ttl := 3600 |} ∈ records_of (sets w) (lit "example.org", lit "_acme-challenge").
Proof.
  destruct create_run as (w & Hr & Ho & Hl). exists w. split; [exact Hr|].
  destruct (@challenge_records_serialised toy_records present w Hr) as (_ & _ & _ & _ & Hkeep).
  apply Hkeep; [vm_compute; left|]. rewrite Hl. intros i d n value [[=]|[]%elem_of_nil]%elem_of_cons.
Defined.

Lemma cancelled_put_loses_record_witness :
  ∃ w, rtc (@step toy_records true) (idle_world ∅) w ∧ lit "b" ∉ data <$> records_of (sets w) (lit "example.org", lit "_acme-challenge").
Proof.
  destruct (@cancelled_put_loses_record toy_records "example.org" "_acme-challenge" "a" "b" ltac:(discriminate)) as (w & Hr & _ & _ & Hb).
  exists w. split; [exact Hr|exact Hb].
Defined.

Lemma cleanup_removes_created_witness :
  same_records (foldl effect present [CreateTxt "example.org" "_acme-challenge" "ours";
                                      CreateTxt "example.org" "_acme-challenge" "theirs";
                                      DeleteTxt "example.org" "_acme-challenge" "ours"])
               (foldl effect present [CreateTxt "example.org" "_acme-challenge" "theirs"]).
Proof.
  destruct (cleanup_removes_created (Ok [lit "example.org"; lit "org"]) "_acme-challenge.example.org" "ours"
    (CreateTxt "example.org" "_acme-challenge" "ours") (GoDaddyHandle "example.org" "_acme-challenge" "ours") "sso-key a:b" 0
    [CreateTxt "example.org" "_acme-challenge" "theirs"] present) as (del & Hd & Hs).
  - by vm_compute.
  - intros x Hx. apply list_elem_of_singleton in Hx as ->. by vm_compute.
  - injection Hd as <-. exact Hs.
Defined.
