(* ===== verification/Acme.v ===== *)
(** * Acme: the issuance of certificates, [gaterust-proxy/src/acme.rs]

    The steps of an issuance between the calls of the ACME library, the DNS
    provider and the resolver.  What such a call gives under [bounded] is an
    argument; the cache is on the disk of [Disk], whose calls can fail. *)

From S2P Require Import Prelude RustStr Net Paths Disk ProxyConfig Cache CertManager Dns.

Definition ACME_OPERATION_TIMEOUT : N := 180.
Definition DNS_PROPAGATION_TIMEOUT : N := 300.
Definition DNS_POLL_INTERVAL : N := 5.

(** ** [bounded] *)

Inductive wait (T : Type) := WCancelled | WTimedOut | WDone (v : T).
Arguments WCancelled {_}.
Arguments WTimedOut {_}.
Arguments WDone {_} _.

Definition bounded {T} (operation : str) (w : wait T) : PResult T :=
  match w with
  | WCancelled => Err (PAcme (operation ++ "已取消"))
  | WTimedOut => Err (PAcme (operation ++ "超时"))
  | WDone v => Ok v
  end.
(** [bounded(..).await??] *)
Definition bounded_try {T} (operation : str) (w : wait (PResult T)) : PResult T :=
  r ← bounded operation w; r.

(** ** Challenges *)

Inductive AuthorizationStatus := AuthValid | AuthPending | AuthOther (debug : str).

Section acme.
Context {A : AcmeLib}.

Record authorization := {
  au_identifier : str;
  au_status : AuthorizationStatus;
  (** the DNS-01 challenge and its encoded key authorization *)
  au_dns01 : option (Challenge * PResult (option str)) }.

Definition challenge_domain (identifier : str) : str := default identifier (strip_prefix "*." identifier).

Definition collect_one (acc : list Challenge * list ManualDnsRecord) (a : authorization)
  : PResult (list Challenge * list ManualDnsRecord) :=
  match au_status a with
  | AuthValid => Ok acc
  | AuthOther status => Err (PAcme ("域名 " ++ au_identifier a ++ " 的授权状态异常: " ++ status))
  | AuthPending =>
      '(challenge, encoded) ← ok_or (au_dns01 a) (PAcme "CA 未提供 DNS-01 挑战");
      encoded ← encoded;
      value ← ok_or encoded (PAcme "DNS-01 挑战缺少 token");
      Ok (acc.1 ++ [challenge],
          acc.2 ++ [{| record_name := "_acme-challenge." ++ challenge_domain (au_identifier a); record_value := value |}])
  end.

Definition collect_challenges (authorizations : wait (PResult (list authorization)))
  : PResult (list Challenge * list ManualDnsRecord) :=
  l ← bounded_try "读取域名授权" authorizations;
  try_for collect_one ([], []) l.

(** Submitting a challenge, and the state it ends in: valid, or its error. *)
Record challenge_run := { ch_validate : wait (PResult unit); ch_done : wait (PResult (result str unit)) }.

Fixpoint validate_challenges (runs : list challenge_run) : PResult unit :=
  match runs with
  | [] => Ok tt
  | c :: runs =>
      _ ← bounded_try "提交 DNS-01 挑战" (ch_validate c);
      state ← bounded_try "等待 DNS-01 验证" (ch_done c);
      match state with
      | Ok _ => validate_challenges runs
      | Err error => Err (PAcme ("DNS-01 验证失败: " ++ error))
      end
  end.

(** ** Propagation *)

(** The answers of a TXT lookup: each is the list of its parts, [None] for
    other data; the lookup itself may fail. *)
Definition record_visible (txt_lookup : str → option (list (option (list str)))) (r : ManualDnsRecord) : bool :=
  match txt_lookup (record_name r ++ ".") with
  | None => false
  | Some answers => existsb (λ a, match a with Some parts => bool_decide (concat parts = record_value r) | None => false end) answers
  end.

(** [resolver]: whether it could be built. *)
Definition dns_records_visible (resolver : result str unit) (txt_lookup : str → option (list (option (list str))))
  (records : list ManualDnsRecord) : PResult bool :=
  _ ← map_err (λ e, PDns ("初始化 DNS 解析器失败: " ++ e)) resolver;
  Ok (forallb (record_visible txt_lookup) records).

Definition cancelled_error : ProxyError := PAcme "证书申请已取消".

(** A round of lookups that starts at a time: how long it takes and what it
    finds, unless the task is cancelled; then a pause, unless cancelled. *)
Record dns_clock := {
  dc_lag : N → N;
  dc_visible : N → option (PResult bool);
  dc_oversleep : N → N;
  dc_slept : N → bool }.

Fixpoint wait_visible (clock : dns_clock) (fuel : nat) (deadline now : N) : option (PResult unit) :=
  match fuel with
  | O => None
  | Datatypes.S fuel =>
      match dc_visible clock now with
      | None => Some (Err cancelled_error)
      | Some (Err e) => Some (Err e)
      | Some (Ok true) => Some (Ok tt)
      | Some (Ok false) =>
          let now := now + dc_lag clock now in
          if deadline <=? now then Some (Err (PDns "等待 DNS TXT 记录传播超时")) else
          if dc_slept clock now then wait_visible clock fuel deadline (now + DNS_POLL_INTERVAL + dc_oversleep clock now)
          else Some (Err cancelled_error)
      end
  end.

Definition wait_for_dns_records (clock : dns_clock) (now : N) : option (PResult unit) :=
  wait_visible clock 61 (now + DNS_PROPAGATION_TIMEOUT) now.

(** [verify_dns_records]: [None] is a cancellation. *)
Definition verify_dns_records (visible : option (PResult bool)) : PResult unit :=
  match visible with
  | None => Err cancelled_error
  | Some r => visible ← r; if visible : bool then Ok tt else Err (PDns "公共 DNS 尚未解析到全部 TXT 挑战值")
  end.

(** ** [authorize_automatically] *)

Record dns_run := {
  dr_create : ManualDnsRecord → wait (PResult DnsRecordHandle);
  dr_clock : dns_clock;
  dr_now : N;
  dr_challenges : Challenge → challenge_run }.

(** The handles created before the first failure, and how the loop ended. *)
Fixpoint create_records (create : ManualDnsRecord → wait (PResult DnsRecordHandle)) (records : list ManualDnsRecord)
  : list DnsRecordHandle * PResult unit :=
  match records with
  | [] => ([], Ok tt)
  | r :: records =>
      match bounded_try "创建 DNS-01 记录" (create r) with
      | Ok h => let '(handles, end_) := create_records create records in (h :: handles, end_)
      | Err e => ([], Err e)
      end
  end.

(** The result, and the handles given to [cleanup_records]. *)
Definition authorize_automatically (e : dns_run) (challenges : list Challenge) (records : list ManualDnsRecord)
  : option (PResult unit) * list DnsRecordHandle :=
  let '(handles, created) := create_records (dr_create e) records in
  (match created with
   | Err err => Some (Err err)
   | Ok _ =>
       match wait_for_dns_records (dr_clock e) (dr_now e) with
       | Some (Ok _) => Some (validate_challenges (dr_challenges e <$> challenges))
       | r => r
       end
   end, handles).


(** ** [finalize] *)

Inductive OrderStatus := OReady | OValid | OOther (debug : str).

Section finalize.
Context {H : Host} {J : Json} {X : X509}.

(** [openssl] and [base64]. *)
Context {Key : Type} (key_from_pem : str → PResult Key) (key_to_pem : Key → PResult str)
        (generate_key : KeyAlgorithm → PResult Key)
        (decode_no_pad decode_pad : str → option str) (hmac_key : str → PResult Key).

Record order_run := {
  or_ready : wait (PResult OrderStatus);
  or_finalize : Key → wait (PResult unit);
  or_done : wait (PResult (OrderStatus * str));
  (** each certificate of the chain, as PEM *)
  or_certificate : wait (PResult (option (list (PResult str)))) }.

Definition concat_pem (l : list (PResult str)) : PResult str := try_for (λ acc c, c ← c; Ok (acc ++ c)) [] l.

Definition finalize (e : order_run) (request : IssuanceRequest) (root : Path) : IO IssuedCertificate :=
  status ← io_result (bounded_try "等待 ACME 订单就绪" (or_ready e));
  _ ← io_result match status with
      | OReady => Ok tt
      | OValid => Err (PAcme ("ACME 订单未就绪: " ++ "Valid"))
      | OOther s => Err (PAcme ("ACME 订单未就绪: " ++ s))
      end;
  private_key ← io_result (generate_key (acme_key_algorithm (ir_account request)));
  _ ← io_result (bounded_try "提交证书请求" (or_finalize e private_key));
  '(status, error) ← io_result (bounded_try "等待证书签发" (or_done e));
  _ ← io_result match status with OValid => Ok tt | _ => Err (PAcme ("ACME 订单签发失败: " ++ error)) end;
  certificates ← io_result (bounded_try "下载证书链" (or_certificate e));
  certificates ← io_result (ok_or certificates (PAcme "ACME 订单未返回证书链"));
  certificate_pem ← io_result (concat_pem certificates);
  private_key_pem ← io_result (key_to_pem private_key);
  expires_at ← store_certificate root (cert_id (ir_certificate request)) (ir_certificate request) certificate_pem private_key_pem;
  mret {| issued_certificate_pem := certificate_pem; issued_private_key_pem := private_key_pem; issued_expires_at := expires_at |}.

(** ** [load_account] *)

Definition decode_eab_hmac (encoded : str) : PResult str :=
  match decode_no_pad encoded with
  | Some k => Ok k
  | None => ok_or (decode_pad encoded) (PInvalidConfig "Google EAB HMAC Key 不是 Base64URL")
  end.

(** What is asked of the CA: the key, and whether the account must exist or
    is bound to an external one. *)
Record account_request := {
  aq_key : Key; aq_contact : str; aq_only_existing : bool; aq_external : option (str * Key) }.

(** The key of the account, stored before it is used. *)
Definition load_key (config : AcmeAccountConfig) (root : Path) : IO (Key * bool) :=
  let directory := account_directory root (acme_id config) in
  cached ← load_private_key directory config;
  match cached with
  | Some (pem, registered) => key ← io_result (key_from_pem pem); mret (key, registered)
  | None =>
      key ← io_result (generate_key (acme_key_algorithm config));
      pem ← io_result (key_to_pem key);
      _ ← store_private_key directory config pem false;
      mret (key, false)
  end.

Definition external_account (config : AcmeAccountConfig) : PResult (option (str * Key)) :=
  match acme_provider config with
  | GoogleCloud =>
      key_id ← ok_or (eab_key_id config) (PInvalidConfig ("ACME 账户 " ++ acme_name config ++ " 缺少 EAB Key ID"));
      encoded ← ok_or (eab_hmac_key config) (PInvalidConfig ("ACME 账户 " ++ acme_name config ++ " 缺少 EAB HMAC Key"));
      decoded ← decode_eab_hmac (expose encoded);
      key ← hmac_key decoded;
      Ok (Some (key_id, key))
  | LetsEncrypt => Ok None
  end.

Definition account_request_of (config : AcmeAccountConfig) (key : Key) (registered : bool) : PResult account_request :=
  external ← if registered then Ok None else external_account config;
  Ok {| aq_key := key; aq_contact := "mailto:" ++ acme_email config; aq_only_existing := registered; aq_external := external |}.

(** [permit]: cancelled while waiting, or closed; [directory]: reading the
    ACME directory; [build]: the CA's answer to the request. *)
Definition load_account {Account} (permit : option (result unit unit)) (directory : wait (PResult unit))
  (build : account_request → wait (PResult Account)) (config : AcmeAccountConfig) (root : Path) : IO Account :=
  _ ← io_result match permit with
      | None => Err (PAcme "等待 ACME 账户初始化时申请已取消")
      | Some r => map_err (λ _, PAcme "ACME 账户初始化通道已关闭") r
      end;
  '(key, registered) ← load_key config root;
  _ ← io_result (bounded_try "读取 ACME 目录" directory);
  request ← io_result (account_request_of config key registered);
  account ← io_result (bounded_try "创建或恢复 ACME 账户" (build request));
  _ ← if registered : bool then mret tt else
      (pem ← io_result (key_to_pem key);
       store_private_key (account_directory root (acme_id config)) config pem true);
  mret account.

(** ** [begin_issue] and the manual flow *)

Record issue_run (Account : Type) := {
  is_permit : option (result unit unit);
  is_directory : wait (PResult unit);
  is_build : account_request → wait (PResult Account);
  is_order : wait (PResult Order);
  is_authorizations : wait (PResult (list authorization));
  is_client : result str unit;
  is_dns : dns_run;
  is_final : order_run }.
Arguments is_permit {_} _.
Arguments is_directory {_} _.
Arguments is_build {_} _.
Arguments is_order {_} _.
Arguments is_authorizations {_} _.
Arguments is_client {_} _.
Arguments is_dns {_} _.
Arguments is_final {_} _.

(** The result, with the DNS records that were cleaned up. *)
Definition begin_issue {Account} (e : issue_run Account) (request : IssuanceRequest) (root : Path)
  : IO (IssueResult * list DnsRecordHandle) :=
  _ ← load_account (is_permit e) (is_directory e) (is_build e) (ir_account request) root;
  order ← io_result (bounded_try "创建 ACME 订单" (is_order e));
  '(challenges, records) ← io_result (collect_challenges (is_authorizations e));
  match cert_validation (ir_certificate request) with
  | Some (DnsAccount _) =>
      dns_config ← io_result (ok_or (ir_dns_account request) (PInvalidConfig "证书引用的 DNS 账户不存在"));
      _ ← io_result (from_config (λ _, is_client e) 0 dns_config (ir_dns_gate request));
      let '(result, cleaned) := authorize_automatically (is_dns e) challenges records in
      _ ← io_result (default (Err cancelled_error) result);
      certificate ← finalize (is_final e) request root;
      mret (Issued certificate, cleaned)
  | Some Manual =>
      mret (CertManager.Waiting {| mo_request := request; mo_order := order; mo_challenges := challenges; mo_records := records |}, [])
  | None => io_err (PInvalidConfig "待迁移证书不能发起申请")
  end.

Definition continue_manual (runs : Challenge → challenge_run) (e : order_run) (pending : ManualOrder) (root : Path) : IO IssuedCertificate :=
  _ ← io_result (validate_challenges (runs <$> mo_challenges pending));
  finalize e (mo_request pending) root.

Definition verify_manual (visible : list ManualDnsRecord → option (PResult bool)) (pending : ManualOrder) : PResult unit :=
  verify_dns_records (visible (mo_records pending)).
End finalize.
End acme.
Arguments is_permit {_ _ _} _.
Arguments is_directory {_ _ _} _.
Arguments is_build {_ _ _} _.
Arguments is_order {_ _ _} _.
Arguments is_authorizations {_ _ _} _.
Arguments is_client {_ _ _} _.
Arguments is_dns {_ _ _} _.
Arguments is_final {_ _ _} _.

(** ** Specification *)

(** A call that was neither cancelled nor late and succeeded. *)
Definition succeeded {T} (w : wait (PResult T)) (v : T) : Prop := w = WDone (Ok v).

Section spec.
Context {A : AcmeLib}.

(** The challenge and the record of an authorization that is pending. *)
Definition pending (a : authorization) : option (Challenge * ManualDnsRecord) :=
  match au_status a, au_dns01 a with
  | AuthPending, Some (challenge, Ok (Some value)) =>
      Some (challenge, {| record_name := "_acme-challenge." ++ challenge_domain (au_identifier a); record_value := value |})
  | _, _ => None
  end.
Definition usable (a : authorization) : Prop := au_status a = AuthValid ∨ is_Some (pending a).

Definition challenge_valid (c : challenge_run) : Prop :=
  succeeded (ch_validate c) tt ∧ succeeded (ch_done c) (Ok tt).
End spec.

(** ** Lemmas *)

Lemma bounded_try_ok {T} op (w : wait (PResult T)) v : bounded_try op w = Ok v ↔ succeeded w v.
Proof. unfold bounded_try, succeeded. destruct w as [| |[x|e]]; cbn; naive_solver. Qed.

Lemma io_done_bind {B C} (m : IO B) (k : B → IO C) d c d' :
  (m ≫= k) d = (Done c, d') → ∃ b d1, m d = (Done b, d1) ∧ k b d1 = (Done c, d').
Proof. intros [(b & d1 & H1 & H2)|[(e & _ & [=])|[_ [=]]]]%io_bind_inv. eauto. Qed.

Lemma io_result_done {B C} (r : PResult B) (k : B → IO C) d c d' :
  (io_result r ≫= k) d = (Done c, d') → ∃ b, r = Ok b ∧ k b d = (Done c, d').
Proof. intros (b & d1 & Hr & Hk)%io_done_bind. apply io_result_inv in Hr as [-> Hr]. destruct r; [|done]. injection Hr as ->. eauto. Qed.

Section lemmas.
Context {A : AcmeLib}.

Lemma collect_one_ok acc a acc' :
  collect_one acc a = Ok acc' ↔
  usable a ∧ acc' = match pending a with Some (c, r) => (acc.1 ++ [c], acc.2 ++ [r]) | None => acc end.
Proof.
  unfold collect_one, usable, pending. destruct (au_status a) as [| |s].
  - split; [intros [= <-]; naive_solver|by intros [_ ->]].
  - destruct (au_dns01 a) as [[c [[v|]|e]]|]; cbn; split; try done; try (intros [[|[? [=]]] _]; done).
    + intros [= <-]. naive_solver.
    + by intros [_ ->].
  - split; [done|]. by intros [[|[? [=]]] _].
Qed.

Lemma collect_loop_ok l : ∀ acc acc',
  try_for collect_one acc l = Ok acc' ↔
  Forall usable l ∧ acc' = (acc.1 ++ (fst <$> omap pending l), acc.2 ++ (snd <$> omap pending l)).
Proof.
  induction l as [|a l IH]; intros [cs rs] acc'; cbn [try_for omap list_omap fmap list_fmap fst snd].
  { rewrite !app_nil_r. split; [by intros [= <-]|by intros [_ ->]]. }
  rewrite bind_ok. setoid_rewrite collect_one_ok. setoid_rewrite IH. rewrite Forall_cons. split.
  - intros (x & [Hu ->] & Hl & ->). split; [done|]. destruct (pending a) as [[c r]|]; cbn; [by rewrite <- !(assoc_L (++))|done].
  - intros [[Hu Hl] ->]. eexists. split; [by split|]. split; [done|].
    destruct (pending a) as [[c r]|]; cbn; [by rewrite <- !(assoc_L (++))|done].
Qed.

Lemma validate_challenges_ok runs : validate_challenges runs = Ok tt ↔ Forall challenge_valid runs.
Proof.
  induction runs as [|c runs IH]; cbn [validate_challenges]; [split; [by constructor|done]|].
  rewrite Forall_cons, <- IH. unfold challenge_valid. rewrite bind_unit_ok, bounded_try_ok, bind_ok. setoid_rewrite bounded_try_ok. split.
  - intros (Hv & s & Hs & Hr). destruct s as [[]|]; done.
  - intros ([Hv Hd] & Hr). split; [done|]. by exists (Ok tt).
Qed.

Lemma create_records_spec create records :
  let '(handles, ended) := create_records create records in
  ∃ done rest, records = done ++ rest ∧ Forall2 (λ r h, succeeded (create r) h) done handles ∧
    (ended = Ok tt ↔ rest = []) ∧ (∀ r rest', rest = r :: rest' → ∀ h, ¬ succeeded (create r) h).
Proof.
  induction records as [|r records IH]; cbn [create_records]; [by exists [], []|].
  destruct (bounded_try _ _) as [h|e] eqn:Eb.
  - apply bounded_try_ok in Eb. destruct (create_records create records) as [handles ended].
    destruct IH as (done & rest & -> & Hf & He & Hr). exists (r :: done), rest. split_and!; [done|by constructor|done|done].
  - exists [], (r :: records). split_and!; [done|constructor|split; [done|by intros [=]]|].
    intros r' rest' [= <- <-] h Hh. apply (bounded_try_ok "创建 DNS-01 记录") in Hh. congruence.
Qed.



(** The loop ends with the fuel it is given. *)
Lemma wait_visible_ends clock fuel : ∀ deadline now,
  deadline <= now + 5 * N.of_nat fuel →
  ∃ r, wait_visible clock (Datatypes.S fuel) deadline now = Some r ∧
    (r = Ok tt → ∃ t, now <= t ∧ dc_visible clock t = Some (Ok true)) ∧
    (r = Err (PDns "等待 DNS TXT 记录传播超时") →
       (∃ t, dc_visible clock t = Some (Err (PDns "等待 DNS TXT 记录传播超时"))) ∨
       ∃ t, now <= t ∧ dc_visible clock t = Some (Ok false) ∧ deadline <= t + dc_lag clock t).
Proof.
  induction fuel as [|fuel IH]; intros deadline now Hd.
  all: match goal with |- context [wait_visible ?c (Datatypes.S ?f) ?dl ?n] =>
    change (wait_visible c (Datatypes.S f) dl n) with
      (match dc_visible c n with
       | None => Some (Err cancelled_error) | Some (Err e) => Some (Err e) | Some (Ok true) => Some (Ok tt)
       | Some (Ok false) =>
           if dl <=? n + dc_lag c n then Some (Err (PDns "等待 DNS TXT 记录传播超时")) else
           if dc_slept c (n + dc_lag c n)
           then wait_visible c f dl (n + dc_lag c n + DNS_POLL_INTERVAL + dc_oversleep c (n + dc_lag c n))
           else Some (Err cancelled_error)
       end) end.
  all: destruct (dc_visible clock now) as [[[]|e]|] eqn:Ev;
    [exists (Ok tt); split_and!; [done|intros _; exists now; split; [lia|done]|done]
    | |exists (Err e); split_and!; [done|done|intros [= ->]; left; eauto]
    |exists (Err cancelled_error); split_and!; [done|done|intros [=]]].
  all: destruct (_ <=? _) eqn:El; [apply N.leb_le in El; eexists; split_and!; [reflexivity|done|
    intros _; right; exists now; split; [lia|done]]|apply N.leb_gt in El].
  - exfalso. lia.
  - destruct (dc_slept _ _); [|exists (Err cancelled_error); split_and!; [done|done|intros [=]]].
    destruct (IH deadline (now + dc_lag clock now + DNS_POLL_INTERVAL + dc_oversleep clock (now + dc_lag clock now))) as (r & Hr & Hok & Hto).
    { unfold DNS_POLL_INTERVAL. lia. }
    exists r. split; [exact Hr|]. split.
    + intros He. destruct (Hok He) as (t & Ht & Hv). exists t. split; [lia|done].
    + intros He. destruct (Hto He) as [?|(t & Ht & Hv)]; [by left|right]. exists t. split; [lia|done].
Qed.
End lemmas.

(** ** Theorems *)

(** C33: the automatic authorization ends, and however it ends hands to the cleanup
    exactly the handles of the creations that were reported to it, in order:
    those of the records before the first whose creation failed, was late or
    was cancelled (stored by the provider or not); it succeeds exactly when
    every creation was reported, a round of lookups saw all the records and
    every challenge is valid. *)
Theorem authorization_cleans_up {A : AcmeLib} e challenges records :
  let '(result, cleaned) := authorize_automatically e challenges records in
  is_Some result ∧
  (∃ done rest, records = done ++ rest ∧ Forall2 (λ r h, succeeded (dr_create e r) h) done cleaned ∧
     ∀ r rest', rest = r :: rest' → ∀ h, ¬ succeeded (dr_create e r) h) ∧
  (result = Some (Ok tt) ↔
     length cleaned = length records ∧ wait_for_dns_records (dr_clock e) (dr_now e) = Some (Ok tt) ∧
     Forall challenge_valid (dr_challenges e <$> challenges)) ∧
  (result = Some (Ok tt) → ∃ t, dr_now e <= t ∧ dc_visible (dr_clock e) t = Some (Ok true)).
Proof.
  unfold authorize_automatically. assert (Hc := create_records_spec (dr_create e) records).
  destruct (create_records (dr_create e) records) as [handles ended]. destruct Hc as (done & rest & -> & Hf & He & Hrest).
  assert (Hlen := Forall2_length _ _ _ Hf).
  destruct (wait_visible_ends (dr_clock e) 60 (dr_now e + DNS_PROPAGATION_TIMEOUT) (dr_now e)) as (r & Hr & Hok & _).
  { unfold DNS_PROPAGATION_TIMEOUT. lia. }
  assert (Hw : wait_for_dns_records (dr_clock e) (dr_now e) = Some r) by (unfold wait_for_dns_records; exact Hr). rewrite Hw. clear Hr Hw.
  assert (Hfull : length handles = length (done ++ rest) ↔ rest = []).
  { rewrite length_app, <- Hlen. destruct rest; cbn; [split; [done|lia]|split; [lia|done]]. }
  rewrite Hfull, <- He, <- validate_challenges_ok. clear Hfull Hlen.
  split; [|split; [by exists done, rest|]].
  - destruct ended as [[]|]; [|by eexists]. destruct r as [[]|]; by eexists.
  - destruct ended as [[]|err]; [|split; [split; [done|by intros [? _]]|done]].
    destruct r as [[]|err]; [|split; [split; [done|intros (_ & ? & _); done]|done]].
    split; [|intros _; exact (Hok eq_refl)]. split; [intros [= ->]; done|by intros (_ & _ & ->)].
Qed.


(** C31: waiting for the propagation always ends: after at most sixty-one rounds of
    lookups it has an answer; it succeeds only when a round saw every record,
    and reports a timeout of its own only after five minutes. *)
Theorem propagation_wait_ends clock now :
  (∀ t e, dc_visible clock t ≠ Some (Err e)) →
  ∃ r, wait_for_dns_records clock now = Some r ∧
    (r = Ok tt → ∃ t, now <= t ∧ dc_visible clock t = Some (Ok true)) ∧
    (r = Err (PDns "等待 DNS TXT 记录传播超时") →
       ∃ t, now <= t ∧ dc_visible clock t = Some (Ok false) ∧ now + DNS_PROPAGATION_TIMEOUT <= t + dc_lag clock t).
Proof.
  intros Hno. destruct (wait_visible_ends clock 60 (now + DNS_PROPAGATION_TIMEOUT) now) as (r & Hr & Hok & Hto).
  { unfold DNS_PROPAGATION_TIMEOUT. lia. }
  exists r. split; [unfold wait_for_dns_records; exact Hr|]. split; [exact Hok|]. intros He. destruct (Hto He) as [[t Ht]|?]; [by apply Hno in Ht|done].
Qed.

(** The challenges of an order: the authorizations that are pending, in order,
    each with the record [_acme-challenge.<domain>] of its token, the wildcard
    removed from the domain; anything else in the order is an error. *)
Theorem collect_challenges_spec {A : AcmeLib} authorizations challenges records :
  collect_challenges authorizations = Ok (challenges, records) ↔
  ∃ l, succeeded authorizations l ∧ Forall usable l ∧
    challenges = fst <$> omap pending l ∧ records = snd <$> omap pending l.
Proof.
  unfold collect_challenges. rewrite bind_ok. setoid_rewrite bounded_try_ok. setoid_rewrite collect_loop_ok. cbn [fst snd app].
  split; intros (l & Hl & Hr); exists l; naive_solver.
Qed.

Section account.
Context {H : Host} {J : Json}.

(** Reading an account that is there finds what is stored. *)
Lemma load_private_key_again dir cfg d x d' :
  load_private_key dir cfg d = (Done (Some x), d') → files d' = files d ∧ stored_key dir cfg d = Done (Some x).
Proof.
  unfold load_private_key, stored_key, account_view, file_of. intros (content & d1 & Hc & Hk)%io_done_bind.
  assert (Hread : ∀ p (c : str) e1 e2, read_optional p e1 = (Done (Some c), e2) → files e2 = files e1 ∧ files e1 !! p = Some c).
  { intros p c e1 e2. unfold read_optional. destruct (sys (calls e1)) as [|[]|]; intros [= <- <-]; done. }
  destruct content as [content|]; [|done]. apply Hread in Hc as [Hf1 Hc].
  apply io_result_done in Hk as (metadata & Hm & Hk). apply map_err_ok in Hm.
  destruct (_ || _) eqn:Eb; [done|]. apply io_done_bind in Hk as (key & d2 & Hkey & [= Hx <-]).
  destruct key as [key|]; [|done]. apply Hread in Hkey as [Hf2 Hkey]. split; [congruence|].
  rewrite Hc, Hm. cbn [map_err mbind result_bind]. rewrite Eb. rewrite <- Hf1, Hkey. by rewrite <- Hx.
Qed.

Context {Key : Type} (key_from_pem : str → PResult Key) (key_to_pem : Key → PResult str)
        (generate_key : KeyAlgorithm → PResult Key)
        (decode_no_pad decode_pad : str → option str) (hmac_key : str → PResult Key).
Hypothesis pem_roundtrip : ∀ k pem, key_to_pem k = Ok pem → key_from_pem pem = Ok k.

Notation load_key := (load_key key_from_pem key_to_pem generate_key).
Notation account_request_of := (account_request_of decode_no_pad decode_pad hmac_key).
Notation load_account := (load_account key_from_pem key_to_pem generate_key decode_no_pad decode_pad hmac_key).
Notation stored root config := (stored_key (account_directory root (acme_id config)) config).

Lemma load_key_stored config root d key registered d' :
  load_key config root d = (Done (key, registered), d') →
  ∃ pem, key_from_pem pem = Ok key ∧ stored root config d' = Done (Some (pem, registered)).
Proof.
  unfold Acme.load_key. intros (cached & d1 & Hc & Hk)%io_done_bind. destruct cached as [[pem r]|].
  - apply load_private_key_again in Hc as [Hf Hq]. apply io_result_done in Hk as (k & Hkey & [= -> -> <-]).
    exists pem. split; [done|]. unfold stored_key in *. by rewrite Hf.
  - apply io_result_done in Hk as (k & _ & Hk). apply io_result_done in Hk as (pem & Hp & Hk).
    apply io_done_bind in Hk as ([] & d2 & Hs & [= <- <- <-]). exists pem. split; [by apply pem_roundtrip|].
    destruct (load_private_key_quiet (account_directory root (acme_id config)) config d2) as (d3 & Hl & _).
    assert (Hi := account_key_isolated _ _ config _ _ _ _ Hs). rewrite Hl in Hi. cbn [fst] in Hi.
    rewrite Hi. by rewrite decide_True.
Qed.

(** A retry starts from what is stored. *)
Lemma load_key_retry config root d pem key registered :
  stored root config d = Done (Some (pem, registered)) → key_from_pem pem = Ok key →
  (Acme.load_key (H:=quiet) key_from_pem key_to_pem generate_key config root d).1 = Done (key, registered).
Proof.
  intros Hs Hp. unfold Acme.load_key. unfold mbind at 1, IO_bind.
  destruct (load_private_key_quiet (account_directory root (acme_id config)) config d) as (d' & -> & _).
  rewrite Hs, io_result_bind. by rewrite Hp.
Qed.

(** The CA has answered the request for the key. *)
Definition answered {Account} (build : account_request → wait (PResult Account)) config key registered : Prop :=
  ∃ request account, account_request_of config key registered = Ok request ∧ succeeded (build request) account.

(** C15: the key of an ACME account is on the disk before the CA sees it, is marked
    as registered only once the CA has answered, and is the key of every
    retry.  When the key is ready it can be read back with the mark it is used
    with.  However loading the account then ends (the directory or the CA
    fails, is late or cancelled, a file cannot be written, the process is
    killed), the next attempt reads the same key; its mark is the old one, or
    the CA has answered; without an answer no account is returned and nothing
    is written after the key.  A returned account is that of the CA's answer
    to a request with this key, and the key is marked. *)
Theorem account_key_stored_first {Account} directory (build : account_request → wait (PResult Account)) config root d key registered d1 :
  load_key config root d = (Done (key, registered), d1) →
  let run := load_account (Some (Ok tt)) directory build config root d in
  (∃ pem, key_from_pem pem = Ok key ∧ stored root config d1 = Done (Some (pem, registered))) ∧
  (∃ registered', (Acme.load_key (H:=quiet) key_from_pem key_to_pem generate_key config root run.2).1 = Done (key, registered') ∧
     (registered' = registered ∨ registered' = true ∧ answered build config key registered) ∧
     ∀ account, run.1 = Done account → registered' = true) ∧
  (¬ answered build config key registered → run.2 = d1) ∧
  (∀ account, run.1 = Done account → ∃ request,
     account_request_of config key registered = Ok request ∧ aq_key request = key ∧
     aq_only_existing request = registered ∧ succeeded (build request) account).
Proof.
  intros Hk run. subst run. destruct (load_account _ _ _ _ _ _) as [outcome d'] eqn:Hl. cbn [fst snd].
  destruct (load_key_stored _ _ _ _ _ _ Hk) as (pem & Hp & Hs). split; [by exists pem|].
  assert (Hstop : d' = d1 → (∀ account, outcome ≠ Done account) →
    (∃ registered', (Acme.load_key (H:=quiet) key_from_pem key_to_pem generate_key config root d').1 = Done (key, registered') ∧
       (registered' = registered ∨ registered' = true ∧ answered build config key registered) ∧
       ∀ account, outcome = Done account → registered' = true) ∧
    (¬ answered build config key registered → d' = d1) ∧
    (∀ account, outcome = Done account → ∃ request, account_request_of config key registered = Ok request ∧ aq_key request = key ∧
       aq_only_existing request = registered ∧ succeeded (build request) account)).
  { intros -> Hno. split_and!; [|done|by intros a ?%Hno]. exists registered.
    split_and!; [by apply (load_key_retry _ _ _ pem)|by left|by intros a ?%Hno]. }
  unfold Acme.load_account in Hl. cbn [map_err] in Hl. rewrite io_result_bind in Hl.
  apply io_bind_inv in Hl as [([k r] & d2 & E & Hl)|[(e & E & _)|[E _]]]; rewrite Hk in E; [injection E as <- <- <-|done..].
  rewrite io_result_bind in Hl. destruct (bounded_try _ directory) as [u|e]; [|injection Hl as <- <-; by apply Hstop].
  rewrite io_result_bind in Hl. destruct (account_request_of config key registered) as [request|e] eqn:Hrq; [|injection Hl as <- <-; by apply Hstop].
  rewrite io_result_bind in Hl. destruct (bounded_try _ (build request)) as [acc|e] eqn:Hb; [|injection Hl as <- <-; by apply Hstop].
  clear Hstop. apply bounded_try_ok in Hb.
  assert (Hans : answered build config key registered) by by exists request, acc.
  assert (Hreq : aq_key request = key ∧ aq_only_existing request = registered)
    by (unfold Acme.account_request_of in Hrq; apply bind_ok in Hrq as (x & _ & [= <-]); done).
  destruct registered.
  { injection Hl as <- <-. split_and!; [exists true; split_and!; [by apply (load_key_retry _ _ _ pem)|by left|done]|done|].
    intros account [= <-]. exists request. naive_solver. }
  apply io_bind_inv in Hl as [([] & d2 & Hm & [= <- <-])|[(e & Hm & ->)|[Hm ->]]].
  - apply io_result_done in Hm as (pem' & Hp' & Hm).
    destruct (load_private_key_quiet (account_directory root (acme_id config)) config d2) as (d3 & Hq & _).
    assert (Hi := account_key_isolated _ _ config _ _ _ _ Hm). rewrite Hq in Hi. cbn [fst] in Hi. rewrite decide_True in Hi by done.
    split_and!; [exists true; split_and!; [apply (load_key_retry _ _ _ pem'); [done|by apply pem_roundtrip]|by right|done]|done|].
    intros account [= <-]. exists request. naive_solver.
  - split_and!; [|done|done]. rewrite io_result_bind in Hm. destruct (key_to_pem key) as [pem'|] eqn:Hp'.
    + destruct (mark_registered _ _ _ _ _ _ _ _ Hs Hm) as (pem'' & r' & Hs' & Hpem & Hr).
      exists r'. split_and!; [apply (load_key_retry _ _ _ pem''); [done|destruct Hpem as [->| ->]; [done|by apply pem_roundtrip]]| |done].
      destruct Hr; [by left|by right].
    + injection Hm as _ <-. exists false. split_and!; [by apply (load_key_retry _ _ _ pem)|by left|done].
  - split_and!; [|done|done]. rewrite io_result_bind in Hm. destruct (key_to_pem key) as [pem'|] eqn:Hp'; [|done].
    destruct (mark_registered _ _ _ _ _ _ _ _ Hs Hm) as (pem'' & r' & Hs' & Hpem & Hr).
    exists r'. split_and!; [apply (load_key_retry _ _ _ pem''); [done|destruct Hpem as [->| ->]; [done|by apply pem_roundtrip]]| |done].
    destruct Hr; [by left|by right].
Qed.
End account.

(** A certificate is only issued with its authorization complete, and it is
    on the disk before it is handed to the manager: the chain, the key and
    metadata that names the account, the domains and the expiry read from the
    chain.  Every record created for it has been given to the clean-up. *)
Theorem issued_is_stored {A : AcmeLib} {H : Host} {J : Json} {X : X509} {Key Account}
  key_from_pem key_to_pem generate_key decode_no_pad decode_pad hmac_key
  (e : issue_run (Key:=Key) Account) (request : IssuanceRequest) root d certificate cleaned d' :
  begin_issue key_from_pem key_to_pem generate_key decode_no_pad decode_pad hmac_key e request root d
    = (Done (Issued certificate, cleaned), d') →
  let config := ir_certificate request in
  let dir := certificate_directory root (cert_id config) in
  (∃ account_id, cert_validation config = Some (DnsAccount account_id)) ∧
  (∃ challenges records, collect_challenges (is_authorizations e) = Ok (challenges, records) ∧
     authorize_automatically (is_dns e) challenges records = (Some (Ok tt), cleaned)) ∧
  parse_certificate_expiry (issued_certificate_pem certificate) = Ok (issued_expires_at certificate) ∧
  files d' !! file_of dir "certificate.pem" = Some (issued_certificate_pem certificate) ∧
  files d' !! file_of dir "private-key.pem" = Some (issued_private_key_pem certificate) ∧
  ∃ json, files d' !! file_of dir "metadata-v2.json" = Some json ∧
    certificate_of_json json = Ok {| cm_acme_account_id := acme_account_id config; cm_domains := cert_domains config;
                                     cm_expires_at := issued_expires_at certificate |}.
Proof.
  unfold begin_issue. intros (account & d1 & _ & Hi)%io_done_bind. apply io_result_done in Hi as (order & _ & Hi).
  apply io_result_done in Hi as ([challenges records] & Hc & Hi).
  destruct (cert_validation (ir_certificate request)) as [[account_id|]|] eqn:Ev; [|done|done].
  apply io_result_done in Hi as (dns & _ & Hi). apply io_result_done in Hi as (client & _ & Hi).
  destruct (authorize_automatically (is_dns e) challenges records) as [result done] eqn:Ea.
  apply io_result_done in Hi as ([] & Hr & Hi). apply io_done_bind in Hi as (c & d2 & Hf & [= -> -> ->]).
  destruct result as [r|]; [|done]. cbn [default from_option id] in Hr. subst r.
  unfold finalize in Hf. apply io_result_done in Hf as (s1 & _ & Hf). apply io_result_done in Hf as (u1 & _ & Hf).
  apply io_result_done in Hf as (key & _ & Hf). apply io_result_done in Hf as (u2 & _ & Hf).
  apply io_result_done in Hf as ([s2 err] & _ & Hf). apply io_result_done in Hf as (u3 & _ & Hf).
  apply io_result_done in Hf as (chain & _ & Hf). apply io_result_done in Hf as (chain' & _ & Hf).
  apply io_result_done in Hf as (pem & _ & Hf). apply io_result_done in Hf as (key_pem & _ & Hf).
  apply io_done_bind in Hf as (expiry & d3 & Hs & [= <- ->]).
  cbn [issued_certificate_pem issued_private_key_pem issued_expires_at].
  split; [by exists account_id|]. split; [by exists challenges, records|].
  apply store_certificate_applied in Hs as [[_ Hn]|(e0 & He & [[_ Hn]|[[_ Hn]|(json & Hj & Ha & Heq)]])];
    [destruct Hn; eauto|destruct Hn; eauto|destruct Hn; eauto|].
  rewrite (Heq _ eq_refl) in *. split; [done|].
  assert (Hfile : ∀ n, contains_str ".tmp-" n = false → files d' !! file_of (certificate_directory root (cert_id (ir_certificate request))) n = put_all _ (files d1) !! _)
    by (intros n Hn; apply Ha; by apply file_of_plain).
  split; [|split; [|exists json; split; [|by apply certificate_json_roundtrip]]].
  - rewrite Hfile by done. unfold put_all. cbn [foldl fst snd]. rewrite !lookup_insert_ne by (by intros ?%file_of_inj). by rewrite lookup_insert_eq.
  - rewrite Hfile by done. unfold put_all. cbn [foldl fst snd]. rewrite lookup_insert_ne by (by intros ?%file_of_inj). by rewrite lookup_insert_eq.
  - rewrite Hfile by done. unfold put_all. cbn [foldl fst snd]. by rewrite lookup_insert_eq.
Qed.

(** ** Witnesses *)

Definition steady_clock (seen : N) : dns_clock :=
  {| dc_lag := λ _, 1; dc_visible := λ t, Some (Ok (seen <=? t)); dc_oversleep := λ _, 0; dc_slept := λ _, true |}.

Lemma propagation_wait_ends_witness :
  (∃ t, 0 <= t ∧ dc_visible (steady_clock 60) t = Some (Ok true)) ∧
  ∃ t, 0 <= t ∧ dc_visible (steady_clock 1000) t = Some (Ok false) ∧ 0 + DNS_PROPAGATION_TIMEOUT <= t + 1.
Proof.
  destruct (propagation_wait_ends (steady_clock 60) 0) as (r & Hr & Hok & _); [intros t e; discriminate|].
  destruct (propagation_wait_ends (steady_clock 1000) 0) as (r' & Hr' & _ & Hto); [intros t e; discriminate|].
  assert (Hw : wait_for_dns_records (steady_clock 60) 0 = Some (Ok tt)) by reflexivity.
  assert (Hw' : wait_for_dns_records (steady_clock 1000) 0 = Some (Err (PDns "等待 DNS TXT 记录传播超时"))) by reflexivity.
  rewrite Hw in Hr. rewrite Hw' in Hr'. injection Hr as <-. injection Hr' as <-.
  split; [exact (Hok eq_refl)|exact (Hto eq_refl)].
Defined.

Module Example.
Definition staging : AcmeAccountConfig := w_account.
Definition production : AcmeAccountConfig :=
  {| acme_id := "acme"; acme_name := "acme"; acme_provider := LetsEncrypt; acme_environment := Production; acme_email := "a@b";
     acme_key_algorithm := Ec256; eab_key_id := None; eab_hmac_key := None |}.
Definition meta (c : AcmeAccountConfig) (registered : bool) : AccountMetadata :=
  {| am_directory_url := directory_url c; am_key_algorithm := Ec256; am_registered := registered |}.

(** A codec of the metadata of the two accounts. *)
Definition documents : list (str * AccountMetadata) :=
  [(lit "s0", meta staging false); (lit "s1", meta staging true); (lit "p0", meta production false); (lit "p1", meta production true)].

#[local] Instance meta_eq_dec : EqDecision AccountMetadata.
Proof. solve_decision. Defined.

Definition write (a : AccountMetadata) : result str str :=
  ok_or (head (fst <$> filter (λ p, p.2 = a) documents)) (lit "?").
Definition read (s : str) : result str AccountMetadata :=
  ok_or (head (snd <$> filter (λ p, p.1 = s) documents)) (lit "?").

Lemma write_read a s : write a = Ok s → read s = Ok a.
Proof.
  unfold write, documents. cbn [filter list_filter]. repeat case_decide; cbn; intros; simplify_eq; reflexivity.
Qed.

Definition json : Json.
Proof.
  refine {| account_to_json := write; account_of_json := read;
            certificate_to_json := λ m, if decide (cm_expires_at m = 100 ∧ cm_acme_account_id m = lit "acme" ∧ cm_domains m = [lit "a.b"]) then Ok (lit "c") else Err (lit "?");
            certificate_of_json := λ s, if decide (s = lit "c") then Ok {| cm_expires_at := 100; cm_acme_account_id := "acme"; cm_domains := [lit "a.b"] |} else Err (lit "?");
            legacy_of_json := λ _, Err (lit "?") |}.
  - apply write_read.
  - intros [a ds e] s. cbn. case_decide as Hd; [|done]. destruct Hd as (-> & -> & ->). intros [= <-]. by rewrite decide_True.
Defined.

Definition lib : AcmeLib := {| Order := unit; Challenge := N |}.
Definition dir : Path := account_directory [Normal "cache"] "acme".
Definition empty_disk : disk := {| files := ∅; calls := 0; temporary_file_id := 0 |}.
Definition to_pem (k : str) : PResult str := Ok k.
Definition build (r : account_request (Key:=str)) : wait (PResult unit) := WDone (Ok tt).
Definition no_decode (s : str) : option str := None.
End Example.

(** A CA that does not answer in time, and one that does: the key of the first
    attempt is not marked, that of the second is. *)
Definition late (r : account_request (Key:=str)) : wait (PResult unit) := WTimedOut.
Definition attempt (build : account_request (Key:=str) → wait (PResult unit)) : outcome ProxyError unit * disk :=
  load_account (H:=quiet) (J:=Example.json) Ok Example.to_pem (λ _, Ok (lit "KEY")) Example.no_decode Example.no_decode Ok
    (Some (Ok tt)) (WDone (Ok tt)) build Example.staging [Normal "cache"] Example.empty_disk.
Definition retried (d : disk) : outcome ProxyError (str * bool) :=
  (load_key (H:=quiet) (J:=Example.json) Ok Example.to_pem (λ _, Ok (lit "KEY")) Example.staging [Normal "cache"] d).1.

Lemma account_key_stored_first_witness :
  retried (attempt late).2 = Done (lit "KEY", false) ∧ retried (attempt Example.build).2 = Done (lit "KEY", true).
Proof.
  set (first := load_key (H:=quiet) (J:=Example.json) Ok Example.to_pem (λ _, Ok (lit "KEY")) Example.staging [Normal "cache"] Example.empty_disk).
  assert (Hkey : first.1 = Done (lit "KEY", false)) by reflexivity.
  assert (Hfirst : first = (Done (lit "KEY", false), first.2)) by (rewrite <- Hkey; apply surjective_pairing).
  split.
  - destruct (account_key_stored_first (H:=quiet) (J:=Example.json) Ok Example.to_pem (λ _, Ok (lit "KEY")) Example.no_decode Example.no_decode Ok
      (λ k pem Hk, eq_sym Hk) (WDone (Ok tt)) late Example.staging [Normal "cache"] Example.empty_disk _ _ _ Hfirst)
      as (_ & (r & Hr & [->|[_ (request & account & _ & [=])]] & _) & _). exact Hr.
  - destruct (account_key_stored_first (H:=quiet) (J:=Example.json) Ok Example.to_pem (λ _, Ok (lit "KEY")) Example.no_decode Example.no_decode Ok
      (λ k pem Hk, eq_sym Hk) (WDone (Ok tt)) Example.build Example.staging [Normal "cache"] Example.empty_disk _ _ _ Hfirst)
      as (_ & (r & Hr & _ & Hd) & _). rewrite (Hd tt eq_refl) in Hr. exact Hr.
Defined.

(** An account whose directory is changed and whose new key is written without
    its metadata (the process stops in between): the metadata of the old
    directory now vouches for a key that was never registered there. *)
Theorem torn_account_store :
  let torn : Host := {| process_id := 1; sys := λ n, if (n <? 15)%nat then SysOk else SysCrash false; partial := λ _, None |} in
  let d1 := (store_private_key (H:=torn) (J:=Example.json) Example.dir Example.staging "OLD" true Example.empty_disk).2 in
  let r := store_private_key (H:=torn) (J:=Example.json) Example.dir Example.production "NEW" false d1 in
  r.1 = Crashed ∧
  (load_private_key (H:=quiet) (J:=Example.json) Example.dir Example.staging r.2).1 = Done (Some (lit "NEW", true)) ∧
  (account_request_of Example.no_decode Example.no_decode Ok Example.staging (lit "NEW") true : PResult (account_request (Key:=str)))
    = Ok {| aq_key := lit "NEW"; aq_contact := "mailto:a@b"; aq_only_existing := true; aq_external := None |}.
Proof. split_and!; reflexivity. Qed.

Module Issue.
Definition request : IssuanceRequest :=
  {| ir_certificate := {| cert_id := "c"; cert_name := "c"; cert_domains := [lit "a.b"]; acme_account_id := "acme";
       cert_validation := Some (DnsAccount "dns"); auto_renew := true; migration_error := None |};
     ir_account := Example.staging;
     ir_dns_account := Some {| dns_id := "dns"; dns_name := "dns"; dns_provider := Cloudflare;
       api_token := Some {| expose := "token" |}; access_key := None; secret_key := None |};
     ir_account_gate := 0; ir_dns_gate := None |}.
Definition run : issue_run (A:=Example.lib) (Key:=str) unit :=
  {| is_permit := Some (Ok tt); is_directory := WDone (Ok tt); is_build := Example.build;
     is_order := WDone (Ok (tt : @Order Example.lib));
     is_authorizations := WDone (Ok [{| au_identifier := "*.a.b"; au_status := AuthPending;
                                        au_dns01 := Some (7 : @Challenge Example.lib, Ok (Some (lit "token"))) |};
                                     {| au_identifier := "a.b"; au_status := AuthValid; au_dns01 := None |}]);
     is_client := Ok tt;
     is_dns := {| dr_create := λ r, WDone (Ok (UnifiedHandle "zone" (record_name r))); dr_clock := steady_clock 10; dr_now := 0;
                  dr_challenges := λ _, {| ch_validate := WDone (Ok tt); ch_done := WDone (Ok (Ok tt)) |} |};
     is_final := {| or_ready := WDone (Ok OReady); or_finalize := λ _, WDone (Ok tt); or_done := WDone (Ok (OValid, []));
                    or_certificate := WDone (Ok (Some [Ok (lit "CERT")])) |} |}.
Definition outcome : outcome ProxyError (IssueResult * list DnsRecordHandle) * disk :=
  begin_issue (H:=quiet) (J:=Example.json) (X:=w_x509) Ok Example.to_pem (λ _, Ok (lit "KEY")) Example.no_decode Example.no_decode Ok
    run request [Normal "cache"] Example.empty_disk.
Definition certificate : IssuedCertificate :=
  {| issued_certificate_pem := "CERT"; issued_private_key_pem := "KEY"; issued_expires_at := 100 |}.
End Issue.

Lemma issued_is_stored_witness :
  Issue.outcome.1 = Done (Issued Issue.certificate, [UnifiedHandle "zone" "_acme-challenge.a.b"]) ∧
  files Issue.outcome.2 !! file_of (certificate_directory [Normal "cache"] "c") "private-key.pem" = Some (lit "KEY").
Proof.
  assert (Hrun : Issue.outcome.1 = Done (Issued Issue.certificate, [UnifiedHandle "zone" "_acme-challenge.a.b"])) by reflexivity.
  split; [exact Hrun|].
  apply (issued_is_stored (H:=quiet) (J:=Example.json) (X:=w_x509) Ok Example.to_pem (λ _, Ok (lit "KEY")) Example.no_decode
    Example.no_decode Ok Issue.run Issue.request [Normal "cache"] Example.empty_disk Issue.certificate
    [UnifiedHandle "zone" "_acme-challenge.a.b"] Issue.outcome.2).
  rewrite <- Hrun. apply surjective_pairing.
Defined.

(** Two challenges of a wildcard certificate share their name, a third is of
    another name; the creation of the third is late, but the provider carries
    it out, and the deletion of the first is lost. *)
Definition shared_record (v : str) : ManualDnsRecord := {| record_name := "_acme-challenge.example.org"; record_value := v |}.
Definition third_record : ManualDnsRecord := {| record_name := "_acme-challenge.www.example.org"; record_value := "three" |}.
Definition godaddy_domains : PResult (list str) := Ok [lit "example.org"].
Definition godaddy_run : dns_run (A := Example.lib) :=
  {| dr_create := λ r, if bool_decide (record_value r = lit "three") then WTimedOut
                       else WDone (snd <$> godaddy_create_txt godaddy_domains (record_name r) (record_value r));
     dr_clock := steady_clock 1000; dr_now := 0;
     dr_challenges := λ _, {| ch_validate := WCancelled; ch_done := WCancelled |} |}.
Definition godaddy_records : list ManualDnsRecord := [shared_record "one"; shared_record "two"; third_record].

Lemma authorization_cleans_up_witness :
  (authorize_automatically godaddy_run [] godaddy_records).2
    = [GoDaddyHandle "example.org" "_acme-challenge" "one"; GoDaddyHandle "example.org" "_acme-challenge" "two"] ∧
  ∃ err, (authorize_automatically godaddy_run [] godaddy_records).1 = Some (Err err).
Proof.
  assert (Hspec := authorization_cleans_up godaddy_run [] godaddy_records).
  destruct (authorize_automatically godaddy_run [] godaddy_records) as [result cleaned].
  destruct Hspec as ([r Hr] & (done & rest & Hrec & Hf & Hrest) & Hok & _). cbn [fst snd].
  assert (Hno : ∀ h, ¬ succeeded (dr_create godaddy_run third_record) h) by (intros h [=]).
  assert (Hdone : done = [shared_record "one"; shared_record "two"]).
  { destruct done as [|r1 done]; cbn in Hrec.
    { destruct (Hrest _ _ (eq_sym Hrec) (GoDaddyHandle "example.org" "_acme-challenge" "one")). reflexivity. }
    injection Hrec as <- Hrec. destruct done as [|r2 done]; cbn in Hrec.
    { destruct (Hrest _ _ (eq_sym Hrec) (GoDaddyHandle "example.org" "_acme-challenge" "two")). reflexivity. }
    injection Hrec as <- Hrec. destruct done as [|r3 done]; [reflexivity|]. injection Hrec as <- Hrec.
    apply Forall2_cons_inv_l in Hf as (h1 & l1 & _ & Hf & ->). apply Forall2_cons_inv_l in Hf as (h2 & l2 & _ & Hf & ->).
    apply Forall2_cons_inv_l in Hf as (h3 & l3 & H3 & _). by apply Hno in H3. }
  subst done. apply Forall2_cons_inv_l in Hf as (h1 & l1 & H1 & Hf & ->). apply Forall2_cons_inv_l in Hf as (h2 & l2 & H2 & Hf & ->).
  apply Forall2_nil_inv_l in Hf as ->. injection H1 as <-. injection H2 as <-. split; [reflexivity|].
  destruct r as [[]|err]; [|by exists err]. destruct (proj1 Hok Hr) as ([=] & _).
Defined.

