(* ===== verification/Instance.v ===== *)
(** * Instance: one client per user, [src-tauri/src/instance.rs]

    Processes of the desktop client agree through three files: a lock the
    running one holds, a lock of the candidates, and a request.  [acquire_in]
    and the monitor of the running process are program counters; a step is one
    operation on the files, so that the steps of several processes interleave. *)

From S2P Require Import Prelude RustStr Net Paths.

Definition TAKEOVER_TIMEOUT : N := 10000.
Definition POLL_INTERVAL : N := 50.

(** ** Requests *)

Definition is_ascii_hexdigit (c : ascii) : bool := is_ascii_digit c || in_range c 65 70 || in_range c 97 102.
Definition is_build_id (value : str) : bool := (length value =? 64)%nat && forallb is_ascii_hexdigit value.

Inductive RequestAction := Focus | Replace (next_build_id : str).

(** [file]: what reading the request gives. *)
Definition read_request (file : result ErrorKind str) (current : str) : result ErrorKind (option RequestAction) :=
  match file with
  | Err NotFound => Ok None
  | Err e => Err e
  | Ok request =>
      let build_id := trim request in
      if negb (is_build_id build_id) then Err (OtherKind "客户端实例请求中的构建标识无效") else
      Ok (Some (if bool_decide (build_id = current) then Focus else Replace build_id))
  end.

(** ** Waiting for a lock *)

(** [lock_until]: [busy] says at which times the lock is held by another; a
    pause takes at least the interval. *)
Fixpoint lock_until (busy : N → bool) (lag : N → N) (fuel : nat) (deadline now : N) : option (result str N) :=
  match fuel with
  | O => None
  | S fuel =>
      if negb (busy now) then Some (Ok now) else
      if deadline <=? now then Some (Err (lit "等待客户端实例请求锁超时")) else
      lock_until busy lag fuel deadline (now + POLL_INTERVAL + lag now)
  end.

(** ** Processes *)

(** Where a process is.  A candidate: before its first attempt; waiting for
    the lock of the candidates; before its second attempt; removing an older
    request; writing its own; the three tests of the loop.  [Cleaning] and
    [CleaningFirst] hold the instance and remove the request; the latter does
    not hold the lock of the candidates.  A running process is idle or handles
    a request it has read.  A process that was killed, or whose [acquire_in]
    returned an I/O error, is [Died], and the flag says whether its request had
    been written and not withdrawn. *)
Inductive pc :=
  | Starting
  | WaitingLock
  | SecondAttempt
  | RemovingOld
  | Writing
  | LoopLock
  | LoopExists
  | LoopDeadline
  | GivingUp
  | CleaningFirst
  | Cleaning
  | Serving
  | Focused
  | Exiting
  | ExitedExisting
  | ExitedTimeout
  | Gone
  | Died (asking : bool).

#[global] Instance pc_eq_dec : EqDecision pc.
Proof. solve_decision. Defined.

Record world := {
  instance_lock : option nat;
  request_lock : option nat;
  request : option str;
  procs : gmap nat (str * pc) }.

Definition no_process : world := {| instance_lock := None; request_lock := None; request := None; procs := ∅ |}.

(** The state in which process [p] of build [b] moves on. *)
Definition moved (w : world) (il rl : option nat) (rq : option str) (p : nat) (b : str) (c : pc) : world :=
  {| instance_lock := il; request_lock := rl; request := rq; procs := <[p := (b, c)]> (procs w) |}.

Definition holds_instance (c : pc) : bool :=
  match c with CleaningFirst | Cleaning | Serving | Focused | Exiting => true | _ => false end.
Definition holds_request (c : pc) : bool :=
  match c with SecondAttempt | RemovingOld | Writing | LoopLock | LoopExists | LoopDeadline | GivingUp | Cleaning => true | _ => false end.
(** A candidate whose request has been written and not withdrawn by itself. *)
Definition requested (c : pc) : bool :=
  match c with LoopLock | LoopExists | LoopDeadline | GivingUp | Cleaning => true | _ => false end.
(** The process exists. *)
Definition alive (c : pc) : bool :=
  match c with ExitedExisting | ExitedTimeout | Gone | Died _ => false | _ => true end.

(** The locks a process holds are released when it returns or exits. *)
Definition release (l : option nat) (p : nat) : option nat := if bool_decide (l = Some p) then None else l.

Inductive step (w : world) : world → Prop :=
  | step_launch p b : procs w !! p = None → is_build_id b = true →
      step w (moved w (instance_lock w) (request_lock w) (request w) p b Starting)
  (* acquire_in *)
  | step_first p b : procs w !! p = Some (b, Starting) → instance_lock w = None →
      step w (moved w (Some p) (request_lock w) (request w) p b CleaningFirst)
  | step_first_busy p b : procs w !! p = Some (b, Starting) → instance_lock w ≠ None →
      step w (moved w (instance_lock w) (request_lock w) (request w) p b WaitingLock)
  | step_cleaned_first p b : procs w !! p = Some (b, CleaningFirst) →
      step w (moved w (instance_lock w) (request_lock w) None p b Serving)
  | step_locked p b : procs w !! p = Some (b, WaitingLock) → request_lock w = None →
      step w (moved w (instance_lock w) (Some p) (request w) p b SecondAttempt)
  | step_lock_timeout p b : procs w !! p = Some (b, WaitingLock) →
      step w (moved w (instance_lock w) (request_lock w) (request w) p b ExitedTimeout)
  | step_second p b : procs w !! p = Some (b, SecondAttempt) → instance_lock w = None →
      step w (moved w (Some p) (request_lock w) (request w) p b Cleaning)
  | step_second_busy p b : procs w !! p = Some (b, SecondAttempt) → instance_lock w ≠ None →
      step w (moved w (instance_lock w) (request_lock w) (request w) p b RemovingOld)
  | step_remove_old p b : procs w !! p = Some (b, RemovingOld) →
      step w (moved w (instance_lock w) (request_lock w) None p b Writing)
  | step_write p b : procs w !! p = Some (b, Writing) →
      step w (moved w (instance_lock w) (request_lock w) (Some b) p b LoopLock)
  | step_loop_lock p b : procs w !! p = Some (b, LoopLock) → instance_lock w = None →
      step w (moved w (Some p) (request_lock w) (request w) p b Cleaning)
  | step_loop_busy p b : procs w !! p = Some (b, LoopLock) → instance_lock w ≠ None →
      step w (moved w (instance_lock w) (request_lock w) (request w) p b LoopExists)
  | step_acknowledged p b : procs w !! p = Some (b, LoopExists) → request w = None →
      step w (moved w (instance_lock w) (release (request_lock w) p) (request w) p b ExitedExisting)
  | step_pending p b : procs w !! p = Some (b, LoopExists) → request w ≠ None →
      step w (moved w (instance_lock w) (request_lock w) (request w) p b LoopDeadline)
  | step_sleep p b : procs w !! p = Some (b, LoopDeadline) →
      step w (moved w (instance_lock w) (request_lock w) (request w) p b LoopLock)
  | step_deadline p b : procs w !! p = Some (b, LoopDeadline) →
      step w (moved w (instance_lock w) (request_lock w) (request w) p b GivingUp)
  | step_give_up p b : procs w !! p = Some (b, GivingUp) →
      step w (moved w (instance_lock w) (release (request_lock w) p) None p b ExitedTimeout)
  | step_cleaned p b : procs w !! p = Some (b, Cleaning) →
      step w (moved w (instance_lock w) (release (request_lock w) p) None p b Serving)
  (* process_request *)
  | step_focus p b r : procs w !! p = Some (b, Serving) → request w = Some r → read_request (Ok r) b = Ok (Some Focus) →
      step w (moved w (instance_lock w) (request_lock w) (request w) p b Focused)
  | step_confirm p b : procs w !! p = Some (b, Focused) →
      step w (moved w (instance_lock w) (request_lock w) None p b Serving)
  | step_replace p b r n : procs w !! p = Some (b, Serving) → request w = Some r → read_request (Ok r) b = Ok (Some (Replace n)) →
      step w (moved w (instance_lock w) (request_lock w) (request w) p b Exiting)
  (* the end of a running process, asked for or not *)
  | step_quit p b : procs w !! p = Some (b, Serving) →
      step w (moved w (instance_lock w) (request_lock w) (request w) p b Exiting)
  | step_exit p b : procs w !! p = Some (b, Exiting) →
      step w (moved w (release (instance_lock w) p) (release (request_lock w) p) (request w) p b Gone)
  (* confirming fails, and is only logged *)
  | step_not_confirmed p b : procs w !! p = Some (b, Focused) →
      step w (moved w (instance_lock w) (request_lock w) (request w) p b Serving)
  (* the request cannot be read: it is removed, if that does not fail too *)
  | step_unreadable p b rq : procs w !! p = Some (b, Serving) → rq = None ∨ rq = request w →
      step w (moved w (instance_lock w) (request_lock w) rq p b Serving)
  (* a process is killed at any time, or an I/O error ends its [acquire_in]:
     the system releases its locks, its request stays *)
  | step_died p b c : procs w !! p = Some (b, c) → alive c = true →
      step w (moved w (release (instance_lock w) p) (release (request_lock w) p) (request w) p b (Died (requested c))).

(** ** Invariants *)

(** A request of such a candidate, dead or alive, may be in the file. *)
Definition asks (c : pc) : bool := match c with Died asking => asking | _ => requested c end.

Record agreed (w : world) : Prop := {
  ag_instance : ∀ p, instance_lock w = Some p ↔ ∃ b c, procs w !! p = Some (b, c) ∧ holds_instance c = true;
  ag_request : ∀ p, request_lock w = Some p ↔ ∃ b c, procs w !! p = Some (b, c) ∧ holds_request c = true;
  ag_file : ∀ r, request w = Some r →
    ∃ p c, procs w !! p = Some (r, c) ∧ asks c = true;
  ag_build : ∀ p b c, procs w !! p = Some (b, c) → is_build_id b = true }.

(** ** Lemmas *)

Lemma release_eq l p q : release l p = Some q ↔ l = Some q ∧ q ≠ p.
Proof. unfold release. case_bool_decide as Hl; [subst; naive_solver|naive_solver]. Qed.

(** A lock is held exactly by the processes where [holds] says so: kept by a
    step of [p] that changes the lock accordingly. *)
Definition locked_by (holds : pc → bool) (l : option nat) (procs : gmap nat (str * pc)) : Prop :=
  ∀ q, l = Some q ↔ ∃ b c, procs !! q = Some (b, c) ∧ holds c = true.

Section locks.
Context (holds : pc → bool).
Implicit Types (m : gmap nat (str * pc)) (l : option nat).

Lemma locked_others l m p b c : locked_by holds l m →
  ∀ q, q ≠ p → l = Some q ↔ ∃ b' c', <[p := (b, c)]> m !! q = Some (b', c') ∧ holds c' = true.
Proof. intros Hl q Hq. rewrite (Hl q). by setoid_rewrite (lookup_insert_ne m p q (b, c) (not_eq_sym Hq)). Qed.

(** The process keeps the lock, or stays without it. *)
Lemma locked_same l m p b c c' : locked_by holds l m →
  m !! p = Some (b, c) → holds c' = holds c → locked_by holds l (<[p := (b, c')]> m).
Proof.
  intros Hl Hp Hh q. destruct (decide (q = p)) as [->|Hq]; [|by eapply locked_others].
  rewrite (Hl p), lookup_insert_eq, Hp. split; intros (b' & c'' & [= <- <-] & Hb); [exists b, c'|exists b, c]; split; congruence.
Qed.

Lemma locked_new l m p b c : locked_by holds l m → m !! p = None → holds c = false → locked_by holds l (<[p := (b, c)]> m).
Proof.
  intros Hl Hp Hh q. destruct (decide (q = p)) as [->|Hq]; [|by eapply locked_others].
  rewrite (Hl p), lookup_insert_eq, Hp. split; [by intros (? & ? & ? & _)|]. intros (b' & c' & [= <- <-] & Hc). congruence.
Qed.

Lemma locked_taken m p b c : locked_by holds None m → holds c = true → locked_by holds (Some p) (<[p := (b, c)]> m).
Proof.
  intros Hl Hh q. destruct (decide (q = p)) as [->|Hq].
  - rewrite lookup_insert_eq. split; [eauto|done].
  - rewrite <- (locked_others None m p b c Hl q Hq). split; [by intros [=]|done].
Qed.

Lemma locked_released l m p b c : locked_by holds l m → holds c = false → locked_by holds (release l p) (<[p := (b, c)]> m).
Proof.
  intros Hl Hh q. rewrite release_eq. destruct (decide (q = p)) as [->|Hq].
  - rewrite lookup_insert_eq. split; [by intros [_ ?]|]. intros (b' & c' & [= <- <-] & Hc). congruence.
  - rewrite (locked_others l m p b c Hl q Hq). naive_solver.
Qed.
End locks.

Lemma agreed_locks w : agreed w → locked_by holds_instance (instance_lock w) (procs w) ∧ locked_by holds_request (request_lock w) (procs w).
Proof. intros Hw. split; [exact (ag_instance w Hw)|exact (ag_request w Hw)]. Qed.

(** The file after a step: unchanged while its writer still waits, or written,
    or removed. *)
Lemma file_kept w p b c c' r : agreed w → procs w !! p = Some (b, c) → (asks c = true → asks c' = true) →
  request w = Some r → ∃ q c'', <[p := (b, c')]> (procs w) !! q = Some (r, c'') ∧ asks c'' = true.
Proof.
  intros Hw Hp Hc Hr. destruct (ag_file w Hw r Hr) as (q & cq & Hq & Hcq). destruct (decide (p = q)) as [->|Hpq].
  - exists q, c'. rewrite lookup_insert_eq. split; [congruence|]. apply Hc. congruence.
  - exists q, cq. by rewrite lookup_insert_ne.
Qed.

Lemma build_kept w p b c c' : agreed w → procs w !! p = Some (b, c) →
  ∀ q bq cq, <[p := (b, c')]> (procs w) !! q = Some (bq, cq) → is_build_id bq = true.
Proof.
  intros Hw Hp q bq cq. destruct (decide (p = q)) as [->|Hpq].
  - rewrite lookup_insert_eq. intros [= <- <-]. by eapply (ag_build w Hw).
  - rewrite lookup_insert_ne by done. apply (ag_build w Hw).
Qed.

(** A step of a process that exists. *)
Lemma agreed_moved w il rl rq p b c c' : agreed w → procs w !! p = Some (b, c) →
  locked_by holds_instance il (<[p := (b, c')]> (procs w)) →
  locked_by holds_request rl (<[p := (b, c')]> (procs w)) →
  (rq = None ∨ rq = request w ∧ (asks c = true → asks c' = true) ∨ rq = Some b ∧ asks c' = true) →
  agreed (moved w il rl rq p b c').
Proof.
  intros Hw Hp Hi Hr Hf. split; cbn; [done|done| |by eapply build_kept].
  intros r Hrq. destruct Hf as [->|[[-> Hc]|[-> Hc]]]; [done|by eapply file_kept|].
  injection Hrq as <-. exists p, c'. by rewrite lookup_insert_eq.
Qed.

Ltac same_lock := eapply locked_same; [eassumption|eassumption|reflexivity].

Lemma agreed_step w w' : agreed w → step w w' → agreed w'.
Proof.
  intros Hw Hs. destruct (agreed_locks w Hw) as [Hi Hr].
  destruct Hs as [p b Hp Hb|p b Hp Hl|p b Hp Hl|p b Hp|p b Hp Hl|p b Hp|p b Hp Hl|p b Hp Hl|p b Hp|p b Hp|p b Hp Hl|p b Hp Hl|p b Hp Hq|p b Hp Hq|p b Hp|p b Hp|p b Hp|p b Hp|p b r Hp Hq Hrd|p b Hp|p b r n Hp Hq Hrd|p b Hp|p b Hp|p b Hp|p b rq Hp Hrq|p b c Hp Hc].
  - split; cbn; [by apply locked_new|by apply locked_new| |].
    + intros r Hrq. destruct (ag_file w Hw r Hrq) as (q & c & Hq & Hc). exists q, c. rewrite lookup_insert_ne; [done|]. intros ->. congruence.
    + intros q bq cq. destruct (decide (p = q)) as [->|]; [rewrite lookup_insert_eq; by intros [= <- <-]|].
      rewrite lookup_insert_ne by done. apply (ag_build w Hw).
  - rewrite Hl in Hi. eapply agreed_moved; [done|done|by apply locked_taken|same_lock|by right; left].
  - eapply agreed_moved; [done|done|same_lock|same_lock|by right; left].
  - eapply agreed_moved; [done|done|same_lock|same_lock|by left].
  - rewrite Hl in Hr. eapply agreed_moved; [done|done|same_lock|by apply locked_taken|by right; left].
  - eapply agreed_moved; [done|done|same_lock|same_lock|by right; left].
  - rewrite Hl in Hi. eapply agreed_moved; [done|done|by apply locked_taken|same_lock|by right; left].
  - eapply agreed_moved; [done|done|same_lock|same_lock|by right; left].
  - eapply agreed_moved; [done|done|same_lock|same_lock|by left].
  - eapply agreed_moved; [done|done|same_lock|same_lock|by right; right].
  - rewrite Hl in Hi. eapply agreed_moved; [done|done|by apply locked_taken|same_lock|by right; left].
  - eapply agreed_moved; [done|done|same_lock|same_lock|by right; left].
  - eapply agreed_moved; [done|done|same_lock|by apply locked_released|by left].
  - eapply agreed_moved; [done|done|same_lock|same_lock|by right; left].
  - eapply agreed_moved; [done|done|same_lock|same_lock|by right; left].
  - eapply agreed_moved; [done|done|same_lock|same_lock|by right; left].
  - eapply agreed_moved; [done|done|same_lock|by apply locked_released|by left].
  - eapply agreed_moved; [done|done|same_lock|by apply locked_released|by left].
  - eapply agreed_moved; [done|done|same_lock|same_lock|by right; left].
  - eapply agreed_moved; [done|done|same_lock|same_lock|by left].
  - eapply agreed_moved; [done|done|same_lock|same_lock|by right; left].
  - eapply agreed_moved; [done|done|same_lock|same_lock|by right; left].
  - eapply agreed_moved; [done|done|by apply locked_released|by apply locked_released|by right; left].
  - eapply agreed_moved; [done|done|same_lock|same_lock|by right; left].
  - eapply agreed_moved; [done|done|same_lock|same_lock|]. destruct Hrq as [->| ->]; [by left|by right; left].
  - eapply agreed_moved; [done|done|by apply locked_released|by apply locked_released|right; left].
    split; [done|]. by destruct c.
Qed.

Lemma agreed_reachable w : rtc step no_process w → agreed w.
Proof.
  intros Hr. assert (Hi : ∀ u v, rtc step u v → agreed u → agreed v).
  { intros u v Huv. induction Huv; [done|]. eauto using agreed_step. }
  eapply Hi; [exact Hr|]. split; cbn; try done; intros p; split; [done|by intros (? & ? & ? & _)|done|by intros (? & ? & ? & _)].
Qed.

(** What is written is read back. *)
Lemma read_written r current : is_build_id r = true →
  read_request (Ok r) current = Ok (Some (if bool_decide (r = current) then Focus else Replace r)).
Proof.
  intros Hr. unfold read_request. assert (Ht : trim r = r); [|by rewrite Ht, Hr].
  apply trim_graphic. unfold is_build_id in Hr. apply andb_true_iff in Hr as [_ Hr]. apply forallb_Forall in Hr.
  eapply Forall_impl; [exact Hr|]. intros c Hc. cbn in Hc. unfold is_ascii_hexdigit, is_ascii_digit, in_range in *.
  rewrite !orb_true_iff, !andb_true_iff, !N.leb_le in Hc. rewrite andb_true_iff, !N.leb_le. lia.
Qed.

(** ** Theorems *)

(** C14: at most one client runs, also when processes are killed or fail at any
    point: in every state at most one process holds the instance and at most
    one candidate talks to it, and both are alive.  A request that is there is
    that of a candidate still waiting, or was left by one that died while it
    waited; and the running process does with it what the builds say: it comes
    to the front for its own build and makes room for another one. *)
Theorem one_client_per_user w :
  rtc step no_process w →
  (∀ p q b c b' c', procs w !! p = Some (b, c) → holds_instance c = true →
     procs w !! q = Some (b', c') → holds_instance c' = true → p = q) ∧
  (∀ p q b c b' c', procs w !! p = Some (b, c) → holds_request c = true →
     procs w !! q = Some (b', c') → holds_request c' = true → p = q) ∧
  (∀ p, instance_lock w = Some p ∨ request_lock w = Some p → ∃ b c, procs w !! p = Some (b, c) ∧ alive c = true) ∧
  ∀ r, request w = Some r →
    (∃ p c, procs w !! p = Some (r, c) ∧ (requested c = true ∨ c = Died true)) ∧
    ∀ current, read_request (Ok r) current = Ok (Some (if bool_decide (r = current) then Focus else Replace r)).
Proof.
  intros Hw%agreed_reachable. split_and!.
  - intros p q b c b' c' Hp Hc Hq Hc'. assert (H1 : instance_lock w = Some p) by (apply (ag_instance w Hw); eauto).
    assert (H2 : instance_lock w = Some q) by (apply (ag_instance w Hw); eauto). congruence.
  - intros p q b c b' c' Hp Hc Hq Hc'. assert (H1 : request_lock w = Some p) by (apply (ag_request w Hw); eauto).
    assert (H2 : request_lock w = Some q) by (apply (ag_request w Hw); eauto). congruence.
  - intros p [(b & c & Hp & Hc)%(ag_instance w Hw)|(b & c & Hp & Hc)%(ag_request w Hw)]; exists b, c; (split; [done|]); by destruct c.
  - intros r Hr. destruct (ag_file w Hw r Hr) as (p & c & Hp & Hc). split.
    { exists p, c. split; [done|]. destruct c; auto. cbn in Hc. subst. by right. }
    intros current. apply read_written. by eapply (ag_build w Hw).
Qed.

Lemma lock_until_ends busy lag fuel : ∀ deadline now,
  deadline <= now + POLL_INTERVAL * N.of_nat fuel →
  ∃ r, lock_until busy lag (S fuel) deadline now = Some r ∧
    match r with
    | Ok t => now <= t ∧ busy t = false
    | Err _ => ∃ t, deadline <= t ∧ busy t = true
    end.
Proof.
  induction fuel as [|fuel IH]; intros deadline now Hd; cbn [lock_until].
  all: destruct (busy now) eqn:Eb; cbn [negb]; [|exists (Ok now); split; [done|split; [lia|done]]].
  all: destruct (deadline <=? now) eqn:El; [apply N.leb_le in El; eexists; split; [reflexivity|by exists now]|apply N.leb_gt in El].
  - exfalso. lia.
  - destruct (IH deadline (now + POLL_INTERVAL + lag now)) as (r & Hr & Hs); [unfold POLL_INTERVAL in *; lia|].
    exists r. split; [exact Hr|]. destruct r as [t|e]; [|done]. destruct Hs as [Ht Hs]. split; [lia|done].
Qed.

(** Waiting for the other candidates ends: within the takeover timeout, after
    at most two hundred and one attempts, with the lock at a time it is free
    or, at the deadline, without it. *)
Theorem candidate_wait_ends busy lag now :
  ∃ r, lock_until busy lag 201 (now + TAKEOVER_TIMEOUT) now = Some r ∧
    match r with
    | Ok t => now <= t ∧ busy t = false
    | Err _ => ∃ t, now + TAKEOVER_TIMEOUT <= t ∧ busy t = true
    end.
Proof. apply (lock_until_ends busy lag 200). unfold TAKEOVER_TIMEOUT, POLL_INTERVAL. lia. Qed.

Definition build_a : str := replicate 64 "a"%char.
Definition build_b : str := replicate 64 "b"%char.
Definition build_c : str := replicate 64 "c"%char.

(** One step of process [p] of build [b]. *)
Ltac go s p b := eapply rtc_l; [eapply (s _ p b); first [reflexivity | discriminate]|].

(** A client of build A runs and one of build B has asked for its place. *)
Definition asked : world :=
  {| instance_lock := Some 0%nat; request_lock := Some 1%nat; request := Some build_b;
     procs := <[1%nat := (build_b, LoopExists)]> {[0%nat := (build_a, Serving)]} |}.

Lemma takeover_run : rtc step no_process asked.
Proof.
  go step_launch 0%nat build_a. go step_first 0%nat build_a. go step_cleaned_first 0%nat build_a.
  go step_launch 1%nat build_b. go step_first_busy 1%nat build_b. go step_locked 1%nat build_b.
  go step_second_busy 1%nat build_b. go step_remove_old 1%nat build_b. go step_write 1%nat build_b.
  go step_loop_busy 1%nat build_b. apply rtc_refl.
Qed.

Lemma one_client_per_user_witness :
  read_request (Ok build_b) build_a = Ok (Some (Replace build_b)) ∧
  ∀ q b c, procs asked !! q = Some (b, c) → holds_instance c = true → q = 0%nat.
Proof.
  destruct (one_client_per_user asked takeover_run) as (Hone & _ & _ & Hreq). destruct (Hreq build_b eq_refl) as [_ Hread]. split.
  - exact (Hread build_a).
  - intros q b c Hq Hc. exact (Hone q 0%nat b c build_a Serving Hq Hc eq_refl eq_refl).
Defined.

(** A candidate may take the start of a third client for an answer to its
    request: the first attempt of [acquire_in] removes the request without
    holding the lock of the candidates, so a new build exits as if an instance
    of its own build had come to the front. *)
Theorem mistaken_acknowledgement : ∃ w, rtc step no_process w ∧
  procs w !! 1%nat = Some (build_b, ExitedExisting) ∧
  (∀ p b c, procs w !! p = Some (b, c) → holds_instance c = true → b = build_c) ∧ build_c ≠ build_b.
Proof.
  eexists. split.
  - etrans; [exact takeover_run|].
    go step_quit 0%nat build_a. go step_exit 0%nat build_a. go step_launch 2%nat build_c.
    go step_first 2%nat build_c. go step_cleaned_first 2%nat build_c. go step_acknowledged 1%nat build_b. apply rtc_refl.
  - split; [reflexivity|]. split; [|discriminate]. intros p b c Hp Hc.
    destruct p as [|[|[|p]]]; [vm_compute in Hp; by simplify_eq..|]. cbn [procs moved asked] in Hp.
    rewrite !lookup_insert_ne, lookup_singleton_ne in Hp by done. discriminate.
Qed.

(** A takeover that gives up may leave no client at all: the running process
    reads the request, the candidate withdraws it at the deadline, and then
    the running process makes room for nobody. *)
Theorem takeover_leaves_no_client : ∃ w, rtc step no_process w ∧
  procs w !! 0%nat = Some (build_a, Gone) ∧ procs w !! 1%nat = Some (build_b, ExitedTimeout) ∧ instance_lock w = None.
Proof.
  eexists. split.
  - etrans; [exact takeover_run|].
    go step_pending 1%nat build_b.
    eapply rtc_l; [eapply (step_replace _ 0%nat build_a build_b build_b); reflexivity|].
    go step_deadline 1%nat build_b. go step_give_up 1%nat build_b. go step_exit 0%nat build_a. apply rtc_refl.
  - done.
Qed.
