(* ===== verification/Startup.v ===== *)
(** * Startup: the entry points and the supervision of the modules

    [gaterust-server/src/main.rs], [run_control_with_shutdown] and its file
    watcher ([gaterust-control/src/lib.rs]), [check_server_config]
    ([gaterust-tunnel/src/lib.rs]), and the arguments, paths and status
    answers of the clients ([gaterust-client], [src-tauri]). *)

From S2P Require Import Prelude RustStr Net Paths Disk TunnelConfig ConfigFiles ProxyConfig ConfigEdits Store Protocol ClientSession Selection Certificate.

(** ** [gaterust-server] *)

Record ServerArguments := {
  enable_web : bool; web_config : Path;
  enable_tunnel : bool; tunnel_config : Path;
  enable_proxy : bool; proxy_config : Path }.

Definition NO_MODULE : str := "至少需要启用一个已编译模块".

(** [gaterust_tunnel::check_server_config]. *)
Definition check_server_config (load : Path → Result ServerConfig) (credentials : ServerQuicConfig → Result unit) (path : Path) : Result unit :=
  config ← load path;
  credentials (quic config).

(** [check_config]: the checks of the modules are arguments; a failure names
    the module. *)
Definition check_config (io : ErrorKind → str) (tunnel : Path → Result unit) (proxy : Path → PResult unit)
  (web : Path → result ControlError unit) (a : ServerArguments) : result str unit :=
  let enabled : N := 0 in
  enabled ← if enable_tunnel a
            then _ ← map_err (λ e, "隧道模块: " ++ fmt_error io e) (tunnel (tunnel_config a)); Ok (enabled + 1)
            else Ok enabled;
  enabled ← if enable_proxy a
            then _ ← map_err (λ e, "代理模块: " ++ fmt_proxy_error io e) (proxy (proxy_config a)); Ok (enabled + 1)
            else Ok enabled;
  enabled ← if enable_web a
            then _ ← map_err (λ e, "Web 控制模块: " ++ fmt_control_error io e) (web (web_config a)); Ok (enabled + 1)
            else Ok enabled;
  if enabled =? 0 then Err NO_MODULE else Ok tt.

(** The modules of [run], spawned in this order. *)
Inductive server_module := MTunnel | MProxy | MWeb.
Definition modules (a : ServerArguments) : list server_module :=
  (if enable_tunnel a then [MTunnel] else []) ++ (if enable_proxy a then [MProxy] else []) ++
  (if enable_web a then [MWeb] else []).

(** How a task of the [JoinSet] ends: its result, or a panic. *)
Definition task_result := result str (result str unit).
Definition task_error (r : task_result) : option str :=
  match r with
  | Ok (Ok _) => None
  | Ok (Err error) => Some error
  | Err error => Some ("模块任务异常结束: " ++ error)
  end.

(** [while let Some(result) = tasks.join_next()]. *)
Fixpoint join_rest (failure : option str) (rest : list task_result) : option str :=
  match rest with
  | [] => failure
  | r :: rest => join_rest (match failure with None => task_error r | Some _ => failure end) rest
  end.

(** What ends the [select!]: the signal, or the first task.  [rest]: the
    results of the other tasks in the order in which they end; the token is
    cancelled before they are awaited. *)
Inductive first_end := Signal (r : result str unit) | Joined (r : task_result).

Record run_end := { cancelled_all : bool; awaited : nat; run_result : result str unit }.

Definition finish (n : nat) (failure : option str) : run_end :=
  {| cancelled_all := true; awaited := n; run_result := match failure with Some e => Err e | None => Ok tt end |}.

Definition run (a : ServerArguments) (first : first_end) (rest : list task_result) : run_end :=
  if bool_decide (modules a = []) then {| cancelled_all := false; awaited := 0; run_result := Err NO_MODULE |} else
  match first with
  | Signal (Err e) => {| cancelled_all := false; awaited := 0; run_result := Err ("监听退出信号失败: " ++ e) |}
  | Signal (Ok _) => finish (length rest) (join_rest None rest)
  | Joined r => finish (S (length rest)) (join_rest (task_error r) rest)
  end.

Definition trim_password (input : str) : str :=
  trim_end_matches (λ c, bool_decide (c = "013"%char) || bool_decide (c = "010"%char)) input.

(** ** The watcher of the control plane *)

Module Watch.

Definition QUEUE : nat := 16.

#[global] Instance ConfigKind_eq_dec : EqDecision ConfigKind.
Proof. solve_decision. Defined.

(** The callback on the changed paths of an event: [try_send] of the kind of
    each watched path among them; a full queue is ignored. *)
Definition on_event (watched : list (ConfigKind * Path)) (changed : list Path) (queue : list ConfigKind) : list ConfigKind :=
  foldl (λ q w, if bool_decide (w.2 ∈ changed) then if (length q <? QUEUE)%nat then q ++ [w.1] else q else q) queue watched.

(** The parents to watch, each once. *)
Definition watch_parents (paths : list (ConfigKind * Path)) : list Path :=
  foldl (λ ps w, let parent := default [CurDir] (path_parent w.2) in
                 if bool_decide (parent ∈ ps) then ps else ps ++ [parent]) [] paths.

(** [version]: how often the file of a kind has changed; [seen]: the version
    the store has loaded; [events]: changes not delivered yet; [lost] is not
    state of the program: an event of the kind found the queue full and nothing
    of that kind in it. *)
Record world := {
  version : ConfigKind → N; seen : ConfigKind → N; events : list ConfigKind; queue : list ConfigKind; lost : ConfigKind → bool }.

Definition start : world := {| version := λ _, 0; seen := λ _, 0; events := []; queue := []; lost := λ _, false |}.
Definition set {A} (f : ConfigKind → A) (k : ConfigKind) (a : A) : ConfigKind → A := λ k', if bool_decide (k' = k) then a else f k'.

Section steps.
Context (tunnel_path proxy_path : Path).
Definition path_of (k : ConfigKind) : Path := match k with KTunnel => tunnel_path | KProxy => proxy_path end.
Definition watched_paths : list (ConfigKind * Path) := [(KTunnel, tunnel_path); (KProxy, proxy_path)].

Inductive step (w : world) : world → Prop :=
  | step_change k : step w {| version := set (version w) k (version w k + 1); seen := seen w; events := events w ++ [k];
      queue := queue w; lost := lost w |}
  | step_event k es : events w = k :: es →
      let q := on_event watched_paths [path_of k] (queue w) in
      step w {| version := version w; seen := seen w; events := es; queue := q;
        lost := set (lost w) k (bool_decide (k ∉ q) || lost w k) |}
  (* the task takes a kind and reloads its file *)
  | step_reload k q : queue w = k :: q → step w {| version := version w; seen := set (seen w) k (version w k); events := events w;
      queue := q; lost := set (lost w) k false |}.

(** ** Lemmas *)

Lemma on_event_keeps l changed q k : k ∈ q → k ∈ on_event l changed q.
Proof.
  unfold on_event. revert q. induction l as [|x l IH]; intros q Hk; cbn [foldl]; [done|]. apply IH.
  case_bool_decide; [|done]. destruct (_ <? _)%nat; [apply elem_of_app; by left|done].
Qed.

Definition accounted (w : world) : Prop :=
  ∀ k, seen w k = version w k ∨ k ∈ queue w ∨ k ∈ events w ∨ lost w k = true.

Lemma accounted_step w w' : accounted w → step w w' → accounted w'.
Proof.
  intros Hw Hs k'. specialize (Hw k'). destruct Hs as [k|k es He|k q Hq]; cbn; unfold set in *.
  - rewrite elem_of_app, list_elem_of_singleton. case_bool_decide as Hk; [tauto|]. tauto.
  - rewrite He, elem_of_cons in Hw. destruct (decide (k' ∈ on_event watched_paths [path_of k] (queue w))) as [|Hn]; [tauto|].
    destruct Hw as [?|[Hk|[[->|?]|?]]]; [tauto|by apply (on_event_keeps watched_paths [path_of k]) in Hk| |tauto|].
    + do 3 right. rewrite bool_decide_eq_true_2 by done. by rewrite bool_decide_eq_true_2.
    + do 3 right. case_bool_decide as Hk; [subst k'; by rewrite bool_decide_eq_true_2|done].
  - rewrite Hq, elem_of_cons in Hw. case_bool_decide as Hk; [subst k'; by left|]. tauto.
Qed.

Lemma accounted_reachable w : rtc step start w → accounted w.
Proof.
  intros Hr. assert (Hi : ∀ u v, rtc step u v → accounted u → accounted v).
  { intros u v Huv. induction Huv; [done|]. eauto using accounted_step. }
  eapply Hi; [exact Hr|]. intros k. by left.
Qed.
End steps.
End Watch.

(** ** The clients *)

(** [PathBuf::from]. *)
Definition parse_component (c : str) : option component :=
  if bool_decide (c = []) then None else if bool_decide (c = lit ".") then None else
  if bool_decide (c = lit "..") then Some ParentDir else Some (Normal c).
Definition parse_path (s : str) : Path :=
  (match s with "/"%char :: _ => [RootDir] | _ => if bool_decide (head (split "/" s) = Some (lit ".")) then [CurDir] else [] end)
  ++ omap parse_component (split "/" s).

(** [paths.rs] on Linux; [env] are the environment variables. *)
Definition environment_directory (env : str → option str) (name : str) : result ClientError Path :=
  ok_or (v ← env name; if bool_decide (v = []) then None else Some (parse_path v)) ConfigDirectoryUnavailable.

Definition default_config_path (env : str → option str) : result ClientError Path :=
  match environment_directory env "XDG_CONFIG_HOME" with
  | Ok path => Ok (path_join path [Normal "gaterust"; Normal "client.toml"])
  | Err _ => path ← environment_directory env "HOME";
             Ok (path_join path [Normal ".config"; Normal "gaterust"; Normal "client.toml"])
  end.
Definition config_path (env : str → option str) (explicit : option Path) : result ClientError Path :=
  match explicit with Some p => Ok p | None => default_config_path env end.

(** [prepare_config_path]: the first start writes the initial configuration. *)
Definition prepare_config_path `{Toml ClientConfig} (sample : nat → ascii) (fl : faults) (race : option str)
  (env : str → option str) (m : fs) (explicit : option Path) : CResult Path * fs :=
  match config_path env explicit with
  | Err e => (Err e, m)
  | Ok path =>
      match ensure_exists sample fl race m path with
      | (Ok _, m) => (Ok path, m)
      | (Err e, m) => (Err (Tunnel e), m)
      end
  end.

(** [config] and [save_config] of the client's runtime; [joined]: whether the
    blocking task came to its end. *)
Definition manager_config `{Toml ClientConfig} (joined : bool) (fl : faults) (m : fs) (path : Path) : CResult ClientConfig :=
  if joined then map_err Tunnel (ClientConfig_read fl m path) else Err TaskFailed.
Definition save_config `{AtomicWriteFile, Toml ClientConfig} (joined : bool) (config : ClientConfig) (fl : faults) (m : fs) (path : Path)
  : CResult ClientConfig * fs :=
  if joined then
    match ClientConfig_save config fl m path with
    | Ok m => (Ok config, m)
    | Err e => (Err (Tunnel e), m)
    end
  else (Err TaskFailed, m).

(** [config_path_from_arguments] of the desktop client. *)
Fixpoint config_path_from_iter (arguments : list str) : option Path :=
  match arguments with
  | [] => None
  | argument :: rest =>
      if bool_decide (argument = lit "--config") || bool_decide (argument = lit "-c") then
        match rest with
        | value :: _ => if bool_decide (value = []) || starts_with "-" value then None else Some (parse_path value)
        | [] => None
        end
      else config_path_from_iter rest
  end.

Definition config_path_from_arguments (env : str → option str) (arguments : list str) : option Path :=
  match env "GATERUST_CLIENT_CONFIG" with
  | Some (c :: v) => Some (parse_path (c :: v))
  | _ => config_path_from_iter (drop 1 arguments)
  end.

(** ** The exit of the desktop client

    [run] of [src-tauri/src/lib.rs]: the first request to exit is prevented and
    a task stops the monitor of the instance and the client's runtime, then asks
    again; [tasks_running]: the runtime has not been shut down. *)

Inductive exit_task := NotSpawned | StoppingMonitor | StoppingRuntime | AskingToExit | ExitTaskDone.

Record shell := { shutdown_started : bool; exit_phase : exit_task; tasks_running : bool; exited : bool }.

Definition shell_started : shell :=
  {| shutdown_started := false; exit_phase := NotSpawned; tasks_running := true; exited := false |}.

(** The handler of [RunEvent::ExitRequested]; a request that is not prevented
    ends the process. *)
Definition exit_requested (s : shell) : shell :=
  if shutdown_started s
  then {| shutdown_started := true; exit_phase := exit_phase s; tasks_running := tasks_running s; exited := true |}
  else {| shutdown_started := true; exit_phase := StoppingMonitor; tasks_running := tasks_running s; exited := false |}.

(** One step of the task. *)
Definition exit_task_step (s : shell) : option shell :=
  match exit_phase s with
  | StoppingMonitor =>
      Some {| shutdown_started := shutdown_started s; exit_phase := StoppingRuntime; tasks_running := tasks_running s; exited := false |}
  | StoppingRuntime =>
      Some {| shutdown_started := shutdown_started s; exit_phase := AskingToExit; tasks_running := false; exited := false |}
  | AskingToExit =>
      Some (exit_requested {| shutdown_started := shutdown_started s; exit_phase := ExitTaskDone; tasks_running := tasks_running s; exited := false |})
  | NotSpawned | ExitTaskDone => None
  end.

(** [Requested]: the last window is closed, the system ends the session, or
    another build takes over. *)
Inductive shell_event := Requested | TaskStep.

Definition shell_step (e : shell_event) (s : shell) : option shell :=
  if exited s then None else match e with Requested => Some (exit_requested s) | TaskStep => exit_task_step s end.
Definition shell_run (evs : list shell_event) : option shell :=
  foldl (λ o e, s ← o; shell_step e s) (Some shell_started) evs.

(** [StatusResponse], the answer to the interface. *)
Record StatusResponse := {
  sr_state : str; sr_message : option str; sr_server : option str; sr_device_id : option str;
  sr_retry_seconds : option N; sr_tunnels : list ClientTunnel }.

Definition StatusResponse_new (state : str) : StatusResponse :=
  {| sr_state := state; sr_message := None; sr_server := None; sr_device_id := None; sr_retry_seconds := None; sr_tunnels := [] |}.

Definition status_response (s : ClientStatus) : StatusResponse :=
  match s with
  | Starting => StatusResponse_new "starting"
  | Unconfigured reason =>
      {| sr_state := "unconfigured"; sr_message := Some reason; sr_server := None; sr_device_id := None; sr_retry_seconds := None; sr_tunnels := [] |}
  | Connecting server =>
      {| sr_state := "connecting"; sr_message := None; sr_server := Some server; sr_device_id := None; sr_retry_seconds := None; sr_tunnels := [] |}
  | Online server device_id tunnels =>
      {| sr_state := "online"; sr_message := None; sr_server := Some server; sr_device_id := Some device_id; sr_retry_seconds := None; sr_tunnels := tunnels |}
  | Reconnecting error retry_seconds =>
      {| sr_state := "reconnecting"; sr_message := Some error; sr_server := None; sr_device_id := None; sr_retry_seconds := Some retry_seconds; sr_tunnels := [] |}
  | Stopped reason =>
      {| sr_state := "stopped"; sr_message := reason; sr_server := None; sr_device_id := None; sr_retry_seconds := None; sr_tunnels := [] |}
  end.

(** [cleanup_stale_builds]: the entries removed from the directory of the
    WebView data, of those whose name is text. *)
Definition is_ascii_hexdigit (c : ascii) : bool := is_ascii_digit c || in_range c 65 70 || in_range c 97 102.
Definition is_build_id (value : str) : bool := (length value =? 64)%nat && forallb is_ascii_hexdigit value.
Definition stale_builds (current : str) (entries : list (option str)) : list str :=
  omap (λ e, name ← e; if bool_decide (name = current) || negb (is_build_id name) then None else Some name) entries.

(** ** Theorems *)

Lemma join_rest_some e rest : join_rest (Some e) rest = Some e.
Proof. induction rest as [|r rest IH]; cbn [join_rest]; [done|exact IH]. Qed.

Lemma join_rest_first rest : join_rest None rest = head (omap task_error rest).
Proof.
  induction rest as [|r rest IH]; cbn [join_rest omap list_omap]; [done|].
  destruct (task_error r) as [e|]; [apply join_rest_some|exact IH].
Qed.

(** The end of the server: when the signal arrives or any module ends, for
    whatever reason, the others are told to stop and every task is awaited;
    the result is the first failure in the order in which the modules ended,
    a panic included, and success only when there is none. *)
Theorem run_reports_first_failure a first rest :
  modules a ≠ [] → (∀ e, first ≠ Signal (Err e)) →
  let results := match first with Joined r => r :: rest | Signal _ => rest end in
  cancelled_all (run a first rest) = true ∧ awaited (run a first rest) = length results ∧
  run_result (run a first rest) = match head (omap task_error results) with Some e => Err e | None => Ok tt end ∧
  (run_result (run a first rest) = Ok tt ↔ ∀ r, r ∈ results → task_error r = None).
Proof.
  intros Hm Hs results. unfold run. rewrite bool_decide_eq_false_2 by done.
  assert (Hend : (match first with Signal (Err e) => {| cancelled_all := false; awaited := 0; run_result := Err ("监听退出信号失败: " ++ e) |}
    | Signal (Ok _) => finish (length rest) (join_rest None rest) | Joined r => finish (S (length rest)) (join_rest (task_error r) rest) end)
    = finish (length results) (head (omap task_error results))).
  { unfold results. destruct first as [[]|r]; [by rewrite join_rest_first|by destruct (Hs e)|]. cbn [omap list_omap length].
    destruct (task_error r) as [e|] eqn:Er; [by rewrite join_rest_some|by rewrite join_rest_first]. }
  rewrite Hend. split_and!; [done|done|done|]. cbn [run_result finish]. clear. induction results as [|r l IH]; cbn [omap list_omap].
  - split; [by intros _ r ?%elem_of_nil|done].
  - destruct (task_error r) as [e|] eqn:Er; cbn [head].
    + split; [done|]. intros Hall. rewrite Hall in Er; [done|by left].
    + rewrite IH. split; [intros Hall x [->|Hx]%elem_of_cons; [done|by apply Hall]|intros Hall x Hx; apply Hall; by right].
Qed.

(** [check_config] accepts exactly when at least one module is selected and
    the configuration of every selected module is; modules that are not
    selected are not read. *)
Theorem check_config_spec io tunnel proxy web a :
  check_config io tunnel proxy web a = Ok tt ↔
  modules a ≠ [] ∧
  (enable_tunnel a = true → tunnel (tunnel_config a) = Ok tt) ∧
  (enable_proxy a = true → proxy (proxy_config a) = Ok tt) ∧
  (enable_web a = true → web (web_config a) = Ok tt).
Proof.
  unfold check_config, modules.
  destruct (enable_tunnel a), (enable_proxy a), (enable_web a);
    repeat match goal with |- context [map_err _ ?x] => destruct x as [[]|]; cbn [map_err mbind result_bind] end;
    cbn; naive_solver.
Qed.

(** Once the queue of the watcher is empty and every event was delivered, the
    store has loaded the last version of each file, but for those whose event
    found the queue full of changes of the other file. *)
Theorem control_changes_reloaded tunnel_path proxy_path w :
  rtc (Watch.step tunnel_path proxy_path) Watch.start w →
  Watch.events w = [] → Watch.queue w = [] → ∀ k, Watch.lost w k = false → Watch.seen w k = Watch.version w k.
Proof.
  intros Hr%Watch.accounted_reachable He Hq k Hl. specialize (Hr k). rewrite He, Hq, Hl in Hr.
  destruct Hr as [?|[?%elem_of_nil|[?%elem_of_nil|?]]]; done.
Qed.

(** The queue holds [n] changes of the tunnel's file, and the proxy's has not changed. *)
Definition tunnel_only (n : nat) (w : Watch.world) : Prop :=
  Watch.events w = [] ∧ Watch.queue w = replicate n KTunnel ∧ Watch.version w KProxy = 0 ∧ Watch.seen w KProxy = 0.

Section overflow.
Context (tunnel proxy : Path) (Hne : tunnel ≠ proxy).

Lemma tunnel_event q :
  Watch.on_event (Watch.watched_paths tunnel proxy) [tunnel] q = if (length q <? 16)%nat then q ++ [KTunnel] else q.
Proof.
  unfold Watch.on_event, Watch.watched_paths, Watch.QUEUE. cbn [foldl fst snd].
  rewrite (bool_decide_eq_true_2 (tunnel ∈ [tunnel])) by by left.
  by rewrite (bool_decide_eq_false_2 (proxy ∈ [tunnel])) by by intros ?%list_elem_of_singleton.
Qed.

Lemma proxy_event q :
  Watch.on_event (Watch.watched_paths tunnel proxy) [proxy] q = if (length q <? 16)%nat then q ++ [KProxy] else q.
Proof.
  unfold Watch.on_event, Watch.watched_paths, Watch.QUEUE. cbn [foldl fst snd].
  rewrite (bool_decide_eq_false_2 (tunnel ∈ [proxy])) by by intros ?%list_elem_of_singleton.
  by rewrite (bool_decide_eq_true_2 (proxy ∈ [proxy])) by by left.
Qed.

Lemma filled n : (n ≤ 16)%nat → ∃ w, rtc (Watch.step tunnel proxy) Watch.start w ∧ tunnel_only n w.
Proof.
  induction n as [|n IH]; intros Hn; [by exists Watch.start|]. destruct IH as (w & Hr & He & Hq & Hv & Hs); [lia|].
  eexists. split.
  - eapply rtc_r; [eapply rtc_r; [exact Hr|apply (Watch.step_change _ _ _ KTunnel)]|].
    eapply (Watch.step_event _ _ _ KTunnel []). cbn. by rewrite He.
  - split_and!; [done| |done|done]. cbn [Watch.queue Watch.path_of]. rewrite tunnel_event, Hq, length_replicate.
    assert (Hlt : (n <? 16)%nat = true) by (apply Nat.ltb_lt; lia). rewrite Hlt. by rewrite <- replicate_cons_app.
Qed.

Lemma overflow w : tunnel_only 16 w →
  ∃ w', rtc (Watch.step tunnel proxy) w w' ∧ Watch.events w' = [] ∧ Watch.queue w' = replicate 16 KTunnel ∧
    Watch.version w' KProxy = 1 ∧ Watch.seen w' KProxy = 0.
Proof.
  intros (He & Hq & Hv & Hs). eexists. split.
  - eapply rtc_r; [eapply rtc_once, (Watch.step_change _ _ _ KProxy)|].
    eapply (Watch.step_event _ _ _ KProxy []). cbn. by rewrite He.
  - split_and!; [done| | |done].
    + cbn [Watch.queue Watch.path_of]. by rewrite proxy_event, Hq.
    + cbn [Watch.version]. unfold Watch.set. rewrite bool_decide_eq_true_2 by done. by rewrite Hv.
Qed.

Lemma drained n : ∀ w, Watch.events w = [] → Watch.queue w = replicate n KTunnel → Watch.version w KProxy = 1 → Watch.seen w KProxy = 0 →
  ∃ w', rtc (Watch.step tunnel proxy) w w' ∧ Watch.events w' = [] ∧ Watch.queue w' = [] ∧ Watch.version w' KProxy = 1 ∧ Watch.seen w' KProxy = 0.
Proof.
  induction n as [|n IH]; intros w He Hq Hv Hs; [by exists w|].
  destruct (IH {| Watch.version := Watch.version w; Watch.seen := Watch.set (Watch.seen w) KTunnel (Watch.version w KTunnel);
    Watch.events := Watch.events w; Watch.queue := replicate n KTunnel; Watch.lost := Watch.set (Watch.lost w) KTunnel false |}) as (w' & Hr & Hend);
    [done|done|done|done|].
  exists w'. split; [|done]. eapply rtc_l; [|exact Hr]. by apply Watch.step_reload.
Qed.
End overflow.

(** That loss is real: the two files share a queue of sixteen, and a change of
    one that finds it full of changes of the other is never loaded. *)
Theorem full_queue_loses_change :
  let tunnel := [RootDir; Normal "server.toml"] in
  let proxy := [RootDir; Normal "proxy.toml"] in
  ∃ w, rtc (Watch.step tunnel proxy) Watch.start w ∧
    Watch.events w = [] ∧ Watch.queue w = [] ∧ Watch.version w KProxy = 1 ∧ Watch.seen w KProxy = 0.
Proof.
  intros tunnel proxy. destruct (filled tunnel proxy ltac:(done) 16) as (w & Hr & Hw); [done|].
  destruct (overflow tunnel proxy ltac:(done) w Hw) as (w' & Hr' & He & Hq & Hv & Hs).
  destruct (drained tunnel proxy 16 w' He Hq Hv Hs) as (w'' & Hr'' & Hend). exists w''. split; [by etrans; [|etrans]|exact Hend].
Qed.

(** A client starts with a configuration: when [prepare_config_path] succeeds,
    the file it names is there (the one that was there before, if any; the
    initial configuration otherwise, unless another process wrote one), and no
    other file has changed.  What [save_config] accepts, [config] returns. *)
Theorem client_config_ready `{AtomicWriteFile, Toml ClientConfig} sample fl race env m explicit path m' :
  prepare_config_path sample fl race env m explicit = (Ok path, m') →
  config_path env explicit = Ok path ∧ is_Some (m' !! path) ∧ (∀ p, p ≠ path → m' !! p = m !! p) ∧
  (∀ content, m !! path = Some content → m' !! path = Some content) ∧
  (m !! path = None → race = None → manager_config true no_faults m' path = Ok (ClientConfig_initial sample)) ∧
  (∀ config fl' m2, save_config true config fl' m' path = (Ok config, m2) → manager_config true no_faults m2 path = Ok config).
Proof.
  unfold prepare_config_path. destruct (config_path env explicit) as [path'|e] eqn:Ep; [|done].
  pose proof (ensure_exists_safe sample fl race m path') as Hs. cbv zeta in Hs.
  destruct (ensure_exists sample fl race m path') as [[b|e] m1]; [|done]. intros [= <- <-].
  assert (Hd : delete path' m1 = delete path' m) by (by destruct b; destruct_and! Hs).
  split; [done|]. split; [|split; [|split; [|split]]].
  - destruct b; [|apply Hs]. destruct Hs as (_ & _ & Hr & _). unfold ClientConfig_read, parse_config, read_to_string in Hr. cbn in Hr.
    destruct (m1 !! path'); [eauto|done].
  - intros p Hp. rewrite <- (lookup_delete_ne m1 path' p), <- (lookup_delete_ne m path' p) by done. by rewrite Hd.
  - intros content Hc. destruct b; [destruct Hs as [Hn _]; congruence|]. destruct Hs as (_ & -> & _). by rewrite Hc.
  - intros Hn ->. destruct b; [destruct Hs as (_ & _ & Hr & _); cbn; by rewrite Hr|].
    destruct Hs as ([x Hx] & Hb & _). rewrite Hn in Hb. congruence.
  - intros config fl' m2. unfold save_config. destruct (ClientConfig_save config fl' m1 path') as [m3|] eqn:Em; [|done].
    intros [= ->]. cbn. by rewrite (proj1 (save_read _ _ _ _ _ no_faults Em eq_refl)).
Qed.

(** ** The exit of the desktop client *)

Fixpoint requests (evs : list shell_event) : nat :=
  match evs with [] => 0 | Requested :: evs => S (requests evs) | TaskStep :: evs => requests evs end.
Lemma requests_app evs evs' : requests (evs ++ evs') = (requests evs + requests evs')%nat.
Proof. induction evs as [|[] evs IH]; cbn; by rewrite ?IH. Qed.

(** Where a run with at most one request is. *)
Definition shell_inv (n : nat) (s : shell) : Prop :=
  (shutdown_started s = bool_decide (n ≠ 0%nat)) ∧ (exit_phase s = NotSpawned ↔ n = 0%nat) ∧
  (tasks_running s = false ↔ exit_phase s = AskingToExit ∨ exit_phase s = ExitTaskDone) ∧
  (exited s = true ↔ exit_phase s = ExitTaskDone).

Lemma shell_run_snoc evs e : shell_run (evs ++ [e]) = (s ← shell_run evs; shell_step e s).
Proof. unfold shell_run. by rewrite foldl_snoc. Qed.

Lemma shell_run_inv evs s : shell_run evs = Some s → (requests evs ≤ 1)%nat → shell_inv (requests evs) s.
Proof.
  revert s. induction evs as [|e evs IH] using rev_ind; intros s.
  { intros [= <-] _. unfold shell_inv. cbn. intuition congruence. }
  rewrite shell_run_snoc, requests_app. intros (s1 & H1 & Hs)%bind_Some Hle. specialize (IH s1 H1 ltac:(lia)). destruct IH as (I1 & I2 & I3 & I4).
  unfold shell_step in Hs. destruct (exited s1) eqn:Ex; [done|]. destruct e; cbn in *.
  - assert (Hz : requests evs = 0%nat) by lia. rewrite Hz in *. injection Hs as <-. unfold exit_requested. rewrite I1, bool_decide_eq_false_2 by (by intros []). unfold shell_inv. cbn.
    assert (Hp : exit_phase s1 = NotSpawned) by tauto. rewrite Hp in *.
    assert (tasks_running s1 = true) as -> by (destruct (tasks_running s1); [done|]; destruct I3 as [I3 _]; destruct (I3 eq_refl); done).
    intuition congruence.
  - rewrite Nat.add_0_r in *. unfold exit_task_step in Hs. destruct (exit_phase s1) eqn:Ep; try done; injection Hs as <-;
      unfold shell_inv, exit_requested; cbn; rewrite ?I1; try (split_and!; intuition congruence).
    rewrite bool_decide_eq_true_2 by (intros E0; destruct I2 as [_ I2]; by specialize (I2 E0)). cbn. split_and!; intuition congruence.
Qed.

(** Asked once, the client ends after three more steps of its own, and only
    after its connections have been shut down. *)
Theorem exit_waits_for_shutdown evs s :
  shell_run evs = Some s → requests evs = 1%nat →
  (exited s = true → tasks_running s = false) ∧
  (exited s = false → ∃ n s', (n ≤ 3)%nat ∧ shell_run (evs ++ replicate n TaskStep) = Some s' ∧ exited s' = true).
Proof.
  intros Hr Hn. destruct (shell_run_inv evs s Hr) as (I1 & I2 & I3 & I4); [lia|]. rewrite Hn in *. rewrite bool_decide_eq_true_2 in I1 by done.
  split; [intros Hx; tauto|]. intros Hx.
  assert (Hgo : ∀ k, shell_run (evs ++ replicate k TaskStep) = foldl (λ o e, s ← o; shell_step e s) (Some s) (replicate k TaskStep)).
  { intros k. unfold shell_run in *. by rewrite foldl_app, Hr. }
  assert (Hs : s = {| shutdown_started := true; exit_phase := exit_phase s; tasks_running := tasks_running s; exited := false |})
    by (destruct s; cbn in *; congruence).
  destruct (exit_phase s) eqn:Ep.
  - by destruct I2 as [I2 _]; specialize (I2 eq_refl).
  - exists 3%nat. eexists. split; [lia|]. rewrite Hgo, Hs. by split.
  - exists 2%nat. eexists. split; [lia|]. rewrite Hgo, Hs. by split.
  - exists 1%nat. eexists. split; [lia|]. rewrite Hgo, Hs. by split.
  - destruct I4 as [_ I4]. rewrite I4 in Hx; done.
Qed.

(** A second request does not wait: the process ends at once, while the first
    one's task is shutting the connections down. *)
Theorem second_request_cuts_shutdown :
  ∃ s, shell_run [Requested; TaskStep; Requested] = Some s ∧ exited s = true ∧ tasks_running s = true.
Proof. eexists. split; [reflexivity|done]. Qed.

Lemma exit_waits_for_shutdown_witness :
  ∃ s, shell_run [Requested; TaskStep; TaskStep; TaskStep] = Some s ∧ exited s = true ∧ tasks_running s = false.
Proof.
  eexists. split; [reflexivity|]. split; [reflexivity|].
  exact (proj1 (exit_waits_for_shutdown [Requested; TaskStep; TaskStep; TaskStep] _ eq_refl eq_refl) eq_refl).
Defined.

Lemma run_reports_first_failure_witness :
  run_result (run {| enable_web := true; web_config := []; enable_tunnel := true; tunnel_config := []; enable_proxy := true; proxy_config := [] |}
    (Joined (Ok (Ok tt))) [Ok (Err (lit "proxy")); Err (lit "panic")]) = Err (lit "proxy").
Proof.
  refine (proj1 (proj2 (proj2 (run_reports_first_failure
    {| enable_web := true; web_config := []; enable_tunnel := true; tunnel_config := []; enable_proxy := true; proxy_config := [] |}
    (Joined (Ok (Ok tt))) [Ok (Err (lit "proxy")); Err (lit "panic")] _ _)))); discriminate.
Defined.

(** A change of the proxy's file that was delivered and loaded. *)
Lemma proxy_change_run : ∃ w, rtc (Watch.step [RootDir; Normal "server.toml"] [RootDir; Normal "proxy.toml"]) Watch.start w ∧
  Watch.events w = [] ∧ Watch.queue w = [] ∧ Watch.lost w KProxy = false ∧ Watch.version w KProxy = 1.
Proof.
  eexists. split.
  - eapply rtc_l; [apply (Watch.step_change _ _ _ KProxy)|]. eapply rtc_l; [eapply (Watch.step_event _ _ _ KProxy); reflexivity|].
    eapply rtc_l; [eapply (Watch.step_reload _ _ _ KProxy); reflexivity|]. apply rtc_refl.
  - done.
Qed.

Lemma control_changes_reloaded_witness : ∃ w, Watch.version w KProxy = 1 ∧ Watch.seen w KProxy = 1.
Proof.
  destruct proxy_change_run as (w & Hr & He & Hq & Hl & Hv). exists w. split; [exact Hv|].
  rewrite <- Hv. exact (control_changes_reloaded _ _ w Hr He Hq KProxy Hl).
Defined.

(** A first start with a file of its own. *)
Definition letter (_ : nat) : ascii := "k".
#[local] Instance initial_toml : Toml ClientConfig := one_toml (ClientConfig_initial letter).
Definition first_file : fs := <[[Normal "c"] := lit "one"]> ∅.

Lemma first_start : prepare_config_path letter no_faults None (λ _, None) ∅ (Some [Normal "c"]) = (Ok [Normal "c"], first_file).
Proof.
  unfold prepare_config_path. cbn [config_path]. unfold ensure_exists. cbn [f_exists f_mkdir f_open f_write no_faults].
  rewrite lookup_empty, bool_decide_false by (by intros [??]).
  unfold serialize_client_config, initial_toml, one_toml. cbn [toml_to_string]. by rewrite decide_True.
Qed.

Lemma client_config_ready_witness :
  first_file !! [Normal "c"] = Some (lit "one") ∧ manager_config true no_faults first_file [Normal "c"] = Ok (ClientConfig_initial letter).
Proof.
  split; [apply lookup_insert_eq|].
  destruct (@client_config_ready plain_atomic initial_toml letter no_faults None (λ _, None) ∅ (Some [Normal "c"]) [Normal "c"] first_file
    first_start) as (_ & _ & _ & _ & Hr & _).
  apply Hr; [apply lookup_empty|reflexivity].
Defined.
