(* ===== verification/ServerRun.v ===== *)
(** * ServerRun: the running tunnel server, [gaterust-tunnel/src/server/mod.rs]

    [run_server_with_runtime], [accept_connections] and the tasks it spawns, on
    top of [Listeners] (one reload), [ServerSession] (one client), [Resource]
    (admission) and [TunnelRuntime] (their shared state).  A client task, a
    reload and the control plane interleave at the points where the code
    awaits: a reload is split at the locks it takes one after the other, and an
    authentication between the reading of the group keys and the registration. *)

From S2P Require Import Prelude RustStr Net Paths TunnelConfig ConfigFiles Protocol Resource TunnelRuntime Listeners ServerSession.

(** ** Start and end of the main loop *)

Section server.
Context (sha256 : str → str) (toml_string : ServerConfig → result str str).
Context (bind : N → ServerTunnelConfig → option TunnelError) (io : ErrorKind → str).

Definition QuicEndpoint_bind (server_credentials : ServerQuicConfig → Result str) (endpoint_bind : SocketAddr → Result unit)
  (config : ServerQuicConfig) : Result QuicEndpoint :=
  credentials ← server_credentials config;
  _ ← endpoint_bind (quic_bind config);
  Ok {| qe_config := config; qe_credentials := credentials |}.

(** [run_server_with_runtime] up to its loop; [watcher] and [local_addr]: what
    these two calls give. *)
Definition server_start (loaded : Result ServerConfig) (watcher : Result unit)
  (server_credentials : ServerQuicConfig → Result str) (endpoint_bind : SocketAddr → Result unit)
  (local_addr : Result SocketAddr) (runtime : TunnelRuntime) : Result server_state :=
  initial ← loaded;
  _ ← watcher;
  quic ← QuicEndpoint_bind server_credentials endpoint_bind (quic initial);
  _ ← local_addr;
  let creds := credentials initial in
  let runtime := apply_credentials sha256 runtime creds in
  match apply bind io (λ _, true) (ListenerManager_new runtime) (server_tunnels initial) with
  | (Err e, _) => Err e
  | (Ok _, m) =>
      runtime ← report_config_applied sha256 toml_string (lm_runtime m) initial;
      Ok {| groups := creds; endpoint := quic; listeners := set_runtime m runtime |}
  end.

(** What ends the loop, and the server's result: the token, the accept task
    (its own result, or a panic), or the watcher. *)
Inductive loop_end :=
  | Cancelled
  | AcceptTaskEnded (cancelled : bool) (r : result str (Result unit))
  | WatcherClosed.

Definition server_result (e : loop_end) : Result unit :=
  match e with
  | Cancelled | WatcherClosed | AcceptTaskEnded true _ => Ok tt
  | AcceptTaskEnded false (Ok (Ok _)) => Err (Protocol "QUIC 接入任务意外结束")
  | AcceptTaskEnded false (Ok (Err error)) => Err error
  | AcceptTaskEnded false (Err error) => Err (Protocol ("QUIC 接入任务异常结束: " ++ error))
  end.

(** ** A reload in its parts *)

(** [reload_server] up to the credentials: [None] when it has failed and
    reported so. *)
Definition reload_listeners (env : reload_env) (loaded : Result ServerConfig) (st : server_state)
  : server_state * option ServerConfig :=
  match loaded with
  | Err error => (on_runtime st (λ rt, report_config_load_error rt (fmt_error io error)), None)
  | Ok config =>
  match quic_prepare env (endpoint st) (quic config) with
  | Err error => (report_failed sha256 toml_string st config (fmt_error io error), None)
  | Ok quic_update =>
  let previous_tunnels := (λ _, lm_configs (listeners st)) <$> quic_update in
  match apply bind io (env_finished env) (listeners st) (server_tunnels config) with
  | (Err error, m) => (report_failed sha256 toml_string (with_listeners st m) config (fmt_error io error), None)
  | (Ok _, m) =>
  let st := with_listeners st m in
  match match quic_update with Some update => quic_apply env (endpoint st) update | None => Ok (endpoint st) end with
  | Err error =>
      (match apply bind io (env_finished env) m (default [] previous_tunnels) with
       | (Ok _, m) => report_failed sha256 toml_string (with_listeners st m) config (fmt_error io error)
       | (Err rollback_error, m) =>
           report_failed sha256 toml_string (with_listeners st m) config
             ("切换 QUIC 入口失败: " ++ fmt_error io error ++ "; 回滚隧道监听也失败: " ++ fmt_error io rollback_error)
       end, None)
  | Ok quic' => ({| groups := groups st; endpoint := quic'; listeners := listeners st |}, Some config)
  end end end end.

Definition reload_credentials (config : ServerConfig) (st : server_state) : server_state :=
  on_runtime st (λ rt, apply_credentials sha256 rt (credentials config)).
Definition reload_groups (config : ServerConfig) (st : server_state) : server_state :=
  {| groups := credentials config; endpoint := endpoint st; listeners := listeners st |}.
Definition reload_report (config : ServerConfig) (st : server_state) : server_state :=
  report_applied sha256 toml_string st config.

(** The parts in their order are the reload. *)
Lemma reload_parts env loaded st :
  reload_server sha256 toml_string bind io env loaded st =
  match reload_listeners env loaded st with
  | (st, None) => st
  | (st, Some config) => reload_report config (reload_groups config (reload_credentials config st))
  end.
Proof.
  unfold reload_server, reload_listeners. destruct loaded as [config|e]; [|done].
  destruct (quic_prepare _ _ _) as [upd|e]; [|done].
  destruct (apply _ _ _ _ _) as [[u|e] m]; [|done]. destruct upd as [u'|]; [|done].
  destruct (quic_apply _ _ _) as [q|e]; [done|]. by destruct (apply _ _ _ m _) as [[?|?] ?].
Qed.

(** ** The clients of the accept loop *)

(** Where the task of a client is.  It holds its admission until it is
    online. *)
Inductive client_phase :=
  | Handshaking
  | Identified (conn : Connection) (hello : ClientHello) (group digest : str)
  | Registered (conn : Connection)
  | Online (conn : Connection).

(** [cl_credentials]: the certificate the connection was accepted with. *)
Record client := { cl_ip : IpAddr; cl_credentials : str; cl_phase : client_phase }.

Definition authenticated_group (groups : list (str * GroupSecret)) (hello : ClientHello) : option (str * str) :=
  if valid_hello hello then find_group sha256 groups (hello_key hello) else None.

Inductive reload_phase := RIdle | RCredentials (c : ServerConfig) | RGroups (c : ServerConfig) | RReport (c : ServerConfig).

(** [accepting]: the accept loop has not ended.  Not state of the program:
    [accepted], the configuration of the last reload that got past the
    listeners, and [lost], the tasks that ended without their own cleanup. *)
Record world (S : Type) := {
  server : server_state;
  reload : reload_phase;
  accepted : ServerConfig;
  next_session : N;
  admission : admission_state S;
  clients : gmap N client;
  running : bool;
  accepting : bool;
  lost : gset N }.
Arguments server {_}. Arguments reload {_}. Arguments accepted {_}. Arguments next_session {_}.
Arguments admission {_}. Arguments clients {_}. Arguments running {_}. Arguments accepting {_}. Arguments lost {_}.

Context {S : Type} `{Semaphore S}.

Definition runtime (w : world S) : TunnelRuntime := lm_runtime (listeners (server w)).

Definition with_server (w : world S) (st : server_state) (r : reload_phase) (c : ServerConfig) : world S :=
  {| server := st; reload := r; accepted := c; next_session := next_session w; admission := admission w;
     clients := clients w; running := running w; accepting := accepting w; lost := lost w |}.
Definition with_runtime (w : world S) (rt : TunnelRuntime) : world S :=
  with_server w (on_runtime (server w) (λ _, rt)) (reload w) (accepted w).
Definition with_clients (w : world S) (a : admission_state S) (m : gmap N client) : world S :=
  {| server := server w; reload := reload w; accepted := accepted w; next_session := next_session w; admission := a;
     clients := m; running := running w; accepting := accepting w; lost := lost w |}.

(** A task goes on, or ends: an admission it holds is dropped. *)
Definition move (w : world S) (i : N) (c : client) (ph : client_phase) : world S :=
  with_clients w (match ph with Online _ => release_admission (admission w) (cl_ip c) | _ => admission w end)
    (<[i := {| cl_ip := cl_ip c; cl_credentials := cl_credentials c; cl_phase := ph |}]> (clients w)).
Definition holds_admission (c : client) : bool := match cl_phase c with Online _ => false | _ => true end.
Definition finish (w : world S) (i : N) (c : client) : world S :=
  with_clients w (if holds_admission c then release_admission (admission w) (cl_ip c) else admission w) (delete i (clients w)).

(** A task panics, or is aborted because the [JoinSet] of its accept loop is
    dropped: its admission is dropped, but it unregisters no session. *)
Definition abandon (w : world S) (i : N) (c : client) : world S :=
  let w := finish w i c in
  {| server := server w; reload := reload w; accepted := accepted w; next_session := next_session w;
     admission := admission w; clients := clients w; running := running w; accepting := accepting w;
     lost := {[i]} ∪ lost w |}.

(** The accept loop ends by itself: the endpoint's driver has stopped, or the
    token is cancelled. *)
Definition stop_accepting (w : world S) : world S :=
  {| server := server w; reload := reload w; accepted := accepted w; next_session := next_session w;
     admission := admission w; clients := clients w; running := running w; accepting := false; lost := lost w |}.

(** An incoming connection: admitted, its task gets the next number. *)
Definition incoming (w : world S) (o : admission_outcome) (a : admission_state S) (ip : IpAddr) : world S :=
  match o with
  | Spawned =>
      {| server := server w; reload := reload w; accepted := accepted w;
         next_session := wrapping_add1 (next_session w); admission := a;
         clients := <[next_session w := {| cl_ip := ip; cl_credentials := qe_credentials (endpoint (server w));
                                           cl_phase := Handshaking |}]> (clients w);
         running := running w; accepting := accepting w; lost := lost w |}
  | _ => with_clients w a (clients w)
  end.

(** A rejection closes the connection if it could be sent ([told]). *)
Definition rejected (told : bool) (rt : TunnelRuntime) (conn : Connection) : TunnelRuntime :=
  if told then close_connection rt conn AuthenticationFailed "authentication failed" else rt.

Section steps.
Context `{Toml ServerConfig} (path : Path).

(** The counter of sessions is far from wrapping. *)
Inductive step (w : world S) : world S → Prop :=
  (* accept_connections *)
  | step_incoming validated accept ip o a : accepting w = true → next_session w + 1 < 2 ^ 64 →
      admit_one (admission w) validated accept ip = (o, a) → step w (incoming w o a ip)
  (* the handshake fails, or the connection was a certificate bootstrap *)
  | step_gone i c : clients w !! i = Some c → cl_phase c = Handshaking → step w (finish w i c)
  (* authenticate *)
  | step_refused i c conn hello told : clients w !! i = Some c → cl_phase c = Handshaking →
      authenticated_group (groups (server w)) hello = None →
      step w (finish (with_runtime w (rejected told (runtime w) conn)) i c)
  | step_identified i c conn hello group digest : clients w !! i = Some c → cl_phase c = Handshaking →
      authenticated_group (groups (server w)) hello = Some (group, digest) →
      step w (move w i c (Identified conn hello group digest))
  | step_registered i c conn hello group digest now rt : clients w !! i = Some c →
      cl_phase c = Identified conn hello group digest →
      register (runtime w) i (hello_device_id hello) group digest conn (hello_services hello) now = (Ok tt, rt) →
      step w (move (with_runtime w rt) i c (Registered conn))
  | step_not_registered i c conn hello group digest now e rt told : clients w !! i = Some c →
      cl_phase c = Identified conn hello group digest →
      register (runtime w) i (hello_device_id hello) group digest conn (hello_services hello) now = (Err e, rt) →
      step w (finish (with_runtime w (rejected told rt conn)) i c)
  | step_accepted i c conn : clients w !! i = Some c → cl_phase c = Registered conn → step w (move w i c (Online conn))
  | step_lost i c conn : clients w !! i = Some c → cl_phase c = Registered conn →
      step w (finish (with_runtime w (unregister (runtime w) i)) i c)
  (* the control session *)
  | step_turn i c conn ev frames rt : clients w !! i = Some c → cl_phase c = Online conn →
      session_turn i (runtime w) ev = (frames, rt, None) → step w (with_runtime w rt)
  | step_over i c conn ev frames rt e : clients w !! i = Some c → cl_phase c = Online conn →
      session_turn i (runtime w) ev = (frames, rt, Some e) →
      step w (finish (with_runtime w (session_close i conn rt e)) i c)
  (* a panic of the task or, when the accept loop has returned, its abort *)
  | step_abandoned i c : clients w !! i = Some c → step w (abandon w i c)
  | step_accept_over : accepting w = true → step w (stop_accepting w)
  (* the control plane *)
  | step_disconnect i b rt : disconnect (runtime w) i = (b, rt) → step w (with_runtime w rt)
  | step_disconnect_tunnel i t r rt : disconnect_tunnel (runtime w) i t = (r, rt) → step w (with_runtime w rt)
  (* reload_server *)
  | step_reload env fl m st r : running w = true → reload w = RIdle →
      reload_listeners env (ServerConfig_load fl m path) (server w) = (st, r) →
      step w (with_server w st (match r with Some c => RCredentials c | None => RIdle end) (default (accepted w) r))
  | step_credentials c : reload w = RCredentials c →
      step w (with_server w (reload_credentials c (server w)) (RGroups c) (accepted w))
  | step_groups c : reload w = RGroups c → step w (with_server w (reload_groups c (server w)) (RReport c) (accepted w))
  | step_report c : reload w = RReport c → step w (with_server w (reload_report c (server w)) RIdle (accepted w))
  (* the loop ends *)
  | step_stop : running w = true → reload w = RIdle →
      step w {| server := with_listeners (server w) (shutdown_listeners (listeners (server w))); reload := RIdle;
                accepted := accepted w; next_session := next_session w; admission := admission w;
                clients := clients w; running := false; accepting := accepting w; lost := lost w |}.

(** The server as it starts to accept; the counter starts at one. *)
Definition started_world (st : server_state) (initial : ServerConfig) : world S :=
  {| server := st; reload := RIdle; accepted := initial; next_session := 1; admission := admission_init; clients := ∅;
     running := true; accepting := true; lost := ∅ |}.
End steps.
End server.
Arguments server {_}. Arguments reload {_}. Arguments accepted {_}. Arguments next_session {_}.
Arguments admission {_}. Arguments clients {_}. Arguments running {_}. Arguments accepting {_}. Arguments lost {_}.

(** ** What an operation leaves of the runtime *)

(** Clients do not change the tunnels, the credentials or the status; only a
    registration adds a session. *)
Record keeps (rt rt' : TunnelRuntime) : Prop := {
  kp_tunnels : tunnels (state rt') = tunnels (state rt);
  kp_credentials : rt_credentials (state rt') = rt_credentials (state rt);
  kp_status : config_status rt' = config_status rt }.
Record tame (rt rt' : TunnelRuntime) : Prop := {
  tm_inv : runtime_inv rt → runtime_inv rt';
  tm_sessions : ∀ i s', sessions (state rt') !! i = Some s' →
    ∃ s, sessions (state rt) !! i = Some s ∧ connection s' = connection s }.

#[export] Instance keeps_preorder : PreOrder keeps.
Proof. split; [done|]. intros x y z [] []. split; congruence. Qed.
#[export] Instance tame_preorder : PreOrder tame.
Proof.
  split; [split; eauto|]. intros x y z [I1 S1] [I2 S2]. split; [auto|]. intros i s' Hs.
  apply S2 in Hs as (s1 & Hs1 & E1). apply S1 in Hs1 as (s & Hs & E). exists s. split; [done|congruence].
Qed.

Section runtime_operations.
Context (sha256 : str → str) (toml_string : ServerConfig → result str str).

Lemma tame_same rt rt' : (runtime_inv rt → runtime_inv rt') → sessions (state rt') = sessions (state rt) → tame rt rt'.
Proof. intros Hi Hs. split; [done|]. rewrite Hs. eauto. Qed.

Lemma close_calm rt c code reason : tame rt (close_connection rt c code reason) ∧ keeps rt (close_connection rt c code reason).
Proof. split; [by apply tame_same|done]. Qed.

Lemma unregister_calm rt i : tame rt (unregister rt i) ∧ keeps rt (unregister rt i) ∧ sessions (state (unregister rt i)) !! i = None.
Proof.
  pose proof (unregister_gone rt i) as Hg. split_and!; [split| |done].
  - by apply unregister_inv.
  - unfold unregister. destruct (sessions (state rt) !! _); [|eauto]. cbn. intros j s' [_ Hs]%lookup_delete_Some. eauto.
  - unfold unregister. by destruct (sessions (state rt) !! _).
Qed.

Lemma disconnect_calm rt i b rt' : disconnect rt i = (b, rt') → tame rt rt' ∧ keeps rt rt'.
Proof.
  intros Hd. assert (Hi : runtime_inv rt → runtime_inv rt') by (intros; by eapply disconnect_inv).
  unfold disconnect in Hd. destruct (sessions (state rt) !! i); injection Hd as <- <-; [|by split].
  split; [|done]. split; [done|]. cbn. intros j s' [_ Hs]%lookup_delete_Some. eauto.
Qed.

Lemma disconnect_tunnel_calm rt i t r rt' : disconnect_tunnel rt i t = (r, rt') → tame rt rt' ∧ keeps rt rt'.
Proof.
  intros Hd. assert (Hi : runtime_inv rt → runtime_inv rt') by (intros; by eapply disconnect_tunnel_inv).
  unfold disconnect_tunnel in Hd. destruct (sessions (state rt) !! i) as [s|] eqn:Es; [|by simplify_eq].
  destruct (tunnels (state rt) !! t); [|by simplify_eq]. destruct (owners (state rt) !! t); [|by simplify_eq].
  case_bool_decide; injection Hd as <- <-; [done|]. split; [|done]. split; [done|]. cbn. intros j s' Hs.
  destruct (decide (i = j)) as [<-|Hne]; [rewrite lookup_insert_eq in Hs; simplify_eq; eauto|].
  rewrite lookup_insert_ne in Hs by done. eauto.
Qed.

Lemma update_calm rt i decls u rt' : update_services rt i decls = (u, rt') → tame rt rt' ∧ keeps rt rt'.
Proof.
  intros Hu. assert (Hi : runtime_inv rt → runtime_inv rt') by (intros; by eapply update_services_inv).
  unfold update_services in Hu. destruct (sessions (state rt) !! i) as [s|] eqn:Es; [|by simplify_eq].
  destruct (claim_available _ _ i) as [st' t'] eqn:Ecl. apply claim_available_spec in Ecl as (Hc & Hs & Ht & _).
  cbn in Hc, Hs, Ht.
  assert (Hrt : state rt' = st' ∧ config_status rt' = config_status rt) by (by destruct (_ || _); simplify_eq).
  destruct Hrt as [Hst Hcs]. split; [|split; [by rewrite Hst|by rewrite Hst|done]].
  split; [done|]. rewrite Hst, Hs. intros j s' Hs'.
  destruct (decide (i = j)) as [<-|Hne]; [rewrite lookup_insert_eq in Hs'; simplify_eq; eauto|].
  rewrite lookup_insert_ne in Hs' by done. eauto.
Qed.

Lemma turn_calm i rt ev frames rt' e : session_turn i rt ev = (frames, rt', e) → tame rt rt' ∧ keeps rt rt'.
Proof.
  destruct ev as [|id services w|closed er|w]; cbn [session_turn].
  - by intros [= <- <- <-].
  - destruct (validate_declarations services); [|by intros [= <- <- <-]].
    destruct (update_services rt i services) as [[u|] rt1] eqn:Eu; apply update_calm in Eu.
    + destruct w; intros [= <- <- <-]; done.
    + by intros [= <- <- <-].
  - by intros [= <- <- <-].
  - destruct w; intros [= <- <- <-]; done.
Qed.

Lemma session_close_calm i conn rt e :
  tame rt (session_close i conn rt e) ∧ keeps rt (session_close i conn rt e) ∧
  sessions (state (session_close i conn rt e)) !! i = None.
Proof.
  destruct e as [|e]; [apply unregister_calm|]. unfold session_close.
  destruct (unregister_calm (close_connection rt conn ServerConnectionError "server control channel failed") i) as (T & K & G).
  destruct (close_calm rt conn ServerConnectionError "server control channel failed") as [T' K'].
  split_and!; [by etransitivity|by etransitivity|done].
Qed.

Lemma register_fails rt i dev group digest conn decls now e rt' :
  register rt i dev group digest conn decls now = (Err e, rt') → rt' = rt.
Proof.
  unfold register. destruct (_ <=? _)%nat; [by intros [= <- <-]|]. case_bool_decide; [by intros [= <- <-]|].
  destruct (existsb _ _); [by intros [= <- <-]|]. by destruct (claim_available _ _ i).
Qed.

Lemma register_adds rt i dev group digest conn decls now rt' :
  sessions (state rt) !! i = None → register rt i dev group digest conn decls now = (Ok tt, rt') →
  (runtime_inv rt → runtime_inv rt') ∧ keeps rt rt' ∧
  ∃ s, sessions (state rt') = <[i := s]> (sessions (state rt)) ∧ connection s = conn.
Proof.
  intros Hi Hr. pose proof (register_spec rt i dev group digest conn decls now Hi) as Hs. rewrite Hr in Hs.
  destruct Hs as (_ & Ht & (s & Hs & _ & _ & Hc & _) & _). split; [by intros; eapply register_inv|]. split; [|eauto].
  split; [done|..]; revert Hr; unfold register; destruct (_ <=? _)%nat; try done; case_bool_decide; try done;
    destruct (existsb _ _); try done; destruct (claim_available _ _ i) as [st' t'] eqn:Ecl; intros [= <-]; [|done].
  cbn. by apply claim_available_spec in Ecl as (Hc' & _).
Qed.

Lemma apply_tunnels_tame rt configs : tame rt (apply_tunnels rt configs).
Proof. apply tame_same; [|done]. intros Hi. by apply apply_tunnels_inv. Qed.

Lemma apply_credentials_tame rt creds : tame rt (apply_credentials sha256 rt creds).
Proof.
  split; [by apply apply_credentials_inv|]. destruct (apply_credentials_spec sha256 rt creds) as [l Hca].
  intros i s' [Hs _]%(ca_sessions _ _ _ _ Hca). eauto.
Qed.
End runtime_operations.

(** ** One reload *)

(** The listeners and the tunnels of the runtime are those of [c]. *)
Definition listening (st : server_state) (c : ServerConfig) : Prop :=
  (∀ n, handle_config <$> active (listeners st) !! n = desired_map (server_tunnels c) !! n) ∧
  ∀ n, tunnels (state (lm_runtime (listeners st))) !! n = tunnel_spec <$> desired_map (server_tunnels c) !! n.
(** The runtime reports an error, and so does the control plane. *)
Definition flagged (st : server_state) : Prop :=
  is_Some (last_apply_error (status (config_status (lm_runtime (listeners st))))).

Section reload_parts.
Context (sha256 : str → str) (toml_string : ServerConfig → result str str).
Context (bind : N → ServerTunnelConfig → option TunnelError) (io : ErrorKind → str).

(** The address of one of its tunnels could not be bound at some time. *)
Definition unbound (c : ServerConfig) : Prop := ∃ k t e, t ∈ server_tunnels c ∧ bind k t = Some e.
(** Some well-formed configuration cannot be written as TOML: the failure of a
    reload of it is only logged. *)
Definition unwritable : Prop := ∃ c e, wf_server c ∧ toml_string c = Err e.
Definition serves (st : server_state) (c : ServerConfig) : Prop :=
  listening st c ∨ (flagged st ∨ unwritable) ∧ unbound c.

Lemma listening_server_ok st c : lm_ok (listeners st) → listening st c → server_ok st.
Proof. intros Hok [Ha Ht]. split; [done|]. intros n. by rewrite Ht, Ha. Qed.

Lemma lost_unbound st c : wf_server c → listening st c → bind_lost bind st → unbound c.
Proof.
  intros [_ _ _ _ _ _ Hnd _ _ _] [Ha _] (n & h & k & e & Hh & Hb). exists k, (handle_config h), e. split; [|done].
  specialize (Ha n). rewrite Hh in Ha. symmetry in Ha. by apply (desired_map_lookup _ n _ Hnd) in Ha as [? _].
Qed.

Lemma same_listening st st' c : same_service st st' → listening st c → listening st' c.
Proof. intros (_ & _ & Ha & Ht & _) [Ha' Ht']. split; intros n; [by rewrite Ha|by rewrite Ht]. Qed.

Lemma report_failed_flags st c e :
  wf_server c →
  (flagged (report_failed sha256 toml_string st c e) ∨ unwritable) ∧
  groups (report_failed sha256 toml_string st c e) = groups st ∧
  endpoint (report_failed sha256 toml_string st c e) = endpoint st ∧
  active (listeners (report_failed sha256 toml_string st c e)) = active (listeners st) ∧
  limiters (listeners (report_failed sha256 toml_string st c e)) = limiters (listeners st) ∧
  state (lm_runtime (listeners (report_failed sha256 toml_string st c e))) = state (lm_runtime (listeners st)) ∧
  tame (lm_runtime (listeners st)) (lm_runtime (listeners (report_failed sha256 toml_string st c e))).
Proof.
  intros Hwf. unfold report_failed, on_runtime, report_config_failed, config_fingerprint, unwritable.
  destruct (toml_string c) as [s|x] eqn:E; cbn; split_and!; try done; [left; by eexists|by apply tame_same|right; by exists c, x].
Qed.

Lemma apply_tame finished m configs r m' :
  lm_ok m → NoDup (tunnel_name <$> configs) → apply bind io finished m configs = (r, m') →
  lm_ok m' ∧ tame (lm_runtime m) (lm_runtime m') ∧
  rt_credentials (state (lm_runtime m')) = rt_credentials (state (lm_runtime m)).
Proof.
  intros Hok Hnd Ha. destruct r as [u|e].
  - pose proof (apply_server_ok _ _ _ _ _ _ _ Hok Hnd Ha) as (Hok' & _).
    apply apply_ok in Ha as (m1 & _ & ->); [|done..]. cbn. split_and!; [done|apply apply_tunnels_tame|done].
  - apply apply_err_ok in Ha as [Hok' ->]; done.
Qed.

(** A failed reload: what it keeps, and that it is reported. *)
Record unchanged (st st' : server_state) : Prop := {
  un_groups : groups st' = groups st;
  un_endpoint : endpoint st' = endpoint st;
  un_credentials : rt_credentials (state (lm_runtime (listeners st'))) = rt_credentials (state (lm_runtime (listeners st)));
  un_ok : lm_ok (listeners st');
  un_tame : tame (lm_runtime (listeners st)) (lm_runtime (listeners st'));
  un_flagged : flagged st' ∨ unwritable;
  un_serves : ∀ c, wf_server c → serves st c → serves st' c }.

Lemma failed_unchanged st m c e :
  wf_server c → lm_ok m → tame (lm_runtime (listeners st)) (lm_runtime m) →
  rt_credentials (state (lm_runtime m)) = rt_credentials (state (lm_runtime (listeners st))) →
  (∀ c0, wf_server c0 → listening st c0 → listening (with_listeners st m) c0 ∨ unbound c0) →
  unchanged st (report_failed sha256 toml_string (with_listeners st m) c e).
Proof.
  intros Hwc Hok Ht Hc Hl. destruct (report_failed_flags (with_listeners st m) c e Hwc) as (Hf & Hg & He & Ha & Hli & Hs & Ht').
  split; [done|done|by rewrite Hs|intros n h; rewrite Ha, Hli; apply Hok|by etransitivity|done|].
  intros c0 Hwf [Hl0|[_ Hu]]; [|by right]. destruct (Hl c0 Hwf Hl0) as [[Ha0 Ht0]|Hu]; [left|by right].
  split; [by rewrite Ha|by rewrite Hs].
Qed.

Lemma reload_listeners_fails env loaded st st' :
  lm_ok (listeners st) → (∀ c, loaded = Ok c → wf_server c) →
  reload_listeners sha256 toml_string bind io env loaded st = (st', None) → unchanged st st'.
Proof.
  intros Hok Hwf. unfold reload_listeners. destruct loaded as [c|e].
  2: { intros [= <-]. split; try done; [by apply tame_same|left; by eexists|]. intros c _ [Hl|[_ Hu]]; [by left|right].
       split; [left; by eexists|done]. }
  pose proof (Hwf c eq_refl) as Hwc. destruct Hwc as [_ _ _ _ _ _ Hnd _ _ _]. specialize (Hwf c eq_refl).
  destruct (quic_prepare env (endpoint st) (quic c)) as [upd|e] eqn:Eq.
  2: { intros [= <-]. replace st with (with_listeners st (listeners st)) at 2 by (by destruct st).
       apply failed_unchanged; try done. intros c0 _ Hl. left. by destruct st. }
  destruct (apply bind io (env_finished env) (listeners st) (server_tunnels c)) as [[u|e] m] eqn:Ea;
    destruct (apply_tame _ _ _ _ _ Hok Hnd Ea) as (Hokm & Htm & Hcm).
  2: { intros [= <-]. apply failed_unchanged; try done. intros c0 Hwf0 Hl.
       destruct (apply_err _ _ _ _ _ _ _ Hok Hnd Ea) as [(_ & Hrt & Ha & _)|(_ & Hlost)].
       - left. destruct Hl as [Ha0 Ht0]. split; intros n; cbn; [by rewrite Ha|by rewrite Hrt].
       - right. apply (lost_unbound st); [done..|]. destruct Hlost as (n & h & k & e2 & ? & ?). by exists n, h, k, e2. }
  cbn zeta. destruct (match upd with Some u => _ | None => _ end) as [q|e] eqn:Equ; [done|].
  destruct upd as [upd|]; [clear Equ|done]. cbn [fmap option_fmap option_map from_option id].
  pose proof (previous_NoDup _ Hok) as Hp. destruct u.
  destruct (apply bind io (env_finished env) m (lm_configs (listeners st))) as [[u'|e2] m'] eqn:Er;
    destruct (apply_tame _ _ _ _ _ Hokm Hp Er) as (Hokm' & Htm' & Hcm'); intros [= <-];
    (apply (failed_unchanged st m'); [done|done|by etransitivity|congruence|]); intros c0 Hwf0 Hl.
  - left. destruct (reload_rolled_back sha256 bind io _ _ _ _ _ _ (listening_server_ok _ _ Hok Hl) Hnd Ea Er) as [Hs _].
    by apply (same_listening st).
  - right. apply (lost_unbound st); [done..|]. by eapply rollback_lost.
Qed.

Lemma reload_listeners_succeeds env loaded st st' c :
  lm_ok (listeners st) → (∀ c, loaded = Ok c → wf_server c) →
  reload_listeners sha256 toml_string bind io env loaded st = (st', Some c) →
  loaded = Ok c ∧ groups st' = groups st ∧ qe_config (endpoint st') = quic c ∧ listening st' c ∧ lm_ok (listeners st') ∧
  tame (lm_runtime (listeners st)) (lm_runtime (listeners st')) ∧
  rt_credentials (state (lm_runtime (listeners st'))) = rt_credentials (state (lm_runtime (listeners st))).
Proof.
  intros Hok Hwf. unfold reload_listeners. destruct loaded as [c'|e]; [|done].
  destruct (Hwf c' eq_refl) as [_ _ _ _ _ _ Hnd _ _ _].
  destruct (quic_prepare env (endpoint st) (quic c')) as [upd|e] eqn:Eq; [|done].
  destruct (apply bind io (env_finished env) (listeners st) (server_tunnels c')) as [[u|e] m] eqn:Ea; [|done].
  destruct (apply_tame _ _ _ _ _ Hok Hnd Ea) as (Hokm & Htm & Hcm).
  pose proof (apply_server_ok _ _ _ _ _ _ _ Hok Hnd Ea) as (_ & Ha & Ht).
  cbn zeta. destruct (match upd with Some u => _ | None => _ end) as [q|e] eqn:Hq; [|done]. intros [= <- <-]. cbn. split_and!; try done.
  - destruct upd as [upd|]; [by rewrite (quic_apply_config _ _ _ _ Hq), (quic_prepare_some _ _ _ _ Eq)|].
    simplify_eq. by apply quic_prepare_none in Eq.
  - split; [done|]. intros n. cbn. by rewrite Ht, Ha.
Qed.
End reload_parts.

(** ** Admission and tasks *)

Section tasks.
Context {S : Type} `{Semaphore S}.

(** The addresses whose admission is held. *)
Definition hold (m : gmap N client) : list IpAddr :=
  cl_ip <$> filter (λ c, holds_admission c = true) ((map_to_list m).*2).
Definition holding (c : client) : list IpAddr := if holds_admission c then [cl_ip c] else [].

Lemma hold_cons c l :
  cl_ip <$> filter (λ c, holds_admission c = true) (c :: l) = holding c ++ (cl_ip <$> filter (λ c, holds_admission c = true) l).
Proof. unfold holding. rewrite filter_cons. by destruct (holds_admission c). Qed.

Lemma hold_insert m i c : m !! i = None → hold (<[i := c]> m) ≡ₚ holding c ++ hold m.
Proof. intros Hi. unfold hold. rewrite (map_to_list_insert _ _ _ Hi). cbn [fmap list_fmap snd]. by rewrite hold_cons. Qed.

Lemma hold_delete m i c : m !! i = Some c → hold m ≡ₚ holding c ++ hold (delete i m).
Proof. intros Hi. rewrite <- (insert_delete_id m i c Hi) at 1. apply hold_insert, lookup_delete_eq. Qed.

Lemma hold_update m i c : hold (<[i := c]> m) ≡ₚ holding c ++ hold (delete i m).
Proof. rewrite <- insert_delete_eq. apply hold_insert, lookup_delete_eq. Qed.

Lemma admission_perm (a : admission_state S) ips ips' : ips ≡ₚ ips' → admission_inv (a, ips) → admission_inv (a, ips').
Proof.
  intros Hp (H1 & H2 & H3). assert (Hc : ∀ ip, pending_of ip ips' = pending_of ip ips) by (intros ip; unfold pending_of, len; by rewrite Hp).
  split_and!; cbn in *; [intros ip; by rewrite Hc, H1|intros ip; by rewrite Hc|]. unfold len in *. by rewrite <- Hp.
Qed.

Lemma admission_released (a : admission_state S) ip ips : admission_inv (a, ip :: ips) → admission_inv (release_admission a ip, ips).
Proof. intros Hi. eapply (admission_step_inv _ _ Hi). exact (step_release a ip [] ips). Qed.

Lemma finish_admission (w : world S) i c :
  clients w !! i = Some c → admission_inv (admission w, hold (clients w)) →
  admission_inv (admission (finish w i c), hold (clients (finish w i c))).
Proof.
  intros Hi Ha. pose proof (admission_perm _ _ _ (hold_delete _ _ _ Hi) Ha) as Hp. unfold finish, holding in *. cbn.
  destruct (holds_admission c); [by apply admission_released|done].
Qed.

Lemma move_admission (w : world S) i c ph :
  clients w !! i = Some c → holds_admission c = true → admission_inv (admission w, hold (clients w)) →
  admission_inv (admission (move w i c ph), hold (clients (move w i c ph))).
Proof.
  intros Hi Hc Ha. pose proof (admission_perm _ _ _ (hold_delete _ _ _ Hi) Ha) as Hp. unfold move, holding in *. rewrite Hc in Hp. cbn.
  eapply admission_perm; [symmetry; apply hold_update|]. destruct ph; cbn; try exact Hp. by apply admission_released.
Qed.

Lemma incoming_admission (w : world S) validated accept ip o a :
  clients w !! next_session w = None → admission_inv (admission w, hold (clients w)) →
  admit_one (admission w) validated accept ip = (o, a) →
  admission_inv (admission (incoming w o a ip), hold (clients (incoming w o a ip))).
Proof.
  intros Hn Hi Ha. pose proof (admission_step_inv _ _ Hi (step_admit _ _ _ _ _ (hold (clients w)) _ Ha)) as Hi'.
  destruct o; try exact Hi'. cbn. eapply admission_perm; [symmetry; by apply hold_insert|]. exact Hi'.
Qed.

Record clients_ok (w : world S) : Prop := {
  ck_fresh : ∀ i c, clients w !! i = Some c → i < next_session w;
  ck_sessions : ∀ i s, sessions (state (runtime w)) !! i = Some s →
    (∃ c, clients w !! i = Some c ∧ (cl_phase c = Registered (connection s) ∨ cl_phase c = Online (connection s))) ∨
    i ∈ lost w;
  ck_lost : ∀ i, i ∈ lost w → clients w !! i = None ∧ i < next_session w;
  ck_runtime : runtime_inv (runtime w);
  ck_admission : admission_inv (admission w, hold (clients w)) }.

Lemma with_runtime_id (w : world S) : with_runtime w (runtime w) = w.
Proof. by destruct w as [[? ? []] ? ? ? ? ? ? ? ?]. Qed.

Lemma clients_ok_server (w : world S) st r c :
  clients_ok w → tame (runtime w) (lm_runtime (listeners st)) → clients_ok (with_server w st r c).
Proof.
  intros [F Ss Lo I A] [Ti Ts]. split; cbn; [done| |done|by apply Ti|done].
  intros i s (s0 & Hs0 & E)%Ts. rewrite E. by apply Ss.
Qed.

Lemma clients_ok_runtime (w : world S) rt : clients_ok w → tame (runtime w) rt → clients_ok (with_runtime w rt).
Proof. intros Hw Ht. by apply clients_ok_server. Qed.

(** The table of clients without one of them. *)
Lemma finish_lost (w : world S) i c :
  clients_ok w → ∀ j, j ∈ lost w → clients (finish w i c) !! j = None ∧ j < next_session w.
Proof.
  intros Hw j [Hj Hn]%(ck_lost w Hw). split; [|done]. cbn. by rewrite lookup_delete_None, Hj; right.
Qed.

Lemma finish_fresh (w : world S) i c j d : clients_ok w → clients (finish w i c) !! j = Some d → j < next_session w.
Proof. intros Hw. cbn. intros [_ Hj]%lookup_delete_Some. by eapply (ck_fresh w Hw). Qed.

Lemma clients_ok_finish (w : world S) i c :
  clients_ok w → clients w !! i = Some c → sessions (state (runtime w)) !! i = None → clients_ok (finish w i c).
Proof.
  intros Hw Hi Hn. split.
  - intros j d. by apply finish_fresh.
  - intros j s Hs. change (sessions (state (runtime w)) !! j = Some s) in Hs. assert (i ≠ j) as Hne by congruence.
    cbn. rewrite lookup_delete_ne by done. by apply (ck_sessions w Hw).
  - by apply (finish_lost w i c).
  - exact (ck_runtime w Hw).
  - apply finish_admission; [done|apply Hw].
Qed.

Lemma clients_ok_abandon (w : world S) i c : clients_ok w → clients w !! i = Some c → clients_ok (abandon w i c).
Proof.
  intros Hw Hi. split.
  - intros j d. by apply finish_fresh.
  - intros j s Hs. change (sessions (state (runtime w)) !! j = Some s) in Hs. cbn.
    destruct (decide (i = j)) as [<-|Hne]; [right; set_solver|]. rewrite lookup_delete_ne by done.
    destruct (ck_sessions w Hw j s Hs) as [?|?]; [by left|right; set_solver].
  - intros j. cbn. rewrite elem_of_union, elem_of_singleton. intros [->|Hj].
    + split; [by rewrite lookup_delete_eq|by eapply (ck_fresh w Hw)].
    + by apply (finish_lost w i c).
  - exact (ck_runtime w Hw).
  - apply finish_admission; [done|apply Hw].
Qed.

Lemma clients_ok_move (w : world S) i c ph :
  clients_ok w → clients w !! i = Some c → holds_admission c = true →
  (∀ s, sessions (state (runtime w)) !! i = Some s → ph = Registered (connection s) ∨ ph = Online (connection s)) →
  clients_ok (move w i c ph).
Proof.
  intros [F Ss Lo I A] Hi Hc Hs. split; [| | |done|by apply move_admission]; cbn.
  - intros j d [[<- _]|[_ Hj]]%lookup_insert_Some; eauto.
  - intros j s Hj. destruct (decide (i = j)) as [<-|Hne].
    + left. rewrite lookup_insert_eq. eexists. split; [done|]. by apply Hs.
    + rewrite lookup_insert_ne by done. by apply Ss.
  - intros j [Hj Hn]%Lo. split; [|done]. rewrite lookup_insert_ne; congruence.
Qed.

Lemma no_session (w : world S) i c :
  clients_ok w → clients w !! i = Some c → (∀ conn, cl_phase c ≠ Registered conn ∧ cl_phase c ≠ Online conn) →
  sessions (state (runtime w)) !! i = None.
Proof.
  intros Hw Hi Hc. destruct (sessions _ !! i) as [s|] eqn:Es; [|done].
  apply Hw in Es as [(c' & Hi' & Hp)|[Hl _]%(ck_lost w Hw)]; [|congruence].
  destruct (Hc (connection s)). destruct Hp; congruence.
Qed.
End tasks.

(** ** Invariants of a run *)

Section invariants.
Context (sha256 : str → str) (toml_string : ServerConfig → result str str).
Context (bind : N → ServerTunnelConfig → option TunnelError) (io : ErrorKind → str).
Context {S : Type} `{Semaphore S} `{Toml ServerConfig} (path : Path).

Notation server_step := (step sha256 toml_string bind io path).

Definition current (st : server_state) (c : ServerConfig) : Prop :=
  rt_credentials (state (lm_runtime (listeners st))) = digest_map sha256 (credentials c).

Record config_ok (w : world S) : Prop := {
  co_wf : wf_server (accepted w);
  co_listeners : lm_ok (listeners (server w));
  co_endpoint : qe_config (endpoint (server w)) = quic (accepted w);
  co_reload : match reload w with
    | RIdle => (running w = true → serves toml_string bind (server w) (accepted w)) ∧ current (server w) (accepted w) ∧
               groups (server w) = credentials (accepted w)
    | RCredentials c => accepted w = c ∧ listening (server w) c
    | RGroups c => accepted w = c ∧ listening (server w) c ∧ current (server w) c
    | RReport c => accepted w = c ∧ listening (server w) c ∧ current (server w) c ∧ groups (server w) = credentials c
    end }.

Lemma loaded_wf fl m c : ServerConfig_load fl m path = Ok c → wf_server c.
Proof.
  unfold ServerConfig_load, ServerConfig_read. intros (c0 & Hr & [= <-])%bind_ok.
  apply bind_ok in Hr as (c1 & _ & Hv). apply bind_unit_ok in Hv as [Hv%server_validate_iff [= <-]].
  destruct Hv. by constructor.
Qed.

Lemma keeps_listening st rt c :
  keeps (lm_runtime (listeners st)) rt → listening st c → listening (on_runtime st (λ _, rt)) c.
Proof. intros [Kt _ _] [Ha Ht]. split; intros n; cbn; [by rewrite <- Ha|by rewrite Kt]. Qed.

Lemma keeps_serves st rt c :
  keeps (lm_runtime (listeners st)) rt → serves toml_string bind st c → serves toml_string bind (on_runtime st (λ _, rt)) c.
Proof.
  intros K [Hl|[Hf Hu]]; [left; by apply keeps_listening|right]. split; [|done].
  destruct Hf as [Hf|Hf]; [left|by right]. unfold flagged. cbn. by rewrite (kp_status _ _ K).
Qed.

Lemma config_ok_runtime (w : world S) rt : config_ok w → keeps (runtime w) rt → config_ok (with_runtime w rt).
Proof.
  intros [Hwf Hl He Hr] K. split; [exact Hwf|exact Hl|exact He|]. cbn.
  assert (Hc : ∀ c, current (server w) c → current (on_runtime (server w) (λ _, rt)) c)
    by (intros c; unfold current; cbn; by rewrite (kp_credentials _ _ K)).
  destruct (reload w); [destruct Hr as (H1 & H2 & H3); split_and!; [intros Hrun; apply keeps_serves|..]|..];
    naive_solver eauto using keeps_listening.
Qed.

(** Steps of tasks leave the server and the reload alone. *)
Lemma config_ok_same (w w' : world S) :
  config_ok w → server w' = server w → reload w' = reload w → accepted w' = accepted w → running w' = running w → config_ok w'.
Proof. intros [Hwf Hl He Hr] Es Er Ea En. split; rewrite ?Es, ?Er, ?Ea, ?En; done. Qed.

Lemma config_ok_reload (w : world S) env fl m st r :
  config_ok w → running w = true → reload w = RIdle →
  reload_listeners sha256 toml_string bind io env (ServerConfig_load fl m path) (server w) = (st, r) →
  config_ok (with_server w st (match r with Some c => RCredentials c | None => RIdle end) (default (accepted w) r)) ∧
  tame (runtime w) (lm_runtime (listeners st)).
Proof.
  intros [Hwf Hl He Hr] Hrun Hidle Hrel. rewrite Hidle in Hr. destruct Hr as (Hs & Hc & Hg).
  assert (Hload : ∀ c, ServerConfig_load fl m path = Ok c → wf_server c) by apply loaded_wf.
  destruct r as [c|].
  - apply reload_listeners_succeeds in Hrel as (Ec & Eg & Ee & Hli & Hok & Ht & _); [|done..]. split; [|done].
    split; cbn; [by apply Hload|done|done|done].
  - apply reload_listeners_fails in Hrel as [Ug Ue Uc Uo Ut Uf Us]; [|done..]. split; [|done].
    split; cbn; [done|done|by rewrite Ue|]. split_and!; [|unfold current; by rewrite Uc|by rewrite Ug].
    intros _. apply Us; auto.
Qed.

Lemma report_listening st c c' : listening st c → listening (reload_report sha256 toml_string c' st) c.
Proof.
  intros [Ha Ht]. split; intros n; cbn; [by rewrite <- Ha|]. by rewrite report_applied_state.
Qed.

Definition invariant (w : world S) : Prop := config_ok w ∧ clients_ok w.

Lemma invariant_runtime (w : world S) rt : invariant w → tame (runtime w) rt ∧ keeps (runtime w) rt → invariant (with_runtime w rt).
Proof. intros [Hc Hk] [Ht K]. split; [by apply config_ok_runtime|by apply clients_ok_runtime]. Qed.

Lemma invariant_finish (w : world S) i c :
  invariant w → clients w !! i = Some c → sessions (state (runtime w)) !! i = None → invariant (finish w i c).
Proof. intros [Hc Hk] Hi Hn. split; [by eapply config_ok_same|by apply clients_ok_finish]. Qed.

(** A task that ends before it has registered, after it touched the runtime. *)
Lemma invariant_unregistered (w : world S) i c rt :
  invariant w → clients w !! i = Some c → (∀ conn, cl_phase c ≠ Registered conn ∧ cl_phase c ≠ Online conn) →
  tame (runtime w) rt ∧ keeps (runtime w) rt → invariant (finish (with_runtime w rt) i c).
Proof.
  intros Hw Hi Hp Hrt. pose proof (invariant_runtime w rt Hw Hrt) as Hw'.
  apply invariant_finish; [done|done|]. by eapply no_session; [apply Hw'|..].
Qed.

Lemma invariant_registered (w : world S) i c conn hello group digest now rt :
  invariant w → clients w !! i = Some c → cl_phase c = Identified conn hello group digest →
  register (runtime w) i (hello_device_id hello) group digest conn (hello_services hello) now = (Ok tt, rt) →
  invariant (move (with_runtime w rt) i c (Registered conn)).
Proof.
  intros [Hc Hk] Hi Hp Hr. assert (Hn : sessions (state (runtime w)) !! i = None) by (eapply no_session; [done|done|by rewrite Hp]).
  apply register_adds in Hr as (Hinv & K & s & Hs & Hconn); [|done]. split.
  - eapply config_ok_same; [by apply (config_ok_runtime w rt)|done..].
  - destruct Hk as [F Ss Lo I A]. split.
    + cbn. intros j d [[<- _]|[_ Hj]]%lookup_insert_Some; eauto.
    + intros j s' Hj. change (sessions (state rt) !! j = Some s') in Hj. rewrite Hs in Hj. cbn.
      apply lookup_insert_Some in Hj as [[<- <-]|[Hne Hj]].
      * left. rewrite lookup_insert_eq. eexists. split; [done|]. left. by rewrite Hconn.
      * rewrite lookup_insert_ne by done. by apply Ss.
    + cbn. intros j [Hj Hn']%Lo. split; [|done]. rewrite lookup_insert_ne; congruence.
    + exact (Hinv I).
    + apply move_admission; [done|unfold holds_admission; by rewrite Hp|done].
Qed.

Lemma invariant_incoming (w : world S) validated accept ip o a :
  invariant w → next_session w + 1 < 2 ^ 64 → admit_one (admission w) validated accept ip = (o, a) →
  invariant (incoming w o a ip).
Proof.
  intros [Hc [F Ss Lo I A]] Hnext Ha.
  assert (Hn : clients w !! next_session w = None).
  { destruct (clients w !! next_session w) eqn:E; [|done]. apply F in E. lia. }
  split; [destruct o; by eapply config_ok_same|]. split; [|destruct o; try exact Ss| |destruct o; exact I|by eapply incoming_admission].
  - intros j d Hj. destruct o; cbn in *; eauto. unfold wrapping_add1. rewrite N.mod_small by done.
    apply lookup_insert_Some in Hj as [[<- _]|[_ Hj%F]]; lia.
  - intros j s Hs. cbn. destruct (Ss j s Hs) as [(d & Hd & Hp)|Hl]; [left|by right]. exists d. split; [|done]. rewrite lookup_insert_ne; congruence.
  - intros j Hj. assert (Hj' : j ∈ lost w) by (by destruct o). apply Lo in Hj' as [Hj' Hlt].
    destruct o; cbn; try by split. unfold wrapping_add1. rewrite N.mod_small by done. split; [|lia].
    rewrite lookup_insert_ne; [done|]. intros <-. lia.
Qed.

Lemma invariant_reload_parts (w : world S) c st r :
  invariant w →
  (reload w = RCredentials c ∧ st = reload_credentials sha256 c (server w) ∧ r = RGroups c) ∨
  (reload w = RGroups c ∧ st = reload_groups c (server w) ∧ r = RReport c) ∨
  (reload w = RReport c ∧ st = reload_report sha256 toml_string c (server w) ∧ r = RIdle) →
  invariant (with_server w st r (accepted w)).
Proof.
  intros [[Hwf Hl He Hr] Hk] Hcase. destruct Hcase as [(Hp & -> & ->)|[(Hp & -> & ->)|(Hp & -> & ->)]]; rewrite Hp in Hr.
  - destruct Hr as (Ha & Hli & Ht). destruct (apply_credentials_spec sha256 (lm_runtime (listeners (server w))) (credentials c)) as [l Hca].
    split; [|apply clients_ok_server; [done|apply apply_credentials_tame]].
    split; cbn; [done|done|done|]. split_and!; [done| |exact (ca_creds _ _ _ _ Hca)].
    split; intros n; cbn; [by rewrite <- Hli|]. by rewrite (ca_tunnels _ _ _ _ Hca), <- Ht.
  - split; [|by apply clients_ok_server]. destruct Hr as (Ha & Hli & Hcur). split; cbn; [done|done|done|]. by split_and!.
  - destruct Hr as (Ha & Hli & Hcur & Hg). split.
    + split; cbn; [done|done|done|]. rewrite Ha. split_and!; [|unfold current in *; cbn; by rewrite report_applied_state|done].
      intros _. left. by apply report_listening.
    + apply clients_ok_server; [done|]. apply tame_same; cbn; [|by rewrite report_applied_state].
      unfold report_config_applied. by destruct (config_fingerprint sha256 toml_string c).
Qed.
Lemma invariant_stop (w : world S) : invariant w → running w = true → reload w = RIdle →
  invariant {| server := with_listeners (server w) (shutdown_listeners (listeners (server w))); reload := RIdle;
               accepted := accepted w; next_session := next_session w; admission := admission w;
               clients := clients w; running := false; accepting := accepting w; lost := lost w |}.
Proof.
  intros [[Hwf Hl He Hr] [F Ss Lo I A]] Hrun Hidle. rewrite Hidle in Hr. destruct Hr as (_ & Hcur & Hg).
  destruct (stop_fold (map fst (map_to_list (active (listeners (server w))))) (listeners (server w))) as (S1 & S2 & S3).
  split; split; cbn; try done.
  - intros n h. cbn. rewrite S1, S3. destruct (decide _); [done|apply Hl].
  - split_and!; [done| |done]. unfold current in *. cbn. by rewrite S2.
  - unfold runtime. cbn. rewrite S2. exact Ss.
  - unfold runtime. cbn. by rewrite S2.
Qed.

Lemma invariant_step (w w' : world S) : invariant w → server_step w w' → invariant w'.
Proof.
  intros Hw Hs.
  destruct Hs as [va ac ip o a Hrun Hnext Ha|i c Hi Hp|i c conn hello told Hi Hp Hg|i c conn hello group digest Hi Hp Hg
    |i c conn hello group digest now rt Hi Hp Hr|i c conn hello group digest now e rt told Hi Hp Hr|i c conn Hi Hp|i c conn Hi Hp
    |i c conn ev frames rt Hi Hp Ht|i c conn ev frames rt e Hi Hp Ht|i c Hi|Hac|i b rt Hd|i t r rt Hd|env fl m st r Hrun Hidle Hrel
    |c Hp|c Hp|c Hp|Hrun Hidle].
  - by eapply invariant_incoming.
  - rewrite <- (with_runtime_id w). apply invariant_unregistered; [done|done|by rewrite Hp|done].
  - apply invariant_unregistered; [done|done|by rewrite Hp|destruct told; [apply close_calm|done]].
  - split; [by eapply config_ok_same; [apply Hw|..]|]. apply clients_ok_move; [apply Hw|done|unfold holds_admission; by rewrite Hp|].
    intros s Hs. by rewrite (no_session w i c) in Hs; [|apply Hw|done|rewrite Hp].
  - by eapply invariant_registered.
  - apply register_fails in Hr as ->. apply invariant_unregistered; [done|done|by rewrite Hp|destruct told; [apply close_calm|done]].
  - split; [by eapply config_ok_same; [apply Hw|..]|]. apply clients_ok_move; [apply Hw|done|unfold holds_admission; by rewrite Hp|].
    intros s [(c' & Hi' & Hph)|[Hl _]%(ck_lost w (proj2 Hw))]%(ck_sessions w (proj2 Hw)); [right; destruct Hph; congruence|congruence].
  - destruct (unregister_calm (runtime w) i) as (Ht & K & Hn). apply invariant_finish; [by apply invariant_runtime|done|exact Hn].
  - apply invariant_runtime; [done|]. by eapply turn_calm.
  - apply turn_calm in Ht as [T K]. destruct (session_close_calm i conn rt e) as (T' & K' & Hn).
    apply invariant_finish; [apply invariant_runtime; [done|split; by etransitivity]|done|exact Hn].
  - split; [by eapply config_ok_same; [apply Hw|..]|apply clients_ok_abandon; [apply Hw|done]].
  - split; [by eapply config_ok_same; [apply Hw|..]|]. by destruct Hw as [_ []].
  - apply invariant_runtime; [done|]. by eapply disconnect_calm.
  - apply invariant_runtime; [done|]. by eapply disconnect_tunnel_calm.
  - destruct (config_ok_reload w env fl m st r (proj1 Hw) Hrun Hidle Hrel) as [Hc Ht]. split; [done|].
    apply clients_ok_server; [apply Hw|done].
  - apply invariant_reload_parts with c; naive_solver.
  - apply invariant_reload_parts with c; naive_solver.
  - apply invariant_reload_parts with c; naive_solver.
  - by apply invariant_stop.
Qed.

Lemma invariant_start st watcher creds ebind laddr fl m initial :
  ServerConfig_load fl m path = Ok initial →
  server_start sha256 toml_string bind io (Ok initial) watcher creds ebind laddr TunnelRuntime_new = Ok st →
  invariant (started_world st initial).
Proof.
  intros Hwf%loaded_wf. unfold server_start.
  intros (u & [= <-] & (wt & _ & (q & Hq & (la & _ & Hs)%bind_ok)%bind_ok)%bind_ok)%bind_ok.
  revert Hs. destruct (apply bind io _ _ _) as [[u'|e] lm] eqn:Ea; [|done]. intros (rt & Hrep & [= <-])%bind_ok.
  assert (Hnd : NoDup (tunnel_name <$> server_tunnels initial)) by apply Hwf.
  assert (Hnew : lm_ok (ListenerManager_new (apply_credentials sha256 TunnelRuntime_new (credentials initial)))) by done.
  pose proof (apply_server_ok _ _ _ _ _ _ _ Hnew Hnd Ea) as (Hok & Ha & Ht).
  destruct (apply_tame bind io _ _ _ _ _ Hnew Hnd Ea) as (_ & Htm & Hcr).
  assert (Hst : state rt = state (lm_runtime lm) ∧ (runtime_inv (lm_runtime lm) → runtime_inv rt)).
  { unfold report_config_applied in Hrep. apply bind_ok in Hrep as (fp & _ & [= <-]). done. }
  destruct Hst as [Hst Hinv]. destruct (apply_credentials_spec sha256 TunnelRuntime_new (credentials initial)) as [l Hca].
  split.
  - split; cbn; [done|exact Hok|by apply bind_ok in Hq as (cr & _ & [_ [= <-]]%bind_unit_ok)|].
    split_and!; [|unfold current; cbn; rewrite Hst, Hcr; exact (ca_creds _ _ _ _ Hca)|done].
    intros _. left. split; intros n; cbn; [done|]. by rewrite Hst, Ht, Ha.
  - assert (Hno : ∀ i, sessions (state rt) !! i = None).
    { intros i. rewrite Hst. destruct (sessions _ !! i) as [s|] eqn:Es; [|done].
      apply Htm in Es as (s0 & Hs0 & _). cbn in Hs0. apply (ca_sessions _ _ _ _ Hca) in Hs0 as [Hs0 _]. done. }
    split; cbn; [done| |done| |].
    + intros i s Hs. unfold runtime in Hs. cbn in Hs. by rewrite Hno in Hs.
    + apply Hinv, Htm, apply_credentials_inv, runtime_inv_new.
    + apply admission_reachable, rtc_refl.
Qed.

Lemma invariant_reachable (w w' : world S) : invariant w → rtc server_step w w' → invariant w'.
Proof. intros Hw Hr. induction Hr; [done|]. eauto using invariant_step. Qed.
End invariants.

(** ** A run, for the witnesses *)

Lemma pair_fst {A B} (p : A * B) (a : A) : p.1 = a → p = (a, p.2).
Proof. destruct p. by intros [= ->]. Qed.
Lemma pair_snd {A B} (p : A * B) (b : B) : p.2 = b → p = (p.1, b).
Proof. destruct p. by intros [= ->]. Qed.

Definition two_servers (a b : ServerConfig) : Toml ServerConfig.
Proof.
  refine {| toml_to_string := λ c, if decide (c = a) then Ok (lit "a") else if decide (c = b) then Ok (lit "b") else Err (lit "no");
            toml_from_str := λ s, if decide (s = lit "a") then Ok a else if decide (s = lit "b") then Ok b else Err (lit "no") |}.
  intros c s. repeat case_decide; intros; simplify_eq; done.
Defined.

Module Example.
#[export] Instance toml : Toml ServerConfig := two_servers (w_server w_tunnel) (w_server w_tunnel2).
Definition path : Path := [RootDir; Normal "etc"; Normal "server.toml"].
Definition at_file (s : str) : fs := {[ path := s ]}.
Definition bind : N → ServerTunnelConfig → option TunnelError := λ _ _, None.
Definition initial : ServerConfig := resolve_server_paths path (w_server w_tunnel).
Definition updated : ServerConfig := resolve_server_paths path (w_server w_tunnel2).
Definition ip : IpAddr := V4 {| octet0 := 10; octet1 := 0; octet2 := 0; octet3 := 1 |}.
Definition hello : ClientHello :=
  {| hello_version := PROTOCOL_VERSION; hello_device_id := "dev"; hello_key := replicate 32 "k"%char; hello_services := w_decls |}.

Definition server_step : world N → world N → Prop := step (λ s, s) w_toml bind w_io path.
Definition started : Result server_state :=
  server_start (λ s, s) w_toml bind w_io (Ok initial) (Ok tt) (env_credentials w_env) (λ _, Ok tt) (Ok (loop_addr 7000)) TunnelRuntime_new.
(** The state, if there is one. *)
Definition server0 : server_state := match started with Ok st => st | Err _ => w_state end.
Definition digest : str := replicate 32 "k"%char.

Definition w0 : world N := started_world server0 initial.
Definition w1 := incoming w0 Spawned (admit_one (admission w0) true true ip).2 ip.
Definition c1 (w : world N) : client := default {| cl_ip := ip; cl_credentials := []; cl_phase := Handshaking |} (clients w !! 1).
Definition w2 := move w1 1 (c1 w1) (Identified w_conn hello "office" digest).
Definition registration := register (runtime w2) 1 (hello_device_id hello) "office" digest w_conn (hello_services hello) 0.
Definition w3 := move (with_runtime w2 registration.2) 1 (c1 w2) (Registered w_conn).
Definition w4 := move w3 1 (c1 w3) (Online w_conn).
Definition reloaded (w : world N) := reload_listeners (λ s, s) w_toml bind w_io w_env (Ok updated) (server w).
Definition w5 := with_server w4 (reloaded w4).1 (RCredentials updated) updated.
Definition w6 := with_server w5 (reload_credentials (λ s, s) updated (server w5)) (RGroups updated) updated.
Definition w7 := with_server w6 (reload_groups updated (server w6)) (RReport updated) updated.
Definition w8 := with_server w7 (reload_report (λ s, s) w_toml updated (server w7)) RIdle updated.
End Example.
#[local] Existing Instance Example.toml.

Lemma example_started : Example.started = Ok Example.server0.
Proof.
  unfold Example.server0. destruct Example.started as [st|e] eqn:E; [done|].
  apply (f_equal is_ok) in E. vm_compute in E. done.
Qed.

Lemma example_loaded :
  ServerConfig_load no_faults (Example.at_file "a") Example.path = Ok Example.initial ∧
  ServerConfig_load no_faults (Example.at_file "b") Example.path = Ok Example.updated.
Proof. by vm_compute. Qed.

(** A client comes online and stays so while its tunnel moves to another port. *)
Lemma example_run : rtc Example.server_step Example.w0 Example.w8.
Proof.
  eapply rtc_l with Example.w1.
  { eapply step_incoming; [done|done|]. apply pair_fst. by vm_compute. }
  eapply rtc_l with Example.w2.
  { eapply step_identified; by vm_compute. }
  eapply rtc_l with Example.w3.
  { apply (step_registered _ _ _ _ _ Example.w2 1 (Example.c1 Example.w2) w_conn Example.hello "office" Example.digest 0);
      [by vm_compute|done|]. apply (pair_fst Example.registration). by vm_compute. }
  eapply rtc_l with Example.w4.
  { eapply step_accepted; by vm_compute. }
  eapply rtc_l with Example.w5.
  { eapply (step_reload _ _ _ _ _ _ w_env no_faults (Example.at_file "b") _ (Some Example.updated)); [by vm_compute|by vm_compute|].
    rewrite (proj2 example_loaded). apply pair_snd. by vm_compute. }
  eapply rtc_l with Example.w6; [by apply step_credentials|].
  eapply rtc_l with Example.w7; [by apply step_groups|].
  eapply rtc_l with Example.w8; [by apply step_report|]. done.
Qed.

(** ** Theorems *)

Lemma digest_map_key sha256 creds g d :
  digest_map sha256 creds !! g = Some d → ∃ key, (g, key) ∈ creds ∧ d = credential_digest sha256 key.
Proof.
  unfold digest_map. induction creds as [|[n key] creds IH] using rev_ind; [done|]. rewrite foldl_app. cbn [foldl fst snd].
  intros [[<- <-]|[_ Hg]]%lookup_insert_Some; [exists key; split; [set_solver|done]|].
  destruct (IH Hg) as (key' & Hin & ->). exists key'. split; [set_solver|done].
Qed.


(** C8: no session is left alone except by a crash, none outlives its key, and
    no address floods the handshake: in every state of a run each session
    belongs to the live task of its connection or to a task that panicked or
    was aborted with its accept loop, so without such tasks no session is left
    when the tasks have ended; between two reloads each one's credential is
    that of a key the accepted configuration gives its group; and at most 32
    connections, 4 of one address, are in their handshake, crashes included. *)
Theorem sessions_supervised sha256 toml_string bind io {S} `{Semaphore S} `{Toml ServerConfig} path
  fl m initial watcher creds ebind laddr st (w : world S) :
  ServerConfig_load fl m path = Ok initial →
  server_start sha256 toml_string bind io (Ok initial) watcher creds ebind laddr TunnelRuntime_new = Ok st →
  rtc (step sha256 toml_string bind io path) (started_world st initial) w →
  (∀ i s, sessions (state (runtime w)) !! i = Some s →
    ((∃ c, clients w !! i = Some c ∧ (cl_phase c = Registered (connection s) ∨ cl_phase c = Online (connection s))) ∨
     (i ∈ lost w ∧ clients w !! i = None)) ∧
    (reload w = RIdle → ∃ key, (session_group s, key) ∈ credentials (accepted w) ∧
                               session_digest s = credential_digest sha256 key)) ∧
  len (hold (clients w)) <= MAX_PENDING_AUTHENTICATIONS ∧
  (∀ ip, pending_of ip (hold (clients w)) <= MAX_PENDING_AUTHENTICATIONS_PER_IP).
Proof.
  intros Hload Hstart Hr.
  destruct (invariant_reachable sha256 toml_string bind io path _ _
    (invariant_start sha256 toml_string bind io path _ _ _ _ _ _ _ _ Hload Hstart) Hr) as [[_ _ _ Hc] [_ Hs Hlo Hi (_ & Hp & Hg)]].
  split; [|split; [cbn in Hg; lia|exact Hp]]. intros i s His. split.
  { destruct (Hs i s His) as [?|Hl]; [by left|right]. split; [done|]. by apply Hlo. }
  intros Hidle. rewrite Hidle in Hc.
  apply digest_map_key. destruct Hc as (_ & Hcur & _). unfold current in Hcur. rewrite <- Hcur.
  destruct Hi as (_ & [Hcred _ _] & _). by eapply Hcred.
Qed.


Lemma sessions_supervised_witness :
  is_Some (sessions (state (runtime Example.w8)) !! 1) ∧
  ∀ s, sessions (state (runtime Example.w8)) !! 1 = Some s →
    ∃ key, (session_group s, key) ∈ credentials Example.updated ∧ session_digest s = key.
Proof.
  split; [vm_compute; eexists; reflexivity|]. intros s Hs.
  destruct (sessions_supervised (λ s, s) w_toml Example.bind w_io Example.path no_faults (Example.at_file "a") Example.initial
    (Ok tt) (env_credentials w_env) (λ _, Ok tt) (Ok (loop_addr 7000)) Example.server0 Example.w8
    (proj1 example_loaded) example_started example_run) as (H & _).
  exact (proj2 (H 1 s Hs) eq_refl).
Defined.
