(* ===== verification/ProxyCommands.v ===== *)
(** * ProxyCommands: the handle of the proxy, [ProxyRuntime] in [gaterust-proxy/src/runtime.rs]

    The control plane and the reload of the proxy call the certificate manager
    through a bounded channel; each call carries a one-shot channel for its
    answer.  A world holds the channel, the calls and the manager; the callers,
    the manager and the tasks that test DNS credentials interleave. *)

From S2P Require Import Prelude RustStr Net ProxyConfig CertResolver Cache CertManager Dns ManagerProps.

Definition COMMAND_CAPACITY : nat := 64.

(** [response]: the one-shot channel of the call. *)
Inductive Command :=
  | Apply (config : ProxyConfig) (response : N)
  | Issue (certificate_id : str) (response : N)
  | Continue (certificate_id : str) (response : N)
  | TestDns (account : DnsAccountConfig) (response : N).

Definition response_of (c : Command) : N :=
  match c with Apply _ n | Issue _ n | Continue _ n | TestDns _ n => n end.

(** A caller: in [send], waiting for the answer, returned, or dropped. *)
Inductive call := Sending (c : Command) | Awaiting | Returned (r : PResult unit) | Gone.

(** The receiver of the channel: in the mutex of [RuntimeInner], in the loop of
    [run], in its last lines, or dropped. *)
Inductive receiver := Held | Running | Stopping | Closed.
#[export] Instance receiver_eq_dec : EqDecision receiver.
Proof. solve_decision. Defined.

(** [run_manager] takes the receiver. *)
Definition take_receiver (r : receiver) : PResult receiver :=
  match r with Held => Ok Running | _ => Err (PRuntime "代理运行时只能启动一次") end.

Definition not_started : PResult unit := Err (PRuntime "代理运行时未启动").
Definition runtime_closed : PResult unit := Err (PRuntime "代理运行时已停止").

(** How the task of a DNS test ends: the answers of the providers, the
    timeout, or a panic. *)
Inductive dns_end :=
  | Validated (valid : result str bool) (domains : PResult (list str))
  | TimedOut
  | Panicked.

Section commands.
Context {L : TlsLib} {A : AcmeLib} (io : ErrorKind → str).
Context (create_provider : ProviderCredentials → result str unit).

(** The answer of the test; a panic drops the one-shot channel. *)
Definition dns_test (account : DnsAccountConfig) (o : dns_end) : PResult unit :=
  match o with
  | Panicked => runtime_closed
  | _ =>
      client ← from_config create_provider 0 account None;
      match o with
      | Validated valid domains => validate_credentials client valid domains
      | _ => Err (PDns "DNS 凭据测试超时")
      end
  end.

(** What has happened to the manager. *)
Inductive entry :=
  | Ran (env : apply_env) (c : Command)
  | Tested (account : DnsAccountConfig) (response : N) (o : dns_end)
  | Own (e : CertManager.event)
  | Ended.

(** [accepted] and [history] are not state of the program: the commands in the
    order they entered the channel, and the manager's turns. *)
Record world := {
  rx : receiver;
  queue : list Command;
  manager : CertificateManager;
  calls : gmap N call;
  dns_tests : gmap N DnsAccountConfig;
  accepted : list Command;
  history : list entry }.

Definition runtime_new (snapshot : ProxyRuntimeSnapshot) : world :=
  {| rx := Held; queue := []; manager := manager_new snapshot; calls := ∅; dns_tests := ∅; accepted := []; history := [] |}.

(** The caller may be gone: then the answer is only logged. *)
Definition respond (n : N) (r : PResult unit) (cs : gmap N call) : gmap N call :=
  match cs !! n with Some Awaiting => <[n := Returned r]> cs | _ => cs end.

(** Dropping the other ends of the channels. *)
Definition hang_up (ns : list N) (cs : gmap N call) : gmap N call :=
  foldr (λ n, respond n runtime_closed) cs ns.

Definition with_calls (w : world) (cs : gmap N call) : world :=
  {| rx := rx w; queue := queue w; manager := manager w; calls := cs; dns_tests := dns_tests w;
     accepted := accepted w; history := history w |}.
Definition with_rx (w : world) (r : receiver) : world :=
  {| rx := r; queue := queue w; manager := manager w; calls := calls w; dns_tests := dns_tests w;
     accepted := accepted w; history := history w |}.
Definition turned (w : world) (m : CertificateManager) (cs : gmap N call) (ts : gmap N DnsAccountConfig) (x : entry) : world :=
  {| rx := rx w; queue := queue w; manager := m; calls := cs; dns_tests := ts;
     accepted := accepted w; history := history w ++ [x] |}.

(** [Sender::send]: waits for a place, fails when the receiver is gone. *)
Definition send (w : world) (n : N) (c : Command) : option world :=
  if bool_decide (rx w = Closed) then Some (with_calls w (<[n := Returned not_started]> (calls w)))
  else if (length (queue w) <? COMMAND_CAPACITY)%nat then
    Some {| rx := rx w; queue := queue w ++ [c]; manager := manager w; calls := <[n := Awaiting]> (calls w);
            dns_tests := dns_tests w; accepted := accepted w ++ [c]; history := history w |}
  else None.

Definition handle_command (env : apply_env) (c : Command) (w : world) : world :=
  match c with
  | Apply config response =>
      turned w (apply_config io env (manager w) config) (respond response (Ok tt) (calls w)) (dns_tests w) (Ran env c)
  | Issue certificate_id response =>
      let '(r, m) := start_issue (manager w) certificate_id false in
      turned w m (respond response r (calls w)) (dns_tests w) (Ran env c)
  | Continue certificate_id response =>
      let '(r, m) := start_continue (manager w) certificate_id in
      turned w m (respond response r (calls w)) (dns_tests w) (Ran env c)
  | TestDns account response =>
      match test_dns (manager w) with
      | (Err e, m) => turned w m (respond response (Err e) (calls w)) (dns_tests w) (Ran env c)
      | (Ok _, m) => turned w m (calls w) (<[response := account]> (dns_tests w)) (Ran env c)
      end
  end.

Definition receive (env : apply_env) (w : world) : option world :=
  match rx w, queue w with
  | Running, c :: q =>
      Some (handle_command env c
        {| rx := rx w; queue := q; manager := manager w; calls := calls w; dns_tests := dns_tests w;
           accepted := accepted w; history := history w |})
  | _, _ => None
  end.

(** The end of [run]: the tasks are aborted, then the receiver is dropped with
    the commands it holds. *)
Definition close (w : world) : world :=
  let dropped := (map_to_list (dns_tests w)).*1 ++ (response_of <$> queue w) in
  {| rx := Closed; queue := []; manager := shutdown_manager (manager w); calls := hang_up dropped (calls w);
     dns_tests := ∅; accepted := accepted w; history := history w ++ [Ended] |}.

Inductive event :=
  | ECall (c : Command)
  | ESend (n : N)
  | EAbandon (n : N)
  | EStart
  | EReceive (env : apply_env)
  | EDnsEnd (n : N) (o : dns_end)
  | EOwn (e : CertManager.event)
  | EBreak
  | EClose.

(** The turns of the manager by itself: issuance tasks end and are joined, the
    scheduler ticks; reports come from the reload of the proxy. *)
Definition own_turn (r : receiver) (e : CertManager.event) : bool :=
  match e with
  | EEnd _ => bool_decide (r = Running ∨ r = Stopping)
  | EJoin _ _ _ | ETick _ _ => bool_decide (r = Running)
  | EReport _ _ => true
  | _ => false
  end.

Definition turn (ev : event) (w : world) : option world :=
  match ev with
  | ECall c =>
      match calls w !! response_of c with
      | None => Some (with_calls w (<[response_of c := Sending c]> (calls w)))
      | Some _ => None
      end
  | ESend n => match calls w !! n with Some (Sending c) => send w n c | _ => None end
  | EAbandon n =>
      match calls w !! n with
      | Some (Sending _) | Some Awaiting => Some (with_calls w (<[n := Gone]> (calls w)))
      | _ => None
      end
  | EStart => match take_receiver (rx w) with Ok r => Some (with_rx w r) | Err _ => None end
  | EReceive env => receive env w
  | EDnsEnd n o =>
      match dns_tests w !! n with
      | Some account =>
          Some (turned w (dns_test_done (manager w)) (respond n (dns_test account o) (calls w)) (delete n (dns_tests w))
                  (Tested account n o))
      | None => None
      end
  | EOwn e =>
      if own_turn (rx w) e then Some (turned w (CertManager.handle io e (manager w)) (calls w) (dns_tests w) (Own e)) else None
  | EBreak => match rx w with Running => Some (with_rx w Stopping) | _ => None end
  | EClose => match rx w with Stopping => Some (close w) | _ => None end
  end.

Definition run (evs : list event) (w : world) : option world :=
  foldl (λ o ev, w ← o; turn ev w) (Some w) evs.

(** ** The manager run alone, one command after the other *)

Definition event_of (x : entry) : option CertManager.event :=
  match x with
  | Ran env (Apply config _) => Some (EApply env config)
  | Ran _ (Issue id _) => Some (EIssue id)
  | Ran _ (Continue id _) => Some (EContinue id)
  | Ran _ (TestDns _ _) => Some ETestDns
  | Tested _ _ _ => Some EDnsDone
  | Own e => Some e
  | Ended => None
  end.
Definition entry_effect (x : entry) (m : CertificateManager) : CertificateManager :=
  match event_of x with Some e => CertManager.handle io e m | None => shutdown_manager m end.
Definition replay (m : CertificateManager) (xs : list entry) : CertificateManager :=
  foldl (λ m x, entry_effect x m) m xs.

Definition ran (xs : list entry) : list Command :=
  omap (λ x, match x with Ran _ c => Some c | _ => None end) xs.

(** The answer a command gets at once from a manager in state [m]. *)
Definition answer (m : CertificateManager) (c : Command) : option (PResult unit) :=
  match c with
  | Apply _ _ => Some (Ok tt)
  | Issue id _ => Some (start_issue m id false).1
  | Continue id _ => Some (start_continue m id).1
  | TestDns _ _ => match (test_dns m).1 with Err e => Some (Err e) | Ok _ => None end
  end.

(** [r] is the answer of the call [n] in the run [xs] of the manager. *)
Definition answered (m : CertificateManager) (xs : list entry) (n : N) (r : PResult unit) : Prop :=
  (∃ xs1 env c xs2, xs = xs1 ++ Ran env c :: xs2 ∧ response_of c = n ∧ answer (replay m xs1) c = Some r) ∨
  (∃ account xs1 o xs2, xs = xs1 ++ Tested account n o :: xs2 ∧ TestDns account n ∈ ran xs1 ∧ r = dns_test account o).

(** ** The permits of the DNS tests *)

(** Every turn but the two of a test leaves them alone. *)
Lemma foldl_permits {B} (g : CertificateManager → B → CertificateManager) m l :
  (∀ m b, dns_test_permits (g m b) = dns_test_permits m) → dns_test_permits (foldl g m l) = dns_test_permits m.
Proof. intros Hg. revert m. induction l as [|b l IH]; intros m; [done|]. cbn [foldl]. by rewrite IH, Hg. Qed.

Lemma fail_permits m id e now : dns_test_permits (fail_cert io m id e now) = dns_test_permits m.
Proof. unfold fail_cert. by destruct (can_retry m id). Qed.

Lemma start_issue_permits m id b : dns_test_permits (start_issue m id b).2 = dns_test_permits m.
Proof.
  destruct (start_issue m id b) as [r m'] eqn:E. apply start_issue_inv in E as (a & d & n & _ & E).
  destruct (start_blocked m id); [by destruct E as (_ & ->)|]. by destruct E as (_ & c & cert & req & _ & _ & _ & ->).
Qed.

Lemma start_continue_permits m id : dns_test_permits (start_continue m id).2 = dns_test_permits m.
Proof.
  destruct (start_continue m id) as [r m'] eqn:E.
  by apply start_continue_inv in E as [[-> _]|(_ & c & order & _ & _ & _ & _ & ->)].
Qed.

Lemma schedule_permits m now clock : dns_test_permits (schedule_due io m now clock) = dns_test_permits m.
Proof.
  assert (Hr : ∀ m l, dns_test_permits (foldl (renew_one io clock) m l) = dns_test_permits m).
  { intros m0 l. apply foldl_permits. intros m1 id. unfold renew_one. pose proof (start_issue_permits m1 id true) as Hs.
    destruct (start_issue m1 id true) as [[|e] m2]; [done|]. by rewrite fail_permits. }
  unfold schedule_due. case_goal; cbn [dns_test_permits publish set_snapshot set_statuses]; by rewrite Hr.
Qed.

Lemma swap_permits env m c : dns_test_permits (swap_config io env m c) = dns_test_permits m.
Proof.
  unfold swap_config, load_replacements.
  assert (Hl : ∀ m acc ks, dns_test_permits (foldl (load_one io env) (m, acc) ks).1 = dns_test_permits m).
  { intros m0 acc ks. revert m0 acc. induction ks as [|k ks IH]; intros m0 acc; [done|]. cbn [foldl]. unfold load_one at 2.
    destruct (load_certificate_runtime io env k). cbn [alloc]. by rewrite IH. }
  specialize (Hl (foldl drop_work m (elements (certificates_requiring_reload (config m) c) ++ removed_ids m c)) []
    (filter (λ k, cert_id k ∈ certificates_requiring_reload (config m) c) (certificates c))).
  destruct (foldl (load_one io env) _ _) as [m2 rs]. cbn [fst] in Hl. cbn [dns_test_permits set_config].
  rewrite foldl_permits by (intros m0 k; unfold reset_retry; repeat case_goal; done).
  rewrite foldl_permits by (by intros m0 [id|[[k h] st]]). rewrite Hl.
  apply foldl_permits. intros m0 id. unfold drop_work. by destruct (active m0 !! id).
Qed.

Lemma handle_task_permits m o now : dns_test_permits (handle_task io m o now) = dns_test_permits m.
Proof.
  unfold handle_task. destruct (active m !! _) as [a|]; [|done]. destruct (negb _); [done|].
  cbn [dns_test_permits publish set_snapshot].
  destruct (out_result o) as [[[c|]|]|[c|]|]; rewrite ?fail_permits; try done;
    unfold deploy; (destruct (_ ≫= _) as [[h key]|e]; [done|by rewrite fail_permits]).
Qed.

Lemma handle_permits e m :
  dns_test_permits (CertManager.handle io e m) =
  match e with
  | ETestDns => if dns_test_permits m =? 0 then 0 else dns_test_permits m - 1
  | EDnsDone => dns_test_permits m + 1
  | _ => dns_test_permits m
  end.
Proof.
  destruct e; cbn [CertManager.handle]; try done.
  - unfold apply_config. rewrite schedule_permits. apply swap_permits.
  - apply start_issue_permits.
  - apply start_continue_permits.
  - unfold test_dns. destruct (dns_test_permits m =? 0) eqn:E; [|done]. by apply N.eqb_eq.
  - unfold end_task. destruct (tasks m !! i) as [t|]; [|done]. by destruct (t_running t).
  - unfold join_task. destruct (tasks m !! i) as [t|]; [|done]. destruct (t_running t); [done|].
    destruct r; [by rewrite handle_task_permits|done].
  - apply schedule_permits.
Qed.

(** ** Calls and their answers *)

Lemma respond_lookup n r cs k : respond n r cs !! k =
  match cs !! k with Some Awaiting => if decide (n = k) then Some (Returned r) else Some Awaiting | o => o end.
Proof.
  unfold respond. destruct (decide (n = k)) as [->|Hne].
  - destruct (cs !! k) as [[]|] eqn:E; rewrite ?E; try done. by rewrite lookup_insert_eq.
  - destruct (cs !! n) as [[]|]; rewrite ?lookup_insert_ne by done; by destruct (cs !! k) as [[]|].
Qed.

Lemma hang_up_lookup ns cs k : hang_up ns cs !! k =
  match cs !! k with Some Awaiting => if decide (k ∈ ns) then Some (Returned runtime_closed) else Some Awaiting | o => o end.
Proof.
  induction ns as [|n ns IH]; cbn [hang_up foldr].
  - by destruct (cs !! k) as [[]|].
  - rewrite respond_lookup. fold (hang_up ns cs). rewrite IH. destruct (cs !! k) as [[]|]; try done.
    destruct (decide (k ∈ ns)) as [Hin|Hin]; [rewrite decide_True; [done|by right]|].
    destruct (decide (n = k)) as [->|Hne]; [by rewrite decide_True by left|].
    rewrite decide_False; [done|]. by intros [|]%elem_of_cons.
Qed.

Lemma replay_snoc m xs x : replay m (xs ++ [x]) = entry_effect x (replay m xs).
Proof. unfold replay. by rewrite foldl_snoc. Qed.

Lemma ran_snoc xs x : ran (xs ++ [x]) = ran xs ++ match x with Ran _ c => [c] | _ => [] end.
Proof. unfold ran. rewrite omap_app. by destruct x. Qed.

Lemma answered_snoc m xs n r x : answered m xs n r → answered m (xs ++ [x]) n r.
Proof.
  intros [(xs1 & env & c & xs2 & -> & H)|(a & xs1 & o & xs2 & -> & H)]; [left|right].
  - exists xs1, env, c, (xs2 ++ [x]). by rewrite <- app_assoc.
  - exists a, xs1, o, (xs2 ++ [x]). by rewrite <- app_assoc.
Qed.

Lemma answered_ran m xs n r : answered m xs n r → n ∈ response_of <$> ran xs.
Proof.
  intros [(xs1 & env & c & xs2 & -> & <- & _)|(a & xs1 & o & xs2 & -> & Hin & _)]; unfold ran; rewrite omap_app, fmap_app.
  - apply elem_of_app. right. cbn. left.
  - apply elem_of_app. left. by apply (list_elem_of_fmap_2 response_of) in Hin.
Qed.

(** Handling a command is the manager's turn for it and, unless a test has
    been started, its answer. *)
Lemma handle_command_spec env c w : ∃ cs ts,
  handle_command env c w = turned w (entry_effect (Ran env c) (manager w)) cs ts (Ran env c) ∧
  match answer (manager w) c with
  | Some r => cs = respond (response_of c) r (calls w) ∧ ts = dns_tests w ∧
      dns_test_permits (entry_effect (Ran env c) (manager w)) = dns_test_permits (manager w)
  | None => cs = calls w ∧ ∃ account n, c = TestDns account n ∧ ts = <[n := account]> (dns_tests w) ∧
      dns_test_permits (entry_effect (Ran env c) (manager w)) + 1 = dns_test_permits (manager w)
  end.
Proof.
  assert (Hp := handle_permits). destruct c as [config n|id n|id n|account n]; cbn [handle_command answer response_of].
  - eexists _, _. split; [done|]. split_and!; [done..|apply (Hp (EApply env config))].
  - specialize (Hp (EIssue id) (manager w)). unfold entry_effect. cbn [event_of CertManager.handle] in Hp |- *.
    destruct (start_issue (manager w) id false) as [r m]. eexists _, _. by split.
  - specialize (Hp (EContinue id) (manager w)). unfold entry_effect. cbn [event_of CertManager.handle] in Hp |- *.
    destruct (start_continue (manager w) id) as [r m]. eexists _, _. by split.
  - unfold entry_effect. cbn [event_of CertManager.handle]. unfold test_dns, start_error.
    destruct (N.eqb_spec (dns_test_permits (manager w)) 0) as [E|E]; cbn [fst snd]; eexists _, _; (split; [done|]); [done|].
    split; [done|]. exists account, n. split_and!; [done..|]. cbn. lia.
Qed.

(** ** Invariants *)

Record channel_ok (m0 : CertificateManager) (w : world) : Prop := {
  ch_manager : manager w = replay m0 (history w);
  ch_order : ∃ lost, accepted w = ran (history w) ++ queue w ++ lost ∧ (rx w = Closed ∨ lost = []);
  ch_capacity : (length (queue w) ≤ COMMAND_CAPACITY)%nat;
  ch_unique : NoDup (response_of <$> accepted w);
  ch_tests : ∀ n a, dns_tests w !! n = Some a → TestDns a n ∈ ran (history w);
  ch_permits : rx w = Closed ∨ dns_test_permits (manager w) + N.of_nat (size (dns_tests w)) = MAX_CONCURRENT_DNS_TESTS;
  ch_closed : rx w = Closed → queue w = [] ∧ dns_tests w = ∅;
  ch_held : rx w = Held → ran (history w) = [] }.

Definition call_ok (m0 : CertificateManager) (w : world) (n : N) (k : call) : Prop :=
  match k with
  | Sending c => response_of c = n ∧ n ∉ response_of <$> accepted w
  | Awaiting => n ∈ response_of <$> queue w ∨ is_Some (dns_tests w !! n)
  | Returned r => answered m0 (history w) n r ∨ rx w = Closed ∧ (r = not_started ∨ r = runtime_closed)
  | Gone => True
  end.
Definition calls_ok (m0 : CertificateManager) (w : world) : Prop :=
  (∀ n k, calls w !! n = Some k → call_ok m0 w n k) ∧ (∀ n, n ∈ response_of <$> accepted w → is_Some (calls w !! n)).

Lemma runtime_new_ok snapshot : channel_ok (manager_new snapshot) (runtime_new snapshot) ∧ calls_ok (manager_new snapshot) (runtime_new snapshot).
Proof.
  split; [split; cbn; try done|].
  - exists []. by split; [|right].
  - lia.
  - constructor.
  - by right.
  - split; [done|]. intros n Hn. by apply elem_of_nil in Hn.
Qed.

(** A command in the queue has not run, and no test carries its answer. *)
Lemma queued_fresh m0 w c : channel_ok m0 w → c ∈ queue w →
  response_of c ∉ response_of <$> ran (history w) ∧ dns_tests w !! response_of c = None.
Proof.
  intros Hch Hc. destruct (ch_order m0 w Hch) as (lost & Ho & _).
  assert (Hr : response_of c ∉ response_of <$> ran (history w)).
  { intros Hin. pose proof (ch_unique m0 w Hch) as Hu. rewrite Ho, fmap_app in Hu.
    apply NoDup_app in Hu as (_ & Hd & _). apply (Hd _ Hin). rewrite fmap_app. apply elem_of_app. left.
    by apply list_elem_of_fmap_2. }
  split; [done|]. destruct (dns_tests w !! response_of c) as [a|] eqn:Ea; [|done]. destruct Hr.
  apply (ch_tests m0 w Hch) in Ea.
  by apply (list_elem_of_fmap_2 response_of) in Ea.
Qed.

(** Changing the state of one call. *)
Lemma calls_insert m0 w n k : calls_ok m0 w → call_ok m0 w n k → calls_ok m0 (with_calls w (<[n := k]> (calls w))).
Proof.
  intros [Hk Hs] Hn. split.
  - intros n' k'. cbn. rewrite lookup_insert_Some. intros [[<- <-]|[_ Hk']]; [done|]. by apply Hk.
  - intros n' Hn'. cbn. destruct (decide (n = n')) as [<-|Hne]; [rewrite lookup_insert_eq; eauto|].
    rewrite lookup_insert_ne by done. by apply Hs.
Qed.

Lemma send_ok m0 w n c w' : channel_ok m0 w → calls_ok m0 w → calls w !! n = Some (Sending c) →
  send w n c = Some w' → channel_ok m0 w' ∧ calls_ok m0 w'.
Proof.
  intros Hch Hcs Hn. destruct (proj1 Hcs n _ Hn) as [Hc Hfresh]. unfold send. case_bool_decide as Hrx.
  { intros [= <-]. split; [by destruct Hch|]. apply calls_insert; [done|]. right. eauto. }
  destruct (Nat.ltb_spec (length (queue w)) COMMAND_CAPACITY) as [Hl|]; [|done]. intros [= <-].
  destruct Hch as [H1 H2 H3 H4 H5 H6 H7 H8]. destruct Hcs as [Hk Hs]. split; [split; cbn; try done|split].
  - destruct H2 as (lost & -> & [?| ->]); [done|]. exists []. rewrite app_nil_r. split; [by rewrite app_nil_r, <- app_assoc|by right].
  - rewrite length_app. cbn. lia.
  - rewrite fmap_app. apply NoDup_app. split_and!; [done| |apply NoDup_singleton].
    intros x Hx ->%list_elem_of_singleton. by rewrite Hc in Hx.
  - intros n' k'. cbn. rewrite lookup_insert_Some. intros [[<- <-]|[Hne Hk']].
    { cbn. left. rewrite fmap_app. apply elem_of_app. right. cbn. rewrite Hc. left. }
    specialize (Hk n' k' Hk'). destruct k' as [c'| |r|]; cbn in *; [|..|done].
    + destruct Hk as [Hk Hf]. split; [done|]. rewrite fmap_app, elem_of_app. intros [?|Hin%list_elem_of_singleton]; [done|].
      congruence.
    + rewrite fmap_app, elem_of_app. tauto.
    + done.
  - cbn. intros n'. rewrite fmap_app, elem_of_app. intros [Hin|Hin%list_elem_of_singleton].
    + destruct (decide (n = n')) as [<-|Hne]; [rewrite lookup_insert_eq; eauto|]. rewrite lookup_insert_ne by done. by apply Hs.
    + rewrite Hin, Hc, lookup_insert_eq. eauto.
Qed.

(** A turn of the manager that leaves the calls alone, and one that answers
    the call [n]. *)
Definition waits (w : world) (n : N) : Prop := n ∈ response_of <$> queue w ∨ is_Some (dns_tests w !! n).

Lemma calls_kept m0 w w' x : calls_ok m0 w → rx w' = rx w → accepted w' = accepted w → history w' = history w ++ [x] →
  calls w' = calls w → (∀ n, waits w n → waits w' n) → calls_ok m0 w'.
Proof.
  intros [Hk Hs] Er Ea Eh Ec Hw. split; [|by rewrite Ea, Ec]. rewrite Ec. intros n k Hn. specialize (Hk n k Hn).
  destruct k as [c| |r|]; cbn in *; [by rewrite Ea|by apply Hw| |done]. rewrite Eh, Er.
  destruct Hk as [?|?]; [left; by apply answered_snoc|by right].
Qed.

Lemma calls_answer m0 w w' x n r : calls_ok m0 w → rx w' = rx w → accepted w' = accepted w → history w' = history w ++ [x] →
  calls w' = respond n r (calls w) → answered m0 (history w') n r → (∀ n', n' ≠ n → waits w n' → waits w' n') → calls_ok m0 w'.
Proof.
  intros [Hk Hs] Er Ea Eh Ec Hn Hw. split.
  - rewrite Ec. intros n' k. rewrite respond_lookup. destruct (calls w !! n') as [k'|] eqn:E; [|done].
    specialize (Hk n' k' E). destruct k' as [c| |r'|]; cbn in *.
    + intros [= <-]. cbn. by rewrite Ea.
    + destruct (decide (n = n')) as [<-|Hne]; intros [= <-]; cbn; [by left|]. by apply Hw; [congruence|].
    + intros [= <-]. cbn. rewrite Er. destruct Hk as [?|?]; [left; rewrite Eh; by apply answered_snoc|by right].
    + by intros [= <-].
  - rewrite Ec, Ea. intros n' [k Ek]%Hs. rewrite respond_lookup, Ek. destruct k; eauto. destruct (decide _); eauto.
Qed.

Lemma receive_ok m0 w env w' : channel_ok m0 w → calls_ok m0 w → receive env w = Some w' →
  channel_ok m0 w' ∧ calls_ok m0 w'.
Proof.
  intros Hch Hcs. unfold receive. destruct (rx w) eqn:Erx; try done. destruct (queue w) as [|c q] eqn:Eq; [done|].
  intros [= <-]. set (w1 := {| rx := Running |}).
  destruct (queued_fresh m0 w c Hch) as [Hnew Ht]; [rewrite Eq; left|].
  destruct (handle_command_spec env c w1) as (cs & ts & -> & Hans). cbn [manager calls dns_tests w1] in Hans.
  destruct Hch as [H1 (lost & Ho & Hl) H3 H4 H5 H6 H7 H8]. destruct Hl as [Hl|Hl]; [congruence|]. subst lost.
  rewrite Eq, app_nil_r in Ho. destruct H6 as [?|H6]; [congruence|].
  assert (Hw : ∀ n, n ≠ response_of c → n ∈ response_of <$> queue w → n ∈ response_of <$> q).
  { intros n Hne. rewrite Eq, fmap_cons. by intros [?|?]%elem_of_cons. }
  split; [split; cbn [rx queue manager calls dns_tests accepted history turned w1]; try done|].
  - by rewrite replay_snoc, H1.
  - exists []. rewrite app_nil_r, ran_snoc, Ho, <- app_assoc. split; [done|by right].
  - rewrite Eq in H3. cbn in H3. lia.
  - intros n a. rewrite ran_snoc, elem_of_app. destruct (answer _ c) as [r|].
    { destruct Hans as (_ & -> & _). intros Ha. left. by apply H5. }
    destruct Hans as (_ & b & m & -> & -> & _). rewrite lookup_insert_Some. intros [[<- <-]|[_ Ha]]; [right; left|left; by apply H5].
  - right. destruct (answer _ c) as [r|]; [by destruct Hans as (_ & -> & ->)|].
    destruct Hans as (_ & a & n & -> & -> & Hp). rewrite map_size_insert_None by done. lia.
  - destruct (answer (manager w) c) as [r|] eqn:Ea.
    + destruct Hans as (-> & -> & _). apply (calls_answer m0 w _ (Ran env c) (response_of c) r); try done.
      * left. exists (history w), env, c, []. split_and!; [done..|]. by rewrite <- H1.
      * intros n Hne [Hin|Hin]; [left; by apply Hw|by right].
    + destruct Hans as (-> & a & m & -> & -> & _). apply (calls_kept m0 w _ (Ran env (TestDns a m))); try done.
      intros n Hn. unfold waits. cbn. destruct (decide (m = n)) as [<-|Hne]; [right; rewrite lookup_insert_eq; eauto|].
      rewrite lookup_insert_ne by done. destruct Hn as [Hn|Hn]; [left; apply Hw; [cbn; congruence|done]|by right].
Qed.

Lemma dns_end_ok m0 w n account o : channel_ok m0 w → calls_ok m0 w → dns_tests w !! n = Some account →
  let w' := turned w (dns_test_done (manager w)) (respond n (dns_test account o) (calls w)) (delete n (dns_tests w))
              (Tested account n o) in
  channel_ok m0 w' ∧ calls_ok m0 w'.
Proof.
  intros Hch Hcs Hn w'. pose proof (ch_tests m0 w Hch n account Hn) as Hin.
  split; [|apply (calls_answer m0 w w' (Tested account n o) n (dns_test account o)); try done].
  - destruct Hch as [H1 (lost & Ho & Hl) H3 H4 H5 H6 H7 H8].
    split; cbn [rx queue manager calls dns_tests accepted history turned w']; try done.
    + by rewrite replay_snoc, <- H1.
    + exists lost. rewrite ran_snoc, app_nil_r. done.
    + intros n' a'. rewrite lookup_delete_Some, ran_snoc, app_nil_r. intros [_ Ha]. by apply H5.
    + destruct H6 as [?|H6]; [by left|right]. rewrite map_size_delete_Some by eauto. cbn.
      assert (size (dns_tests w) ≠ 0%nat) by (intros E%map_size_empty_iff; rewrite E, lookup_empty in Hn; done). lia.
    + intros Hrx. destruct (H7 Hrx) as [-> Ht]. by rewrite Ht, lookup_empty in Hn.
    + intros Hrx. by rewrite ran_snoc, H8.
  - right. exists account, (history w), o, []. done.
  - intros n' Hne [?|?]; [by left|right]. cbn. by rewrite lookup_delete_ne.
Qed.

Lemma own_ok m0 w e : channel_ok m0 w → calls_ok m0 w → own_turn (rx w) e = true →
  let w' := turned w (CertManager.handle io e (manager w)) (calls w) (dns_tests w) (Own e) in
  channel_ok m0 w' ∧ calls_ok m0 w'.
Proof.
  intros [H1 (lost & Ho & Hl) H3 H4 H5 H6 H7 H8] Hcs He w'. split; [|by apply (calls_kept m0 w w' (Own e))].
  split; cbn [rx queue manager calls dns_tests accepted history turned w']; rewrite ?ran_snoc, ?app_nil_r; try done.
  - by rewrite replay_snoc, <- H1.
  - by exists lost.
  - rewrite handle_permits. by destruct e.
Qed.

Lemma close_ok m0 w : channel_ok m0 w → calls_ok m0 w → rx w = Stopping → channel_ok m0 (close w) ∧ calls_ok m0 (close w).
Proof.
  intros [H1 (lost & Ho & Hl) H3 H4 H5 H6 H7 H8] [Hk Hs] Erx. split; [split; cbn; try done|split].
  - by rewrite replay_snoc, <- H1.
  - exists (queue w). rewrite ran_snoc, app_nil_r. destruct Hl as [?| ->]; [congruence|].
    split; [by rewrite Ho, app_nil_r|by left].
  - lia.
  - by left.
  - intros n k. cbn [calls close]. rewrite hang_up_lookup. destruct (calls w !! n) as [k'|] eqn:E; [|done].
    specialize (Hk n k' E). destruct k' as [c| |r|]; cbn in Hk.
    + intros [= <-]. exact Hk.
    + rewrite decide_True; [intros [= <-]; cbn; right; eauto|]. apply elem_of_app.
      destruct Hk as [Hk|[a Ha]]; [by right|left]. apply list_elem_of_fmap. exists (n, a). by rewrite elem_of_map_to_list.
    + intros [= <-]. cbn. destruct Hk as [?|[? _]]; [left; by apply answered_snoc|congruence].
    + by intros [= <-].
  - cbn [accepted calls close]. intros n [k Ek]%Hs. rewrite hang_up_lookup, Ek. destruct k; eauto. destruct (decide _); eauto.
Qed.

(** ** Every turn keeps them *)

Lemma turn_ok m0 ev w w' : turn ev w = Some w' → channel_ok m0 w → calls_ok m0 w → channel_ok m0 w' ∧ calls_ok m0 w'.
Proof.
  intros Ht Hch Hcs. destruct ev as [c|n|n| |env|n o|e| |]; cbn [turn] in Ht.
  - destruct (calls w !! response_of c) eqn:E; [done|]. injection Ht as <-. split; [by destruct Hch|].
    apply calls_insert; [done|]. split; [done|]. intros Hin. apply (proj2 Hcs) in Hin as [k Hk]. congruence.
  - destruct (calls w !! n) as [[c| | |]|] eqn:E; try done. by apply (send_ok m0 w n c).
  - assert (Hw : w' = with_calls w (<[n := Gone]> (calls w))) by (destruct (calls w !! n) as [[]|]; congruence).
    subst w'. split; [by destruct Hch|]. by apply calls_insert.
  - destruct (take_receiver (rx w)) as [r|] eqn:E; [|done]. injection Ht as <-.
    assert (rx w = Held ∧ r = Running) as [Er ->] by (by destruct (rx w); cbn in E; simplify_eq).
    destruct Hch as [H1 (lost & Ho & [?|Hl]) H3 H4 H5 [?|H6] H7 H8]; try congruence.
    split; [split; cbn; try done; eauto|]. split; [|apply Hcs].
    intros n k Hn. apply Hcs in Hn. destruct k as [| |r|]; try done. destruct Hn as [?|[? _]]; [by left|congruence].
  - by apply (receive_ok m0 w env).
  - destruct (dns_tests w !! n) as [account|] eqn:E; [|done]. injection Ht as <-. by apply dns_end_ok.
  - destruct (own_turn (rx w) e) eqn:E; [|done]. injection Ht as <-. by apply own_ok.
  - destruct (rx w) eqn:Er; try done. injection Ht as <-.
    destruct Hch as [H1 (lost & Ho & [?|Hl]) H3 H4 H5 [?|H6] H7 H8]; try congruence.
    split; [split; cbn; try done; eauto|]. split; [|apply Hcs].
    intros n k Hn. apply Hcs in Hn. destruct k as [| |r|]; try done. destruct Hn as [?|[? _]]; [by left|congruence].
  - destruct (rx w) eqn:Er; try done. injection Ht as <-. by apply close_ok.
Qed.

Lemma run_snoc evs ev w : run (evs ++ [ev]) w = (w ← run evs w; turn ev w).
Proof. unfold run. by rewrite foldl_snoc. Qed.

Lemma run_ok m0 evs w w' : run evs w = Some w' → channel_ok m0 w → calls_ok m0 w → channel_ok m0 w' ∧ calls_ok m0 w'.
Proof.
  revert w'. induction evs as [|ev evs IH] using rev_ind; intros w'; [by intros [= <-]|].
  rewrite run_snoc. intros (w1 & H1 & Ht)%bind_Some Hch Hcs. destruct (IH w1 H1 Hch Hcs). by apply (turn_ok m0 ev w1).
Qed.

(** ** How long a call waits *)

Fixpoint receives (evs : list event) : nat :=
  match evs with [] => 0 | EReceive _ :: evs => S (receives evs) | _ :: evs => receives evs end.

Lemma receives_app evs evs' : receives (evs ++ evs') = (receives evs + receives evs')%nat.
Proof. induction evs as [|[] evs IH]; cbn; by rewrite ?IH. Qed.

(** Commands leave the queue in its order, one by one, and run. *)
Definition drained (w w' : world) (k : nat) : Prop :=
  ∃ l taken, queue w ++ l = taken ++ queue w' ∧ length taken = k ∧ ran (history w') = ran (history w) ++ taken.

Lemma undrained w w' : (∃ l, queue w' = queue w ++ l) → ran (history w') = ran (history w) → drained w w' 0.
Proof. intros [l E] Er. exists l, []. by rewrite E, Er, app_nil_r. Qed.

Lemma turn_drained ev w w' : turn ev w = Some w' → rx w' ≠ Closed → rx w ≠ Closed ∧ drained w w' (receives [ev]).
Proof.
  intros Ht Hrx. assert (Hsame : rx w ≠ Closed → queue w' = queue w → ran (history w') = ran (history w) →
    receives [ev] = 0%nat → rx w ≠ Closed ∧ drained w w' (receives [ev])).
  { intros Er Eq Eh ->. split; [done|]. apply undrained; [|done]. exists []. by rewrite app_nil_r. }
  destruct ev as [c|n|n| |env|n o|e| |]; cbn [turn] in Ht.
  - destruct (calls w !! response_of c); [done|]. injection Ht as <-. by apply Hsame.
  - destruct (calls w !! n) as [[c| | |]|]; try done. unfold send in Ht. case_bool_decide; [by injection Ht as <-|].
    destruct (_ <? _)%nat; [|done]. injection Ht as <-. split; [done|]. apply undrained; [by exists [c]|done].
  - destruct (calls w !! n) as [[]|]; try done; injection Ht as <-; by apply Hsame.
  - destruct (rx w) eqn:E; try done. injection Ht as <-. by apply Hsame.
  - unfold receive in Ht. destruct (rx w) eqn:E; try done. destruct (queue w) as [|c q] eqn:Eq; [done|]. injection Ht as <-.
    split; [done|]. exists [], [c]. match goal with |- context [handle_command env c ?w1] =>
      destruct (handle_command_spec env c w1) as (cs & ts & -> & _) end. by rewrite Eq, app_nil_r; cbn; rewrite ran_snoc.
  - destruct (dns_tests w !! n); [|done]. injection Ht as <-. apply Hsame; [done..| |done]. cbn. by rewrite ran_snoc, app_nil_r.
  - destruct (own_turn _ _); [|done]. injection Ht as <-. apply Hsame; [done..| |done]. cbn. by rewrite ran_snoc, app_nil_r.
  - destruct (rx w) eqn:E; try done. injection Ht as <-. by apply Hsame.
  - destruct (rx w); try done. by injection Ht as <-.
Qed.

Lemma run_drained evs w w' : run evs w = Some w' → rx w' ≠ Closed → drained w w' (receives evs).
Proof.
  revert w'. induction evs as [|ev evs IH] using rev_ind; intros w'.
  { intros [= <-] _. apply undrained; [|done]. exists []. by rewrite app_nil_r. }
  rewrite run_snoc. intros (w1 & H1 & Ht)%bind_Some Hrx. destruct (turn_drained ev w1 w' Ht Hrx) as (Hrx1 & l1 & t1 & E1 & L1 & R1).
  destruct (IH w1 H1 Hrx1) as (l & t & E & Hl & R). exists (l ++ l1), (t ++ t1).
  rewrite app_assoc, E, <- app_assoc, E1, app_assoc. split; [done|]. rewrite length_app, receives_app, Hl, L1. split; [done|].
  by rewrite R1, R, app_assoc.
Qed.

(** After [COMMAND_CAPACITY] receptions a call that waited before them is not
    in the queue any more. *)
Lemma overtaken m0 more w w' n : run more w = Some w' → rx w' ≠ Closed → channel_ok m0 w → channel_ok m0 w' →
  waits w n → (COMMAND_CAPACITY ≤ receives more)%nat → n ∉ response_of <$> queue w'.
Proof.
  intros Hrun Hrx Hch Hch' Hw Hle Hq'. destruct (run_drained more w w' Hrun Hrx) as (l & taken & E & Hl & Hr).
  destruct (ch_order _ _ Hch') as (lost & Ho & _). pose proof (ch_unique _ _ Hch') as Hu.
  rewrite Ho, Hr, !fmap_app in Hu. apply NoDup_app in Hu as (_ & Hd & _).
  apply (Hd n); [|apply elem_of_app; by left]. apply elem_of_app. destruct Hw as [Hq|[a Ha]].
  - right. assert (Hp : queue w `prefix_of` taken).
    { destruct (prefix_weak_total (queue w) taken (queue w ++ l)) as [?|Hp]; [by eexists|rewrite E; by eexists|done|].
      pose proof (ch_capacity _ _ Hch). apply prefix_length_eq in Hp as ->; [done|lia]. }
    destruct Hp as [t ->]. rewrite fmap_app. apply elem_of_app. by left.
  - left. by apply (list_elem_of_fmap_2 response_of _ _ (ch_tests _ _ Hch n a Ha)).
Qed.

(** Without a start the receiver stays where it is. *)
Lemma unstarted evs w w' : run evs w = Some w' → EStart ∉ evs → rx w = Held → rx w' = Held.
Proof.
  revert w'. induction evs as [|ev evs IH] using rev_ind; intros w'; [by intros [= <-]|].
  rewrite run_snoc, not_elem_of_app. intros (w1 & H1 & Ht)%bind_Some [He Hev] Hrx. specialize (IH w1 H1 He Hrx).
  destruct ev as [c|n|n| |env|n o|e| |]; cbn [turn] in Ht.
  - destruct (calls w1 !! response_of c); [done|]. by injection Ht as <-.
  - destruct (calls w1 !! n) as [[c| | |]|]; try done. unfold send in Ht. case_bool_decide; [by injection Ht as <-|].
    destruct (_ <? _)%nat; [|done]. by injection Ht as <-.
  - by destruct (calls w1 !! n) as [[]|]; try done; injection Ht as <-.
  - destruct Hev. left.
  - unfold receive in Ht. by rewrite IH in Ht.
  - destruct (dns_tests w1 !! n); [|done]. by injection Ht as <-.
  - destruct (own_turn _ _); [|done]. by injection Ht as <-.
  - by rewrite IH in Ht.
  - by rewrite IH in Ht.
Qed.
End commands.

(** ** Theorems *)

(** C9: however callers, the reload of the proxy and the tests interleave, the
    manager's state is that of its turns one after the other; the commands run
    once each, in the order they entered the channel; a call that returns has
    the answer its command got at its place in that order, or that of its
    credentials test, or has found the manager stopped.  At most sixty-four
    commands wait and at most four tests run. *)
Theorem commands_linearised {L : TlsLib} {A : AcmeLib} io create_provider snapshot evs w :
  run io create_provider evs (runtime_new snapshot) = Some w →
  manager w = replay io (manager_new snapshot) (history w) ∧
  (∃ rest, accepted w = ran (history w) ++ rest ∧ (rx w = Closed ∨ rest = queue w)) ∧
  NoDup (response_of <$> accepted w) ∧
  (∀ n r, calls w !! n = Some (Returned r) →
     answered io create_provider (manager_new snapshot) (history w) n r ∨
     rx w = Closed ∧ (r = not_started ∨ r = runtime_closed)) ∧
  (length (queue w) ≤ COMMAND_CAPACITY)%nat ∧ N.of_nat (size (dns_tests w)) <= MAX_CONCURRENT_DNS_TESTS.
Proof.
  intros Hrun. destruct (runtime_new_ok io create_provider snapshot) as [Hch Hcs].
  destruct (run_ok io create_provider _ evs _ w Hrun Hch Hcs) as [[H1 (lost & Ho & Hl) H3 H4 H5 H6 H7 H8] [Hk _]].
  split_and!; try done.
  - exists (queue w ++ lost). split; [done|]. destruct Hl as [?| ->]; [by left|right; by rewrite app_nil_r].
  - intros n r Hn. exact (Hk n _ Hn).
  - destruct H6 as [Hc|?]; [|lia]. destruct (H7 Hc) as [_ ->]. rewrite map_size_empty. lia.
Qed.

(** C18: a call that waits for its answer is not forgotten: as long as the manager
    has been started, it, the test or the end of the manager can go on; once
    sixty-four more commands have been received only its own credentials test
    can still make it wait; and nobody waits for a manager that has ended. *)
Theorem calls_settle {L : TlsLib} {A : AcmeLib} io create_provider snapshot evs w n :
  run io create_provider evs (runtime_new snapshot) = Some w → calls w !! n = Some Awaiting →
  (rx w ≠ Held → ∀ env o, is_Some (turn io create_provider (EReceive env) w) ∨
     is_Some (turn io create_provider (EDnsEnd n o) w) ∨ is_Some (turn io create_provider EClose w)) ∧
  (∀ more w', run io create_provider more w = Some w' → calls w' !! n = Some Awaiting →
     rx w' ≠ Closed ∧ ((COMMAND_CAPACITY ≤ receives more)%nat → is_Some (dns_tests w' !! n))).
Proof.
  intros Hrun Hn. destruct (runtime_new_ok io create_provider snapshot) as [Hch0 Hcs0].
  destruct (run_ok io create_provider _ evs _ w Hrun Hch0 Hcs0) as [Hch Hcs]. pose proof (proj1 Hcs n _ Hn) as Hw.
  split.
  - intros Hrx env o. destruct Hw as [Hq|[a Ha]]; [|right; left; cbn; rewrite Ha; eauto].
    destruct (rx w) eqn:E; [done|left|by right; right; cbn; rewrite E; eauto|].
    + cbn. unfold receive. rewrite E. destruct (queue w); [by apply elem_of_nil in Hq|eauto].
    + destruct (ch_closed _ _ _ Hch E) as [Eq _]. rewrite Eq in Hq. by apply elem_of_nil in Hq.
  - intros more w' Hmore Hn'. destruct (run_ok io create_provider _ more _ w' Hmore Hch Hcs) as [Hch' Hcs'].
    pose proof (proj1 Hcs' n _ Hn') as Hw'.
    assert (Hrx : rx w' ≠ Closed).
    { intros E. destruct (ch_closed _ _ _ Hch' E) as [Eq Et]. destruct Hw' as [Hq|Ht]; [rewrite Eq in Hq|rewrite Et, lookup_empty in Ht].
      - by apply elem_of_nil in Hq.
      - by destruct Ht. }
    split; [done|]. intros Hle. destruct Hw' as [Hq'|?]; [|done]. exfalso.
    by apply (overtaken io create_provider _ more w w' n Hmore Hrx Hch Hch' Hw Hle).
Qed.

(** Calls that are accepted before the proxy is started are never answered:
    when the start fails before [run_manager], for instance because the file of
    the proxy cannot be loaded, the receiver stays in the runtime the control
    plane holds, and its request waits for good. *)
Theorem unstarted_never_answers {L : TlsLib} {A : AcmeLib} io create_provider snapshot evs w n r :
  run io create_provider evs (runtime_new snapshot) = Some w → EStart ∉ evs →
  rx w = Held ∧ calls w !! n ≠ Some (Returned r).
Proof.
  intros Hrun He. destruct (runtime_new_ok io create_provider snapshot) as [Hch0 Hcs0].
  destruct (run_ok io create_provider _ evs _ w Hrun Hch0 Hcs0) as [Hch Hcs].
  assert (Hrx : rx w = Held) by by apply (unstarted io create_provider evs (runtime_new snapshot)).
  split; [done|]. intros Hn. pose proof (proj1 Hcs n _ Hn) as Hr. cbn in Hr. destruct Hr as [Hr|[? _]]; [|congruence].
  apply answered_ran in Hr. rewrite (ch_held _ _ _ Hch Hrx) in Hr. by apply elem_of_nil in Hr.
Qed.

(** What the reload of the proxy sees of its own command: applied at its place,
    or the manager has ended. *)
Theorem apply_call_outcome {L : TlsLib} {A : AcmeLib} io create_provider snapshot evs w config n r :
  run io create_provider evs (runtime_new snapshot) = Some w →
  Apply config n ∈ accepted w → calls w !! n = Some (Returned r) →
  (r = Ok tt ∧ Apply config n ∈ ran (history w)) ∨ rx w = Closed ∧ (r = not_started ∨ r = runtime_closed).
Proof.
  intros Hrun Hin Hn. destruct (runtime_new_ok io create_provider snapshot) as [Hch0 Hcs0].
  destruct (run_ok io create_provider _ evs _ w Hrun Hch0 Hcs0) as [Hch Hcs].
  pose proof (proj1 Hcs n _ Hn) as Hr. cbn in Hr. destruct Hr as [Hr|?]; [left|by right].
  destruct (ch_order _ _ _ Hch) as (lost & Ho & _).
  assert (Hsame : ∀ c, c ∈ ran (history w) → response_of c = n → c = Apply config n).
  { intros c Hc En. pose proof (ch_unique _ _ _ Hch) as Hu.
    assert (Hc' : c ∈ accepted w) by (rewrite Ho; apply elem_of_app; by left).
    apply list_elem_of_lookup in Hc' as [i Hi], Hin as [j Hj].
    assert (i = j) as ->; [|congruence]. apply (NoDup_lookup _ i j n Hu); rewrite list_lookup_fmap; [by rewrite Hi, <- En|by rewrite Hj]. }
  destruct Hr as [(xs1 & env & c & xs2 & Eh & En & Ha)|(a & xs1 & o & xs2 & Eh & Ht & _)].
  - assert (Hc : c ∈ ran (history w)) by (rewrite Eh; unfold ran; rewrite omap_app; apply elem_of_app; right; left).
    apply (Hsame c Hc) in En as ->. cbn in Ha. split; [congruence|done].
  - assert (Hc : TestDns a n ∈ ran (history w)) by (rewrite Eh; unfold ran; rewrite omap_app; apply elem_of_app; by left).
    by specialize (Hsame _ Hc eq_refl).
Qed.

(** ** Witnesses *)

#[local] Existing Instances sample_tls sample_acme.
Definition any_provider (_ : ProviderCredentials) : result str unit := Ok tt.

(** The configuration is applied and the certificate [a] is requested; a second
    request for it waits behind it. *)
Definition sample_calls : list event :=
  [ECall (Apply sample_five 0); ESend 0; EStart; EReceive sample_env;
   ECall (Issue (lit "a") 1); ECall (Issue (lit "a") 2); ESend 1; ESend 2; EReceive sample_env].
Definition no_world : world := runtime_new sample_snapshot.
Definition calls_world : world := default no_world (run sample_io any_provider sample_calls (runtime_new sample_snapshot)).

Lemma calls_run : run sample_io any_provider sample_calls (runtime_new sample_snapshot) = Some calls_world.
Proof. vm_compute. reflexivity. Qed.
Lemma calls_answers : calls calls_world !! 1 = Some (Returned (Ok tt)) ∧ calls calls_world !! 2 = Some Awaiting.
Proof. vm_compute. done. Qed.

Lemma commands_linearised_witness :
  calls calls_world !! 1 = Some (Returned (Ok tt)) ∧
  (answered sample_io any_provider (manager_new sample_snapshot) (history calls_world) 1 (Ok tt) ∨
   rx calls_world = Closed ∧ (Ok tt = not_started ∨ Ok tt = runtime_closed)).
Proof.
  destruct calls_answers as [H1 _]. split; [exact H1|].
  destruct (commands_linearised sample_io any_provider sample_snapshot sample_calls calls_world calls_run) as (_ & _ & _ & Ha & _).
  exact (Ha 1 (Ok tt) H1).
Defined.

(** The manager ends: the second request is told so. *)
Definition ended_world : world := default no_world (run sample_io any_provider [EBreak; EClose] calls_world).
Lemma ended_run : run sample_io any_provider [EBreak; EClose] calls_world = Some ended_world.
Proof. vm_compute. reflexivity. Qed.

Lemma calls_settle_witness : calls calls_world !! 2 = Some Awaiting ∧ calls ended_world !! 2 ≠ Some Awaiting.
Proof.
  destruct calls_answers as [_ H2]. split; [exact H2|]. intros Hw.
  destruct (calls_settle sample_io any_provider sample_snapshot sample_calls calls_world 2 calls_run H2) as [_ Hs].
  destruct (Hs [EBreak; EClose] ended_world ended_run Hw) as [Hc _]. apply Hc. vm_compute. reflexivity.
Defined.

Definition early_calls : list event := [ECall (Issue (lit "a") 1); ESend 1].
Definition early_world : world := default no_world (run sample_io any_provider early_calls (runtime_new sample_snapshot)).
Lemma early_run : run sample_io any_provider early_calls (runtime_new sample_snapshot) = Some early_world.
Proof. vm_compute. reflexivity. Qed.

Lemma unstarted_never_answers_witness :
  calls early_world !! 1 = Some Awaiting ∧ calls early_world !! 1 ≠ Some (Returned (Ok tt)).
Proof.
  split; [vm_compute; reflexivity|].
  apply (unstarted_never_answers sample_io any_provider sample_snapshot early_calls early_world 1 (Ok tt) early_run).
  unfold early_calls. by intros [[=]|[[=]|Hn%elem_of_nil]%elem_of_cons]%elem_of_cons.
Defined.

Lemma apply_call_outcome_witness :
  Apply sample_five 0 ∈ ran (history calls_world) ∨ rx calls_world = Closed.
Proof.
  destruct (apply_call_outcome sample_io any_provider sample_snapshot sample_calls calls_world sample_five 0 (Ok tt)
    calls_run) as [[_ ?]|[? _]]; [vm_compute; left|vm_compute; reflexivity|by left|by right].
Defined.
